(* ===== verification/_CoqProject ===== *)
-Q . S2P
Prelude.v
Ledger.v
InMemory.v
Conformance.v
Budget.v
Sql.v
SqlLedger.v
SqlContract.v
Usage.v
Evidence.v
EvidenceOps.v
EvidenceInv.v
EvidenceProps.v
Sharded.v
ProxyLedger.v
Allowance.v
Lifecycle.v
Settlement.v
Jobs.v
JobsProps.v
Json.v
UsageParse.v
LineSplit.v
Text.v
StreamUsage.v
Stats.v
StatsProps.v
Alerts.v
Attempt.v
Resilience.v
TokenEstimate.v
Accounting.v
AccountingProps.v
Passthrough.v
Metering.v
Inspect.v
InspectProps.v
Policy.v
PolicyGate.v
StreamEncoder.v
AnthropicStream.v
ResponsesStream.v
OpenAiStream.v
Headers.v
Keys.v
KeysProps.v
Auth.v
AuthProps.v
Clients.v
Deadlines.v
RateLimit.v
ChatRequest.v
RequestDecode.v
RequestEncode.v
RequestProps.v
TranslateProps.v
Session.v
TextEndpoints.v
FrontDoor.v
FrontDoorProps.v
ResponseCodec.v
ResponseProps.v
StreamDecode.v
StreamDecodeProps.v
NativeEncode.v
NativeProps.v
Buffered.v
BufferedProps.v
TrackedProps.v
StreamBody.v
StreamBodyProps.v
QualifiedStream.v
QualifiedProps.v
Sink.v
