(* ===== verification/Prelude.v ===== *)
(** * Sandhi: verified metering, budgets and settlement

    Sandhi is a gateway in front of language-model providers.  Before a
    call it reserves a ceiling of tokens against the caller's budget, after
    the call it settles the tokens the provider reported, and it keeps
    durable evidence so that a crash neither loses nor doubles a charge.
    This library models the code that decides about tokens and proves that
    it keeps its promises.

    ** The parts and how they meet

    The front door ([proxy/preparation.rs], [proxy/lib.rs]) takes a request
    through its checks in order.  The request presents a virtual key, which an operator shared and may
    revoke ([core/keys.rs], [store/vkeys.rs], [proxy/operator.rs]), a token
    of the identity provider or a key delegated for one ([proxy/auth.rs]), or
    a key exchanged for a client secret ([proxy/client_credentials.rs]).  It
    then passes the policy: its texts are collected
    ([core/policy.rs]), the rules judge them, and the decision is admitted
    only with a receipt in the audit store ([proxy/policy.rs],
    [store/policy.rs]).  It is admitted by the jobs registry of the proxy
    ([proxy/settlement/jobs.rs]): an obligation submits an admission, whose
    worker takes the proxy's ledger lock and reserves a ceiling with an
    execution intent; an authorization, which raises the dispatch fence;
    and a settlement, which records the terminal usage and charges it.  The
    ledger of the proxy ([proxy/ledger.rs]) is in memory
    ([core/ledger.rs]) or durable: shards ([store/sharded.rs]) of an SQLite
    ledger ([store/ledger.rs]) with evidence tables
    ([store/ledger/evidence.rs], [.../dispatch.rs]).  The charge is the
    billable function of the usage record ([core/event.rs]), which the
    parsers ([core/usage.rs]) and the stream observer
    ([providers/stream_usage.rs]) read from the provider's answer.  The call
    itself goes through the resilient provider ([providers/resilience.rs]),
    each physical attempt observed ([providers/attempt.rs]), and a streamed
    answer through the metered pass-through ([providers/lib.rs]), which
    embedders wrap in a meter ([providers/metering.rs]).  A request that is
    translated is decoded into the canonical request and encoded for the
    family of its upstream ([proxy/codec.rs], [providers/typed.rs],
    [providers/anthropic_typed.rs], [providers/gemini_typed.rs],
    [providers/openai_responses_typed.rs]).  A translated
    answer is decoded, whole or as canonical events, by the codec of its
    family ([providers/typed.rs], [providers/anthropic_typed.rs] and the
    other [providers/*_typed.rs]), its cache reads observed on the way
    ([providers/cache_read.rs]), and encoded into the body or the frames of
    the caller's dialect ([proxy/codec.rs]).  Without
    the durable registry, the handler ([proxy/lib.rs]) keeps the accounting
    of a request itself: it reserves, rolls back, holds the usage of the
    running response and settles it when the request ends or is abandoned,
    and what it settles trains the estimate of input tokens
    ([providers/token_estimate.rs]).  The settled
    events are folded into statistics ([core/stats.rs]) and the spend of a
    scope into alerts ([core/alerts.rs]).  With it, a task owns the request from
    its admission to its settlement ([proxy/settlement/buffered.rs]), and the
    evidence it may leave behind is recovered in slices.  A streamed answer
    with a lifetime is a body with an owner of its own
    ([proxy/streaming.rs]), fed from the qualified stream of its attempt
    ([providers/raw/qualified_stream.rs], [proxy/streaming/qualified.rs]).
    Events leave through a buffer with a worker ([core/sink.rs],
    [proxy/persistence.rs]).  The process lifecycle
    ([proxy/lifecycle.rs]) cuts admissions off and drains.

    ** The files

    - [Prelude]: results, machine integers at their width, instants, a
      state-and-error monad, lemmas and tactics shared by all files.
    - [Ledger]: the traits [LedgerView] and [EnforcementLedger] as classes,
      the abstract lease machine that specifies them, and the class
      [LedgerContract] of an implementation that refines it.
      [InMemory]: the in-memory ledger and its refinement.
      [Conformance]: the repository's conformance suite as programs over
      the classes, proved against the contract alone.
    - [Budget]: the windowed budget ledger of [core/budget.rs].
    - [Sql]: the tables as finite maps, one function per statement, and a
      storage whose next statement or commit may fail as a script says.
      [SqlLedger]: the operations of [store/ledger.rs] in the monad,
      transactions included.  [SqlContract]: its refinement of the lease
      machine and the atomicity of a reservation.
    - [Usage]: usage records, cache-read observations, billable tokens.
      [Allowance]: weighted allowance quotes ([core/allowance.rs]).
    - [Evidence], [EvidenceOps]: the dispatch fence, intents, observations,
      receipts and claims.  [EvidenceInv]: the invariant that ties the
      tables together, what an operation may change, and that each one
      keeps both.  [EvidenceProps]: what follows over whole histories.
    - [Sharded]: routing, the durable operations through a shard, and the
      migration of a single-file ledger.
    - [ProxyLedger]: both arms of the proxy's ledger with the policy each
      operation has for a failing storage.
    - [Lifecycle]: phases, deadline, guards and waiters as a step relation.
    - [Settlement]: the owners of a settlement and of a dispatch, and
      prepared admission, under the non-blocking lock.
    - [Jobs]: the critical sections of the registry and the step relation
      that interleaves them.  [JobsProps]: its invariants.
    - [Json]: JSON values as the class [JsonValue] with the laws the code
      relies on ([LawfulJson]) and a concrete instance.  [UsageParse]: the
      parsers of every provider family, the qualification of buffered and
      streamed usage, cache-read observations and their coverage.
    - [LineSplit]: the incremental line splitter.  [StreamUsage]: the
      observer of server-sent events, against a byte-at-a-time reader.
    - [Text]: [trim] and ASCII case on UTF-8 bytes.  [Stats]: aggregates,
      percentiles, the cost tree of a run and the bounded aggregator;
      [StatsProps]: what these folds conserve.  [Alerts]: channels, rules and
      the registry with its cooldown.
    - [Attempt]: the observation of physical attempts, with the guard's
      drop.  [Resilience]: the breaker, the retry loop and the idle bound.
    - [TokenEstimate]: the calibrated estimate of input tokens, on IEEE 754
      doubles.  [Accounting]: the reservation before dispatch, the owner of a
      request's accounting with its finalizer, and what the buffered and the
      streaming planes do to it.  [AccountingProps]: what a request does to
      the ledger, and what an interrupted stream is charged.
    - [Passthrough]: the pass-through that forwards and measures a byte
      stream, and the usage sniffers of the provider families.  [Metering]:
      the decorator that emits one event for a call or a stream.
    - [Headers]: the credential of a request, strict headers and cookies.
      [Keys]: virtual keys, live and stored, and their handlers;
      [KeysProps]: histories of shares, revocations and restarts.
      [Auth]: roles, grants, identities, sessions and delegated keys of
      single sign-on; [AuthProps]: what they may do over histories.
      [Clients]: the client-credentials grant.
    - [Deadlines]: the policy files of deadlines and the limits of a route.
      [RateLimit]: the token bucket of each key.
    - [ChatRequest]: the canonical request.  [RequestDecode]: the decoders of
      the four dialects.  [RequestEncode]: the encoders of the four provider
      families.  [RequestProps], [TranslateProps]: what translation keeps.
    - [Session]: session identities.  [TextEndpoints]: embeddings and
      completions.  [FrontDoor]: preparation and the handler, from the
      credential to the dispatch; [FrontDoorProps]: what gets through.
    - [NativeEncode]: the request encoders of Cohere and Ollama;
      [NativeProps]: what they carry.
    - [ResponseCodec]: the decoders of buffered answers of the six families
      and the encoders of the four dialects; [ResponseProps]: what a client
      reads back.
    - [StreamDecode]: the loop that all stream decoders share, the decoders,
      the collection of a stream and the observation of cache reads;
      [StreamDecodeProps]: what they deliver.
    - [Buffered]: the gate and the task of a tracked request, recovery and the
      inventory of a shutdown.  [BufferedProps]: what a sweep has seen.
      [TrackedProps]: the task among the other users of the registry.
    - [StreamBody]: the worker and the reader of a streamed body;
      [StreamBodyProps]: what its end means.  [QualifiedStream]: the source
      of a tracked body and its terminal usage; [QualifiedProps]: that it is
      charged on evidence.
    - [Sink]: the buffered sink with its worker and closers, the sink in
      memory and the events of a persisting one.
    - [Inspect]: the strict reader of [core/policy.rs] and its walk over the
      request formats.  [InspectProps]: nothing in a request escapes it.
      [Policy]: documents, evaluators and the evaluation of rules.
      [PolicyGate]: receipts and the gate whose workers interleave.
    - [StreamEncoder]: the encoder of canonical events into the frames of
      each dialect.  [AnthropicStream]: a strict client of the content-block
      protocol, and what canonical events spell ([assemble]).
      [ResponsesStream]: the index space of Responses frames.
      [OpenAiStream]: the decoder of OpenAI-compatible streams and the round
      trip with the encoder.

    ** What the theorems show

    Contract and caps (C1 to C6, C16): the in-memory and the SQLite
    ledgers answer as the same abstract machine; every lawful ledger passes
    the conformance suite and bounds usage by its cap plus the overshoot of
    settled calls; the windowed ledger exceeds the limit of a window only by what its
    calls used beyond their reservations, and holds no more than the limit; a lease of
    the proxy is a committed row within the cap whatever storage does, a
    hard cap survives every fault, and a soft cap never refuses
    ([ProxyLedger.soft_cap_never_refuses]).

    Charges (C7): the billable formulas saturate and never wrap, and a
    uniform allowance quote is the billable count
    ([Allowance.uniform_quote_is_billable]).

    Evidence (C8 to C10): over any history with failures at any statement
    the tables only evolve, an execution is authorized or closed at most
    once, a committed settlement charges the frozen charge and replays to
    the same receipt ([EvidenceProps.terminal_settlement_replay]), a receipt is acknowledged once by the current claim
    ([EvidenceProps.acknowledged_once_by_current_claim]).

    Shards: each shard is a ledger of its own
    ([Sharded.sharded_is_product]), and the migration moves every row to the
    shard of its scope, preserving each budget
    ([Sharded.migration_preserves_scopes]).

    The front door (C14, C19, C24): a request reaches an upstream only
    after every check; a refusal holds no lease and reports nothing; the
    reserved field is never forwarded, and all other bytes are the client's, but
    for the default limit that a completion without one is given; a plaintext request reserves all it can produce
    ([TextEndpoints.text_exposure_is_covered]).  A session identity is fit for a
    header and scoped to its key ([Session.session_ids_are_safe_and_scoped]).

    Keys (C36): a shared key is accepted with its grants, over restarts,
    until it expires or is revoked
    ([KeysProps.shared_key_works_until_revoked]); a key whose revocation was
    answered is refused at once where its record was read, and otherwise from the
    next restart on.

    Identity (C12, C39): authority is the union of what a subject
    and its groups were given, with conflicts refused
    ([AuthProps.authority_is_the_union_of_groups]); a delegated key never
    outgrows the current grant; a session comes from one login; a client
    secret is guessed at a bounded rate
    ([Clients.secret_guesses_are_bounded]), and a token is issued to a
    registered client only ([Clients.issued_token_is_registered]).

    Policy (C15, C17, C22, C29): a compiled engine is well formed;
    every text of a request but its model and the roles of its messages reaches
    its evaluators, whatever the nesting and the tool arguments, and no escape hides one ([InspectProps.escapes_hide_nothing]); a decision names exactly what was found, in the order of the rules, and
    an incomplete evaluation never admits; text
    leaves for remote evaluators only after every local check passed
    ([Policy.denied_text_is_not_sent]); an
    admission has its receipt.

    Process (C18, C23): the cutoff is final and no waiter
    misses it ([Lifecycle.no_lost_wakeup]); an owner's settlement charges the usage it owns
    ([Settlement.commit_charges_owned_usage]), a failure keeps the owner ([Settlement.unresolved_attempt_keeps_owner]) and a
    retry returns the receipt ([Settlement.retry_returns_the_receipt]); the
    registry decides once for each obligation, is bounded and strands nothing
    ([JobsProps.registry_bounded_and_collectable]), and lets evidence go only delivered or resolved
    ([JobsProps.evidence_leaves_resolved]).

    Requests (C26, C27): whatever a request meets, its lease is settled
    exactly once and reported once; a stream that is cut short is charged
    for what was announced and delivered.

    Tracked requests (C37, C38): the answer of a provider follows the commit
    of its usage; what is dispatched was admitted for the request, and its
    terminal record is retained whatever happens
    ([TrackedProps.dispatched_call_is_owned]); the lease outlives the wait
    ([TrackedProps.lease_outlives_the_wait]); a clean shutdown leaves nothing
    held.

    Measurement (C21, C30): the terminal usage of a tracked stream is
    what the forwarded bytes say, however they were cut; a metered stream
    emits one event however it is read, with the usage measured on its bytes
    ([Metering.metered_stream_emits_once]); a qualified usage loses and doubles no token
    ([UsageParse.qualified_usage_conserves_totals]), and every parser measures in range
    ([UsageParse.parsers_measure_in_range]); the pass-through forwards every
    byte and finalizes one usage, and neither it nor the line splitter
    ([LineSplit.splitter_is_chunk_invariant]) nor the observer
    ([StreamUsage.observation_is_chunk_invariant]) depends on how a stream
    was cut; an observed usage is final
    ([StreamUsage.observation_is_final]), and the coverage of cache
    observations counts the calls ([UsageParse.coverage_counts_calls]).

    Translation (C25, C28): a chat request survives its translation for an
    OpenAI-compatible upstream unchanged, and every text, picture and call of
    its user, assistant and tool messages is in the one for Anthropic, where it also reads back as the same conversation unless it has
    pictures outside of user messages or fields of Anthropic's own; Cohere and Ollama are sent every text or
    nothing ([NativeProps.native_upstreams_hear_everything]).

    Answers (C11, C20): what a client reads back from a buffered answer is
    what the upstream said, the arguments of calls byte for byte or, in the formats that
    carry them as JSON, by value, and the usage it finds is the one that was
    charged.

    Deadlines: a validated limit fits the lease of a fresh reservation
    ([Deadlines.validated_deadlines_fit_leases]).

    Streams (C13, C31 to C35): every decoder reads a stream as if in
    one pass, with the running totals as notes in between; the fragments of a call spell the arguments the provider
    completed or the stream fails; a collected stream says what was streamed
    ([StreamDecodeProps.aggregate_says_what_was_streamed]), and the observer
    of cache reads changes nothing else
    ([StreamDecodeProps.observations_are_delivered]); an Anthropic client accepts every answer and
    assembles what the events spell; an OpenAI stream reads back to the same
    answer; the indices of a Responses stream are those of its output
    ([ResponsesStream.responses_output_is_coherent]).  A body that ends
    cleanly was delivered whole and its usage committed; a failure is not
    hidden by what was queued ([StreamBodyProps.failure_is_not_hidden]);
    and neither side of a body waits for ever.

    Statistics and alerts: the cost tree of a run places every
    step once and adds up, whatever parents the events claim
    ([StatsProps.run_tree_conserves_spend]); alerts of a
    rule keep their cooldown ([Alerts.alerts_fire_once_per_cooldown]).  The bounded aggregator is exact
    ([StatsProps.aggregator_is_bounded_and_exact]) and stored names read back
    ([Alerts.stored_names_round_trip]).

    Events: the buffer accounts for every event it was given
    ([Sink.buffer_accounts_for_every_event]), a drained one lost nothing it
    accepted ([Sink.drained_buffer_lost_nothing]), closing it keeps its
    deadline ([Sink.close_keeps_its_deadline]), and the sink in memory keeps
    the newest ([Sink.memory_keeps_the_newest]).

    Provider calls (C40): an attempt is observed by one dispatch and
    one terminal however it ends ([Attempt.attempt_is_observed_once]); a call always answers, within its retries
    and its deadline, and the breaker is a function of what was recorded
    ([Resilience.breaker_refines_history]).

    Findings as theorems: a saturated charge wraps when it is stored
    ([SqlContract.settle_wraps_saturated_charge]), calls in flight add up
    their overshoots ([Conformance.overshoot_is_not_one_call]), an empty
    delta shifts the indices of a Responses stream
    ([ResponsesStream.empty_text_shifts_the_output]), and a usage that comes
    after the finish reason misses the terminal frame
    ([OpenAiStream.late_usage_misses_the_terminal_frame]); a stored hash
    is itself a credential ([KeysProps.stored_hash_is_a_credential]), a
    revocation that cannot read the record keeps the live key
    ([KeysProps.unread_revocation_keeps_live_key]), and a blank allowlist
    restricts nothing ([KeysProps.blank_allowlist_is_unscoped]); the longest
    deadline that validates fits hardly any lease
    ([Deadlines.longest_deadline_hardly_fits]); the model of a Gemini path is
    forwarded unchecked ([FrontDoorProps.gemini_path_is_not_checked]); a
    truncated answer with a call reads as complete
    ([ResponseProps.truncated_call_reads_as_complete]), and the calls of a
    stream that come in separate chunks collide
    ([StreamDecodeProps.calls_of_lines_collide],
    [StreamDecodeProps.calls_of_chunks_collide]); the inventory of a shutdown
    completes only on a small ledger
    ([BufferedProps.shutdown_inventory_is_small]).

    ** Conventions

    Integers are [Z] with the width written out ([sat_add], [wadd],
    [checked_add], [as_i64], [try_i64]); an [OffsetDateTime] is its
    nanoseconds from the epoch in the range the crate represents.  A string
    is a byte string.  Loops of the code over finite collections are folds
    or structural recursions here.  Eight take fuel, and the theorems about
    them show it is enough: the draining of the splitter ([drain], the bytes
    pending), the lines of a chunk in the pass-through ([pass_lines],
    the bytes pending, C30), the pump and the slices of the observer ([ob_pump],
    [slices], the bytes pending), the assembly of a cost tree ([build]
    and [promote], the steps of the run), the retry loop
    ([retry_loop], one more than the retries, C40), the frames of a chunk
    ([chunks_of], its bytes, C34) and the slices of a recovery
    ([recover_rounds], eight, the bound in the code).
    The clock, the randomness, the calendar of budget windows
    ([Calendar]), the JSON codec of usage ([UsageCodec]) and
    [Instant::checked_add], the parsing of a timestamp, the inner provider of
    a resilient one, registered evaluators, the regular expression engine and [serde_json] are arguments; the theorems that rely on one
    name the law they use ([LawfulCodec], [LawfulJson]), and their witnesses instantiate
    them.  SQLite is modelled as what the statements of the source mean on
    the tables; a statement may fail, and a commit may fail before or
    after it took effect.  A thread's critical section is one step, and
    every interleaving of steps is considered.  Three places are coarser than
    the code: the callback of a login is one step, a body publishes its
    terminal in the step that closes its queue, and a timer fires exactly at
    its deadline.

    ** What is not modelled

    The HTTP layer and the bindings, which translate formats; the file
    system, keychain and IPC of the vault; metrics and spans; remote policy
    evaluators; the transports of the provider clients, which send what the
    encoders made.  The deadline of
    the HTTP reply around a tracked task is not modelled either: the task
    outlives it. *)

From Stdlib Require Export ZArith Lia String Ascii.
From stdpp Require Export base gmap strings list fin_maps sets sorting.
(* Stdlib's [String] shadows the list names stdpp uses. *)
#[global] Open Scope list_scope.
#[global] Open Scope Z_scope.

(** ** Results

    Rust's [Result<A, E>].  The instances give the stdpp notations
    [x ← m; k] and [mret] the meaning of the [?] operator and of [Ok]. *)

Inductive result (E A : Type) : Type :=
| Ok (a : A)
| Err (e : E).
Arguments Ok {E A} a.
Arguments Err {E A} e.

#[export] Instance result_ret E : MRet (result E) := fun _ a => Ok a.
#[export] Instance result_bind E : MBind (result E) := fun _ _ f m =>
  match m with Ok a => f a | Err e => Err e end.
#[export] Instance result_eq_dec E A `{EqDecision E, EqDecision A} : EqDecision (result E A).
Proof. solve_decision. Defined.

(** [Option::ok_or]. *)
Definition ok_or {E A} (o : option A) (e : E) : result E A :=
  match o with Some a => Ok a | None => Err e end.

(** [if c { return Err(e) }]. *)
Definition bail {E} (c : bool) (e : E) : result E unit := if c then Err e else Ok tt.

(** [Result::map_err]. *)
Definition map_err {E F A} (f : E -> F) (m : result E A) : result F A :=
  match m with Ok a => Ok a | Err e => Err (f e) end.

Definition is_ok {E A} (m : result E A) : bool := match m with Ok _ => true | Err _ => false end.

Lemma result_bind_ok {E A B} (m : result E A) (f : A -> result E B) b :
  (m ≫= f) = Ok b <-> exists a, m = Ok a /\ f a = Ok b.
Proof. destruct m; split; simpl; [eauto | naive_solver | discriminate | naive_solver]. Qed.

Lemma ok_or_ok {E A} (o : option A) (e : E) a : ok_or o e = Ok a <-> o = Some a.
Proof. destruct o; split; simpl; congruence. Qed.

Lemma bail_ok {E} c (e : E) u : bail c e = Ok u <-> c = false.
Proof. destruct u, c; split; simpl; congruence. Qed.

Lemma map_err_ok {E F A} (f : E -> F) (m : result E A) a : map_err f m = Ok a <-> m = Ok a.
Proof. destruct m; split; simpl; congruence. Qed.

(** ** Machine integers

    A [u64] or [i64] is a [Z] in its range.  The release profile of the
    workspace is Cargo's default, so a plain [+] wraps. *)

Definition u64_max : Z := 18446744073709551615.
Definition i64_max : Z := 9223372036854775807.
Definition u64_mod : Z := 18446744073709551616.

Definition in_u64 (z : Z) : Prop := 0 <= z <= u64_max.

(** [u64::saturating_add], [u64::saturating_sub], wrapping [+], and the
    checked operations. *)
Definition sat_add (a b : Z) : Z := Z.min (a + b) u64_max.
Definition sat_sub (a b : Z) : Z := Z.max (a - b) 0.
Definition wadd (a b : Z) : Z := (a + b) mod u64_mod.
Definition wmul (a b : Z) : Z := (a * b) mod u64_mod.
Definition sat_mul (a b : Z) : Z := Z.min (a * b) u64_max.
Definition sat_sub_i64 (a b : Z) : Z := Z.max (- i64_max - 1) (Z.min (a - b) i64_max).
Definition checked_add (a b : Z) : option Z := if a + b <=? u64_max then Some (a + b) else None.
Definition checked_sub (a b : Z) : option Z := if b <=? a then Some (a - b) else None.

(** [x as i64] on a [u64]: two's complement reinterpretation. *)
Definition as_i64 (z : Z) : Z := if z <=? i64_max then z else z - u64_mod.
(** [i64::try_from(x)] on a [u64]. *)
Definition try_i64 (z : Z) : option Z := if z <=? i64_max then Some z else None.
(** [x.max(0) as u64] on an [i64]. *)
Definition max0_u64 (z : Z) : Z := Z.max z 0.

Ltac unfold_ints := unfold in_u64, sat_add, sat_sub, checked_add, checked_sub, as_i64, try_i64,
  max0_u64, u64_max, i64_max, u64_mod in *.
Ltac ulia := unfold_ints; lia.

Lemma wadd_exact a b : 0 <= a -> 0 <= b -> a + b <= u64_max -> wadd a b = a + b.
Proof. intros. unfold wadd. apply Z.mod_small. ulia. Qed.

Lemma wadd_in_u64 a b : in_u64 (wadd a b).
Proof. unfold wadd. pose proof (Z.mod_pos_bound (a + b) u64_mod). ulia. Qed.

Lemma sat_add_in_u64 a b : in_u64 a -> in_u64 b -> in_u64 (sat_add a b).
Proof. ulia. Qed.

Lemma sat_add_ge_l a b : in_u64 a -> in_u64 b -> a <= sat_add a b.
Proof. ulia. Qed.

Lemma sat_add_assoc a b c :
  in_u64 a -> in_u64 b -> in_u64 c -> sat_add (sat_add a b) c = sat_add a (sat_add b c).
Proof. ulia. Qed.

(** The saturating admission test of the ledgers is the exact one below the
    largest cap. *)
Lemma sat_sum_test a b c lim :
  0 <= a -> 0 <= b -> 0 <= c -> lim < u64_max ->
  (lim <? sat_add (sat_add a b) c) = negb (a + b + c <=? lim).
Proof.
  intros. apply eq_true_iff_eq. rewrite negb_true_iff, Z.ltb_lt, Z.leb_gt. ulia.
Qed.

(** ** Instants

    A [time::OffsetDateTime] is the nanoseconds since the Unix epoch and a
    [time::Duration] a number of nanoseconds.  Years run from -9999 to
    9999; [instant + duration] panics outside them. *)

Definition nanos : Z := 1000000000.
Definition instant_min : Z := -377705116800 * nanos.
Definition instant_max : Z := 253402300800 * nanos - 1.
Definition seconds (s : Z) : Z := s * nanos.
Definition instant_ok (t : Z) : bool := (instant_min <=? t) && (t <=? instant_max).
(** [OffsetDateTime::checked_add]; the operator [+] panics where it is [None]. *)
Definition instant_add (t d : Z) : option Z := if instant_ok (t + d) then Some (t + d) else None.
(** [OffsetDateTime::unix_timestamp]: whole seconds, rounded down. *)
Definition unix_timestamp (t : Z) : Z := t / nanos.

Lemma unix_timestamp_mono t u : t <= u -> unix_timestamp t <= unix_timestamp u.
Proof. intros. apply Z.div_le_mono; [reflexivity | done]. Qed.

(** ** Tactics *)

(** Split the conjunctions of boolean tests in the context. *)
Ltac bools :=
  repeat match goal with
  | Hb : negb _ = false |- _ => apply negb_false_iff in Hb
  | Hb : negb _ = true |- _ => apply negb_true_iff in Hb
  | Hb : _ || _ = false |- _ => apply orb_false_iff in Hb as [? ?]
  | Hb : _ && _ = true |- _ => apply andb_true_iff in Hb; destruct Hb
  end.

(** Invert successful monadic runs, one connective at a time. *)
Ltac inv_ok :=
  repeat match goal with
  | H : (_ ≫= _) = Ok _ |- _ => apply result_bind_ok in H as (? & ? & H)
  | H : ok_or _ _ = Ok _ |- _ => apply ok_or_ok in H
  | H : bail _ _ = Ok _ |- _ => apply bail_ok in H
  | H : map_err _ _ = Ok _ |- _ => apply map_err_ok in H
  | H : Ok _ = Ok _ |- _ => injection H as H; subst
  | H : Err _ = Ok _ |- _ => discriminate H
  | H : Ok _ = Err _ |- _ => discriminate H
  | H : Some _ = Some _ |- _ => injection H as H; subst
  | H : Some _ = None |- _ => discriminate H
  | H : None = Some _ |- _ => discriminate H
  | H : (_, _) = (_, _) |- _ => injection H as H; subst
  end.

(** ** Sums over finite maps

    The model of an SQL [SUM] over a table and of a counter that caches
    one. *)

Section Msum.
Context {K : Type} `{Countable K} {V : Type}.
Implicit Types (f g : V -> Z) (m : gmap K V).

Definition msum f m : Z := map_fold (fun _ v acc => f v + acc) 0 m.

Lemma msum_empty f : msum f ∅ = 0.
Proof. apply map_fold_empty. Qed.

Lemma msum_insert f m i x : m !! i = None -> msum f (<[i:=x]> m) = f x + msum f m.
Proof. intros Hi. unfold msum. rewrite map_fold_insert_L; [done | intros; lia | done]. Qed.

Lemma msum_delete f m i x : m !! i = Some x -> msum f m = f x + msum f (delete i m).
Proof.
  intros Hi. rewrite <- (insert_delete_id m i x) at 1 by done.
  apply msum_insert, lookup_delete_eq.
Qed.

Lemma msum_update f m i x y :
  m !! i = Some x -> msum f (<[i:=y]> m) = msum f m - f x + f y.
Proof.
  intros Hi. rewrite (msum_delete f m i x Hi), <- insert_delete_eq.
  rewrite msum_insert by apply lookup_delete_eq. lia.
Qed.

Lemma msum_ext f g m : (forall i x, m !! i = Some x -> f x = g x) -> msum f m = msum g m.
Proof.
  induction m as [|i x m Hi IH] using map_ind; intros Hfg; [done|].
  rewrite !msum_insert by done. rewrite (Hfg i x) by apply lookup_insert_eq.
  rewrite IH; [done|]. intros j y Hj. apply (Hfg j). rewrite lookup_insert_ne; congruence.
Qed.

Lemma msum_mono f g m : (forall i x, m !! i = Some x -> f x <= g x) -> msum f m <= msum g m.
Proof.
  induction m as [|i x m Hi IH] using map_ind; intros Hfg; [done|].
  rewrite !msum_insert by done. pose proof (Hfg i x (lookup_insert_eq m i x)).
  enough (msum f m <= msum g m) by lia. apply IH. intros j y Hj. apply (Hfg j).
  rewrite lookup_insert_ne; congruence.
Qed.

Lemma msum_add f g m : msum (fun x => f x + g x) m = msum f m + msum g m.
Proof.
  induction m as [|i x m Hi IH] using map_ind; [done|]. rewrite !msum_insert, IH by done. lia.
Qed.

Lemma msum_zero m : msum (fun _ => 0) m = 0.
Proof.
  induction m as [|i x m Hi IH] using map_ind; [done|]. rewrite msum_insert by done. lia.
Qed.

Lemma msum_nonneg f m : (forall i x, m !! i = Some x -> 0 <= f x) -> 0 <= msum f m.
Proof. intros Hf. rewrite <- (msum_zero m). by apply msum_mono. Qed.

(** Deleting the rows that do not satisfy [P] leaves the rows that do. *)
Lemma msum_filter f m (P : K * V -> Prop) `{forall x, Decision (P x)} :
  (forall i x, m !! i = Some x -> ~ P (i, x) -> f x = 0) ->
  msum f (filter P m) = msum f m.
Proof.
  induction m as [|i x m Hi IH] using map_ind; intros Hz; [by rewrite map_filter_empty|].
  assert (IH' : msum f (filter P m) = msum f m).
  { apply IH. intros j y Hj. apply Hz. rewrite lookup_insert_ne; congruence. }
  destruct (decide (P (i, x))) as [HP|HP].
  - rewrite map_filter_insert_True by done.
    rewrite !msum_insert; [lia | done | by apply map_lookup_filter_None; left].
  - rewrite map_filter_insert_False by done. rewrite map_filter_delete.
    rewrite delete_id by (apply map_lookup_filter_None; by left).
    rewrite msum_insert by done. rewrite (Hz i x); [lia | apply lookup_insert_eq | done].
Qed.

Lemma msum_filter_le f m (P : K * V -> Prop) `{forall x, Decision (P x)} :
  (forall i x, m !! i = Some x -> 0 <= f x) -> msum f (filter P m) <= msum f m.
Proof.
  induction m as [|i x m Hi IH] using map_ind; intros Hz; [by rewrite map_filter_empty|].
  assert (IH' : msum f (filter P m) <= msum f m).
  { apply IH. intros j y Hj. apply (Hz j). rewrite lookup_insert_ne; congruence. }
  pose proof (Hz i x (lookup_insert_eq m i x)).
  destruct (decide (P (i, x))) as [HP|HP].
  - rewrite map_filter_insert_True by done.
    rewrite !msum_insert; [lia | done | by apply map_lookup_filter_None; left].
  - rewrite map_filter_insert_False by done. rewrite map_filter_delete.
    rewrite delete_id by (apply map_lookup_filter_None; by left).
    rewrite msum_insert by done. lia.
Qed.
End Msum.

(** Two tables have the same sum when they agree at every key, an absent
    row counting zero. *)
Lemma msum_pointwise {K} `{Countable K} {V W} (f : V -> Z) (g : W -> Z) (m : gmap K V) :
  forall m' : gmap K W,
  (forall i, from_option f 0 (m !! i) = from_option g 0 (m' !! i)) -> msum f m = msum g m'.
Proof.
  induction m as [|i x m Hi IH] using map_ind; intros m' Heq.
  - rewrite msum_empty, <- (msum_zero m'). apply msum_ext. intros i y Hy.
    specialize (Heq i). rewrite Hy, lookup_empty in Heq. done.
  - rewrite msum_insert by done. pose proof (Heq i) as Hx. rewrite lookup_insert_eq in Hx. simpl in Hx.
    assert (Hrest : forall j, from_option f 0 (m !! j) = from_option g 0 (delete i m' !! j)).
    { intros j. specialize (Heq j). destruct (decide (i = j)) as [<-|Hne].
      - by rewrite Hi, lookup_delete_eq.
      - by rewrite lookup_delete_ne, <- Heq, lookup_insert_ne. }
    apply IH in Hrest as ->. destruct (m' !! i) as [y|] eqn:Hy; simpl in Hx.
    + rewrite (msum_delete g m' i y Hy). lia.
    + rewrite delete_id by done. lia.
Qed.

(** A counter read with [.get(k).copied().unwrap_or(0)]. *)
Definition count_at {K} `{Countable K} (m : gmap K Z) (k : K) : Z := default 0 (m !! k).

Lemma count_at_insert {K} `{Countable K} (m : gmap K Z) k v k' :
  count_at (<[k:=v]> m) k' = if decide (k = k') then v else count_at m k'.
Proof.
  unfold count_at. rewrite lookup_insert. by case_decide.
Qed.

#[global] Opaque msum.

(** ** [mapM] in [option] *)

Lemma mapM_id {A B} (f : B -> option A) (g : A -> B) l : (forall x, x ∈ l -> f (g x) = Some x) -> mapM f (g <$> l) = Some l.
Proof.
  induction l as [|x l IH]; intros H; [done|]. cbn. rewrite (H x) by (by left). cbn. rewrite IH by (intros y Hy; apply H; by right). done.
Qed.
Lemma mapM_each {A B C} (f : B -> option C) (g : A -> B) (h : A -> C) l : (forall x, f (g x) = Some (h x)) -> mapM f (g <$> l) = Some (h <$> l).
Proof. intros Hf. induction l as [|x l IH]; [done|]. cbn. rewrite Hf. cbn. by rewrite IH. Qed.
Lemma mapM_app {A B} (f : A -> option B) l k : mapM f (l ++ k) = (a ← mapM f l; b ← mapM f k; Some (a ++ b)).
Proof.
  induction l as [|x l IH]; cbn; [by destruct (mapM f k)|]. destruct (f x); cbn; [|done]. rewrite IH.
  destruct (mapM f l); cbn; [|done]. by destruct (mapM f k).
Qed.
