(* ===== verification/Ledger.v ===== *)
(** The lease-based enforcement ledger of [sandhi-core]
    ([crates/sandhi-core/src/ledger.rs]): the traits [LedgerView] and
    [EnforcementLedger] as type classes, the abstract lease machine they
    promise ([Spec]), the contract that ties an implementation to it
    ([LedgerContract]), what a client may conclude from the contract alone,
    and the in-memory implementation with its instance of the contract. *)

From S2P Require Import Prelude.

(** ** The traits *)

(** A lease over [rsv_ceiling] tokens of [rsv_scope]. *)
Record Reservation := MkReservation {
  rsv_id : Z; rsv_scope : string; rsv_ceiling : Z; rsv_expires_at : Z }.

Record Denied := MkDenied {
  den_scope : string; den_limit : Z; den_spent : Z; den_reserved : Z; den_requested_ceiling : Z }.

#[export] Instance Reservation_eq_dec : EqDecision Reservation.
Proof. solve_decision. Defined.
#[export] Instance Denied_eq_dec : EqDecision Denied.
Proof. solve_decision. Defined.

Class LedgerView (L : Type) := {
  limit : L -> string -> option Z;
  spent : L -> string -> Z;
  reserved : L -> string -> Z }.

(** The provided method of the trait. *)
Definition available {L} `{LedgerView L} (l : L) (scope : string) : Z :=
  match limit l scope with
  | None => u64_max
  | Some lim => sat_sub lim (sat_add (spent l scope) (reserved l scope))
  end.

(** The write side.  [reserve] is [None] when the addition [now + ttl]
    panics; a method taking [&mut self] returns the new ledger. *)
Class EnforcementLedger (L : Type) `{LedgerView L} := {
  set_limit : L -> string -> option Z -> L;
  reserve : L -> string -> Z -> Z -> Z -> option (result Denied Reservation * L);
  settle : L -> Z -> Z -> L;
  reclaim_expired : L -> Z -> Z * L }.

(** ** The abstract lease machine

    What the trait documentation promises, with unbounded integers and the
    reserved total derived from the leases instead of cached.  A [Cfg]
    names what the contract leaves to the backend: the resolution of its
    clock, whether an admission first drops the expired leases of its
    scope, the first identifier it issues, and the integer range it keeps
    caps and sums in. *)

Record Cfg := MkCfg {
  cfg_tick : Z -> Z; cfg_eager : bool; cfg_base : Z; cfg_max_cap : Z; cfg_max_sum : Z }.

Record Spec := MkSpec {
  sp_limit : gmap string Z; sp_spent : gmap string Z;
  sp_leases : gmap Z Reservation; sp_issued : Z }.

Definition spec_init : Spec := MkSpec ∅ ∅ ∅ 0.

Definition held_in (s : string) (r : Reservation) : Z :=
  if decide (rsv_scope r = s) then rsv_ceiling r else 0.
Definition held (leases : gmap Z Reservation) (s : string) : Z := msum (held_in s) leases.
Definition sp_held (a : Spec) (s : string) : Z := held (sp_leases a) s.
Definition sp_spend (a : Spec) (s : string) : Z := count_at (sp_spent a) s.

Definition expired (c : Cfg) (now : Z) (r : Reservation) : bool :=
  cfg_tick c (rsv_expires_at r) <=? cfg_tick c now.

Definition set_leases (m : gmap Z Reservation) (a : Spec) : Spec :=
  MkSpec (sp_limit a) (sp_spent a) m (sp_issued a).

(** The leases left after the expired ones of one scope, or of all, are
    dropped. *)
Definition live_leases (c : Cfg) (now : Z) (m : gmap Z Reservation) : gmap Z Reservation :=
  filter (fun p => expired c now p.2 = false) m.
Definition live_in_scope (c : Cfg) (now : Z) (s : string) (m : gmap Z Reservation)
    : gmap Z Reservation :=
  filter (fun p => negb (bool_decide (rsv_scope p.2 = s) && expired c now p.2) = true) m.

Definition fits (a : Spec) (s : string) (ceiling : Z) : bool :=
  match sp_limit a !! s with
  | None => true
  | Some lim => sp_spend a s + sp_held a s + ceiling <=? lim
  end.

Definition spec_set_limit (a : Spec) (s : string) (o : option Z) : Spec :=
  MkSpec (partial_alter (fun _ => o) s (sp_limit a)) (sp_spent a) (sp_leases a) (sp_issued a).

(** The state the admission test reads. *)
Definition spec_swept (c : Cfg) (a : Spec) (s : string) (now : Z) : Spec :=
  if cfg_eager c then set_leases (live_in_scope c now s (sp_leases a)) a else a.

Definition next_lease (c : Cfg) (a : Spec) (s : string) (ceiling now ttl : Z) : Reservation :=
  MkReservation (cfg_base c + sp_issued a) s ceiling (now + ttl).

Definition spec_admit (c : Cfg) (a : Spec) (r : Reservation) : Spec :=
  MkSpec (sp_limit a) (sp_spent a) (<[rsv_id r := r]> (sp_leases a)) (sp_issued a + 1).

Definition spec_reserve (c : Cfg) (a : Spec) (s : string) (ceiling now ttl : Z)
    : option Reservation * Spec :=
  let b := spec_swept c a s now in
  if fits b s ceiling then
    let r := next_lease c a s ceiling now ttl in (Some r, spec_admit c b r)
  else (None, a).

Definition spec_settle (a : Spec) (id actual : Z) : Spec :=
  match sp_leases a !! id with
  | None => a
  | Some r => MkSpec (sp_limit a)
      (<[rsv_scope r := sp_spend a (rsv_scope r) + actual]> (sp_spent a))
      (delete id (sp_leases a)) (sp_issued a)
  end.

Definition spec_reclaim (c : Cfg) (a : Spec) (now : Z) : Z * Spec :=
  (Z.of_nat (size (filter (fun p => expired c now p.2 = true) (sp_leases a))),
   set_leases (live_leases c now (sp_leases a)) a).

(** Calls of the trait, what a caller sees of each, and the abstract run. *)
Inductive op :=
| OSetLimit (s : string) (o : option Z)
| OReserve (s : string) (ceiling now ttl : Z)
| OSettle (id actual : Z)
| OReclaim (now : Z).

Inductive seen :=
| SeenUnit
| SeenReserve (r : option Reservation)
| SeenCount (n : Z).

Definition spec_step (c : Cfg) (a : Spec) (o : op) : seen * Spec :=
  match o with
  | OSetLimit s o => (SeenUnit, spec_set_limit a s o)
  | OReserve s ceiling now ttl =>
      let '(r, a') := spec_reserve c a s ceiling now ttl in (SeenReserve r, a')
  | OSettle id actual => (SeenUnit, spec_settle a id actual)
  | OReclaim now => let '(n, a') := spec_reclaim c a now in (SeenCount n, a')
  end.

Fixpoint spec_run (c : Cfg) (a : Spec) (ops : list op) : list seen * Spec :=
  match ops with
  | [] => ([], a)
  | o :: ops => let '(x, a1) := spec_step c a o in
                let '(xs, a2) := spec_run c a1 ops in (x :: xs, a2)
  end.

(** The calls a backend is bound to serve exactly: the arguments are in
    range, and the totals of the scope, after the call, are too. *)
Definition op_ok (c : Cfg) (a : Spec) (o : op) : bool :=
  match o with
  | OSetLimit s o => match o with None => true | Some l => (0 <=? l) && (l <=? cfg_max_cap c) end
  | OReserve s ceiling now ttl =>
      (0 <=? ceiling) && (ceiling <=? cfg_max_sum c) && instant_ok now && instant_ok (now + ttl)
      && (sp_issued a + cfg_base c <? cfg_max_sum c)
      && match sp_limit a !! s with
         | None => sp_spend a s + sp_held a s + ceiling <=? cfg_max_sum c
         | Some _ => true
         end
  | OSettle id actual =>
      (id <=? u64_max) && (0 <=? actual) && match sp_leases a !! id with
                        | None => true
                        | Some r => sp_spend a (rsv_scope r) + actual <=? cfg_max_sum c
                        end
  | OReclaim now => instant_ok now
  end.

Fixpoint ops_ok (c : Cfg) (a : Spec) (ops : list op) : bool :=
  match ops with
  | [] => true
  | o :: ops => op_ok c a o && ops_ok c (spec_step c a o).2 ops
  end.

(** ** The contract *)

Record cfg_ok (c : Cfg) : Prop := {
  cfg_ok_base : 0 <= cfg_base c <= cfg_max_sum c;
  cfg_ok_cap : 0 <= cfg_max_cap c <= cfg_max_sum c }.

(** The invariant of the abstract machine. *)
Record spec_wf (c : Cfg) (a : Spec) : Prop := {
  wf_caps : forall s l, sp_limit a !! s = Some l -> 0 <= l <= cfg_max_cap c;
  wf_spend : forall s, 0 <= sp_spend a s <= cfg_max_sum c;
  wf_held : forall s, 0 <= sp_held a s <= cfg_max_sum c;
  wf_leases : forall i r, sp_leases a !! i = Some r ->
    0 <= rsv_ceiling r /\ rsv_id r = i /\ cfg_base c <= i < cfg_base c + sp_issued a;
  wf_issued : 0 <= sp_issued a /\ sp_issued a + cfg_base c <= cfg_max_sum c }.

(** An implementation of the trait is correct when some representation
    relation is preserved by every in-range call, with the results the
    abstract machine gives. *)
Class LedgerContract (L : Type) `{EnforcementLedger L} := {
  lc_cfg : Cfg;
  lc_cfg_ok : cfg_ok lc_cfg;
  lc_rep : L -> Spec -> Prop;
  lc_limit l a s : lc_rep l a -> spec_wf lc_cfg a -> limit l s = sp_limit a !! s;
  lc_spent l a s : lc_rep l a -> spec_wf lc_cfg a -> spent l s = sp_spend a s;
  lc_reserved l a s : lc_rep l a -> spec_wf lc_cfg a -> reserved l s = sp_held a s;
  lc_set_limit l a s o : lc_rep l a -> spec_wf lc_cfg a -> op_ok lc_cfg a (OSetLimit s o) = true ->
    lc_rep (set_limit l s o) (spec_set_limit a s o);
  lc_reserve l a s ceiling now ttl :
    lc_rep l a -> spec_wf lc_cfg a -> op_ok lc_cfg a (OReserve s ceiling now ttl) = true ->
    exists out l', reserve l s ceiling now ttl = Some (out, l') /\
      match out, spec_reserve lc_cfg a s ceiling now ttl with
      | Ok r, (Some r', a') => r = r' /\ lc_rep l' a'
      | Err _, (None, a') => lc_rep l' a'
      | _, _ => False
      end;
  lc_settle l a id actual :
    lc_rep l a -> spec_wf lc_cfg a -> op_ok lc_cfg a (OSettle id actual) = true ->
    lc_rep (settle l id actual) (spec_settle a id actual);
  lc_reclaim l a now :
    lc_rep l a -> spec_wf lc_cfg a -> op_ok lc_cfg a (OReclaim now) = true ->
    (reclaim_expired l now).1 = (spec_reclaim lc_cfg a now).1 /\
    lc_rep (reclaim_expired l now).2 (spec_reclaim lc_cfg a now).2 }.

(** A run of an implementation; [None] is a panic. *)
Definition step {L} `{EnforcementLedger L} (l : L) (o : op) : option (seen * L) :=
  match o with
  | OSetLimit s o => Some (SeenUnit, set_limit l s o)
  | OReserve s ceiling now ttl =>
      '(out, l') ← reserve l s ceiling now ttl;
      Some (SeenReserve (match out with Ok r => Some r | Err _ => None end), l')
  | OSettle id actual => Some (SeenUnit, settle l id actual)
  | OReclaim now => let '(n, l') := reclaim_expired l now in Some (SeenCount n, l')
  end.

Fixpoint run {L} `{EnforcementLedger L} (l : L) (ops : list op) : option (list seen * L) :=
  match ops with
  | [] => Some ([], l)
  | o :: ops => '(x, l1) ← step l o; '(xs, l2) ← run l1 ops; Some (x :: xs, l2)
  end.

(** *** Lemmas on held ceilings *)

Lemma held_insert m i r s : m !! i = None -> held (<[i:=r]> m) s = held_in s r + held m s.
Proof. apply msum_insert. Qed.

Lemma held_delete m i r s : m !! i = Some r -> held (delete i m) s = held m s - held_in s r.
Proof. intros Hi. unfold held. rewrite (msum_delete _ m i r Hi). lia. Qed.

Lemma held_in_nonneg s r : 0 <= rsv_ceiling r -> 0 <= held_in s r.
Proof. unfold held_in. case_decide; lia. Qed.

Definition ceilings_nonneg (m : gmap Z Reservation) : Prop :=
  forall i r, m !! i = Some r -> 0 <= rsv_ceiling r.

Lemma held_nonneg m s : ceilings_nonneg m -> 0 <= held m s.
Proof. intros Hm. apply msum_nonneg. intros i r Hi. eapply held_in_nonneg, Hm, Hi. Qed.

Lemma held_filter_le m s (P : Z * Reservation -> Prop) `{forall x, Decision (P x)} :
  ceilings_nonneg m -> held (filter P m) s <= held m s.
Proof. intros Hm. apply msum_filter_le. intros i r Hi. eapply held_in_nonneg, Hm, Hi. Qed.

Lemma held_ge_lease m i r :
  ceilings_nonneg m -> m !! i = Some r -> rsv_ceiling r <= held m (rsv_scope r).
Proof.
  intros Hm Hi. pose proof (held_delete m i r (rsv_scope r) Hi) as Hd.
  assert (0 <= held (delete i m) (rsv_scope r)).
  { apply held_nonneg. intros j x Hj. apply lookup_delete_Some in Hj as [_ Hj]. eapply Hm, Hj. }
  unfold held_in in Hd. rewrite decide_True in Hd by done. lia.
Qed.

Lemma ceilings_nonneg_filter m (P : Z * Reservation -> Prop) `{forall x, Decision (P x)} :
  ceilings_nonneg m -> ceilings_nonneg (filter P m).
Proof. intros Hm i r Hi. apply map_lookup_filter_Some in Hi as [Hi _]. eapply Hm, Hi. Qed.

Lemma wf_ceilings c a : spec_wf c a -> ceilings_nonneg (sp_leases a).
Proof. intros Hwf i r Hi. eapply wf_leases in Hi as [? _]; eauto. Qed.

Lemma sp_held_init s : sp_held spec_init s = 0.
Proof. unfold sp_held, held. apply msum_empty. Qed.

Lemma spec_init_wf c : cfg_ok c -> spec_wf c spec_init.
Proof.
  intros [Hb Hc]. split; simpl.
  - done.
  - intros s. change (0 <= 0 <= cfg_max_sum c). lia.
  - intros s. rewrite sp_held_init. lia.
  - done.
  - lia.
Qed.

(** *** The invariant is preserved *)

Lemma spec_set_limit_wf c a s o :
  spec_wf c a -> op_ok c a (OSetLimit s o) = true -> spec_wf c (spec_set_limit a s o).
Proof.
  intros [] Hok. split; [|exact wf_spend0|exact wf_held0|exact wf_leases0|exact wf_issued0].
  simpl. intros s' l.
  destruct (decide (s = s')) as [<-|Hne].
  - rewrite lookup_partial_alter_eq. intros ->. simpl in Hok. lia.
  - rewrite lookup_partial_alter_ne by done. apply wf_caps0.
Qed.

(** Dropping leases keeps the invariant and lowers what is held. *)
Lemma set_leases_filter_wf c a (P : Z * Reservation -> Prop) `{forall x, Decision (P x)} :
  spec_wf c a -> spec_wf c (set_leases (filter P (sp_leases a)) a).
Proof.
  intros Hwf. pose proof (wf_ceilings _ _ Hwf) as Hnn. destruct Hwf. split.
  - exact wf_caps0.
  - exact wf_spend0.
  - intros s. split.
    + by apply held_nonneg, ceilings_nonneg_filter.
    + pose proof (held_filter_le (sp_leases a) s P Hnn).
      specialize (wf_held0 s). unfold sp_held in *. simpl. lia.
  - intros i r Hi. apply map_lookup_filter_Some in Hi as [Hi _]. by apply wf_leases0.
  - exact wf_issued0.
Qed.

Lemma spec_swept_wf c a s now : spec_wf c a -> spec_wf c (spec_swept c a s now).
Proof.
  intros. unfold spec_swept. destruct (cfg_eager c); [by apply set_leases_filter_wf | done].
Qed.

Lemma spec_swept_held c a s now s' :
  spec_wf c a -> sp_held (spec_swept c a s now) s' <= sp_held a s'.
Proof.
  intros Hwf. unfold spec_swept. destruct (cfg_eager c); [|done].
  apply held_filter_le, (wf_ceilings _ _ Hwf).
Qed.

Lemma spec_swept_fields c a s now :
  sp_limit (spec_swept c a s now) = sp_limit a /\ sp_spent (spec_swept c a s now) = sp_spent a /\
  sp_issued (spec_swept c a s now) = sp_issued a.
Proof. unfold spec_swept. by destruct (cfg_eager c). Qed.

(** A fresh identifier is free. *)
Lemma next_id_free c a i : spec_wf c a -> i = cfg_base c + sp_issued a -> sp_leases a !! i = None.
Proof.
  intros Hwf ->. destruct (sp_leases a !! _) as [r|] eqn:Hr; [|done].
  apply (wf_leases _ _ Hwf) in Hr. lia.
Qed.

Lemma spec_admit_held c a r s :
  spec_wf c a -> rsv_id r = cfg_base c + sp_issued a ->
  sp_held (spec_admit c a r) s = held_in s r + sp_held a s.
Proof. intros Hwf Hid. by apply held_insert, (next_id_free c). Qed.

(** What an admission needs of the scope's totals. *)
Lemma fits_bound c a s ceiling now ttl :
  cfg_ok c -> spec_wf c a -> op_ok c a (OReserve s ceiling now ttl) = true ->
  fits (spec_swept c a s now) s ceiling = true ->
  sp_spend a s + sp_held (spec_swept c a s now) s + ceiling <= cfg_max_sum c.
Proof.
  intros [_ Hc] Hwf Hok Hfit. pose proof (spec_swept_fields c a s now) as (Hl & Hs & _).
  pose proof (spec_swept_held c a s now s Hwf). unfold fits, sp_spend in *.
  rewrite Hl, Hs in Hfit. simpl in Hok. destruct (sp_limit a !! s) as [l|] eqn:El.
  - apply (wf_caps _ _ Hwf) in El. lia.
  - unfold sp_spend in Hok. lia.
Qed.

Lemma spec_reserve_wf c a s ceiling now ttl :
  cfg_ok c -> spec_wf c a -> op_ok c a (OReserve s ceiling now ttl) = true ->
  spec_wf c (spec_reserve c a s ceiling now ttl).2.
Proof.
  intros Hc Hwf Hok. unfold spec_reserve.
  destruct (fits _ _ _) eqn:Hfit; [|done]. simpl.
  pose proof (fits_bound _ _ _ _ _ _ Hc Hwf Hok Hfit) as Hb. simpl in Hok.
  pose proof (spec_swept_fields c a s now) as (_ & _ & Hi).
  pose proof (spec_swept_wf c a s now Hwf) as Hwf'.
  pose proof (wf_spend _ _ Hwf s) as Hsp. split; simpl.
  - apply (wf_caps _ _ Hwf').
  - apply (wf_spend _ _ Hwf').
  - intros s'. rewrite spec_admit_held by (simpl; rewrite ?Hi; done).
    pose proof (wf_held _ _ Hwf' s'). unfold held_in. simpl. case_decide; subst; lia.
  - rewrite Hi. intros i r [[<- <-]|[_ Hr]]%lookup_insert_Some; simpl.
    + destruct (wf_issued _ _ Hwf). lia.
    + apply (wf_leases _ _ Hwf') in Hr. rewrite Hi in Hr. lia.
  - rewrite Hi. destruct (wf_issued _ _ Hwf). lia.
Qed.

Lemma spec_settle_wf c a id actual :
  spec_wf c a -> op_ok c a (OSettle id actual) = true -> spec_wf c (spec_settle a id actual).
Proof.
  intros Hwf Hok. unfold spec_settle. simpl in Hok.
  destruct (sp_leases a !! id) as [r|] eqn:Hr; [|done].
  pose proof (wf_ceilings _ _ Hwf) as Hnn. pose proof (wf_spend _ _ Hwf) as Hsp. split; simpl.
  - apply (wf_caps _ _ Hwf).
  - intros s. unfold sp_spend in *. simpl. rewrite count_at_insert. specialize (Hsp s).
    case_decide; [subst; lia | lia].
  - intros s. unfold sp_held. simpl. rewrite (held_delete _ _ r) by done.
    pose proof (wf_held _ _ Hwf s). pose proof (held_ge_lease _ _ _ Hnn Hr).
    pose proof (Hnn _ _ Hr). unfold held_in, sp_held in *. case_decide; subst; lia.
  - intros i x [_ Hx]%lookup_delete_Some. by apply (wf_leases _ _ Hwf).
  - apply (wf_issued _ _ Hwf).
Qed.

Lemma spec_reclaim_wf c a now : spec_wf c a -> spec_wf c (spec_reclaim c a now).2.
Proof. intros. by apply set_leases_filter_wf. Qed.

Lemma spec_step_wf c a o :
  cfg_ok c -> spec_wf c a -> op_ok c a o = true -> spec_wf c (spec_step c a o).2.
Proof.
  intros Hc Hwf Hok. destruct o as [s l|s ceiling now ttl|id actual|now]; simpl.
  - by apply spec_set_limit_wf.
  - pose proof (spec_reserve_wf c a s ceiling now ttl Hc Hwf Hok).
    by destruct (spec_reserve _ _ _ _ _ _).
  - by apply spec_settle_wf.
  - by apply set_leases_filter_wf.
Qed.

(** ** What a client may conclude from the contract *)

(** The tokens by which the settlements of a scope exceed their ceilings
    along a run. *)
Definition overshoot (a : Spec) (s : string) (o : op) : Z :=
  match o with
  | OSettle id actual =>
      match sp_leases a !! id with
      | Some r => if decide (rsv_scope r = s) then Z.max 0 (actual - rsv_ceiling r) else 0
      | None => 0
      end
  | _ => 0
  end.

Fixpoint total_overshoot (c : Cfg) (a : Spec) (s : string) (ops : list op) : Z :=
  match ops with
  | [] => 0
  | o :: ops => overshoot a s o + total_overshoot c (spec_step c a o).2 s ops
  end.

(** The run does not reconfigure the scope's cap. *)
Definition keeps_cap (s : string) (o : op) : bool :=
  match o with OSetLimit s' _ => negb (bool_decide (s' = s)) | _ => true end.

Lemma spec_step_keeps_cap c a s o :
  keeps_cap s o = true -> sp_limit (spec_step c a o).2 !! s = sp_limit a !! s.
Proof.
  intros Hk. destruct o as [s' l|s' ceiling now ttl|id actual|now]; simpl in *.
  - apply negb_true_iff, bool_decide_eq_false in Hk. by apply lookup_partial_alter_ne.
  - unfold spec_reserve. destruct (spec_swept_fields c a s' now) as (Hl & _).
    destruct (fits _ _ _); simpl; by rewrite ?Hl.
  - unfold spec_settle. by destruct (sp_leases a !! id).
  - done.
Qed.

(** One call moves what a capped scope uses by at most the overshoot of a
    settlement, or admits under the cap. *)
Lemma spec_step_usage c a s o cap :
  cfg_ok c -> spec_wf c a -> op_ok c a o = true -> sp_limit a !! s = Some cap ->
  sp_spend (spec_step c a o).2 s + sp_held (spec_step c a o).2 s <=
  Z.max cap (sp_spend a s + sp_held a s + overshoot a s o).
Proof.
  intros Hc Hwf Hok Hcap. destruct o as [s' l|s' ceiling now ttl|id actual|now]; simpl.
  - unfold sp_spend, sp_held, spec_set_limit. simpl. lia.
  - pose proof (spec_swept_fields c a s' now) as (Hl & Hs & Hi).
    pose proof (spec_swept_wf c a s' now Hwf) as Hwf'.
    pose proof (spec_swept_held c a s' now s Hwf). unfold spec_reserve.
    destruct (fits _ _ _) eqn:Hfit; simpl; [|lia].
    rewrite spec_admit_held by (done || (simpl; lia)).
    unfold fits in Hfit. rewrite Hl in Hfit. unfold sp_spend, spec_admit, held_in in *. simpl.
    rewrite Hs in *. case_decide; [subst; rewrite Hcap in Hfit; lia | lia].
  - unfold spec_settle. destruct (sp_leases a !! id) as [r|] eqn:Hr; [|lia].
    unfold sp_spend, sp_held. simpl. rewrite count_at_insert, (held_delete _ _ r) by done.
    unfold held_in. case_decide; subst; lia.
  - unfold sp_spend, spec_reclaim. simpl.
    pose proof (held_filter_le (sp_leases a) s (fun p => expired c now p.2 = false)
      (wf_ceilings _ _ Hwf)). unfold sp_held, set_leases, live_leases. simpl. lia.
Qed.

Lemma spec_run_usage c ops : forall a s cap,
  cfg_ok c -> spec_wf c a -> ops_ok c a ops = true -> forallb (keeps_cap s) ops = true ->
  sp_limit a !! s = Some cap ->
  let a' := (spec_run c a ops).2 in
  sp_limit a' !! s = Some cap /\
  sp_spend a' s + sp_held a' s <=
    Z.max cap (sp_spend a s + sp_held a s) + total_overshoot c a s ops.
Proof.
  induction ops as [|o ops IH]; intros a s cap Hc Hwf Hok Hk Hcap; simpl in *; [split; [done|lia]|].
  apply andb_true_iff in Hok as [Ho Hok], Hk as [Hk1 Hk].
  pose proof (spec_step_usage c a s o cap Hc Hwf Ho Hcap) as Hu.
  pose proof (spec_step_wf c a o Hc Hwf Ho) as Hwf'.
  pose proof (spec_step_keeps_cap c a s o Hk1) as Hl.
  destruct (spec_step c a o) as [x a1]. simpl in *.
  destruct (IH a1 s cap) as [IHl IHu]; [done..|congruence|].
  destruct (spec_run c a1 ops) as [xs a2]. simpl in *. split; [done|].
  assert (0 <= overshoot a s o).
  { unfold overshoot. destruct o; try done. destruct (sp_leases a !! id); [case_decide|]; lia. }
  lia.
Qed.

Section Client.
Context {L : Type} `{LedgerContract L}.

Lemma step_refines l a o :
  lc_rep l a -> spec_wf lc_cfg a -> op_ok lc_cfg a o = true ->
  exists l', step l o = Some ((spec_step lc_cfg a o).1, l') /\ lc_rep l' (spec_step lc_cfg a o).2.
Proof.
  intros Hrep Hwf Hok. destruct o as [s o|s ceiling now ttl|id actual|now]; simpl.
  - eexists. split; [done|]. by apply lc_set_limit.
  - destruct (lc_reserve l a s ceiling now ttl Hrep Hwf Hok) as (out & l' & -> & Hout).
    exists l'. simpl. destruct out, (spec_reserve _ _ _ _ _ _) as [[r'|] a']; try done.
    by destruct Hout as [-> ?].
  - eexists. split; [done|]. by apply lc_settle.
  - destruct (lc_reclaim l a now Hrep Hwf Hok) as [Hn Hr].
    destruct (reclaim_expired l now) as [n l']. exists l'. simpl in *. by subst.
Qed.

Lemma run_refines ops : forall l a,
  lc_rep l a -> spec_wf lc_cfg a -> ops_ok lc_cfg a ops = true ->
  exists l', run l ops = Some ((spec_run lc_cfg a ops).1, l') /\
             lc_rep l' (spec_run lc_cfg a ops).2 /\ spec_wf lc_cfg (spec_run lc_cfg a ops).2.
Proof.
  induction ops as [|o ops IH]; intros l a Hrep Hwf Hok; simpl in *; [by eexists|].
  apply andb_true_iff in Hok as [Ho Hok].
  destruct (step_refines l a o Hrep Hwf Ho) as (l1 & -> & Hrep1).
  pose proof (spec_step_wf _ a o lc_cfg_ok Hwf Ho) as Hwf1.
  destruct (spec_step lc_cfg a o) as [x a1]. simpl in *.
  destruct (IH l1 a1 Hrep1 Hwf1 Hok) as (l2 & -> & Hrep2 & Hwf2).
  exists l2. destruct (spec_run lc_cfg a1 ops). by simpl.
Qed.

(** What the three reads of the ledger show after a run. *)
Definition view (l : L) (s : string) : option Z * Z * Z := (limit l s, spent l s, reserved l s).
Definition spec_view (a : Spec) (s : string) : option Z * Z * Z :=
  (sp_limit a !! s, sp_spend a s, sp_held a s).

Lemma view_refines l a s : lc_rep l a -> spec_wf lc_cfg a -> view l s = spec_view a s.
Proof.
  intros Hrep Hwf. unfold view, spec_view.
  by rewrite (lc_limit _ _ _ Hrep Hwf), (lc_spent _ _ _ Hrep Hwf), (lc_reserved _ _ _ Hrep Hwf).
Qed.

(** A fresh ledger serves every in-range sequence of calls without a
    panic, answers each call as the abstract machine does, and shows its
    totals. *)
Lemma contract_trace l0 ops :
  lc_rep l0 spec_init -> ops_ok lc_cfg spec_init ops = true ->
  exists l', run l0 ops = Some ((spec_run lc_cfg spec_init ops).1, l') /\
             forall s, view l' s = spec_view (spec_run lc_cfg spec_init ops).2 s.
Proof.
  intros Hrep Hok.
  destruct (run_refines ops l0 spec_init Hrep (spec_init_wf _ lc_cfg_ok) Hok)
    as (l' & Hrun & Hrep' & Hwf').
  exists l'. split; [done|]. intros s. by apply view_refines.
Qed.
End Client.

(** C3: A hard cap is never oversubscribed beyond measured overshoot.  On
    every lawful ledger, once a scope is capped and as long as its cap is
    not reconfigured, settled plus held tokens never exceed the cap plus
    the tokens by which settlements exceeded their own ceilings; with
    settlements within their ceilings the cap is never exceeded. *)
Theorem cap_bounds_usage {L} `{LedgerContract L} (l : L) (s : string) (cap : Z) (ops : list op) :
  lc_rep l spec_init -> ops_ok lc_cfg spec_init (OSetLimit s (Some cap) :: ops) = true ->
  forallb (keeps_cap s) ops = true ->
  exists xs l', run l (OSetLimit s (Some cap) :: ops) = Some (xs, l') /\
    limit l' s = Some cap /\
    spent l' s + reserved l' s <=
      cap + total_overshoot lc_cfg (spec_set_limit spec_init s (Some cap)) s ops.
Proof.
  intros Hrep Hok Hk.
  destruct (run_refines _ _ _ Hrep (spec_init_wf _ lc_cfg_ok) Hok) as (l' & Hrun & Hrep' & Hwf').
  eexists _, l'. split; [exact Hrun|].
  rewrite (lc_limit _ _ _ Hrep' Hwf'), (lc_spent _ _ _ Hrep' Hwf'), (lc_reserved _ _ _ Hrep' Hwf').
  cbn [ops_ok] in Hok. apply andb_true_iff in Hok as [Ho Hok].
  pose proof (spec_set_limit_wf _ _ _ _ (spec_init_wf _ lc_cfg_ok) Ho) as Hwf.
  destruct (spec_run_usage lc_cfg ops (spec_set_limit spec_init s (Some cap)) s cap) as [Hl Hu];
    [apply lc_cfg_ok|done|done|done|apply lookup_partial_alter_eq|].
  cbn [spec_run spec_step]. destruct (spec_run lc_cfg (spec_set_limit _ _ _) ops) as [xs a'].
  simpl in *. split; [done|]. destruct (wf_caps _ _ Hwf s cap) as [? _]; [apply lookup_partial_alter_eq|].
  assert (sp_spend (spec_set_limit spec_init s (Some cap)) s = 0) as E1 by done.
  assert (sp_held (spec_set_limit spec_init s (Some cap)) s = 0) as E2 by apply sp_held_init.
  rewrite E1, E2 in Hu. lia.
Qed.
