(* ===== verification/InMemory.v ===== *)
(** [InMemoryLedger] of [crates/sandhi-core/src/ledger.rs], the reference
    implementation of the lease ledger: hash maps of cached counters with
    wrapping and saturating 64-bit arithmetic, shown to refine the
    abstract lease machine of [Ledger]. *)

From S2P Require Import Prelude Ledger.

Record InMemoryLedger := MkInMemory {
  im_limits : gmap string (option Z);
  im_spent : gmap string Z;
  im_reserved : gmap string Z;
  im_leases : gmap Z Reservation;
  im_next_id : Z }.

Definition im_new : InMemoryLedger := MkInMemory ∅ ∅ ∅ ∅ 0.
Definition active_leases (l : InMemoryLedger) : nat := size (im_leases l).

Definition add_reserved (scope : string) (delta : Z) (m : gmap string Z) : gmap string Z :=
  <[scope := wadd (count_at m scope) delta]> m.
Definition sub_reserved (scope : string) (delta : Z) (m : gmap string Z) : gmap string Z :=
  <[scope := sat_sub (count_at m scope) delta]> m.

Definition im_limit (l : InMemoryLedger) (scope : string) : option Z := mjoin (im_limits l !! scope).

#[export] Instance im_view : LedgerView InMemoryLedger := {
  limit := im_limit;
  spent l scope := count_at (im_spent l) scope;
  reserved l scope := count_at (im_reserved l) scope }.

Definition im_set_limit (l : InMemoryLedger) (scope : string) (o : option Z) : InMemoryLedger :=
  MkInMemory (<[scope := o]> (im_limits l)) (im_spent l) (im_reserved l) (im_leases l) (im_next_id l).

(** The lease is built before the ledger is changed, except for [next_id];
    a panic of [now + ttl] is [None]. *)
Definition im_admit (l : InMemoryLedger) (scope : string) (ceiling now ttl : Z)
    : option (result Denied Reservation * InMemoryLedger) :=
  expires_at ← instant_add now ttl;
  let reservation := MkReservation (im_next_id l) scope ceiling expires_at in
  Some (Ok reservation,
        MkInMemory (im_limits l) (im_spent l) (add_reserved scope ceiling (im_reserved l))
          (<[im_next_id l := reservation]> (im_leases l)) (wadd (im_next_id l) 1)).

Definition im_reserve (l : InMemoryLedger) (scope : string) (ceiling now ttl : Z)
    : option (result Denied Reservation * InMemoryLedger) :=
  match limit l scope with
  | Some lim =>
      if lim <? sat_add (sat_add (spent l scope) (reserved l scope)) ceiling
      then Some (Err (MkDenied scope lim (spent l scope) (reserved l scope) ceiling), l)
      else im_admit l scope ceiling now ttl
  | None => im_admit l scope ceiling now ttl
  end.

Definition im_settle (l : InMemoryLedger) (reservation_id actual : Z) : InMemoryLedger :=
  match im_leases l !! reservation_id with
  | None => l
  | Some lease =>
      MkInMemory (im_limits l)
        (<[rsv_scope lease := wadd (count_at (im_spent l) (rsv_scope lease)) actual]> (im_spent l))
        (sub_reserved (rsv_scope lease) (rsv_ceiling lease) (im_reserved l))
        (delete reservation_id (im_leases l)) (im_next_id l)
  end.

(** The loop body of [reclaim_expired] on the two maps it changes. *)
Definition reclaim_one (st : gmap string Z * gmap Z Reservation) (id : Z)
    : gmap string Z * gmap Z Reservation :=
  match st.2 !! id with
  | None => st
  | Some lease => (sub_reserved (rsv_scope lease) (rsv_ceiling lease) st.1, delete id st.2)
  end.

Definition im_reclaim_expired (l : InMemoryLedger) (now : Z) : Z * InMemoryLedger :=
  let expired := (map_to_list (filter (fun p => (rsv_expires_at p.2 <=? now) = true)
                                 (im_leases l))).*1 in
  let '(res, leases) := foldl reclaim_one (im_reserved l, im_leases l) expired in
  (Z.of_nat (length expired),
   MkInMemory (im_limits l) (im_spent l) res leases (im_next_id l)).

#[export] Instance im_ledger : EnforcementLedger InMemoryLedger := {
  set_limit := im_set_limit;
  reserve := im_reserve;
  settle := im_settle;
  reclaim_expired := im_reclaim_expired }.

(** ** The refinement *)

(** Instants are compared exactly, admission drops nothing, identifiers
    start at zero.  A cap of [u64::MAX] cannot be told from a saturated
    sum, so caps stay below it. *)
Definition im_cfg : Cfg := MkCfg (fun t => t) false 0 (u64_max - 1) u64_max.

(** The cached counter of every scope is the sum over its leases. *)
Definition counts (res : gmap string Z) (leases : gmap Z Reservation) : Prop :=
  forall s, count_at res s = held leases s.

Record im_rep (l : InMemoryLedger) (a : Spec) : Prop := {
  im_rep_limit : forall s, im_limit l s = sp_limit a !! s;
  im_rep_spent : forall s, count_at (im_spent l) s = sp_spend a s;
  im_rep_reserved : counts (im_reserved l) (im_leases l);
  im_rep_leases : im_leases l = sp_leases a;
  im_rep_next : im_next_id l = sp_issued a }.

Lemma im_cfg_ok : cfg_ok im_cfg.
Proof. split; simpl; ulia. Qed.

Lemma counts_sub res leases id r :
  counts res leases -> ceilings_nonneg leases -> leases !! id = Some r ->
  counts (sub_reserved (rsv_scope r) (rsv_ceiling r) res) (delete id leases).
Proof.
  intros Hc Hnn Hr s. unfold sub_reserved. rewrite count_at_insert, (held_delete _ _ r) by done.
  pose proof (held_ge_lease _ _ _ Hnn Hr). rewrite !Hc. unfold held_in, sat_sub.
  case_decide; subst; lia.
Qed.

(** The loop over the expired identifiers deletes exactly them and keeps
    the counters exact, whatever the order of the hash map. *)
Lemma reclaim_loop ids : forall res leases res' leases',
  counts res leases -> ceilings_nonneg leases ->
  foldl reclaim_one (res, leases) ids = (res', leases') ->
  counts res' leases' /\ leases' = foldr delete leases ids.
Proof.
  induction ids as [|id ids IH] using rev_ind; intros res leases res' leases' Hc Hnn Hf.
  - by injection Hf as <- <-.
  - rewrite foldl_snoc in Hf.
    destruct (foldl reclaim_one (res, leases) ids) as [res1 leases1] eqn:E.
    destruct (IH _ _ _ _ Hc Hnn E) as [Hc1 ->]. rewrite foldr_snoc.
    assert (Hcomm : foldr delete (delete id leases) ids = delete id (foldr delete leases ids)).
    { clear. induction ids as [|j ids IH]; simpl; [done|]. by rewrite IH, delete_delete. }
    rewrite Hcomm. unfold reclaim_one in Hf. simpl in Hf.
    assert (Hnn1 : ceilings_nonneg (foldr delete leases ids)).
    { clear -Hnn. induction ids as [|j ids IH]; simpl; [done|].
      intros i r [_ Hi]%lookup_delete_Some. eapply IH, Hi. }
    destruct (foldr delete leases ids !! id) as [r|] eqn:Hr; injection Hf as <- <-.
    + split; [by apply counts_sub | done].
    + by rewrite delete_id.
Qed.

Lemma foldr_delete_lookup {A} (ids : list Z) (m : gmap Z A) i :
  foldr delete m ids !! i = if decide (i ∈ ids) then None else m !! i.
Proof.
  induction ids as [|j ids IH]; cbn [foldr]; [by rewrite decide_False by apply not_elem_of_nil|].
  rewrite lookup_delete, IH. pose proof (elem_of_cons ids i j).
  repeat case_decide; naive_solver.
Qed.

Lemma reclaim_deletes_expired now (m : gmap Z Reservation) :
  foldr delete m (map_to_list (filter (fun p => (rsv_expires_at p.2 <=? now) = true) m)).*1
  = live_leases im_cfg now m.
Proof.
  apply map_eq. intros i. rewrite foldr_delete_lookup. unfold live_leases, expired. simpl.
  case_decide as Hin.
  - apply list_elem_of_fmap in Hin as ([j r] & -> & Hj%elem_of_map_to_list).
    apply map_lookup_filter_Some in Hj as [Hj He]. simpl in *.
    symmetry. apply map_lookup_filter_None. right. intros r'. simpl. rewrite Hj.
    intros [= <-]. simpl. congruence.
  - symmetry. destruct (m !! i) as [r|] eqn:Hr.
    + apply map_lookup_filter_Some. split; [done|]. simpl.
      destruct (rsv_expires_at r <=? now) eqn:He; [|done]. destruct Hin.
      apply list_elem_of_fmap. exists (i, r). split; [done|].
      apply elem_of_map_to_list, map_lookup_filter_Some. done.
    + apply map_lookup_filter_None. by left.
Qed.

Lemma im_set_limit_refines l a s o :
  im_rep l a -> im_rep (im_set_limit l s o) (spec_set_limit a s o).
Proof.
  intros []. split; try done. intros s'. unfold im_limit. simpl.
  destruct (decide (s = s')) as [<-|Hne].
  - by rewrite lookup_insert_eq, lookup_partial_alter_eq.
  - rewrite lookup_insert_ne, lookup_partial_alter_ne by done. apply im_rep_limit0.
Qed.

(** Admission is the abstract one when the scope's totals stay in range. *)
Lemma im_admit_refines l a s ceiling now ttl :
  im_rep l a -> spec_wf im_cfg a -> instant_ok (now + ttl) = true ->
  0 <= ceiling -> sp_spend a s + sp_held a s + ceiling <= u64_max -> sp_issued a < u64_max ->
  exists l', im_admit l s ceiling now ttl = Some (Ok (next_lease im_cfg a s ceiling now ttl), l') /\
             im_rep l' (spec_admit im_cfg a (next_lease im_cfg a s ceiling now ttl)).
Proof.
  intros [Hl Hs Hr Hls Hn] Hwf Ht Hc Hsum Hid. unfold im_admit, instant_add. rewrite Ht. simpl.
  unfold next_lease. simpl. rewrite Hn. eexists. split; [done|].
  pose proof (wf_issued _ _ Hwf) as [Hi _]. pose proof (wf_spend _ _ Hwf s).
  split; simpl; try done.
  - intros s'. rewrite Hls, held_insert by (by apply (next_id_free im_cfg)).
    unfold add_reserved, held_in. rewrite count_at_insert. simpl. rewrite <- Hls, <- !Hr.
    pose proof (wf_held _ _ Hwf s) as Hh. unfold sp_held in *. rewrite <- Hls, <- Hr in *.
    case_decide; subst; [rewrite wadd_exact; lia | lia].
  - by rewrite Hls.
  - rewrite wadd_exact; ulia.
Qed.

Lemma im_reserve_refines l a s ceiling now ttl :
  im_rep l a -> spec_wf im_cfg a -> op_ok im_cfg a (OReserve s ceiling now ttl) = true ->
  exists out l', im_reserve l s ceiling now ttl = Some (out, l') /\
    match out, spec_reserve im_cfg a s ceiling now ttl with
    | Ok r, (Some r', a') => r = r' /\ im_rep l' a'
    | Err _, (None, a') => im_rep l' a'
    | _, _ => False
    end.
Proof.
  intros Hrep Hwf Hok. pose proof Hrep as [Hl Hs Hr Hls Hn].
  pose proof (wf_spend _ _ Hwf s). pose proof (wf_held _ _ Hwf s) as Hh.
  assert (Hres : count_at (im_reserved l) s = sp_held a s) by (rewrite Hr, Hls; done).
  unfold im_reserve, spec_reserve, fits, spec_swept. simpl. rewrite Hl, Hs, Hres.
  unfold op_ok in Hok. simpl in Hok, Hh, H.
  assert (Hadm : sp_spend a s + sp_held a s + ceiling <= u64_max ->
    exists l', im_admit l s ceiling now ttl = Some (Ok (next_lease im_cfg a s ceiling now ttl), l') /\
             im_rep l' (spec_admit im_cfg a (next_lease im_cfg a s ceiling now ttl))).
  { intros. apply im_admit_refines; try done; bools; destruct (sp_limit a !! s); done || lia. }
  destruct (sp_limit a !! s) as [lim|] eqn:El.
  - pose proof (wf_caps _ _ Hwf _ _ El) as Hcap. simpl in Hcap.
    bools. rewrite sat_sum_test by lia. destruct (_ <=? lim) eqn:E2; simpl.
    + destruct Hadm as (l' & -> & Hr'); [lia|]. by eexists _, _.
    + by eexists _, _.
  - destruct Hadm as (l' & -> & Hr'); [lia|]. by eexists _, _.
Qed.

Lemma im_settle_refines l a id actual :
  im_rep l a -> spec_wf im_cfg a -> op_ok im_cfg a (OSettle id actual) = true ->
  im_rep (im_settle l id actual) (spec_settle a id actual).
Proof.
  intros Hrep Hwf Hok. pose proof Hrep as [Hl Hs Hr Hls Hn].
  pose proof (wf_spend _ _ Hwf) as Hsp. unfold im_settle, spec_settle. simpl in Hok. rewrite Hls.
  destruct (sp_leases a !! id) as [r|] eqn:Er; [|done]. split; simpl; try done.
  - intros s. unfold sp_spend at 1. simpl. rewrite !count_at_insert, Hs.
    case_decide; [|by rewrite Hs]. rewrite wadd_exact; [done|specialize (Hsp (rsv_scope r))..]; lia.
  - apply counts_sub; rewrite <- ?Hls; [done| |by rewrite Hls].
    rewrite Hls. apply (wf_ceilings _ _ Hwf).
Qed.

Lemma im_reclaim_refines l a now :
  im_rep l a -> spec_wf im_cfg a ->
  (im_reclaim_expired l now).1 = (spec_reclaim im_cfg a now).1 /\
  im_rep (im_reclaim_expired l now).2 (spec_reclaim im_cfg a now).2.
Proof.
  intros [Hl Hs Hr Hls Hn] Hwf. unfold im_reclaim_expired, spec_reclaim.
  destruct (foldl reclaim_one _ _) as [res leases] eqn:Ef.
  apply reclaim_loop in Ef as [Hc ->]; [|done|rewrite Hls; apply (wf_ceilings _ _ Hwf)].
  rewrite reclaim_deletes_expired in *. split; simpl.
  - rewrite length_fmap, length_map_to_list, Hls. done.
  - split; simpl; try done. by rewrite Hls.
Qed.

#[export] Instance im_contract : LedgerContract InMemoryLedger.
Proof.
  refine {| lc_cfg := im_cfg; lc_cfg_ok := im_cfg_ok; lc_rep := im_rep |}.
  - intros l a s [] _. auto.
  - intros l a s [] _. apply im_rep_spent0.
  - intros l a s [] _. simpl. unfold sp_held. by rewrite im_rep_reserved0, im_rep_leases0.
  - intros. by apply im_set_limit_refines.
  - intros. by apply im_reserve_refines.
  - intros. by apply im_settle_refines.
  - intros. by apply im_reclaim_refines.
Defined.

Lemma im_new_rep : im_rep im_new spec_init.
Proof. by split. Qed.

(** ** Properties *)

(** C1: The in-memory ledger refines the abstract lease machine.  Every
    sequence of calls whose arguments and totals stay in 64 bits runs
    without a panic on a new ledger; each call answers as the machine
    does, and afterwards the cached limit, spent and reserved totals of
    every scope are the machine's, whose reserved total is the sum of the
    outstanding ceilings. *)
Theorem in_memory_refines_spec (ops : list op) :
  ops_ok im_cfg spec_init ops = true ->
  exists l', run im_new ops = Some ((spec_run im_cfg spec_init ops).1, l') /\
             forall s, view l' s = spec_view (spec_run im_cfg spec_init ops).2 s.
Proof. exact (@contract_trace _ _ _ im_contract im_new ops im_new_rep). Qed.

(** Two scopes, a denial, a settlement above its ceiling, a replay and a
    reclaim. *)
Definition demo_ops : list op :=
  [OSetLimit "a" (Some 100); OReserve "a" 60 0 (seconds 900); OReserve "a" 60 0 (seconds 900);
   OReserve "b" 7 0 (seconds 900); OSettle 0 75; OSettle 0 75; OReserve "a" 20 5 (seconds 10);
   OReclaim (seconds 11)].

Lemma in_memory_refines_spec_witness :
  exists l', run im_new demo_ops = Some
    ([SeenUnit; SeenReserve (Some (MkReservation 0 "a" 60 (seconds 900))); SeenReserve None;
      SeenReserve (Some (MkReservation 1 "b" 7 (seconds 900))); SeenUnit; SeenUnit;
      SeenReserve (Some (MkReservation 2 "a" 20 (5 + seconds 10))); SeenCount 1], l') /\
    view l' "a" = (Some 100, 75, 0) /\ view l' "b" = (None, 0, 7).
Proof.
  destruct (in_memory_refines_spec demo_ops) as (l' & Hrun & Hview); [by vm_compute|].
  exists l'. rewrite !Hview. split; [by rewrite Hrun|]. by vm_compute.
Defined.
