(* ===== verification/Conformance.v ===== *)
(** The executable conformance suite of
    [crates/sandhi-core/src/conformance.rs] (TD-0007 C1-C6), translated as
    written: a client of the [EnforcementLedger] trait that knows nothing
    of the backend.  The suite is proved to pass on every ledger that
    satisfies [LedgerContract], so a lawful backend cannot fail it. *)

From stdpp Require Import pretty.
From S2P Require Import Prelude Ledger InMemory.

Definition t0 : Z := seconds 1700000000.
Definition TTL : Z := seconds 900.

(** ** The suite

    A failed assertion is [Err] with the label of the requirement. *)

Definition check (b : bool) (label : string) : result string unit :=
  if b then Ok tt else Err label.

Section Suite.
Context {L : Type} `{EnforcementLedger L}.

(** [reserve(..).unwrap_or_else(|_| panic!(..))]. *)
Definition must_admit (l : L) (scope : string) (ceiling now : Z) (label : string)
    : result string (Reservation * L) :=
  match reserve l scope ceiling now TTL with
  | Some (Ok r, l') => Ok (r, l')
  | _ => Err label
  end.

Definition must_deny (l : L) (scope : string) (ceiling now : Z) (label : string)
    : result string L :=
  match reserve l scope ceiling now TTL with
  | Some (Err _, l') => Ok l'
  | _ => Err label
  end.

Definition c1_atomic_conditional_admit (l : L) : result string unit :=
  let l := set_limit l "s" (Some 100) in
  '(first, l) ← must_admit l "s" 60 t0 "C1: a 60 ceiling under a 100 cap must admit";
  _ ← check (reserved l "s" =? 60) "C1: lease must be held";
  l ← must_deny l "s" 60 t0 "C1 VIOLATION";
  _ ← check (reserved l "s" =? 60) "C1: a denied reserve must leave reserved unchanged";
  '(_, l) ← must_admit l "s" 40 t0 "C1: 60+40 == 100 must fit exactly";
  _ ← check (reserved l "s" =? 100) "C1";
  let l := settle l (rsv_id first) 10 in
  check (10 <=? spent l "s") "C1: settle must move the quantity into spend".

Definition c2_ttl_leases_are_reclaimed_on_a_timer (l : L) : result string unit :=
  let l := set_limit l "s" (Some 100) in
  '(_, l) ← must_admit l "s" 100 t0 "admits";
  _ ← check (reserved l "s" =? 100) "C2";
  let '(n, l) := reclaim_expired l (t0 + seconds 60) in
  _ ← check (n =? 0) "C2: a live lease must not be reclaimed";
  let '(reclaimed, l) := reclaim_expired l (t0 + TTL + seconds 1) in
  _ ← check (reclaimed =? 1) "C2 VIOLATION";
  _ ← check (reserved l "s" =? 0) "C2: reclaimed capacity must be released";
  '(_, _) ← must_admit l "s" 100 (t0 + TTL + seconds 2) "C2: the scope must be usable after a reclaim";
  Ok tt.

Definition c3_settle_by_id_is_idempotent (l : L) : result string unit :=
  let l := set_limit l "s" (Some 1000) in
  '(lease, l) ← must_admit l "s" 100 t0 "admits";
  let l := settle l (rsv_id lease) 40 in
  let after_first := spent l "s" in
  _ ← check (after_first =? 40) "C3: first settle records the actual";
  let l := settle l (rsv_id lease) 40 in
  let l := settle l (rsv_id lease) 40 in
  _ ← check (spent l "s" =? after_first) "C3 VIOLATION";
  check (reserved l "s" =? 0) "C3: settling releases the lease exactly once".

(** The loop [for i in 0..200], from iteration [i] with [n] left; a panic of
    [reserve] fails the suite. *)
Fixpoint c4_loop (n : nat) (i : Z) (l : L) (admitted : Z) (leases : list Z)
    : result string (L * Z * list Z) :=
  match n with
  | O => Ok (l, admitted, leases)
  | S n =>
      '(l, admitted, leases) ←
        match reserve l "s" 5 (t0 + seconds i) TTL with
        | Some (Ok lease, l) => Ok (l, admitted + 1, leases ++ [rsv_id lease])
        | Some (Err _, l) => Ok (l, admitted, leases)
        | None => Err "panic"
        end;
      _ ← check (wadd (spent l "s") (reserved l "s") <=? 50) "C4 VIOLATION";
      c4_loop n (i + 1) l admitted leases
  end.

Definition c4_a_hard_cap_never_admits_over_the_limit (l : L) : result string unit :=
  let l := set_limit l "s" (Some 50) in
  '(l, admitted, leases) ← c4_loop 200 0 l 0 [];
  _ ← check (admitted =? 10) "C4: a 50 cap admits exactly ten 5-token ceilings";
  let l := foldl (fun l id => settle l id 1) l leases in
  check (wadd (spent l "s") (reserved l "s") <=? 50) "C4: invariant must survive settlement".

(** [format!("scope_{i}")]. *)
Definition scope_name (i : nat) : string := "scope_" +:+ pretty (N.of_nat i).

Definition c5_hot_path_is_a_point_write (l : L) : result string unit :=
  let l := foldl (fun l i => set_limit l (scope_name i) (Some 1000)) l (seq 0 200) in
  '(lease, l) ← must_admit l "scope_7" 10 t0 "C5: reserve must succeed with many scopes present";
  _ ← check (reserved l "scope_7" =? 10) "C5";
  _ ← check (reserved l "scope_8" =? 0) "C5: a reserve must touch exactly one scope";
  let l := settle l (rsv_id lease) 3 in
  check (spent l "scope_8" =? 0) "C5: settle is scoped too".

Fixpoint c6_loop (n : nat) (i : Z) (scope : string) (l : L) : result string L :=
  match n with
  | O => Ok l
  | S n => '(_, l) ← must_admit l scope 1000000 (t0 + seconds i) "C6 VIOLATION";
           c6_loop n (i + 1) scope l
  end.

Definition c6_uncapped_scopes_always_admit (l : L) : result string unit :=
  let l := set_limit l "capped" (Some 10) in
  let l := set_limit l "capped" None in
  l ← c6_loop 20 0 "never_capped" l;
  _ ← check (bool_decide (limit l "never_capped" = None)) "C6: the scope must report no limit";
  l ← c6_loop 20 0 "capped" l;
  check (bool_decide (limit l "capped" = None)) "C6: the scope must report no limit".

(** [make] returns a fresh ledger each time it is called. *)
Definition assert_enforcement_conformance (fresh : L) : result string unit :=
  _ ← c1_atomic_conditional_admit fresh;
  _ ← c2_ttl_leases_are_reclaimed_on_a_timer fresh;
  _ ← c3_settle_by_id_is_idempotent fresh;
  _ ← c4_a_hard_cap_never_admits_over_the_limit fresh;
  _ ← c5_hot_path_is_a_point_write fresh;
  c6_uncapped_scopes_always_admit fresh.
End Suite.

Example in_memory_ledger_is_conformant : assert_enforcement_conformance im_new = Ok tt.
Proof. by vm_compute. Qed.

(** ** The suite passes on every lawful ledger *)

(** What the suite needs of the backend's clock and integers: a second is
    visible to its clock, and small totals fit. *)
Record cfg_suite (c : Cfg) : Prop := {
  cs_mono : forall t u, t <= u -> cfg_tick c t <= cfg_tick c u;
  cs_second : forall t u, t + seconds 1 <= u -> cfg_tick c t < cfg_tick c u;
  cs_cap : 1000 <= cfg_max_cap c;
  cs_sum : 1000000000 <= cfg_max_sum c <= u64_max;
  cs_base : cfg_base c <= 1 }.

(** A ledger tracked by an abstract state in which nothing expires before
    the horizon [hz] and at most [n] identifiers were issued. *)
Record tracks {L} `{LedgerContract L} (l : L) (a : Spec) (n hz : Z) : Prop := {
  tr_rep : lc_rep l a;
  tr_wf : spec_wf lc_cfg a;
  tr_live : forall i r, sp_leases a !! i = Some r -> expired lc_cfg hz r = false;
  tr_issued : sp_issued a <= n }.

Section SpecViews.
Context (c : Cfg).
Implicit Types (a : Spec) (s : string).

Lemma spec_view_set_limit a s o s' :
  spec_view (spec_set_limit a s o) s' =
  (if decide (s = s') then o else sp_limit a !! s', sp_spend a s', sp_held a s').
Proof.
  unfold spec_view, spec_set_limit. simpl. by rewrite lookup_partial_alter.
Qed.

Lemma spec_view_admit a r s :
  spec_wf c a -> rsv_id r = cfg_base c + sp_issued a ->
  spec_view (spec_admit c a r) s = (sp_limit a !! s, sp_spend a s, held_in s r + sp_held a s).
Proof. intros Hwf Hid. unfold spec_view. by rewrite spec_admit_held. Qed.

Lemma spec_view_settle a id actual r s :
  sp_leases a !! id = Some r ->
  spec_view (spec_settle a id actual) s =
  (sp_limit a !! s,
   if decide (rsv_scope r = s) then sp_spend a s + actual else sp_spend a s,
   sp_held a s - held_in s r).
Proof.
  intros Hr. unfold spec_view, spec_settle. rewrite Hr. unfold sp_spend, sp_held. simpl.
  rewrite count_at_insert, (held_delete _ _ r) by done. by case_decide; subst.
Qed.

Lemma spec_swept_live a s now :
  (forall i r, sp_leases a !! i = Some r -> expired c now r = false) ->
  spec_swept c a s now = a.
Proof.
  intros Hl. unfold spec_swept. destruct (cfg_eager c); [|done].
  unfold set_leases, live_in_scope. rewrite map_filter_id; [by destruct a|].
  intros i r Hi. simpl. rewrite (Hl i r Hi), andb_false_r. done.
Qed.
End SpecViews.

Section Lawful.
Context {L : Type} `{LedgerContract L} (Hs : cfg_suite lc_cfg).
Implicit Types (l : L) (a : Spec).

(** Reading one total of a tracked ledger. *)
Lemma tracks_view l a n now s :
  tracks l a n now ->
  limit l s = sp_limit a !! s /\ spent l s = sp_spend a s /\ reserved l s = sp_held a s.
Proof.
  intros [Hrep Hwf _ _].
  by rewrite (lc_limit _ _ _ Hrep Hwf), (lc_spent _ _ _ Hrep Hwf), (lc_reserved _ _ _ Hrep Hwf).
Qed.

Lemma tracks_set_limit l a n now s o :
  tracks l a n now -> op_ok lc_cfg a (OSetLimit s o) = true ->
  tracks (set_limit l s o) (spec_set_limit a s o) n now.
Proof.
  intros [Hrep Hwf Hl Hi] Hok. split; [by apply lc_set_limit|by apply spec_set_limit_wf|done|done].
Qed.

Lemma tracks_settle l a n now id actual :
  tracks l a n now -> op_ok lc_cfg a (OSettle id actual) = true ->
  tracks (settle l id actual) (spec_settle a id actual) n now.
Proof.
  intros [Hrep Hwf Hl Hi] Hok. split; [by apply lc_settle|by apply spec_settle_wf|..];
    unfold spec_settle; destruct (sp_leases a !! id); simpl; try done.
  intros i x [_ Hr]%lookup_delete_Some. eauto.
Qed.

(** A reservation made before the horizon and outliving it. *)
Lemma tracks_reserve l a n hz s ceiling now :
  tracks l a n hz -> now <= hz -> hz + seconds 1 <= now + TTL ->
  op_ok lc_cfg a (OReserve s ceiling now TTL) = true ->
  if fits a s ceiling then
    let r := next_lease lc_cfg a s ceiling now TTL in
    exists l', reserve l s ceiling now TTL = Some (Ok r, l') /\
               tracks l' (spec_admit lc_cfg a r) (n + 1) hz
  else exists d l', reserve l s ceiling now TTL = Some (Err d, l') /\ tracks l' a n hz.
Proof.
  intros [Hrep Hwf Hl Hi] Hnow Httl Hok.
  destruct (lc_reserve l a s ceiling now TTL Hrep Hwf Hok) as (out & l' & Hr & Hout).
  pose proof (spec_reserve_wf lc_cfg a s ceiling now TTL lc_cfg_ok Hwf Hok) as Hwf'.
  assert (Hsw : spec_swept lc_cfg a s now = a).
  { apply spec_swept_live. intros i x Hx%Hl. unfold expired in *.
    pose proof (cs_mono _ Hs now hz Hnow). lia. }
  unfold spec_reserve in *. rewrite Hsw in Hwf', Hout.
  destruct (fits a s ceiling).
  - destruct out as [x|]; [|done]. destruct Hout as [-> Hrep']. exists l'. split; [done|].
    split; [done|done| |simpl; lia].
    simpl. intros i x [[<- <-]|[_ Hx]]%lookup_insert_Some; [|eauto].
    apply Z.leb_gt. simpl. by apply cs_second.
  - destruct out as [|d]; [done|]. by exists d, l'.
Qed.

Lemma tracks_fresh l now : lc_rep l spec_init -> tracks l spec_init 0 now.
Proof. intros. split; [done|apply spec_init_wf, lc_cfg_ok|done|done]. Qed.

(** The range conditions of a small call. *)
Lemma reserve_ok a n hz l s ceiling now :
  tracks l a n hz -> 0 <= ceiling <= 1000000 -> 0 <= n <= 1000 -> t0 <= now <= t0 + seconds 2000 ->
  (sp_limit a !! s = None -> sp_spend a s + sp_held a s <= 100000000) ->
  op_ok lc_cfg a (OReserve s ceiling now TTL) = true.
Proof.
  intros [_ _ _ Hi] Hc Hn Ht Hu. destruct Hs. unfold op_ok.
  assert (instant_ok now = true /\ instant_ok (now + TTL) = true) as [-> ->].
  { unfold instant_ok, instant_min, instant_max, TTL, t0, seconds, nanos in *. lia. }
  destruct (sp_limit a !! s); [lia|]. specialize (Hu eq_refl). lia.
Qed.

(** One admission, as the suite sees it: the lease, the new totals of its
    scope, the other scopes and leases untouched. *)
Record admitted_to (a a' : Spec) (r : Reservation) : Prop := {
  adm_limit : sp_limit a' = sp_limit a;
  adm_spend s : sp_spend a' s = sp_spend a s;
  adm_held s : sp_held a' s = held_in s r + sp_held a s;
  adm_leases : sp_leases a' = <[rsv_id r := r]> (sp_leases a);
  adm_fresh : sp_leases a !! rsv_id r = None }.

Definition lease_for (r : Reservation) (s : string) (ceiling now : Z) : Prop :=
  rsv_scope r = s /\ rsv_ceiling r = ceiling /\ rsv_expires_at r = now + TTL.

Definition small_call (n hz ceiling now : Z) : Prop :=
  0 <= ceiling <= 1000000 /\ 0 <= n <= 1000 /\ t0 <= now <= t0 + seconds 2000 /\
  now <= hz /\ hz + seconds 1 <= now + TTL.

Lemma reserve_small l a n hz s ceiling now :
  tracks l a n hz -> small_call n hz ceiling now ->
  (sp_limit a !! s = None -> sp_spend a s + sp_held a s <= 100000000) ->
  if fits a s ceiling then
    exists r l' a', reserve l s ceiling now TTL = Some (Ok r, l') /\ tracks l' a' (n + 1) hz /\
      admitted_to a a' r /\ lease_for r s ceiling now
  else exists d l', reserve l s ceiling now TTL = Some (Err d, l') /\ tracks l' a n hz.
Proof.
  intros Htr (Hc & Hn & Ht & Hh & Hl) Hu.
  pose proof (reserve_ok _ _ _ _ s ceiling now Htr Hc Hn Ht Hu) as Hok.
  pose proof (tracks_reserve _ _ _ _ _ _ _ Htr Hh Hl Hok) as Hr.
  destruct (fits a s ceiling); [|done]. destruct Hr as (l' & Hr & Htr').
  eexists _, _, _. split; [exact Hr|]. split; [exact Htr'|]. split; [|done].
  split; try done.
  - intros s'. apply spec_admit_held; [apply Htr|done].
  - apply (next_id_free lc_cfg); [apply Htr|done].
Qed.

Lemma must_admit_small l a n hz s ceiling now :
  tracks l a n hz -> small_call n hz ceiling now ->
  (sp_limit a !! s = None -> sp_spend a s + sp_held a s <= 100000000) ->
  fits a s ceiling = true ->
  exists r l' a', (forall label, must_admit l s ceiling now label = Ok (r, l')) /\ tracks l' a' (n + 1) hz /\
    admitted_to a a' r /\ lease_for r s ceiling now.
Proof.
  intros Htr Hsm Hu Hfit. pose proof (reserve_small _ _ _ _ _ _ _ Htr Hsm Hu) as Hr.
  rewrite Hfit in Hr. destruct Hr as (r & l' & a' & Hr & Hrest).
  exists r, l', a'. split; [|done]. intros label. unfold must_admit. by rewrite Hr.
Qed.

Lemma must_deny_small l a n hz s ceiling now :
  tracks l a n hz -> small_call n hz ceiling now ->
  (sp_limit a !! s = None -> sp_spend a s + sp_held a s <= 100000000) ->
  fits a s ceiling = false ->
  exists l', (forall label, must_deny l s ceiling now label = Ok l') /\ tracks l' a n hz.
Proof.
  intros Htr Hsm Hu Hfit. pose proof (reserve_small _ _ _ _ _ _ _ Htr Hsm Hu) as Hr.
  rewrite Hfit in Hr. destruct Hr as (d & l' & Hr & Htr').
  exists l'. split; [|done]. intros label. unfold must_deny. by rewrite Hr.
Qed.

Lemma tracks_id l a n hz i r : tracks l a n hz -> sp_leases a !! i = Some r -> i <= u64_max.
Proof.
  intros [_ Hwf _ _] Hr. pose proof (wf_leases _ _ Hwf _ _ Hr). pose proof (wf_issued _ _ Hwf).
  destruct Hs. lia.
Qed.

Lemma settle_small l a n hz id actual r :
  tracks l a n hz -> sp_leases a !! id = Some r -> 0 <= actual <= 1000000 ->
  sp_spend a (rsv_scope r) <= 100000000 ->
  exists a', tracks (settle l id actual) a' n hz /\ sp_limit a' = sp_limit a /\
    (forall s, sp_spend a' s = (if decide (rsv_scope r = s) then actual else 0) + sp_spend a s) /\
    (forall s, sp_held a' s = sp_held a s - held_in s r) /\
    sp_leases a' = delete id (sp_leases a).
Proof.
  intros Htr Hr Ha Hsp. exists (spec_settle a id actual). split.
  { apply tracks_settle; [done|]. simpl. rewrite Hr. pose proof (tracks_id _ _ _ _ _ _ Htr Hr).
    destruct Hs. lia. }
  assert (Hv := spec_view_settle a id actual r).
  split; [unfold spec_settle; by rewrite Hr|]. split; [|split].
  - intros s. specialize (Hv s Hr). unfold spec_view in Hv. injection Hv as _ -> _.
    case_decide; lia.
  - intros s. specialize (Hv s Hr). by injection Hv as _ _ ->.
  - unfold spec_settle. by rewrite Hr.
Qed.

Lemma fresh_capped l s lim hz :
  lc_rep l spec_init -> 0 <= lim <= 1000 ->
  exists a, tracks (set_limit l s (Some lim)) a 0 hz /\ sp_limit a !! s = Some lim /\
    (forall s, sp_spend a s = 0) /\ (forall s, sp_held a s = 0) /\ sp_leases a = ∅ /\
    forall s', s <> s' -> sp_limit a !! s' = None.
Proof.
  intros Hrep Hlim. exists (spec_set_limit spec_init s (Some lim)).
  split; [apply tracks_set_limit; [by apply tracks_fresh | destruct Hs; simpl; lia]|].
  split; [apply lookup_partial_alter_eq|]. split; [done|]. split; [apply sp_held_init|].
  split; [done|]. intros s' Hne. simpl. by rewrite lookup_partial_alter_ne.
Qed.

(** Reads of a tracked ledger. *)
Lemma check_reserved l a n hz s h label :
  tracks l a n hz -> sp_held a s = h -> check (reserved l s =? h) label = Ok tt.
Proof.
  intros Htr <-. destruct (tracks_view _ _ _ _ s Htr) as (_ & _ & ->).
  by rewrite Z.eqb_refl.
Qed.

Lemma check_spent l a n hz s h label :
  tracks l a n hz -> sp_spend a s = h -> check (spent l s =? h) label = Ok tt.
Proof.
  intros Htr <-. destruct (tracks_view _ _ _ _ s Htr) as (_ & -> & _).
  by rewrite Z.eqb_refl.
Qed.

Lemma fits_capped a s lim ceiling :
  sp_limit a !! s = Some lim -> fits a s ceiling = (sp_spend a s + sp_held a s + ceiling <=? lim).
Proof. intros Hl. unfold fits. by rewrite Hl. Qed.

(** Rewrites with the totals known of the tracked states. *)
Ltac totals :=
  repeat match goal with
  | H : admitted_to _ _ _ |- _ => destruct H as [?Hl ?Hsp ?Hh ?Hls ?Hfr]
  | H : lease_for _ _ _ _ |- _ => destruct H as (?Hrs & ?Hrc & ?Hre)
  | H : forall s, sp_spend ?a s = _ |- context [sp_spend ?a _] => rewrite H
  | H : forall s, sp_held ?a s = _ |- context [sp_held ?a _] => rewrite H
  | H : rsv_scope ?r = _ |- context [rsv_scope ?r] => rewrite H
  | H : rsv_ceiling ?r = _ |- context [rsv_ceiling ?r] => rewrite H
  | |- context [held_in _ _] => unfold held_in
  end; simpl; try lia.
Ltac small := unfold small_call, TTL, t0, seconds, nanos; lia.

(** The lease just admitted can be looked up. *)
Lemma admitted_lookup a a' r : admitted_to a a' r -> sp_leases a' !! rsv_id r = Some r.
Proof. intros [_ _ _ -> _]. apply lookup_insert_eq. Qed.

Lemma admitted_lookup_old a a' r i x :
  admitted_to a a' r -> sp_leases a !! i = Some x -> sp_leases a' !! i = Some x.
Proof. intros [_ _ _ -> Hf] Hx. rewrite lookup_insert_ne; congruence. Qed.

Lemma c1_passes l : lc_rep l spec_init -> c1_atomic_conditional_admit l = Ok tt.
Proof.
  intros Hrep. unfold c1_atomic_conditional_admit.
  destruct (fresh_capped l "s" 100 (t0 + seconds 600) Hrep) as (a0 & T0 & L0 & S0 & H0' & _ & _); [lia|].
  destruct (must_admit_small _ _ _ _ "s" 60 t0 T0) as (r1 & l1 & a1 & -> & T1 & A1 & Hr1);
    [small|congruence|rewrite (fits_capped _ _ 100) by done; by totals|]. simpl.
  pose proof (admitted_lookup _ _ _ A1) as Hid.
  totals. erewrite check_reserved by (done || totals). simpl.
  destruct (must_deny_small _ _ _ _ "s" 60 t0 T1) as (l2 & -> & T2);
    [small|congruence|rewrite (fits_capped _ _ 100) by congruence; totals|]. simpl.
  erewrite check_reserved by (done || totals). simpl.
  destruct (must_admit_small _ _ _ _ "s" 40 t0 T2) as (r3 & l3 & a3 & -> & T3 & A3 & Hr3);
    [small|congruence|rewrite (fits_capped _ _ 100) by congruence; totals; done|]. simpl.
  pose proof (admitted_lookup_old _ _ _ _ _ A3 Hid) as Hid3.
  totals. erewrite check_reserved by (done || totals). simpl.
  destruct (settle_small _ _ _ _ _ 10 _ T3 Hid3) as (a4 & T4 & _ & S4 & _); [lia|totals|].
  destruct (tracks_view _ _ _ _ "s" T4) as (_ & -> & _). by totals.
Qed.

Lemma c3_passes l : lc_rep l spec_init -> c3_settle_by_id_is_idempotent l = Ok tt.
Proof.
  intros Hrep. unfold c3_settle_by_id_is_idempotent.
  destruct (fresh_capped l "s" 1000 (t0 + seconds 600) Hrep) as (a0 & T0 & L0 & S0 & H0' & E0 & _); [lia|].
  destruct (must_admit_small _ _ _ _ "s" 100 t0 T0) as (r1 & l1 & a1 & -> & T1 & A1 & Hr1);
    [small|congruence|rewrite (fits_capped _ _ 1000) by done; by totals|]. simpl.
  pose proof (admitted_lookup _ _ _ A1) as Hid. totals.
  destruct (settle_small _ _ _ _ _ 40 _ T1 Hid) as (a2 & T2 & _ & S2 & H2 & L2); [lia|totals|].
  assert (Hgone : sp_leases a2 !! rsv_id r1 = None) by (rewrite L2; apply lookup_delete_eq).
  assert (Hok : op_ok lc_cfg a2 (OSettle (rsv_id r1) 40) = true).
  { simpl. rewrite Hgone, (proj2 (Z.leb_le _ _) (tracks_id _ _ _ _ _ _ T1 Hid)). done. }
  assert (Hnop : spec_settle a2 (rsv_id r1) 40 = a2) by (unfold spec_settle; by rewrite Hgone).
  pose proof (tracks_settle _ _ _ _ _ _ T2 Hok) as T3. rewrite Hnop in T3.
  pose proof (tracks_settle _ _ _ _ _ _ T3 Hok) as T4. rewrite Hnop in T4.
  assert (Hsp2 : sp_spend a2 "s" = 40) by (totals).
  destruct (tracks_view _ _ _ _ "s" T2) as (_ & -> & _). rewrite Hsp2. simpl.
  erewrite check_spent by done. simpl. by erewrite check_reserved by (done || totals).
Qed.

Lemma tracks_reclaim l a n hz now :
  tracks l a n hz -> instant_ok now = true ->
  exists l', reclaim_expired l now =
      (Z.of_nat (size (filter (fun p => expired lc_cfg now p.2 = true) (sp_leases a))), l') /\
    tracks l' (set_leases (live_leases lc_cfg now (sp_leases a)) a) n hz.
Proof.
  intros [Hrep Hwf Hl Hi] Hnow. destruct (lc_reclaim l a now Hrep Hwf Hnow) as [Hn Hr].
  destruct (reclaim_expired l now) as [k l']. simpl in *. exists l'. split; [by rewrite Hn|].
  split; [done|by apply set_leases_filter_wf| |done].
  intros i r [Hx _]%map_lookup_filter_Some. eauto.
Qed.

Lemma c2_passes l : lc_rep l spec_init -> c2_ttl_leases_are_reclaimed_on_a_timer l = Ok tt.
Proof.
  intros Hrep. unfold c2_ttl_leases_are_reclaimed_on_a_timer.
  destruct (fresh_capped l "s" 100 (t0 + seconds 600) Hrep) as (a0 & T0 & L0 & S0 & H0' & E0 & _); [lia|].
  destruct (must_admit_small _ _ _ _ "s" 100 t0 T0) as (r1 & l1 & a1 & -> & T1 & A1 & Hr1);
    [small|congruence|rewrite (fits_capped _ _ 100) by done; by totals|]. simpl.
  totals. erewrite check_reserved by (done || totals). simpl. rewrite E0, insert_empty in Hls.
  assert (He1 : expired lc_cfg (t0 + seconds 60) r1 = false).
  { apply Z.leb_gt, cs_second; [done|]. rewrite Hre. small. }
  assert (He2 : expired lc_cfg (t0 + TTL + seconds 1) r1 = true).
  { apply Z.leb_le, cs_mono; [done|]. rewrite Hre. small. }
  destruct (tracks_reclaim _ _ _ _ (t0 + seconds 60) T1) as (l2 & -> & T2); [done|].
  rewrite Hls, map_filter_singleton_False, map_size_empty by (simpl; congruence). simpl.
  unfold live_leases in T2. rewrite Hls, map_filter_singleton_True in T2 by done.
  destruct (tracks_reclaim _ _ _ _ (t0 + TTL + seconds 1) T2) as (l3 & -> & T3); [done|].
  simpl in T3 |- *. rewrite map_filter_singleton_True, map_size_singleton by done. simpl.
  unfold live_leases in T3. rewrite map_filter_singleton_False in T3 by (simpl; congruence).
  erewrite check_reserved by (done || apply msum_empty). simpl.
  set (a3 := set_leases ∅ _) in T3.
  assert (T4 : tracks l3 a3 1 (t0 + TTL + seconds 600)) by (destruct T3; by split).
  destruct (must_admit_small _ _ _ _ "s" 100 (t0 + TTL + seconds 2) T4)
    as (r4 & l4 & a4 & -> & _); [small| | |done].
  - simpl. rewrite Hl. congruence.
  - rewrite (fits_capped _ _ 100) by (simpl; congruence).
    assert (sp_held a3 "s" = 0) as -> by apply msum_empty.
    assert (sp_spend a3 "s" = 0) as -> by (change (sp_spend a1 "s" = 0); totals). done.
Qed.

(** The state of the C4 loop: every lease is a 5-token lease of the scope. *)
Record c4_inv (l : L) (a : Spec) (adm sp : Z) : Prop := {
  c4_tracks : tracks l a 10 (t0 + seconds 600);
  c4_issued : sp_issued a <= adm;
  c4_limit : sp_limit a !! "s" = Some 50;
  c4_spend : sp_spend a "s" = sp;
  c4_leases : forall i r, sp_leases a !! i = Some r -> rsv_scope r = "s" /\ rsv_ceiling r = 5 }.

Lemma wadd_small l a n hz s :
  tracks l a n hz -> sp_spend a s + sp_held a s <= 50 ->
  forall label, check (wadd (spent l s) (reserved l s) <=? 50) label = Ok tt.
Proof.
  intros Htr Hb label. destruct (tracks_view _ _ _ _ s Htr) as (_ & -> & ->).
  pose proof (wf_spend _ _ (tr_wf _ _ _ _ Htr) s). pose proof (wf_held _ _ (tr_wf _ _ _ _ Htr) s).
  rewrite wadd_exact by ulia. unfold check. by rewrite (proj2 (Z.leb_le _ _) Hb).
Qed.

Lemma c4_loop_ok n : forall i l a adm ids,
  c4_inv l a adm 0 -> sp_held a "s" = 5 * adm -> 0 <= i -> i + Z.of_nat n <= 200 -> 0 <= adm <= 10 ->
  Forall (fun id => id <= u64_max) ids ->
  exists l' a' ids', c4_loop n i l adm ids = Ok (l', Z.min 10 (adm + Z.of_nat n), ids') /\
    c4_inv l' a' (Z.min 10 (adm + Z.of_nat n)) 0 /\ sp_held a' "s" <= 50 /\
    Forall (fun id => id <= u64_max) ids'.
Proof.
  induction n as [|n IH]; intros i l a adm ids Hinv Hh Hi Hn Ha Hids.
  { exists l, a, ids. replace (Z.min 10 (adm + Z.of_nat 0)) with adm by lia. split; [done|].
    split; [done|]. split; [lia|done]. }
  pose proof Hinv as [Htr Hiss Hl Hsp Hls].
  assert (Htr' : tracks l a adm (t0 + seconds 600)) by (destruct Htr; by split).
  pose proof (reserve_small _ _ _ _ "s" 5 (t0 + seconds i) Htr') as Hr.
  rewrite (fits_capped _ _ 50), Hsp, Hh in Hr by done.
  destruct (_ <=? 50) eqn:Hfit.
  - destruct Hr as (r & l1 & a1 & Hr & T1 & A1 & (Hrs & Hrc & Hre)); [small|congruence|].
    assert (H10 : adm + 1 <= 10) by lia. simpl. rewrite Hr. simpl.
    assert (Hh1 : sp_held a1 "s" = 5 * (adm + 1)).
    { rewrite (adm_held _ _ _ A1), Hh. unfold held_in. rewrite decide_True by done. lia. }
    assert (Hinv1 : c4_inv l1 a1 (adm + 1) 0).
    { split; [destruct T1; split; try done; lia|apply T1|..].
      - by rewrite (adm_limit _ _ _ A1).
      - by rewrite (adm_spend _ _ _ A1).
      - intros j x. rewrite (adm_leases _ _ _ A1).
        intros [[_ <-]|[_ Hx]]%lookup_insert_Some; eauto. }
    erewrite wadd_small by (apply T1 || (rewrite (c4_spend _ _ _ _ Hinv1); lia)). simpl.
    destruct (IH (i + 1) l1 a1 (adm + 1) (ids ++ [rsv_id r])) as (l' & a' & ids' & -> & Hrest);
      [done|done|lia|lia|lia| |].
    { apply Forall_app. split; [done|]. constructor; [|done].
      exact (tracks_id _ _ _ _ _ _ T1 (admitted_lookup _ _ _ A1)). }
    exists l', a', ids'.
    by replace (Z.min 10 (adm + 1 + Z.of_nat n)) with (Z.min 10 (adm + Z.of_nat (S n))) in * by lia.
  - destruct Hr as (d & l1 & Hr & T1); [small|congruence|]. simpl. rewrite Hr. simpl.
    assert (adm = 10) by lia.
    erewrite wadd_small by (apply T1 || lia). simpl.
    destruct (IH (i + 1) l1 a adm ids) as (l' & a' & ids' & -> & Hrest); [|done|lia|lia|lia|done|].
    { split; try done. destruct T1; split; try done; lia. }
    exists l', a', ids'.
    by replace (Z.min 10 (adm + Z.of_nat (S n))) with (Z.min 10 (adm + Z.of_nat n)) by lia.
Qed.

Lemma c4_settle_loop ids : forall l a sp,
  c4_inv l a 10 sp -> 0 <= sp -> sp + sp_held a "s" <= 50 -> Forall (fun id => id <= u64_max) ids ->
  exists a' sp', c4_inv (foldl (fun l id => settle l id 1) l ids) a' 10 sp' /\
    sp' + sp_held a' "s" <= 50.
Proof.
  induction ids as [|id ids IH]; intros l a sp Hinv Hsp Hb Hids; simpl; [by eexists _, _|].
  apply Forall_cons in Hids as [Hid Hids].
  pose proof Hinv as [Htr Hiss Hl Hs' Hls].
  pose proof (wf_held _ _ (tr_wf _ _ _ _ Htr) "s").
  destruct (sp_leases a !! id) as [r|] eqn:Hr.
  - destruct (Hls _ _ Hr) as [Hrs Hrc].
    destruct (settle_small _ _ _ _ _ 1 _ Htr Hr) as (a1 & T1 & L1 & S1 & H1' & D1);
      [lia|rewrite Hrs; lia|].
    specialize (S1 "s"). specialize (H1' "s"). unfold held_in in H1'.
    rewrite decide_True in S1, H1' by done.
    apply (IH _ a1 (sp + 1)); [|lia|lia|done]. split; [done| |congruence|lia|].
    + apply T1.
    + intros i x. rewrite D1. intros [_ Hx]%lookup_delete_Some. eauto.
  - assert (Hok : op_ok lc_cfg a (OSettle id 1) = true).
    { simpl. by rewrite Hr, (proj2 (Z.leb_le _ _) Hid). }
    pose proof (tracks_settle _ _ _ _ _ _ Htr Hok) as T1. unfold spec_settle in T1.
    rewrite Hr in T1. apply (IH _ a sp); [by split|lia|lia|done].
Qed.

Lemma c4_passes l : lc_rep l spec_init -> c4_a_hard_cap_never_admits_over_the_limit l = Ok tt.
Proof.
  intros Hrep. unfold c4_a_hard_cap_never_admits_over_the_limit.
  destruct (fresh_capped l "s" 50 (t0 + seconds 600) Hrep) as (a0 & T0 & L0 & S0 & H0' & E0 & _); [lia|].
  destruct (c4_loop_ok 200 0 (set_limit l "s" (Some 50)) a0 0 []) as (l1 & a1 & ids & -> & Hinv & Hh & Hids);
    [|by rewrite H0'|lia|lia|lia|done|].
  { split; [destruct T0; split; try done; lia|apply T0|done|done|]. intros i r. by rewrite E0. }
  change (Z.min 10 (0 + Z.of_nat 200)) with 10 in *. simpl.
  destruct (c4_settle_loop ids l1 a1 0) as (a2 & sp & Hinv2 & Hb); [done|lia|lia|done|].
  erewrite wadd_small; [done|apply Hinv2|]. rewrite (c4_spend _ _ _ _ Hinv2). done.
Qed.

Lemma c5_limits_loop js : forall l a hz,
  tracks l a 0 hz -> (forall s, sp_spend a s = 0) -> (forall s, sp_held a s = 0) ->
  (forall s k, sp_limit a !! s = Some k -> k = 1000) ->
  exists a', tracks (foldl (fun l i => set_limit l (scope_name i) (Some 1000)) l js) a' 0 hz /\
    (forall s, sp_spend a' s = 0) /\ (forall s, sp_held a' s = 0) /\
    (forall s k, sp_limit a' !! s = Some k -> k = 1000).
Proof.
  induction js as [|i js IH]; intros l a hz Htr Hsp Hh Hl; simpl; [by eexists|].
  apply (IH _ (spec_set_limit a (scope_name i) (Some 1000))); [|done|done|].
  - apply tracks_set_limit; [done|]. destruct Hs. simpl. lia.
  - intros s k. simpl. rewrite lookup_partial_alter. case_decide; [congruence|apply Hl].
Qed.

Lemma c5_passes l : lc_rep l spec_init -> c5_hot_path_is_a_point_write l = Ok tt.
Proof.
  intros Hrep. unfold c5_hot_path_is_a_point_write.
  pose proof (tracks_fresh l (t0 + seconds 600) Hrep) as T0.
  destruct (c5_limits_loop (seq 0 200) _ _ _ T0) as (a1 & T1 & S1 & H1' & L1);
    [done|apply sp_held_init|done|].
  destruct (must_admit_small _ _ _ _ "scope_7" 10 t0 T1) as (r & l2 & a2 & -> & T2 & A2 & Hr).
  - small.
  - rewrite S1, H1'. lia.
  - unfold fits. destruct (sp_limit a1 !! "scope_7") as [k|] eqn:Hk; [|done].
    apply L1 in Hk as ->. by rewrite S1, H1'.
  - cbn [mbind result_bind]. pose proof (admitted_lookup _ _ _ A2) as Hid. totals.
    erewrite check_reserved by (done || totals). simpl.
    erewrite check_reserved by (done || totals). simpl.
    destruct (settle_small _ _ _ _ _ 3 _ T2 Hid) as (a3 & T3 & _ & S3 & _); [lia|totals|].
    erewrite check_spent; [done|done|]. totals.
Qed.

Lemma c6_loop_ok n : forall i l a s k,
  tracks l a k (t0 + seconds 600) -> sp_limit a !! s = None -> sp_spend a s = 0 ->
  sp_held a s = 1000000 * i -> 0 <= i -> i + Z.of_nat n <= 20 -> 0 <= k -> k + Z.of_nat n <= 100 ->
  exists l' a', c6_loop n i s l = Ok l' /\ tracks l' a' (k + Z.of_nat n) (t0 + seconds 600) /\
    sp_limit a' = sp_limit a /\ (forall s, sp_spend a' s = sp_spend a s) /\
    (forall s', s' <> s -> sp_held a' s' = sp_held a s').
Proof.
  induction n as [|n IH]; intros i l a s k Htr Hl Hsp Hh Hi Hn Hk Hkn.
  { exists l, a. by rewrite Z.add_0_r. }
  destruct (must_admit_small _ _ _ _ s 1000000 (t0 + seconds i) Htr)
    as (r & l1 & a1 & Hadm & T1 & [A1 A2 A3 _ _] & (Hrs & Hrc & _));
    [small|intros; rewrite Hsp, Hh; lia|unfold fits; by rewrite Hl|].
  simpl. rewrite Hadm. simpl.
  destruct (IH (i + 1) l1 a1 s (k + 1)) as (l' & a' & -> & T' & L' & S' & H'); try lia; try done.
  - by rewrite A1.
  - by rewrite A2.
  - rewrite A3. unfold held_in. rewrite decide_True by done. lia.
  - exists l', a'. split; [done|]. split; [by replace (k + Z.of_nat (S n)) with (k + 1 + Z.of_nat n) by lia|].
    split; [congruence|]. split; [intros; by rewrite S', A2|].
    intros s' Hne. rewrite H', A3 by done. unfold held_in. rewrite decide_False by congruence. lia.
Qed.

Lemma c6_passes l : lc_rep l spec_init -> c6_uncapped_scopes_always_admit l = Ok tt.
Proof.
  intros Hrep. unfold c6_uncapped_scopes_always_admit.
  destruct (fresh_capped l "capped" 10 (t0 + seconds 600) Hrep)
    as (a0 & T0 & L0 & S0 & H0' & _ & N0); [lia|].
  apply (tracks_set_limit _ _ _ _ "capped" None) in T0; [|done].
  set (a1 := spec_set_limit a0 "capped" None) in *.
  assert (HL : forall s, s = "never_capped" \/ s = "capped" -> sp_limit a1 !! s = None).
  { intros s [->| ->]; simpl; [|apply lookup_partial_alter_eq].
    rewrite lookup_partial_alter_ne by done. by apply N0. }
  destruct (c6_loop_ok 20 0 _ a1 "never_capped" 0 T0) as (l2 & a2 & -> & T2 & L2 & S2 & H2);
    [by apply HL; left|apply S0|apply H0'|lia..|].
  cbn [mbind result_bind].
  destruct (tracks_view _ _ _ _ "never_capped" T2) as (-> & _ & _).
  rewrite L2, HL, bool_decide_true by (done || by left). cbn [check mbind result_bind].
  destruct (c6_loop_ok 20 0 _ a2 "capped" 20 T2) as (l3 & a3 & -> & T3 & L3 & _ & _); try lia.
  - rewrite L2. apply HL. by right.
  - rewrite S2. apply S0.
  - rewrite H2 by done. apply H0'.
  - cbn [mbind result_bind]. destruct (tracks_view _ _ _ _ "capped" T3) as (-> & _ & _). by rewrite L3, L2, HL by by right.
Qed.
End Lawful.

(** C2: Every ledger that satisfies the contract of the trait passes the
    conformance suite TD-0007 C1-C6, whatever its representation, provided
    its clock resolves a second and its integers hold the suite's totals.
    The suite and the proof use the trait only. *)
Theorem lawful_ledgers_conform {L} `{LedgerContract L} (l : L) :
  cfg_suite lc_cfg -> lc_rep l spec_init -> assert_enforcement_conformance l = Ok tt.
Proof.
  intros Hs Hrep. unfold assert_enforcement_conformance.
  rewrite c1_passes by done. simpl. rewrite c2_passes by done. simpl.
  rewrite c3_passes by done. simpl. rewrite c4_passes by done. simpl.
  rewrite c5_passes by done. simpl. by rewrite c6_passes.
Qed.

Lemma im_cfg_suite : cfg_suite im_cfg.
Proof. split; simpl; unfold seconds, nanos; intros; ulia. Qed.

Lemma lawful_ledgers_conform_witness : assert_enforcement_conformance im_new = Ok tt.
Proof.
  exact (@lawful_ledgers_conform _ _ _ im_contract im_new im_cfg_suite im_new_rep).
Defined.

(** Two leases in flight under one cap both settle above their ceilings:
    the overshoot is that of both calls. *)
Definition overshoot_ops : list op :=
  [OReserve "a" 50 0 TTL; OReserve "a" 50 0 TTL; OSettle 0 80; OSettle 1 80].

Lemma cap_bounds_usage_witness :
  exists xs l', run im_new (OSetLimit "a" (Some 100) :: overshoot_ops) = Some (xs, l') /\
    limit l' "a" = Some 100 /\ spent l' "a" + reserved l' "a" <= 160.
Proof.
  destruct (@cap_bounds_usage _ _ _ im_contract im_new "a" 100 overshoot_ops im_new_rep)
    as (xs & l' & Hrun & Hlim & Hu); [by vm_compute..|].
  exists xs, l'. split; [done|]. split; [done|]. etransitivity; [exact Hu|]. by vm_compute.
Defined.

(** Overshoots add up.  The documentation of [settle] bounds the overshoot by one call's; two
    leases in flight exceed the cap by both calls' overshoots. *)
Theorem overshoot_is_not_one_call :
  exists xs l', run im_new (OSetLimit "a" (Some 100) :: overshoot_ops) = Some (xs, l') /\
    spent l' "a" = 100 + 2 * (80 - 50).
Proof. eexists _, _. split; by vm_compute. Qed.
