(* ===== verification/Budget.v ===== *)
(** [crates/sandhi-core/src/budget.rs]: windows, policies, budgets and the
    delta-counter [BudgetLedger].  The wall clock read by [now_utc] is an
    argument of the operations that read it. *)

From S2P Require Import Prelude.

(** ** Windows and policies *)

Inductive Window := Daily | Monthly | Total.
Inductive Policy := Block | Warn.

#[export] Instance Window_eq_dec : EqDecision Window.
Proof. solve_decision. Defined.
#[export] Instance Policy_eq_dec : EqDecision Policy.
Proof. solve_decision. Defined.

(** [str::to_ascii_lowercase]. *)
Definition ascii_lower (c : ascii) : ascii :=
  let n := N_of_ascii c in
  if ((65 <=? n) && (n <=? 90))%N then ascii_of_N (n + 32) else c.
Fixpoint to_ascii_lowercase (s : string) : string :=
  match s with
  | EmptyString => EmptyString
  | String c s => String (ascii_lower c) (to_ascii_lowercase s)
  end.

Definition Window_default : Window := Total.
Definition Window_parse (s : string) : Window :=
  let s := to_ascii_lowercase s in
  if (s =? "daily")%string then Daily
  else if (s =? "monthly")%string then Monthly
  else Total.
Definition Window_duration (w : Window) : option Z :=
  match w with
  | Daily => Some (seconds 86400)
  | Monthly => Some (seconds (86400 * 30))
  | Total => None
  end.
Definition Window_as_str (w : Window) : string :=
  match w with Daily => "daily" | Monthly => "monthly" | Total => "total" end.

Definition Policy_default : Policy := Block.
Definition Policy_parse (s : string) : Policy :=
  if (to_ascii_lowercase s =? "warn")%string then Warn else Block.
Definition Policy_as_str (p : Policy) : string :=
  match p with Block => "block" | Warn => "warn" end.

Lemma Window_parse_as_str w : Window_parse (Window_as_str w) = w.
Proof. by destruct w. Qed.

Lemma Policy_parse_as_str p : Policy_parse (Policy_as_str p) = p.
Proof. by destruct p. Qed.

(** ** Budgets *)

Record Budget := MkBudget { bud_token_limit : option Z; bud_window : Window; bud_policy : Policy }.

Definition Budget_tokens (lim : Z) : Budget := MkBudget (Some lim) Total Block.
Definition Budget_with (lim : Z) (w : Window) (p : Policy) : Budget := MkBudget (Some lim) w p.

Record BudgetExceeded := MkExceeded {
  ex_scope : string; ex_limit : Z; ex_spent : Z; ex_requested : Z }.

Record BudgetLedger := MkBudgetLedger {
  bl_limits : gmap string Budget;
  bl_spent : gmap string Z;
  bl_reserved : gmap string Z;
  bl_started : gmap string Z }.

Definition bl_new : BudgetLedger := MkBudgetLedger ∅ ∅ ∅ ∅.

Definition bl_set_limit (l : BudgetLedger) (scope : string) (b : Budget) (now : Z) : BudgetLedger :=
  MkBudgetLedger (<[scope := b]> (bl_limits l)) (bl_spent l) (bl_reserved l)
    (<[scope := now]> (bl_started l)).

Definition limit_of (l : BudgetLedger) (scope : string) : option Z :=
  b ← bl_limits l !! scope; bud_token_limit b.
Definition window_of (l : BudgetLedger) (scope : string) : Window :=
  default Window_default (bud_window <$> bl_limits l !! scope).
Definition policy_of (l : BudgetLedger) (scope : string) : Policy :=
  default Policy_default (bud_policy <$> bl_limits l !! scope).

(** Start a new window when the scope's has elapsed. *)
Definition refresh (l : BudgetLedger) (scope : string) (now : Z) : BudgetLedger :=
  match bl_limits l !! scope with
  | None => l
  | Some b =>
      match Window_duration (bud_window b) with
      | None => l
      | Some duration =>
          let started := default now (bl_started l !! scope) in
          if duration <=? now - started then
            MkBudgetLedger (bl_limits l) (<[scope := 0]> (bl_spent l)) (bl_reserved l)
              (<[scope := now]> (bl_started l))
          else
            MkBudgetLedger (bl_limits l) (bl_spent l) (bl_reserved l)
              (<[scope := started]> (bl_started l))
      end
  end.

Definition bl_spent_of (l : BudgetLedger) (scope : string) (now : Z) : Z * BudgetLedger :=
  let l := refresh l scope now in (count_at (bl_spent l) scope, l).
Definition bl_reserved_of (l : BudgetLedger) (scope : string) : Z := count_at (bl_reserved l) scope.

Definition bl_check (l : BudgetLedger) (scope : string) (add now : Z)
    : result BudgetExceeded unit * BudgetLedger :=
  let l := refresh l scope now in
  match bl_limits l !! scope with
  | None => (Ok tt, l)
  | Some budget =>
      match bud_token_limit budget with
      | None => (Ok tt, l)
      | Some lim =>
          let sp := count_at (bl_spent l) scope in
          let re := count_at (bl_reserved l) scope in
          let projected := sat_add (sat_add sp re) add in
          if (lim <? projected) && bool_decide (bud_policy budget = Block)
          then (Err (MkExceeded scope lim sp add), l)
          else (Ok tt, l)
      end
  end.

Definition add_spent (l : BudgetLedger) (scope : string) (tokens : Z) : BudgetLedger :=
  MkBudgetLedger (bl_limits l)
    (<[scope := wadd (count_at (bl_spent l) scope) tokens]> (bl_spent l))
    (bl_reserved l) (bl_started l).
Definition sub_held (l : BudgetLedger) (scope : string) (tokens : Z) : BudgetLedger :=
  MkBudgetLedger (bl_limits l) (bl_spent l)
    (<[scope := sat_sub (count_at (bl_reserved l) scope) tokens]> (bl_reserved l)) (bl_started l).

Definition bl_reserve (l : BudgetLedger) (scope : string) (tokens now : Z)
    : result BudgetExceeded unit * BudgetLedger :=
  let '(r, l) := bl_check l scope tokens now in
  match r with
  | Err e => (Err e, l)
  | Ok _ =>
      (Ok tt, MkBudgetLedger (bl_limits l) (bl_spent l)
        (<[scope := wadd (count_at (bl_reserved l) scope) tokens]> (bl_reserved l)) (bl_started l))
  end.

Definition bl_reconcile (l : BudgetLedger) (scope : string) (res actual now : Z) : BudgetLedger :=
  add_spent (sub_held (refresh l scope now) scope res) scope actual.

Definition bl_release (l : BudgetLedger) (scope : string) (res : Z) : BudgetLedger :=
  sub_held l scope res.

Definition bl_record (l : BudgetLedger) (scope : string) (tokens now : Z) : BudgetLedger :=
  add_spent (refresh l scope now) scope tokens.

(** ** Runs *)

Inductive bop :=
| BSetLimit (scope : string) (b : Budget) (now : Z)
| BSpent (scope : string) (now : Z)
| BCheck (scope : string) (add now : Z)
| BReserve (scope : string) (tokens now : Z)
| BReconcile (scope : string) (res actual now : Z)
| BRelease (scope : string) (res : Z)
| BRecord (scope : string) (tokens now : Z).

Definition bstep (l : BudgetLedger) (o : bop) : BudgetLedger :=
  match o with
  | BSetLimit s b now => bl_set_limit l s b now
  | BSpent s now => (bl_spent_of l s now).2
  | BCheck s add now => (bl_check l s add now).2
  | BReserve s n now => (bl_reserve l s n now).2
  | BReconcile s r a now => bl_reconcile l s r a now
  | BRelease s r => bl_release l s r
  | BRecord s n now => bl_record l s n now
  end.

(** The tokens of an operation are counts, and the budget of the scope is
    left alone.  Nothing else is asked of the callers: usage may exceed its
    reservation, be recorded without one, or give back more than is held. *)
Definition counts_only (scope : string) (o : bop) : bool :=
  match o with
  | BSetLimit s _ _ => negb (bool_decide (s = scope))
  | BSpent _ _ | BCheck _ _ _ => true
  | BReserve _ n _ => 0 <=? n
  | BReconcile _ r a _ => (0 <=? r) && (0 <=? a)
  | BRelease _ r => 0 <=? r
  | BRecord _ n _ => 0 <=? n
  end.

(** The usage an operation enters for the scope. *)
Definition entered (scope : string) (o : bop) : Z :=
  match o with
  | BReconcile s _ a _ => if bool_decide (s = scope) then a else 0
  | BRecord s n _ => if bool_decide (s = scope) then n else 0
  | _ => 0
  end.
Definition all_entered (scope : string) (ops : list bop) : Z := foldr (fun o n => entered scope o + n) 0 ops.

(** The clock an operation on the scope reads. *)
Definition clock_of (scope : string) (o : bop) : option Z :=
  match o with
  | BSpent s now | BCheck s _ now | BReserve s _ now | BReconcile s _ _ now | BRecord s _ now =>
      if bool_decide (s = scope) then Some now else None
  | BSetLimit _ _ _ | BRelease _ _ => None
  end.
(** Whether the window [w] of the scope is over at [now]. *)
Definition window_over (w : Window) (l : BudgetLedger) (scope : string) (now : Z) : bool :=
  match Window_duration w with
  | None => false
  | Some duration => duration <=? now - default now (bl_started l !! scope)
  end.

(** The overshoot of the scope in its current window: what calls used beyond
    the part of their reservation that was held, and what was recorded
    without a reservation. *)
Definition overshoot_step (scope : string) (w : Window) (l : BudgetLedger) (x : Z) (o : bop) : Z :=
  let x := match clock_of scope o with Some now => if window_over w l scope now then 0 else x | None => x end in
  match o with
  | BReconcile s r a _ => if bool_decide (s = scope) then x + Z.max 0 (a - Z.min r (count_at (bl_reserved l) scope)) else x
  | BRecord s n _ => if bool_decide (s = scope) then x + n else x
  | _ => x
  end.
Fixpoint overshoot (scope : string) (w : Window) (l : BudgetLedger) (x : Z) (ops : list bop) : Z :=
  match ops with
  | [] => x
  | o :: ops => overshoot scope w (bstep l o) (overshoot_step scope w l x o) ops
  end.

(** What every operation preserves about a scope: [x] is its overshoot in the
    current window, [n] the usage entered so far. *)
Record within (scope : string) (lim : Z) (w : Window) (x n : Z) (l : BudgetLedger) : Prop := {
  wi_budget : bl_limits l !! scope = Some (MkBudget (Some lim) w Block);
  wi_spent : 0 <= count_at (bl_spent l) scope;
  wi_reserved : 0 <= count_at (bl_reserved l) scope <= lim;
  wi_over : 0 <= x;
  wi_sum : count_at (bl_spent l) scope + count_at (bl_reserved l) scope <= lim + x;
  wi_entered : count_at (bl_spent l) scope <= n }.

Section Within.
Context (scope : string) (lim : Z) (w : Window) (Hlim : 0 <= lim < u64_max).

Lemma refresh_other l s now :
  s <> scope ->
  bl_limits (refresh l s now) = bl_limits l /\
  count_at (bl_spent (refresh l s now)) scope = count_at (bl_spent l) scope /\
  count_at (bl_reserved (refresh l s now)) scope = count_at (bl_reserved l) scope.
Proof.
  intros Hne. unfold refresh. destruct (bl_limits l !! s) as [b|]; [|done].
  destruct (Window_duration _); [|done]. destruct (_ <=? _); simpl; [|done].
  by rewrite count_at_insert, decide_False.
Qed.

Lemma refresh_reserved l s now : bl_reserved (refresh l s now) = bl_reserved l.
Proof. unfold refresh. by repeat case_match. Qed.

(** A refresh ends the overshoot with the window, and never touches the
    in-flight total. *)
Lemma refresh_within x n l now : within scope lim w x n l ->
  within scope lim w (if window_over w l scope now then 0 else x) n (refresh l scope now).
Proof.
  intros [Hb Hs Hr Hx Hsum Hn]. unfold refresh, window_over. rewrite Hb. cbn [bud_window].
  destruct (Window_duration w) as [d|]; [|by split]. destruct (_ <=? _); [|by split].
  split; simpl; try done; rewrite ?count_at_insert, ?decide_True by done; lia.
Qed.

(** Operations on other scopes leave this one alone. *)
Lemma within_ext x n l l' :
  within scope lim w x n l -> bl_limits l' !! scope = bl_limits l !! scope ->
  count_at (bl_spent l') scope = count_at (bl_spent l) scope ->
  count_at (bl_reserved l') scope = count_at (bl_reserved l) scope -> within scope lim w x n l'.
Proof. intros [] E1 E2 E3. split; rewrite ?E1, ?E2, ?E3; done. Qed.

Lemma refresh_within_other x n l s now : s <> scope -> within scope lim w x n l -> within scope lim w x n (refresh l s now).
Proof.
  intros Hne Hw. destruct (refresh_other l s now Hne) as (E1 & E2 & E3). eapply within_ext; eauto. by rewrite E1.
Qed.

Lemma bl_check_state l s add now : (bl_check l s add now).2 = refresh l s now.
Proof.
  unfold bl_check. destruct (bl_limits _ !! s) as [b|]; [|done].
  destruct (bud_token_limit b); [|done]. by destruct (_ && _).
Qed.

(** A reservation is accepted only if it fits beside what is spent and held,
    overshoot included. *)
Lemma bl_reserve_within x n l tokens now :
  within scope lim w x n l -> 0 <= tokens ->
  let x := if window_over w l scope now then 0 else x in
  let '(r, l') := bl_reserve l scope tokens now in
  within scope lim w x n l'
  /\ (r = Ok tt -> count_at (bl_spent l') scope + count_at (bl_reserved l') scope <= lim).
Proof.
  intros Hw Hn. cbv zeta. pose proof (refresh_within x n l now Hw) as [Hb Hs Hr Hx Hsum He].
  unfold bl_reserve, bl_check. rewrite Hb. simpl. rewrite sat_sum_test by lia.
  destruct (_ <=? lim) eqn:E; simpl; [|by split].
  split; [split|]; simpl; try done; rewrite ?count_at_insert, ?decide_True by done;
    rewrite ?wadd_exact by ulia; lia.
Qed.

Lemma add_spent_within x n l tokens over : within scope lim w x n l -> 0 <= tokens -> n + tokens < u64_max ->
  0 <= over -> count_at (bl_spent l) scope + count_at (bl_reserved l) scope + tokens <= lim + over ->
  within scope lim w over (n + tokens) (add_spent l scope tokens).
Proof.
  intros [Hb Hs Hr Hx Hsum He] Ht Hmax Ho Hle.
  split; simpl; try done; rewrite ?count_at_insert, ?decide_True by done; rewrite ?wadd_exact by ulia; lia.
Qed.
Lemma sub_held_within x n l r : within scope lim w x n l -> 0 <= r -> within scope lim w x n (sub_held l scope r).
Proof.
  intros [] Hr. split; simpl; try done; rewrite ?count_at_insert, ?decide_True by done; ulia.
Qed.

Lemma bstep_within x n l o :
  within scope lim w x n l -> counts_only scope o = true -> n + entered scope o < u64_max ->
  within scope lim w (overshoot_step scope w l x o) (n + entered scope o) (bstep l o).
Proof.
  intros Hw Hd Hmax. destruct o as [s b now|s now|s add now|s k now|s r a now|s r|s k now];
    cbn [counts_only entered overshoot_step clock_of bstep] in *; rewrite ?Z.add_0_r in *; bools.
  - apply bool_decide_eq_false in Hd. eapply within_ext; eauto. by apply lookup_insert_ne.
  - case_bool_decide; subst; [by apply refresh_within|by apply refresh_within_other].
  - rewrite bl_check_state. case_bool_decide; subst; [by apply refresh_within|by apply refresh_within_other].
  - case_bool_decide as Hs.
    + subst. pose proof (bl_reserve_within x n l k now Hw ltac:(lia)) as H. cbv zeta in H.
      destruct (bl_reserve l scope k now). exact (proj1 H).
    + pose proof (bl_check_state l s k now) as E. unfold bl_reserve.
      destruct (bl_check l s k now) as [[u|e] l1]; simpl in *; subst; [|by apply refresh_within_other].
      eapply within_ext; [by apply (refresh_within_other x n l s now)|done|done|].
      simpl. by rewrite count_at_insert, decide_False.
  - unfold bl_reconcile. case_bool_decide as Hs.
    + subst. pose proof (refresh_within x n l now Hw) as Hf. pose proof (sub_held_within _ _ _ r Hf ltac:(lia)) as Hh.
      eapply add_spent_within; [exact Hh|lia|lia|destruct Hf; lia|].
      destruct Hf as [_ _ Hr Hx Hsum _]. simpl. rewrite count_at_insert, decide_True by done.
      rewrite refresh_reserved in *. ulia.
    + rewrite Z.add_0_r. eapply within_ext; [by apply (refresh_within_other x n l s now)|done|..];
        simpl; by rewrite count_at_insert, decide_False.
  - unfold bl_release. destruct (decide (s = scope)) as [->|Hne]; [apply sub_held_within; [done|lia]|].
    eapply within_ext; eauto. simpl. by rewrite count_at_insert, decide_False.
  - unfold bl_record. case_bool_decide as Hs.
    + subst. pose proof (refresh_within x n l now Hw) as Hf. pose proof Hf as [_ _ _ Hx Hsum _].
      eapply add_spent_within; [exact Hf|lia|lia|lia|lia].
    + rewrite Z.add_0_r. eapply within_ext; [by apply (refresh_within_other x n l s now)|done| |done].
      simpl. by rewrite count_at_insert, decide_False.
Qed.

Lemma entered_nonneg o : counts_only scope o = true -> 0 <= entered scope o.
Proof. destruct o; cbn; intros; bools; try case_bool_decide; lia. Qed.
Lemma all_entered_nonneg ops : forallb (counts_only scope) ops = true -> 0 <= all_entered scope ops.
Proof.
  induction ops as [|o ops IH]; simpl; intros H; bools; [done|].
  pose proof (entered_nonneg o ltac:(done)). specialize (IH ltac:(done)). lia.
Qed.
Lemma run_within ops : forall x n l, within scope lim w x n l -> forallb (counts_only scope) ops = true ->
  n + all_entered scope ops < u64_max ->
  within scope lim w (overshoot scope w l x ops) (n + all_entered scope ops) (foldl bstep l ops).
Proof.
  induction ops as [|o ops IH]; intros x n l Hw Hc Hmax; simpl in *; [by rewrite Z.add_0_r|]. bools.
  pose proof (all_entered_nonneg ops ltac:(done)). rewrite Z.add_assoc in *.
  apply IH; [apply bstep_within; [done|done|lia]|done|lia].
Qed.
End Within.

(** ** Properties *)

(** C4: Under the [Block] policy, whatever the callers do, on this scope or on
    others, through window resets at arbitrary clock readings: what a scope
    has spent in its window and holds in flight exceeds its limit by no more
    than its overshoot in that window, that is the usage beyond what its
    calls had reserved and the usage recorded without a reservation; what is
    in flight alone is always within the limit; and a reservation is accepted
    only if everything, overshoot included, stays within the limit.  The
    budget is not set again, and the usage entered does not reach the largest
    64-bit count. *)
Theorem block_budget_not_oversubscribed (scope : string) (lim : Z) (w : Window) (now : Z)
    (ops : list bop) :
  0 <= lim < u64_max ->
  let l0 := bl_set_limit bl_new scope (Budget_with lim w Block) now in
  forallb (counts_only scope) ops = true -> all_entered scope ops < u64_max ->
  let l := foldl bstep l0 ops in
  limit_of l scope = Some lim
  /\ 0 <= count_at (bl_spent l) scope /\ 0 <= bl_reserved_of l scope <= lim
  /\ count_at (bl_spent l) scope + bl_reserved_of l scope <= lim + overshoot scope w l0 0 ops
  /\ forall tokens at_now, 0 <= tokens ->
       let '(r, l') := bl_reserve l scope tokens at_now in
       r = Ok tt -> count_at (bl_spent l') scope + bl_reserved_of l' scope <= lim.
Proof.
  intros Hlim l0 Hd Hmax l.
  assert (Hw : within scope lim w 0 0 l0) by (split; simpl; try done; [apply lookup_insert_eq|change (0 <= 0 <= lim); lia|change (0 + 0 <= lim + 0); lia]).
  pose proof (run_within scope lim w Hlim ops 0 0 l0 Hw Hd Hmax) as Hl. fold l in Hl.
  pose proof Hl as [Hb Hs Hr Hx Hsum _]. unfold limit_of. rewrite Hb. repeat (split; [done|]).
  intros tokens at_now Ht. pose proof (bl_reserve_within scope lim w Hlim _ _ l tokens at_now Hl Ht) as H. cbv zeta in H.
  destruct (bl_reserve l scope tokens at_now). exact (proj2 H).
Qed.

(** A call uses 50 tokens more than it reserved; the next one is refused, and
    the window ends the overshoot. *)
Definition budget_demo : list bop :=
  [BReserve "k" 60 0; BReserve "k" 60 1; BReconcile "k" 60 110 2; BReserve "k" 1 3;
   BRecord "other" 900 4].

Lemma block_budget_not_oversubscribed_witness :
  let l := foldl bstep (bl_set_limit bl_new "k" (Budget_with 100 Daily Block) 0) budget_demo in
  count_at (bl_spent l) "k" + bl_reserved_of l "k" = 110
  /\ overshoot "k" Daily (bl_set_limit bl_new "k" (Budget_with 100 Daily Block) 0) 0 budget_demo = 50
  /\ (bl_reserve l "k" 1 5).1 <> Ok tt
  /\ let l' := (bl_reserve l "k" 70 (seconds 90000)).2 in count_at (bl_spent l') "k" + bl_reserved_of l' "k" <= 100.
Proof.
  split; [by vm_compute|]. split; [by vm_compute|]. split; [by vm_compute|].
  destruct (block_budget_not_oversubscribed "k" 100 Daily 0 budget_demo) as (_ & _ & _ & _ & H);
    [ulia|by vm_compute|by vm_compute|].
  specialize (H 70 (seconds 90000) ltac:(discriminate)). destruct (bl_reserve _ _ _ _) as [r l'] eqn:E.
  apply H. vm_compute in E. by injection E as <- _.
Defined.
