(* ===== verification/Sql.v ===== *)
(** The durable store under the ledger of [crates/sandhi-store]: the tables
    created by [SqliteLedger::init] (ledger.rs) and [evidence::init]
    (ledger/evidence.rs), and a monad for the statements and transactions
    the store runs on them.

    A statement is a function on the tables; it may be refused by SQLite
    at any point, which the fault schedule of the state says.  A
    transaction restores the tables it started from unless it commits, and
    a commit may fail before or after it became durable. *)

From S2P Require Import Prelude.

(** ** Tables *)

Record LimitRow := MkLimitRow { lr_limit_tokens : option Z; lr_window : string; lr_policy : string }.

Record ReservationRow := MkReservationRow {
  rr_scope : string; rr_ceiling : Z; rr_actual : Z; rr_settled : Z;
  rr_settled_at : option Z; rr_expires_at : Z }.

Record DedupRow := MkDedupRow {
  dd_reservation : Z; dd_actual : Z; dd_seen_at : Z; dd_expires_at : Z }.

Record IntentRow := MkIntentRow { ir_reservation_id : Z; ir_created_at : Z }.

Record FenceRow := MkFenceRow { fr_phase : Z; fr_transitioned_at : option Z }.

Record OutboxRow := MkOutboxRow {
  ob_reservation_id : Z; ob_scope : string; ob_charged_tokens : Z; ob_settled_at : Z;
  ob_claim_token : option string; ob_claim_until : option Z; ob_acknowledged_at : option Z }.

Record ObservationRow := MkObservationRow {
  or_version : Z; or_usage_json : string; or_frozen_charge : option Z; or_observed_at : Z }.

(** The tables by primary key, the AUTOINCREMENT counter of
    [budget_reservation], and whether the database is a file. *)
Record Db := MkDb {
  budget_limit : gmap string LimitRow;
  budget_reservation : gmap Z ReservationRow;
  reservation_seq : Z;
  idempotency_dedup : gmap (string * string) DedupRow;
  budget_execution_intent : gmap string IntentRow;
  budget_request_correlation : gmap string string;
  budget_dispatch_fence : gmap string FenceRow;
  budget_settlement_outbox : gmap string OutboxRow;
  budget_terminal_observation : gmap string ObservationRow;
  file_backed : bool }.

Definition db_empty (file : bool) : Db := MkDb ∅ ∅ 0 ∅ ∅ ∅ ∅ ∅ ∅ file.

Definition set_budget_limit (t : gmap string LimitRow) (d : Db) : Db :=
  MkDb t (budget_reservation d) (reservation_seq d) (idempotency_dedup d)
    (budget_execution_intent d) (budget_request_correlation d) (budget_dispatch_fence d)
    (budget_settlement_outbox d) (budget_terminal_observation d) (file_backed d).
Definition set_reservations (t : gmap Z ReservationRow) (d : Db) : Db :=
  MkDb (budget_limit d) t (reservation_seq d) (idempotency_dedup d)
    (budget_execution_intent d) (budget_request_correlation d) (budget_dispatch_fence d)
    (budget_settlement_outbox d) (budget_terminal_observation d) (file_backed d).
Definition set_seq (n : Z) (d : Db) : Db :=
  MkDb (budget_limit d) (budget_reservation d) n (idempotency_dedup d)
    (budget_execution_intent d) (budget_request_correlation d) (budget_dispatch_fence d)
    (budget_settlement_outbox d) (budget_terminal_observation d) (file_backed d).
Definition set_dedup (t : gmap (string * string) DedupRow) (d : Db) : Db :=
  MkDb (budget_limit d) (budget_reservation d) (reservation_seq d) t
    (budget_execution_intent d) (budget_request_correlation d) (budget_dispatch_fence d)
    (budget_settlement_outbox d) (budget_terminal_observation d) (file_backed d).
Definition set_intents (t : gmap string IntentRow) (d : Db) : Db :=
  MkDb (budget_limit d) (budget_reservation d) (reservation_seq d) (idempotency_dedup d)
    t (budget_request_correlation d) (budget_dispatch_fence d)
    (budget_settlement_outbox d) (budget_terminal_observation d) (file_backed d).
Definition set_correlation (t : gmap string string) (d : Db) : Db :=
  MkDb (budget_limit d) (budget_reservation d) (reservation_seq d) (idempotency_dedup d)
    (budget_execution_intent d) t (budget_dispatch_fence d)
    (budget_settlement_outbox d) (budget_terminal_observation d) (file_backed d).
Definition set_fences (t : gmap string FenceRow) (d : Db) : Db :=
  MkDb (budget_limit d) (budget_reservation d) (reservation_seq d) (idempotency_dedup d)
    (budget_execution_intent d) (budget_request_correlation d) t
    (budget_settlement_outbox d) (budget_terminal_observation d) (file_backed d).
Definition set_outbox (t : gmap string OutboxRow) (d : Db) : Db :=
  MkDb (budget_limit d) (budget_reservation d) (reservation_seq d) (idempotency_dedup d)
    (budget_execution_intent d) (budget_request_correlation d) (budget_dispatch_fence d)
    t (budget_terminal_observation d) (file_backed d).
Definition set_observations (t : gmap string ObservationRow) (d : Db) : Db :=
  MkDb (budget_limit d) (budget_reservation d) (reservation_seq d) (idempotency_dedup d)
    (budget_execution_intent d) (budget_request_correlation d) (budget_dispatch_fence d)
    (budget_settlement_outbox d) t (file_backed d).

(** ** Errors and the store monad *)

(** The cases of [rusqlite::Error] the code tells apart, and the panic of
    an instant addition, which unwinds through the transaction. *)
Inductive SqlError :=
| SqliteFailure
| ConstraintViolation
| QueryReturnedNoRows
| ConversionFailure
| Panicked.

#[export] Instance SqlError_eq_dec : EqDecision SqlError.
Proof. solve_decision. Defined.

(** What the next statement meets: nothing, a failure, or (for a commit) a
    failure reported after the transaction became durable. *)
Inductive fault := Fine | Fails | FailsLate.

Record Store := MkStore { st_db : Db; st_faults : list fault }.

Definition M (E A : Type) : Type := Store -> result E A * Store.

#[export] Instance M_ret E : MRet (M E) := fun _ a s => (Ok a, s).
#[export] Instance M_bind E : MBind (M E) := fun _ _ k m s =>
  match m s with
  | (Ok a, s') => k a s'
  | (Err e, s') => (Err e, s')
  end.

Definition throw {E A} (e : E) : M E A := fun s => (Err e, s).
(** A pure fallible step. *)
Definition lift {E A} (r : result E A) : M E A := fun s => (r, s).
Definition bail_if {E} (c : bool) (e : E) : M E unit := if c then throw e else mret tt.

Section Statements.
Context {E : Type} (sql : SqlError -> E).

(** The next entry of the fault schedule; an exhausted one never fails. *)
Definition next_fault (s : Store) : fault * Store :=
  match st_faults s with
  | [] => (Fine, s)
  | f :: fs => (f, MkStore (st_db s) fs)
  end.

(** One statement: a function of the tables, or a refusal that leaves them
    alone. *)
Definition stmt {A} (f : Db -> result SqlError (A * Db)) : M E A := fun s =>
  let '(ft, s) := next_fault s in
  match ft with
  | Fine =>
      match f (st_db s) with
      | Ok (a, d) => (Ok a, MkStore d (st_faults s))
      | Err e => (Err (sql e), s)
      end
  | _ => (Err (sql SqliteFailure), s)
  end.

(** A read-only query. *)
Definition query {A} (f : Db -> result SqlError A) : M E A :=
  stmt (fun d => a ← f d; Ok (a, d)).

(** [BEGIN IMMEDIATE .. COMMIT].  The body says whether it commits; a body
    that fails, or that returns without committing, rolls back.  A
    commit can fail on either side of durability. *)
Definition transaction {A} (body : M E (A * bool)) : M E A := fun s =>
  let '(ft, s0) := next_fault s in
  match ft with
  | Fine =>
      match body s0 with
      | (Err e, s1) => (Err e, MkStore (st_db s0) (st_faults s1))
      | (Ok (a, false), s1) => (Ok a, MkStore (st_db s0) (st_faults s1))
      | (Ok (a, true), s1) =>
          let '(fc, s2) := next_fault s1 in
          match fc with
          | Fine => (Ok a, s2)
          | Fails => (Err (sql SqliteFailure), MkStore (st_db s0) (st_faults s2))
          | FailsLate => (Err (sql SqliteFailure), s2)
          end
      end
  | _ => (Err (sql SqliteFailure), s0)
  end.
End Statements.

(** ** Reasoning about runs *)

Lemma M_bind_ok {E A B} (m : M E A) (k : A -> M E B) s b s' :
  (m ≫= k) s = (Ok b, s') <-> exists a s1, m s = (Ok a, s1) /\ k a s1 = (Ok b, s').
Proof.
  unfold mbind, M_bind. destruct (m s) as [[a|e] s1]; split.
  - eauto.
  - naive_solver.
  - discriminate.
  - naive_solver.
Qed.

Lemma stmt_ok {E} (sql : SqlError -> E) {A} (f : Db -> result SqlError (A * Db)) s a s' :
  stmt sql f s = (Ok a, s') -> f (st_db s) = Ok (a, st_db s').
Proof.
  unfold stmt, next_fault. destruct s as [d fs]. destruct fs as [|[] fs]; simpl; try done;
    destruct (f d) as [[a' d']|e]; naive_solver.
Qed.

(** A query does not change the tables. *)
Lemma query_ok {E} (sql : SqlError -> E) {A} (f : Db -> result SqlError A) s a s' :
  query sql f s = (Ok a, s') -> f (st_db s) = Ok a /\ st_db s' = st_db s.
Proof.
  intros H%stmt_ok. destruct (f (st_db s)) as [a'|e]; simpl in H; [|discriminate].
  by injection H as -> ->.
Qed.

Lemma stmt_err {E} (sql : SqlError -> E) {A} (f : Db -> result SqlError (A * Db)) s e s' :
  stmt sql f s = (Err e, s') -> st_db s' = st_db s.
Proof.
  unfold stmt, next_fault. destruct s as [d fs]. destruct fs as [|[] fs]; simpl;
    try destruct (f d) as [[a' d']|e']; naive_solver.
Qed.

Lemma bail_if_ok {E} c (e : E) u s s' : bail_if c e s = (Ok u, s') <-> c = false /\ s' = s.
Proof. unfold bail_if, throw, mret, M_ret. destruct u, c; naive_solver. Qed.

Lemma lift_ok {E A} (r : result E A) a s s' : lift r s = (Ok a, s') <-> r = Ok a /\ s' = s.
Proof. unfold lift. naive_solver. Qed.

(** The tables after a transaction are those before it or those its body
    left, and the second whenever it succeeds with a commit. *)
Lemma transaction_ok {E} (sql : SqlError -> E) {A} (body : M E (A * bool)) s a s' :
  transaction sql body s = (Ok a, s') ->
  exists s0 s1 c, st_db s0 = st_db s /\ body s0 = (Ok (a, c), s1) /\
    st_db s' = (if c then st_db s1 else st_db s).
Proof.
  unfold transaction. destruct (next_fault s) as [ft s0] eqn:E0.
  assert (st_db s0 = st_db s) as H0.
  { unfold next_fault in E0. destruct (st_faults s); naive_solver. }
  destruct ft; try discriminate. destruct (body s0) as [[[b []]|e] s1] eqn:Eb; try discriminate.
  - destruct (next_fault s1) as [fc s2] eqn:E1.
    assert (st_db s2 = st_db s1) as H1.
    { unfold next_fault in E1. destruct (st_faults s1); naive_solver. }
    destruct fc; try discriminate. injection 1 as <- <-. exists s0, s1, true. done.
  - injection 1 as <- <-. exists s0, s1, false. done.
Qed.

(** A failed transaction left the tables alone, or its commit took effect
    and was reported late. *)
Lemma transaction_err {E} (sql : SqlError -> E) {A} (body : M E (A * bool)) s e s' :
  transaction sql body s = (Err e, s') ->
  st_db s' = st_db s \/
  exists s0 s1 a, st_db s0 = st_db s /\ body s0 = (Ok (a, true), s1) /\ st_db s' = st_db s1.
Proof.
  unfold transaction. destruct (next_fault s) as [ft s0] eqn:E0.
  assert (st_db s0 = st_db s) as H0.
  { unfold next_fault in E0. destruct (st_faults s); naive_solver. }
  destruct ft; [|injection 1 as <- <-; by left..].
  destruct (body s0) as [[[b []]|e'] s1] eqn:Eb; try discriminate.
  - destruct (next_fault s1) as [fc s2] eqn:E1.
    assert (st_db s2 = st_db s1) as H1.
    { unfold next_fault in E1. destruct (st_faults s1); naive_solver. }
    destruct fc; try discriminate; injection 1 as <- <-; [by left|right; by exists s0, s1, b].
  - injection 1 as <- <-. by left.
Qed.

(** *** Runs of a database that answers *)

Lemma M_bind_run {E A B} (m : M E A) (k : A -> M E B) s a s1 :
  m s = (Ok a, s1) -> (m ≫= k) s = k a s1.
Proof. intros Hm. unfold mbind, M_bind. by rewrite Hm. Qed.

Lemma stmt_fine {E} (sql : SqlError -> E) {A} (f : Db -> result SqlError (A * Db)) d a d' :
  f d = Ok (a, d') -> stmt sql f (MkStore d []) = (Ok a, MkStore d' []).
Proof. intros Hf. unfold stmt. simpl. by rewrite Hf. Qed.

Lemma query_fine {E} (sql : SqlError -> E) {A} (f : Db -> result SqlError A) d a :
  f d = Ok a -> query sql f (MkStore d []) = (Ok a, MkStore d []).
Proof. intros Hf. apply stmt_fine. by rewrite Hf. Qed.

Lemma transaction_fine {E} (sql : SqlError -> E) {A} (body : M E (A * bool)) d a c d' :
  body (MkStore d []) = (Ok (a, c), MkStore d' []) ->
  transaction sql body (MkStore d []) = (Ok a, MkStore (if c then d' else d) []).
Proof. intros Hb. unfold transaction. simpl. rewrite Hb. by destruct c. Qed.

(** Invert a successful run, one connective at a time. *)
Ltac inv_m :=
  repeat match goal with
  | H : (_ ≫= _) _ = (Ok _, _) |- _ => apply M_bind_ok in H as (? & ? & ? & H); cbn beta iota in H
  | H : stmt _ _ _ = (Ok _, _) |- _ => apply stmt_ok in H
  | H : query _ _ _ = (Ok _, _) |- _ => apply query_ok in H as [? ?]
  | H : bail_if _ _ _ = (Ok _, _) |- _ => apply bail_if_ok in H as [? ->]
  | H : lift _ _ = (Ok _, _) |- _ => apply lift_ok in H as [? ->]
  | H : throw _ _ = (Ok _, _) |- _ => discriminate H
  | H : mret _ _ = (Ok _, _) |- _ => injection H as H
  | H : _ /\ _ |- _ => destruct H
  end; inv_ok.
