(* ===== verification/SqlLedger.v ===== *)
(** [crates/sandhi-store/src/ledger.rs]: the SQLite enforcement ledger.
    Each [*_durable] method is a run of the store monad; the SQL text of
    the source is written out on the tables.  [now_utc] and SQLite's
    [strftime('%s','now')] read the argument [clock].  The calendar of the
    [time] crate is a parameter. *)

From S2P Require Import Prelude Ledger Budget Sql.

(** [replace_time(MIDNIGHT)] and [replace_day(1)] of [time::OffsetDateTime]
    in UTC; [None] is an error of the latter. *)
Class Calendar := {
  replace_midnight : Z -> Z;
  replace_day1 : Z -> option Z }.

Inductive ReserveOutcome :=
| Admitted_ (r : Reservation)
| Denied_ (d : Denied).

Record BudgetRow := MkBudgetRow {
  br_scope : string; br_limit : option Z; br_window : Window; br_policy : Policy }.

(** ** Reads *)

Definition is_tracked_id (d : Db) (id : Z) : bool :=
  negb (bool_decide (filter (fun p => ir_reservation_id p.2 = id) (budget_execution_intent d) = ∅)).

(** [COALESCE(SUM(col), 0)] of the rows [f] maps to their contribution; a
    total outside [i64] is SQLite's "integer overflow" error. *)
Definition sql_sum (f : ReservationRow -> Z) (d : Db) : result SqlError Z :=
  let total := msum f (budget_reservation d) in
  if (- i64_max - 1 <=? total) && (total <=? i64_max) then Ok total else Err SqliteFailure.

Definition spent_since (scope : string) (start : Z) (r : ReservationRow) : Z :=
  if bool_decide (rr_scope r = scope) && (rr_settled r =? 1)
     && (start <=? default 0 (rr_settled_at r))
  then rr_actual r else 0.

Definition held_by (scope : string) (r : ReservationRow) : Z :=
  if bool_decide (rr_scope r = scope) && (rr_settled r =? 0) then rr_ceiling r else 0.

(** The rows a reclaim deletes. *)
Definition reclaimable (d : Db) (now_ts : Z) (id : Z) (r : ReservationRow) : bool :=
  (rr_settled r =? 0) && (rr_expires_at r <=? now_ts) && negb (is_tracked_id d id).

Definition delete_reservations (p : Z -> ReservationRow -> bool) (d : Db) : Z * Db :=
  (Z.of_nat (size (filter (fun x => p x.1 x.2 = true) (budget_reservation d))),
   set_reservations (filter (fun x => p x.1 x.2 = false) (budget_reservation d)) d).

(** [UPDATE budget_reservation SET .. WHERE id = ?1 AND settled = 0]. *)
Definition update_unsettled (id : Z) (f : ReservationRow -> ReservationRow) (d : Db) : Z * Db :=
  match budget_reservation d !! id with
  | Some r => if rr_settled r =? 0
              then (1, set_reservations (<[id := f r]> (budget_reservation d)) d) else (0, d)
  | None => (0, d)
  end.

Definition settle_row (actual settled_at : Z) (r : ReservationRow) : ReservationRow :=
  MkReservationRow (rr_scope r) (rr_ceiling r) actual 1 (Some settled_at) (rr_expires_at r).

(** AUTOINCREMENT insertion; an exhausted counter is SQLITE_FULL. *)
Definition insert_reservation (scope : string) (ceiling expires_at : Z) (d : Db)
    : result SqlError (Z * Db) :=
  if reservation_seq d <? i64_max then
    let id := reservation_seq d + 1 in
    Ok (id, set_seq id (set_reservations
      (<[id := MkReservationRow scope ceiling 0 0 None expires_at]> (budget_reservation d)) d))
  else Err SqliteFailure.

Notation sqlM := (M SqlError).
Definition sstmt {A} (f : Db -> result SqlError (A * Db)) : sqlM A := stmt (fun e => e) f.
Definition squery {A} (f : Db -> result SqlError A) : sqlM A := query (fun e => e) f.

(** [i64::try_from(..)] with [ToSqlConversionFailure]. *)
Definition to_i64 (z : Z) : result SqlError Z := ok_or (try_i64 z) ConversionFailure.

Section SqlLedger.
Context `{Calendar}.

Definition window_start_ts (now : Z) (w : Window) : Z :=
  match w with
  | Total => 0
  | Daily => unix_timestamp (replace_midnight now)
  | Monthly => unix_timestamp (replace_midnight (default now (replace_day1 now)))
  end.

Definition set_limit_durable (scope : string) (lim : option Z) (w : Window) (p : Policy)
    : sqlM unit :=
  lim ← lift (match lim with None => Ok None | Some l => z ← to_i64 l; Ok (Some z) end);
  sstmt (fun d => Ok (tt, set_budget_limit
    (<[scope := MkLimitRow lim (Window_as_str w) (Policy_as_str p)]> (budget_limit d)) d)).

Definition window_of_durable (scope : string) : sqlM Window :=
  w ← squery (fun d => Ok (lr_window <$> budget_limit d !! scope));
  mret (default Window_default (Window_parse <$> w)).

Definition policy_of_durable (scope : string) : sqlM Policy :=
  p ← squery (fun d => Ok (lr_policy <$> budget_limit d !! scope));
  mret (default Policy_default (Policy_parse <$> p)).

(** The check of a capped scope: [Some denied] refuses. *)
Definition capacity_check (scope : string) (ceiling now lim : Z) (window policy : string)
    : sqlM (option Denied) :=
  let start := window_start_ts now (Window_parse window) in
  sp ← squery (sql_sum (spent_since scope start));
  re ← squery (sql_sum (held_by scope));
  mret (if bool_decide (Policy_parse policy = Block) && (lim <? sp + re + ceiling)
        then Some (MkDenied scope (max0_u64 lim) (max0_u64 sp) (max0_u64 re) ceiling)
        else None).

(** [now + ttl] panics out of range; the same sum is the lease's expiry. *)
Definition add_ttl (now ttl : Z) : result SqlError Z := ok_or (instant_add now ttl) Panicked.

Definition reserve_in_transaction (scope : string) (ceiling now ttl : Z) : sqlM ReserveOutcome :=
  checked_ceiling ← lift (to_i64 ceiling);
  let now_ts := unix_timestamp now in
  expires ← lift (add_ttl now ttl);
  _ ← sstmt (fun d => Ok (delete_reservations
        (fun id r => bool_decide (rr_scope r = scope) && reclaimable d now_ts id r) d));
  budget ← squery (fun d => Ok (budget_limit d !! scope));
  denied ← match budget with
           | Some (MkLimitRow (Some lim) window policy) =>
               capacity_check scope ceiling now lim window policy
           | _ => mret None
           end;
  match denied with
  | Some d => mret (Denied_ d)
  | None =>
      id ← sstmt (insert_reservation scope checked_ceiling (unix_timestamp expires));
      mret (Admitted_ (MkReservation id scope ceiling expires))
  end.

(** The transaction commits only an admission. *)
Definition reserve_durable (scope : string) (ceiling now ttl : Z) : sqlM ReserveOutcome :=
  transaction (fun e => e)
    (outcome ← reserve_in_transaction scope ceiling now ttl;
     mret (outcome, match outcome with Admitted_ _ => true | Denied_ _ => false end)).

(** Both [u64] arguments are stored with [as i64]. *)
Definition settle_durable (reservation_id actual clock : Z) : sqlM unit :=
  transaction (fun e => e)
    (tracked ← squery (fun d => Ok (is_tracked_id d (as_i64 reservation_id)));
     _ ← bail_if tracked ConstraintViolation;
     _ ← sstmt (fun d => Ok (update_unsettled (as_i64 reservation_id)
           (settle_row (as_i64 actual) (unix_timestamp clock)) d));
     mret (tt, true)).

Definition insert_migrated_limit (scope : string) (lim : option Z) (window policy : string)
    : sqlM unit :=
  sstmt (fun d => Ok (tt, set_budget_limit
    (<[scope := MkLimitRow lim window policy]> (budget_limit d)) d)).

Definition insert_migrated_reservation (id : Z) (scope : string) (ceiling actual settled expires_at : Z)
    (settled_at : option Z) : sqlM unit :=
  sstmt (fun d => Ok (tt, set_seq (Z.max (reservation_seq d) id) (set_reservations
    (<[id := MkReservationRow scope ceiling actual settled settled_at expires_at]>
       (budget_reservation d)) d))).

(** The idempotency record of a logical call; a row past its window is
    pruned. *)
Definition seen_durable (vkey idem_key : string) (now : Z) : sqlM (option (Z * Z)) :=
  let now_ts := unix_timestamp now in
  row ← squery (fun d => Ok (idempotency_dedup d !! (vkey, idem_key)));
  match row with
  | None => mret None
  | Some r =>
      if dd_expires_at r <=? now_ts then
        _ ← sstmt (fun d => Ok (tt, set_dedup (delete (vkey, idem_key) (idempotency_dedup d)) d));
        mret None
      else mret (Some (max0_u64 (dd_reservation r), max0_u64 (dd_actual r)))
  end.

Definition record_durable (vkey idem_key : string) (reservation actual now ttl : Z) : sqlM unit :=
  expires ← lift (add_ttl now ttl);
  sstmt (fun d => Ok (tt, set_dedup (<[(vkey, idem_key) :=
    MkDedupRow (as_i64 reservation) (as_i64 actual) (unix_timestamp now) (unix_timestamp expires)]>
      (idempotency_dedup d)) d)).

(** Two statements, each its own transaction. *)
Definition reclaim_expired_durable (now : Z) : sqlM Z :=
  let now_ts := unix_timestamp now in
  n ← sstmt (fun d => Ok (delete_reservations (reclaimable d now_ts) d));
  m ← sstmt (fun d => Ok
        (Z.of_nat (size (filter (fun p => (dd_expires_at p.2 <=? now_ts) = true) (idempotency_dedup d))),
         set_dedup (filter (fun p => (dd_expires_at p.2 <=? now_ts) = false) (idempotency_dedup d)) d));
  mret (n + m).

Definition limit_durable (scope : string) : sqlM (option Z) :=
  lim ← squery (fun d => Ok (r ← budget_limit d !! scope; lr_limit_tokens r));
  mret (max0_u64 <$> lim).

Definition spent_durable (scope : string) (clock : Z) : sqlM Z :=
  w ← window_of_durable scope;
  sp ← squery (sql_sum (spent_since scope (window_start_ts clock w)));
  mret (max0_u64 sp).

Definition reserved_durable (scope : string) : sqlM Z :=
  re ← squery (sql_sum (held_by scope));
  mret (max0_u64 re).

(** [ORDER BY scope]: SQLite's BINARY collation compares bytes. *)
Definition scope_le (a b : string * LimitRow) : Prop := String.leb a.1 b.1 = true.
#[export] Instance scope_le_dec a b : Decision (scope_le a b).
Proof. unfold scope_le. apply _. Defined.

Definition list_budgets_durable : sqlM (list BudgetRow) :=
  squery (fun d => Ok ((fun p => MkBudgetRow p.1 (max0_u64 <$> lr_limit_tokens p.2)
                                   (Window_parse (lr_window p.2)) (Policy_parse (lr_policy p.2)))
                       <$> merge_sort scope_le (map_to_list (budget_limit d)))).

(** ** The trait implementation

    The connection with its clock.  The adapters swallow storage errors:
    a failed reserve denies, a failed read is empty. *)
Record SqliteLedger := MkSqlite { sl_store : Store; sl_clock : Z }.

Definition ok_default {A} (x : A) (r : result SqlError A) : A :=
  match r with Ok a => a | Err _ => x end.

#[export] Instance sqlite_view : LedgerView SqliteLedger := {
  limit l scope := ok_default None (limit_durable scope (sl_store l)).1;
  spent l scope := ok_default 0 (spent_durable scope (sl_clock l) (sl_store l)).1;
  reserved l scope := ok_default 0 (reserved_durable scope (sl_store l)).1 }.

Definition sqlite_reserve (l : SqliteLedger) (scope : string) (ceiling now ttl : Z)
    : option (result Denied Reservation * SqliteLedger) :=
  let '(r, s) := reserve_durable scope ceiling now ttl (sl_store l) in
  let l' := MkSqlite s (sl_clock l) in
  match r with
  | Ok (Admitted_ reservation) => Some (Ok reservation, l')
  | Ok (Denied_ denied) => Some (Err denied, l')
  | Err Panicked => None
  | Err _ => Some (Err (MkDenied scope 0 0 0 ceiling), l')
  end.

#[export] Instance sqlite_ledger : EnforcementLedger SqliteLedger := {
  set_limit l scope o :=
    MkSqlite (set_limit_durable scope o Total Block (sl_store l)).2 (sl_clock l);
  reserve := sqlite_reserve;
  settle l id actual :=
    MkSqlite (settle_durable id actual (sl_clock l) (sl_store l)).2 (sl_clock l);
  reclaim_expired l now :=
    let '(r, s) := reclaim_expired_durable now (sl_store l) in
    (ok_default 0 r, MkSqlite s (sl_clock l)) }.
End SqlLedger.
