(* ===== verification/SqlContract.v ===== *)
(** The SQLite ledger satisfies the contract of the [EnforcementLedger]
    trait: while the database answers, and for the untracked leases the
    trait creates, it refines the abstract lease machine of [Ledger] with
    a clock of one second and 63-bit totals. *)

From S2P Require Import Prelude Ledger Budget Sql SqlLedger.

Definition sq_cfg : Cfg := MkCfg unix_timestamp true 1 i64_max i64_max.

(** A row of [budget_reservation] against the lease it holds: a settled row
    holds none. *)
Definition row_match (o : option ReservationRow) (x : option Reservation) : Prop :=
  match o, x with
  | None, None => True
  | Some row, None =>
      rr_settled row = 1 /\ 0 <= rr_actual row /\
      exists t, rr_settled_at row = Some t /\ 0 <= t
  | Some row, Some r =>
      rr_settled row = 0 /\ rr_scope row = rsv_scope r /\ rr_ceiling row = rsv_ceiling r /\
      rr_expires_at row = unix_timestamp (rsv_expires_at r)
  | None, Some _ => False
  end.

(** The part of the representation that speaks of the reservation table. *)
Record rows_rep (d : Db) (a : Spec) : Prop := {
  rp_rows : forall i, row_match (budget_reservation d !! i) (sp_leases a !! i);
  rp_ids : forall i r, budget_reservation d !! i = Some r -> 0 < i <= reservation_seq d;
  rp_spent : forall s, msum (spent_since s 0) (budget_reservation d) = sp_spend a s }.

Record db_rep (d : Db) (a : Spec) : Prop := {
  rp_limit : forall s, sp_limit a !! s = (r ← budget_limit d !! s; lr_limit_tokens r);
  rp_plain : forall s r, budget_limit d !! s = Some r -> lr_window r = "total" /\ lr_policy r = "block";
  rp_seq : reservation_seq d = sp_issued a;
  rp_intents : budget_execution_intent d = ∅;
  rp_dedup : idempotency_dedup d = ∅;
  rp_res : rows_rep d a }.

Record sq_rep (l : SqliteLedger) (a : Spec) : Prop := {
  sq_faults : st_faults (sl_store l) = [];
  sq_clock : 0 <= unix_timestamp (sl_clock l);
  sq_db : db_rep (st_db (sl_store l)) a }.

Lemma sq_cfg_ok : cfg_ok sq_cfg.
Proof. split; simpl; ulia. Qed.

Lemma untracked d id : budget_execution_intent d = ∅ -> is_tracked_id d id = false.
Proof. intros Hi. unfold is_tracked_id. by rewrite Hi, map_filter_empty. Qed.

(** Held rows and outstanding leases carry the same ceilings. *)
Lemma rows_held d a s : rows_rep d a -> msum (held_by s) (budget_reservation d) = sp_held a s.
Proof.
  intros [Hr _ _]. apply msum_pointwise. intros i. specialize (Hr i). unfold held_by, held_in.
  destruct (budget_reservation d !! i) as [row|], (sp_leases a !! i) as [r|]; simpl in *; try done.
  - destruct Hr as (-> & -> & -> & _). rewrite andb_true_r. by repeat case_decide.
  - destruct Hr as (-> & _). by rewrite andb_false_r.
Qed.

Lemma sql_sum_in_range f d :
  0 <= msum f (budget_reservation d) <= i64_max -> sql_sum f d = Ok (msum f (budget_reservation d)).
Proof. intros Hs. unfold sql_sum. rewrite (proj2 (andb_true_iff _ _)); [done|]. ulia. Qed.

Lemma sum_spent d a s start :
  spec_wf sq_cfg a -> rows_rep d a -> start = 0 ->
  sql_sum (spent_since s start) d = Ok (sp_spend a s).
Proof.
  intros Hwf Hr ->. pose proof (wf_spend _ _ Hwf s). simpl in *.
  rewrite <- (rp_spent _ _ Hr). apply sql_sum_in_range. by rewrite (rp_spent _ _ Hr).
Qed.

Lemma sum_held d a s :
  spec_wf sq_cfg a -> rows_rep d a -> sql_sum (held_by s) d = Ok (sp_held a s).
Proof.
  intros Hwf Hr. pose proof (wf_held _ _ Hwf s). simpl in *. pose proof (rows_held d a s Hr) as E.
  rewrite <- E. apply sql_sum_in_range. by rewrite E.
Qed.

Lemma lookup_filter_case {K A} `{Countable K} (p : K -> A -> bool) (m : gmap K A) i :
  filter (fun x => p x.1 x.2 = false) m !! i =
  match m !! i with Some r => if p i r then None else Some r | None => None end.
Proof.
  rewrite map_lookup_filter. destruct (m !! i) as [r|]; [|done]. simpl.
  destruct (p i r) eqn:E; case_guard; simpl; congruence.
Qed.

(** Deleting rows and dropping leases by matching tests. *)
Lemma rows_delete d a (p : Z -> ReservationRow -> bool) (q : Z * Reservation -> Prop)
    `{forall x, Decision (q x)} :
  rows_rep d a ->
  (forall i row r, budget_reservation d !! i = Some row -> sp_leases a !! i = Some r ->
     (p i row = true <-> ~ q (i, r))) ->
  (forall i row, budget_reservation d !! i = Some row -> rr_settled row = 1 -> p i row = false) ->
  rows_rep (delete_reservations p d).2 (set_leases (filter q (sp_leases a)) a).
Proof.
  intros [Hr Hids Hsp] Hpq Hkeep. unfold delete_reservations. split; simpl.
  - intros i. specialize (Hr i). rewrite lookup_filter_case, map_lookup_filter.
    destruct (budget_reservation d !! i) as [row|] eqn:Er, (sp_leases a !! i) as [r|] eqn:El;
      simpl in *; try done.
    + specialize (Hpq i row r Er El). destruct (p i row); case_guard; simpl; try done; naive_solver.
    + rewrite (Hkeep i row Er) by tauto. done.
  - intros i r. rewrite lookup_filter_case. destruct (budget_reservation d !! i) eqn:Er; [|done].
    intros _. eauto.
  - intros s. etransitivity; [|apply Hsp]. apply msum_filter. intros i row Er Hp. simpl in Hp.
    unfold spent_since. specialize (Hr i). rewrite Er in Hr. destruct (sp_leases a !! i); simpl in Hr.
    + destruct Hr as (-> & _). by rewrite andb_false_r.
    + rewrite (Hkeep i row Er) in Hp by tauto. done.
Qed.

(** The number of deleted rows is the number of dropped leases. *)
Lemma size_filter_match {K A B} `{Countable K} (m : gmap K A) (m' : gmap K B)
    (P : K * A -> Prop) (Q : K * B -> Prop)
    `{forall x, Decision (P x), forall x, Decision (Q x)} :
  (forall i, is_Some (filter P m !! i) <-> is_Some (filter Q m' !! i)) ->
  size (filter P m) = size (filter Q m').
Proof.
  intros Hi. rewrite <- !size_dom. f_equal. apply set_eq. intros i.
  by rewrite !elem_of_dom.
Qed.

Section Contract.
Context `{Calendar}.
Implicit Types (l : SqliteLedger) (d : Db) (a : Spec).

Lemma sq_limit l a s : sq_rep l a -> spec_wf sq_cfg a -> limit l s = sp_limit a !! s.
Proof.
  intros [Hf _ [Hl _ _ _ _ _]] Hwf. destruct l as [[d fs] clk]. simpl in *. subst fs. simpl.
  rewrite Hl. destruct (budget_limit d !! s) as [r|] eqn:Er; [|done]. simpl.
  specialize (Hl s). rewrite Er in Hl. simpl in Hl.
  destruct (lr_limit_tokens r) as [k|] eqn:Ek; [|done]. simpl.
  pose proof (wf_caps _ _ Hwf s k Hl). f_equal. ulia.
Qed.

Lemma sq_spent l a s : sq_rep l a -> spec_wf sq_cfg a -> spent l s = sp_spend a s.
Proof.
  intros [Hf Hc [_ Hp _ _ _ Hr]] Hwf. destruct l as [[d fs] clk]. simpl in *. subst fs.
  unfold spent_durable, window_of_durable, squery, query, stmt, mbind, M_bind. simpl.
  rewrite (sum_spent d a s); [|done|done|].
  - simpl. pose proof (wf_spend _ _ Hwf s). ulia.
  - destruct (budget_limit d !! s) as [r|] eqn:Er; [|done]. simpl.
    destruct (Hp _ _ Er) as [-> _]. done.
Qed.

Lemma sq_reserved l a s : sq_rep l a -> spec_wf sq_cfg a -> reserved l s = sp_held a s.
Proof.
  intros [Hf Hc [_ _ _ _ _ Hr]] Hwf. destruct l as [[d fs] clk]. simpl in *. subst fs.
  unfold reserved_durable, squery, query, stmt, mbind, M_bind. simpl.
  rewrite (sum_held d a s) by done. simpl. pose proof (wf_held _ _ Hwf s). ulia.
Qed.

Lemma sq_set_limit l a s o :
  sq_rep l a -> op_ok sq_cfg a (OSetLimit s o) = true ->
  sq_rep (set_limit l s o) (spec_set_limit a s o).
Proof.
  intros [Hf Hc [Hl Hp Hs Hi Hd Hr]] Hok. destruct l as [[d fs] clk]. simpl in *. subst fs.
  assert (Ho : match o with None => Ok None | Some l => z ← to_i64 l; Ok (Some z) end = Ok o).
  { destruct o as [k|]; [|done]. simpl. unfold to_i64, try_i64.
    assert ((k <=? i64_max) = true) as -> by lia. done. }
  unfold set_limit_durable, mbind at 1, M_bind, lift. rewrite Ho. simpl.
  split; simpl; [done|done|]. split; simpl; try done.
  - intros s'. rewrite lookup_partial_alter. rewrite lookup_insert. case_decide; [done|apply Hl].
  - intros s' r [[<- <-]|[_ Hx]]%lookup_insert_Some; [done|eauto].
  - destruct Hr. by split.
Qed.

Lemma sq_settle l a id actual :
  sq_rep l a -> spec_wf sq_cfg a -> op_ok sq_cfg a (OSettle id actual) = true ->
  sq_rep (settle l id actual) (spec_settle a id actual).
Proof.
  intros [Hf Hc [Hl Hp Hs Hi Hd Hr]] Hwf Hok. destruct l as [[d fs] clk]. simpl in *. subst fs.
  bools. destruct Hr as [Hr Hids Hsp].
  unfold settle_durable, transaction, squery, sstmt, query, stmt, mbind, M_bind, bail_if, mret, M_ret,
    next_fault. simpl. rewrite untracked by done. simpl.
  unfold update_unsettled, spec_settle. pose proof (Hr id) as Hri.
  assert (Hid : sp_leases a !! id = None \/ as_i64 id = id).
  { destruct (sp_leases a !! id) as [r|] eqn:Er; [|by left]. right.
    destruct (budget_reservation d !! id) as [row|] eqn:E; [|done]. apply Hids in E.
    destruct (wf_issued _ _ Hwf) as [_ Hw]. simpl in Hw. rewrite Hs in E. unfold as_i64.
    rewrite (proj2 (Z.leb_le _ _)); [done|lia]. }
  destruct (sp_leases a !! id) as [r|] eqn:El.
  - destruct Hid as [|Hid]; [done|]. rewrite Hid.
    destruct (budget_reservation d !! id) as [row|] eqn:E; simpl in Hri; [|done].
    destruct Hri as (Hz & Hsc & Hce & Hex). rewrite Hz. simpl.
    split; simpl; [done|done|]. split; simpl; try done. split; simpl.
    + intros i. destruct (decide (id = i)) as [<-|Hne].
      * rewrite lookup_insert_eq, lookup_delete_eq. simpl. unfold as_i64.
        pose proof (wf_spend _ _ Hwf (rsv_scope r)). simpl in *.
        rewrite (proj2 (Z.leb_le _ _)) by lia. split; [done|]. split; [lia|eauto].
      * rewrite lookup_insert_ne, lookup_delete_ne by done. apply Hr.
    + intros i x [[<- <-]|[_ Hx]]%lookup_insert_Some; eauto.
    + intros s. rewrite (msum_update _ _ _ row) by done. rewrite Hsp.
      unfold sp_spend at 2. simpl. rewrite count_at_insert. unfold spent_since at 1 2. simpl.
      rewrite Hz, Hsc. pose proof (wf_spend _ _ Hwf (rsv_scope r)). simpl in *.
      rewrite andb_false_r. simpl. rewrite (proj2 (Z.leb_le 0 _) Hc), !andb_true_r.
      unfold as_i64. rewrite (proj2 (Z.leb_le actual i64_max)) by lia.
      unfold sp_spend. case_decide; subst.
      * rewrite bool_decide_true by done. lia.
      * rewrite bool_decide_false by done. lia.
  - assert (Hnop : match budget_reservation d !! as_i64 id with
                   | Some r => rr_settled r =? 0 | None => false end = false).
    { destruct (budget_reservation d !! as_i64 id) as [row|] eqn:E; [|done].
      pose proof (Hids _ _ E). unfold as_i64 in *. destruct (id <=? i64_max) eqn:Eid; [|ulia].
      rewrite E in Hri. simpl in Hri. destruct Hri as [-> _]. done. }
    destruct (budget_reservation d !! as_i64 id) as [row|]; [rewrite Hnop|];
      (split; simpl; [done|done|]; by split).
Qed.

(** The opportunistic reclaim of a reservation is the abstract sweep. *)
Lemma sq_swept d a s now :
  db_rep d a ->
  rows_rep (delete_reservations
    (fun id r => bool_decide (rr_scope r = s) && reclaimable d (unix_timestamp now) id r) d).2
    (spec_swept sq_cfg a s now).
Proof.
  intros [Hl Hp Hs Hi Hd Hr]. unfold spec_swept, live_in_scope. cbn [cfg_eager sq_cfg].
  apply rows_delete; [done|..].
  - intros i row r Er El. pose proof (rp_rows _ _ Hr i) as Hm. rewrite Er, El in Hm.
    destruct Hm as (Hz & Hsc & _ & Hex). unfold reclaimable, expired. simpl.
    rewrite Hz, Hsc, Hex, untracked by done. simpl. rewrite andb_true_r.
    destruct (_ && _); simpl; naive_solver.
  - intros i row Er Hz. unfold reclaimable. rewrite Hz. simpl. by rewrite andb_false_r.
Qed.

Lemma sq_insert d a s ceiling e r :
  rows_rep d a -> spec_wf sq_cfg a -> reservation_seq d = sp_issued a -> 0 <= ceiling ->
  reservation_seq d < i64_max ->
  r = MkReservation (reservation_seq d + 1) s ceiling e ->
  exists d', insert_reservation s ceiling (unix_timestamp e) d = Ok (reservation_seq d + 1, d') /\
    rows_rep d' (spec_admit sq_cfg a r) /\ reservation_seq d' = reservation_seq d + 1 /\
    budget_limit d' = budget_limit d /\ budget_execution_intent d' = budget_execution_intent d /\
    idempotency_dedup d' = idempotency_dedup d.
Proof.
  intros [Hr Hids Hsp] Hwf Hs Hc Hseq ->. unfold insert_reservation.
  rewrite (proj2 (Z.ltb_lt _ _) Hseq). eexists. split; [done|]. split; [|done]. split; simpl.
  - intros i. destruct (decide (reservation_seq d + 1 = i)) as [<-|Hne].
    + by rewrite !lookup_insert_eq.
    + rewrite !lookup_insert_ne by done. apply Hr.
  - pose proof (wf_issued _ _ Hwf).
    intros i x [[<- <-]|[_ Hx]]%lookup_insert_Some; [lia|]. apply Hids in Hx. lia.
  - intros s'. assert (budget_reservation d !! (reservation_seq d + 1) = None) as Hn.
    { destruct (budget_reservation d !! _) as [x|] eqn:E; [|done]. apply Hids in E. lia. }
    rewrite msum_insert, Hsp by done. unfold spent_since. simpl. by rewrite andb_false_r.
Qed.

(** The capacity check of a plain (total, blocking) budget is [fits]. *)
Lemma sq_check d a s ceiling now lim :
  rows_rep d a -> spec_wf sq_cfg a -> sp_limit a !! s = Some lim ->
  exists den, capacity_check s ceiling now lim "total" "block" (MkStore d []) = (Ok den, MkStore d []) /\
    (fits a s ceiling = true <-> den = None).
Proof.
  intros Hr Hwf Hl. unfold capacity_check, squery, query, stmt, mbind, M_bind, next_fault. simpl.
  rewrite (sum_spent d a s) by done. simpl. rewrite (sum_held d a s) by done. simpl. eexists. split; [done|].
  unfold fits. rewrite Hl. rewrite Z.ltb_antisym.
  destruct (_ <=? lim); simpl; split; congruence.
Qed.

Lemma sq_reserve l a s ceiling now ttl :
  sq_rep l a -> spec_wf sq_cfg a -> op_ok sq_cfg a (OReserve s ceiling now ttl) = true ->
  exists out l', reserve l s ceiling now ttl = Some (out, l') /\
    match out, spec_reserve sq_cfg a s ceiling now ttl with
    | Ok r, (Some r', a') => r = r' /\ sq_rep l' a'
    | Err _, (None, a') => sq_rep l' a'
    | _, _ => False
    end.
Proof.
  intros [Hf Hc Hdb] Hwf Hok. destruct l as [[d fs] clk]. simpl in Hf, Hc, Hdb. subst fs.
  pose proof (sq_swept d a s now Hdb) as Hrows. pose proof (spec_swept_wf sq_cfg a s now Hwf) as Hwf1.
  pose proof (spec_swept_fields sq_cfg a s now) as (El & Es & Ei).
  set (d1 := (delete_reservations _ d).2) in Hrows. set (a1 := spec_swept sq_cfg a s now) in *.
  unfold op_ok in Hok. cbn [cfg_max_sum cfg_base sq_cfg] in Hok. bools.
  pose proof Hdb as [Hl Hp Hs Hi Hd Hr].
  assert (Hseq : reservation_seq d1 < i64_max) by (change (reservation_seq d < i64_max); lia).
  assert (Hseq1 : reservation_seq d1 = sp_issued a1) by (rewrite Ei; apply Hs).
  destruct (sq_insert d1 a1 s ceiling (now + ttl) _ Hrows Hwf1 Hseq1 ltac:(lia) Hseq eq_refl)
    as (d2 & Hins & Hrows2 & Hseq2 & Hl2 & Hi2 & Hd2).
  assert (Hnext : MkReservation (reservation_seq d1 + 1) s ceiling (now + ttl)
                  = next_lease sq_cfg a s ceiling now ttl).
  { unfold next_lease. simpl. f_equal. change (reservation_seq d + 1 = 1 + sp_issued a). lia. }
  rewrite Hnext in Hrows2.
  (* the admission test *)
  assert (Hden : exists den,
    (match budget_limit d !! s with
     | Some (MkLimitRow (Some lim) window policy) => capacity_check s ceiling now lim window policy
     | _ => mret None
     end) (MkStore d1 []) = (Ok den, MkStore d1 []) /\ (fits a1 s ceiling = true <-> den = None)).
  { destruct (budget_limit d !! s) as [[[lim|] w p]|] eqn:Eb.
    - destruct (Hp _ _ Eb) as [Hw Hpo]. simpl in Hw, Hpo. subst w p. apply sq_check; [done|done|].
      by rewrite El, Hl, Eb.
    - exists None. split; [done|]. unfold fits. rewrite El, Hl, Eb. done.
    - exists None. split; [done|]. unfold fits. rewrite El, Hl, Eb. done. }
  destruct Hden as (den & Hden & Hfits).
  assert (Hin : reserve_in_transaction s ceiling now ttl (MkStore d []) =
    match den with
    | Some x => (Ok (Denied_ x), MkStore d1 [])
    | None => (Ok (Admitted_ (next_lease sq_cfg a s ceiling now ttl)), MkStore d2 [])
    end).
  { assert (Hto : to_i64 ceiling = Ok ceiling).
    { unfold to_i64, try_i64. rewrite (proj2 (Z.leb_le ceiling i64_max)) by lia. done. }
    assert (Httl : add_ttl now ttl = Ok (now + ttl)).
    { unfold add_ttl, instant_add. by rewrite H3. }
    unfold reserve_in_transaction. rewrite Hto, Httl.
    erewrite M_bind_run by done. erewrite M_bind_run by done.
    erewrite M_bind_run by (by apply stmt_fine). fold d1.
    erewrite M_bind_run by (by apply query_fine). erewrite M_bind_run by exact Hden.
    destruct den; [done|]. erewrite M_bind_run by (apply stmt_fine; exact Hins). by rewrite Hnext. }
  unfold spec_reserve. fold a1. clearbody a1.
  cbn [reserve sqlite_ledger]. unfold sqlite_reserve, reserve_durable. cbn [sl_store sl_clock].
  destruct den as [x|]; (erewrite transaction_fine by (erewrite M_bind_run by exact Hin; reflexivity)).
  - assert (fits a1 s ceiling = false) as -> by (destruct (fits a1 s ceiling); naive_solver).
    eexists _, _. split; [done|]. by split.
  - rewrite (proj2 Hfits eq_refl). eexists _, _. split; [done|]. split; [done|].
    split; simpl; [done|done|]. split; simpl.
    + intros s'. rewrite El, Hl2. apply Hl.
    + rewrite Hl2. exact Hp.
    + rewrite Hseq2, Hseq1. done.
    + rewrite Hi2. exact Hi.
    + rewrite Hd2. exact Hd.
    + done.
Qed.

Lemma sq_reclaim l a now :
  sq_rep l a -> spec_wf sq_cfg a ->
  (reclaim_expired l now).1 = (spec_reclaim sq_cfg a now).1 /\
  sq_rep (reclaim_expired l now).2 (spec_reclaim sq_cfg a now).2.
Proof.
  intros [Hf Hc Hdb] Hwf. destruct l as [[d fs] clk]. simpl in Hf, Hc, Hdb. subst fs.
  pose proof Hdb as [Hl Hp Hs Hi Hd Hr].
  assert (Hrows : rows_rep (delete_reservations (reclaimable d (unix_timestamp now)) d).2
                    (spec_reclaim sq_cfg a now).2).
  { apply rows_delete; [done|..].
    - intros i row r Er Ela. pose proof (rp_rows _ _ Hr i) as Hm. rewrite Er, Ela in Hm.
      destruct Hm as (Hz & _ & _ & Hex). unfold reclaimable, expired. simpl.
      rewrite Hz, Hex, untracked by done. simpl. rewrite andb_true_r.
      destruct (_ <=? _); naive_solver.
    - intros i row Er Hz. unfold reclaimable. by rewrite Hz. }
  cbn [reclaim_expired sqlite_ledger]. unfold reclaim_expired_durable. cbn [sl_store].
  erewrite M_bind_run by (by apply stmt_fine).
  erewrite M_bind_run by (by apply stmt_fine). simpl. rewrite Hd, !map_filter_empty, map_size_empty.
  split.
  - rewrite Z.add_0_r. f_equal. apply size_filter_match. intros i.
    pose proof (rp_rows _ _ Hr i) as Hm. rewrite !map_lookup_filter.
    destruct (budget_reservation d !! i) as [row|], (sp_leases a !! i) as [r|]; simpl in Hm |- *;
      try done.
    + destruct Hm as (Hz & _ & _ & Hex). unfold reclaimable, expired. simpl.
      rewrite Hz, Hex, untracked by done. simpl. rewrite andb_true_r.
      repeat case_guard; simpl; try done; split; eauto.
    + destruct Hm as (Hz & _). unfold reclaimable. rewrite Hz. simpl. split; intros [? ?]; done.
  - split; simpl; [done|done|]. split; simpl; try done. destruct Hrows. by split.
Qed.
End Contract.

#[export] Instance sq_contract `{Calendar} : LedgerContract SqliteLedger.
Proof.
  refine {| lc_cfg := sq_cfg; lc_cfg_ok := sq_cfg_ok; lc_rep := sq_rep |}.
  - apply sq_limit.
  - apply sq_spent.
  - apply sq_reserved.
  - intros. by apply sq_set_limit.
  - apply sq_reserve.
  - apply sq_settle.
  - intros. by apply sq_reclaim.
Defined.

(** ** Properties *)

(** A calendar for evaluation: UTC midnights, and no month arithmetic. *)
Definition utc_days : Calendar :=
  {| replace_midnight t := t / seconds 86400 * seconds 86400; replace_day1 _ := None |}.

Definition sq_open (clock : Z) : SqliteLedger := MkSqlite (MkStore (db_empty false) []) clock.

Lemma sq_open_rep clock : 0 <= unix_timestamp clock -> sq_rep (sq_open clock) spec_init.
Proof.
  intros Hc. split; simpl; [done|done|]. split; simpl; try done.
Qed.

(** C5: The SQLite ledger behind the trait refines the same abstract lease
    machine as the in-memory one, with second resolution and 63-bit
    totals: every in-range sequence of calls on a new database answers as
    the machine does and leaves the totals it computes, which are sums
    over the reservation rows. *)
Theorem sqlite_refines_spec `{Calendar} (clock : Z) (ops : list op) :
  0 <= unix_timestamp clock -> ops_ok sq_cfg spec_init ops = true ->
  exists l', run (sq_open clock) ops = Some ((spec_run sq_cfg spec_init ops).1, l') /\
             forall s, view l' s = spec_view (spec_run sq_cfg spec_init ops).2 s.
Proof.
  intros Hc. exact (@contract_trace _ _ _ sq_contract _ ops (sq_open_rep clock Hc)).
Qed.

Definition sq_demo_ops : list op :=
  [OSetLimit "a" (Some 100); OReserve "a" 60 0 (seconds 900); OReserve "a" 60 0 (seconds 900);
   OReserve "b" 7 0 (seconds 900); OSettle 1 75; OSettle 1 75; OReserve "a" 20 5 (seconds 10);
   OReserve "a" 24 (seconds 10) (seconds 10); OReclaim (seconds 11)].

Lemma sqlite_refines_spec_witness :
  exists l', (@run _ _ (@sqlite_ledger utc_days) (sq_open 0) sq_demo_ops) = Some
    ((spec_run sq_cfg spec_init sq_demo_ops).1, l') /\
    (spec_run sq_cfg spec_init sq_demo_ops).1 !! 7%nat =
      Some (SeenReserve (Some (MkReservation 4 "a" 24 (seconds 10 + seconds 10)))) /\
    @view _ (@sqlite_view utc_days) l' "a" = (Some 100, 75, 24).
Proof.
  destruct (@sqlite_refines_spec utc_days 0 sq_demo_ops) as (l' & Hrun & Hview);
    [by vm_compute|by vm_compute|].
  exists l'. split; [exact Hrun|]. split; [by vm_compute|]. rewrite Hview. by vm_compute.
Defined.

Section Reserve.
Context `{Calendar}.

(** The tables after the opportunistic reclaim of [reserve]. *)
Definition swept_rows (d : Db) (scope : string) (now : Z) : gmap Z ReservationRow :=
  budget_reservation (delete_reservations
    (fun id r => bool_decide (rr_scope r = scope) && reclaimable d (unix_timestamp now) id r) d).2.

Lemma capacity_check_ok scope ceiling now lim window policy s x s' :
  capacity_check scope ceiling now lim window policy s = (Ok x, s') ->
  st_db s' = st_db s /\
  (x = None -> Policy_parse policy = Block ->
   msum (spent_since scope (window_start_ts now (Window_parse window))) (budget_reservation (st_db s))
   + msum (held_by scope) (budget_reservation (st_db s)) + ceiling <= lim).
Proof.
  unfold capacity_check, squery. intros Hc. inv_m. subst.
  assert (Hsum : forall f d z, sql_sum f d = Ok z -> z = msum f (budget_reservation d)).
  { unfold sql_sum. intros f d z. destruct (_ && _); congruence. }
  match goal with H1 : st_db ?a = st_db s, H2 : st_db s' = st_db ?a |- _ =>
    rewrite H1 in *; rewrite H2 in * end.
  split; [done|]. intros Hx Hb. rewrite Hb in Hx.
  repeat match goal with H : sql_sum _ _ = Ok _ |- _ => apply Hsum in H; subst end.
  rewrite bool_decide_true in Hx by done. simpl in Hx. case_match; [done|lia].
Qed.

(** The admission decision of one scope on given rows. *)
Definition under_cap (d : Db) (rows : gmap Z ReservationRow) (scope : string) (ceiling now : Z) : Prop :=
  forall lim window policy,
    budget_limit d !! scope = Some (MkLimitRow (Some lim) window policy) ->
    Policy_parse policy = Block ->
    msum (spent_since scope (window_start_ts now (Window_parse window))) rows
    + msum (held_by scope) rows + ceiling <= lim.

Record admission (d d' : Db) (scope : string) (ceiling now ttl : Z) (r : Reservation) : Prop := {
  ad_lease : r = MkReservation (reservation_seq d + 1) scope ceiling (now + ttl);
  ad_range : ceiling <= i64_max /\ reservation_seq d < i64_max;
  ad_db : d' = set_seq (reservation_seq d + 1) (set_reservations
            (<[reservation_seq d + 1 := MkReservationRow scope ceiling 0 0 None
                                          (unix_timestamp (now + ttl))]> (swept_rows d scope now)) d);
  ad_cap : under_cap d (swept_rows d scope now) scope ceiling now }.

Lemma reserve_tx_ok scope ceiling now ttl s out s' :
  reserve_in_transaction scope ceiling now ttl s = (Ok out, s') ->
  match out with
  | Admitted_ r => admission (st_db s) (st_db s') scope ceiling now ttl r
  | Denied_ _ => True
  end.
Proof.
  unfold reserve_in_transaction, sstmt, squery. intros Hr.
  apply M_bind_ok in Hr as (c & s1 & Hc & Hr). apply lift_ok in Hc as [Hc ->].
  apply M_bind_ok in Hr as (e & s1 & He & Hr). apply lift_ok in He as [He ->].
  apply M_bind_ok in Hr as (n & s1 & Hd & Hr). apply stmt_ok in Hd. injection Hd as _ Hd.
  apply M_bind_ok in Hr as (b & s2 & Hb & Hr). apply query_ok in Hb as [Hb Hs2].
  injection Hb as Hb.
  apply M_bind_ok in Hr as (den & s3 & Hden & Hr).
  assert (Hcap : st_db s3 = st_db s1 /\ (den = None ->
    under_cap (st_db s) (swept_rows (st_db s) scope now) scope ceiling now)).
  { unfold under_cap, swept_rows.
    assert (Hl : budget_limit (st_db s1) = budget_limit (st_db s)) by (rewrite <- Hd; done).
    rewrite Hl in Hb. rewrite Hb. change (budget_reservation (delete_reservations _ _).2)
      with (budget_reservation (set_reservations (filter (fun x => bool_decide (rr_scope x.2 = scope)
        && reclaimable (st_db s) (unix_timestamp now) x.1 x.2 = false)
        (budget_reservation (st_db s))) (st_db s))). rewrite Hd, <- Hs2.
    destruct b as [[[lim|] w p]|].
    - apply capacity_check_ok in Hden as [Hs3 Hcap]. split; [congruence|].
      intros Hn lim' w' p' [= <- <- <-] Hp. auto.
    - injection Hden as <- <-. split; [congruence|]. intros _ lim' w' p' Hx. discriminate.
    - injection Hden as <- <-. split; [congruence|]. intros _ lim' w' p' Hx. discriminate. }
  destruct Hcap as [Hs3 Hcap]. destruct den as [den|]; [by injection Hr as <- <-|].
  apply M_bind_ok in Hr as (id & s4 & Hi & Hr). apply stmt_ok in Hi. injection Hr as <- <-.
  unfold to_i64, try_i64 in Hc. apply ok_or_ok in Hc. destruct (ceiling <=? i64_max) eqn:Hc64; [|done].
  injection Hc as <-. unfold add_ttl, instant_add in He. apply ok_or_ok in He.
  destruct (instant_ok (now + ttl)) eqn:Ht; [|done]. injection He as <-.
  unfold insert_reservation in Hi. rewrite Hs3, <- Hd in Hi. simpl in Hi.
  destruct (_ <? i64_max) eqn:Hq; [|done]. injection Hi as <- <-.
  split; [done|lia|done|by apply Hcap].
Qed.

(** A durable reservation is atomic and capped.  Whatever the state of
    the database and wherever storage fails: an admission consists of
    exactly the reclaim of the scope's expired untracked leases and one
    new row under a fresh identifier; it respects a blocking cap over the
    scope's current window, with every remaining lease counted; and a
    refusal, or a failure whose commit did not take effect, changes no
    table. *)
Lemma reserve_durable_atomic (scope : string) (ceiling now ttl : Z) (s : Store) :
  match reserve_durable scope ceiling now ttl s with
  | (Ok (Admitted_ r), s') => admission (st_db s) (st_db s') scope ceiling now ttl r
  | (Ok (Denied_ _), s') => st_db s' = st_db s
  | (Err _, s') => st_db s' = st_db s \/
                   exists r, admission (st_db s) (st_db s') scope ceiling now ttl r
  end.
Proof.
  destruct (reserve_durable scope ceiling now ttl s) as [[out|e] s'] eqn:Hr;
    unfold reserve_durable in Hr.
  - apply transaction_ok in Hr as (s0 & s1 & c & H0 & Hb & Hs').
    apply M_bind_ok in Hb as (out' & s2 & Hin & Hb). injection Hb as <- <- <-.
    apply reserve_tx_ok in Hin. rewrite H0 in Hin. destruct out'; rewrite Hs'; done.
  - apply transaction_err in Hr as [Hs'|(s0 & s1 & out & H0 & Hb & Hs')]; [by left|].
    apply M_bind_ok in Hb as (out' & s2 & Hin & Hb). injection Hb as <- Hc <-.
    apply reserve_tx_ok in Hin. rewrite H0 in Hin. destruct out'; [|done].
    right. exists r. by rewrite Hs'.
Qed.
End Reserve.

(** A saturated charge wraps.  The charge column is a signed integer
    and [settle_durable] casts with [as i64]: a charge of [u64::MAX] is
    stored as minus one, and takes a token off the scope's spend instead
    of exhausting it. *)
Theorem settle_wraps_saturated_charge :
  exists s, @spent_durable utc_days "a" 0 s = (Ok 4, s) /\
    s = ((_ ← @reserve_durable utc_days "a" 10 0 (seconds 900);
          _ ← settle_durable 1 u64_max 0;
          _ ← @reserve_durable utc_days "a" 10 0 (seconds 900);
          settle_durable 2 5 0) (MkStore (db_empty true) [])).2.
Proof. eexists. split; [|reflexivity]. vm_compute. reflexivity. Qed.
