(* ===== verification/Usage.v ===== *)
(** Usage measurements and their billable quantity: the usage record of
    [crates/sandhi-core/src/chat.rs] ([UsageV2] and its enumerations), the
    cache-read metadata of [cache_read.rs], the billable formulas and the
    wire event of [event.rs]. *)

From S2P Require Import Prelude.

(** ** Enumerations *)

Inductive UsageCompleteness := Final | Partial | Unavailable.
Inductive UsageBasis := ProviderReported | Estimated.
Inductive LatencySource := Origin | Boundary.
Inductive Backend := External | SelfHosted.

Inductive CacheReadStatus := Reported | Absent | Malformed | Unsupported.
Inductive CacheReadSource := OriginUsage | CallerSupplied | ExplicitCapability.
Record CacheReadObservation := MkCacheObs { co_status : CacheReadStatus; co_source : CacheReadSource }.

#[export] Instance UsageCompleteness_eq_dec : EqDecision UsageCompleteness.
Proof. solve_decision. Defined.
#[export] Instance UsageBasis_eq_dec : EqDecision UsageBasis.
Proof. solve_decision. Defined.
#[export] Instance LatencySource_eq_dec : EqDecision LatencySource.
Proof. solve_decision. Defined.
#[export] Instance CacheReadStatus_eq_dec : EqDecision CacheReadStatus.
Proof. solve_decision. Defined.
#[export] Instance CacheReadSource_eq_dec : EqDecision CacheReadSource.
Proof. solve_decision. Defined.
#[export] Instance CacheReadObservation_eq_dec : EqDecision CacheReadObservation.
Proof. solve_decision. Defined.

(** A canonical status/source pair. *)
Definition validated (o : CacheReadObservation) : option CacheReadObservation :=
  match co_status o, co_source o with
  | Reported, OriginUsage | Absent, OriginUsage | Malformed, OriginUsage
  | Reported, CallerSupplied | Unsupported, ExplicitCapability => Some o
  | _, _ => None
  end.

(** [CacheReadObservation::origin]; its assertion fails on [Unsupported]. *)
Definition cache_obs_origin (st : CacheReadStatus) : option CacheReadObservation :=
  match st with Unsupported => None | _ => Some (MkCacheObs st OriginUsage) end.

Definition cache_read_observation_is_unknown (o : option CacheReadObservation) : bool :=
  bool_decide (o ≫= validated = None).

(** ** The usage record *)

Record UsageV2 := MkUsage {
  u_tokens_in : Z; u_tokens_out : Z; u_cache_creation : Z; u_cache_read : Z;
  u_cache_obs : option CacheReadObservation;
  u_audio_in : option Z; u_audio_out : option Z;
  u_reasoning : option Z; u_reasoning_included : option bool;
  u_accepted_prediction : option Z; u_rejected_prediction : option Z;
  u_completeness : UsageCompleteness; u_basis : UsageBasis; u_attempts : Z;
  u_outcome : option string; u_upstream_request_id : option string;
  u_duration_ms : option Z; u_duration_source : option LatencySource;
  u_ttft_ms : option Z; u_ttft_source : option LatencySource }.

#[export] Instance UsageV2_eq_dec : EqDecision UsageV2.
Proof. solve_decision. Defined.

(** The derived [Default]: the attempt count of the type is zero (the
    serde default of one applies to decoding only). *)
Definition UsageV2_default : UsageV2 :=
  MkUsage 0 0 0 0 None None None None None None None Unavailable ProviderReported 0
    None None None None None None.

(** ** The billable quantity *)

Definition unfolded_reasoning (reasoning_tokens tokens_out : Z) (included : option bool) : Z :=
  match included with
  | Some false => reasoning_tokens
  | Some true => 0
  | None => if tokens_out <? reasoning_tokens then reasoning_tokens else 0
  end.

Definition billable_parts_with_reasoning
    (tokens_in cache_creation cache_read tokens_out reasoning : Z) (included : option bool) : Z :=
  sat_add (sat_add (sat_add (sat_add tokens_in cache_creation) cache_read) tokens_out)
    (unfolded_reasoning reasoning tokens_out included).

Definition billable_parts (tokens_in cache_creation cache_read tokens_out reasoning : Z) : Z :=
  billable_parts_with_reasoning tokens_in cache_creation cache_read tokens_out reasoning None.

(** The product is a [u128]; the quotient is clamped to [u64::MAX]. *)
Definition scaled_cache_read (cache_read bp : Z) : Z := Z.min (cache_read * bp / 10000) u64_max.

Definition billable_parts_weighted
    (tokens_in cache_creation cache_read tokens_out reasoning : Z) (included : option bool) (bp : Z) : Z :=
  sat_add (sat_add (sat_add (sat_add tokens_in cache_creation) (scaled_cache_read cache_read bp))
    tokens_out) (unfolded_reasoning reasoning tokens_out included).

Definition billable (u : UsageV2) : Z :=
  billable_parts_with_reasoning (u_tokens_in u) (u_cache_creation u) (u_cache_read u)
    (u_tokens_out u) (default 0 (u_reasoning u)) (u_reasoning_included u).

Definition billable_weighted (u : UsageV2) (cache_read_bp : Z) : Z :=
  billable_parts_weighted (u_tokens_in u) (u_cache_creation u) (u_cache_read u)
    (u_tokens_out u) (default 0 (u_reasoning u)) (u_reasoning_included u) cache_read_bp.

(** ** The wire event *)

(** An [f64] is carried as its bit pattern; no operation here computes on it. *)
Definition f64 : Type := Z.

Record UsageEvent := MkUsageEvent {
  ev_schema_version : string; ev_request_id : string; ev_occurred_at : string;
  ev_provider : string; ev_model : string; ev_backend : Backend;
  ev_virtual_key_id : option string; ev_subject_id : option string;
  ev_group_id : option string; ev_route : option string; ev_session_id : option string;
  ev_idempotency_key : option string; ev_run_id : option string; ev_step_id : option string;
  ev_parent_id : option string; ev_trace_context : option string; ev_tokens_in : Z;
  ev_tokens_out : Z; ev_cache_creation_tokens : Z; ev_cache_read_tokens : Z;
  ev_cache_read_observation : option CacheReadObservation;
  ev_usage_completeness : UsageCompleteness; ev_usage_basis : UsageBasis; ev_attempts : Z;
  ev_outcome : option string; ev_upstream_request_id : option string;
  ev_gpu_seconds : option f64; ev_duration_ms : option Z;
  ev_duration_source : option LatencySource; ev_time_to_first_token_ms : option Z;
  ev_time_to_first_token_source : option LatencySource; ev_reasoning_tokens : option Z;
  ev_reasoning_included : option bool }.

Definition SCHEMA_VERSION : string := "1".

Definition UsageEvent_new (request_id occurred_at provider model : string) (backend : Backend)
    : UsageEvent :=
  MkUsageEvent
    SCHEMA_VERSION request_id occurred_at provider model backend None None None None None None
    None None None None 0 0 0 0 None Unavailable ProviderReported 1 None None None None None None
    None None None.

Definition billable_tokens (e : UsageEvent) : Z :=
  billable_parts_with_reasoning (ev_tokens_in e) (ev_cache_creation_tokens e)
    (ev_cache_read_tokens e) (ev_tokens_out e) (default 0 (ev_reasoning_tokens e))
    (ev_reasoning_included e).

Definition with_attribution (e : UsageEvent)
    (vk : option string) (subject : option string) (group : option string) : UsageEvent :=
  MkUsageEvent
    (ev_schema_version e) (ev_request_id e) (ev_occurred_at e) (ev_provider e) (ev_model e)
    (ev_backend e) vk subject group (ev_route e) (ev_session_id e) (ev_idempotency_key e)
    (ev_run_id e) (ev_step_id e) (ev_parent_id e) (ev_trace_context e) (ev_tokens_in e)
    (ev_tokens_out e) (ev_cache_creation_tokens e) (ev_cache_read_tokens e)
    (ev_cache_read_observation e) (ev_usage_completeness e) (ev_usage_basis e) (ev_attempts e)
    (ev_outcome e) (ev_upstream_request_id e) (ev_gpu_seconds e) (ev_duration_ms e)
    (ev_duration_source e) (ev_time_to_first_token_ms e) (ev_time_to_first_token_source e)
    (ev_reasoning_tokens e) (ev_reasoning_included e).

Definition with_session (e : UsageEvent) (session : option string) : UsageEvent :=
  MkUsageEvent
    (ev_schema_version e) (ev_request_id e) (ev_occurred_at e) (ev_provider e) (ev_model e)
    (ev_backend e) (ev_virtual_key_id e) (ev_subject_id e) (ev_group_id e) (ev_route e) session
    (ev_idempotency_key e) (ev_run_id e) (ev_step_id e) (ev_parent_id e) (ev_trace_context e)
    (ev_tokens_in e) (ev_tokens_out e) (ev_cache_creation_tokens e) (ev_cache_read_tokens e)
    (ev_cache_read_observation e) (ev_usage_completeness e) (ev_usage_basis e) (ev_attempts e)
    (ev_outcome e) (ev_upstream_request_id e) (ev_gpu_seconds e) (ev_duration_ms e)
    (ev_duration_source e) (ev_time_to_first_token_ms e) (ev_time_to_first_token_source e)
    (ev_reasoning_tokens e) (ev_reasoning_included e).

Definition with_latency (e : UsageEvent) (duration : option Z) (ttft : option Z) : UsageEvent :=
  MkUsageEvent
    (ev_schema_version e) (ev_request_id e) (ev_occurred_at e) (ev_provider e) (ev_model e)
    (ev_backend e) (ev_virtual_key_id e) (ev_subject_id e) (ev_group_id e) (ev_route e)
    (ev_session_id e) (ev_idempotency_key e) (ev_run_id e) (ev_step_id e) (ev_parent_id e)
    (ev_trace_context e) (ev_tokens_in e) (ev_tokens_out e) (ev_cache_creation_tokens e)
    (ev_cache_read_tokens e) (ev_cache_read_observation e) (ev_usage_completeness e)
    (ev_usage_basis e) (ev_attempts e) (ev_outcome e) (ev_upstream_request_id e)
    (ev_gpu_seconds e) duration (ev_duration_source e) ttft (ev_time_to_first_token_source e)
    (ev_reasoning_tokens e) (ev_reasoning_included e).

Definition with_latency_sources (e : UsageEvent)
    (dsource : option LatencySource) (tsource : option LatencySource) : UsageEvent :=
  MkUsageEvent
    (ev_schema_version e) (ev_request_id e) (ev_occurred_at e) (ev_provider e) (ev_model e)
    (ev_backend e) (ev_virtual_key_id e) (ev_subject_id e) (ev_group_id e) (ev_route e)
    (ev_session_id e) (ev_idempotency_key e) (ev_run_id e) (ev_step_id e) (ev_parent_id e)
    (ev_trace_context e) (ev_tokens_in e) (ev_tokens_out e) (ev_cache_creation_tokens e)
    (ev_cache_read_tokens e) (ev_cache_read_observation e) (ev_usage_completeness e)
    (ev_usage_basis e) (ev_attempts e) (ev_outcome e) (ev_upstream_request_id e)
    (ev_gpu_seconds e) (ev_duration_ms e) dsource (ev_time_to_first_token_ms e) tsource
    (ev_reasoning_tokens e) (ev_reasoning_included e).

Definition with_reasoning (e : UsageEvent) (tokens : option Z) : UsageEvent :=
  MkUsageEvent
    (ev_schema_version e) (ev_request_id e) (ev_occurred_at e) (ev_provider e) (ev_model e)
    (ev_backend e) (ev_virtual_key_id e) (ev_subject_id e) (ev_group_id e) (ev_route e)
    (ev_session_id e) (ev_idempotency_key e) (ev_run_id e) (ev_step_id e) (ev_parent_id e)
    (ev_trace_context e) (ev_tokens_in e) (ev_tokens_out e) (ev_cache_creation_tokens e)
    (ev_cache_read_tokens e) (ev_cache_read_observation e) (ev_usage_completeness e)
    (ev_usage_basis e) (ev_attempts e) (ev_outcome e) (ev_upstream_request_id e)
    (ev_gpu_seconds e) (ev_duration_ms e) (ev_duration_source e) (ev_time_to_first_token_ms e)
    (ev_time_to_first_token_source e) tokens (ev_reasoning_included e).

Definition with_reasoning_included (e : UsageEvent) (included : option bool) : UsageEvent :=
  MkUsageEvent
    (ev_schema_version e) (ev_request_id e) (ev_occurred_at e) (ev_provider e) (ev_model e)
    (ev_backend e) (ev_virtual_key_id e) (ev_subject_id e) (ev_group_id e) (ev_route e)
    (ev_session_id e) (ev_idempotency_key e) (ev_run_id e) (ev_step_id e) (ev_parent_id e)
    (ev_trace_context e) (ev_tokens_in e) (ev_tokens_out e) (ev_cache_creation_tokens e)
    (ev_cache_read_tokens e) (ev_cache_read_observation e) (ev_usage_completeness e)
    (ev_usage_basis e) (ev_attempts e) (ev_outcome e) (ev_upstream_request_id e)
    (ev_gpu_seconds e) (ev_duration_ms e) (ev_duration_source e) (ev_time_to_first_token_ms e)
    (ev_time_to_first_token_source e) (ev_reasoning_tokens e) included.

Definition with_identity (e : UsageEvent)
    (idem : option string) (run : option string) (step : option string) (parent : option string) (trace : option string) : UsageEvent :=
  MkUsageEvent
    (ev_schema_version e) (ev_request_id e) (ev_occurred_at e) (ev_provider e) (ev_model e)
    (ev_backend e) (ev_virtual_key_id e) (ev_subject_id e) (ev_group_id e) (ev_route e)
    (ev_session_id e) idem run step parent trace (ev_tokens_in e) (ev_tokens_out e)
    (ev_cache_creation_tokens e) (ev_cache_read_tokens e) (ev_cache_read_observation e)
    (ev_usage_completeness e) (ev_usage_basis e) (ev_attempts e) (ev_outcome e)
    (ev_upstream_request_id e) (ev_gpu_seconds e) (ev_duration_ms e) (ev_duration_source e)
    (ev_time_to_first_token_ms e) (ev_time_to_first_token_source e) (ev_reasoning_tokens e)
    (ev_reasoning_included e).

Definition with_route (e : UsageEvent) (route : option string) : UsageEvent :=
  MkUsageEvent
    (ev_schema_version e) (ev_request_id e) (ev_occurred_at e) (ev_provider e) (ev_model e)
    (ev_backend e) (ev_virtual_key_id e) (ev_subject_id e) (ev_group_id e) route
    (ev_session_id e) (ev_idempotency_key e) (ev_run_id e) (ev_step_id e) (ev_parent_id e)
    (ev_trace_context e) (ev_tokens_in e) (ev_tokens_out e) (ev_cache_creation_tokens e)
    (ev_cache_read_tokens e) (ev_cache_read_observation e) (ev_usage_completeness e)
    (ev_usage_basis e) (ev_attempts e) (ev_outcome e) (ev_upstream_request_id e)
    (ev_gpu_seconds e) (ev_duration_ms e) (ev_duration_source e) (ev_time_to_first_token_ms e)
    (ev_time_to_first_token_source e) (ev_reasoning_tokens e) (ev_reasoning_included e).

Definition with_tokens (e : UsageEvent) (tin : Z) (tout : Z) : UsageEvent :=
  MkUsageEvent
    (ev_schema_version e) (ev_request_id e) (ev_occurred_at e) (ev_provider e) (ev_model e)
    (ev_backend e) (ev_virtual_key_id e) (ev_subject_id e) (ev_group_id e) (ev_route e)
    (ev_session_id e) (ev_idempotency_key e) (ev_run_id e) (ev_step_id e) (ev_parent_id e)
    (ev_trace_context e) tin tout (ev_cache_creation_tokens e) (ev_cache_read_tokens e)
    (ev_cache_read_observation e) (ev_usage_completeness e) (ev_usage_basis e) (ev_attempts e)
    (ev_outcome e) (ev_upstream_request_id e) (ev_gpu_seconds e) (ev_duration_ms e)
    (ev_duration_source e) (ev_time_to_first_token_ms e) (ev_time_to_first_token_source e)
    (ev_reasoning_tokens e) (ev_reasoning_included e).

Definition with_cache (e : UsageEvent) (creation : Z) (read : Z) : UsageEvent :=
  MkUsageEvent
    (ev_schema_version e) (ev_request_id e) (ev_occurred_at e) (ev_provider e) (ev_model e)
    (ev_backend e) (ev_virtual_key_id e) (ev_subject_id e) (ev_group_id e) (ev_route e)
    (ev_session_id e) (ev_idempotency_key e) (ev_run_id e) (ev_step_id e) (ev_parent_id e)
    (ev_trace_context e) (ev_tokens_in e) (ev_tokens_out e) creation read
    (ev_cache_read_observation e) (ev_usage_completeness e) (ev_usage_basis e) (ev_attempts e)
    (ev_outcome e) (ev_upstream_request_id e) (ev_gpu_seconds e) (ev_duration_ms e)
    (ev_duration_source e) (ev_time_to_first_token_ms e) (ev_time_to_first_token_source e)
    (ev_reasoning_tokens e) (ev_reasoning_included e).

Definition with_cache_read_observation (e : UsageEvent)
    (o : option CacheReadObservation) : UsageEvent :=
  MkUsageEvent
    (ev_schema_version e) (ev_request_id e) (ev_occurred_at e) (ev_provider e) (ev_model e)
    (ev_backend e) (ev_virtual_key_id e) (ev_subject_id e) (ev_group_id e) (ev_route e)
    (ev_session_id e) (ev_idempotency_key e) (ev_run_id e) (ev_step_id e) (ev_parent_id e)
    (ev_trace_context e) (ev_tokens_in e) (ev_tokens_out e) (ev_cache_creation_tokens e)
    (ev_cache_read_tokens e) (o ≫= validated) (ev_usage_completeness e) (ev_usage_basis e)
    (ev_attempts e) (ev_outcome e) (ev_upstream_request_id e) (ev_gpu_seconds e)
    (ev_duration_ms e) (ev_duration_source e) (ev_time_to_first_token_ms e)
    (ev_time_to_first_token_source e) (ev_reasoning_tokens e) (ev_reasoning_included e).

Definition with_measurement (e : UsageEvent)
    (c : UsageCompleteness) (n : Z) (out : option string) (upstream : option string) : UsageEvent :=
  MkUsageEvent
    (ev_schema_version e) (ev_request_id e) (ev_occurred_at e) (ev_provider e) (ev_model e)
    (ev_backend e) (ev_virtual_key_id e) (ev_subject_id e) (ev_group_id e) (ev_route e)
    (ev_session_id e) (ev_idempotency_key e) (ev_run_id e) (ev_step_id e) (ev_parent_id e)
    (ev_trace_context e) (ev_tokens_in e) (ev_tokens_out e) (ev_cache_creation_tokens e)
    (ev_cache_read_tokens e) (ev_cache_read_observation e) c (ev_usage_basis e) (Z.max n 1) out
    upstream (ev_gpu_seconds e) (ev_duration_ms e) (ev_duration_source e)
    (ev_time_to_first_token_ms e) (ev_time_to_first_token_source e) (ev_reasoning_tokens e)
    (ev_reasoning_included e).

Definition with_basis (e : UsageEvent) (b : UsageBasis) : UsageEvent :=
  MkUsageEvent
    (ev_schema_version e) (ev_request_id e) (ev_occurred_at e) (ev_provider e) (ev_model e)
    (ev_backend e) (ev_virtual_key_id e) (ev_subject_id e) (ev_group_id e) (ev_route e)
    (ev_session_id e) (ev_idempotency_key e) (ev_run_id e) (ev_step_id e) (ev_parent_id e)
    (ev_trace_context e) (ev_tokens_in e) (ev_tokens_out e) (ev_cache_creation_tokens e)
    (ev_cache_read_tokens e) (ev_cache_read_observation e) (ev_usage_completeness e) b
    (ev_attempts e) (ev_outcome e) (ev_upstream_request_id e) (ev_gpu_seconds e)
    (ev_duration_ms e) (ev_duration_source e) (ev_time_to_first_token_ms e)
    (ev_time_to_first_token_source e) (ev_reasoning_tokens e) (ev_reasoning_included e).

Definition with_gpu_seconds (e : UsageEvent) (g : option f64) : UsageEvent :=
  MkUsageEvent
    (ev_schema_version e) (ev_request_id e) (ev_occurred_at e) (ev_provider e) (ev_model e)
    (ev_backend e) (ev_virtual_key_id e) (ev_subject_id e) (ev_group_id e) (ev_route e)
    (ev_session_id e) (ev_idempotency_key e) (ev_run_id e) (ev_step_id e) (ev_parent_id e)
    (ev_trace_context e) (ev_tokens_in e) (ev_tokens_out e) (ev_cache_creation_tokens e)
    (ev_cache_read_tokens e) (ev_cache_read_observation e) (ev_usage_completeness e)
    (ev_usage_basis e) (ev_attempts e) (ev_outcome e) (ev_upstream_request_id e) g
    (ev_duration_ms e) (ev_duration_source e) (ev_time_to_first_token_ms e)
    (ev_time_to_first_token_source e) (ev_reasoning_tokens e) (ev_reasoning_included e).

(** ** Lemmas *)

(** The counts of a usage record are [u64]. *)
Record usage_ok (u : UsageV2) : Prop := {
  uo_in : in_u64 (u_tokens_in u); uo_out : in_u64 (u_tokens_out u);
  uo_creation : in_u64 (u_cache_creation u); uo_read : in_u64 (u_cache_read u);
  uo_reasoning : in_u64 (default 0 (u_reasoning u)) }.

Definition usage_ok_b (u : UsageV2) : bool :=
  forallb (fun z => (0 <=? z) && (z <=? u64_max))
    [u_tokens_in u; u_tokens_out u; u_cache_creation u; u_cache_read u; default 0 (u_reasoning u)].

Lemma usage_ok_b_spec u : usage_ok_b u = true -> usage_ok u.
Proof. unfold usage_ok_b. simpl. intros Hb. bools. split; ulia. Qed.

Lemma sat_sum a b : 0 <= a -> 0 <= b -> sat_add (Z.min a u64_max) b = Z.min (a + b) u64_max.
Proof. ulia. Qed.

Lemma unfolded_reasoning_bounds r o i : in_u64 r -> in_u64 (unfolded_reasoning r o i).
Proof. unfold unfolded_reasoning. destruct i as [[]|]; [ulia|done|]. destruct (_ <? _); ulia. Qed.

Lemma billable_parts_weighted_exact a b c d r i bp :
  in_u64 a -> in_u64 b -> in_u64 c -> in_u64 d -> in_u64 r -> 0 <= bp ->
  billable_parts_weighted a b c d r i bp =
  Z.min (a + b + scaled_cache_read c bp + d + unfolded_reasoning r d i) u64_max.
Proof.
  intros. pose proof (unfolded_reasoning_bounds r d i). unfold billable_parts_weighted.
  assert (0 <= scaled_cache_read c bp).
  { unfold scaled_cache_read. pose proof (Z.div_pos (c * bp) 10000). ulia. }
  ulia.
Qed.

Lemma scaled_cache_read_neutral c : in_u64 c -> scaled_cache_read c 10000 = c.
Proof. intros. unfold scaled_cache_read. rewrite Z.div_mul by done. ulia. Qed.

Lemma scaled_cache_read_mono c bp bp' :
  in_u64 c -> bp <= bp' -> scaled_cache_read c bp <= scaled_cache_read c bp'.
Proof.
  intros Hc Hb. unfold scaled_cache_read. enough (c * bp / 10000 <= c * bp' / 10000) by lia.
  apply Z.div_le_mono; [lia|]. unfold in_u64 in Hc. nia.
Qed.

Lemma billable_exact u :
  usage_ok u ->
  billable u = Z.min (u_tokens_in u + u_cache_creation u + u_cache_read u + u_tokens_out u
    + unfolded_reasoning (default 0 (u_reasoning u)) (u_tokens_out u) (u_reasoning_included u)) u64_max.
Proof.
  intros [Hi Ho Hc Hr Hre]. unfold billable, billable_parts_with_reasoning.
  rewrite <- (scaled_cache_read_neutral (u_cache_read u)) by done.
  apply (billable_parts_weighted_exact (u_tokens_in u) (u_cache_creation u) (u_cache_read u)
    (u_tokens_out u) (default 0 (u_reasoning u)) (u_reasoning_included u) 10000); done.
Qed.

(** ** Properties *)

(** C7: The charge of a call never wraps and the two cost bases agree.  For
    [u64] counts the weighted charge is the exact sum of fresh input,
    cache creation, scaled cache reads, output and separately billed
    reasoning, clamped at [u64::MAX]; at 10,000 basis points it is the
    neutral charge; and it is monotone in the weight. *)
Theorem billable_weighted_exact (u : UsageV2) (bp bp' : Z) :
  usage_ok u -> 0 <= bp <= bp' ->
  billable_weighted u bp =
    Z.min (u_tokens_in u + u_cache_creation u + scaled_cache_read (u_cache_read u) bp
           + u_tokens_out u + unfolded_reasoning (default 0 (u_reasoning u)) (u_tokens_out u)
                                (u_reasoning_included u)) u64_max /\
  billable_weighted u 10000 = billable u /\
  billable_weighted u bp <= billable_weighted u bp'.
Proof.
  intros [Hi Ho Hc Hr Hre] Hbp. unfold billable_weighted, billable.
  split; [apply billable_parts_weighted_exact; done || lia|]. split.
  - unfold billable_parts_weighted, billable_parts_with_reasoning.
    by rewrite scaled_cache_read_neutral.
  - rewrite !billable_parts_weighted_exact by (done || lia).
    pose proof (scaled_cache_read_mono (u_cache_read u) bp bp' Hr). lia.
Qed.

Definition usage_demo : UsageV2 :=
  MkUsage 10 5 3 1000 None None None (Some 7) None None None Final ProviderReported 1
    None None None None None None.

Lemma billable_weighted_exact_witness :
  billable_weighted usage_demo 1000 = 125 /\ billable_weighted usage_demo 10000 = 1025 /\
  billable_weighted usage_demo 1000 <= billable_weighted usage_demo 5000.
Proof.
  destruct (billable_weighted_exact usage_demo 1000 5000) as (H1 & H2 & H3);
    [by apply usage_ok_b_spec|lia|].
  split; [exact H1|]. split; [exact H2|exact H3].
Defined.
