(* ===== verification/Evidence.v ===== *)
(** Durable settlement evidence of [crates/sandhi-store/src/ledger]: the
    records and readers of [evidence.rs] and the dispatch fence of
    [evidence/dispatch.rs].  An execution intent binds an execution
    identity to a reservation; its fence says whether the request may have
    been sent; a terminal observation freezes the charge; a receipt records
    the settlement.

    The JSON codec of the usage record is generated by serde and is a
    parameter; the random bytes of [getrandom] and the wall clock are
    arguments. *)

From S2P Require Import Prelude Ledger Sql SqlLedger Usage.

(** ** Records *)

Record TerminalObservation := MkObservation {
  to_version : Z; to_execution_id : string; to_reservation_id : Z; to_scope : string;
  to_usage : UsageV2; to_frozen_charge : option Z; to_observed_at : Z }.

Record SettlementReceipt := MkReceipt {
  sr_receipt_id : string; sr_reservation_id : Z; sr_scope : string;
  sr_charged_tokens : Z; sr_settled_at : Z }.

Inductive SettlementOutcome :=
| Committed (r : SettlementReceipt)
| AlreadyCommitted (r : SettlementReceipt).

Inductive ObservationOutcome :=
| Recorded (o : TerminalObservation)
| AlreadyRecorded (o : TerminalObservation).

Record ClaimedSettlement := MkClaim {
  cl_receipt : SettlementReceipt; cl_claim_token : string; cl_lease_until : Z }.

Record ExecutionIntent := MkIntent { ei_execution_id : string; ei_reservation : Reservation }.

Inductive IntentAdmission :=
| IntentAdmitted (i : ExecutionIntent)
| IntentDenied (d : Denied).

Record PreDispatchClosure := MkClosure {
  pc_execution_id : string; pc_reservation_id : Z; pc_scope : string; pc_closed_at : Z }.

(** The permit carries the execution identity; only the transaction that
    moves the fence creates one. *)
Inductive DispatchOutcome :=
| Authorized_ (permit : string)
| MayHaveDispatched
| ClosedBeforeDispatch (c : PreDispatchClosure).

Inductive ClosureOutcome :=
| Closed_ (c : PreDispatchClosure)
| AlreadyClosed (c : PreDispatchClosure)
| ClosureMayHaveDispatched.

Inductive Fence :=
| FPrepared
| FAuthorized
| FClosed (c : PreDispatchClosure).

Inductive EvidenceError :=
| UnfencedIntent | DispatchNotAuthorized | InconsistentDispatch | ExpiredBeforeDispatch
| InvalidInput | IntentCapacity | MissingIntent | MissingObservation | UnresolvedObservation
| TrackedSettlementRequired | ConflictingObservation | AlreadySettled | CorruptObservation
| InconsistentSettlement | MissingReservation | WrongScope | ConflictingCharge
| LegacySettlement | InvalidShard | UnsupportedTrackedLedger | ShardPoisoned
| EntropyUnavailable
| Storage (e : SqlError).

#[export] Instance EvidenceError_eq_dec : EqDecision EvidenceError.
Proof. solve_decision. Defined.

Notation evM := (M EvidenceError).
Definition equery {A} (f : Db -> result SqlError A) : evM A := query Storage f.
Definition estmt {A} (f : Db -> result SqlError (A * Db)) : evM A := stmt Storage f.
Definition etransaction {A} (body : evM (A * bool)) : evM A := transaction Storage body.

(** The [?] on a [rusqlite::Result] inside an evidence operation. *)
Definition from_sql {A} (m : M SqlError A) : evM A := fun s =>
  let '(r, s') := m s in (map_err Storage r, s').

(** ** Identities and validation *)

Definition hex_digit (n : Z) : ascii :=
  ascii_of_N (Z.to_N (if n <? 10 then 48 + n else 87 + n)).

(** [write!(result, "{byte:02x}")] for each byte. *)
Fixpoint hex_string (bytes : list Z) : string :=
  match bytes with
  | [] => EmptyString
  | b :: bytes => String (hex_digit (b / 16)) (String (hex_digit (b mod 16)) (hex_string bytes))
  end.

(** The 32 random bytes, or [None] when the system has no entropy. *)
Definition Entropy : Type := option (list Z).

Definition opaque_id (e : Entropy) : result EvidenceError string :=
  bytes ← ok_or e EntropyUnavailable; Ok (hex_string bytes).

Definition is_ascii_hexdigit (c : ascii) : bool :=
  let n := N_of_ascii c in
  (((48 <=? n) && (n <=? 57)) || ((65 <=? n) && (n <=? 70)) || ((97 <=? n) && (n <=? 102)))%N.

Fixpoint string_all (p : ascii -> bool) (s : string) : bool :=
  match s with EmptyString => true | String c s => p c && string_all p s end.

Definition str_len (s : string) : Z := Z.of_nat (String.length s).

Definition validate_execution_id (execution_id : string) : result EvidenceError unit :=
  bail (negb (str_len execution_id =? 64) || negb (string_all is_ascii_hexdigit execution_id))
    InvalidInput.

Definition validate_scope (scope : string) : result EvidenceError unit :=
  bail ((str_len scope =? 0) || (4096 <? str_len scope)) InvalidInput.

(** [OffsetDateTime::from_unix_timestamp(t).is_err()]. *)
Definition timestamp_bad (t : Z) : bool := negb (instant_ok (seconds t)).

(** Reading an INTEGER column as [u64]. *)
Definition col_u64 (z : Z) : result SqlError Z := if 0 <=? z then Ok z else Err ConversionFailure.
Definition col_opt_u64 (o : option Z) : result SqlError (option Z) :=
  match o with None => Ok None | Some z => v ← col_u64 z; Ok (Some v) end.

(** The codec of [UsageV2]: [serde_json::to_string] and [from_str]. *)
Class UsageCodec := {
  usage_to_json : UsageV2 -> option string;
  usage_from_json : string -> option UsageV2 }.

Definition opt_len_exceeds (o : option string) (n : Z) : bool :=
  match o with Some v => n <? str_len v | None => false end.

Section Evidence.
Context `{UsageCodec}.

Definition encode_usage (u : UsageV2) : result EvidenceError string :=
  _ ← bail (opt_len_exceeds (u_outcome u) 256 || opt_len_exceeds (u_upstream_request_id u) 1024
            || match u_cache_obs u with Some v => bool_decide (validated v = None) | None => false end)
        InvalidInput;
  encoded ← ok_or (usage_to_json u) InvalidInput;
  _ ← bail (16384 <? str_len encoded) InvalidInput;
  Ok encoded.

(** ** Readers *)

(** The intent joined with its reservation: its id, scope and settled flag. *)
Definition intent_binding (execution_id : string) : evM (option (Z * string * bool)) :=
  binding ← equery (fun d => Ok (
    (fun i => (fun r => (ir_reservation_id i, rr_scope r, negb (rr_settled r =? 0)))
              <$> budget_reservation d !! ir_reservation_id i)
    <$> budget_execution_intent d !! execution_id));
  match binding with
  | Some (Some b) => mret (Some b)
  | Some None => throw CorruptObservation
  | None =>
      retained ← equery (fun d => Ok (bool_decide (is_Some (budget_terminal_observation d !! execution_id))));
      _ ← bail_if retained CorruptObservation;
      mret None
  end.

(** Decode a stored observation, refusing anything this version did not
    write: the stored text must be the canonical encoding of what it
    decodes to, and a charge is present exactly when usage is. *)
Definition decode_observation (execution_id : string) (reservation_id : Z) (scope : string)
    (version : Z) (encoded : option string) (frozen_charge : option Z) (observed_at : Z)
    : result EvidenceError TerminalObservation :=
  encoded ← ok_or encoded CorruptObservation;
  usage ← ok_or (usage_from_json encoded) CorruptObservation;
  reencoded ← (if version =? 1 then map_err (fun _ => CorruptObservation) (encode_usage usage)
               else Ok encoded);
  _ ← bail (negb (version =? 1) || negb (bool_decide (reencoded = encoded))
            || negb (Bool.eqb (bool_decide (u_completeness usage = Unavailable))
                              (bool_decide (frozen_charge = None)))) CorruptObservation;
  Ok (MkObservation version execution_id reservation_id scope usage frozen_charge observed_at).

Definition read_observation (execution_id : string) (reservation_id : Z) (scope : string)
    : evM (option TerminalObservation) :=
  row ← equery (fun d =>
    match budget_terminal_observation d !! execution_id with
    | None => Ok None
    | Some r =>
        charge ← col_opt_u64 (or_frozen_charge r);
        Ok (Some (or_version r,
                  if str_len (or_usage_json r) <=? 16384 then Some (or_usage_json r) else None,
                  charge, or_observed_at r))
    end);
  match row with
  | None => mret None
  | Some (version, encoded, frozen_charge, observed_at) =>
      o ← lift (decode_observation execution_id reservation_id scope version encoded
                  frozen_charge observed_at);
      mret (Some o)
  end.

(** The eligibility rule shared by recovery and settlement. *)
Definition terminal_charge (o : TerminalObservation) : result EvidenceError Z :=
  _ ← bail (negb (bool_decide (u_completeness (to_usage o) = Final))
            || negb (bool_decide (u_basis (to_usage o) = ProviderReported))) UnresolvedObservation;
  c ← ok_or (to_frozen_charge o) CorruptObservation;
  ok_or (try_i64 c) CorruptObservation.

(** The charge of an optional observation; an unresolved one has none. *)
Definition observed_charge (o : option TerminalObservation) : result EvidenceError (option Z) :=
  match o with
  | None => Ok None
  | Some o =>
      match terminal_charge o with
      | Ok c => Ok (Some c)
      | Err UnresolvedObservation => Ok None
      | Err e => Err e
      end
  end.

(** [SELECT .. FROM budget_settlement_outbox WHERE reservation_id = ?1];
    the column is UNIQUE. *)
Definition outbox_of (d : Db) (id : Z) : option (string * OutboxRow) :=
  head (map_to_list (filter (fun p => ob_reservation_id p.2 = id) (budget_settlement_outbox d))).

Definition receipt_row (p : string * OutboxRow) : result SqlError SettlementReceipt :=
  id ← col_u64 (ob_reservation_id p.2);
  charged ← col_u64 (ob_charged_tokens p.2);
  Ok (MkReceipt p.1 id (ob_scope p.2) charged (ob_settled_at p.2)).

(** The same columns with NULL for a receipt id of another length or a
    foreign scope, which do not read as text. *)
Definition guarded_receipt (scope : string) (p : string * OutboxRow)
    : result SqlError SettlementReceipt :=
  if (str_len p.1 =? 64) && bool_decide (ob_scope p.2 = scope)
  then receipt_row p else Err ConversionFailure.

Definition optional {A B} (f : A -> result SqlError B) (o : option A) : result SqlError (option B) :=
  match o with None => Ok None | Some a => b ← f a; Ok (Some b) end.

Definition checked_terminal_receipt (scope : string) (id : Z) (charge : option Z)
    : evM (option SettlementReceipt) :=
  row ← equery (fun d => ok_or (budget_reservation d !! id) QueryReturnedNoRows);
  stored ← equery (fun d => optional (guarded_receipt scope) (outbox_of d id));
  _ ← bail_if (negb (bool_decide (rr_scope row = scope))) WrongScope;
  match stored with
  | None =>
      if (rr_settled row =? 0) && (rr_actual row =? 0) && bool_decide (rr_settled_at row = None)
      then mret None
      else if rr_settled row =? 1 then throw LegacySettlement
      else throw InconsistentSettlement
  | Some r =>
      if (rr_settled row =? 1) && bool_decide (charge = Some (rr_actual row)) && (0 <=? rr_actual row)
         && (sr_charged_tokens r =? rr_actual row) && bool_decide (sr_scope r = scope)
         && (sr_reservation_id r =? id) && bool_decide (Some (sr_settled_at r) = rr_settled_at row)
         && is_ok (validate_execution_id (sr_receipt_id r))
      then mret (Some r)
      else throw InconsistentSettlement
  end.

(** Settle the row and append the receipt, in the caller's transaction. *)
Definition settle_receipt (scope : string) (id charge : Z) (ent : Entropy) (clock : Z)
    : evM SettlementOutcome :=
  existing ← equery (fun d => optional receipt_row (outbox_of d id));
  match existing with
  | Some e =>
      _ ← bail_if (negb (bool_decide (sr_scope e = scope))) WrongScope;
      _ ← bail_if (negb (sr_charged_tokens e =? charge)) ConflictingCharge;
      mret (AlreadyCommitted e)
  | None =>
      lease ← equery (fun d => Ok (budget_reservation d !! id));
      row ← lift (ok_or lease MissingReservation);
      _ ← bail_if (negb (bool_decide (rr_scope row = scope))) WrongScope;
      _ ← bail_if (negb (rr_settled row =? 0)) LegacySettlement;
      receipt_id ← lift (opaque_id ent);
      let settled_at := unix_timestamp clock in
      let receipt := MkReceipt receipt_id id (rr_scope row) charge settled_at in
      updated ← estmt (fun d => Ok (update_unsettled id (settle_row charge settled_at) d));
      _ ← bail_if (negb (updated =? 1)) (Storage QueryReturnedNoRows);
      _ ← estmt (fun d =>
            if bool_decide (budget_settlement_outbox d !! receipt_id = None)
               && bool_decide (outbox_of d id = None) && (0 <? id) && (0 <=? charge)
            then Ok (tt, set_outbox (<[receipt_id := MkOutboxRow id scope charge settled_at None None None]>
                           (budget_settlement_outbox d)) d)
            else Err ConstraintViolation);
      mret (Committed receipt)
  end.

Definition is_tracked (id : Z) : M SqlError bool := squery (fun d => Ok (is_tracked_id d id)).

(** ** The dispatch fence *)

Definition checked_fence (scope execution_id : string) (reservation_id : Z) : evM (option Fence) :=
  row ← equery (fun d => Ok (budget_dispatch_fence d !! execution_id));
  match row with
  | None => mret None
  | Some f =>
      _ ← bail_if (match fr_transitioned_at f with Some t => timestamp_bad t | None => false end)
            InconsistentDispatch;
      lease ← equery (fun d => Ok (budget_reservation d !! reservation_id));
      row ← lift (ok_or lease InconsistentDispatch);
      _ ← bail_if (negb (bool_decide (rr_scope row = scope))) WrongScope;
      observed ← read_observation execution_id reservation_id scope;
      has_receipt ← equery (fun d => Ok (bool_decide (is_Some (outbox_of d reservation_id))));
      match fr_transitioned_at f with
      | None =>
          if (fr_phase f =? 0) && (rr_settled row =? 0) && (rr_actual row =? 0)
             && bool_decide (rr_settled_at row = None) && negb (bool_decide (is_Some observed))
             && negb has_receipt
          then mret (Some FPrepared) else throw InconsistentDispatch
      | Some closed_at =>
          if fr_phase f =? 1 then
            charge ← lift (observed_charge observed);
            _ ← checked_terminal_receipt scope reservation_id charge;
            mret (Some FAuthorized)
          else if (fr_phase f =? 2) && (rr_settled row =? 1) && (rr_actual row =? 0)
                  && bool_decide (rr_settled_at row = Some closed_at)
                  && negb (bool_decide (is_Some observed)) && negb has_receipt
          then mret (Some (FClosed (MkClosure execution_id reservation_id scope closed_at)))
          else throw InconsistentDispatch
      end
  end.

Definition require_observable (scope execution_id : string) (reservation_id : Z) : evM unit :=
  f ← checked_fence scope execution_id reservation_id;
  match f with
  | None | Some FAuthorized => mret tt
  | _ => throw DispatchNotAuthorized
  end.

(** [UPDATE budget_dispatch_fence SET .. WHERE execution_id = ?1 AND phase = 0]. *)
Definition update_fence (execution_id : string) (phase now : Z) (d : Db) : Z * Db :=
  match budget_dispatch_fence d !! execution_id with
  | Some f => if fr_phase f =? 0
              then (1, set_fences (<[execution_id := MkFenceRow phase (Some now)]>
                                     (budget_dispatch_fence d)) d)
              else (0, d)
  | None => (0, d)
  end.

(** The one transition shared by authorization and closure. *)
Definition transition (scope execution_id : string) (authorize : bool) (clock : Z) : evM (Fence * bool) :=
  binding ← intent_binding execution_id;
  match binding with
  | None =>
      fenced ← equery (fun d => Ok (bool_decide (is_Some (budget_dispatch_fence d !! execution_id))));
      throw (if fenced : bool then InconsistentDispatch else MissingIntent)
  | Some (reservation_id, stored_scope, _) =>
      _ ← bail_if (negb (bool_decide (stored_scope = scope))) WrongScope;
      fence ← checked_fence scope execution_id reservation_id;
      fence ← lift (ok_or fence UnfencedIntent);
      match fence with
      | FPrepared =>
          let now := unix_timestamp clock in
          _ ← (if authorize then
                 expires_at ← equery (fun d => r ← ok_or (budget_reservation d !! reservation_id)
                                                      QueryReturnedNoRows; Ok (rr_expires_at r));
                 _ ← bail_if (timestamp_bad expires_at) InconsistentDispatch;
                 bail_if (expires_at <=? now) ExpiredBeforeDispatch
               else mret tt);
          changed ← estmt (fun d => Ok (update_fence execution_id (if authorize then 1 else 2) now d));
          _ ← bail_if (negb (changed =? 1)) InconsistentDispatch;
          if authorize then mret (FAuthorized, true)
          else
            changed ← estmt (fun d => Ok (update_unsettled reservation_id (settle_row 0 now) d));
            _ ← bail_if (negb (changed =? 1)) InconsistentDispatch;
            mret (FClosed (MkClosure execution_id reservation_id scope now), true)
      | f => mret (f, false)
      end
  end.

Definition authorize_dispatch_durable (scope execution_id : string) (clock : Z) : evM DispatchOutcome :=
  _ ← lift (validate_scope scope);
  _ ← lift (validate_execution_id execution_id);
  '(fence, changed) ← etransaction (r ← transition scope execution_id true clock; mret (r, true));
  match fence with
  | FAuthorized => mret (if changed : bool then Authorized_ execution_id else MayHaveDispatched)
  | FClosed value => mret (ClosedBeforeDispatch value)
  | FPrepared => throw InconsistentDispatch
  end.

Definition close_before_dispatch_durable (scope execution_id : string) (clock : Z) : evM ClosureOutcome :=
  _ ← lift (validate_scope scope);
  _ ← lift (validate_execution_id execution_id);
  '(fence, changed) ← etransaction (r ← transition scope execution_id false clock; mret (r, true));
  match fence with
  | FClosed value => mret (if changed : bool then Closed_ value else AlreadyClosed value)
  | FAuthorized => mret ClosureMayHaveDispatched
  | FPrepared => throw InconsistentDispatch
  end.
End Evidence.
