(* ===== verification/EvidenceOps.v ===== *)
(** The operations of [SqliteLedger] on settlement evidence
    ([crates/sandhi-store/src/ledger/evidence.rs]): tracked admission,
    terminal observation, settlement from the frozen charge, receipt
    delivery, and the recovery inventory. *)

From S2P Require Import Prelude Ledger Sql SqlLedger Usage Evidence.

(** ** Inventory records *)

Record RecoveryCursor := MkCursor { rc_scope : string; rc_after_id : Z; rc_through_id : Z }.

Inductive RecoveryState :=
| RPrepared
| RMayHaveDispatched
| RClosedBeforeDispatch (c : PreDispatchClosure)
| RMissingObservation
| RUnresolvedObservation
| RReadyToSettle
| RSettled (r : SettlementReceipt).

Record RecoveryEntry := MkEntry {
  re_execution_id : string; re_reservation_id : Z; re_state : RecoveryState }.

Record RecoveryPage := MkPage { rp_entries : list RecoveryEntry; rp_next : option RecoveryCursor }.

Record ScopeCursor := MkScopeCursor { sc_after : string; sc_through_id : Z }.
Record ScopePage := MkScopePage { scp_scopes : list string; scp_next : option ScopeCursor }.

(** ** Ordering of query results *)

Definition intent_le (a b : string * Z) : Prop := a.2 <= b.2.
#[export] Instance intent_le_dec a b : Decision (intent_le a b).
Proof. unfold intent_le. apply _. Defined.

(** [ORDER BY settled_at, receipt_id]. *)
Definition outbox_le (a b : string * OutboxRow) : Prop :=
  ob_settled_at a.2 < ob_settled_at b.2 \/
  (ob_settled_at a.2 = ob_settled_at b.2 /\ String.leb a.1 b.1 = true).
#[export] Instance outbox_le_dec a b : Decision (outbox_le a b).
Proof. unfold outbox_le. apply _. Defined.

(** [ORDER BY r.scope]: NULL sorts first. *)
Definition opt_scope_le (a b : option string) : Prop :=
  match a, b with
  | None, _ => True
  | Some _, None => False
  | Some a, Some b => String.leb a b = true
  end.
#[export] Instance opt_scope_le_dec a b : Decision (opt_scope_le a b).
Proof. destruct a, b; simpl; apply _. Defined.

Definition zmax_list (l : list Z) : Z := foldr Z.max 0 l.

Section Operations.
Context `{Calendar} `{UsageCodec}.

(** ** Tracked admission *)

Definition insert_intent (execution_id : string) (reservation_id created_at : Z) (d : Db)
    : result SqlError (unit * Db) :=
  if bool_decide (budget_execution_intent d !! execution_id = None)
     && negb (is_tracked_id d reservation_id) && (0 <? reservation_id)
  then Ok (tt, set_intents (<[execution_id := MkIntentRow reservation_id created_at]>
                              (budget_execution_intent d)) d)
  else Err ConstraintViolation.

Definition insert_fence (execution_id : string) (d : Db) : result SqlError (unit * Db) :=
  if bool_decide (budget_dispatch_fence d !! execution_id = None)
     && bool_decide (is_Some (budget_execution_intent d !! execution_id))
  then Ok (tt, set_fences (<[execution_id := MkFenceRow 0 None]> (budget_dispatch_fence d)) d)
  else Err ConstraintViolation.

Definition insert_correlation (execution_id request_id : string) (d : Db) : result SqlError (unit * Db) :=
  if bool_decide (budget_request_correlation d !! execution_id = None)
     && bool_decide (is_Some (budget_execution_intent d !! execution_id))
     && (1 <=? str_len request_id) && (str_len request_id <=? 4096)
  then Ok (tt, set_correlation (<[execution_id := request_id]> (budget_request_correlation d)) d)
  else Err ConstraintViolation.

Definition reserve_intent (scope : string) (ceiling now ttl retained_limit : Z) (prepared : bool)
    (request_id : option string) (ent : Entropy) : evM IntentAdmission :=
  _ ← bail_if (negb ((1 <=? retained_limit) && (retained_limit <=? 100000))
               || (str_len scope =? 0) || (4096 <? str_len scope) || (i64_max <? ceiling)
               || (ttl <=? 0) || bool_decide (instant_add now ttl = None)) InvalidInput;
  execution_id ← lift (opaque_id ent);
  etransaction (
    count ← equery (fun d => Ok (Z.of_nat (size (budget_execution_intent d))));
    _ ← bail_if (retained_limit <=? count) IntentCapacity;
    outcome ← from_sql (reserve_in_transaction scope ceiling now ttl);
    match outcome with
    | Denied_ d => mret (IntentDenied d, false)
    | Admitted_ reservation =>
        _ ← estmt (insert_intent execution_id (rsv_id reservation) (unix_timestamp now));
        _ ← (if prepared then estmt (insert_fence execution_id) else mret tt);
        _ ← match request_id with
            | Some request_id => estmt (insert_correlation execution_id request_id)
            | None => mret tt
            end;
        mret (IntentAdmitted (MkIntent execution_id reservation), true)
    end).

Definition reserve_with_intent_durable (scope : string) (ceiling now ttl retained_limit : Z)
    (ent : Entropy) : evM IntentAdmission :=
  reserve_intent scope ceiling now ttl retained_limit false None ent.

(** [is_file_backed] reads a property of the connection. *)
Definition require_file : evM unit := fun s =>
  if file_backed (st_db s) then (Ok tt, s) else (Err UnsupportedTrackedLedger, s).

Definition reserve_prepared_durable (scope : string) (ceiling now ttl retained_limit : Z)
    (ent : Entropy) : evM IntentAdmission :=
  _ ← require_file;
  reserve_intent scope ceiling now ttl retained_limit true None ent.

Definition reserve_correlated_durable (scope : string) (ceiling now ttl retained_limit : Z)
    (request_id : string) (ent : Entropy) : evM IntentAdmission :=
  _ ← require_file;
  _ ← bail_if ((str_len request_id =? 0) || (4096 <? str_len request_id)) InvalidInput;
  reserve_intent scope ceiling now ttl retained_limit true (Some request_id) ent.

Definition intent_durable (execution_id : string) : evM (option ExecutionIntent) :=
  _ ← lift (validate_execution_id execution_id);
  row ← equery (fun d =>
    match budget_execution_intent d !! execution_id with
    | None => Ok None
    | Some i =>
        match budget_reservation d !! ir_reservation_id i with
        | None => Ok None
        | Some r =>
            id ← col_u64 (ir_reservation_id i);
            ceiling ← col_u64 (rr_ceiling r);
            Ok (Some (id, rr_scope r, ceiling, rr_expires_at r))
        end
    end);
  match row with
  | None => mret None
  | Some (id, scope, ceiling, expires_at) =>
      _ ← bail_if (timestamp_bad expires_at) InvalidInput;
      mret (Some (MkIntent execution_id (MkReservation id scope ceiling (seconds expires_at))))
  end.

Definition request_id_durable (scope execution_id : string) : evM (option string) :=
  _ ← lift (validate_scope scope);
  intent ← intent_durable execution_id;
  intent ← lift (ok_or intent MissingIntent);
  _ ← bail_if (negb (bool_decide (rsv_scope (ei_reservation intent) = scope))) WrongScope;
  value ← equery (fun d => Ok (budget_request_correlation d !! execution_id));
  _ ← bail_if (match value with
               | Some v => (str_len v =? 0) || (4096 <? str_len v)
               | None => false
               end) CorruptObservation;
  mret value.

(** ** Observation and settlement *)

Definition record_terminal_durable (scope execution_id : string) (usage : UsageV2) (cache_read_bp : Z)
    (clock : Z) : evM ObservationOutcome :=
  _ ← lift (validate_scope scope);
  _ ← lift (validate_execution_id execution_id);
  encoded ← lift (encode_usage usage);
  etransaction (
    binding ← intent_binding execution_id;
    '(reservation_id, stored_scope, settled) ← lift (ok_or binding MissingIntent);
    _ ← bail_if (negb (bool_decide (stored_scope = scope))) WrongScope;
    _ ← require_observable scope execution_id reservation_id;
    original ← read_observation execution_id reservation_id scope;
    match original with
    | Some original =>
        _ ← bail_if (negb (bool_decide (to_usage original = usage))) ConflictingObservation;
        mret (AlreadyRecorded original, false)
    | None =>
        _ ← bail_if settled AlreadySettled;
        let frozen_charge := match u_completeness usage with
                             | Unavailable => None
                             | _ => Some (billable_weighted usage cache_read_bp)
                             end in
        charge ← lift (match frozen_charge with
                       | None => Ok None
                       | Some c => z ← ok_or (try_i64 c) InvalidInput; Ok (Some z)
                       end);
        let observed_at := unix_timestamp clock in
        _ ← estmt (fun d =>
              if bool_decide (budget_terminal_observation d !! execution_id = None)
                 && bool_decide (is_Some (budget_execution_intent d !! execution_id))
                 && (str_len encoded <=? 16384)
              then Ok (tt, set_observations (<[execution_id := MkObservationRow 1 encoded charge observed_at]>
                             (budget_terminal_observation d)) d)
              else Err ConstraintViolation);
        mret (Recorded (MkObservation 1 execution_id reservation_id stored_scope usage
                          frozen_charge observed_at), true)
    end).

Definition terminal_durable (scope execution_id : string) : evM (option TerminalObservation) :=
  _ ← lift (validate_scope scope);
  _ ← lift (validate_execution_id execution_id);
  binding ← intent_binding execution_id;
  match binding with
  | None => mret None
  | Some (reservation_id, stored_scope, _) =>
      _ ← bail_if (negb (bool_decide (stored_scope = scope))) WrongScope;
      read_observation execution_id reservation_id scope
  end.

Definition settle_terminal_durable (scope execution_id : string) (ent : Entropy) (clock : Z)
    : evM SettlementOutcome :=
  _ ← lift (validate_scope scope);
  _ ← lift (validate_execution_id execution_id);
  etransaction (
    binding ← intent_binding execution_id;
    '(reservation_id, stored_scope, _) ← lift (ok_or binding MissingIntent);
    _ ← bail_if (negb (bool_decide (stored_scope = scope))) WrongScope;
    _ ← require_observable scope execution_id reservation_id;
    observed ← read_observation execution_id reservation_id stored_scope;
    observed ← lift (ok_or observed MissingObservation);
    id ← lift (ok_or (try_i64 reservation_id) CorruptObservation);
    charge ← lift (terminal_charge observed);
    _ ← checked_terminal_receipt scope reservation_id (Some charge);
    outcome ← settle_receipt scope id charge ent clock;
    mret (outcome, true)).

(** Settlement of an untracked lease with a caller's charge. *)
Definition settle_with_evidence_durable (scope : string) (reservation_id charged_tokens : Z)
    (ent : Entropy) (clock : Z) : evM SettlementOutcome :=
  id ← lift (ok_or (try_i64 reservation_id) InvalidInput);
  charge ← lift (ok_or (try_i64 charged_tokens) InvalidInput);
  _ ← bail_if (id <=? 0) InvalidInput;
  etransaction (
    tracked ← from_sql (is_tracked id);
    _ ← bail_if tracked TrackedSettlementRequired;
    outcome ← settle_receipt scope id charge ent clock;
    mret (outcome, true)).

(** ** Receipt delivery *)

Definition pending (now : Z) (p : string * OutboxRow) : bool :=
  bool_decide (ob_acknowledged_at p.2 = None)
  && match ob_claim_until p.2 with None => true | Some t => t <=? now end.

Definition update_claim (receipt_id token : string) (until : Z) (d : Db) : Z * Db :=
  match budget_settlement_outbox d !! receipt_id with
  | Some o => (1, set_outbox (<[receipt_id := MkOutboxRow (ob_reservation_id o) (ob_scope o)
                     (ob_charged_tokens o) (ob_settled_at o) (Some token) (Some until)
                     (ob_acknowledged_at o)]> (budget_settlement_outbox d)) d)
  | None => (0, d)
  end.

(** The loop over the pending receipts, with the random bytes of each
    token. *)
Fixpoint claim_loop (rs : list SettlementReceipt) (ents : list Entropy) (until : Z)
    : evM (list ClaimedSettlement) :=
  match rs with
  | [] => mret []
  | r :: rs =>
      token ← lift (opaque_id (default None (head ents)));
      updated ← estmt (fun d => Ok (update_claim (sr_receipt_id r) token until d));
      _ ← bail_if (negb (updated =? 1)) (Storage QueryReturnedNoRows);
      claims ← claim_loop rs (tail ents) until;
      mret (MkClaim r token until :: claims)
  end.

Fixpoint collect_rows {A B} (f : A -> result SqlError B) (l : list A) : result SqlError (list B) :=
  match l with
  | [] => Ok []
  | a :: l => b ← f a; bs ← collect_rows f l; Ok (b :: bs)
  end.

Definition pending_receipts (now limit : Z) (d : Db) : result SqlError (list SettlementReceipt) :=
  collect_rows receipt_row (take (Z.to_nat limit) (merge_sort outbox_le
    (map_to_list (filter (fun p => pending now p = true) (budget_settlement_outbox d))))).

(** [now.checked_add(lease_seconds)] cannot overflow: an instant is within
    years, far from the ends of [i64]. *)
Definition claim_settlements_durable (limit now lease_seconds : Z) (ents : list Entropy)
    : evM (list ClaimedSettlement) :=
  _ ← bail_if (negb ((1 <=? limit) && (limit <=? 1000))
               || negb ((1 <=? lease_seconds) && (lease_seconds <=? 3600))) InvalidInput;
  let now := unix_timestamp now in
  _ ← bail_if (i64_max <? now + lease_seconds) InvalidInput;
  let until := now + lease_seconds in
  etransaction (
    rs ← equery (pending_receipts now limit);
    claims ← claim_loop rs ents until;
    mret (claims, true)).

Definition acknowledge_settlement_durable (receipt_id claim_token : string) (now : Z) : evM bool :=
  let now := unix_timestamp now in
  n ← estmt (fun d => Ok (
    match budget_settlement_outbox d !! receipt_id with
    | Some o =>
        if bool_decide (ob_claim_token o = Some claim_token)
           && match ob_claim_until o with Some t => now <? t | None => false end
           && bool_decide (ob_acknowledged_at o = None)
        then (1, set_outbox (<[receipt_id := MkOutboxRow (ob_reservation_id o) (ob_scope o)
                    (ob_charged_tokens o) (ob_settled_at o) (ob_claim_token o) (ob_claim_until o)
                    (Some now)]> (budget_settlement_outbox d)) d)
        else (0, d)
    | None => (0, d)
    end));
  mret (n =? 1).

(** ** Recovery inventory *)

Definition orphaned (d : Db) : bool :=
  negb (bool_decide (filter (fun p => budget_reservation d !! ir_reservation_id p.2 = None)
                       (budget_execution_intent d) = ∅))
  || negb (bool_decide (filter (fun p => budget_execution_intent d !! p.1 = None)
                          (budget_terminal_observation d) = ∅))
  || negb (bool_decide (filter (fun p => budget_execution_intent d !! p.1 = None)
                          (budget_dispatch_fence d) = ∅)).

(** The intents of a scope, by execution and reservation identity. *)
Definition scoped_intents (scope : string) (d : Db) : list (string * Z) :=
  omap (fun p => r ← budget_reservation d !! ir_reservation_id p.2;
                 if decide (rr_scope r = scope) then Some (p.1, ir_reservation_id p.2) else None)
    (map_to_list (budget_execution_intent d)).

(** The state of one tracked execution, read in the page's transaction. *)
Definition recovery_entry (scope : string) (p : string * Z) : evM RecoveryEntry :=
  let '(execution_id, reservation_id) := p in
  _ ← lift (if str_len execution_id =? 64 then Ok tt else Err CorruptObservation);
  _ ← lift (map_err (fun _ => CorruptObservation) (validate_execution_id execution_id));
  fence ← checked_fence scope execution_id reservation_id;
  match fence with
  | Some FPrepared => mret (MkEntry execution_id reservation_id RPrepared)
  | Some (FClosed c) => mret (MkEntry execution_id reservation_id (RClosedBeforeDispatch c))
  | _ =>
      observed ← read_observation execution_id reservation_id scope;
      charge ← lift (observed_charge observed);
      receipt ← checked_terminal_receipt scope reservation_id charge;
      let state := match receipt, observed, charge with
                   | Some r, _, _ => RSettled r
                   | None, None, _ => if bool_decide (is_Some fence) then RMayHaveDispatched
                                      else RMissingObservation
                   | None, Some _, None => RUnresolvedObservation
                   | None, Some _, Some _ => RReadyToSettle
                   end in
      mret (MkEntry execution_id reservation_id state)
  end.

Fixpoint recovery_entries (scope : string) (rows : list (string * Z)) : evM (list RecoveryEntry) :=
  match rows with
  | [] => mret []
  | p :: rows => e ← recovery_entry scope p; es ← recovery_entries scope rows; mret (e :: es)
  end.

Definition recovery_page_durable (scope : string) (cursor : option RecoveryCursor) (limit : Z)
    : evM RecoveryPage :=
  _ ← lift (validate_scope scope);
  _ ← bail_if (negb ((1 <=? limit) && (limit <=? 100))) InvalidInput;
  _ ← match cursor with
      | None => mret tt
      | Some c =>
          _ ← bail_if (negb (bool_decide (rc_scope c = scope))) WrongScope;
          bail_if ((rc_after_id c =? 0) || (rc_through_id c <? rc_after_id c)
                   || (i64_max <? rc_through_id c)) InvalidInput
      end;
  etransaction (
    orphan ← equery (fun d => Ok (orphaned d));
    _ ← bail_if orphan CorruptObservation;
    '(after_id, through_id) ←
      match cursor with
      | Some c => mret (rc_after_id c, rc_through_id c)
      | None => m ← equery (fun d => Ok (zmax_list (scoped_intents scope d).*2)); mret (0, m)
      end;
    rows ← equery (fun d => Ok (take (Z.to_nat (limit + 1)) (merge_sort intent_le
             (filter (fun p => after_id < p.2 <= through_id) (scoped_intents scope d)))));
    let has_more := limit <? Z.of_nat (length rows) in
    entries ← recovery_entries scope (take (Z.to_nat limit) rows);
    let next := if has_more
                then (fun e => MkCursor scope (re_reservation_id e) through_id) <$> last entries
                else None in
    mret (MkPage entries next, true)).

(** The scope of every retained intent; [None] is a missing reservation. *)
Definition intent_scopes (through_id : Z) (after : string) (d : Db) : list (option string) :=
  remove_dups (filter (fun s => match s with None => true | Some s => String.ltb after s end = true)
    ((fun p => rr_scope <$> budget_reservation d !! ir_reservation_id p.2)
     <$> filter (fun p => ir_reservation_id p.2 <= through_id)
           (map_to_list (budget_execution_intent d)))).

Fixpoint present_scopes (l : list (option string)) : result EvidenceError (list string) :=
  match l with
  | [] => Ok []
  | s :: l => s ← ok_or s MissingReservation; l ← present_scopes l; Ok (s :: l)
  end.

Fixpoint validate_scopes (l : list string) : result EvidenceError unit :=
  match l with [] => Ok tt | s :: l => _ ← validate_scope s; validate_scopes l end.

Definition recovery_scopes_durable (cursor : option ScopeCursor) (limit : Z) : evM ScopePage :=
  _ ← bail_if (negb ((1 <=? limit) && (limit <=? 100))) InvalidInput;
  etransaction (
    through_id ← match cursor with
                 | Some c => mret (sc_through_id c)
                 | None => equery (fun d => Ok (zmax_list ((fun p => ir_reservation_id p.2)
                             <$> map_to_list (budget_execution_intent d))))
                 end;
    let after := match cursor with Some c => sc_after c | None => EmptyString end in
    rows ← equery (fun d => Ok (take (Z.to_nat limit)
             (merge_sort opt_scope_le (intent_scopes through_id after d))));
    scopes ← lift (present_scopes rows);
    _ ← lift (validate_scopes scopes);
    let next := if Z.of_nat (length scopes) =? limit
                then (fun s => MkScopeCursor s through_id) <$> last scopes else None in
    mret (MkScopePage scopes next, true)).
End Operations.
