(* ===== verification/EvidenceInv.v ===== *)
(** What every operation of the durable ledger preserves, wherever storage
    fails: the invariant [db_inv] of the tables and the relation [evolves]
    between an earlier and a later state of the database.  Proved by one
    rule per monad connective and one lemma per statement. *)

From S2P Require Import Prelude Ledger Sql SqlLedger Usage Evidence EvidenceOps.

(** ** The invariant *)

Record db_inv (d : Db) : Prop := {
  inv_ids : forall i r, budget_reservation d !! i = Some r -> i <= reservation_seq d;
  inv_intents : forall e1 e2 i1 i2,
    budget_execution_intent d !! e1 = Some i1 -> budget_execution_intent d !! e2 = Some i2 ->
    ir_reservation_id i1 = ir_reservation_id i2 -> e1 = e2;
  inv_outbox : forall k1 k2 o1 o2,
    budget_settlement_outbox d !! k1 = Some o1 -> budget_settlement_outbox d !! k2 = Some o2 ->
    ob_reservation_id o1 = ob_reservation_id o2 -> k1 = k2;
  (* a receipt is the settlement of its reservation, at the same charge *)
  inv_receipts : forall k o, budget_settlement_outbox d !! k = Some o ->
    exists r, budget_reservation d !! ob_reservation_id o = Some r /\ rr_settled r = 1 /\
      rr_actual r = ob_charged_tokens o /\ rr_settled_at r = Some (ob_settled_at o) /\
      rr_scope r = ob_scope o;
  inv_fences : forall e f, budget_dispatch_fence d !! e = Some f ->
    is_Some (budget_execution_intent d !! e) }.

(** ** Evolution *)

(** The immutable columns of a receipt; an acknowledged row is final. *)
Definition receipt_kept (o o' : OutboxRow) : Prop :=
  ob_reservation_id o' = ob_reservation_id o /\ ob_scope o' = ob_scope o /\
  ob_charged_tokens o' = ob_charged_tokens o /\ ob_settled_at o' = ob_settled_at o /\
  (is_Some (ob_acknowledged_at o) -> ob_acknowledged_at o' = ob_acknowledged_at o).

(** A lease keeps its terms and, once settled, everything. *)
Definition lease_kept (r r' : ReservationRow) : Prop :=
  rr_scope r' = rr_scope r /\ rr_ceiling r' = rr_ceiling r /\ rr_expires_at r' = rr_expires_at r /\
  (rr_settled r <> 0 -> r' = r).

Record evolves (d d' : Db) : Prop := {
  evo_seq : reservation_seq d <= reservation_seq d';
  evo_intents : budget_execution_intent d ⊆ budget_execution_intent d';
  evo_observations : budget_terminal_observation d ⊆ budget_terminal_observation d';
  evo_fences : forall e f, budget_dispatch_fence d !! e = Some f ->
    exists f', budget_dispatch_fence d' !! e = Some f' /\ (fr_phase f <> 0 -> f' = f);
  evo_settled : forall i r, budget_reservation d !! i = Some r -> rr_settled r <> 0 ->
    budget_reservation d' !! i = Some r;
  evo_tracked : forall i r, budget_reservation d !! i = Some r -> is_tracked_id d i = true ->
    exists r', budget_reservation d' !! i = Some r' /\ lease_kept r r';
  evo_outbox : forall k o, budget_settlement_outbox d !! k = Some o ->
    exists o', budget_settlement_outbox d' !! k = Some o' /\ receipt_kept o o';
  evo_kind : file_backed d' = file_backed d }.

Lemma tracked_spec d id :
  is_tracked_id d id = true <->
  exists e i, budget_execution_intent d !! e = Some i /\ ir_reservation_id i = id.
Proof.
  unfold is_tracked_id. rewrite negb_true_iff, bool_decide_eq_false. split.
  - intros (e & i & [Hi Hr]%map_lookup_filter_Some)%map_choose. eauto.
  - intros (e & i & Hi & Hr) Hemp. apply map_empty_filter_1 in Hemp. by apply (Hemp e i Hi).
Qed.

Lemma tracked_mono d d' id :
  budget_execution_intent d ⊆ budget_execution_intent d' ->
  is_tracked_id d id = true -> is_tracked_id d' id = true.
Proof.
  rewrite !tracked_spec. intros Hsub (e & i & Hi & Hr). exists e, i.
  split; [by eapply lookup_weaken|done].
Qed.

Lemma lease_kept_refl r : lease_kept r r.
Proof. by split. Qed.

Lemma lease_kept_trans r1 r2 r3 : lease_kept r1 r2 -> lease_kept r2 r3 -> lease_kept r1 r3.
Proof.
  intros (A1 & A2 & A3 & A4) (B1 & B2 & B3 & B4). repeat split; try congruence.
  intros Hs. specialize (A4 Hs). subst r2. auto.
Qed.

Lemma receipt_kept_refl o : receipt_kept o o.
Proof. by repeat split. Qed.

Lemma receipt_kept_trans o1 o2 o3 : receipt_kept o1 o2 -> receipt_kept o2 o3 -> receipt_kept o1 o3.
Proof.
  intros (A1 & A2 & A3 & A4 & A5) (B1 & B2 & B3 & B4 & B5). repeat split; try congruence.
  intros Hs. rewrite <- (A5 Hs). apply B5. by rewrite (A5 Hs).
Qed.

#[export] Instance evolves_preorder : PreOrder evolves.
Proof.
  split.
  - intros d. split; try done; eauto using lease_kept_refl, receipt_kept_refl.
  - intros d1 d2 d3 [A1 A2 A3 A4 A5 A6 A7 A8] [B1 B2 B3 B4 B5 B6 B7 B8].
    split; [lia|by etransitivity|by etransitivity|..].
    + intros e f Hf. apply A4 in Hf as (f2 & Hf2 & H2). pose proof Hf2 as Hf3.
      apply B4 in Hf3 as (f3 & Hf3 & H3). exists f3. split; [done|].
      intros Hp. specialize (H2 Hp). subst f2. auto.
    + eauto.
    + intros i r Hr Ht. destruct (A6 _ _ Hr Ht) as (r2 & Hr2 & K2).
      destruct (B6 _ _ Hr2 (tracked_mono _ _ _ A2 Ht)) as (r3 & Hr3 & K3).
      eauto using lease_kept_trans.
    + intros k o Ho. destruct (A7 _ _ Ho) as (o2 & Ho2 & K2). destruct (B7 _ _ Ho2) as (o3 & Ho3 & K3).
      eauto using receipt_kept_trans.
    + congruence.
Qed.

(** One step of the database: from a state satisfying the invariant, to one
    that does, by an evolution. *)
Definition steps_to (d d' : Db) : Prop := db_inv d -> db_inv d' /\ evolves d d'.

#[export] Instance steps_to_preorder : PreOrder steps_to.
Proof.
  split.
  - intros d Hd. by split.
  - intros d1 d2 d3 H12 H23 H1. destruct (H12 H1) as [H2 E12]. destruct (H23 H2) as [H3 E23].
    split; [done|by etransitivity].
Qed.

(** ** Rules for programs

    [keeps R m]: however [m] ends, the tables before and after are related
    by [R].  [keeps_ok R m]: when it succeeds; enough inside a transaction,
    which undoes a failed body. *)
Definition keeps {E A} (R : Db -> Db -> Prop) (m : M E A) : Prop :=
  forall s r s', m s = (r, s') -> R (st_db s) (st_db s').
Definition keeps_ok {E A} (R : Db -> Db -> Prop) (m : M E A) : Prop :=
  forall s a s', m s = (Ok a, s') -> R (st_db s) (st_db s').

Section Rules.
Context (R : Db -> Db -> Prop) `{!PreOrder R}.

Lemma keeps_keeps_ok {E A} (m : M E A) : keeps R m -> keeps_ok R m.
Proof using Type. intros Hm s a s'. apply Hm. Qed.

Lemma keeps_ret {E A} (a : A) : keeps R (mret a : M E A).
Proof. intros s r s' Hr. by injection Hr as <- <-. Qed.
Lemma keeps_throw {E A} (e : E) : keeps R (throw e : M E A).
Proof. intros s r s' Hr. by injection Hr as <- <-. Qed.
Lemma keeps_lift {E A} (x : result E A) : keeps R (lift x).
Proof. intros s r s' Hr. by injection Hr as <- <-. Qed.
Lemma keeps_bail {E} c (e : E) : keeps R (bail_if c e).
Proof. destruct c; [apply keeps_throw|apply keeps_ret]. Qed.

Lemma keeps_bind {E A B} (m : M E A) (k : A -> M E B) :
  keeps R m -> (forall a, keeps R (k a)) -> keeps R (m ≫= k).
Proof.
  intros Hm Hk s r s' Hr. unfold mbind, M_bind in Hr.
  destruct (m s) as [[a|e] s1] eqn:Em.
  - etransitivity; [eapply Hm, Em|eapply Hk, Hr].
  - injection Hr as <- <-. eapply Hm, Em.
Qed.

Lemma keeps_ok_bind {E A B} (m : M E A) (k : A -> M E B) :
  keeps_ok R m -> (forall a, keeps_ok R (k a)) -> keeps_ok R (m ≫= k).
Proof.
  intros Hm Hk s b s' (a & s1 & H1 & H2)%M_bind_ok.
  etransitivity; [eapply Hm, H1|eapply Hk, H2].
Qed.

Lemma keeps_query {E} (sql : SqlError -> E) {A} (f : Db -> result SqlError A) : keeps R (query sql f).
Proof.
  intros s [a|e] s' Hr.
  - by apply query_ok in Hr as [_ ->].
  - by apply stmt_err in Hr as ->.
Qed.

Lemma keeps_stmt {E} (sql : SqlError -> E) {A} (f : Db -> result SqlError (A * Db)) :
  (forall d a d', f d = Ok (a, d') -> R d d') -> keeps R (stmt sql f).
Proof.
  intros Hf s [a|e] s' Hr.
  - apply stmt_ok in Hr. eauto.
  - by apply stmt_err in Hr as ->.
Qed.

Lemma keeps_transaction {E} (sql : SqlError -> E) {A} (body : M E (A * bool)) :
  keeps_ok R body -> keeps R (transaction sql body).
Proof.
  intros Hb s [a|e] s' Hr.
  - apply transaction_ok in Hr as (s0 & s1 & c & H0 & H1 & H2). rewrite H2, <- H0.
    destruct c; [eapply Hb, H1|done].
  - apply transaction_err in Hr as [->|(s0 & s1 & a & H0 & H1 & H2)]; [done|].
    rewrite H2, <- H0. eapply Hb, H1.
Qed.

Lemma keeps_from_sql {A} (m : M SqlError A) : keeps R m -> keeps R (from_sql m).
Proof using Type.
  intros Hm s r s' Hr. unfold from_sql in Hr. destruct (m s) as [r1 s1] eqn:Em.
  injection Hr as <- <-. eapply Hm, Em.
Qed.
End Rules.

(** Database of the operations known to keep a relation. *)
Create HintDb keeps.

(** Descend through binds, pairs and matches of a program. *)
Ltac keeps :=
  repeat first
    [ progress intros
    | apply (keeps_ret _) | apply (keeps_throw _) | apply (keeps_lift _) | apply (keeps_bail _)
    | apply (keeps_query _) | apply (keeps_from_sql _) | solve [eauto with keeps]
    | apply (keeps_bind _) | apply (keeps_transaction _), keeps_keeps_ok
    | match goal with |- keeps _ (match ?x with _ => _ end) => destruct x end ].

(** ** One lemma per statement *)

(** Tables the invariant does not mention. *)
Lemma steps_to_frame d d' :
  budget_reservation d' = budget_reservation d -> reservation_seq d' = reservation_seq d ->
  budget_execution_intent d' = budget_execution_intent d ->
  budget_dispatch_fence d' = budget_dispatch_fence d ->
  budget_settlement_outbox d' = budget_settlement_outbox d ->
  budget_terminal_observation d' = budget_terminal_observation d ->
  file_backed d' = file_backed d -> steps_to d d'.
Proof.
  intros E1 E2 E3 E4 E5 E6 E7 []. split; split; rewrite ?E1, ?E2, ?E3, ?E4, ?E5, ?E6; try done;
    eauto using lease_kept_refl, receipt_kept_refl.
Qed.

(** A change of the reservation table alone that keeps settled and tracked
    rows, with the counter above every row. *)
Lemma steps_to_reservations d t n :
  reservation_seq d <= n ->
  (db_inv d -> forall i r, t !! i = Some r -> i <= n) ->
  (db_inv d -> forall i r, budget_reservation d !! i = Some r -> rr_settled r <> 0 -> t !! i = Some r) ->
  (db_inv d -> forall i r, budget_reservation d !! i = Some r -> is_tracked_id d i = true ->
     exists r', t !! i = Some r' /\ lease_kept r r') ->
  steps_to d (set_seq n (set_reservations t d)).
Proof.
  intros Hn Hids Hset Htr Hinv. split.
  - pose proof Hinv as [I1 I2 I3 I4 I5]. split; simpl; try done; [by apply Hids|].
    intros k o Ho. destruct (I4 _ _ Ho) as (r & Hr & Hs & Hrest). exists r.
    split; [apply Hset; [done|done|congruence]|done].
  - split; simpl; try done; eauto using receipt_kept_refl.
Qed.

Lemma set_seq_id d t : set_seq (reservation_seq d) (set_reservations t d) = set_reservations t d.
Proof. by destruct d. Qed.

Lemma delete_reservations_steps d p :
  (forall i r, p i r = true -> rr_settled r = 0 /\ is_tracked_id d i = false) ->
  steps_to d (delete_reservations p d).2.
Proof.
  intros Hp. unfold delete_reservations. simpl. rewrite <- set_seq_id.
  assert (Hl : forall i r, budget_reservation d !! i = Some r -> p i r = false ->
    filter (fun x => p x.1 x.2 = false) (budget_reservation d) !! i = Some r).
  { intros i r Hr Hf. by apply map_lookup_filter_Some. }
  apply steps_to_reservations; [done|..].
  - intros [I1 _ _ _ _] i r [Hr _]%map_lookup_filter_Some. eauto.
  - intros _ i r Hr Hs. apply Hl; [done|]. destruct (p i r) eqn:E; [|done].
    apply Hp in E as [E _]. congruence.
  - intros _ i r Hr Ht. exists r. split; [|apply lease_kept_refl]. apply Hl; [done|].
    destruct (p i r) eqn:E; [|done]. apply Hp in E as [_ E]. congruence.
Qed.

Lemma reclaimable_spec d now i r :
  reclaimable d now i r = true -> rr_settled r = 0 /\ is_tracked_id d i = false.
Proof. unfold reclaimable. intros Hr. bools. split; [lia|done]. Qed.

Lemma insert_reservation_steps scope ceiling e d id d' :
  insert_reservation scope ceiling e d = Ok (id, d') -> steps_to d d'.
Proof.
  unfold insert_reservation. destruct (_ <? _); [|done]. injection 1 as <- <-.
  apply steps_to_reservations; [lia|..].
  - intros [I1 _ _ _ _] i r [[<- _]|[_ Hr]]%lookup_insert_Some; [done|]. apply I1 in Hr. lia.
  - intros [I1 _ _ _ _] i r Hr Hs. rewrite lookup_insert_ne; [done|]. apply I1 in Hr. lia.
  - intros [I1 _ _ _ _] i r Hr Ht. exists r. split; [|apply lease_kept_refl].
    rewrite lookup_insert_ne; [done|]. apply I1 in Hr. lia.
Qed.

(** Settling an unsettled row keeps the terms of the lease. *)
Lemma update_unsettled_steps id actual at_ d n d' :
  update_unsettled id (settle_row actual at_) d = (n, d') -> steps_to d d'.
Proof.
  unfold update_unsettled. destruct (budget_reservation d !! id) as [r|] eqn:Hr;
    [|by injection 1 as <- <-]. destruct (rr_settled r =? 0) eqn:Hz; injection 1 as <- <-; [|done].
  rewrite <- set_seq_id. apply steps_to_reservations; [done|..].
  - intros [I1 _ _ _ _] i x [[<- _]|[_ Hx]]%lookup_insert_Some; eauto.
  - intros _ i x Hx Hs. rewrite lookup_insert_ne; [done|]. intros ->. assert (x = r) by congruence.
    subst. lia.
  - intros _ i x Hx _. destruct (decide (id = i)) as [<-|Hne].
    + exists (settle_row actual at_ r). rewrite lookup_insert_eq. split; [done|].
      assert (x = r) by congruence. subst. repeat split; try done. simpl. lia.
    + exists x. rewrite lookup_insert_ne by done. split; [done|apply lease_kept_refl].
Qed.

Lemma insert_intent_steps e rid at_ d u d' :
  insert_intent e rid at_ d = Ok (u, d') -> steps_to d d'.
Proof.
  unfold insert_intent. destruct (_ && _) eqn:Hb; [|done]. injection 1 as _ <-. bools.
  match goal with H : bool_decide _ = true |- _ => apply bool_decide_eq_true in H as Hn end.
  assert (Hfresh : forall e' i', budget_execution_intent d !! e' = Some i' ->
    ir_reservation_id i' <> rid).
  { intros e' i' Hi' Heq. assert (is_tracked_id d rid = true) by (apply tracked_spec; eauto).
    congruence. }
  intros [I1 I2 I3 I4 I5]. split; split; simpl; try done.
  - intros e1 e2 i1 i2 [[<- <-]|[_ Hx1]]%lookup_insert_Some [[<- <-]|[_ Hx2]]%lookup_insert_Some;
      simpl; intros Heq; [done|..].
    + by destruct (Hfresh _ _ Hx2).
    + by destruct (Hfresh _ _ Hx1).
    + eauto.
  - intros e' f Hf. apply I5 in Hf as [i Hi]. destruct (decide (e = e')) as [<-|Hne].
    + rewrite lookup_insert_eq. eauto.
    + rewrite lookup_insert_ne by done. eauto.
  - by apply insert_subseteq.
  - eauto.
  - intros i r Hr _. exists r. split; [done|apply lease_kept_refl].
  - intros k o Ho. exists o. split; [done|apply receipt_kept_refl].
Qed.

Lemma insert_fence_steps e d u d' : insert_fence e d = Ok (u, d') -> steps_to d d'.
Proof.
  unfold insert_fence. destruct (_ && _) eqn:Hb; [|done]. injection 1 as _ <-.
  apply andb_true_iff in Hb as [Hn%bool_decide_eq_true Hi%bool_decide_eq_true].
  intros [I1 I2 I3 I4 I5]. split; split; simpl; try done.
  - intros e' f [[<- _]|[_ Hf]]%lookup_insert_Some; eauto.
  - intros e' f Hf. exists f. split; [|done]. rewrite lookup_insert_ne; [done|congruence].
  - eauto using lease_kept_refl.
  - eauto using receipt_kept_refl.
Qed.

(** The fence leaves phase zero once. *)
Lemma update_fence_steps e phase now d n d' : update_fence e phase now d = (n, d') -> steps_to d d'.
Proof.
  unfold update_fence. destruct (budget_dispatch_fence d !! e) as [f|] eqn:Hf;
    [|by injection 1 as <- <-]. destruct (fr_phase f =? 0) eqn:Hz; injection 1 as <- <-; [|done].
  intros [I1 I2 I3 I4 I5]. split; split; simpl; try done; eauto using lease_kept_refl, receipt_kept_refl.
  - intros e' f' [[<- _]|[_ Hf']]%lookup_insert_Some; eauto.
  - intros e' f' Hf'. destruct (decide (e = e')) as [<-|Hne].
    + rewrite lookup_insert_eq. eexists. split; [done|]. intros Hp. assert (f' = f) by congruence.
      subst. lia.
    + rewrite lookup_insert_ne by done. eauto.
Qed.

Lemma insert_observation_steps e row d :
  budget_terminal_observation d !! e = None ->
  steps_to d (set_observations (<[e := row]> (budget_terminal_observation d)) d).
Proof.
  intros Hn []. split; split; simpl; try done; eauto using lease_kept_refl, receipt_kept_refl.
  by apply insert_subseteq.
Qed.

(** Replacing an outbox row by one with the same receipt. *)
Lemma outbox_update_steps k o o' d :
  budget_settlement_outbox d !! k = Some o -> receipt_kept o o' ->
  steps_to d (set_outbox (<[k := o']> (budget_settlement_outbox d)) d).
Proof.
  intros Ho Hk [I1 I2 I3 I4 I5].
  assert (Hl : forall k' x, <[k := o']> (budget_settlement_outbox d) !! k' = Some x ->
    exists x0, budget_settlement_outbox d !! k' = Some x0 /\ receipt_kept x0 x).
  { intros k' x [[<- <-]|[_ Hx]]%lookup_insert_Some; eauto using receipt_kept_refl. }
  split; split; simpl; try done; eauto using lease_kept_refl.
  - intros k1 k2 o1 o2 (x1 & Hx1 & E1 & _)%Hl (x2 & Hx2 & E2 & _)%Hl Heq.
    eapply I3; eauto. congruence.
  - intros k' x (x0 & Hx0 & E1 & E2 & E3 & E4 & _)%Hl.
    destruct (I4 _ _ Hx0) as (r & Hr & Hs & Ha & Ht & Hsc). exists r.
    rewrite E1, E2, E3, E4. done.
  - intros k' x Hx. destruct (decide (k = k')) as [<-|Hne].
    + exists o'. rewrite lookup_insert_eq. split; [done|]. by assert (x = o) as -> by congruence.
    + exists x. rewrite lookup_insert_ne by done. split; [done|apply receipt_kept_refl].
Qed.

Lemma update_claim_steps k tok until d n d' :
  update_claim k tok until d = (n, d') -> steps_to d d'.
Proof.
  unfold update_claim. destruct (budget_settlement_outbox d !! k) as [o|] eqn:Ho;
    injection 1 as <- <-; [|done]. eapply outbox_update_steps; [done|]. by repeat split.
Qed.

(** *** The receipt of a settlement *)

Lemma outbox_of_none d id :
  outbox_of d id = None ->
  forall k o, budget_settlement_outbox d !! k = Some o -> ob_reservation_id o <> id.
Proof.
  unfold outbox_of. intros Hh k o Ho Heq. rewrite head_None in Hh.
  apply map_to_list_empty_iff, map_empty_filter_1 in Hh. by apply (Hh k o Ho).
Qed.

Lemma outbox_of_some d id p :
  outbox_of d id = Some p ->
  budget_settlement_outbox d !! p.1 = Some p.2 /\ ob_reservation_id p.2 = id.
Proof.
  unfold outbox_of. intros Hh%head_Some_elem_of. destruct p as [k o].
  by apply elem_of_map_to_list, map_lookup_filter_Some in Hh as [? ?].
Qed.

(** The update and the insertion together, from an unsettled row. *)
Lemma settle_and_receipt_steps d id r k charge at_ :
  budget_reservation d !! id = Some r -> rr_settled r = 0 ->
  budget_settlement_outbox d !! k = None -> outbox_of d id = None ->
  let d1 := set_reservations (<[id := settle_row charge at_ r]> (budget_reservation d)) d in
  steps_to d (set_outbox (<[k := MkOutboxRow id (rr_scope r) charge at_ None None None]>
                            (budget_settlement_outbox d1)) d1).
Proof.
  intros Hr Hz Hk Hn d1 Hinv.
  assert (H1 : steps_to d d1).
  { eapply (update_unsettled_steps id charge at_ d 1). unfold update_unsettled. by rewrite Hr, Hz. }
  destruct (H1 Hinv) as [[I1 I2 I3 I4 I5] [E1 E2 E3 E4 E5 E6 E7]].
  pose proof (outbox_of_none _ _ Hn) as Hne. split; split; simpl; try done.
  - intros k1 k2 o1 o2 [[<- <-]|[_ Hx1]]%lookup_insert_Some [[<- <-]|[_ Hx2]]%lookup_insert_Some;
      simpl; intros Heq; [done|..].
    + by destruct (Hne _ _ Hx2).
    + by destruct (Hne _ _ Hx1).
    + eauto.
  - intros k' o [[<- <-]|[_ Hx]]%lookup_insert_Some; [|apply (I4 k' o Hx)].
    simpl. exists (settle_row charge at_ r). by rewrite lookup_insert_eq.
  - intros k' o Ho. exists o. rewrite lookup_insert_ne by congruence.
    split; [done|apply receipt_kept_refl].
Qed.

(** ** The operations *)

Section Programs.
Context `{Calendar} `{UsageCodec}.

Lemma keeps_read_observation (R : Db -> Db -> Prop) `{!PreOrder R} e id sc : keeps R (read_observation e id sc).
Proof. unfold read_observation, equery. keeps. Qed.
Hint Resolve keeps_read_observation : keeps.

Lemma keeps_intent_binding (R : Db -> Db -> Prop) `{!PreOrder R} e : keeps R (intent_binding e).
Proof. unfold intent_binding, equery. keeps. Qed.
Hint Resolve keeps_intent_binding : keeps.

Lemma keeps_checked_terminal_receipt (R : Db -> Db -> Prop) `{!PreOrder R} sc id c : keeps R (checked_terminal_receipt sc id c).
Proof. unfold checked_terminal_receipt, equery. keeps. Qed.
Hint Resolve keeps_checked_terminal_receipt : keeps.

Lemma keeps_checked_fence (R : Db -> Db -> Prop) `{!PreOrder R} sc e id : keeps R (checked_fence sc e id).
Proof. unfold checked_fence, equery. keeps. Qed.
Hint Resolve keeps_checked_fence : keeps.

Lemma keeps_require_observable (R : Db -> Db -> Prop) `{!PreOrder R} sc e id : keeps R (require_observable sc e id).
Proof. unfold require_observable. keeps. Qed.
Hint Resolve keeps_require_observable : keeps.

Lemma keeps_update_fence e ph now :
  keeps steps_to (estmt (fun d => Ok (update_fence e ph now d))).
Proof.
  apply (keeps_stmt steps_to). intros d n d' Hd. injection Hd as Hd. eapply update_fence_steps, Hd.
Qed.
Lemma keeps_update_unsettled {E} (sql : SqlError -> E) id actual at_ :
  keeps steps_to (stmt sql (fun d => Ok (update_unsettled id (settle_row actual at_) d))).
Proof.
  apply (keeps_stmt steps_to). intros d n d' Hd. injection Hd as Hd. eapply update_unsettled_steps, Hd.
Qed.
Hint Resolve keeps_update_fence keeps_update_unsettled : keeps.

Lemma keeps_transition sc e auth clk : keeps steps_to (transition sc e auth clk).
Proof. unfold transition, equery, estmt. keeps; apply keeps_update_fence. Qed.
Hint Resolve keeps_transition : keeps.

Lemma keeps_authorize sc e clk : keeps steps_to (authorize_dispatch_durable sc e clk).
Proof. unfold authorize_dispatch_durable, etransaction. keeps. Qed.

Lemma keeps_close sc e clk : keeps steps_to (close_before_dispatch_durable sc e clk).
Proof. unfold close_before_dispatch_durable, etransaction. keeps. Qed.

Lemma keeps_reserve_tx sc c now ttl : keeps steps_to (reserve_in_transaction sc c now ttl).
Proof.
  unfold reserve_in_transaction, capacity_check, squery, sstmt. keeps.
  - apply (keeps_stmt steps_to). intros d n d' Hd. injection Hd as _ <-.
    pose (p := fun id r => bool_decide (rr_scope r = sc) && reclaimable d (unix_timestamp now) id r).
    apply (delete_reservations_steps d p).
    intros i r Hp. unfold p in Hp. bools. eapply reclaimable_spec; eauto.
  - apply (keeps_stmt steps_to). intros. eapply insert_reservation_steps; eauto.
Qed.
Hint Resolve keeps_reserve_tx : keeps.

Lemma keeps_reserve sc c now ttl : keeps steps_to (reserve_durable sc c now ttl).
Proof. unfold reserve_durable. keeps. Qed.

Lemma keeps_settle id actual clk : keeps steps_to (settle_durable id actual clk).
Proof. unfold settle_durable, squery, sstmt. keeps. Qed.

Lemma keeps_set_limit sc o w p : keeps steps_to (set_limit_durable sc o w p).
Proof.
  unfold set_limit_durable, sstmt. keeps. apply (keeps_stmt steps_to). intros d u d' Hd.
  injection Hd as _ <-. by apply steps_to_frame.
Qed.

Lemma keeps_seen vk ik now : keeps steps_to (seen_durable vk ik now).
Proof.
  unfold seen_durable, squery, sstmt. keeps. apply (keeps_stmt steps_to). intros db u db' Hd.
  injection Hd as _ <-. by apply steps_to_frame.
Qed.

Lemma keeps_record vk ik rid actual now ttl : keeps steps_to (record_durable vk ik rid actual now ttl).
Proof.
  unfold record_durable, sstmt. keeps. apply (keeps_stmt steps_to). intros d u d' Hd.
  injection Hd as _ <-. by apply steps_to_frame.
Qed.

Lemma keeps_reclaim now : keeps steps_to (reclaim_expired_durable now).
Proof.
  unfold reclaim_expired_durable, sstmt. keeps; apply (keeps_stmt steps_to); intros d u d' Hd.
  - injection Hd as _ <-. apply (delete_reservations_steps d (reclaimable d (unix_timestamp now))).
    intros i r. apply reclaimable_spec.
  - injection Hd as _ <-. by apply steps_to_frame.
Qed.

Lemma keeps_reserve_intent sc c now ttl lim prep rid ent :
  keeps steps_to (reserve_intent sc c now ttl lim prep rid ent).
Proof.
  unfold reserve_intent, etransaction, equery, estmt. keeps; apply (keeps_stmt steps_to); intros d u d' Hd.
  - eapply insert_intent_steps, Hd.
  - eapply insert_fence_steps, Hd.
  - unfold insert_correlation in Hd. destruct (_ && _); [|done]. injection Hd as _ <-.
    by apply steps_to_frame.
Qed.
Hint Resolve keeps_reserve_intent : keeps.

Lemma keeps_require_file : keeps steps_to require_file.
Proof. intros s r s' Hr. unfold require_file in Hr. by destruct (file_backed _); injection Hr as <- <-. Qed.
Hint Resolve keeps_require_file : keeps.

Lemma keeps_reserve_prepared sc c now ttl lim ent : keeps steps_to (reserve_prepared_durable sc c now ttl lim ent).
Proof. unfold reserve_prepared_durable. keeps. Qed.

Lemma keeps_reserve_correlated sc c now ttl lim rid ent :
  keeps steps_to (reserve_correlated_durable sc c now ttl lim rid ent).
Proof. unfold reserve_correlated_durable. keeps. Qed.

Lemma keeps_record_terminal sc e u bp clk : keeps steps_to (record_terminal_durable sc e u bp clk).
Proof.
  unfold record_terminal_durable, etransaction, estmt. keeps.
  apply (keeps_stmt steps_to). intros d w d' Hd. case_match eqn:Hb; [|done]. injection Hd as _ <-. bools.
  match goal with Hx : bool_decide (_ = None) = true |- _ => apply bool_decide_eq_true in Hx end.
  by apply insert_observation_steps.
Qed.

(** What a successful [settle_receipt] did. *)
Definition settled_db (d : Db) (id : Z) (row : ReservationRow) (k : string) (charge at_ : Z) : Db :=
  let d1 := set_reservations (<[id := settle_row charge at_ row]> (budget_reservation d)) d in
  set_outbox (<[k := MkOutboxRow id (rr_scope row) charge at_ None None None]>
                (budget_settlement_outbox d1)) d1.

Definition settle_receipt_post (scope : string) (id charge : Z) (ent : Entropy) (clock : Z)
    (d d' : Db) (out : SettlementOutcome) : Prop :=
  match out with
  | AlreadyCommitted e =>
      d' = d /\ exists p, outbox_of d id = Some p /\ receipt_row p = Ok e /\
        sr_scope e = scope /\ sr_charged_tokens e = charge
  | Committed r =>
      exists row, outbox_of d id = None /\ budget_reservation d !! id = Some row /\
        rr_settled row = 0 /\ rr_scope row = scope /\
        opaque_id ent = Ok (sr_receipt_id r) /\ budget_settlement_outbox d !! sr_receipt_id r = None /\
        0 < id /\ 0 <= charge /\
        r = MkReceipt (sr_receipt_id r) id scope charge (unix_timestamp clock) /\
        d' = settled_db d id row (sr_receipt_id r) charge (unix_timestamp clock)
  end.

Lemma settle_receipt_ok scope id charge ent clock s out s' :
  settle_receipt scope id charge ent clock s = (Ok out, s') ->
  settle_receipt_post scope id charge ent clock (st_db s) (st_db s') out.
Proof.
  unfold settle_receipt, equery, estmt. intros Hr.
  apply M_bind_ok in Hr as (ex & s1 & Hex & Hr). apply query_ok in Hex as [Hex Es1].
  unfold optional in Hex. destruct (outbox_of (st_db s) id) as [p|] eqn:Hp.
  - apply result_bind_ok in Hex as (e & He & Hex). injection Hex as <-. inv_m. subst.
    bools. simpl. split; [congruence|]. exists p. split; [done|]. split; [done|].
    split; [by eapply bool_decide_eq_true|lia].
  - injection Hex as <-. inv_m. subst. bools.
    repeat match goal with Hx : bool_decide _ = true |- _ => apply bool_decide_eq_true in Hx end.
    repeat match goal with Hx : st_db _ = st_db _ |- _ => rewrite Hx in *; clear Hx end.
    unfold update_unsettled in H6. rewrite H1, H4 in H6. injection H6 as <- E6.
    rewrite <- E6 in H8. simpl in H8. destruct (_ && _) eqn:Hb in H8; [|done].
    injection H8 as _ E8. bools.
    repeat match goal with Hx : bool_decide _ = true |- _ => apply bool_decide_eq_true in Hx end.
    subst scope. exists x1. simpl. repeat (split; [done || lia|]). done.
Qed.

Lemma keeps_ok_settle_receipt scope id charge ent clock :
  keeps_ok steps_to (settle_receipt scope id charge ent clock).
Proof.
  intros s out s' Hr. apply settle_receipt_ok in Hr. destruct out as [r|e].
  - destruct Hr as (row & Hn & Hrow & Hz & Hsc & _ & Hk & _ & _ & _ & ->).
    by apply settle_and_receipt_steps.
  - destruct Hr as [-> _]. done.
Qed.

Lemma keeps_settle_terminal sc e ent clk : keeps steps_to (settle_terminal_durable sc e ent clk).
Proof.
  unfold settle_terminal_durable, etransaction.
  do 2 (apply (keeps_bind steps_to); [apply (keeps_lift steps_to)|intros _]). apply (keeps_transaction steps_to).
  repeat first [apply keeps_ok_settle_receipt | apply (keeps_ok_bind steps_to); intros
    | match goal with |- keeps_ok _ (match ?x with _ => _ end) => destruct x end
    | apply keeps_keeps_ok; solve [keeps]].
Qed.

Lemma keeps_settle_evidence sc id c ent clk : keeps steps_to (settle_with_evidence_durable sc id c ent clk).
Proof.
  unfold settle_with_evidence_durable, etransaction, is_tracked, squery.
  do 3 (apply (keeps_bind steps_to); [solve [keeps]|intros]). apply (keeps_transaction steps_to).
  repeat first [apply keeps_ok_settle_receipt | apply (keeps_ok_bind steps_to); intros
    | apply keeps_keeps_ok; solve [keeps]].
Qed.

Lemma keeps_claim_loop rs : forall ents until, keeps steps_to (claim_loop rs ents until).
Proof.
  induction rs as [|r rs IH]; intros ents until; simpl; unfold estmt; keeps.
  apply (keeps_stmt steps_to). intros d n d' Hd. injection Hd as Hd. eapply update_claim_steps, Hd.
Qed.
Hint Resolve keeps_claim_loop : keeps.

Lemma keeps_claim lim now secs ents : keeps steps_to (claim_settlements_durable lim now secs ents).
Proof. unfold claim_settlements_durable, etransaction, equery. keeps. Qed.

Lemma keeps_acknowledge rid tok now : keeps steps_to (acknowledge_settlement_durable rid tok now).
Proof.
  unfold acknowledge_settlement_durable, estmt. keeps. apply (keeps_stmt steps_to). intros d n d' Hd.
  destruct (budget_settlement_outbox d !! rid) as [o|] eqn:Ho; [|by injection Hd as <- <-].
  destruct (_ && _) eqn:Hb; injection Hd as <- <-; [|done]. bools.
  match goal with Hx : bool_decide (ob_acknowledged_at o = None) = true |- _ =>
    apply bool_decide_eq_true in Hx as Hack end.
  eapply outbox_update_steps; [done|]. repeat split; try done. simpl. rewrite Hack. by intros [? ?].
Qed.
End Programs.
