(* ===== verification/EvidenceProps.v ===== *)
(** Properties of the durable ledger over arbitrary sequences of its
    operations, interleaved requests and storage failures included: the
    evolution of the database, the one-use dispatch permit, settlement at
    the frozen charge, and receipt delivery. *)

From S2P Require Import Prelude Ledger Budget Sql SqlLedger SqlContract Usage Evidence EvidenceOps.
From S2P Require Import EvidenceInv.

(** ** Sequences of operations

    Every operation of the live ledger that writes; the migration-only
    inserts are excluded. *)

Inductive dop :=
| DSetLimit (scope : string) (o : option Z) (w : Window) (p : Policy)
| DReserve (scope : string) (ceiling now ttl : Z)
| DSettle (id actual clock : Z)
| DSeen (vkey idem : string) (now : Z)
| DRecord (vkey idem : string) (id actual now ttl : Z)
| DReclaim (now : Z)
| DIntent (scope : string) (ceiling now ttl retained : Z) (ent : Entropy)
| DPrepared (scope : string) (ceiling now ttl retained : Z) (ent : Entropy)
| DCorrelated (scope : string) (ceiling now ttl retained : Z) (request : string) (ent : Entropy)
| DAuthorize (scope execution : string) (clock : Z)
| DClose (scope execution : string) (clock : Z)
| DObserve (scope execution : string) (usage : UsageV2) (bp clock : Z)
| DSettleTerminal (scope execution : string) (ent : Entropy) (clock : Z)
| DSettleEvidence (scope : string) (id charge : Z) (ent : Entropy) (clock : Z)
| DClaim (limit now lease : Z) (ents : list Entropy)
| DAck (receipt token : string) (now : Z).

(** What the caller learns that matters below. *)
Inductive dout :=
| OutPermit (execution : string)
| OutClosed (execution : string)
| OutAcked (receipt : string)
| OutOther.

Section Runs.
Context `{Calendar} `{UsageCodec}.

Definition ignore {E A} (x : result E A * Store) : dout * Store := (OutOther, x.2).

Definition dstep (s : Store) (o : dop) : dout * Store :=
  match o with
  | DSetLimit sc l w p => ignore (set_limit_durable sc l w p s)
  | DReserve sc c now ttl => ignore (reserve_durable sc c now ttl s)
  | DSettle id a clk => ignore (settle_durable id a clk s)
  | DSeen v i now => ignore (seen_durable v i now s)
  | DRecord v i id a now ttl => ignore (record_durable v i id a now ttl s)
  | DReclaim now => ignore (reclaim_expired_durable now s)
  | DIntent sc c now ttl n ent => ignore (reserve_with_intent_durable sc c now ttl n ent s)
  | DPrepared sc c now ttl n ent => ignore (reserve_prepared_durable sc c now ttl n ent s)
  | DCorrelated sc c now ttl n rq ent => ignore (reserve_correlated_durable sc c now ttl n rq ent s)
  | DAuthorize sc e clk =>
      let '(r, s') := authorize_dispatch_durable sc e clk s in
      (match r with Ok (Authorized_ p) => OutPermit p | _ => OutOther end, s')
  | DClose sc e clk =>
      let '(r, s') := close_before_dispatch_durable sc e clk s in
      (match r with Ok (Closed_ c) => OutClosed (pc_execution_id c) | _ => OutOther end, s')
  | DObserve sc e u bp clk => ignore (record_terminal_durable sc e u bp clk s)
  | DSettleTerminal sc e ent clk => ignore (settle_terminal_durable sc e ent clk s)
  | DSettleEvidence sc id c ent clk => ignore (settle_with_evidence_durable sc id c ent clk s)
  | DClaim n now l ents => ignore (claim_settlements_durable n now l ents s)
  | DAck rid tok now =>
      let '(r, s') := acknowledge_settlement_durable rid tok now s in
      (match r with Ok true => OutAcked rid | _ => OutOther end, s')
  end.

Fixpoint drun (s : Store) (ops : list dop) : list dout * Store :=
  match ops with
  | [] => ([], s)
  | o :: ops => let '(x, s1) := dstep s o in let '(xs, s2) := drun s1 ops in (x :: xs, s2)
  end.

Lemma dstep_steps s o x s' : dstep s o = (x, s') -> steps_to (st_db s) (st_db s').
Proof.
  assert (Hk : forall {E A} (m : M E A), keeps steps_to m -> forall x s',
    ignore (m s) = (x, s') -> steps_to (st_db s) (st_db s')).
  { intros E A m Hm y t. unfold ignore. destruct (m s) as [r u] eqn:Em. injection 1 as _ <-.
    eapply Hm, Em. }
  destruct o; simpl; try (apply Hk).
  - apply keeps_set_limit.
  - apply keeps_reserve.
  - apply keeps_settle.
  - apply keeps_seen.
  - apply keeps_record.
  - apply keeps_reclaim.
  - apply keeps_reserve_intent.
  - apply keeps_reserve_prepared.
  - apply keeps_reserve_correlated.
  - destruct (authorize_dispatch_durable _ _ _ s) as [r t] eqn:E. injection 1 as _ <-.
    eapply keeps_authorize, E.
  - destruct (close_before_dispatch_durable _ _ _ s) as [r t] eqn:E. injection 1 as _ <-.
    eapply keeps_close, E.
  - apply keeps_record_terminal.
  - apply keeps_settle_terminal.
  - apply keeps_settle_evidence.
  - apply keeps_claim.
  - destruct (acknowledge_settlement_durable _ _ _ s) as [r t] eqn:E. injection 1 as _ <-.
    eapply keeps_acknowledge, E.
Qed.

Lemma drun_steps ops : forall s xs s', drun s ops = (xs, s') -> steps_to (st_db s) (st_db s').
Proof.
  induction ops as [|o ops IH]; intros s xs s'; simpl; [by injection 1 as <- <-|].
  destruct (dstep s o) as [x s1] eqn:E1. destruct (drun s1 ops) as [ys s2] eqn:E2.
  injection 1 as _ <-. etransitivity; [eapply dstep_steps, E1|eapply IH, E2].
Qed.

Lemma db_empty_inv file : db_inv (db_empty file).
Proof. by split. Qed.

(** ** The dispatch fence *)

(** A transition that reports a change moved the fence off phase zero. *)
Lemma transition_changed sc e auth clk s f s' :
  transition sc e auth clk s = (Ok (f, true), s') ->
  (exists f0, budget_dispatch_fence (st_db s) !! e = Some f0 /\ fr_phase f0 = 0) /\
  (exists f1, budget_dispatch_fence (st_db s') !! e = Some f1 /\ fr_phase f1 <> 0) /\
  (forall c, f = FClosed c -> pc_execution_id c = e).
Proof.
  unfold transition, equery, estmt. intros Ht.
  apply M_bind_ok in Ht as (b & s1 & Hb & Ht).
  assert (E1 : st_db s = st_db s1) by (eapply (keeps_intent_binding eq), Hb).
  destruct b as [[[rid sc'] st]|]; [|by inv_m].
  apply M_bind_ok in Ht as (u & s2 & Hu & Ht). apply bail_if_ok in Hu as [_ ->].
  apply M_bind_ok in Ht as (fo & s2 & Hf & Ht).
  assert (E2 : st_db s1 = st_db s2) by (eapply (keeps_checked_fence eq), Hf).
  apply M_bind_ok in Ht as (f0 & s3 & Hf0 & Ht). apply lift_ok in Hf0 as [_ ->].
  destruct f0; [|by injection Ht..].
  apply M_bind_ok in Ht as (u2 & s3 & Hu2 & Ht).
  assert (E3 : st_db s2 = st_db s3).
  { destruct auth; [|by injection Hu2 as _ <-]. inv_m. congruence. }
  apply M_bind_ok in Ht as (n & s4 & Hn & Ht). apply stmt_ok in Hn. injection Hn as Hn.
  apply M_bind_ok in Ht as (u3 & s5 & Hu3 & Ht). apply bail_if_ok in Hu3 as [Hn1 ->].
  rewrite <- E3, <- E2, <- E1 in Hn. unfold update_fence in Hn.
  destruct (budget_dispatch_fence (st_db s) !! e) as [f0|] eqn:Ef0; [|by injection Hn as <- _].
  destruct (fr_phase f0 =? 0) eqn:Hp; [|by injection Hn as <- _].
  injection Hn as _ E4. split; [exists f0; split; [done|lia]|].
  assert (Hnew : budget_dispatch_fence (st_db s4) !! e = Some (MkFenceRow (if auth then 1 else 2) (Some (unix_timestamp clk)))).
  { rewrite <- E4. simpl. apply lookup_insert_eq. }
  destruct auth.
  - injection Ht as <- <-. split; [|done]. by eexists.
  - apply M_bind_ok in Ht as (n2 & s6 & Hn2 & Ht). apply stmt_ok in Hn2. injection Hn2 as Hn2.
    inv_m. subst. split.
    + exists (MkFenceRow 2 (Some (unix_timestamp clk))). split; [|done].
      unfold update_unsettled in Hn2. destruct (budget_reservation (st_db s4) !! rid) as [r|];
        [destruct (rr_settled r =? 0)|]; injection Hn2 as _ E6; by rewrite <- E6.
    + by intros c [= <-].
Qed.

(** The fence of an execution has left phase zero. *)
Definition fence_decided (d : Db) (e : string) : Prop :=
  exists f, budget_dispatch_fence d !! e = Some f /\ fr_phase f <> 0.

Definition fence_open (d : Db) (e : string) : Prop :=
  exists f, budget_dispatch_fence d !! e = Some f /\ fr_phase f = 0.

Lemma transition_tx sc e auth clk s f c s' :
  etransaction (r ← transition sc e auth clk; mret (r, true)) s = (Ok (f, c), s') ->
  c = true -> fence_open (st_db s) e /\ fence_decided (st_db s') e /\
  (forall x, f = FClosed x -> pc_execution_id x = e).
Proof.
  intros (s0 & s1 & c' & E0 & Hb & Es')%transaction_ok ->.
  apply M_bind_ok in Hb as (r & s2 & Ht & Hb). injection Hb as -> <- <-.
  apply transition_changed in Ht. rewrite E0 in Ht. by rewrite Es'.
Qed.

Lemma authorize_permit sc e clk s p s' :
  authorize_dispatch_durable sc e clk s = (Ok (Authorized_ p), s') ->
  p = e /\ fence_open (st_db s) e /\ fence_decided (st_db s') e.
Proof.
  unfold authorize_dispatch_durable. intros Ha.
  apply M_bind_ok in Ha as (? & ? & Hl & Ha). apply lift_ok in Hl as [_ ->].
  apply M_bind_ok in Ha as (? & ? & Hl & Ha). apply lift_ok in Hl as [_ ->].
  apply M_bind_ok in Ha as ([f c] & s1 & Ht & Ha).
  destruct f; [done| |by injection Ha]. destruct c; [|by injection Ha].
  injection Ha as <- <-. apply transition_tx in Ht as (? & ? & _); done.
Qed.

Lemma close_closed sc e clk s x s' :
  close_before_dispatch_durable sc e clk s = (Ok (Closed_ x), s') ->
  pc_execution_id x = e /\ fence_open (st_db s) e /\ fence_decided (st_db s') e.
Proof.
  unfold close_before_dispatch_durable. intros Ha.
  apply M_bind_ok in Ha as (? & ? & Hl & Ha). apply lift_ok in Hl as [_ ->].
  apply M_bind_ok in Ha as (? & ? & Hl & Ha). apply lift_ok in Hl as [_ ->].
  apply M_bind_ok in Ha as ([f c] & s1 & Ht & Ha).
  destruct f; [done|by injection Ha|]. destruct c; [|by injection Ha].
  injection Ha as <- <-. apply transition_tx in Ht as (? & ? & Hc); auto.
Qed.

(** The outcomes that decide the fence of [e]: a permit or a closure. *)
Definition decides (e : string) (x : dout) : bool :=
  match x with
  | OutPermit e' | OutClosed e' => bool_decide (e' = e)
  | _ => false
  end.

Lemma dstep_decides s o e x s' :
  dstep s o = (x, s') -> decides e x = true ->
  fence_open (st_db s) e /\ fence_decided (st_db s') e.
Proof.
  destruct o; simpl; try (unfold ignore; by injection 1 as <- <-).
  - destruct (authorize_dispatch_durable _ _ _ s) as [[[p| |c]|err] t] eqn:Er;
      injection 1 as <- <-; try done. intros Hd%bool_decide_eq_true.
    apply authorize_permit in Er as (-> & Ho & Hde). by subst.
  - destruct (close_before_dispatch_durable _ _ _ s) as [[[p|p|]|err] t] eqn:Er;
      injection 1 as <- <-; try done. intros Hd%bool_decide_eq_true.
    apply close_closed in Er as (Hp & Ho & Hde). rewrite Hp in Hd. by subst.
  - destruct (acknowledge_settlement_durable _ _ _ s) as [[[]|err] t]; by injection 1 as <- <-.
Qed.

Lemma decided_stays d d' e : fence_decided d e -> evolves d d' -> fence_decided d' e.
Proof.
  intros (f & Hf & Hp) He. destruct (evo_fences _ _ He _ _ Hf) as (f' & Hf' & Hk).
  rewrite (Hk Hp) in Hf'. by exists f.
Qed.

Lemma decided_not_open d e : fence_decided d e -> fence_open d e -> False.
Proof. intros (f & Hf & Hp) (f' & Hf' & Hp'). congruence. Qed.

Lemma drun_decided ops : forall s e xs s',
  db_inv (st_db s) -> fence_decided (st_db s) e -> drun s ops = (xs, s') ->
  filter (fun x => decides e x = true) xs = [].
Proof.
  induction ops as [|o ops IH]; intros s e xs s' Hi Hd; simpl; [by injection 1 as <- <-|].
  destruct (dstep s o) as [x s1] eqn:E1. destruct (drun s1 ops) as [ys s2] eqn:E2.
  injection 1 as <- <-. destruct (dstep_steps _ _ _ _ E1 Hi) as [Hi1 Hev].
  rewrite filter_cons_False; [eapply IH; eauto using decided_stays|].
  intros Hx. destruct (dstep_decides _ _ _ _ _ E1 Hx) as [Ho _]. eauto using decided_not_open.
Qed.

(** ** Properties *)

(** C8: Every operation, in every interleaving and under every storage
    failure (late commits included), preserves the invariant of the tables
    and lets them only evolve: identities are never reissued, tracked
    leases are never reclaimed and keep their terms, settled rows,
    observations and receipts are immutable, a decided fence stays
    decided, and every receipt is the settlement of its reservation at the
    charged amount. *)
Theorem durable_ledger_evolves (s s' : Store) (ops : list dop) (xs : list dout) :
  db_inv (st_db s) -> drun s ops = (xs, s') ->
  db_inv (st_db s') /\ evolves (st_db s) (st_db s').
Proof. intros Hi Hr. exact (drun_steps _ _ _ _ Hr Hi). Qed.

(** C9: A tracked execution gets at most one decision, ever.  Over any
    sequence of operations and storage failures, including commits that
    take effect but are reported as failed, at most one call returns a
    dispatch permit or a fresh closure for a given execution: it is never
    authorized twice, and never authorized after it was closed. *)
Theorem at_most_one_dispatch_decision (s s' : Store) (ops : list dop) (xs : list dout) (e : string) :
  db_inv (st_db s) -> drun s ops = (xs, s') ->
  (length (filter (fun x => decides e x = true) xs) <= 1)%nat.
Proof.
  revert s xs. induction ops as [|o ops IH]; intros s xs Hi; simpl; [injection 1 as <- <-; simpl; lia|].
  destruct (dstep s o) as [x s1] eqn:E1. destruct (drun s1 ops) as [ys s2] eqn:E2.
  injection 1 as <- <-. destruct (dstep_steps _ _ _ _ E1 Hi) as [Hi1 _].
  destruct (decides e x) eqn:Hx.
  - rewrite filter_cons_True by done. destruct (dstep_decides _ _ _ _ _ E1 Hx) as [_ Hd].
    rewrite (drun_decided _ _ _ _ _ Hi1 Hd E2). simpl. lia.
  - rewrite filter_cons_False by congruence. eauto.
Qed.
End Runs.

(** ** Settlement *)

(** The random bytes are 32 bytes. *)
Definition entropy_ok (ent : Entropy) : bool :=
  match ent with
  | None => true
  | Some bytes => (length bytes =? 32)%nat && forallb (fun b => (0 <=? b) && (b <? 256)) bytes
  end.

Lemma hex_digit_ok n : 0 <= n < 16 -> is_ascii_hexdigit (hex_digit n) = true.
Proof.
  intros Hn. assert (Hall : forallb (fun k => is_ascii_hexdigit (hex_digit (Z.of_nat k))) (seq 0 16) = true)
    by reflexivity.
  rewrite forallb_forall in Hall. specialize (Hall (Z.to_nat n)). rewrite Z2Nat.id in Hall by lia.
  apply Hall, in_seq. lia.
Qed.

Lemma hex_string_ok bytes :
  forallb (fun b => (0 <=? b) && (b <? 256)) bytes = true ->
  String.length (hex_string bytes) = (2 * length bytes)%nat /\
  string_all is_ascii_hexdigit (hex_string bytes) = true.
Proof.
  induction bytes as [|b bytes IH]; simpl; [done|]. intros Hb. bools.
  destruct (IH H0) as [Hl Ha]. rewrite Hl, Ha.
  rewrite !hex_digit_ok; [|apply Z.mod_pos_bound; lia|].
  - split; [lia|done].
  - split; [apply Z.div_pos; lia|apply Z.div_lt_upper_bound; lia].
Qed.

(** A generated identity passes the validation of identities. *)
Lemma opaque_id_valid ent k :
  entropy_ok ent = true -> opaque_id ent = Ok k ->
  str_len k = 64 /\ validate_execution_id k = Ok tt.
Proof.
  unfold opaque_id, entropy_ok. destruct ent as [bytes|]; [|done]. simpl. intros Hb [= <-]. bools.
  apply Nat.eqb_eq in H. destruct (hex_string_ok bytes H0) as [Hl Ha].
  unfold validate_execution_id, str_len. rewrite Hl, Ha, H. done.
Qed.

(** *** Runs do not depend on the faults they survived *)

Definition faultless {E A} (m : M E A) : Prop :=
  forall s a s', m s = (Ok a, s') -> m (MkStore (st_db s) []) = (Ok a, MkStore (st_db s') []).

Lemma faultless_query {E} (sql : SqlError -> E) {A} (f : Db -> result SqlError A) :
  faultless (query sql f).
Proof.
  intros s a s' [Hf ->]%query_ok. by apply query_fine.
Qed.

Lemma faultless_bind {E A B} (m : M E A) (k : A -> M E B) :
  faultless m -> (forall a, faultless (k a)) -> faultless (m ≫= k).
Proof.
  intros Hm Hk s b s' (a & s1 & H1 & H2)%M_bind_ok. erewrite M_bind_run by (eapply Hm, H1).
  eapply Hk, H2.
Qed.

Lemma faultless_pure {E A} (m : M E A) :
  (forall s, exists r, m s = (r, s) /\ forall s2, m s2 = (r, s2)) -> faultless m.
Proof.
  intros Hm s a s' Hr. destruct (Hm s) as (r & H1 & H2). rewrite H1 in Hr.
  injection Hr as -> <-. apply H2.
Qed.

Lemma faultless_ret {E A} (a : A) : faultless (mret a : M E A).
Proof. apply faultless_pure. intros s. by eexists. Qed.
Lemma faultless_throw {E A} (e : E) : faultless (throw e : M E A).
Proof. apply faultless_pure. intros s. by eexists. Qed.
Lemma faultless_lift {E A} (x : result E A) : faultless (lift x).
Proof. apply faultless_pure. intros s. by eexists. Qed.
Lemma faultless_bail {E} c (e : E) : faultless (bail_if c e).
Proof. destruct c; [apply faultless_throw|apply faultless_ret]. Qed.

Ltac faultless :=
  repeat first
    [ progress intros
    | apply faultless_query | apply faultless_ret | apply faultless_throw | apply faultless_lift
    | apply faultless_bail | apply faultless_bind
    | match goal with |- faultless (match ?x with _ => _ end) => destruct x end ].

Section Settlement.
Context `{Calendar} `{UsageCodec}.

Lemma faultless_read_observation e id sc : faultless (read_observation e id sc).
Proof. unfold read_observation, equery. faultless. Qed.

(** Reading an observation depends on its row only. *)
Lemma read_observation_frame e id sc d d2 o :
  budget_terminal_observation d2 !! e = budget_terminal_observation d !! e ->
  read_observation e id sc (MkStore d []) = (Ok o, MkStore d []) ->
  read_observation e id sc (MkStore d2 []) = (Ok o, MkStore d2 []).
Proof.
  intros Heq. unfold read_observation, equery. intros Hr.
  apply M_bind_ok in Hr as (row & s1 & Hq & Hr). apply query_ok in Hq as [Hq E1]. simpl in Hq.
  erewrite M_bind_run by (apply query_fine; rewrite Heq; exact Hq).
  destruct row as [[[[v en] ch] at_]|]; [|by injection Hr as <- _]. inv_m. subst.
  by erewrite M_bind_run by (by apply lift_ok).
Qed.

(** What a committed terminal settlement found. *)
Record settlement_of (d d' : Db) (sc e : string) (r : SettlementReceipt) (clk charge : Z)
    (i : IntentRow) (row : ReservationRow) (o : TerminalObservation) : Prop := {
  so_intent : budget_execution_intent d !! e = Some i;
  so_row : budget_reservation d !! ir_reservation_id i = Some row;
  so_scope : rr_scope row = sc;
  so_unsettled : rr_settled row = 0;
  so_observed : read_observation e (ir_reservation_id i) sc (MkStore d [])
                = (Ok (Some o), MkStore d []);
  so_charge : terminal_charge o = Ok charge;
  so_nonneg : 0 <= charge;
  so_id : 0 < ir_reservation_id i <= i64_max;
  so_no_receipt : outbox_of d (ir_reservation_id i) = None;
  so_new : budget_settlement_outbox d !! sr_receipt_id r = None;
  so_receipt : r = MkReceipt (sr_receipt_id r) (ir_reservation_id i) sc charge (unix_timestamp clk);
  so_db : d' = settled_db d (ir_reservation_id i) row (sr_receipt_id r) charge (unix_timestamp clk);
  so_fence : forall f, budget_dispatch_fence d !! e = Some f ->
    fr_phase f = 1 /\ exists t, fr_transitioned_at f = Some t /\ timestamp_bad t = false }.

Lemma require_observable_fence sc e id s u s' f :
  require_observable sc e id s = (Ok u, s') -> budget_dispatch_fence (st_db s) !! e = Some f ->
  fr_phase f = 1 /\ exists t, fr_transitioned_at f = Some t /\ timestamp_bad t = false.
Proof.
  unfold require_observable, checked_fence, equery. intros Hr Hf.
  apply M_bind_ok in Hr as (fo & s1 & Hc & Hr). apply M_bind_ok in Hc as (row & s2 & Hq & Hc).
  apply query_ok in Hq as [Hq _]. injection Hq as Hq. rewrite Hf in Hq. subst row.
  apply M_bind_ok in Hc as (? & ? & Hb & Hc). apply bail_if_ok in Hb as [Hb ->].
  apply M_bind_ok in Hc as (? & ? & _ & Hc). apply M_bind_ok in Hc as (? & ? & _ & Hc).
  apply M_bind_ok in Hc as (? & ? & _ & Hc). apply M_bind_ok in Hc as (? & ? & _ & Hc).
  apply M_bind_ok in Hc as (? & ? & _ & Hc).
  destruct (fr_transitioned_at f) as [t|].
  - destruct (fr_phase f =? 1) eqn:Hp; [split; [lia|eauto]|].
    destruct (_ && _); [|done]. by injection Hc as <- _.
  - destruct (_ && _); [|done]. by injection Hc as <- _.
Qed.

Lemma settle_terminal_committed sc e ent clk s r s' :
  settle_terminal_durable sc e ent clk s = (Ok (Committed r), s') ->
  exists charge i row o, settlement_of (st_db s) (st_db s') sc e r clk charge i row o /\
    opaque_id ent = Ok (sr_receipt_id r) /\ validate_scope sc = Ok tt /\
    validate_execution_id e = Ok tt.
Proof.
  unfold settle_terminal_durable. intros Ha.
  apply M_bind_ok in Ha as ([] & ? & Hl & Ha). apply lift_ok in Hl as [Hv1 ->].
  apply M_bind_ok in Ha as ([] & ? & Hl & Ha). apply lift_ok in Hl as [Hv2 ->].
  apply transaction_ok in Ha as (s0 & s1 & c & E0 & Hb & Es').
  apply M_bind_ok in Hb as (b & t1 & Hbind & Hb).
  assert (E1 : st_db s0 = st_db t1) by (eapply (keeps_intent_binding eq), Hbind).
  apply M_bind_ok in Hb as ([[rid sc'] st] & t2 & Hl & Hb). apply lift_ok in Hl as [Hl%ok_or_ok ->].
  subst b. apply M_bind_ok in Hb as (? & ? & Hl & Hb). apply bail_if_ok in Hl as [Hsc ->].
  apply negb_false_iff, bool_decide_eq_true in Hsc. subst sc'.
  apply M_bind_ok in Hb as (? & t2 & Hobs & Hb).
  assert (E2 : st_db t1 = st_db t2) by (eapply (keeps_require_observable eq), Hobs).
  apply M_bind_ok in Hb as (oo & t3 & Hread & Hb).
  assert (E3 : st_db t2 = st_db t3) by (eapply (keeps_read_observation eq), Hread).
  apply M_bind_ok in Hb as (o & ? & Hl & Hb). apply lift_ok in Hl as [Hl%ok_or_ok ->]. subst oo.
  apply M_bind_ok in Hb as (id & ? & Hl & Hb). apply lift_ok in Hl as [Hid%ok_or_ok ->].
  apply M_bind_ok in Hb as (charge & ? & Hl & Hb). apply lift_ok in Hl as [Hcharge ->].
  apply M_bind_ok in Hb as (? & t4 & Hrec & Hb).
  assert (E4 : st_db t3 = st_db t4) by (eapply (keeps_checked_terminal_receipt eq), Hrec).
  apply M_bind_ok in Hb as (out & t5 & Hset & Hb). injection Hb as -> <- <-.
  apply settle_receipt_ok in Hset. destruct Hset as (row & Hn & Hrow & Hz & Hrsc & Hent & Hk & Hpos & Hnn & Hr & Hdb).
  unfold try_i64 in Hid. destruct (rid <=? i64_max) eqn:Hle; [|done]. injection Hid as <-.
  assert (Ed : st_db t4 = st_db s) by congruence. rewrite Ed in *.
  (* the intent the binding read *)
  unfold intent_binding, equery in Hbind. apply M_bind_ok in Hbind as (b & u1 & Hq & Hbind).
  apply query_ok in Hq as [Hq Eu]. injection Hq as Hq. rewrite E0 in Hq.
  destruct (budget_execution_intent (st_db s) !! e) as [i|] eqn:Hi; simpl in Hq; subst b.
  2: { inv_m. }
  destruct (budget_reservation (st_db s) !! ir_reservation_id i) as [row'|] eqn:Hrow'; [|done].
  injection Hbind as Hx _ _ _. subst rid.
  exists charge, i, row, o. split; [|done]. split; try done; try congruence.
  - apply faultless_read_observation in Hread. rewrite <- E2, <- E1, E0 in Hread.
    rewrite <- E3, <- E2, <- E1, E0 in Hread. done.
  - lia.
  - intros f Hf. eapply require_observable_fence; [exact Hobs|]. rewrite <- E1, E0. done.
Qed.

Lemma terminal_charge_spec o c :
  terminal_charge o = Ok c ->
  u_completeness (to_usage o) = Final /\ u_basis (to_usage o) = ProviderReported /\
  to_frozen_charge o = Some c.
Proof.
  unfold terminal_charge. intros Ht. inv_ok. bools.
  repeat match goal with Hx : bool_decide _ = true |- _ => apply bool_decide_eq_true in Hx end.
  split; [done|]. split; [done|]. unfold try_i64 in Ht. destruct (_ <=? _); [|done].
  by injection Ht as <-.
Qed.

(** The effect of one settlement on the totals of any scope. *)
Lemma settle_row_sums d id row charge at_ sc' start :
  budget_reservation d !! id = Some row -> rr_settled row = 0 ->
  let t := <[id := settle_row charge at_ row]> (budget_reservation d) in
  msum (spent_since sc' start) t = msum (spent_since sc' start) (budget_reservation d)
    + (if decide (rr_scope row = sc') then if start <=? at_ then charge else 0 else 0) /\
  msum (held_by sc') t = msum (held_by sc') (budget_reservation d)
    - (if decide (rr_scope row = sc') then rr_ceiling row else 0).
Proof.
  intros Hrow Hz t. unfold t. rewrite !(msum_update _ _ _ row) by done.
  unfold spent_since, held_by. simpl. rewrite Hz, !andb_true_r, andb_false_r. simpl.
  destruct (decide (rr_scope row = sc')) as [Heq|Hne].
  - rewrite bool_decide_true by done. simpl. destruct (start <=? at_); lia.
  - rewrite bool_decide_false by done. simpl. lia.
Qed.

(** From [d] to [d'], spend rises by [charge] and held tokens fall by
    [ceiling] in the scope [sc]; nothing moves in any other scope. *)
Definition totals_move (sc : string) (charge ceiling start : Z) (d d' : Db) : Prop :=
  forall sc', let n := budget_reservation d in let n' := budget_reservation d' in
    msum (spent_since sc' start) n' =
      msum (spent_since sc' start) n + (if decide (sc = sc') then charge else 0) /\
    msum (held_by sc') n' = msum (held_by sc') n - (if decide (sc = sc') then ceiling else 0).

(** C10: Terminal settlement charges exactly the frozen charge.  A committed
    settlement of a tracked execution comes from a stored observation that
    is final and provider-reported; the receipt carries its frozen charge;
    and the totals move by it: the scope's spend rises by the charge, its
    held tokens fall by the lease's ceiling, and no other scope moves. *)
Theorem terminal_settlement_exact (sc e : string) (ent : Entropy) (clk start : Z) (s s' : Store)
    (r : SettlementReceipt) :
  settle_terminal_durable sc e ent clk s = (Ok (Committed r), s') -> start <= unix_timestamp clk ->
  exists o row,
    read_observation e (sr_reservation_id r) sc (MkStore (st_db s) []) =
      (Ok (Some o), MkStore (st_db s) []) /\
    u_completeness (to_usage o) = Final /\ u_basis (to_usage o) = ProviderReported /\
    to_frozen_charge o = Some (sr_charged_tokens r) /\
    budget_reservation (st_db s) !! sr_reservation_id r = Some row /\ rr_scope row = sc /\
    rr_settled row = 0 /\
    totals_move sc (sr_charged_tokens r) (rr_ceiling row) start (st_db s) (st_db s').
Proof.
  intros Hs Hst. apply settle_terminal_committed in Hs as (charge & i & row & o & Hs & _).
  pose proof Hs as []. destruct (terminal_charge_spec _ _ so_charge0) as (Hf & Hb & Hc).
  exists o, row. rewrite so_receipt0. simpl. rewrite so_db0.
  repeat (split; [done|]). intros sc'. rewrite <- so_scope0. simpl.
  pose proof (settle_row_sums (st_db s) _ row charge (unix_timestamp clk) sc' start so_row0 so_unsettled0)
    as [Hsp Hhe].
  rewrite (proj2 (Z.leb_le _ _) Hst) in Hsp. done.
Qed.

(** *** Replay *)

(** The state in which a tracked execution is settled with receipt [r]. *)
Record settled_state (d : Db) (sc e k : string) (r : SettlementReceipt) (i : IntentRow)
    (row : ReservationRow) (o : TerminalObservation) (ob : OutboxRow) (f : FenceRow) (t : Z) : Prop := {
  ss_intent : budget_execution_intent d !! e = Some i;
  ss_row : budget_reservation d !! ir_reservation_id i = Some row;
  ss_terms : rr_scope row = sc /\ rr_settled row = 1 /\ 0 <= rr_actual row /\
             rr_settled_at row = Some (sr_settled_at r);
  ss_id : 0 < ir_reservation_id i <= i64_max;
  ss_observed : read_observation e (ir_reservation_id i) sc (MkStore d []) =
                (Ok (Some o), MkStore d []);
  ss_charge : terminal_charge o = Ok (rr_actual row);
  ss_outbox : outbox_of d (ir_reservation_id i) = Some (k, ob);
  ss_key : str_len k = 64 /\ validate_execution_id k = Ok tt;
  ss_receipt : r = MkReceipt k (ir_reservation_id i) sc (rr_actual row) (sr_settled_at r) /\
               receipt_row (k, ob) = Ok r /\ ob_scope ob = sc;
  ss_fence : budget_dispatch_fence d !! e = Some f /\ fr_phase f = 1 /\
             fr_transitioned_at f = Some t /\ timestamp_bad t = false }.

Section Settled.
Context (d : Db) (sc e k : string) (r : SettlementReceipt) (i : IntentRow) (row : ReservationRow)
  (o : TerminalObservation) (ob : OutboxRow) (f : FenceRow) (t : Z)
  (SS : settled_state d sc e k r i row o ob f t).

Lemma settled_intent_binding :
  intent_binding e (MkStore d []) = (Ok (Some (ir_reservation_id i, sc, true)), MkStore d []).
Proof.
  destruct SS as [Hi Hr (Hsc & Hset & _) _ _ _ _ _ _ _]. unfold intent_binding, equery.
  erewrite M_bind_run by (by apply query_fine). simpl. rewrite Hi. simpl. rewrite Hr. simpl.
  rewrite Hsc, Hset. done.
Qed.

Lemma settled_receipt_check :
  checked_terminal_receipt sc (ir_reservation_id i) (Some (rr_actual row)) (MkStore d []) =
  (Ok (Some r), MkStore d []).
Proof.
  destruct SS as [Hi Hr (Hsc & Hset & Hnn & Hat) Hid _ _ Hob [Hk Hv] (Hrec & Hrow & Hos) _].
  unfold checked_terminal_receipt, equery.
  erewrite M_bind_run by (apply query_fine; by rewrite Hr).
  erewrite M_bind_run.
  2: { apply query_fine. rewrite Hob. unfold optional, guarded_receipt. cbn [fst snd].
       rewrite Hk, Hos, bool_decide_true by done. simpl. rewrite Hrow. done. }
  rewrite Hsc, bool_decide_true by done. simpl. rewrite Hset, Hat.
  rewrite (f_equal sr_charged_tokens Hrec), (f_equal sr_scope Hrec), (f_equal sr_reservation_id Hrec),
    (f_equal sr_receipt_id Hrec). cbn [sr_charged_tokens sr_scope sr_reservation_id sr_receipt_id].
  rewrite !bool_decide_true, !Z.eqb_refl, (proj2 (Z.leb_le _ _) Hnn), Hv by done. done.
Qed.

Lemma settled_require_observable :
  require_observable sc e (ir_reservation_id i) (MkStore d []) = (Ok tt, MkStore d []).
Proof.
  pose proof settled_receipt_check as Hrc.
  destruct SS as [Hi Hr (Hsc & Hset & Hnn & Hat) Hid Hobs Hch Hob _ _ (Hf & Hp & Ht & Hg)].
  unfold require_observable, checked_fence, equery.
  erewrite M_bind_run; [|erewrite M_bind_run by (apply query_fine; by rewrite Hf)].
  2: { cbv beta iota. rewrite Ht, Hg. erewrite M_bind_run by done.
       erewrite M_bind_run by (apply query_fine; by rewrite Hr).
       erewrite M_bind_run by done. rewrite Hsc, (bool_decide_true (sc = sc)) by done.
       erewrite M_bind_run by done. erewrite M_bind_run by exact Hobs.
       erewrite M_bind_run by (by apply query_fine). rewrite Hp. simpl. rewrite Hch.
       erewrite M_bind_run by done. erewrite M_bind_run by exact Hrc. reflexivity. }
  done.
Qed.

Lemma settled_replay ent clk :
  validate_scope sc = Ok tt -> validate_execution_id e = Ok tt ->
  settle_terminal_durable sc e ent clk (MkStore d []) = (Ok (AlreadyCommitted r), MkStore d []).
Proof.
  intros Hvs Hve. pose proof settled_receipt_check as Hrc.
  pose proof settled_require_observable as Hro. pose proof settled_intent_binding as Hib.
  destruct SS as [Hi Hr (Hsc & Hset & Hnn & Hat) Hid Hobs Hch Hob _ (Hrec & Hrow & Hos) _].
  unfold settle_terminal_durable, etransaction. rewrite Hvs, Hve.
  erewrite M_bind_run by done. erewrite M_bind_run by done.
  erewrite transaction_fine with (c := true) (d' := d); [done|].
  erewrite M_bind_run by exact Hib. erewrite M_bind_run by done. cbv beta iota.
  rewrite (bool_decide_true (sc = sc)) by done. erewrite M_bind_run by done.
  erewrite M_bind_run by exact Hro. erewrite M_bind_run by exact Hobs.
  erewrite M_bind_run by done.
  assert (Hti : try_i64 (ir_reservation_id i) = Some (ir_reservation_id i)).
  { unfold try_i64. by rewrite (proj2 (Z.leb_le _ _) (proj2 Hid)). }
  rewrite Hti. erewrite M_bind_run by done. rewrite Hch. erewrite M_bind_run by done.
  erewrite M_bind_run by exact Hrc.
  erewrite M_bind_run; [reflexivity|]. unfold settle_receipt, equery.
  erewrite M_bind_run.
  2: { apply query_fine. rewrite Hob. simpl. rewrite Hrow. done. }
  cbv beta iota. rewrite (f_equal sr_scope Hrec), (f_equal sr_charged_tokens Hrec). simpl.
  rewrite bool_decide_true, Z.eqb_refl by done. done.
Qed.
End Settled.

Lemma outbox_of_unique d k ob :
  db_inv d -> budget_settlement_outbox d !! k = Some ob ->
  outbox_of d (ob_reservation_id ob) = Some (k, ob).
Proof.
  intros Hi Hk. destruct (outbox_of d (ob_reservation_id ob)) as [[k' ob']|] eqn:E.
  - apply outbox_of_some in E as [Hk' Hr]. simpl in *.
    assert (k' = k) as -> by (eapply (inv_outbox _ Hi); eauto). congruence.
  - by destruct (outbox_of_none _ _ E _ _ Hk).
Qed.

Lemma read_observation_row e id sc d o :
  read_observation e id sc (MkStore d []) = (Ok (Some o), MkStore d []) ->
  is_Some (budget_terminal_observation d !! e).
Proof.
  unfold read_observation, equery. intros Hr.
  apply M_bind_ok in Hr as (row & s1 & Hq & Hr). apply query_ok in Hq as [Hq _]. simpl in Hq.
  destruct (budget_terminal_observation d !! e); [by eexists|]. injection Hq as <-. done.
Qed.

(** The settled state persists. *)
Lemma settlement_persists d d1 d2 sc e r clk charge i row o f :
  settlement_of d d1 sc e r clk charge i row o -> evolves d1 d2 -> db_inv d2 ->
  str_len (sr_receipt_id r) = 64 /\ validate_execution_id (sr_receipt_id r) = Ok tt ->
  budget_dispatch_fence d !! e = Some f ->
  exists row2 ob t, settled_state d2 sc e (sr_receipt_id r) r i row2 o ob f t.
Proof.
  intros [Hi Hrow Hsc Hz Hobs Hch Hnn Hid Hno Hnew Hrec Hdb Hfence] Hev Hinv Hkey Hf.
  set (row2 := settle_row charge (unix_timestamp clk) row).
  set (ob1 := MkOutboxRow (ir_reservation_id i) (rr_scope row) charge (unix_timestamp clk) None None None).
  assert (Hrow1 : budget_reservation d1 !! ir_reservation_id i = Some row2)
    by (rewrite Hdb; apply lookup_insert_eq).
  assert (Hob1 : budget_settlement_outbox d1 !! sr_receipt_id r = Some ob1)
    by (rewrite Hdb; apply lookup_insert_eq).
  destruct (evo_outbox _ _ Hev _ _ Hob1) as (ob & Hob & Hk1 & Hk2 & Hk3 & Hk4 & _).
  pose proof (outbox_of_unique _ _ _ Hinv Hob) as Huniq. rewrite Hk1 in Huniq.
  destruct (Hfence f Hf) as [Hp (t & Ht & Hg)].
  assert (Hf1 : budget_dispatch_fence d1 !! e = Some f) by (by rewrite Hdb).
  destruct (evo_fences _ _ Hev _ _ Hf1) as (f2 & Hf2 & Hkeep).
  assert (f2 = f) as -> by (apply Hkeep; lia).
  exists row2, ob, t. split; try done.
  - eapply lookup_weaken; [|apply (evo_intents _ _ Hev)]. by rewrite Hdb.
  - by apply (evo_settled _ _ Hev).
  - rewrite Hrec. simpl. done.
  - destruct (read_observation_row _ _ _ _ _ Hobs) as [orow Ho].
    eapply read_observation_frame; [|exact Hobs]. rewrite Ho.
    eapply lookup_weaken; [|apply (evo_observations _ _ Hev)]. by rewrite Hdb.
  - split; [rewrite (f_equal sr_settled_at Hrec); exact Hrec|]. split; [|by rewrite Hk2].
    unfold receipt_row. simpl. rewrite Hk1, Hk2, Hk3, Hk4. unfold ob1. simpl. unfold col_u64.
    rewrite (proj2 (Z.leb_le 0 (ir_reservation_id i))) by lia. simpl.
    rewrite (proj2 (Z.leb_le 0 charge)) by done. simpl.
    rewrite Hsc. by rewrite <- Hrec.
Qed.

(** Settlement is idempotent across everything that follows.  Once the
    terminal settlement of a fenced execution committed with receipt [r],
    then after any further sequence of operations and storage failures
    (claims and acknowledgements of the receipt included) settling the
    execution again, with any clock and entropy, returns that same receipt
    and changes nothing. *)
Theorem terminal_settlement_replay (sc e : string) (ent ent' : Entropy) (clk clk' : Z)
    (s s1 s2 : Store) (r : SettlementReceipt) (ops : list dop) (xs : list dout) :
  db_inv (st_db s) -> is_Some (budget_dispatch_fence (st_db s) !! e) -> entropy_ok ent = true ->
  settle_terminal_durable sc e ent clk s = (Ok (Committed r), s1) -> drun s1 ops = (xs, s2) ->
  settle_terminal_durable sc e ent' clk' (MkStore (st_db s2) []) =
    (Ok (AlreadyCommitted r), MkStore (st_db s2) []).
Proof.
  intros Hinv [f Hf] Hent Hs Hrun.
  destruct (keeps_settle_terminal sc e ent clk _ _ _ Hs Hinv) as [Hinv1 _].
  destruct (drun_steps _ _ _ _ Hrun Hinv1) as [Hinv2 Hev].
  apply settle_terminal_committed in Hs as (charge & i & row & o & Hso & Hid & Hv1 & Hv2).
  destruct (settlement_persists _ _ _ _ _ _ _ _ _ _ _ _ Hso Hev Hinv2 (opaque_id_valid _ _ Hent Hid) Hf)
    as (row2 & ob & t & Hss).
  by eapply settled_replay.
Qed.
End Settlement.

(** ** Receipt delivery *)

Section Delivery.
Context `{Calendar} `{UsageCodec}.

Lemma acknowledge_true rid tok now s s' :
  acknowledge_settlement_durable rid tok now s = (Ok true, s') ->
  exists o o', budget_settlement_outbox (st_db s) !! rid = Some o /\
    budget_settlement_outbox (st_db s') !! rid = Some o' /\
    ob_claim_token o = Some tok /\ (exists t, ob_claim_until o = Some t /\ unix_timestamp now < t) /\
    ob_acknowledged_at o = None /\ is_Some (ob_acknowledged_at o').
Proof.
  unfold acknowledge_settlement_durable, estmt. intros Ha.
  apply M_bind_ok in Ha as (n & s1 & Hs & Ha). apply stmt_ok in Hs. injection Hs as Hs.
  injection Ha as Hn <-.
  destruct (budget_settlement_outbox (st_db s) !! rid) as [o|]; [|injection Hs as <- _; lia].
  destruct (_ && _) eqn:Hb; injection Hs as <- Es; [|lia]. bools.
  destruct (ob_claim_until o) as [t|] eqn:Ht; [|done].
  repeat match goal with Hx : bool_decide _ = true |- _ => apply bool_decide_eq_true in Hx end.
  eexists o, _. split; [done|]. rewrite <- Es. simpl. rewrite lookup_insert_eq. split; [done|].
  split; [done|]. split; [exists t; split; [done|lia]|]. split; [done|by eexists].
Qed.

Definition acked (rid : string) (x : dout) : bool :=
  match x with OutAcked r => bool_decide (r = rid) | _ => false end.

(** The receipt is acknowledged in the tables. *)
Definition is_acked (d : Db) (rid : string) : Prop :=
  exists o, budget_settlement_outbox d !! rid = Some o /\ is_Some (ob_acknowledged_at o).

Lemma dstep_acked s o rid x s' :
  dstep s o = (x, s') -> acked rid x = true -> ~ is_acked (st_db s) rid /\ is_acked (st_db s') rid.
Proof.
  destruct o; simpl; try (unfold ignore; by injection 1 as <- <-).
  - destruct (authorize_dispatch_durable _ _ _ s) as [[[]|] ?]; by injection 1 as <- <-.
  - destruct (close_before_dispatch_durable _ _ _ s) as [[[]|] ?]; by injection 1 as <- <-.
  - destruct (acknowledge_settlement_durable receipt token now s) as [[[]|err] t] eqn:Er;
      injection 1 as <- <-; try done. intros ->%bool_decide_eq_true.
    apply acknowledge_true in Er as (o & o' & Ho & Ho' & _ & _ & Hn & Hs). split; [|by exists o'].
    intros (o2 & Ho2 & [a Ha]). congruence.
Qed.

Lemma is_acked_stays d d' rid : is_acked d rid -> evolves d d' -> is_acked d' rid.
Proof.
  intros (o & Ho & Ha) Hev. destruct (evo_outbox _ _ Hev _ _ Ho) as (o' & Ho' & _ & _ & _ & _ & Hk).
  exists o'. split; [done|]. by rewrite (Hk Ha).
Qed.

Lemma drun_acked ops : forall s rid xs s',
  db_inv (st_db s) -> is_acked (st_db s) rid -> drun s ops = (xs, s') ->
  filter (fun x => acked rid x = true) xs = [].
Proof.
  induction ops as [|o ops IH]; intros s rid xs s' Hi Hd; simpl; [by injection 1 as <- <-|].
  destruct (dstep s o) as [x s1] eqn:E1. destruct (drun s1 ops) as [ys s2] eqn:E2.
  injection 1 as <- <-. destruct (dstep_steps _ _ _ _ E1 Hi) as [Hi1 Hev].
  rewrite filter_cons_False; [eapply IH; eauto using is_acked_stays|].
  intros Hx. by destruct (dstep_acked _ _ _ _ _ E1 Hx).
Qed.

(** A receipt is acknowledged at most once, by the current claim.  Over
    any sequence of operations and storage failures at most one
    acknowledgement of a receipt reports success; and the token it carries
    is the one of the latest claim, which has not expired, so a worker
    whose claim was superseded cannot acknowledge. *)
Theorem acknowledged_once_by_current_claim (s s' : Store) (ops : list dop) (xs : list dout)
    (rid tok : string) (now : Z) :
  db_inv (st_db s) -> drun s ops = (xs, s') ->
  (length (filter (fun x => acked rid x = true) xs) <= 1)%nat /\
  (forall s'', acknowledge_settlement_durable rid tok now s' = (Ok true, s'') ->
     exists o, budget_settlement_outbox (st_db s') !! rid = Some o /\ ob_claim_token o = Some tok /\
       (exists t, ob_claim_until o = Some t /\ unix_timestamp now < t) /\
       ob_acknowledged_at o = None).
Proof.
  intros Hi Hr. split.
  - revert s xs Hi Hr. induction ops as [|o ops IH]; intros s xs Hi; simpl;
      [injection 1 as <- <-; simpl; lia|].
    destruct (dstep s o) as [x s1] eqn:E1. destruct (drun s1 ops) as [ys s2] eqn:E2.
    injection 1 as <- <-. destruct (dstep_steps _ _ _ _ E1 Hi) as [Hi1 _].
    destruct (acked rid x) eqn:Hx.
    + rewrite filter_cons_True by done. destruct (dstep_acked _ _ _ _ _ E1 Hx) as [_ Hd].
      rewrite (drun_acked _ _ _ _ _ Hi1 Hd E2). simpl. lia.
    + rewrite filter_cons_False by congruence. eauto.
  - intros s'' (o & o' & Ho & _ & Ht & Hu & Hn & _)%acknowledge_true. eauto.
Qed.
End Delivery.

(** ** A concrete history *)

(** A codec that knows one usage record. *)
Definition demo_codec : UsageCodec := {|
  usage_to_json u := if decide (u = usage_demo) then Some "usage" else None;
  usage_from_json s := if (s =? "usage")%string then Some usage_demo else None |}.

Definition demo_ent : Entropy := Some (replicate 32 171).
Definition demo_ent2 : Entropy := Some (replicate 32 205).
Definition demo_exec : string := hex_string (replicate 32 171).
Definition demo_receipt : string := hex_string (replicate 32 205).
Definition demo_store : Store := MkStore (db_empty true) [].

(** Admission, an authorization, its replay, an attempt to close, a reclaim
    after the lease expired, and an observation. *)
Definition demo_before : list dop :=
  [DSetLimit "team" (Some 2000) Total Block; DPrepared "team" 1500 0 (seconds 900) 10 demo_ent;
   DAuthorize "team" demo_exec (seconds 1); DAuthorize "team" demo_exec (seconds 2);
   DClose "team" demo_exec (seconds 3); DReclaim (seconds 2000);
   DObserve "team" demo_exec usage_demo 10000 (seconds 4)].
Definition demo_settle : dop := DSettleTerminal "team" demo_exec demo_ent2 (seconds 5).
Definition demo_after : list dop :=
  [DClaim 10 (seconds 6) 60 [demo_ent]; DAck demo_receipt demo_exec (seconds 7);
   DAck demo_receipt demo_exec (seconds 8)].
Definition demo_all : list dop := demo_before ++ demo_settle :: demo_after.

#[local] Existing Instances utc_days demo_codec.

Definition demo_run : list dout * Store := Eval vm_compute in drun demo_store demo_all.
Definition demo_mid : Store := Eval vm_compute in (drun demo_store demo_before).2.

Lemma durable_ledger_evolves_witness :
  db_inv (st_db demo_run.2) /\ evolves (st_db demo_store) (st_db demo_run.2).
Proof.
  apply (durable_ledger_evolves demo_store demo_run.2 demo_all demo_run.1 (db_empty_inv true)).
  vm_compute; reflexivity.
Defined.

Lemma at_most_one_dispatch_decision_witness :
  demo_run.1 !! 2%nat = Some (OutPermit demo_exec) /\
  (length (filter (fun x => decides demo_exec x = true) demo_run.1) <= 1)%nat.
Proof.
  split; [vm_compute; reflexivity|].
  apply (at_most_one_dispatch_decision demo_store demo_run.2 demo_all demo_run.1 demo_exec
           (db_empty_inv true)).
  vm_compute; reflexivity.
Defined.

Lemma acknowledged_once_by_current_claim_witness :
  demo_run.1 !! 9%nat = Some (OutAcked demo_receipt) /\
  (length (filter (fun x => acked demo_receipt x = true) demo_run.1) <= 1)%nat.
Proof.
  split; [vm_compute; reflexivity|].
  apply (acknowledged_once_by_current_claim demo_store demo_run.2 demo_all demo_run.1 demo_receipt
           demo_exec 0 (db_empty_inv true)).
  vm_compute; reflexivity.
Defined.

Definition demo_settled : result EvidenceError SettlementOutcome * Store :=
  Eval vm_compute in settle_terminal_durable "team" demo_exec demo_ent2 (seconds 5) demo_mid.
Definition demo_receipt_row : SettlementReceipt := MkReceipt demo_receipt 1 "team" 1025 5.

Lemma terminal_settlement_exact_witness :
  exists o row,
    read_observation demo_exec 1 "team" (MkStore (st_db demo_mid) []) =
      (Ok (Some o), MkStore (st_db demo_mid) []) /\
    to_frozen_charge o = Some 1025 /\ rr_ceiling row = 1500 /\
    msum (spent_since "team" 0) (budget_reservation (st_db demo_settled.2)) =
      msum (spent_since "team" 0) (budget_reservation (st_db demo_mid)) + 1025.
Proof.
  destruct (terminal_settlement_exact "team" demo_exec demo_ent2 (seconds 5) 0 demo_mid demo_settled.2
              demo_receipt_row) as (o & row & Hr & _ & _ & Hc & Hrow & _ & _ & Hsum);
    [vm_compute; reflexivity|vm_compute; discriminate|].
  exists o, row. split; [exact Hr|]. split; [exact Hc|].
  split; [|apply (proj1 (Hsum "team"))].
  vm_compute in Hrow. by injection Hrow as <-.
Defined.

Lemma terminal_settlement_replay_witness :
  settle_terminal_durable "team" demo_exec None 77 (MkStore (st_db demo_run.2) []) =
    (Ok (AlreadyCommitted demo_receipt_row), MkStore (st_db demo_run.2) []).
Proof.
  apply (terminal_settlement_replay "team" demo_exec demo_ent2 None (seconds 5) 77 demo_mid
           demo_settled.2 demo_run.2 demo_receipt_row demo_after
           (drun demo_settled.2 demo_after).1).
  - destruct (drun_steps demo_before demo_store (drun demo_store demo_before).1 demo_mid) as [Hi _];
      [vm_compute; reflexivity|apply db_empty_inv|exact Hi].
  - vm_compute. by eexists.
  - vm_compute; reflexivity.
  - vm_compute; reflexivity.
  - vm_compute; reflexivity.
Defined.
