(* ===== verification/Sharded.v ===== *)
(** [crates/sandhi-store/src/sharded.rs]: the scope-sharded durable ledger,
    N independent SQLite ledgers behind a mutex each, routed by an explicit
    FNV-1a hash of the scope, and the migration of a legacy single file. *)

From S2P Require Import Prelude Ledger Budget Sql SqlLedger SqlContract Usage Evidence EvidenceOps.

(** ** Routing *)

Definition u8_of (c : ascii) : Z := Z.of_N (N_of_ascii c).

Fixpoint fnv1a_from (hash : Z) (bytes : string) : Z :=
  match bytes with
  | EmptyString => hash
  | String c bytes => fnv1a_from (Z.lxor hash (u8_of c) * 1099511628211 mod u64_mod) bytes
  end.
Definition fnv1a (bytes : string) : Z := fnv1a_from 14695981039346656037 bytes.

(** A ledger behind its mutex; a panic under the lock poisons it. *)
Record Shard := MkShard { sh_store : Store; sh_poisoned : bool }.
Notation ShardedLedger := (list Shard).

Definition route (n : nat) (scope : string) : nat := Z.to_nat (fnv1a scope mod Z.of_nat n).
Definition shard_for (l : ShardedLedger) (scope : string) : nat := route (length l) scope.

(** [shard.lock().expect(..)] and a call: a poisoned lock panics, and a
    panicking call poisons it. *)
Definition call_shard {A} (m : M SqlError A) (sh : Shard) : result SqlError A * Shard :=
  if sh_poisoned sh then (Err Panicked, sh)
  else
    let '(r, s) := m (sh_store sh) in
    (r, MkShard s (bool_decide (match r with Err e => Some e | Ok _ => None end = Some Panicked))).

(** Indexing a vector out of range panics. *)
Definition at_shard {A} (l : ShardedLedger) (i : nat) (m : M SqlError A)
    : result SqlError A * ShardedLedger :=
  match l !! i with
  | None => (Err Panicked, l)
  | Some sh => let '(r, sh') := call_shard m sh in (r, <[i := sh']> l)
  end.

Definition with_shard {A} (l : ShardedLedger) (scope : string) (m : M SqlError A)
    : result SqlError A * ShardedLedger := at_shard l (shard_for l scope) m.

Section Sharded.
Context `{Calendar} `{UsageCodec}.

Definition sh_set_limit (l : ShardedLedger) scope lim w p :=
  with_shard l scope (set_limit_durable scope lim w p).
Definition sh_reserve (l : ShardedLedger) scope ceiling now ttl :=
  with_shard l scope (reserve_durable scope ceiling now ttl).
Definition sh_settle (l : ShardedLedger) scope reservation_id actual clock :=
  with_shard l scope (settle_durable reservation_id actual clock).
Definition sh_limit (l : ShardedLedger) scope := with_shard l scope (limit_durable scope).
Definition sh_spent (l : ShardedLedger) scope clock := with_shard l scope (spent_durable scope clock).
Definition sh_reserved (l : ShardedLedger) scope := with_shard l scope (reserved_durable scope).
(** Deduplication routes by the virtual key. *)
Definition sh_seen (l : ShardedLedger) vkey idem_key now :=
  with_shard l vkey (seen_durable vkey idem_key now).
Definition sh_record (l : ShardedLedger) vkey idem_key reservation actual now ttl :=
  with_shard l vkey (record_durable vkey idem_key reservation actual now ttl).

(** The union over the shards, sorted by scope. *)
Definition row_le (a b : BudgetRow) : Prop := String.leb (br_scope a) (br_scope b) = true.
#[export] Instance row_le_dec a b : Decision (row_le a b).
Proof. unfold row_le. apply _. Defined.

Fixpoint list_from (l : ShardedLedger) (ixs : list nat) : result SqlError (list BudgetRow) :=
  match ixs with
  | [] => Ok []
  | i :: ixs =>
      rows ← (at_shard l i list_budgets_durable).1;
      rest ← list_from l ixs;
      Ok (rows ++ rest)
  end.
Definition sh_list_budgets (l : ShardedLedger) : result SqlError (list BudgetRow) :=
  rows ← list_from l (seq 0 (length l)); Ok (merge_sort row_le rows).

(** The loop of [reclaim_expired_durable]: it stops at the first failure. *)
Fixpoint reclaim_from (l : ShardedLedger) (ixs : list nat) (now total : Z)
    : result SqlError Z * ShardedLedger :=
  match ixs with
  | [] => (Ok total, l)
  | i :: ixs =>
      match at_shard l i (reclaim_expired_durable now) with
      | (Ok n, l) => reclaim_from l ixs now (total + n)
      | (Err e, l) => (Err e, l)
      end
  end.
Definition sh_reclaim (l : ShardedLedger) (now : Z) : result SqlError Z * ShardedLedger :=
  reclaim_from l (seq 0 (length l)) now 0.

(** ** Evidence *)

(** [lock().map_err(|_| ShardPoisoned)] and a call. *)
Definition call_evidence {A} (m : evM A) (sh : Shard) : result EvidenceError A * Shard :=
  if sh_poisoned sh then (Err ShardPoisoned, sh)
  else
    let '(r, s) := m (sh_store sh) in
    (r, MkShard s (bool_decide (match r with Err e => Some e | Ok _ => None end = Some (Storage Panicked)))).

Definition evidence_at {A} (l : ShardedLedger) (i : nat) (m : evM A)
    : result EvidenceError A * ShardedLedger :=
  match l !! i with
  | None => (Err InvalidShard, l)
  | Some sh => let '(r, sh') := call_evidence m sh in (r, <[i := sh']> l)
  end.

(** Tracked operations need one file-backed ledger. *)
Definition with_tracked {A} (l : ShardedLedger) (m : evM A)
    : result EvidenceError A * ShardedLedger :=
  match l with
  | [sh] =>
      if sh_poisoned sh then (Err ShardPoisoned, l)
      else if file_backed (st_db (sh_store sh))
      then let '(r, sh') := call_evidence m sh in (r, [sh'])
      else (Err UnsupportedTrackedLedger, l)
  | _ => (Err UnsupportedTrackedLedger, l)
  end.

Definition validate_tracked (l : ShardedLedger) := (with_tracked l (mret tt)).1.

(** The caller's intent must match the stored one, expiry to the second. *)
Definition checked_intent (intent : ExecutionIntent) : evM ExecutionIntent :=
  original ← intent_durable (ei_execution_id intent);
  original ← lift (ok_or original MissingIntent);
  let o := ei_reservation original in
  let r := ei_reservation intent in
  _ ← bail_if (negb (bool_decide (rsv_scope o = rsv_scope r))) WrongScope;
  _ ← bail_if (negb (rsv_id o =? rsv_id r) || negb (rsv_ceiling o =? rsv_ceiling r)
               || negb (unix_timestamp (rsv_expires_at o) =? unix_timestamp (rsv_expires_at r)))
        InvalidInput;
  mret original.

Definition record_terminal_for_intent (l : ShardedLedger) (intent : ExecutionIntent) usage bp clock :=
  with_tracked l (o ← checked_intent intent;
    record_terminal_durable (rsv_scope (ei_reservation o)) (ei_execution_id o) usage bp clock).
Definition authorize_dispatch_for_intent (l : ShardedLedger) (intent : ExecutionIntent) clock :=
  with_tracked l (o ← checked_intent intent;
    authorize_dispatch_durable (rsv_scope (ei_reservation o)) (ei_execution_id o) clock).
Definition close_before_dispatch_for_intent (l : ShardedLedger) (intent : ExecutionIntent) clock :=
  with_tracked l (o ← checked_intent intent;
    close_before_dispatch_durable (rsv_scope (ei_reservation o)) (ei_execution_id o) clock).
Definition sh_reserve_prepared (l : ShardedLedger) scope ceiling now ttl retained ent :=
  with_tracked l (reserve_prepared_durable scope ceiling now ttl retained ent).
Definition sh_reserve_correlated (l : ShardedLedger) scope ceiling now ttl retained request ent :=
  with_tracked l (reserve_correlated_durable scope ceiling now ttl retained request ent).
Definition sh_settle_terminal (l : ShardedLedger) scope execution_id ent clock :=
  with_tracked l (settle_terminal_durable scope execution_id ent clock).
Definition sh_request_id (l : ShardedLedger) scope execution_id :=
  with_tracked l (request_id_durable scope execution_id).
Definition sh_recovery_scopes (l : ShardedLedger) cursor limit :=
  with_tracked l (recovery_scopes_durable cursor limit).
Definition sh_recovery_page (l : ShardedLedger) scope cursor limit :=
  with_tracked l (recovery_page_durable scope cursor limit).
Definition sh_settle_with_evidence (l : ShardedLedger) scope reservation_id charged ent clock :=
  evidence_at l (shard_for l scope) (settle_with_evidence_durable scope reservation_id charged ent clock).
Definition sh_claim (l : ShardedLedger) (i : nat) limit now lease ents :=
  evidence_at l i (claim_settlements_durable limit now lease ents).
Definition sh_acknowledge (l : ShardedLedger) (i : nat) receipt token now :=
  evidence_at l i (acknowledge_settlement_durable receipt token now).
End Sharded.

(** ** Migration of a legacy single file *)

(** Insert one row on its shard. *)
Definition migrate_row (m : string -> M SqlError unit) (l : list Store) (scope : string)
    : result SqlError unit * list Store :=
  let i := route (length l) scope in
  match l !! i with
  | None => (Err Panicked, l)
  | Some s => let '(r, s') := m scope s in (r, <[i := s']> l)
  end.

Fixpoint migrate_rows (rows : list (string * M SqlError unit)) (l : list Store)
    : result SqlError unit * list Store :=
  match rows with
  | [] => (Ok tt, l)
  | (scope, m) :: rows =>
      match migrate_row (fun _ => m) l scope with
      | (Ok _, l) => migrate_rows rows l
      | (Err e, l) => (Err e, l)
      end
  end.

Definition limit_rows (d : Db) : list (string * M SqlError unit) :=
  (fun p => (p.1, insert_migrated_limit p.1 (lr_limit_tokens p.2) (lr_window p.2) (lr_policy p.2)))
  <$> map_to_list (budget_limit d).

Definition reservation_rows (d : Db) : list (string * M SqlError unit) :=
  (fun p => (rr_scope p.2,
     insert_migrated_reservation p.1 (rr_scope p.2) (rr_ceiling p.2) (rr_actual p.2) (rr_settled p.2)
       (rr_expires_at p.2) (rr_settled_at p.2)))
  <$> map_to_list (budget_reservation d).

(** What the migration reads of the legacy file: it refuses a file with
    settlement evidence, and [None] says the ledger tables were never
    created ([tables]). *)
Definition read_legacy (tables : bool) : M SqlError (option (list (string * M SqlError unit))) :=
  receipts ← squery (fun d => Ok (negb (bool_decide (budget_settlement_outbox d = ∅))));
  _ ← bail_if receipts ConversionFailure;
  intents ← squery (fun d => Ok (negb (bool_decide (budget_execution_intent d = ∅))));
  _ ← bail_if intents ConversionFailure;
  if tables then
    limits ← squery (fun d => Ok (limit_rows d));
    reservations ← squery (fun d => Ok (reservation_rows d));
    mret (Some (limits ++ reservations))
  else mret None.

(** The legacy rows are deleted last, by two statements of their own. *)
Definition migrate_legacy (tables : bool) (legacy : Store) (targets : list Store)
    : result SqlError unit * Store * list Store :=
  match read_legacy tables legacy with
  | (Err e, legacy) => (Err e, legacy, targets)
  | (Ok None, legacy) => (Ok tt, legacy, targets)
  | (Ok (Some rows), legacy) =>
      match migrate_rows rows targets with
      | (Err e, targets) => (Err e, legacy, targets)
      | (Ok _, targets) =>
          let '(r, legacy) :=
            (_ ← sstmt (fun d => Ok (tt, set_reservations ∅ d));
             sstmt (fun d => Ok (tt, set_budget_limit ∅ d))) legacy in
          (r, legacy, targets)
      end
  end.

(** ** Lemmas *)

Lemma route_lt n scope : (0 < n)%nat -> (route n scope < n)%nat.
Proof.
  intros Hn. unfold route. pose proof (Z.mod_pos_bound (fnv1a scope) (Z.of_nat n)). lia.
Qed.

Lemma migrate_rows_app r1 r2 l :
  migrate_rows (r1 ++ r2) l =
  match migrate_rows r1 l with
  | (Ok _, l) => migrate_rows r2 l
  | (Err e, l) => (Err e, l)
  end.
Proof.
  revert l. induction r1 as [|[sc m] r1 IH]; intros l; simpl; [done|].
  destruct (migrate_row _ l sc) as [[u|e] l']; [apply IH|done].
Qed.

(** Rows inserted one by one on the shards their scopes route to. *)
Section MigrateTable.
Context {K V X : Type} `{Countable K} (scope_of : K * V -> string) (ins : K * V -> M SqlError unit)
  (get : Db -> gmap K V) (rest : Db -> X)
  (Hins : forall p d, exists d', ins p (MkStore d []) = (Ok tt, MkStore d' []) /\
     get d' = <[p.1 := p.2]> (get d) /\ rest d' = rest d).

Definition on_shard (n j : nat) (p : K * V) : bool := bool_decide (route n (scope_of p) = j).

Lemma migrate_table rows : forall l,
  (0 < length l)%nat -> (forall j s, l !! j = Some s -> st_faults s = []) ->
  exists l', migrate_rows ((fun p => (scope_of p, ins p)) <$> rows) l = (Ok tt, l') /\
    length l' = length l /\
    forall j s, l !! j = Some s -> exists s', l' !! j = Some s' /\ st_faults s' = [] /\
      rest (st_db s') = rest (st_db s) /\
      get (st_db s') = foldl (fun m p => if on_shard (length l) j p then <[p.1 := p.2]> m else m)
                         (get (st_db s)) rows.
Proof using Hins.
  induction rows as [|p rows IH]; intros l Hl Hf; simpl.
  { exists l. split; [done|]. split; [done|]. intros j s Hs. pose proof (Hf j s Hs). eauto. }
  destruct (lookup_lt_is_Some_2 l (route (length l) (scope_of p)) (route_lt _ _ Hl)) as [s Hs].
  pose proof (Hf _ _ Hs) as Hfs. destruct s as [d fs]. simpl in *. subst fs.
  destruct (Hins p d) as (d' & Hi & Hg & Ho). unfold migrate_row. rewrite Hs, Hi.
  set (r := route (length l) (scope_of p)) in *.
  destruct (IH (<[r := MkStore d' []]> l)) as (l' & Hm & Hlen & Hall).
  { by rewrite length_insert. }
  { intros j s [(_ & <- & _)|[_ Hx]]%list_lookup_insert_Some; eauto. }
  exists l'. split; [done|]. split; [by rewrite Hlen, length_insert|].
  rewrite length_insert in Hall. intros j s Hj. unfold on_shard at 2. fold r.
  destruct (decide (r = j)) as [<-|Hne].
  - rewrite bool_decide_true by done. rewrite Hs in Hj. injection Hj as <-. simpl. rewrite <- Hg, <- Ho.
    apply (Hall r (MkStore d' [])). apply list_lookup_insert_eq. apply route_lt. done.
  - rewrite bool_decide_false by done. apply Hall. by rewrite list_lookup_insert_ne.
Qed.

(** The table a shard ends with: the rows that route to it. *)
Lemma foldl_on_shard n j (m : gmap K V) k :
  foldl (fun acc p => if on_shard n j p then <[p.1 := p.2]> acc else acc) (∅ : gmap K V) (map_to_list m) !! k =
  match m !! k with
  | Some v => if on_shard n j (k, v) then Some v else None
  | None => None
  end.
Proof.
  enough (Hgen : forall rows (acc : gmap K V), NoDup rows.*1 -> (forall p, p ∈ rows -> acc !! p.1 = None) ->
    foldl (fun acc p => if on_shard n j p then <[p.1 := p.2]> acc else acc) acc rows !! k =
    match acc !! k with
    | Some v => Some v
    | None => v ← (list_to_map rows : gmap K V) !! k; if on_shard n j (k, v) then Some v else None
    end).
  { rewrite Hgen; [|apply NoDup_fst_map_to_list|by intros; rewrite lookup_empty].
    rewrite lookup_empty, list_to_map_to_list. by destruct (m !! k). }
  induction rows as [|[k' v] rows IH]; intros acc Hnd Hfr; simpl; [by destruct (acc !! k)|].
  apply NoDup_cons in Hnd as [Hni Hnd].
  pose proof (Hfr (k', v) ltac:(by constructor)) as Hk'. simpl in Hk'.
  assert (Hfr' : forall x, forall p, p ∈ rows -> (<[k' := x]> acc) !! p.1 = None).
  { intros x p Hp. rewrite lookup_insert_ne; [apply Hfr; by constructor|]. intros Heq. apply Hni.
    apply list_elem_of_fmap. by exists p. }
  destruct (decide (k' = k)) as [<-|Hne].
  - rewrite Hk', lookup_insert_eq. simpl.
    assert (Hl : (list_to_map rows : gmap K V) !! k' = None) by (by apply not_elem_of_list_to_map_1).
    destruct (on_shard n j (k', v)); rewrite IH by (done || (intros; apply Hfr; by constructor) || eauto).
    + by rewrite lookup_insert_eq.
    + by rewrite Hk', Hl.
  - rewrite (lookup_insert_ne (list_to_map rows)) by done.
    destruct (on_shard n j (k', v)); rewrite IH by (done || (intros; apply Hfr; by constructor) || eauto);
      [by rewrite lookup_insert_ne|done].
Qed.
End MigrateTable.

(** ** Runs *)

(** Calls on the sharded ledger, each with its routing scope, and calls on
    one shard. *)
Fixpoint run_sharded {A} (l : ShardedLedger) (ops : list (string * M SqlError A))
    : list (result SqlError A) * ShardedLedger :=
  match ops with
  | [] => ([], l)
  | (scope, m) :: ops =>
      let '(r, l1) := with_shard l scope m in
      let '(rs, l2) := run_sharded l1 ops in (r :: rs, l2)
  end.

Fixpoint run_shard {A} (sh : Shard) (ops : list (string * M SqlError A))
    : list (result SqlError A) * Shard :=
  match ops with
  | [] => ([], sh)
  | (_, m) :: ops =>
      let '(r, sh1) := call_shard m sh in
      let '(rs, sh2) := run_shard sh1 ops in (r :: rs, sh2)
  end.

Definition routed {A} (n i : nat) (p : string * A) : bool := bool_decide (route n p.1 = i).

(** The answers to the calls routed to one shard. *)
Definition answers_of {A B} (n i : nat) (ops : list (string * A)) (rs : list B) : list B :=
  (snd <$> filter (fun x => routed n i x.1 = true) (zip ops rs)).

(** A shard is a ledger of its own.  Whatever calls are interleaved on
    the sharded ledger, each shard ends in the state, and each of its
    calls gets the answer, that the calls routed to it give when run alone
    and in order on that shard: scopes of different shards never affect
    each other, failures and panics included. *)
Theorem sharded_is_product {A} (ops : list (string * M SqlError A)) (l : ShardedLedger) (i : nat)
    (sh : Shard) :
  l !! i = Some sh ->
  let mine := filter (fun p => routed (length l) i p = true) ops in
  (run_sharded l ops).2 !! i = Some (run_shard sh mine).2 /\
  answers_of (length l) i ops (run_sharded l ops).1 = (run_shard sh mine).1.
Proof.
  revert l sh. induction ops as [|[scope m] ops IH]; intros l sh Hi; simpl; [done|].
  unfold with_shard, shard_for, at_shard.
  assert (Hlt : (i < length l)%nat) by (by eapply lookup_lt_Some).
  destruct (lookup_lt_is_Some_2 l (route (length l) scope)) as [sh0 Hsh0]; [apply route_lt; lia|].
  rewrite Hsh0. destruct (call_shard m sh0) as [r sh1] eqn:Ec.
  destruct (decide (route (length l) scope = i)) as [Heq|Hne].
  - rewrite Heq in *. assert (sh0 = sh) as -> by congruence.
    destruct (IH (<[i := sh1]> l) sh1) as [IH1 IH2]; [by apply list_lookup_insert_eq|].
    rewrite length_insert in *. destruct (run_sharded _ ops) as [rs l'] eqn:Er. simpl in *.
    rewrite filter_cons_True by (apply bool_decide_eq_true; done). simpl. rewrite Ec.
    destruct (run_shard sh1 _) as [rs' sh'] eqn:Es. simpl in *. split; [done|].
    unfold answers_of in *. simpl. rewrite filter_cons_True by (apply bool_decide_eq_true; done).
    cbn. f_equal. exact IH2.
  - destruct (IH (<[route (length l) scope := sh1]> l) sh) as [IH1 IH2];
      [by rewrite list_lookup_insert_ne|].
    rewrite length_insert in *. destruct (run_sharded _ ops) as [rs l'] eqn:Er. simpl in *.
    rewrite filter_cons_False by (intros Hx%bool_decide_eq_true; done).
    split; [done|]. unfold answers_of in *. simpl.
    rewrite filter_cons_False by (intros Hx%bool_decide_eq_true; done). done.
Qed.

(** Two shards, two scopes on each side of the routing. *)
Definition two_shards : ShardedLedger :=
  replicate 2 (MkShard (MkStore (db_empty false) []) false).
Definition shard_calls : list (string * M SqlError unit) :=
  [("alpha", set_limit_durable "alpha" (Some 10) Total Block);
   ("beta", set_limit_durable "beta" (Some 20) Total Warn);
   ("gamma", set_limit_durable "gamma" None Daily Block)].

Lemma sharded_is_product_witness :
  let mine := filter (fun p => routed 2 0 p = true) shard_calls in
  (run_sharded two_shards shard_calls).2 !! 0%nat =
    Some (run_shard (MkShard (MkStore (db_empty false) []) false) mine).2 /\
  answers_of 2 0 shard_calls (run_sharded two_shards shard_calls).1 =
    (run_shard (MkShard (MkStore (db_empty false) []) false) mine).1.
Proof. apply (sharded_is_product shard_calls two_shards 0 _ eq_refl). Defined.

(** ** Migration *)

(** An empty target: no fault ahead, no rows. *)
Definition empty_target (s : Store) : Prop :=
  st_faults s = [] /\ budget_limit (st_db s) = ∅ /\ budget_reservation (st_db s) = ∅.

(** A legacy file without evidence is read in full. *)
Lemma read_legacy_rows legacy :
  budget_settlement_outbox legacy = ∅ -> budget_execution_intent legacy = ∅ ->
  read_legacy true (MkStore legacy []) =
    (Ok (Some (limit_rows legacy ++ reservation_rows legacy)), MkStore legacy []).
Proof.
  intros Ho Hi. unfold read_legacy, squery. erewrite M_bind_run by (by apply query_fine). rewrite Ho.
  erewrite M_bind_run by done. erewrite M_bind_run by (by apply query_fine). rewrite Hi.
  erewrite M_bind_run by done. erewrite M_bind_run by (by apply query_fine).
  by erewrite M_bind_run by (by apply query_fine).
Qed.

(** Both loops of the migration: each target receives its rows. *)
Lemma migrate_rows_run legacy targets :
  (0 < length targets)%nat -> (forall s, s ∈ targets -> empty_target s) ->
  let n := length targets in
  exists targets',
    migrate_rows (limit_rows legacy ++ reservation_rows legacy) targets = (Ok tt, targets') /\
    length targets' = n /\
    forall j s, targets' !! j = Some s ->
      (forall sc, budget_limit (st_db s) !! sc =
         if bool_decide (route n sc = j) then budget_limit legacy !! sc else None) /\
      (forall i, budget_reservation (st_db s) !! i =
         match budget_reservation legacy !! i with
         | Some v => if bool_decide (route n (rr_scope v) = j) then Some v else None
         | None => None
         end).
Proof.
  intros Hl Ht n.
  destruct (migrate_table (fun p : string * LimitRow => p.1)
    (fun p => insert_migrated_limit p.1 (lr_limit_tokens p.2) (lr_window p.2) (lr_policy p.2))
    budget_limit budget_reservation) with (rows := map_to_list (budget_limit legacy)) (l := targets)
    as (l1 & Hm1 & Hlen1 & Hall1).
  { intros p d. eexists. split; [done|]. simpl. split; [|done]. by destruct p as [k []]. }
  { done. }
  { intros j s Hj. apply Ht. by eapply list_elem_of_lookup_2. }
  destruct (migrate_table (fun p : Z * ReservationRow => rr_scope p.2)
    (fun p => insert_migrated_reservation p.1 (rr_scope p.2) (rr_ceiling p.2) (rr_actual p.2)
                (rr_settled p.2) (rr_expires_at p.2) (rr_settled_at p.2))
    budget_reservation budget_limit) with (rows := map_to_list (budget_reservation legacy)) (l := l1)
    as (l2 & Hm2 & Hlen2 & Hall2).
  { intros p d. eexists. split; [done|]. simpl. split; [|done]. by destruct p as [k []]. }
  { by rewrite Hlen1. }
  { intros j s Hj. assert (Hj' : (j < length targets)%nat)
      by (rewrite <- Hlen1; by eapply lookup_lt_Some).
    destruct (lookup_lt_is_Some_2 _ _ Hj') as [s0 Hs0].
    destruct (Hall1 j s0 Hs0) as (s1 & Hs1 & Hf1 & _). congruence. }
  exists l2. unfold limit_rows, reservation_rows. rewrite migrate_rows_app, Hm1, Hm2.
  split; [done|]. split; [by rewrite Hlen2, Hlen1|]. intros j s Hs.
  assert (Hj : (j < length targets)%nat) by (rewrite <- Hlen1, <- Hlen2; by eapply lookup_lt_Some).
  destruct (lookup_lt_is_Some_2 _ _ Hj) as [s0 Hs0].
  destruct (Ht s0 ltac:(by eapply list_elem_of_lookup_2)) as (_ & He1 & He2).
  destruct (Hall1 j s0 Hs0) as (s1 & Hs1 & _ & Hr1 & Hg1).
  destruct (Hall2 j s1 Hs1) as (s2 & Hs2 & _ & Hr2 & Hg2).
  assert (s2 = s) as -> by congruence. rewrite Hr1, He2, Hlen1 in Hg2. rewrite He1 in Hg1. split.
  - intros sc. rewrite Hr2, Hg1, foldl_on_shard. unfold on_shard. simpl.
    destruct (budget_limit legacy !! sc); by destruct (bool_decide _).
  - intros i. rewrite Hg2. apply foldl_on_shard.
Qed.

(** A sum over one scope survives the split of the table by shard. *)
Lemma split_sum n j sc (f : ReservationRow -> Z) (rows part : gmap Z ReservationRow) :
  (forall v, rr_scope v <> sc -> f v = 0) ->
  (forall i, part !! i = match rows !! i with
     | Some v => if bool_decide (route n (rr_scope v) = j) then Some v else None
     | None => None end) ->
  msum f part = if bool_decide (route n sc = j) then msum f rows else 0.
Proof.
  intros Hf Hrows. destruct (decide (route n sc = j)) as [Heq|Hne].
  - rewrite bool_decide_true by done. apply msum_pointwise. intros i. rewrite Hrows.
    destruct (rows !! i) as [v|]; [|done].
    destruct (decide (rr_scope v = sc)) as [->|Hnsc].
    + by rewrite bool_decide_true.
    + simpl. rewrite (Hf v Hnsc). case_match; simpl; [apply (Hf v Hnsc)|done].
  - rewrite bool_decide_false by done. rewrite <- (msum_zero part).
    apply msum_ext. intros i v. rewrite Hrows. destruct (rows !! i) as [v'|]; [|done].
    destruct (bool_decide_reflect (route n (rr_scope v') = j)); [|done].
    intros [= <-]. apply Hf. congruence.
Qed.

(** Migrating a legacy file to N shards loses and duplicates nothing.
    For a file without settlement evidence and execution intents, on empty
    targets and with storage that answers: every budget row and every reservation ends on the
    shard its scope routes to and nowhere else; so each scope's cap, spend
    over any window and held tokens on its shard are those of the legacy
    file, and the legacy file is emptied. *)
Theorem migration_preserves_scopes (legacy : Db) (targets : list Store) :
  (0 < length targets)%nat -> (forall s, s ∈ targets -> empty_target s) ->
  budget_settlement_outbox legacy = ∅ -> budget_execution_intent legacy = ∅ ->
  exists legacy' targets', migrate_legacy true (MkStore legacy []) targets = (Ok tt, legacy', targets') /\
    budget_limit (st_db legacy') = ∅ /\ budget_reservation (st_db legacy') = ∅ /\
    forall j s sc start, targets' !! j = Some s ->
      let mine := bool_decide (route (length targets) sc = j) in
      budget_limit (st_db s) !! sc = (if mine then budget_limit legacy !! sc else None) /\
      msum (spent_since sc start) (budget_reservation (st_db s)) =
        (if mine then msum (spent_since sc start) (budget_reservation legacy) else 0) /\
      msum (held_by sc) (budget_reservation (st_db s)) =
        (if mine then msum (held_by sc) (budget_reservation legacy) else 0).
Proof.
  intros Hl Ht Ho Hi. destruct (migrate_rows_run legacy targets Hl Ht) as (l2 & Hm & _ & Hall).
  exists (MkStore (set_budget_limit ∅ (set_reservations ∅ legacy)) []), l2.
  split; [|split; [done|split; [done|]]].
  { unfold migrate_legacy. by rewrite (read_legacy_rows legacy Ho Hi), Hm. }
  intros j s sc start Hs mine. destruct (Hall j s Hs) as [Hlim Hrows]. split; [apply Hlim|].
  split; (apply split_sum; [|exact Hrows]); intros v Hv; unfold spent_since, held_by;
    by rewrite bool_decide_false.
Qed.

Definition legacy_demo : Db :=
  MkDb {[ "alpha" := MkLimitRow (Some 10) "total" "block" ]}
    {[ 1 := MkReservationRow "alpha" 5 0 0 None 100; 2 := MkReservationRow "beta" 7 6 1 (Some 3) 100 ]}
    2 ∅ ∅ ∅ ∅ ∅ ∅ true.

Lemma migration_preserves_scopes_witness :
  exists legacy' targets',
    migrate_legacy true (MkStore legacy_demo []) (replicate 3 (MkStore (db_empty true) [])) =
      (Ok tt, legacy', targets') /\
    forall j s, targets' !! j = Some s -> route 3 "beta" = j ->
      msum (spent_since "beta" 0) (budget_reservation (st_db s)) = 6.
Proof.
  destruct (migration_preserves_scopes legacy_demo (replicate 3 (MkStore (db_empty true) [])))
    as (l' & t' & Hm & _ & _ & Hall).
  - rewrite length_replicate. lia.
  - intros s Hs. by apply elem_of_replicate in Hs as [-> _].
  - reflexivity.
  - reflexivity.
  - exists l', t'. split; [exact Hm|]. intros j s Hs Hr.
    destruct (Hall j s "beta" 0 Hs) as (_ & Hsp & _).
    rewrite length_replicate, bool_decide_true in Hsp by exact Hr. rewrite Hsp. by vm_compute.
Defined.
