(* ===== verification/ProxyLedger.v ===== *)
(** [crates/sandhi-proxy/src/ledger.rs]: the proxy's ledger, an in-memory or
    a sharded durable arm behind one interface, with the fail-open /
    fail-closed policy on storage errors.  A panic (of [now + ttl], or of a
    poisoned shard lock) is [None].  [clock] is [OffsetDateTime::now_utc]. *)

From S2P Require Import Prelude Ledger InMemory Budget Sql SqlLedger SqlContract Usage Evidence.
From S2P Require Import EvidenceOps EvidenceInv Sharded.

Definition RESERVATION_TTL_SECS : Z := 900.
Definition ttl : Z := seconds RESERVATION_TTL_SECS.

Inductive Admission :=
| Leased (r : Reservation)
| Unmetered
| Refused.

Inductive ProxyLedger :=
| Memory (l : InMemoryLedger)
| Durable (l : ShardedLedger).

Definition in_memory : ProxyLedger := Memory im_new.
Definition is_volatile (l : ProxyLedger) : bool :=
  match l with Memory _ => true | Durable _ => false end.

(** Unwinding: a panic is no result. *)
Definition unwind {A} (x : result SqlError A * ShardedLedger)
    : option (result SqlError A * ProxyLedger) :=
  match x with
  | (Err Panicked, _) => None
  | (r, d) => Some (r, Durable d)
  end.

Section ProxyLedger.
Context `{Calendar}.

Definition pl_seen (l : ProxyLedger) (vkey idem_key : string) (clock : Z)
    : option (option (Z * Z) * ProxyLedger) :=
  match l with
  | Memory _ => Some (None, l)
  | Durable d => '(r, l) ← unwind (sh_seen d vkey idem_key clock); Some (ok_default None r, l)
  end.

Definition pl_record (l : ProxyLedger) (vkey idem_key : string) (reservation actual clock : Z)
    : option ProxyLedger :=
  match l with
  | Memory _ => Some l
  | Durable d => snd <$> unwind (sh_record d vkey idem_key reservation actual clock ttl)
  end.

Definition pl_set_budget (l : ProxyLedger) (scope : string) (lim : option Z) (w : Window) (p : Policy)
    : option (result SqlError unit * ProxyLedger) :=
  match l with
  | Memory m =>
      let enforced := match p with Block => lim | Warn => None end in
      Some (Ok tt, Memory (set_limit m scope enforced))
  | Durable d => unwind (sh_set_limit d scope lim w p)
  end.

Definition pl_reserve (l : ProxyLedger) (scope : string) (ceiling now : Z) (policy : Policy)
    : option (Admission * ProxyLedger) :=
  match l with
  | Memory m =>
      '(r, m) ← reserve m scope ceiling now ttl;
      Some (match r with Ok lease => Leased lease | Err _ => Refused end, Memory m)
  | Durable d =>
      '(r, l) ← unwind (sh_reserve d scope ceiling now ttl);
      Some (match r with
            | Ok (Admitted_ lease) => Leased lease
            | Ok (Denied_ _) => Refused
            | Err _ => match policy with Warn => Unmetered | Block => Refused end
            end, l)
  end.

Definition pl_settle (l : ProxyLedger) (reservation : Reservation) (actual clock : Z)
    : option ProxyLedger :=
  match l with
  | Memory m => Some (Memory (settle m (rsv_id reservation) actual))
  | Durable d =>
      snd <$> unwind (sh_settle d (rsv_scope reservation) (rsv_id reservation) actual clock)
  end.

Definition pl_limit (l : ProxyLedger) (scope : string) : option (option Z * ProxyLedger) :=
  match l with
  | Memory m => Some (limit m scope, l)
  | Durable d => '(r, l) ← unwind (sh_limit d scope); Some (ok_default None r, l)
  end.

Definition try_spent (l : ProxyLedger) (scope : string) (clock : Z)
    : option (result SqlError Z * ProxyLedger) :=
  match l with
  | Memory m => Some (Ok (spent m scope), l)
  | Durable d => unwind (sh_spent d scope clock)
  end.
Definition pl_spent (l : ProxyLedger) (scope : string) (clock : Z) : option (Z * ProxyLedger) :=
  '(r, l) ← try_spent l scope clock; Some (ok_default 0 r, l).

Definition pl_reserved (l : ProxyLedger) (scope : string) : option (Z * ProxyLedger) :=
  match l with
  | Memory m => Some (reserved m scope, l)
  | Durable d => '(r, l) ← unwind (sh_reserved d scope); Some (ok_default 0 r, l)
  end.

Definition pl_budgets (l : ProxyLedger) : option (list BudgetRow) :=
  match l with
  | Memory _ => Some []
  | Durable d =>
      match sh_list_budgets d with
      | Err Panicked => None
      | r => Some (ok_default [] r)
      end
  end.

Definition pl_reclaim_expired (l : ProxyLedger) (now : Z) : option (Z * ProxyLedger) :=
  match l with
  | Memory m => let '(n, m) := reclaim_expired m now in Some (n, Memory m)
  | Durable d => '(r, l) ← unwind (sh_reclaim d now); Some (ok_default 0 r, l)
  end.
End ProxyLedger.

(** ** The mutex around the ledger *)

Record Mutex (A : Type) := MkMutex { mx_locked : bool; mx_poisoned : bool; mx_value : A }.
Arguments MkMutex {_} _ _ _.
Arguments mx_locked {_} _.
Arguments mx_poisoned {_} _.
Arguments mx_value {_} _.

(** [lock().map(..).unwrap_or(0)]: a poisoned lock sweeps nothing.  A panic
    of the sweep is [None] and poisons the lock. *)
Definition reclaim_sweep_at `{Calendar} (m : Mutex ProxyLedger) (now : Z)
    : option Z * Mutex ProxyLedger :=
  if mx_poisoned m then (Some 0, m)
  else match pl_reclaim_expired (mx_value m) now with
       | Some (n, l) => (Some n, MkMutex (mx_locked m) false l)
       | None => (None, MkMutex (mx_locked m) true (mx_value m))
       end.

(** ** Runs *)

Inductive pop :=
| PSetBudget (scope : string) (lim : option Z) (w : Window) (p : Policy)
| PReserve (scope : string) (ceiling now : Z) (policy : Policy)
| PSettle (reservation : Reservation) (actual clock : Z)
| PSeen (vkey idem_key : string) (clock : Z)
| PRecord (vkey idem_key : string) (reservation actual clock : Z)
| PSpent (scope : string) (clock : Z)
| PReserved (scope : string)
| PLimit (scope : string)
| PReclaim (now : Z).

Definition pstep `{Calendar} (l : ProxyLedger) (o : pop) : option ProxyLedger :=
  match o with
  | PSetBudget sc lim w p => snd <$> pl_set_budget l sc lim w p
  | PReserve sc c now p => snd <$> pl_reserve l sc c now p
  | PSettle r a clk => pl_settle l r a clk
  | PSeen vk ik clk => snd <$> pl_seen l vk ik clk
  | PRecord vk ik r a clk => pl_record l vk ik r a clk
  | PSpent sc clk => snd <$> pl_spent l sc clk
  | PReserved sc => snd <$> pl_reserved l sc
  | PLimit sc => snd <$> pl_limit l sc
  | PReclaim now => snd <$> pl_reclaim_expired l now
  end.

Fixpoint prun `{Calendar} (l : ProxyLedger) (ops : list pop) : option ProxyLedger :=
  match ops with
  | [] => Some l
  | o :: ops => l ← pstep l o; prun l ops
  end.

(** The operations that leave a scope's budget alone. *)
Definition keeps_budget (scope : string) (o : pop) : bool :=
  match o with PSetBudget sc _ _ _ => negb (bool_decide (sc = scope)) | _ => true end.

(** ** What a step does to the tables *)

Section Steps.
Context `{Calendar}.

Definition sh_db (sh : Shard) : Db := st_db (sh_store sh).

(** Every shard's tables are related. *)
Definition shards_keep (R : Db -> Db -> Prop) (d d' : ShardedLedger) : Prop :=
  Forall2 (fun a b => R (sh_db a) (sh_db b)) d d'.

#[export] Instance shards_keep_refl R `{!Reflexive R} : Reflexive (shards_keep R).
Proof. intros d. unfold shards_keep. induction d; by constructor. Qed.

Lemma shards_keep_trans (R : Db -> Db -> Prop) `{!Transitive R} d1 d2 d3 :
  shards_keep R d1 d2 -> shards_keep R d2 d3 -> shards_keep R d1 d3.
Proof.
  intros H12. revert d3. induction H12 as [|a b d1 d2 Hab _ IH]; intros d3 H23;
    inversion H23 as [|b' c ? d3' Hbc H23']; subst; constructor; [by etransitivity|].
  by apply IH.
Qed.

Lemma at_shard_keeps (R : Db -> Db -> Prop) `{!Reflexive R} {A} (m : M SqlError A) d i :
  keeps R m -> shards_keep R d (at_shard d i m).2.
Proof.
  intros Hm. unfold at_shard. destruct (d !! i) as [sh|] eqn:Hi; [|done].
  unfold call_shard. destruct (sh_poisoned sh); simpl.
  { by rewrite list_insert_id. }
  destruct (m (sh_store sh)) as [r s] eqn:Em. simpl.
  rewrite <- (list_insert_id d i sh) at 1 by done.
  apply Forall2_insert; [apply shards_keep_refl, _|]. eapply Hm, Em.
Qed.

Lemma reclaim_from_keeps (R : Db -> Db -> Prop) `{!PreOrder R} now ixs : forall d total,
  keeps R (reclaim_expired_durable now) -> shards_keep R d (reclaim_from d ixs now total).2.
Proof.
  induction ixs as [|i ixs IH]; intros d total Hm; simpl; [reflexivity|].
  pose proof (at_shard_keeps R (reclaim_expired_durable now) d i Hm) as Hi.
  destruct (at_shard d i _) as [[n|e] d1]; simpl in *; [|done].
  eapply shards_keep_trans; [apply _|exact Hi|]. by apply IH.
Qed.

(** The program an operation runs on its shard keeps [R]. *)
Definition prog_keeps (R : Db -> Db -> Prop) (o : pop) : Prop :=
  match o with
  | PSetBudget sc lim w p => keeps R (set_limit_durable sc lim w p)
  | PReserve sc c now _ => keeps R (reserve_durable sc c now ttl)
  | PSettle r a clk => keeps R (settle_durable (rsv_id r) a clk)
  | PSeen vk ik clk => keeps R (seen_durable vk ik clk)
  | PRecord vk ik r a clk => keeps R (record_durable vk ik r a clk ttl)
  | PSpent sc clk => keeps R (spent_durable sc clk)
  | PReserved sc => keeps R (reserved_durable sc)
  | PLimit sc => keeps R (limit_durable sc)
  | PReclaim now => keeps R (reclaim_expired_durable now)
  end.

Lemma unwind_some {A} (x : result SqlError A * ShardedLedger) r l :
  unwind x = Some (r, l) -> x.1 = r /\ l = Durable x.2 /\ r <> Err Panicked.
Proof. unfold unwind. destruct x as [[a|[]] d]; naive_solver. Qed.

Lemma pstep_durable (R : Db -> Db -> Prop) `{!PreOrder R} (o : pop) d l' :
  prog_keeps R o -> pstep (Durable d) o = Some l' ->
  exists d', l' = Durable d' /\ shards_keep R d d'.
Proof.
  intros Hk Hs.
  assert (Hx : exists A (x : result SqlError A * ShardedLedger) r,
    unwind x = Some (r, l') /\ shards_keep R d x.2).
  { destruct o; simpl in *; unfold pl_reserve, pl_seen, pl_record, pl_spent, try_spent, pl_settle,
      pl_reserved, pl_limit, pl_reclaim_expired, pl_set_budget in Hs;
      repeat (case_match || simplify_option_eq || match goal with x : _ * _ |- _ => destruct x end).
    all: do 3 eexists; (split; [eassumption|]).
    all: first [ apply (at_shard_keeps R); exact Hk | by apply reclaim_from_keeps ]. }
  destruct Hx as (A & x & r & (_ & -> & _)%unwind_some & Hd). by exists x.2.
Qed.

(** A call on a shard, seen from the whole ledger. *)
Lemma with_shard_at {A} (m : M SqlError A) d scope r l' :
  unwind (with_shard d scope m) = Some (r, l') ->
  exists sh s', d !! shard_for d scope = Some sh /\ m (sh_store sh) = (r, s') /\
    l' = Durable (<[shard_for d scope := MkShard s' false]> d).
Proof.
  unfold with_shard, at_shard. intros (Hr & -> & Hp)%unwind_some.
  destruct (d !! shard_for d scope) as [sh|]; [|by destruct Hp].
  unfold call_shard in *. destruct (sh_poisoned sh); simpl in *; [by destruct Hp|].
  destruct (m (sh_store sh)) as [r' s'] eqn:Em. simpl in *. subst r'.
  exists sh, s'. rewrite bool_decide_false; [done|]. destruct r; naive_solver.
Qed.

(** C6: Admission is atomic, funded and fails closed.  Whatever the state of
    the ledger and wherever storage fails: a lease handed out by the
    durable arm is one new row of the scope's shard, committed, and (for a
    blocking budget) it fits the cap over the scope's current window with
    every remaining lease counted; an unmetered admission happens only
    under the [Warn] policy; a refusal changes no table, unless a commit
    took effect and was then reported as failed; no other shard moves; and
    the in-memory arm never admits unmetered. *)
Theorem proxy_reserve_fails_closed (l l' : ProxyLedger) (scope : string) (ceiling now : Z)
    (policy : Policy) (a : Admission) :
  pl_reserve l scope ceiling now policy = Some (a, l') ->
  match l with
  | Memory _ => a <> Unmetered
  | Durable d =>
      exists sh sh', d !! shard_for d scope = Some sh /\
        l' = Durable (<[shard_for d scope := sh']> d) /\
        let committed r := admission (sh_db sh) (sh_db sh') scope ceiling now ttl r in
        match a with
        | Leased r => committed r
        | Unmetered => policy = Warn /\ (sh_db sh' = sh_db sh \/ exists r, committed r)
        | Refused => sh_db sh' = sh_db sh \/ policy = Block /\ exists r, committed r
        end
  end.
Proof.
  intros Hr. destruct l as [m|d].
  - simpl in Hr. destruct (im_reserve m scope ceiling now ttl) as [[[r|e] m']|]; naive_solver.
  - unfold pl_reserve in Hr. destruct (unwind _) as [[r l1]|] eqn:Hu; [|done]. injection Hr as <- <-.
    apply with_shard_at in Hu as (sh & s' & Hsh & Hres & ->).
    exists sh, (MkShard s' false). split; [done|]. split; [done|].
    pose proof (reserve_durable_atomic scope ceiling now ttl (sh_store sh)) as Hat.
    rewrite Hres in Hat. unfold sh_db. simpl. destruct r as [[r|dn]|e]; [done|by left|].
    destruct policy; [destruct Hat as [|]; auto|done].
Qed.

(** *** Soft caps *)

Definition budget_fixed (sc : string) (d d' : Db) : Prop :=
  budget_limit d' !! sc = budget_limit d !! sc.
#[export] Instance budget_fixed_preorder sc : PreOrder (budget_fixed sc).
Proof. split; [done|]. intros d1 d2 d3 H1 H2. unfold budget_fixed in *. congruence. Qed.

(** A statement that changes other tables only. *)
Lemma keeps_stmt_fixed {E} (sql : SqlError -> E) {A} (f : Db -> result SqlError (A * Db)) sc :
  (forall d a d', f d = Ok (a, d') -> budget_limit d' = budget_limit d) ->
  keeps (budget_fixed sc) (stmt sql f).
Proof. intros Hf. apply (keeps_stmt _). intros d a d' Hd. red. by rewrite (Hf d a d'). Qed.

Lemma update_unsettled_limit id f d : budget_limit (update_unsettled id f d).2 = budget_limit d.
Proof. unfold update_unsettled. by repeat case_match. Qed.

Lemma pop_budget_fixed sc o : keeps_budget sc o = true -> prog_keeps (budget_fixed sc) o.
Proof.
  intros Hk. destruct o; simpl in *; unfold set_limit_durable, reserve_durable, reserve_in_transaction,
    capacity_check, settle_durable, seen_durable, record_durable, spent_durable, window_of_durable,
    reserved_durable, limit_durable, reclaim_expired_durable, squery, sstmt; keeps.
  all: try (apply keeps_stmt_fixed; intros db x db' Hd;
            try (unfold insert_reservation in Hd; case_match; [|done]); by injection Hd as ? <-).
  - apply (keeps_stmt _). intros db x db' Hd. injection Hd as ? <-. red. simpl.
    apply negb_true_iff, bool_decide_eq_false in Hk. by rewrite lookup_insert_ne.
  - apply keeps_stmt_fixed. intros db x db' Hd. injection Hd as Hd.
    by rewrite <- (update_unsettled_limit (as_i64 (rsv_id reservation))
                     (settle_row (as_i64 actual) (unix_timestamp clock)) db), Hd.
Qed.

(** The scope's budget cannot refuse: uncapped, or a [Warn] row. *)
Definition soft (l : ProxyLedger) (sc : string) : Prop :=
  match l with
  | Memory m => limit m sc = None
  | Durable d => forall sh row, d !! shard_for d sc = Some sh ->
                   budget_limit (sh_db sh) !! sc = Some row -> Policy_parse (lr_policy row) = Warn
  end.

Lemma soft_limits m m' sc : im_limits m' = im_limits m -> soft (Memory m) sc -> soft (Memory m') sc.
Proof. simpl. unfold im_limit. by intros ->. Qed.

Lemma soft_step l l' o sc :
  keeps_budget sc o = true -> pstep l o = Some l' -> soft l sc -> soft l' sc.
Proof.
  intros Hk Hs Hsoft. destruct l as [m|d].
  - destruct o; simpl in Hs; try (injection Hs as <-; exact Hsoft).
    + injection Hs as <-. simpl in *. apply negb_true_iff, bool_decide_eq_false in Hk.
      unfold im_limit, im_set_limit in *. simpl. by rewrite lookup_insert_ne.
    + unfold im_reserve, im_admit in Hs. simplify_option_eq;
        repeat (case_match || simplify_option_eq || match goal with x : _ * _ |- _ => destruct x end);
        exact Hsoft.
    + injection Hs as <-. eapply soft_limits, Hsoft. unfold im_settle. by case_match.
    + unfold im_reclaim_expired in Hs. destruct (foldl _ _ _). injection Hs as <-. exact Hsoft.
  - destruct (pstep_durable (budget_fixed sc) o d l') as (d' & -> & Hd); [by apply pop_budget_fixed|done|].
    intros sh' row Hsh' Hrow. unfold shard_for in *. rewrite <- (Forall2_length _ _ _ Hd) in Hsh'.
    destruct (Forall2_lookup_r _ _ _ _ _ Hd Hsh') as (sh & Hsh & Hf). red in Hf.
    apply (Hsoft sh row); [done|]. by rewrite <- Hf.
Qed.

Lemma soft_run ops : forall l l' sc,
  forallb (keeps_budget sc) ops = true -> prun l ops = Some l' -> soft l sc -> soft l' sc.
Proof.
  induction ops as [|o ops IH]; intros l l' sc Hk Hr Hl; simpl in *; [naive_solver|].
  apply andb_true_iff in Hk as [Hk1 Hk2].
  destruct (pstep l o) as [l1|] eqn:Ho; simpl in Hr; [|done].
  eapply IH, soft_step; eauto.
Qed.

(** Only a blocking budget refuses. *)
Lemma denied_blocks sc ceiling now tt_ s dn s' :
  reserve_durable sc ceiling now tt_ s = (Ok (Denied_ dn), s') ->
  exists row, budget_limit (st_db s) !! sc = Some row /\ Policy_parse (lr_policy row) = Block.
Proof.
  intros (s0 & s1 & c & H0 & Hb & _)%transaction_ok. rewrite <- H0.
  apply M_bind_ok in Hb as (out & s2 & Hin & Hb). injection Hb as -> <- <-.
  unfold reserve_in_transaction, sstmt, squery in Hin.
  apply M_bind_ok in Hin as (c & s1 & [_ ->]%lift_ok & Hin).
  apply M_bind_ok in Hin as (e & s1 & [_ ->]%lift_ok & Hin).
  apply M_bind_ok in Hin as (n & s1 & Hd%stmt_ok & Hin). injection Hd as _ Hd.
  apply M_bind_ok in Hin as (b & s3 & [Hb Hs3]%query_ok & Hin). injection Hb as Hb.
  apply M_bind_ok in Hin as (den & s4 & Hden & Hin).
  rewrite <- Hd in Hb. simpl in Hb. rewrite Hb.
  destruct den as [den|]; [clear Hin|].
  - destruct b as [[[lim|] w p]|]; [|done..]. exists (MkLimitRow (Some lim) w p). split; [done|].
    unfold capacity_check, squery in Hden. inv_m. simpl.
    destruct (bool_decide (Policy_parse p = Block)) eqn:Hp; [by apply bool_decide_eq_true in Hp|done].
  - apply M_bind_ok in Hin as (id & s5 & _ & Hin). by injection Hin.
Qed.

Lemma soft_set_budget l l' sc lim w : pl_set_budget l sc lim w Warn = Some (Ok tt, l') -> soft l' sc.
Proof.
  destruct l as [m|d]; intros Hs.
  - injection Hs as <-. simpl. unfold im_limit, im_set_limit. simpl. by rewrite lookup_insert_eq.
  - apply with_shard_at in Hs as (sh & s' & Hsh & Hset & ->). intros sh' row Hsh' Hrow.
    unfold shard_for in *. rewrite length_insert, list_lookup_insert_eq in Hsh'
      by (by eapply lookup_lt_Some). injection Hsh' as <-.
    unfold set_limit_durable, sstmt in Hset. apply M_bind_ok in Hset as (o & s1 & [_ ->]%lift_ok & Hst).
    apply stmt_ok in Hst. injection Hst as Hst. unfold sh_db in Hrow. simpl in Hrow.
    rewrite <- Hst in Hrow. simpl in Hrow. rewrite lookup_insert_eq in Hrow. by injection Hrow as <-.
Qed.

(** A soft cap never refuses.  Once a scope's budget was set under
    [Warn], and until it is set again, no call of that scope is refused:
    whatever the cap, whatever else runs on either arm of the ledger and
    wherever storage fails, the call is admitted, with a lease or
    unmetered. *)
Theorem soft_cap_never_refuses (l0 l1 l2 l3 : ProxyLedger) (scope : string) (lim : option Z)
    (w : Window) (ops : list pop) (ceiling now : Z) (a : Admission) :
  pl_set_budget l0 scope lim w Warn = Some (Ok tt, l1) ->
  forallb (keeps_budget scope) ops = true -> prun l1 ops = Some l2 ->
  pl_reserve l2 scope ceiling now Warn = Some (a, l3) -> a <> Refused.
Proof.
  intros Hset Hk Hrun Hres. apply soft_set_budget in Hset. pose proof (soft_run ops l1 l2 scope Hk Hrun Hset) as Hsoft.
  destruct l2 as [m|d].
  - simpl in *. unfold im_reserve, im_admit in Hres. simpl in Hres. rewrite Hsoft in Hres.
    destruct (instant_add now ttl); simpl in Hres; naive_solver.
  - unfold pl_reserve in Hres. destruct (unwind _) as [[r l4]|] eqn:Hu; [|done]. injection Hres as <- <-.
    apply with_shard_at in Hu as (sh & s' & Hsh & Hd & ->). destruct r as [[r|dn]|e]; [done| |done].
    apply denied_blocks in Hd as (row & Hrow & Hb). pose proof (Hsoft sh row Hsh Hrow). congruence.
Qed.

(** *** Hard caps *)

(** What a lease or a call counts against the cap: at most what it
    reserved. *)
Definition covered (sc : string) (r : ReservationRow) : Z :=
  Z.min (spent_since sc 0 r) (rr_ceiling r) + held_by sc r.
(** What a settled call recorded beyond what it reserved. *)
Definition excess (sc : string) (r : ReservationRow) : Z := Z.max 0 (spent_since sc 0 r - rr_ceiling r).

Record rows_ok (d : Db) : Prop := {
  ro_keys : forall i r, budget_reservation d !! i = Some r -> i <= reservation_seq d;
  ro_ceilings : forall i r, budget_reservation d !! i = Some r -> 0 <= rr_ceiling r }.

Definition hard_cap (sc : string) (cap : Z) (d : Db) : Prop :=
  exists w p, budget_limit d !! sc = Some (MkLimitRow (Some cap) w p) /\
    Window_parse w = Total /\ Policy_parse p = Block.

Definition covered_total (sc : string) (d : Db) : Z := msum (covered sc) (budget_reservation d).

(** The cap binds what is covered. *)
Definition cap_keeps (sc : string) (cap : Z) (d d' : Db) : Prop :=
  rows_ok d -> hard_cap sc cap d ->
  rows_ok d' /\ hard_cap sc cap d' /\ covered_total sc d' <= Z.max cap (covered_total sc d).

#[export] Instance cap_keeps_preorder sc cap : PreOrder (cap_keeps sc cap).
Proof.
  split.
  - intros d Hr Hc. split; [done|]. split; [done|lia].
  - intros d1 d2 d3 H12 H23 Hr Hc. destruct (H12 Hr Hc) as (Hr2 & Hc2 & H2).
    destruct (H23 Hr2 Hc2) as (Hr3 & Hc3 & H3). split; [done|]. split; [done|lia].
Qed.

Lemma covered_nonneg sc r : 0 <= rr_ceiling r -> rr_settled r = 0 -> 0 <= covered sc r.
Proof.
  intros Hc Hs. unfold covered, spent_since, held_by. rewrite Hs. simpl. rewrite andb_false_r. simpl.
  case_match; lia.
Qed.

Lemma cap_keeps_frame sc cap d d' :
  budget_reservation d' = budget_reservation d -> reservation_seq d' = reservation_seq d ->
  budget_limit d' !! sc = budget_limit d !! sc -> cap_keeps sc cap d d'.
Proof.
  intros E1 E2 E3 [Hk Hc] Hh. split; [split; rewrite E1, ?E2; done|].
  split; [unfold hard_cap; by rewrite E3|]. unfold covered_total. rewrite E1. lia.
Qed.

(** Deleting unsettled rows. *)
Lemma cap_keeps_delete sc cap (p : Z -> ReservationRow -> bool) d :
  (forall i r, p i r = true -> rr_settled r = 0) -> cap_keeps sc cap d (delete_reservations p d).2.
Proof.
  intros Hp [Hk Hc] Hh. simpl. split; [|split; [done|]].
  - split; simpl; intros i r [Hr _]%map_lookup_filter_Some; eauto.
  - unfold covered_total. simpl. etransitivity; [|apply Z.le_max_r].
    set (rows := budget_reservation d) in *. clear Hk Hh.
    induction rows as [|i r rows Hi IH] using map_ind; [by rewrite map_filter_empty|].
    assert (IH' := IH (fun j r' Hj => Hc j r' ltac:(rewrite lookup_insert_ne; [done|congruence]))).
    specialize (Hc i r (lookup_insert_eq rows i r)). rewrite msum_insert by done.
    destruct (p i r) eqn:Hpi.
    + rewrite map_filter_insert_False by (simpl; congruence). rewrite delete_id by done.
      pose proof (covered_nonneg sc r Hc (Hp i r Hpi)). lia.
    + rewrite map_filter_insert_True by done.
      rewrite msum_insert by (apply map_lookup_filter_None; by left). lia.
Qed.

(** Settling an unsettled row records at most its ceiling as covered. *)
Lemma cap_keeps_settle sc cap id actual at_ d :
  cap_keeps sc cap d (update_unsettled id (settle_row actual at_) d).2.
Proof.
  unfold update_unsettled. destruct (budget_reservation d !! id) as [r|] eqn:Hr; [|reflexivity].
  destruct (rr_settled r =? 0) eqn:Hs; [|reflexivity]. intros [Hk Hc] Hh. simpl.
  split; [|split; [done|]].
  - split; simpl; intros i r' [[<- <-]|[_ Hi]]%lookup_insert_Some; simpl; eauto.
  - unfold covered_total. simpl. rewrite (msum_update _ _ _ r) by done.
    enough (covered sc (settle_row actual at_ r) <= covered sc r) by lia.
    apply Z.eqb_eq in Hs. specialize (Hc _ _ Hr). unfold covered, spent_since, held_by, settle_row. simpl.
    rewrite Hs, !andb_false_r. simpl. rewrite !andb_true_r.
    destruct (bool_decide (rr_scope r = sc)); simpl; repeat case_match; lia.
Qed.

Lemma cap_keeps_admission sc cap d d' scope ceiling now r :
  admission d d' scope ceiling now ttl r -> 0 <= ceiling -> cap_keeps sc cap d d'.
Proof.
  intros [_ _ -> Hcap] Hc Hr Hh.
  set (p := fun id r => bool_decide (rr_scope r = scope) && reclaimable d (unix_timestamp now) id r) in *.
  assert (Hp : forall i r, p i r = true -> rr_settled r = 0).
  { intros i r' Hp. unfold p, reclaimable in Hp. bools. lia. }
  destruct (cap_keeps_delete sc cap p d Hp Hr Hh) as ([Hk' Hc'] & _ & Hle).
  fold (swept_rows d scope now) in Hle. unfold covered_total in *. simpl in Hk', Hc'.
  change (filter _ _) with (swept_rows d scope now) in Hk', Hc'.
  change (budget_reservation (delete_reservations p d).2) with (swept_rows d scope now) in Hle.
  split; [|split; [done|]].
  - split; simpl; intros i r' [[<- <-]|[_ Hi]]%lookup_insert_Some; simpl; try lia; eauto.
    specialize (Hk' _ _ Hi). lia.
  - simpl. rewrite msum_insert.
    2:{ destruct (swept_rows d scope now !! _) eqn:He; [|done]. apply Hk' in He. lia. }
    destruct (decide (scope = sc)) as [->|Hne].
    + destruct Hh as (w & po & Hrow & Hw & Hpo). specialize (Hcap cap w po Hrow Hpo).
      rewrite Hw in Hcap. simpl in Hcap.
      assert (Hcov : msum (covered sc) (swept_rows d sc now) <=
        msum (fun r => spent_since sc 0 r + held_by sc r) (swept_rows d sc now)).
      { apply msum_mono. intros i x _. unfold covered. lia. }
      rewrite msum_add in Hcov. unfold covered at 1, spent_since at 1, held_by at 1. simpl.
      rewrite bool_decide_true by done. simpl. lia.
    + unfold covered at 1, spent_since, held_by. simpl. rewrite bool_decide_false by done. simpl. lia.
Qed.

(** The operations a hard cap is kept through: the scope's budget is left
    alone and ceilings are unsigned. *)
Definition cap_op (sc : string) (o : pop) : bool :=
  keeps_budget sc o && match o with PReserve _ c _ _ => 0 <=? c | _ => true end.

Lemma reclaimable_unsettled d now i r : reclaimable d now i r = true -> rr_settled r = 0.
Proof. unfold reclaimable. intros Hr. bools. lia. Qed.

Lemma pop_cap_keeps sc cap o : cap_op sc o = true -> prog_keeps (cap_keeps sc cap) o.
Proof.
  unfold cap_op. intros [Hk Ho]%andb_true_iff. destruct o; simpl in *.
  2:{ intros s r s' Hr. pose proof (reserve_durable_atomic scope ceiling now ttl s) as Ha.
      rewrite Hr in Ha. apply Z.leb_le in Ho. destruct r as [[r|]|e].
      - by eapply cap_keeps_admission.
      - by rewrite Ha.
      - destruct Ha as [->|[r Ha]]; [done|by eapply cap_keeps_admission]. }
  all: unfold set_limit_durable, settle_durable, seen_durable, record_durable, spent_durable,
    window_of_durable, reserved_durable, limit_durable, reclaim_expired_durable, squery, sstmt; keeps;
    apply (keeps_stmt _); intros db x db' Hd.
  - injection Hd as _ <-. apply cap_keeps_frame; try done. simpl.
    apply negb_true_iff, bool_decide_eq_false in Hk. by rewrite lookup_insert_ne.
  - injection Hd as Hd.
    pose proof (cap_keeps_settle sc cap (as_i64 (rsv_id reservation)) (as_i64 actual)
                  (unix_timestamp clock) db) as Hs. by rewrite Hd in Hs.
  - injection Hd as _ <-. by apply cap_keeps_frame.
  - injection Hd as _ <-. by apply cap_keeps_frame.
  - injection Hd as _ <-. apply cap_keeps_delete. intros i r. apply reclaimable_unsettled.
  - injection Hd as _ <-. by apply cap_keeps_frame.
Qed.

Lemma cap_run sc cap ops : forall d l',
  forallb (cap_op sc) ops = true -> prun (Durable d) ops = Some l' ->
  exists d', l' = Durable d' /\ shards_keep (cap_keeps sc cap) d d'.
Proof.
  induction ops as [|o ops IH]; intros d l' Hk Hr; simpl in *.
  { injection Hr as <-. exists d. split; [done|]. reflexivity. }
  apply andb_true_iff in Hk as [Ho Hk]. destruct (pstep (Durable d) o) as [l1|] eqn:Hs; simpl in Hr; [|done].
  destruct (pstep_durable (cap_keeps sc cap) o d l1) as (d1 & -> & Hd1); [by apply pop_cap_keeps|done|].
  destruct (IH d1 l' Hk Hr) as (d' & -> & Hd'). exists d'. split; [done|].
  eapply shards_keep_trans; eauto. apply _.
Qed.

(** C16: A hard cap survives faults.  From a state in which a scope's spend
    and leases are under its blocking, all-time cap, run any calls on the
    durable ledger that leave that budget alone, with storage failing
    anywhere, before or after its commits, and leases expiring at any
    time: the recorded spend plus the tokens still held never exceed the
    cap by more than the settled calls recorded beyond the ceilings they
    had reserved. *)
Theorem hard_cap_survives_faults (d : ShardedLedger) (l' : ProxyLedger) (scope : string) (cap : Z)
    (sh : Shard) (ops : list pop) :
  d !! shard_for d scope = Some sh -> rows_ok (sh_db sh) -> hard_cap scope cap (sh_db sh) ->
  covered_total scope (sh_db sh) <= cap ->
  forallb (cap_op scope) ops = true -> prun (Durable d) ops = Some l' ->
  exists d' sh', l' = Durable d' /\ d' !! shard_for d scope = Some sh' /\
    let rows := budget_reservation (sh_db sh') in
    msum (spent_since scope 0) rows + msum (held_by scope) rows <= cap + msum (excess scope) rows.
Proof.
  intros Hsh Hr Hh Hcov Hops Hrun. destruct (cap_run scope cap ops d l' Hops Hrun) as (d' & -> & Hd).
  destruct (Forall2_lookup_l _ _ _ _ _ Hd Hsh) as (sh' & Hsh' & Hk).
  destruct (Hk Hr Hh) as (_ & _ & Hle). exists d', sh'. split; [done|]. split; [done|]. simpl.
  unfold covered_total in Hle.
  assert (Hsplit : msum (fun r => spent_since scope 0 r + held_by scope r) (budget_reservation (sh_db sh')) <=
    msum (fun r => covered scope r + excess scope r) (budget_reservation (sh_db sh'))).
  { apply msum_mono. intros i x _. unfold covered, excess. lia. }
  rewrite !msum_add in Hsplit. unfold covered_total in Hcov. lia.
Qed.
End Steps.

(** ** Witnesses *)

(** One shard whose storage fails inside and after a commit. *)
Definition faulty_shard (fs : list fault) : ShardedLedger :=
  [MkShard (MkStore (db_empty true) fs) false].

Lemma proxy_reserve_fails_closed_witness :
  exists d', @pl_reserve utc_days (Durable (faulty_shard [Fine; Fine; Fine; Fine; FailsLate])) "a" 10 0 Block =
    Some (Refused, Durable d') /\
  exists sh sh', faulty_shard [Fine; Fine; Fine; Fine; FailsLate] !! 0%nat = Some sh /\
    Durable d' = Durable [sh'] /\
    (sh_db sh' = sh_db sh \/ exists r, @admission utc_days (sh_db sh) (sh_db sh') "a" 10 0 ttl r).
Proof.
  eexists. split; [vm_compute; reflexivity|].
  destruct (@proxy_reserve_fails_closed utc_days
    (Durable (faulty_shard [Fine; Fine; Fine; Fine; FailsLate])) _ "a" 10 0 Block Refused
    ltac:(vm_compute; reflexivity)) as (sh & sh' & Hsh & Hl & Hx).
  exists sh, sh'. split; [exact Hsh|]. split; [exact Hl|]. destruct Hx as [Hx|[_ Hx]]; auto.
Defined.

Definition soft_ops : list pop :=
  [PReserve "s" 50 0 Warn; PSetBudget "t" (Some 1) Total Block; PReclaim (seconds 1000);
   PReserve "s" 60 (seconds 1000) Warn].

Lemma soft_cap_never_refuses_witness :
  exists l1 l2 l3 a,
    pl_set_budget (Durable (faulty_shard [])) "s" (Some 10) Total Warn = Some (Ok tt, l1) /\
    @prun utc_days l1 soft_ops = Some l2 /\
    @pl_reserve utc_days l2 "s" 70 (seconds 1001) Warn = Some (a, l3) /\ a <> Refused.
Proof.
  do 4 eexists. split; [vm_compute; reflexivity|]. split; [vm_compute; reflexivity|].
  split; [vm_compute; reflexivity|].
  eapply (@soft_cap_never_refuses utc_days (Durable (faulty_shard [])) _ _ _ "s" (Some 10) Total soft_ops
    70 (seconds 1001)); [vm_compute; reflexivity|reflexivity|vm_compute; reflexivity
                        |vm_compute; reflexivity].
Defined.

(** A late-reported lease (id 1), a refusal, an overshooting settlement. *)
Definition hard_ops : list pop :=
  [PReserve "a" 60 0 Block; PReserve "a" 60 0 Block; PReserve "a" 40 0 Block;
   PSettle (MkReservation 2 "a" 40 0) 55 (seconds 1); PReclaim (seconds 900)].
Definition hard_ledger : ShardedLedger :=
  [MkShard (MkStore (set_budget_limit {[ "a" := MkLimitRow (Some 100) "total" "block" ]} (db_empty true))
     [Fine; Fine; Fine; Fine; Fine; Fine; FailsLate]) false].

Definition hard_end : ProxyLedger :=
  Eval vm_compute in default in_memory (@prun utc_days (Durable hard_ledger) hard_ops).

Lemma hard_cap_survives_faults_witness :
  exists d' sh', @prun utc_days (Durable hard_ledger) hard_ops = Some (Durable d') /\
    d' !! 0%nat = Some sh' /\
    msum (spent_since "a" 0) (budget_reservation (sh_db sh'))
      + msum (held_by "a") (budget_reservation (sh_db sh')) <= 115.
Proof.
  destruct (@hard_cap_survives_faults utc_days hard_ledger hard_end "a" 100 _ hard_ops eq_refl)
    as (d' & sh' & Hl & Hsh & Hle).
  - split; vm_compute; intros; discriminate.
  - exists "total", "block". vm_compute. auto.
  - vm_compute. discriminate.
  - reflexivity.
  - vm_compute; reflexivity.
  - exists d', sh'. split; [rewrite <- Hl; vm_compute; reflexivity|]. injection Hl as <-.
    split; [exact Hsh|]. injection Hsh as <-. vm_compute in Hle |- *. exact Hle.
Defined.
