(* ===== verification/Allowance.v ===== *)
(** [crates/sandhi-core/src/allowance.rs]: weighted allowance quotes in
    fixed-point units, with checked arithmetic, shown to agree with the
    neutral billable quantity of [Usage] when all weights are equal. *)

From S2P Require Import Prelude Usage.

Definition UNITS_PER_TOKEN : Z := 10000.

Inductive AllowanceError :=
| InvalidWeight
| UsageNotFinal
| UsageEstimated
| CacheEvidenceUnavailable
| ReasoningCountUnavailable
| ReasoningConventionUnavailable
| InconsistentReasoning
| Overflow.

(** The field of [Weight] is private: every value is built by [Weight_new]
    or is the default. *)
Record Weight := MkWeight { basis_points : Z }.
#[export] Instance Weight_eq_dec : EqDecision Weight.
Proof. solve_decision. Defined.

Definition Weight_new (bp : Z) : result AllowanceError Weight :=
  if 1000000 <? bp then Err InvalidWeight else Ok (MkWeight bp).
Definition Weight_default : Weight := MkWeight 10000.

Record AllowanceWeights := MkWeights {
  aw_fresh_input : Weight; aw_cache_creation : Weight; aw_cache_read : Weight;
  aw_output : Weight; aw_reasoning : option Weight }.

Definition AllowanceWeights_default : AllowanceWeights :=
  MkWeights Weight_default Weight_default Weight_default Weight_default None.

Record AllowanceQuoteV1 := MkQuote {
  aq_fresh_input : Z; aq_cache_creation : Z; aq_cache_read : Z; aq_output : Z;
  aq_reasoning : option Z; aq_total : Z }.

(** The operand is a [u128]. *)
Definition storage_units (value : Z) : result AllowanceError Z :=
  if i64_max <? value then Err Overflow else Ok value.
Definition units (tokens : Z) (w : Weight) : result AllowanceError Z :=
  storage_units (tokens * basis_points w).

(** The evidence a cache-read weight different from the input's needs. *)
Definition cache_qualified (u : UsageV2) : bool :=
  match u_cache_obs u ≫= validated with
  | Some (MkCacheObs Reported OriginUsage) => true
  | Some (MkCacheObs Unsupported ExplicitCapability) => u_cache_read u =? 0
  | _ => false
  end.

(** The counts billed as output and as reasoning. *)
Definition split_output (u : UsageV2) : result AllowanceError Z :=
  if bool_decide (u_reasoning_included u = Some true)
  then ok_or (checked_sub (u_tokens_out u) (default 0 (u_reasoning u))) InconsistentReasoning
  else Ok (u_tokens_out u).

Definition quote (ws : AllowanceWeights) (u : UsageV2) : result AllowanceError AllowanceQuoteV1 :=
  _ ← bail (negb (bool_decide (u_completeness u = Final))) UsageNotFinal;
  _ ← bail (negb (bool_decide (u_basis u = ProviderReported))) UsageEstimated;
  _ ← bail (negb (bool_decide (aw_cache_read ws = aw_fresh_input ws)) && negb (cache_qualified u))
        CacheEvidenceUnavailable;
  let reasoning_weight := default (aw_output ws) (aw_reasoning ws) in
  let differential := negb (bool_decide (reasoning_weight = aw_output ws)) in
  let reasoning := u_reasoning u in
  _ ← bail (bool_decide (reasoning = None)
            && (differential || bool_decide (u_reasoning_included u = Some false)))
        ReasoningCountUnavailable;
  _ ← bail (bool_decide (u_reasoning_included u = None)
            && (differential || bool_decide (reasoning = None) || (0 <? default 0 reasoning)))
        ReasoningConventionUnavailable;
  output ← split_output u;
  fresh ← units (u_tokens_in u) (aw_fresh_input ws);
  creation ← units (u_cache_creation u) (aw_cache_creation ws);
  read ← units (u_cache_read u) (aw_cache_read ws);
  out ← units output (aw_output ws);
  reas ← match reasoning with
         | None => Ok None
         | Some n => z ← units n reasoning_weight; Ok (Some z)
         end;
  total ← storage_units (fresh + creation + read + out + default 0 reas);
  Ok (MkQuote fresh creation read out reas total).

(** ** Properties *)

Lemma storage_units_ok v z : storage_units v = Ok z -> z = v /\ v <= i64_max.
Proof. unfold storage_units. destruct (i64_max <? v) eqn:E; intros [= <-]. lia. Qed.

Lemma split_output_ok u out :
  split_output u = Ok out ->
  out = u_tokens_out u - (if bool_decide (u_reasoning_included u = Some true)
                          then default 0 (u_reasoning u) else 0) /\
  (u_reasoning_included u = Some true -> default 0 (u_reasoning u) <= u_tokens_out u).
Proof.
  unfold split_output, checked_sub. destruct (bool_decide_reflect (u_reasoning_included u = Some true)).
  - intros Ho%ok_or_ok. destruct (_ <=? _) eqn:E; [|done]. injection Ho as <-. lia.
  - intros [= <-]. split; [lia|done].
Qed.

(** What a successful quote consists of. *)
Record quoted (ws : AllowanceWeights) (u : UsageV2) (q : AllowanceQuoteV1) (out : Z) : Prop := {
  qd_final : u_completeness u = Final;
  qd_reported : u_basis u = ProviderReported;
  qd_convention : u_reasoning_included u = None -> default 0 (u_reasoning u) <= 0;
  qd_counted : u_reasoning_included u = Some false -> is_Some (u_reasoning u);
  qd_split : split_output u = Ok out;
  qd_quote : q = MkQuote (u_tokens_in u * basis_points (aw_fresh_input ws))
    (u_cache_creation u * basis_points (aw_cache_creation ws))
    (u_cache_read u * basis_points (aw_cache_read ws)) (out * basis_points (aw_output ws))
    ((fun n => n * basis_points (default (aw_output ws) (aw_reasoning ws))) <$> u_reasoning u)
    (aq_total q);
  qd_total : aq_total q = aq_fresh_input q + aq_cache_creation q + aq_cache_read q + aq_output q
                          + default 0 (aq_reasoning q);
  qd_range : aq_total q <= i64_max }.

Lemma quote_ok ws u q : quote ws u = Ok q -> exists out, quoted ws u q out.
Proof.
  unfold quote. intros Hq. inv_ok.
  match goal with Hx : bool_decide (u_reasoning u = None) && _ = false |- _ => rename Hx into Hcount end.
  match goal with Hx : bool_decide (u_reasoning_included u = None) && _ = false |- _ => rename Hx into Hconv end.
  match goal with Hx : split_output u = Ok ?o |- _ => exists o; pose proof Hx as Hsplit end.
  match goal with Hx : context [match u_reasoning u with _ => _ end] |- _ => rename Hx into Hm end.
  match type of Hm with _ = Ok ?y => assert (Hre : y =
    (fun n => n * basis_points (default (aw_output ws) (aw_reasoning ws))) <$> u_reasoning u) end.
  { destruct (u_reasoning u); inv_ok; [|done]. unfold units in *.
    match goal with Hx : storage_units _ = Ok ?a |- Some ?a = _ =>
      by apply storage_units_ok in Hx as [-> _] end. }
  clear Hm.
  unfold units in *.
  repeat match goal with Hx : storage_units _ = Ok _ |- _ => apply storage_units_ok in Hx as [-> ?] end.
  bools. repeat match goal with Hx : bool_decide _ = true |- _ => apply bool_decide_eq_true in Hx end.
  split; simpl; try done.
  - intros Hn. rewrite (bool_decide_true _ Hn) in Hconv. simpl in Hconv. bools. lia.
  - intros Hf. rewrite (bool_decide_true _ Hf), orb_true_r, andb_true_r in Hcount.
    apply bool_decide_eq_false in Hcount. by apply not_eq_None_Some.
  - by rewrite Hre.
Qed.

Definition uniform (ws : AllowanceWeights) (w : Weight) : Prop :=
  aw_fresh_input ws = w /\ aw_cache_creation ws = w /\ aw_cache_read ws = w /\ aw_output ws = w /\
  default w (aw_reasoning ws) = w.

(** A quote is exact, within storage, and neutral at equal weights.
    A quote is given only for final, provider-reported usage; its total is
    the sum of its categories and fits a signed 64-bit column; and when
    every category has the same weight [w], the total is exactly [w] times
    the neutral billable quantity of the call, so that at the default
    weight one token is 10,000 units.  In particular output and reasoning
    are never counted twice. *)
Theorem uniform_quote_is_billable (ws : AllowanceWeights) (u : UsageV2) (q : AllowanceQuoteV1) (w : Weight) :
  usage_ok u -> uniform ws w -> 0 <= basis_points w -> quote ws u = Ok q ->
  u_completeness u = Final /\ u_basis u = ProviderReported /\
  aq_total q = aq_fresh_input q + aq_cache_creation q + aq_cache_read q + aq_output q
               + default 0 (aq_reasoning q) /\
  aq_total q <= i64_max /\
  (billable u < u64_max -> aq_total q = basis_points w * billable u).
Proof.
  intros Hok (E1 & E2 & E3 & E4 & E5) Hw (out & Hq)%quote_ok.
  destruct Hq as [Hfin Hrep Hconv Hcnt Hsplit Hquote Htot Hrange].
  repeat (split; [done|]). intros Hb. rewrite Htot, Hquote. simpl. rewrite E1, E2, E3, E4, E5.
  apply split_output_ok in Hsplit as [-> Hle].
  assert (Hbill : billable u = u_tokens_in u + u_cache_creation u + u_cache_read u + u_tokens_out u
    + unfolded_reasoning (default 0 (u_reasoning u)) (u_tokens_out u) (u_reasoning_included u)).
  { rewrite (billable_exact u Hok) in Hb |- *. lia. }
  rewrite Hbill. clear Hbill Hb Hquote Htot.
  assert (Hd : default 0 ((fun n => n * basis_points w) <$> u_reasoning u) =
    default 0 (u_reasoning u) * basis_points w) by (by destruct (u_reasoning u)).
  rewrite Hd. unfold unfolded_reasoning. destruct (u_reasoning_included u) as [[]|].
  - rewrite bool_decide_true by done. lia.
  - rewrite bool_decide_false by done. lia.
  - rewrite bool_decide_false by done. specialize (Hconv eq_refl).
    destruct Hok as [_ [Ho _] _ _ [Hre _]].
    assert (default 0 (u_reasoning u) = 0) as -> by lia. destruct (_ <? 0) eqn:E; lia.
Qed.

Definition quote_demo : UsageV2 :=
  MkUsage 10 50 3 1000 None None None (Some 7) (Some true) None None Final ProviderReported 1
    None None None None None None.

Lemma uniform_quote_is_billable_witness :
  exists q, quote AllowanceWeights_default quote_demo = Ok q /\
    aq_output q = 430000 /\ aq_total q = UNITS_PER_TOKEN * billable quote_demo.
Proof.
  eexists. split; [vm_compute; reflexivity|]. split; [reflexivity|].
  apply (uniform_quote_is_billable AllowanceWeights_default quote_demo _ Weight_default);
    [by apply usage_ok_b_spec|done|done|vm_compute; reflexivity|by vm_compute].
Defined.
