(* ===== verification/Lifecycle.v ===== *)
(** [crates/sandhi-proxy/src/lifecycle.rs]: the process lifecycle, its cutoff
    of new operations, the guards of admitted ones and the waiters on its
    watch channel, as an interleaving of atomic steps (every method takes
    the one lock, and ignores its poisoning).  [now] is [Instant::now()];
    an [Instant] is a [Z] and its [checked_add] a parameter. *)

From stdpp Require Import relations.
From S2P Require Import Prelude.
#[local] Open Scope Z_scope.

Inductive LPhase := Running | Quiescing | Draining | Stopped.
#[export] Instance LPhase_eq_dec : EqDecision LPhase.
Proof. solve_decision. Defined.

Record LState := MkLState {
  ls_phase : LPhase; ls_started : option Z; ls_deadline : option Z; ls_stopped : option Z;
  ls_active : Z }.

(** The state and the watch channel: its value and its version, which every
    [send_replace] moves. *)
Record Lifecycle := MkLifecycle { lc_state : LState; lc_changed : LPhase; lc_version : Z }.

Definition lc_new : Lifecycle := MkLifecycle (MkLState Running None None None 0) Running 0.
Definition lc_phase (l : Lifecycle) : LPhase := ls_phase (lc_state l).
Definition is_running (l : Lifecycle) : bool := bool_decide (lc_phase l = Running).
Definition lc_deadline (l : Lifecycle) : option Z := ls_deadline (lc_state l).
Definition active_operations (l : Lifecycle) : Z := ls_active (lc_state l).
Definition remaining (l : Lifecycle) (now : Z) : option Z :=
  (fun d => Z.max 0 (d - now)) <$> lc_deadline l.
Definition elapsed (l : Lifecycle) (now : Z) : Z :=
  match ls_started (lc_state l) with
  | None => 0
  | Some start => Z.max 0 (default now (ls_stopped (lc_state l)) - start)
  end.

(** Update the state under the lock and notify. *)
Definition send_replace (s : LState) (l : Lifecycle) : Lifecycle :=
  MkLifecycle s (ls_phase s) (lc_version l + 1).

Definition start_draining (l : Lifecycle) : Lifecycle :=
  let s := lc_state l in
  if bool_decide (ls_phase s = Quiescing)
  then send_replace (MkLState Draining (ls_started s) (ls_deadline s) (ls_stopped s) (ls_active s)) l
  else l.

Definition lc_stop (l : Lifecycle) (now : Z) : Lifecycle :=
  let s := lc_state l in
  if bool_decide (ls_phase s = Running) || negb (ls_active s =? 0) then l
  else send_replace (MkLState Stopped (ls_started s) (ls_deadline s)
                       (Some (default now (ls_stopped s))) (ls_active s)) l.

(** The guard is the [true] of the answer. *)
Definition try_operation (l : Lifecycle) : bool * Lifecycle :=
  let s := lc_state l in
  if bool_decide (ls_phase s = Running)
  then (true, MkLifecycle (MkLState (ls_phase s) (ls_started s) (ls_deadline s) (ls_stopped s)
                             (wadd (ls_active s) 1)) (lc_changed l) (lc_version l))
  else (false, l).

(** [Drop for OperationGuard]. *)
Definition drop_guard (l : Lifecycle) : Lifecycle :=
  let s := lc_state l in
  send_replace (MkLState (ls_phase s) (ls_started s) (ls_deadline s) (ls_stopped s)
                  ((ls_active s - 1) mod u64_mod)) l.

Section Lifecycle.
Context (checked : Z -> Z -> option Z).

Definition begin_quiesce (l : Lifecycle) (grace now : Z) : Z * Lifecycle :=
  let s := lc_state l in
  match ls_deadline s with
  | Some deadline => (deadline, l)
  | None =>
      let deadline := default now (checked now grace) in
      (deadline, send_replace (MkLState Quiescing (Some now) (Some deadline) (ls_stopped s) (ls_active s)) l)
  end.

(** ** Waiters

    [cancelled] and [wait_idle]: subscribe, then test and wait for a version
    newer than the one last seen. *)
Inductive wkind := OnCutoff | OnIdle.
Inductive wstate := Testing (seen : Z) | Blocked (seen : Z) | Returned.
Definition waiter : Type := wkind * wstate.

(** The loop test: keep waiting. *)
Definition waiting (k : wkind) (l : Lifecycle) : bool :=
  match k with
  | OnCutoff => is_running l
  | OnIdle => negb (active_operations l =? 0)
  end.
Definition subscribe (l : Lifecycle) : wstate := Testing (lc_version l).
Definition test_waiter (k : wkind) (l : Lifecycle) (seen : Z) : wstate :=
  if waiting k l then Blocked seen else Returned.

(** ** The interleaving

    The lifecycle, the number of live guards, the waiters.  A guard is
    dropped once, by its holder; fewer than 2^64 are alive. *)
Record Sys := MkSys { sy_lc : Lifecycle; sy_guards : Z; sy_waiters : list waiter }.
Definition sys_new : Sys := MkSys lc_new 0 [].

Inductive sys_step : Sys -> Sys -> Prop :=
| StepQuiesce l g ws grace now :
    sys_step (MkSys l g ws) (MkSys (begin_quiesce l grace now).2 g ws)
| StepDrain l g ws : sys_step (MkSys l g ws) (MkSys (start_draining l) g ws)
| StepStop l g ws now : sys_step (MkSys l g ws) (MkSys (lc_stop l now) g ws)
| StepTry l g ws l' b :
    g < u64_max -> try_operation l = (b, l') ->
    sys_step (MkSys l g ws) (MkSys l' (if b then g + 1 else g) ws)
| StepDropGuard l g ws : 0 < g -> sys_step (MkSys l g ws) (MkSys (drop_guard l) (g - 1) ws)
| StepSubscribe l g ws k : sys_step (MkSys l g ws) (MkSys l g (ws ++ [(k, subscribe l)]))
| StepTest l g ws i k seen :
    ws !! i = Some (k, Testing seen) ->
    sys_step (MkSys l g ws) (MkSys l g (<[i := (k, test_waiter k l seen)]> ws))
| StepWake l g ws i k seen :
    ws !! i = Some (k, Blocked seen) -> seen < lc_version l ->
    sys_step (MkSys l g ws) (MkSys l g (<[i := (k, Testing (lc_version l))]> ws)).

Notation reach := (rtc sys_step).

(** ** Invariants *)

Definition rank (p : LPhase) : Z :=
  match p with Running => 0 | Quiescing => 1 | Draining => 2 | Stopped => 3 end.

(** A blocked waiter that has seen the latest version still has to wait. *)
Definition waiter_ok (l : Lifecycle) (w : waiter) : Prop :=
  match w.2 with
  | Testing seen => seen <= lc_version l
  | Blocked seen => seen <= lc_version l /\ (seen = lc_version l -> waiting w.1 l = true)
  | Returned => True
  end.

Record sys_inv (s : Sys) : Prop := {
  si_guards : active_operations (sy_lc s) = sy_guards s /\ 0 <= sy_guards s <= u64_max;
  si_deadline : lc_phase (sy_lc s) = Running <-> lc_deadline (sy_lc s) = None;
  si_stopped : lc_phase (sy_lc s) = Stopped -> sy_guards s = 0;
  si_waiters : Forall (waiter_ok (sy_lc s)) (sy_waiters s) }.

(** One step of the lifecycle as seen by everyone else. *)
Record moves (s s' : Sys) : Prop := {
  mv_phase : rank (lc_phase (sy_lc s)) <= rank (lc_phase (sy_lc s'));
  mv_deadline : forall d, lc_deadline (sy_lc s) = Some d -> lc_deadline (sy_lc s') = Some d;
  mv_closed : lc_phase (sy_lc s) <> Running -> sy_guards s' <= sy_guards s }.

#[export] Instance moves_preorder : PreOrder moves.
Proof.
  split; [by split|]. intros s1 s2 s3 [A1 A2 A3] [B1 B2 B3]. split; [lia|eauto|].
  intros Hp. specialize (A3 Hp). enough (sy_guards s3 <= sy_guards s2) by lia. apply B3.
  intros Hr. rewrite Hr in A1. by destruct (lc_phase (sy_lc s1)).
Qed.

(** A notification, or a change that lets nobody stop waiting. *)
Lemma waiters_ok_step l l' ws :
  lc_version l < lc_version l' \/
    lc_version l' = lc_version l /\ (forall k, waiting k l = true -> waiting k l' = true) ->
  Forall (waiter_ok l) ws -> Forall (waiter_ok l') ws.
Proof.
  intros Hl Hws. eapply Forall_impl; [exact Hws|]. intros [k [seen|seen|]]; unfold waiter_ok; simpl; [lia| |done].
  intros [Hs Hw]. split; [lia|]. intros He. destruct Hl as [Hl|[Hl Hm]]; [lia|]. apply Hm, Hw. lia.
Qed.

Lemma step_inv s s' : sys_step s s' -> sys_inv s -> sys_inv s' /\ moves s s'.
Proof.
  intros Hstep [[Hg Hr] Hd Hst Hws].
  destruct Hstep as [l g ws grace now|l g ws|l g ws now|l g ws l' b Hb Ht|l g ws Hg0|l g ws k|l g ws i k seen Hi
    |l g ws i k seen Hi Hv]; simpl in *.
  - unfold begin_quiesce. destruct (ls_deadline (lc_state l)) as [d|] eqn:Ed; simpl; [by split; split|].
    assert (Hp : lc_phase l = Running) by (by apply Hd). split; split; simpl; try done.
    + eapply waiters_ok_step; [|exact Hws]. left. simpl. lia.
    + unfold lc_phase in *. rewrite Hp. simpl. lia.
    + unfold lc_deadline. congruence.
  - unfold start_draining. case_bool_decide as Hp; [|by split; split].
    split; split; simpl; try done.
    + unfold lc_phase, lc_deadline in *. simpl. rewrite Hp in Hd. split; [done|].
      intros Hn. by apply Hd in Hn.
    + eapply waiters_ok_step; [|exact Hws]. left. simpl. lia.
    + unfold lc_phase in *. rewrite Hp. simpl. lia.
  - unfold lc_stop. case_bool_decide as Hp; simpl; [by split; split|].
    destruct (ls_active (lc_state l) =? 0) eqn:Ha; simpl; [|by split; split].
    unfold active_operations in Hg. split; split; simpl; try done.
    + unfold lc_phase, lc_deadline in *. simpl. split; [done|]. intros Hn. by apply Hd in Hn.
    + lia.
    + eapply waiters_ok_step; [|exact Hws]. left. simpl. lia.
    + unfold lc_phase. simpl. destruct (ls_phase (lc_state l)); simpl; lia.
  - unfold try_operation in Ht. case_bool_decide as Hp; injection Ht as <- <-; [|by split; split].
    unfold active_operations in *. split; split; simpl; try done.
    + rewrite Hg. split; [apply wadd_exact; lia|lia].
    + unfold lc_phase. simpl. by rewrite Hp.
    + eapply waiters_ok_step; [|exact Hws]. right. split; [done|]. intros [] Hw; simpl in *; [done|].
      unfold active_operations in *. simpl. rewrite Hg in *. rewrite wadd_exact by lia. lia.
  - unfold active_operations in *. split; split; simpl; try done.
    + unfold active_operations. simpl. rewrite Hg. split; [apply Z.mod_small; ulia|lia].
    + intros Hs. specialize (Hst Hs). lia.
    + eapply waiters_ok_step; [|exact Hws]. left. simpl. lia.
    + lia.
  - split; split; simpl; try done. apply Forall_app. split; [done|]. apply Forall_singleton.
    unfold waiter_ok, subscribe. simpl. lia.
  - split; split; simpl; try done. apply Forall_insert; [done|].
    pose proof (Forall_lookup_1 _ _ _ _ Hws Hi) as Hw. unfold waiter_ok in *. simpl in *.
    unfold test_waiter. destruct (waiting k l) eqn:Hk; [|done]. done.
  - split; split; simpl; try done. apply Forall_insert; [done|]. unfold waiter_ok. simpl. lia.
Qed.

Lemma reach_inv s s' : reach s s' -> sys_inv s -> sys_inv s' /\ moves s s'.
Proof.
  induction 1 as [s|s1 s2 s3 H12 _ IH]; intros Hs; [by split|].
  destruct (step_inv _ _ H12 Hs) as [H2 M12]. destruct (IH H2) as [H3 M23]. split; [done|by etransitivity].
Qed.

Lemma sys_new_inv : sys_inv sys_new.
Proof. split; simpl; [split; [done|ulia]|done|done|constructor]. Qed.

(** C18: The cutoff is final.  In every execution of the lifecycle, however
    its steps interleave: the phase only moves forward, the deadline once
    set never changes, and after the cutoff no operation is admitted any
    more, so that the number of admitted operations only falls; the active
    count is exactly the number of live guards, and the process is marked
    stopped only when there are none. *)
Theorem lifecycle_cutoff_is_final (s s' : Sys) :
  reach sys_new s -> reach s s' ->
  rank (lc_phase (sy_lc s)) <= rank (lc_phase (sy_lc s')) /\
  (forall d, lc_deadline (sy_lc s) = Some d -> lc_deadline (sy_lc s') = Some d) /\
  (lc_phase (sy_lc s) <> Running -> (try_operation (sy_lc s)).1 = false /\ sy_guards s' <= sy_guards s) /\
  active_operations (sy_lc s') = sy_guards s' /\
  (lc_phase (sy_lc s') = Stopped -> sy_guards s' = 0).
Proof.
  intros H0 H1. destruct (reach_inv _ _ H0 sys_new_inv) as [Hs _].
  destruct (reach_inv _ _ H1 Hs) as [[[Hg _] _ Hst _] [M1 M2 M3]].
  split; [done|]. split; [done|]. split; [|done]. intros Hp. split; [|by apply M3].
  unfold try_operation. by rewrite bool_decide_false.
Qed.

(** No wakeup is lost.  In every reachable state, a waiter blocked on
    the watch channel whose condition is over (the cutoff happened, or the
    last admitted operation was dropped) has an unseen notification: it
    can take a step, and its next test returns. *)
Theorem no_lost_wakeup (s : Sys) (i : nat) (k : wkind) (seen : Z) :
  reach sys_new s -> sy_waiters s !! i = Some (k, Blocked seen) -> waiting k (sy_lc s) = false ->
  exists s1 s2, sys_step s s1 /\ sys_step s1 s2 /\ sy_lc s2 = sy_lc s /\
    sy_waiters s2 !! i = Some (k, Returned).
Proof.
  intros H0 Hi Hk. destruct (reach_inv _ _ H0 sys_new_inv) as [[_ _ _ Hws] _].
  pose proof (Forall_lookup_1 _ _ _ _ Hws Hi) as [Hle Hw]. simpl in *.
  assert (Hlt : seen < lc_version (sy_lc s)).
  { destruct (Z.eq_dec seen (lc_version (sy_lc s))) as [He|]; [|lia]. rewrite (Hw He) in Hk. done. }
  destruct s as [l g ws]. simpl in *. pose proof (lookup_lt_Some _ _ _ Hi) as Hlen.
  set (ws1 := <[i := (k, Testing (lc_version l))]> ws).
  exists (MkSys l g ws1), (MkSys l g (<[i := (k, test_waiter k l (lc_version l))]> ws1)).
  split; [by eapply StepWake|]. split; [|split; [done|]].
  - apply StepTest. by apply list_lookup_insert_eq.
  - simpl. rewrite list_lookup_insert_eq by (unfold ws1; by rewrite length_insert).
    unfold test_waiter. by rewrite Hk.
Qed.
End Lifecycle.

(** ** Witnesses *)

Definition plain_add (now d : Z) : option Z := Some (now + d).

(** One operation, a waiter on idle, the cutoff, and the guard's drop. *)
Definition lc_busy : Lifecycle := (try_operation lc_new).2.
Definition lc_closing : Lifecycle := (begin_quiesce plain_add lc_busy 30 100).2.
Definition sys_busy : Sys := MkSys lc_closing 1 [(OnIdle, Blocked 0)].
Definition sys_idle : Sys := MkSys (drop_guard lc_closing) 0 [(OnIdle, Blocked 0)].

Lemma sys_busy_reached : rtc (sys_step plain_add) sys_new sys_busy.
Proof.
  eapply rtc_l; [by apply (StepTry plain_add lc_new 0 [] lc_busy true)|].
  eapply rtc_l; [apply (StepSubscribe plain_add lc_busy 1 [] OnIdle)|].
  eapply rtc_l; [apply (StepTest plain_add lc_busy 1 [(OnIdle, Testing 0)] 0 OnIdle 0 eq_refl)|].
  eapply rtc_l; [apply (StepQuiesce plain_add lc_busy 1 [(OnIdle, Blocked 0)] 30 100)|].
  apply rtc_refl.
Qed.

Lemma sys_idle_reached : rtc (sys_step plain_add) sys_busy sys_idle.
Proof. apply rtc_once. by apply (StepDropGuard plain_add lc_closing 1). Qed.

Lemma lifecycle_cutoff_is_final_witness :
  lc_deadline (sy_lc sys_idle) = Some 130 /\ active_operations (sy_lc sys_idle) = 0.
Proof.
  destruct (lifecycle_cutoff_is_final plain_add sys_busy sys_idle sys_busy_reached sys_idle_reached)
    as (_ & Hd & _ & Ha & _).
  split; [apply Hd; reflexivity|exact Ha].
Defined.

Lemma no_lost_wakeup_witness :
  exists s1 s2, sys_step plain_add sys_idle s1 /\ sys_step plain_add s1 s2 /\
    sy_lc s2 = sy_lc sys_idle /\ sy_waiters s2 !! 0%nat = Some (OnIdle, Returned).
Proof.
  apply (no_lost_wakeup plain_add sys_idle 0 OnIdle 0).
  - etransitivity; [exact sys_busy_reached|exact sys_idle_reached].
  - reflexivity.
  - reflexivity.
Defined.
