(* ===== verification/Settlement.v ===== *)
(** [crates/sandhi-proxy/src/settlement.rs] and [settlement/admission.rs]:
    the owners of an admitted execution.  An owner is consumed by each
    attempt and handed back by an attempt that did not resolve it.
    Entropy and clock readings are arguments, in the order of use. *)

From S2P Require Import Prelude Ledger InMemory Budget Sql SqlLedger SqlContract Usage Allowance.
From S2P Require Import Evidence EvidenceOps EvidenceInv EvidenceProps Sharded ProxyLedger Lifecycle.

(** ** Owners and outcomes *)

Record TrackedObservation := MkTracked {
  tr_intent : ExecutionIntent; tr_usage : UsageV2; tr_recorded : bool }.

Record PendingSettlement := MkPending {
  pe_request_id : string; pe_reservation : option Reservation; pe_charge : option Z;
  pe_tracked : option TrackedObservation; pe_cache_read_bp : Z }.

Inductive Failure :=
| LedgerBusy
| LedgerPoisoned
| NoReservation
| NonDurableLedger
| UnknownUsage
| EvidenceFailed (e : EvidenceError).

Inductive Attempt :=
| AttemptCommitted (request_id : string) (outcome : SettlementOutcome)
| AttemptUnresolved (pending : PendingSettlement) (failure : Failure).

Definition PendingSettlement_new (request_id : string) (reservation : option Reservation)
    (usage : UsageV2) : PendingSettlement :=
  MkPending request_id reservation
    (match u_completeness usage with Unavailable => None | _ => Some (billable usage) end)
    None (basis_points Weight_default).

Definition PendingSettlement_tracked (request_id : string) (intent : ExecutionIntent) (usage : UsageV2)
    : PendingSettlement :=
  MkPending request_id (Some (ei_reservation intent)) None
    (Some (MkTracked intent usage false)) (basis_points Weight_default).

Definition with_cache_read_weight (p : PendingSettlement) (bp : Z) : PendingSettlement :=
  MkPending (pe_request_id p) (pe_reservation p) (pe_charge p) (pe_tracked p) bp.
Definition terminal_usage (p : PendingSettlement) : option UsageV2 := tr_usage <$> pe_tracked p.
Definition observation_recorded (p : PendingSettlement) : option bool := tr_recorded <$> pe_tracked p.

Definition set_recorded (p : PendingSettlement) : PendingSettlement :=
  MkPending (pe_request_id p) (pe_reservation p) (pe_charge p)
    ((fun t => MkTracked (tr_intent t) (tr_usage t) true) <$> pe_tracked p) (pe_cache_read_bp p).

(** [try_lock], then the durable arm. *)
Definition with_durable_ledger {T} (m : Mutex ProxyLedger)
    (operation : ShardedLedger -> result EvidenceError T * ShardedLedger)
    : result Failure T * Mutex ProxyLedger :=
  if mx_locked m then (Err LedgerBusy, m)
  else if mx_poisoned m then (Err LedgerPoisoned, m)
  else match mx_value m with
       | Memory _ => (Err NonDurableLedger, m)
       | Durable d =>
           let '(r, d) := operation d in
           (map_err EvidenceFailed r, MkMutex (mx_locked m) (mx_poisoned m) (Durable d))
       end.

Section Settlement.
Context `{Calendar} `{UsageCodec}.

(** The closure of [try_commit] on a tracked owner: whether the observation
    was recorded, and the outcome. *)
Definition commit_tracked (t : TrackedObservation) (bp : Z) (ent : Entropy) (clk1 clk2 : Z)
    (d : ShardedLedger) : result EvidenceError SettlementOutcome * bool * ShardedLedger :=
  match record_terminal_for_intent d (tr_intent t) (tr_usage t) bp clk1 with
  | (Ok _, d) =>
      let '(r, d) := sh_settle_terminal d (rsv_scope (ei_reservation (tr_intent t)))
                       (ei_execution_id (tr_intent t)) ent clk2 in
      (r, true, d)
  | (Err e, d) => (Err e, false, d)
  end.

Definition resolve (p : PendingSettlement) (r : result Failure SettlementOutcome) : Attempt :=
  match r with
  | Ok outcome => AttemptCommitted (pe_request_id p) outcome
  | Err failure => AttemptUnresolved p failure
  end.

Definition try_commit (p : PendingSettlement) (m : Mutex ProxyLedger) (ent : Entropy) (clk1 clk2 : Z)
    : Attempt * Mutex ProxyLedger :=
  match pe_tracked p with
  | Some t =>
      let '(r, m') := with_durable_ledger m (fun d =>
        let '(r, recorded, d) := commit_tracked t (pe_cache_read_bp p) ent clk1 clk2 d in
        (Ok (r, recorded), d)) in
      match r with
      | Ok (r, recorded) =>
          (resolve (if recorded : bool then set_recorded p else p) (map_err EvidenceFailed r), m')
      | Err failure => (AttemptUnresolved p failure, m')
      end
  | None =>
      match pe_charge p, pe_reservation p with
      | None, _ => (AttemptUnresolved p UnknownUsage, m)
      | _, None => (AttemptUnresolved p NoReservation, m)
      | Some charge, Some reservation =>
          let '(r, m') := with_durable_ledger m (fun d =>
            sh_settle_with_evidence d (rsv_scope reservation) (rsv_id reservation) charge ent clk2) in
          (resolve p r, m')
      end
  end.

(** ** Dispatch *)

Record PendingDispatch := MkPendingDispatch { pd_request_id : string; pd_intent : ExecutionIntent }.
Record AuthorizedExecution := MkAuthorized {
  ax_request_id : string; ax_intent : ExecutionIntent; ax_permit : string }.

Inductive DispatchAttempt :=
| DispatchUncertain (pending : PendingDispatch)
| DispatchAuthorized (execution : AuthorizedExecution)
| DispatchClosed (request_id : string) (closure : PreDispatchClosure)
| DispatchUnresolved (pending : PendingDispatch) (failure : Failure).

Definition try_authorize (p : PendingDispatch) (m : Mutex ProxyLedger) (clock : Z)
    : DispatchAttempt * Mutex ProxyLedger :=
  let '(r, m) := with_durable_ledger m (fun d => authorize_dispatch_for_intent d (pd_intent p) clock) in
  (match r with
   | Ok (Authorized_ permit) => DispatchAuthorized (MkAuthorized (pd_request_id p) (pd_intent p) permit)
   | Ok (ClosedBeforeDispatch closure) => DispatchClosed (pd_request_id p) closure
   | Ok MayHaveDispatched => DispatchUncertain p
   | Err failure => DispatchUnresolved p failure
   end, m).

Definition try_close (p : PendingDispatch) (m : Mutex ProxyLedger) (clock : Z)
    : DispatchAttempt * Mutex ProxyLedger :=
  let '(r, m) := with_durable_ledger m (fun d => close_before_dispatch_for_intent d (pd_intent p) clock) in
  (match r with
   | Ok (Closed_ closure | AlreadyClosed closure) => DispatchClosed (pd_request_id p) closure
   | Ok ClosureMayHaveDispatched => DispatchUncertain p
   | Err failure => DispatchUnresolved p failure
   end, m).

Definition into_settlement (a : AuthorizedExecution) (usage : UsageV2) : PendingSettlement :=
  PendingSettlement_tracked (ax_request_id a) (ax_intent a) usage.

(** ** Prepared admission *)

Record AdmissionEvidence := MkEvidence {
  ae_request_id : string; ae_scope : string; ae_ceiling : Z; ae_ttl : Z; ae_retained_limit : Z }.
Record PreparedAdmission := MkPrepared { pa_evidence : AdmissionEvidence; pa_correlated : bool }.

Inductive AdmissionOutcome :=
| AdmissionPrepared (pending : PendingDispatch)
| AdmissionDenied (evidence : AdmissionEvidence) (denial : Denied)
| AdmissionCutoff (evidence : AdmissionEvidence)
| AdmissionFailed (evidence : AdmissionEvidence) (failure : Failure)
| AdmissionInterrupted (evidence : AdmissionEvidence).

Definition PreparedAdmission_new (request_id scope : string) (ceiling ttl retained_limit : Z)
    : result EvidenceError PreparedAdmission :=
  _ ← bail ((str_len request_id =? 0) || (4096 <? str_len request_id)
            || (str_len scope =? 0) || (4096 <? str_len scope)) InvalidInput;
  Ok (MkPrepared (MkEvidence request_id scope ceiling ttl retained_limit) false).
Definition correlated (p : PreparedAdmission) : PreparedAdmission := MkPrepared (pa_evidence p) true.

(** The lifecycle is read after the ledger lock was taken. *)
Definition run_admission (p : PreparedAdmission) (m : Mutex ProxyLedger) (l : Lifecycle) (now : Z)
    (ent : Entropy) : AdmissionOutcome * Mutex ProxyLedger :=
  let e := pa_evidence p in
  let '(r, m) := with_durable_ledger m (fun d =>
    if negb (is_running l) then (Ok None, d)
    else
      let '(r, d) :=
        if pa_correlated p
        then sh_reserve_correlated d (ae_scope e) (ae_ceiling e) now (ae_ttl e) (ae_retained_limit e)
               (ae_request_id e) ent
        else sh_reserve_prepared d (ae_scope e) (ae_ceiling e) now (ae_ttl e) (ae_retained_limit e) ent in
      (a ← r; Ok (Some a), d)) in
  (match r with
   | Ok (Some (IntentAdmitted intent)) => AdmissionPrepared (MkPendingDispatch (ae_request_id e) intent)
   | Ok (Some (IntentDenied denial)) => AdmissionDenied e denial
   | Ok None => AdmissionCutoff e
   | Err failure => AdmissionFailed e failure
   end, m).
End Settlement.

(** ** Properties *)

(** The documented behaviour of the JSON codec: what was encoded decodes to
    itself. *)
Class LawfulCodec `{UsageCodec} : Prop :=
  codec_roundtrip : forall u j, encode_usage u = Ok j -> usage_from_json j = Some u.

Section Owned.
Context `{Calendar} `{UsageCodec}.

(** The charge recorded with an observation. *)
Definition frozen (u : UsageV2) (bp : Z) : option Z :=
  match u_completeness u with Unavailable => None | _ => Some (billable_weighted u bp) end.

(** What recording an observation did. *)
Definition recorded_as (d d' : Db) (sc e : string) (id : Z) (u : UsageV2) (bp : Z) : Prop :=
  (d' = d /\ exists o, read_observation e id sc (MkStore d []) = (Ok (Some o), MkStore d []) /\ to_usage o = u) \/
  (budget_terminal_observation d !! e = None /\
   exists j at_, encode_usage u = Ok j /\ (forall c, frozen u bp = Some c -> c <= i64_max) /\
     d' = set_observations (<[e := MkObservationRow 1 j (frozen u bp) at_]>
            (budget_terminal_observation d)) d).

Lemma record_terminal_ok sc e u bp clk s out s' :
  record_terminal_durable sc e u bp clk s = (Ok out, s') ->
  (exists j, encode_usage u = Ok j) /\
  exists i, budget_execution_intent (st_db s) !! e = Some i /\
    recorded_as (st_db s) (st_db s') sc e (ir_reservation_id i) u bp.
Proof.
  unfold record_terminal_durable. intros Ha.
  apply M_bind_ok in Ha as (? & ? & Hl & Ha). apply lift_ok in Hl as [_ ->].
  apply M_bind_ok in Ha as (? & ? & Hl & Ha). apply lift_ok in Hl as [_ ->].
  apply M_bind_ok in Ha as (j & ? & Hl & Ha). apply lift_ok in Hl as [Hj ->].
  split; [by exists j|]. apply transaction_ok in Ha as (s0 & s1 & c & E0 & Hb & Es').
  apply M_bind_ok in Hb as (b & t1 & Hbind & Hb).
  assert (E1 : st_db s0 = st_db t1) by (eapply (keeps_intent_binding eq), Hbind).
  apply M_bind_ok in Hb as ([[rid sc'] st] & t2 & Hl & Hb). apply lift_ok in Hl as [Hl%ok_or_ok ->].
  subst b. apply M_bind_ok in Hb as (? & ? & Hl & Hb). apply bail_if_ok in Hl as [_ ->].
  apply M_bind_ok in Hb as (? & t2 & Hobs & Hb).
  assert (E2 : st_db t1 = st_db t2) by (eapply (keeps_require_observable eq), Hobs).
  apply M_bind_ok in Hb as (oo & t3 & Hread & Hb).
  assert (E3 : st_db t2 = st_db t3) by (eapply (keeps_read_observation eq), Hread).
  assert (Hi : exists i, budget_execution_intent (st_db s) !! e = Some i /\ rid = ir_reservation_id i).
  { unfold intent_binding, equery in Hbind. apply M_bind_ok in Hbind as (b & u1 & Hq & Hbind).
    apply query_ok in Hq as [Hq Eu]. injection Hq as Hq. rewrite E0 in Hq.
    destruct (budget_execution_intent (st_db s) !! e) as [i|]; simpl in Hq; subst b; [|inv_m].
    destruct (budget_reservation (st_db s) !! ir_reservation_id i) as [row'|]; [|done].
    injection Hbind as Hx _ _ _. by exists i. }
  destruct Hi as (i & Hi & ->). exists i. split; [done|]. destruct oo as [o|].
  - left. apply M_bind_ok in Hb as (? & ? & Hl & Hb). apply bail_if_ok in Hl as [Hu ->].
    injection Hb as <- <- <-. split; [done|]. exists o. split.
    + apply faultless_read_observation in Hread. by rewrite <- E3, <- E2, <- E1, E0 in Hread.
    + by apply negb_false_iff, bool_decide_eq_true in Hu.
  - right. apply M_bind_ok in Hb as (? & ? & Hl & Hb). apply bail_if_ok in Hl as [_ ->].
    fold (frozen u bp) in Hb.
    apply M_bind_ok in Hb as (ch & ? & Hl & Hb). apply lift_ok in Hl as [Hch ->].
    apply M_bind_ok in Hb as (? & t4 & Hst & Hb). injection Hb as _ <- <-.
    apply stmt_ok in Hst. rewrite <- E3, <- E2, <- E1, E0 in Hst.
    destruct (_ && _) eqn:Hg; [|done]. injection Hst as _ Hst. bools.
    match goal with Hx : bool_decide (_ = None) = true |- _ => apply bool_decide_eq_true in Hx end.
    assert (Hfr : ch = frozen u bp /\ forall c, frozen u bp = Some c -> c <= i64_max).
    { destruct (frozen u bp) as [c|]; inv_ok; [|split; [done|by intros c]].
      unfold try_i64 in *. destruct (c <=? i64_max) eqn:Hle; [|done]. split; [congruence|].
      intros c' [= <-]. lia. }
    destruct Hfr as [-> Hle]. split; [done|]. exists j, (unix_timestamp clk). split; [done|]. split; [done|].
    by rewrite Es', <- Hst.
Qed.

Lemma frozen_nonneg u bp c : usage_ok u -> 0 <= bp -> frozen u bp = Some c -> 0 <= c.
Proof.
  intros [Hi Ho Hc Hr Hre] Hbp Hf. assert (c = billable_weighted u bp) as ->.
  { unfold frozen in Hf. destruct (u_completeness u); congruence. }
  unfold billable_weighted. rewrite billable_parts_weighted_exact by done.
  pose proof (unfolded_reasoning_bounds _ (u_tokens_out u) (u_reasoning_included u) Hre) as [? _].
  assert (0 <= scaled_cache_read (u_cache_read u) bp).
  { unfold scaled_cache_read. destruct Hr as [Hr _]. pose proof (Z.div_pos (u_cache_read u * bp) 10000).
    unfold u64_max. lia. }
  destruct Hi as [Hi _], Ho as [Ho _], Hc as [Hc _]. unfold u64_max. lia.
Qed.

(** Either way the observation reads back: the owner's usage, and the
    charge frozen at its weight if it was recorded now. *)
Lemma recorded_reads `{!LawfulCodec} d d' sc e id u bp :
  usage_ok u -> 0 <= bp -> recorded_as d d' sc e id u bp ->
  exists o, read_observation e id sc (MkStore d' []) = (Ok (Some o), MkStore d' []) /\ to_usage o = u /\
    (budget_terminal_observation d !! e = None -> to_frozen_charge o = frozen u bp).
Proof.
  intros Hok Hbp [[-> (o & Hr & Hu)]|[Hn (j & at_ & Hj & Hle & ->)]].
  - exists o. split; [done|]. split; [done|]. intros Hn. exfalso.
    destruct (read_observation_row _ _ _ _ _ Hr) as [x Hx]. congruence.
  - eexists. split; [|split; [|intros _]].
    + unfold read_observation, equery. erewrite M_bind_run.
      2: { apply query_fine. simpl. rewrite lookup_insert_eq.
           assert (Hc : col_opt_u64 (frozen u bp) = Ok (frozen u bp)).
           { destruct (frozen u bp) as [c|] eqn:Hf; [|done]. simpl. unfold col_u64.
             pose proof (frozen_nonneg u bp c Hok Hbp Hf). by rewrite (proj2 (Z.leb_le 0 c)). }
           simpl. rewrite Hc. reflexivity. }
      cbv beta iota. assert (Hlen : (str_len j <=? 16384) = true).
      { pose proof Hj as Hj'. unfold encode_usage in Hj'. inv_ok. lia. }
      rewrite Hlen. erewrite M_bind_run; [reflexivity|]. unfold lift, decode_observation. simpl.
      rewrite (codec_roundtrip u j Hj). simpl. rewrite Hj. simpl. rewrite bool_decide_true by done. simpl.
      assert (Heq : Bool.eqb (bool_decide (u_completeness u = Unavailable))
                      (bool_decide (frozen u bp = None)) = true).
      { unfold frozen. by destruct (u_completeness u). }
      rewrite Heq. simpl. reflexivity.
    + done.
    + done.
Qed.

(** The stored intent an owner's copy is checked against. *)
Record intent_matches (d : Db) (intent : ExecutionIntent) (i : IntentRow) (row : ReservationRow) : Prop := {
  im_valid : validate_execution_id (ei_execution_id intent) = Ok tt;
  im_intent : budget_execution_intent d !! ei_execution_id intent = Some i;
  im_row : budget_reservation d !! ir_reservation_id i = Some row;
  im_cols : 0 <= ir_reservation_id i /\ 0 <= rr_ceiling row /\ timestamp_bad (rr_expires_at row) = false;
  im_id : rsv_id (ei_reservation intent) = ir_reservation_id i;
  im_scope : rsv_scope (ei_reservation intent) = rr_scope row;
  im_ceiling : rsv_ceiling (ei_reservation intent) = rr_ceiling row;
  im_expiry : unix_timestamp (rsv_expires_at (ei_reservation intent)) =
              unix_timestamp (seconds (rr_expires_at row)) }.

Definition stored_intent (e : string) (i : IntentRow) (row : ReservationRow) : ExecutionIntent :=
  MkIntent e (MkReservation (ir_reservation_id i) (rr_scope row) (rr_ceiling row)
                (seconds (rr_expires_at row))).

Lemma checked_intent_ok intent s o s' :
  checked_intent intent s = (Ok o, s') ->
  st_db s' = st_db s /\ exists i row, intent_matches (st_db s) intent i row /\
    o = stored_intent (ei_execution_id intent) i row.
Proof.
  unfold checked_intent, intent_durable, equery. intros Ha.
  apply M_bind_ok in Ha as (oo & s1 & Hd & Ha).
  apply M_bind_ok in Hd as ([] & ? & Hl & Hd). apply lift_ok in Hl as [Hv ->].
  apply M_bind_ok in Hd as (x & s2 & Hq & Hd). apply query_ok in Hq as [Hq E2].
  apply M_bind_ok in Ha as (o' & ? & Hl & Ha). apply lift_ok in Hl as [Hl%ok_or_ok ->]. subst oo.
  destruct x as [[[[id sc] ceil] ex]|]; [|done].
  apply M_bind_ok in Hd as (? & ? & Hl & Hd). apply bail_if_ok in Hl as [Hts ->].
  injection Hd as <- <-.
  apply M_bind_ok in Ha as (? & ? & Hl & Ha). apply bail_if_ok in Hl as [Hsc ->].
  apply M_bind_ok in Ha as (? & ? & Hl & Ha). apply bail_if_ok in Hl as [Hok ->].
  injection Ha as <- <-. simpl in *. bools. apply bool_decide_eq_true in Hsc. split; [done|].
  destruct (budget_execution_intent (st_db s) !! ei_execution_id intent) as [i|] eqn:Hi; [|done].
  destruct (budget_reservation (st_db s) !! ir_reservation_id i) as [row|] eqn:Hr; [|done].
  unfold col_u64 in Hq. destruct (0 <=? ir_reservation_id i) eqn:Hc1; simpl in Hq; [|done].
  destruct (0 <=? rr_ceiling row) eqn:Hc2; simpl in Hq; [|done]. injection Hq as <- <- <- <-.
  exists i, row. split; [|done]. split; try done; try lia. repeat split; [lia|lia|done].
Qed.

Lemma checked_intent_fine d intent i row :
  intent_matches d intent i row ->
  checked_intent intent (MkStore d []) = (Ok (stored_intent (ei_execution_id intent) i row), MkStore d []).
Proof.
  intros [Hv Hi Hr (Hc1 & Hc2 & Hc3) Hid Hsc Hce Hex]. unfold checked_intent, intent_durable, equery.
  erewrite M_bind_run.
  2: { rewrite Hv. erewrite M_bind_run by done. erewrite M_bind_run.
       2: { apply query_fine. rewrite Hi, Hr. unfold col_u64.
            rewrite (proj2 (Z.leb_le _ _) Hc1), (proj2 (Z.leb_le _ _) Hc2). reflexivity. }
       cbv beta iota. rewrite Hc3. erewrite M_bind_run by done. reflexivity. }
  erewrite M_bind_run by done. simpl.
  rewrite Hid, Hsc, Hce, Hex, bool_decide_true, !Z.eqb_refl by done. done.
Qed.

Lemma with_tracked_ok {A} (d d' : ShardedLedger) (m : evM A) a :
  with_tracked d m = (Ok a, d') ->
  exists s s', d = [MkShard s false] /\ file_backed (st_db s) = true /\ m s = (Ok a, s') /\
    d' = [MkShard s' false].
Proof.
  unfold with_tracked. intros Hw. destruct d as [|[s p] [|]]; try done. simpl in *.
  destruct p; [done|]. destruct (file_backed (st_db s)) eqn:Hf; [|done].
  unfold call_evidence in Hw. simpl in Hw. destruct (m s) as [[a'|er] s'] eqn:Em; [|done].
  injection Hw as <- <-. exists s, s'. by rewrite Em.
Qed.

(** A tracked attempt that committed, taken apart. *)
Record commit_of (t : TrackedObservation) (bp : Z) (ent : Entropy) (clk1 clk2 : Z) (d d' : ShardedLedger)
    (out : SettlementOutcome) (s s1 s2 : Store) (i : IntentRow) (row : ReservationRow) : Prop := {
  co_before : d = [MkShard s false] /\ file_backed (st_db s) = true;
  co_after : d' = [MkShard s2 false];
  co_intent : intent_matches (st_db s) (tr_intent t) i row;
  co_encodes : exists j, encode_usage (tr_usage t) = Ok j;
  co_steps : steps_to (st_db s) (st_db s1);
  co_record : recorded_as (st_db s) (st_db s1) (rsv_scope (ei_reservation (tr_intent t)))
                (ei_execution_id (tr_intent t)) (ir_reservation_id i) (tr_usage t) bp;
  co_settle : settle_terminal_durable (rsv_scope (ei_reservation (tr_intent t)))
                (ei_execution_id (tr_intent t)) ent clk2 s1 = (Ok out, s2) }.

Lemma commit_tracked_ok t bp ent clk1 clk2 d out b d' :
  commit_tracked t bp ent clk1 clk2 d = (Ok out, b, d') ->
  b = true /\ exists s s1 s2 i row, commit_of t bp ent clk1 clk2 d d' out s s1 s2 i row.
Proof.
  unfold commit_tracked. destruct (record_terminal_for_intent _ _ _ _ _) as [[x|er] d1] eqn:Hrec; [|done].
  destruct (sh_settle_terminal _ _ _ _ _) as [r d2] eqn:Hset. intros Hx. injection Hx as -> <- <-.
  split; [done|].
  unfold record_terminal_for_intent in Hrec. unfold sh_settle_terminal in Hset.
  apply with_tracked_ok in Hrec as (s & s1 & -> & Hf & Hrec & ->).
  apply with_tracked_ok in Hset as (s1' & s2 & Heq & _ & Hset & ->). injection Heq as <-.
  apply M_bind_ok in Hrec as (o & s0 & Hc & Hrec).
  destruct (checked_intent_ok _ _ _ _ Hc) as (E0 & i & row & Hm & ->). simpl in Hrec.
  pose proof (keeps_record_terminal _ _ _ _ _ _ _ _ Hrec) as Hst.
  destruct (record_terminal_ok _ _ _ _ _ _ _ _ Hrec) as (Henc & i' & Hi' & Hr).
  rewrite E0 in *. assert (i' = i) as -> by (pose proof (im_intent _ _ _ _ Hm); congruence).
  exists s, s1, s2, i, row. split; try done. by rewrite (im_scope _ _ _ _ Hm).
Qed.

Lemma try_commit_tracked p t m ent clk1 clk2 rid out m' :
  pe_tracked p = Some t -> try_commit p m ent clk1 clk2 = (AttemptCommitted rid out, m') ->
  rid = pe_request_id p /\ exists d d', m = MkMutex false false (Durable d) /\
    m' = MkMutex false false (Durable d') /\
    exists s s1 s2 i row, commit_of t (pe_cache_read_bp p) ent clk1 clk2 d d' out s s1 s2 i row.
Proof.
  unfold try_commit, with_durable_ledger. intros ->. destruct m as [[] [] [l|d]]; simpl; try done.
  destruct (commit_tracked t (pe_cache_read_bp p) ent clk1 clk2 d) as [[[o|er] b] d'] eqn:Hc; simpl; [|done].
  intros Hx. injection Hx as <- <- <-. apply commit_tracked_ok in Hc as (-> & Hc).
  split; [done|]. by exists d, d'.
Qed.

(** A committed attempt charges what the owner observed.  When an
    attempt on a tracked owner commits a settlement, the usage it owned is
    final and provider-reported, the receipt names the owner's reservation
    and scope, and (unless an observation was already stored under an
    earlier weight) the charge is the weighted billable quantity of that
    usage; the answer carries the owner's request identity. *)
Theorem commit_charges_owned_usage `{!LawfulCodec} (p : PendingSettlement) (t : TrackedObservation)
    (m m' : Mutex ProxyLedger) (ent : Entropy) (clk1 clk2 : Z) (rid : string) (r : SettlementReceipt) :
  pe_tracked p = Some t -> usage_ok (tr_usage t) -> 0 <= pe_cache_read_bp p ->
  try_commit p m ent clk1 clk2 = (AttemptCommitted rid (Committed r), m') ->
  rid = pe_request_id p /\
  u_completeness (tr_usage t) = Final /\ u_basis (tr_usage t) = ProviderReported /\
  sr_reservation_id r = rsv_id (ei_reservation (tr_intent t)) /\
  sr_scope r = rsv_scope (ei_reservation (tr_intent t)) /\
  exists s, mx_value m = Durable [MkShard s false] /\
    (budget_terminal_observation (st_db s) !! ei_execution_id (tr_intent t) = None ->
     sr_charged_tokens r = billable_weighted (tr_usage t) (pe_cache_read_bp p)).
Proof.
  intros Ht Hok Hbp Hc. destruct (try_commit_tracked _ _ _ _ _ _ _ _ _ Ht Hc)
    as (-> & d & d' & -> & -> & s & s1 & s2 & i & row & [[-> _] -> Hm _ Hst Hrec Hset]).
  destruct (settle_terminal_committed _ _ _ _ _ _ _ Hset) as (charge & i' & row' & o & Hso & _).
  destruct Hso as [Hi Hrow Hsc Hz Hobs Hch Hnn Hid Hno Hnew Hr Hdb Hfe].
  destruct (recorded_reads _ _ _ _ _ _ _ Hok Hbp Hrec) as (o' & Ho' & Hu & Hfr).
  assert (Hint : budget_execution_intent (st_db s1) = budget_execution_intent (st_db s))
    by (destruct Hrec as [[-> _]|[_ (? & ? & _ & _ & ->)]]; done).
  assert (i' = i) as -> by (pose proof (im_intent _ _ _ _ Hm); congruence).
  assert (o' = o) as -> by congruence. apply terminal_charge_spec in Hch as (Hf & Hb & Hfc).
  rewrite Hu in *. split; [done|]. split; [done|]. split; [done|].
  rewrite Hr. simpl. split; [by rewrite (im_id _ _ _ _ Hm)|]. split; [done|].
  exists s. split; [done|]. intros Hn. specialize (Hfr Hn). rewrite Hfr in Hfc. unfold frozen in Hfc.
  rewrite Hf in Hfc. congruence.
Qed.

(** Recording again on the settled state is a replay. *)
Lemma settled_record_replay d sc e k r i row o ob f x bp clk :
  settled_state d sc e k r i row o ob f x -> validate_scope sc = Ok tt -> validate_execution_id e = Ok tt ->
  (exists j, encode_usage (to_usage o) = Ok j) ->
  record_terminal_durable sc e (to_usage o) bp clk (MkStore d []) = (Ok (AlreadyRecorded o), MkStore d []).
Proof.
  intros SS Hvs Hve [j Hj]. pose proof (settled_require_observable _ _ _ _ _ _ _ _ _ _ _ SS) as Hro.
  pose proof (settled_intent_binding _ _ _ _ _ _ _ _ _ _ _ SS) as Hib.
  destruct SS as [_ _ _ _ Hobs _ _ _ _ _]. unfold record_terminal_durable, etransaction.
  rewrite Hvs, Hve, Hj. erewrite M_bind_run by done. erewrite M_bind_run by done.
  erewrite M_bind_run by done.
  erewrite transaction_fine with (c := false) (d' := d); [done|].
  erewrite M_bind_run by exact Hib. erewrite M_bind_run by done. cbv beta iota.
  rewrite (bool_decide_true (sc = sc)) by done. erewrite M_bind_run by done.
  erewrite M_bind_run by exact Hro. erewrite M_bind_run by exact Hobs. cbv beta iota.
  rewrite (bool_decide_true (to_usage o = to_usage o)) by done. erewrite M_bind_run by done. done.
Qed.

Lemma with_tracked_fine {A} d (m : evM A) a d' :
  file_backed d = true -> m (MkStore d []) = (Ok a, MkStore d' []) ->
  with_tracked [MkShard (MkStore d []) false] m = (Ok a, [MkShard (MkStore d' []) false]).
Proof. intros Hf Hm. unfold with_tracked, call_evidence. simpl. by rewrite Hf, Hm. Qed.

Definition idle_mutex (s : Store) : Mutex ProxyLedger := MkMutex false false (Durable [MkShard s false]).

(** The attempt on the settled state. *)
Lemma settled_attempt d sc e k r i row o ob f x p t ent clk1 clk2 :
  settled_state d sc e k r i row o ob f x -> file_backed d = true -> validate_scope sc = Ok tt ->
  (exists j, encode_usage (to_usage o) = Ok j) ->
  pe_tracked p = Some t -> tr_usage t = to_usage o ->
  rsv_scope (ei_reservation (tr_intent t)) = sc -> ei_execution_id (tr_intent t) = e ->
  intent_matches d (tr_intent t) i row ->
  try_commit p (idle_mutex (MkStore d [])) ent clk1 clk2 =
    (AttemptCommitted (pe_request_id p) (AlreadyCommitted r), idle_mutex (MkStore d [])).
Proof.
  intros SS Hf Hvs Hj Ht Hu <- <- Hm. pose proof (im_valid _ _ _ _ Hm) as Hve.
  unfold try_commit, with_durable_ledger, idle_mutex. rewrite Ht. simpl. unfold commit_tracked.
  assert (Hrec : record_terminal_for_intent [MkShard (MkStore d []) false] (tr_intent t) (tr_usage t)
    (pe_cache_read_bp p) clk1 = (Ok (AlreadyRecorded o), [MkShard (MkStore d []) false])).
  { unfold record_terminal_for_intent. apply with_tracked_fine; [done|].
    erewrite M_bind_run by (by apply checked_intent_fine). simpl. rewrite Hu, <- (im_scope _ _ _ _ Hm).
    by eapply settled_record_replay. }
  rewrite Hrec. unfold sh_settle_terminal. erewrite with_tracked_fine; [|done|].
  2: { by eapply settled_replay. }
  done.
Qed.

(** Retrying a committed settlement is harmless.  Once an attempt on a
    tracked owner committed with receipt [r], then after any further
    sequence of ledger operations and storage failures, every attempt on
    an owner of the same execution and usage, whatever its weight, clock
    and entropy, commits again with that same receipt and changes nothing:
    an interrupted caller may always retry, and is never charged twice. *)
Theorem retry_returns_the_receipt `{!LawfulCodec} (p p' : PendingSettlement) (t t' : TrackedObservation)
    (s s1 s2 : Store) (ent ent' : Entropy) (clk1 clk2 clk1' clk2' : Z) (rid : string)
    (r : SettlementReceipt) (ops : list dop) (xs : list dout) :
  pe_tracked p = Some t -> usage_ok (tr_usage t) -> 0 <= pe_cache_read_bp p ->
  db_inv (st_db s) -> is_Some (budget_dispatch_fence (st_db s) !! ei_execution_id (tr_intent t)) ->
  entropy_ok ent = true ->
  try_commit p (idle_mutex s) ent clk1 clk2 = (AttemptCommitted rid (Committed r), idle_mutex s1) ->
  drun s1 ops = (xs, s2) ->
  pe_tracked p' = Some t' -> tr_intent t' = tr_intent t -> tr_usage t' = tr_usage t ->
  try_commit p' (idle_mutex (MkStore (st_db s2) [])) ent' clk1' clk2' =
    (AttemptCommitted (pe_request_id p') (AlreadyCommitted r), idle_mutex (MkStore (st_db s2) [])).
Proof.
  intros Ht Hok Hbp Hinv [f Hf] Hent Hc Hrun Ht' Hti Htu.
  destruct (try_commit_tracked _ _ _ _ _ _ _ _ _ Ht Hc)
    as (_ & d & d' & Hd & Hd' & s0 & s01 & s02 & i & row & Hco).
  destruct Hco as [[-> Hfb] -> Hm Henc Hst Hrec Hset].
  injection Hd as ->. injection Hd' as ->.
  destruct (Hst Hinv) as [Hinv1 Hev1].
  destruct (keeps_settle_terminal _ _ _ _ _ _ _ Hset Hinv1) as [Hinv2 Hev2].
  destruct (drun_steps _ _ _ _ Hrun Hinv2) as [Hinv3 Hev3].
  destruct (settle_terminal_committed _ _ _ _ _ _ _ Hset) as (charge & i' & row' & o & Hso & Hid & Hv1 & Hv2).
  destruct (recorded_reads _ _ _ _ _ _ _ Hok Hbp Hrec) as (o' & Ho' & Hu & _).
  assert (Hsame : budget_execution_intent (st_db s01) = budget_execution_intent (st_db s0) /\
    budget_reservation (st_db s01) = budget_reservation (st_db s0) /\
    budget_dispatch_fence (st_db s01) = budget_dispatch_fence (st_db s0))
    by (destruct Hrec as [[-> _]|[_ (? & ? & _ & _ & ->)]]; done).
  destruct Hsame as (E1 & E2 & E3).
  assert (i' = i) as -> by (pose proof (im_intent _ _ _ _ Hm); pose proof (so_intent _ _ _ _ _ _ _ _ _ _ Hso); congruence).
  assert (row' = row) as -> by (pose proof (im_row _ _ _ _ Hm); pose proof (so_row _ _ _ _ _ _ _ _ _ _ Hso); congruence).
  assert (o' = o) as -> by (pose proof (so_observed _ _ _ _ _ _ _ _ _ _ Hso); congruence).
  rewrite <- E3 in Hf.
  destruct (settlement_persists _ _ _ _ _ _ _ _ _ _ _ _ Hso Hev3 Hinv3 (opaque_id_valid _ _ Hent Hid) Hf)
    as (row2 & ob & x & Hss).
  assert (Hrow2 : row2 = settle_row charge (unix_timestamp clk2) row).
  { pose proof (ss_row _ _ _ _ _ _ _ _ _ _ _ Hss) as Hr2.
    assert (Hr1 : budget_reservation (st_db s02) !! ir_reservation_id i =
      Some (settle_row charge (unix_timestamp clk2) row))
      by (rewrite (so_db _ _ _ _ _ _ _ _ _ _ Hso); apply lookup_insert_eq).
    pose proof (evo_settled _ _ Hev3 _ _ Hr1 ltac:(done)). congruence. }
  eapply settled_attempt; [exact Hss| |done|by rewrite Hu|exact Ht'|by rewrite Htu|by rewrite Hti|by rewrite Hti|].
  - by rewrite (evo_kind _ _ Hev3), (evo_kind _ _ Hev2), (evo_kind _ _ Hev1).
  - rewrite Hti. destruct Hm as [M1 M2 M3 M4 M5 M6 M7 M8].
    split; try done; [apply (ss_intent _ _ _ _ _ _ _ _ _ _ _ Hss)|apply (ss_row _ _ _ _ _ _ _ _ _ _ _ Hss)
      |by rewrite Hrow2..].
Qed.

(** A terminal settlement on the one shard, however it ends. *)
Lemma sh_settle_evolves s1 sc e ent clk r d2 :
  db_inv (st_db s1) -> sh_settle_terminal [MkShard s1 false] sc e ent clk = (r, d2) ->
  exists sh, d2 = [sh] /\ evolves (st_db s1) (sh_db sh).
Proof.
  intros Hdb Hset. unfold sh_settle_terminal, with_tracked, call_evidence in Hset. simpl in Hset.
  destruct (file_backed (st_db s1)); [|injection Hset as _ <-; by eexists].
  destruct (settle_terminal_durable _ _ _ _ s1) as [r2 s2] eqn:Hs2. injection Hset as _ <-.
  eexists. split; [done|]. by apply (keeps_settle_terminal _ _ _ _ _ _ _ Hs2).
Qed.

(** An unresolved attempt hands its owner back.  Whatever fails, the
    owner returned is the one given, with at most its [recorded] mark
    raised; a failure to reach a durable ledger changes nothing; and a
    raised mark is the truth: the owner's usage is stored as the
    observation of its execution. *)
Theorem unresolved_attempt_keeps_owner `{!LawfulCodec} (p p' : PendingSettlement) (m m' : Mutex ProxyLedger)
    (ent : Entropy) (clk1 clk2 : Z) (failure : Failure) :
  (forall d sh, mx_value m = Durable d -> sh ∈ d -> db_inv (sh_db sh)) ->
  (forall t, pe_tracked p = Some t -> usage_ok (tr_usage t)) -> 0 <= pe_cache_read_bp p ->
  try_commit p m ent clk1 clk2 = (AttemptUnresolved p' failure, m') ->
  (p' = p \/ p' = set_recorded p) /\
  ((forall e, failure <> EvidenceFailed e) -> p' = p /\ m' = m) /\
  (forall t, pe_tracked p = Some t -> observation_recorded p = Some false ->
     observation_recorded p' = Some true ->
     exists sh o, mx_value m' = Durable [sh] /\
       read_observation (ei_execution_id (tr_intent t)) (rsv_id (ei_reservation (tr_intent t)))
         (rsv_scope (ei_reservation (tr_intent t))) (MkStore (sh_db sh) []) =
         (Ok (Some o), MkStore (sh_db sh) []) /\ to_usage o = tr_usage t).
Proof.
  intros Hinv Hok Hbp Ha. unfold try_commit in Ha. destruct (pe_tracked p) as [t|] eqn:Ht.
  2: { split; [|split; [|by intros t]].
       - destruct (pe_charge p), (pe_reservation p); try (injection Ha as <- _ _; by left).
         destruct (with_durable_ledger _ _) as [[]]; simpl in Ha; [done|]. injection Ha as <- _ _. by left.
       - intros Hf. destruct (pe_charge p), (pe_reservation p); try (by injection Ha as <- _ <-).
         unfold with_durable_ledger in Ha. destruct m as [[] [] [l|d]]; simpl in Ha; try (by injection Ha as <- _ <-).
         destruct (sh_settle_with_evidence _ _ _ _ _ _) as [[|er] d']; simpl in Ha; [done|].
         injection Ha as _ <- _. by destruct (Hf er). }
  unfold with_durable_ledger in Ha. destruct m as [[] [] [l|d]]; simpl in Ha;
    try (injection Ha as <- _ <-; split; [by left|]; split; [done|]; intros t' [= <-] Hx Hy; congruence).
  destruct (commit_tracked t (pe_cache_read_bp p) ent clk1 clk2 d) as [[[out|er] b] d'] eqn:Hc;
    simpl in Ha; [done|].
  assert (Hp : p' = (if b then set_recorded p else p) /\ failure = EvidenceFailed er /\
    mx_value m' = Durable d') by (destruct b; by injection Ha as <- <- <-).
  destruct Hp as (-> & -> & Hm'). split; [destruct b; [by right|by left]|].
  split; [intros Hf; by destruct (Hf er)|]. intros t' [= <-] Hx Hy. destruct b; [|congruence].
  unfold commit_tracked in Hc.
  destruct (record_terminal_for_intent _ _ _ _ _) as [[x|er'] d1] eqn:Hrec; [|done].
  destruct (sh_settle_terminal _ _ _ _ _) as [r d2] eqn:Hset. injection Hc as -> <-.
  unfold record_terminal_for_intent in Hrec. apply with_tracked_ok in Hrec as (s & s1 & -> & Hf & Hrec & ->).
  apply M_bind_ok in Hrec as (o & s0 & Hci & Hrec).
  destruct (checked_intent_ok _ _ _ _ Hci) as (E0 & i & row & Hm & ->). simpl in Hrec.
  assert (Hdb : db_inv (st_db s0)) by (rewrite E0; by apply (Hinv _ (MkShard s false) eq_refl (list_elem_of_here _ _))).
  destruct (keeps_record_terminal _ _ _ _ _ _ _ _ Hrec Hdb) as [Hdb1 _].
  destruct (record_terminal_ok _ _ _ _ _ _ _ _ Hrec) as (_ & i' & Hi' & Hr).
  rewrite E0 in *. assert (i' = i) as -> by (pose proof (im_intent _ _ _ _ Hm); congruence).
  destruct (recorded_reads _ _ _ _ _ _ _ (Hok t eq_refl) Hbp Hr) as (o & Ho & Hu & _).
  rewrite <- (im_scope _ _ _ _ Hm), <- (im_id _ _ _ _ Hm) in Ho.
  destruct (sh_settle_evolves _ _ _ _ _ _ _ Hdb1 Hset) as (sh & -> & Hev).
  exists sh, o. split; [done|]. split; [|done].
  destruct (read_observation_row _ _ _ _ _ Ho) as [orow Horow].
  eapply read_observation_frame; [|exact Ho]. rewrite Horow.
  eapply lookup_weaken; [exact Horow|apply (evo_observations _ _ Hev)].
Qed.
End Owned.

(** ** Witnesses *)

#[local] Existing Instances utc_days demo_codec.

#[local] Instance demo_lawful : LawfulCodec.
Proof.
  intros u j Hj. unfold encode_usage in Hj. inv_ok. simpl in *.
  repeat match goal with Hx : context [decide (u = usage_demo)] |- _ =>
    destruct (decide (u = usage_demo)) as [->|]; [|discriminate] end.
  by inv_ok.
Qed.

Definition owner_before : list dop :=
  [DSetLimit "team" (Some 2000) Total Block; DPrepared "team" 1500 0 (seconds 900) 10 demo_ent;
   DAuthorize "team" demo_exec (seconds 1)].
Definition owner_intent : ExecutionIntent :=
  MkIntent demo_exec (MkReservation 1 "team" 1500 (seconds 900)).
Definition owner : PendingSettlement :=
  into_settlement (MkAuthorized "req" owner_intent demo_exec) usage_demo.
Definition owner_tracked : TrackedObservation := MkTracked owner_intent usage_demo false.
Definition owner_store : Store := Eval vm_compute in (drun demo_store owner_before).2.
Definition owner_done : Store :=
  Eval vm_compute in
  match mx_value (try_commit owner (idle_mutex owner_store) demo_ent2 (seconds 4) (seconds 5)).2 with
  | Durable [MkShard s _] => s
  | _ => demo_store
  end.
Definition owner_receipt : SettlementReceipt := MkReceipt demo_receipt 1 "team" 1025 5.

Lemma owner_store_inv : db_inv (st_db owner_store).
Proof.
  destruct (drun_steps owner_before demo_store (drun demo_store owner_before).1 owner_store) as [Hi _];
    [vm_compute; reflexivity|apply db_empty_inv|exact Hi].
Qed.

Lemma commit_charges_owned_usage_witness :
  (try_commit owner (idle_mutex owner_store) demo_ent2 (seconds 4) (seconds 5)).1 =
    AttemptCommitted "req" (Committed owner_receipt) /\
  sr_charged_tokens owner_receipt = billable_weighted usage_demo 10000.
Proof.
  split; [vm_compute; reflexivity|].
  destruct (commit_charges_owned_usage owner owner_tracked (idle_mutex owner_store) (idle_mutex owner_done)
    demo_ent2 (seconds 4) (seconds 5) "req" owner_receipt) as (_ & _ & _ & _ & _ & s & Hs & Hc);
    [reflexivity|by apply usage_ok_b_spec|by vm_compute|vm_compute; reflexivity|].
  apply Hc. injection Hs as <-. vm_compute. reflexivity.
Defined.

Lemma retry_returns_the_receipt_witness :
  try_commit (with_cache_read_weight owner 500)
      (idle_mutex (MkStore (st_db (drun owner_done demo_after).2) [])) None 77 78 =
    (AttemptCommitted "req" (AlreadyCommitted owner_receipt),
     idle_mutex (MkStore (st_db (drun owner_done demo_after).2) [])).
Proof.
  apply (retry_returns_the_receipt owner (with_cache_read_weight owner 500) owner_tracked owner_tracked
    owner_store owner_done (drun owner_done demo_after).2 demo_ent2 None (seconds 4) (seconds 5) 77 78
    "req" owner_receipt demo_after (drun owner_done demo_after).1);
    [reflexivity|by apply usage_ok_b_spec|by vm_compute|exact owner_store_inv
    |vm_compute; by eexists|reflexivity|vm_compute; reflexivity|vm_compute; reflexivity
    |reflexivity|reflexivity|reflexivity].
Defined.

(** The settlement's statement fails after the observation was recorded. *)
Definition owner_faulty : Store := MkStore (st_db owner_store) (replicate 14 Fine ++ [Fails]).
Definition owner_after_fault : Attempt * Mutex ProxyLedger :=
  Eval vm_compute in try_commit owner (idle_mutex owner_faulty) demo_ent2 (seconds 4) (seconds 5).

Lemma unresolved_attempt_keeps_owner_witness :
  owner_after_fault.1 = AttemptUnresolved (set_recorded owner) (EvidenceFailed (Storage SqliteFailure)) /\
  exists sh o, mx_value owner_after_fault.2 = Durable [sh] /\
    read_observation demo_exec 1 "team" (MkStore (sh_db sh) []) = (Ok (Some o), MkStore (sh_db sh) []) /\
    to_usage o = usage_demo.
Proof.
  split; [vm_compute; reflexivity|].
  destruct (unresolved_attempt_keeps_owner owner (set_recorded owner) (idle_mutex owner_faulty)
    owner_after_fault.2 demo_ent2 (seconds 4) (seconds 5) (EvidenceFailed (Storage SqliteFailure)))
    as (_ & _ & Hx).
  - intros d sh [= <-] ->%list_elem_of_singleton. exact owner_store_inv.
  - intros t [= <-]. by apply usage_ok_b_spec.
  - by vm_compute.
  - vm_compute; reflexivity.
  - apply (Hx owner_tracked); reflexivity.
Defined.
