(* ===== verification/Jobs.v ===== *)
(** [crates/sandhi-proxy/src/settlement/jobs.rs]: the bounded registry that
    owns blocking accounting work.  Every method is one critical section
    of the registry lock, so it is a function of the registry; workers,
    obligations and consumers interleave.  A [snapshot()] copies a value
    field by field and is the identity here. *)

From S2P Require Import Prelude Ledger InMemory Budget Sql SqlLedger SqlContract Usage Allowance.
From S2P Require Import Evidence EvidenceOps Sharded ProxyLedger Lifecycle Settlement.

#[export] Instance ExecutionIntent_eq_dec : EqDecision ExecutionIntent.
Proof. solve_decision. Defined.

(** ** Data *)

Inductive Work :=
| WAuthorize (p : PendingDispatch)
| WClose (p : PendingDispatch)
| WSettle (p : PendingSettlement).

Inductive Outcome :=
| ODispatch (a : DispatchAttempt)
| OSettlement (a : Attempt)
| OInterrupted (w : Work).

Inductive Refusal := Full | Closed | NoRuntime.
Inductive Kind := KWork | KAdmission.
#[export] Instance Kind_eq_dec : EqDecision Kind.
Proof. solve_decision. Defined.

Inductive Input :=
| IWork (w : Work)
| IAdmission (p : PreparedAdmission).

Inductive ResultValue :=
| RWork (o : Outcome)
| RAdmission (o : AdmissionOutcome).

Definition Input_interrupted (i : Input) : ResultValue :=
  match i with
  | IWork w => RWork (OInterrupted w)
  | IAdmission p => RAdmission (AdmissionInterrupted (pa_evidence p))
  end.
Definition kind (r : ResultValue) : Kind :=
  match r with RWork _ => KWork | RAdmission _ => KAdmission end.
Definition interrupted (r : ResultValue) : bool :=
  match r with
  | RWork (OInterrupted _) | RAdmission (AdmissionInterrupted _) => true
  | _ => false
  end.

Inductive JPhase :=
| PEmpty | PAdmitting | PPrepared | PAuthorizing | PAuthorized | PClosing | PTerminal | PResolved
| PUncertain.
#[export] Instance JPhase_eq_dec : EqDecision JPhase.
Proof. solve_decision. Defined.

Record Slot := MkSlot {
  sl_snapshot : option Input; sl_outcome : option ResultValue; sl_held : bool; sl_running : bool;
  sl_epoch : Z; sl_releasable : bool; sl_consumed : bool; sl_phase : JPhase }.

(** The registry and the bound of its [Inner]. *)
Record Registry := MkRegistry {
  rg_slots : gmap Z Slot; rg_next : Z; rg_closed : bool; rg_capacity : Z }.

Definition rg_new (capacity : Z) : Registry := MkRegistry ∅ 0 false capacity.
Definition set_slots (t : gmap Z Slot) (g : Registry) : Registry :=
  MkRegistry t (rg_next g) (rg_closed g) (rg_capacity g).
Definition set_closed (b : bool) (g : Registry) : Registry :=
  MkRegistry (rg_slots g) (rg_next g) (rg_closed g || b) (rg_capacity g).
Definition set_next (n : Z) (g : Registry) : Registry :=
  MkRegistry (rg_slots g) n (rg_closed g) (rg_capacity g).

(** The ids in order: the map is a [BTreeMap]. *)
Definition slot_le (a b : Z * Slot) : Prop := a.1 <= b.1.
#[export] Instance slot_le_dec a b : Decision (slot_le a b).
Proof. unfold slot_le. apply _. Defined.
Definition first_slot (p : Z -> Slot -> bool) (g : Registry) : option (Z * Slot) :=
  head (filter (fun x => p x.1 x.2 = true) (merge_sort slot_le (map_to_list (rg_slots g)))).

Definition retained (g : Registry) : Z := Z.of_nat (size (rg_slots g)).

(** ** Running the work *)

Section Jobs.
Context `{Calendar} `{UsageCodec}.

(** The clock readings and the entropy one run uses. *)
Record Reads := MkReads { rd_clk1 : Z; rd_clk2 : Z; rd_ent : Entropy }.

Definition run_work (w : Work) (m : Mutex ProxyLedger) (rd : Reads) : Outcome * Mutex ProxyLedger :=
  match w with
  | WAuthorize p => let '(a, m) := try_authorize p m (rd_clk1 rd) in (ODispatch a, m)
  | WClose p => let '(a, m) := try_close p m (rd_clk1 rd) in (ODispatch a, m)
  | WSettle p => let '(a, m) := try_commit p m (rd_ent rd) (rd_clk1 rd) (rd_clk2 rd) in (OSettlement a, m)
  end.

Definition run_input (i : Input) (m : Mutex ProxyLedger) (l : Lifecycle) (rd : Reads)
    : ResultValue * Mutex ProxyLedger :=
  match i with
  | IWork w => let '(o, m) := run_work w m rd in (RWork o, m)
  | IAdmission p => let '(o, m) := run_admission p m l (rd_clk1 rd) (rd_ent rd) in (RAdmission o, m)
  end.
End Jobs.

(** ** Publication and transfer *)

Definition next_phase_of (outcome : option ResultValue) (phase : JPhase) : JPhase :=
  match outcome with
  | Some (RAdmission (AdmissionPrepared _)) => PPrepared
  | Some (RAdmission (AdmissionDenied _ _ | AdmissionCutoff _)) => PResolved
  | Some (RWork (ODispatch (DispatchAuthorized _))) => PAuthorized
  | Some (RWork (ODispatch (DispatchClosed _ _))) => PResolved
  | Some (RWork (OSettlement (AttemptCommitted _ _))) => PResolved
  | _ => if bool_decide (phase = PTerminal) then PTerminal else PUncertain
  end.

Definition releases (outcome : option ResultValue) : bool :=
  match outcome with
  | Some (RAdmission (AdmissionDenied _ _ | AdmissionCutoff _))
  | Some (RWork (OSettlement (AttemptCommitted _ _)))
  | Some (RWork (ODispatch (DispatchClosed _ _))) => true
  | _ => false
  end.

(** The slot a worker's outcome leaves. *)
Definition finished (slot : Slot) (outcome : option ResultValue) : Slot :=
  let snapshot :=
    match outcome with
    | Some (RAdmission (AdmissionPrepared pending)) =>
        if sl_held slot then Some (IWork (WClose pending)) else sl_snapshot slot
    | _ => sl_snapshot slot
    end in
  MkSlot (if sl_held slot then snapshot else None)
    (match outcome with Some o => Some o | None => Input_interrupted <$> snapshot end)
    (sl_held slot) false (sl_epoch slot) (releases outcome) (sl_consumed slot)
    (if sl_held slot then next_phase_of outcome (sl_phase slot) else sl_phase slot).

Definition finish (g : Registry) (id epoch : Z) (outcome : option ResultValue) : Registry :=
  let g := set_closed (match outcome with None => true | Some r => interrupted r end) g in
  match rg_slots g !! id with
  | Some slot =>
      if (sl_epoch slot =? epoch) && sl_running slot
      then set_slots (<[id := finished slot outcome]> (rg_slots g)) g
      else set_closed true g
  | None => set_closed true g
  end.

Definition take (g : Registry) (id epoch : Z) (k : Kind) : option ResultValue * Registry :=
  match rg_slots g !! id with
  | None => (None, g)
  | Some slot =>
      match sl_outcome slot with
      | None => (None, g)
      | Some r =>
          if negb (sl_epoch slot =? epoch) || sl_consumed slot || negb (bool_decide (kind r = k))
          then (None, g)
          else if sl_held slot
          then (Some r, set_slots (<[id := MkSlot (sl_snapshot slot) None true (sl_running slot)
                  (sl_epoch slot) (sl_releasable slot) true (sl_phase slot)]> (rg_slots g)) g)
          else (Some r, set_slots (delete id (rg_slots g)) g)
      end
  end.

Definition ready (k : Kind) (slot : Slot) : bool :=
  negb (sl_held slot) && match sl_outcome slot with Some r => bool_decide (kind r = k) | None => false end.

Definition take_ready (g : Registry) (k : Kind) : option ResultValue * Registry :=
  match first_slot (fun _ slot => ready k slot) g with
  | None => (None, g)
  | Some (id, slot) => (sl_outcome slot, set_slots (delete id (rg_slots g)) g)
  end.

(** ** Obligations *)

Definition obligation (g : Registry) (l : Lifecycle) : result Refusal Z * Registry * Lifecycle :=
  if rg_closed g || negb (is_running l) then (Err Closed, g, l)
  else if rg_capacity g <=? retained g then (Err Full, g, l)
  else match checked_add (rg_next g) 1 with
       | None => (Err Closed, g, l)
       | Some next =>
           match try_operation l with
           | (false, l) => (Err Closed, g, l)
           | (true, l) =>
               let slot := MkSlot None None true false 0 false false PEmpty in
               (Ok (rg_next g), set_next next (set_slots (<[rg_next g := slot]> (rg_slots g)) g), l)
           end
       end.

(** The retained evidence is of this request and intent. *)
Definition binding_matches (snapshot : option Input) (request : string) (intent : ExecutionIntent) : bool :=
  match snapshot with
  | Some (IWork (WAuthorize p | WClose p)) =>
      bool_decide (pd_request_id p = request) && bool_decide (pd_intent p = intent)
  | Some (IWork (WSettle p)) =>
      bool_decide (pe_request_id p = request)
      && match pe_tracked p with Some t => bool_decide (tr_intent t = intent) | None => false end
  | _ => false
  end.

Definition next_phase (slot : Slot) (input : Input) : option JPhase :=
  match input with
  | IAdmission _ => if bool_decide (sl_phase slot = PEmpty) then Some PAdmitting else None
  | IWork (WAuthorize p) =>
      if bool_decide (sl_phase slot = PPrepared)
         && binding_matches (sl_snapshot slot) (pd_request_id p) (pd_intent p)
      then Some PAuthorizing else None
  | IWork (WClose p) =>
      if bool_decide (sl_phase slot = PPrepared)
         && binding_matches (sl_snapshot slot) (pd_request_id p) (pd_intent p)
      then Some PClosing else None
  | IWork (WSettle p) =>
      if bool_decide (sl_phase slot = PAuthorized) || bool_decide (sl_phase slot = PTerminal) then
        match pe_tracked p with
        | None => None
        | Some t =>
            if binding_matches (sl_snapshot slot) (pe_request_id p) (tr_intent t)
               && match sl_snapshot slot with
                  | Some (IWork (WSettle previous)) =>
                      bool_decide (terminal_usage previous = terminal_usage p)
                  | _ => bool_decide (sl_phase slot = PAuthorized)
                  end
            then Some PTerminal else None
        end
      else None
  end.

Definition needs_running (input : Input) : bool :=
  match input with IAdmission _ | IWork (WAuthorize _) => true | _ => false end.

(** [Obligation::submit_input]; [runtime] says whether a tokio runtime is
    current, [now] is the instant [remaining] reads. *)
Definition obl_submit (g : Registry) (l : Lifecycle) (id : Z) (input : Input) (runtime : bool) (now : Z)
    : result (Input * Refusal) Z * Registry :=
  match rg_slots g !! id with
  | None => (Err (input, Closed), g)
  | Some slot =>
      if sl_running slot || bool_decide (is_Some (sl_outcome slot)) then (Err (input, Full), g)
      else match next_phase slot input with
      | None => (Err (input, Closed), g)
      | Some ph =>
          let slot :=
            if bool_decide (ph = PTerminal)
            then MkSlot (Some input) (sl_outcome slot) (sl_held slot) (sl_running slot) (sl_epoch slot)
                   false (sl_consumed slot) ph
            else slot in
          let kept := set_slots (<[id := slot]> (rg_slots g)) g in
          if (needs_running input && (rg_closed g || negb (is_running l)))
             || bool_decide (remaining l now = Some 0)
          then (Err (input, Closed), kept)
          else if negb runtime then (Err (input, NoRuntime), kept)
          else match checked_add (sl_epoch slot) 1 with
          | None => (Err (input, Closed), kept)
          | Some epoch =>
              (Ok epoch, set_slots (<[id := MkSlot (Some input) (sl_outcome slot) (sl_held slot) true epoch
                                             false false ph]> (rg_slots g)) g)
          end
      end
  end.

(** [Drop for Obligation]. *)
Definition drop_obligation (g : Registry) (id : Z) : Registry :=
  match rg_slots g !! id with
  | None => g
  | Some slot =>
      if negb (sl_running slot) && bool_decide (sl_outcome slot = None) then
        if sl_releasable slot || bool_decide (sl_snapshot slot = None)
        then set_slots (delete id (rg_slots g)) g
        else set_slots (<[id := MkSlot None (Input_interrupted <$> sl_snapshot slot) false (sl_running slot)
               (sl_epoch slot) (sl_releasable slot) (sl_consumed slot) (sl_phase slot)]> (rg_slots g)) g
      else set_slots (<[id := MkSlot (sl_snapshot slot) (sl_outcome slot) false (sl_running slot)
             (sl_epoch slot) (sl_releasable slot) (sl_consumed slot) (sl_phase slot)]> (rg_slots g)) g
  end.

(** ** Direct submission and recovery *)

(** [Jobs::submit_input]: the id of the new slot. *)
Definition jobs_submit (g : Registry) (l : Lifecycle) (input : Input) (runtime : bool)
    : result (Input * Refusal) Z * Registry * Lifecycle :=
  if negb runtime then (Err (input, NoRuntime), g, l)
  else if rg_closed g || negb (is_running l) then (Err (input, Closed), g, l)
  else if rg_capacity g <=? retained g then (Err (input, Full), g, l)
  else match checked_add (rg_next g) 1 with
       | None => (Err (input, Closed), set_closed true g, l)
       | Some next =>
           match try_operation l with
           | (false, l) => (Err (input, Closed), g, l)
           | (true, l) =>
               let slot := MkSlot (Some input) None false true 0 false false PEmpty in
               (Ok (rg_next g), set_next next (set_slots (<[rg_next g := slot]> (rg_slots g)) g), l)
           end
       end.

(** The terminal work an abandoned slot still owes. *)
Definition owed_work (slot : Slot) : option Work :=
  match sl_snapshot slot with
  | Some (IWork (WSettle p)) => Some (WSettle p)
  | _ =>
      match sl_outcome slot with
      | Some (RWork (OSettlement (AttemptUnresolved pending _))) => Some (WSettle pending)
      | Some (RWork (OInterrupted (WSettle p))) => Some (WSettle p)
      | _ => None
      end
  end.

Definition abandoned (after : option Z) (id : Z) (slot : Slot) : bool :=
  match after with Some a => a <? id | None => true end
  && negb (sl_held slot) && negb (sl_running slot).

(** The first critical section of [retry_terminal]: the work to run, the
    cursor, the registry. *)
Definition retry_begin (g : Registry) (after : option Z) : option (Z * Z * Work) * option Z * Registry :=
  match first_slot (abandoned after) g with
  | None => (None, None, g)
  | Some (id, slot) =>
      if sl_releasable slot then (None, Some id, set_slots (delete id (rg_slots g)) g)
      else match owed_work slot with
      | None => (None, Some id, g)
      | Some w =>
          match checked_add (sl_epoch slot) 1 with
          | None => (None, Some id, g)
          | Some epoch =>
              (Some (id, epoch, w), Some id,
               set_slots (<[id := MkSlot (Some (IWork w)) None (sl_held slot) true epoch
                            (sl_releasable slot) (sl_consumed slot) (sl_phase slot)]> (rg_slots g)) g)
          end
      end
  end.

(** Its last: drop a slot that was resolved. *)
Definition retry_end (g : Registry) (id : Z) : Registry :=
  match rg_slots g !! id with
  | Some slot =>
      if negb (sl_held slot) && negb (sl_running slot) && sl_releasable slot
      then set_slots (delete id (rg_slots g)) g else g
  | None => g
  end.

(** ** The interleaving *)

(** A scheduled task, of [spawn_blocking] or of [retry_terminal]: its slot,
    its epoch, its input. *)
Record Task := MkTask { tk_id : Z; tk_epoch : Z; tk_input : Input }.

(** The registry with the lifecycle and ledger it shares, the scheduled
    tasks, the live obligations, and two histories: the inputs accepted
    for obligations, and the publications of tasks. *)
Record JSys := MkJSys {
  js_reg : Registry; js_lc : Lifecycle; js_ledger : Mutex ProxyLedger; js_tasks : list Task;
  js_obligations : list Z; js_accepted : list (Z * Input);
  js_published : list (Z * Z * option ResultValue) }.

Section System.
Context `{Calendar} `{UsageCodec}.

Inductive jstep : JSys -> JSys -> Prop :=
| JObligation g l m ts os ac pb id g' l' :
    obligation g l = (Ok id, g', l') ->
    jstep (MkJSys g l m ts os ac pb) (MkJSys g' l' m ts (id :: os) ac pb)
| JSubmit g l m ts os ac pb id input runtime now epoch g' :
    id ∈ os -> obl_submit g l id input runtime now = (Ok epoch, g') ->
    jstep (MkJSys g l m ts os ac pb)
      (MkJSys g' l m (MkTask id epoch input :: ts) os ((id, input) :: ac) pb)
| JSubmitRefused g l m ts os ac pb id input runtime now e g' :
    id ∈ os -> obl_submit g l id input runtime now = (Err e, g') ->
    jstep (MkJSys g l m ts os ac pb) (MkJSys g' l m ts os ac pb)
| JDropObligation g l m ts os1 os2 ac pb id :
    jstep (MkJSys g l m ts (os1 ++ id :: os2) ac pb)
      (MkJSys (drop_obligation g id) l m ts (os1 ++ os2) ac pb)
| JDirect g l m ts os ac pb input runtime id g' l' :
    jobs_submit g l input runtime = (Ok id, g', l') ->
    jstep (MkJSys g l m ts os ac pb) (MkJSys g' l' m (MkTask id 0 input :: ts) os ac pb)
| JDirectRefused g l m ts os ac pb input runtime e g' l' :
    jobs_submit g l input runtime = (Err e, g', l') ->
    jstep (MkJSys g l m ts os ac pb) (MkJSys g' l' m ts os ac pb)
  (* a task runs and publishes *)
| JRun g l m ts1 ts2 os ac pb t rd r m' :
    run_input (tk_input t) m l rd = (r, m') ->
    jstep (MkJSys g l m (ts1 ++ t :: ts2) os ac pb)
      (MkJSys (finish g (tk_id t) (tk_epoch t) (Some r)) l m' (ts1 ++ ts2) os ac
         ((tk_id t, tk_epoch t, Some r) :: pb))
  (* a task is aborted, or panics after its work took effect *)
| JInterrupt g l m ts1 ts2 os ac pb t rd (ran : bool) :
    jstep (MkJSys g l m (ts1 ++ t :: ts2) os ac pb)
      (MkJSys (finish g (tk_id t) (tk_epoch t) None) l
         (if ran then (run_input (tk_input t) m l rd).2 else m)
         (ts1 ++ ts2) os ac ((tk_id t, tk_epoch t, None) :: pb))
| JTake g l m ts os ac pb id epoch k :
    jstep (MkJSys g l m ts os ac pb) (MkJSys (take g id epoch k).2 l m ts os ac pb)
| JTakeReady g l m ts os ac pb k :
    jstep (MkJSys g l m ts os ac pb) (MkJSys (take_ready g k).2 l m ts os ac pb)
| JRetry g l m ts os ac pb after id epoch w after' g' :
    retry_begin g after = (Some (id, epoch, w), after', g') ->
    jstep (MkJSys g l m ts os ac pb) (MkJSys g' l m (MkTask id epoch (IWork w) :: ts) os ac pb)
| JRetryNone g l m ts os ac pb after after' g' :
    retry_begin g after = (None, after', g') ->
    jstep (MkJSys g l m ts os ac pb) (MkJSys g' l m ts os ac pb)
  (* the end of a [retry_terminal]; enabled for any id at any time, which
     covers the moments at which the code runs it *)
| JRetryEnd g l m ts os ac pb id :
    jstep (MkJSys g l m ts os ac pb) (MkJSys (retry_end g id) l m ts os ac pb)
  (* anything else the process does to the ledger and the lifecycle; a
     poisoned registry lock is recovered as closed *)
| JOther g l m ts os ac pb l' m' (poisoned : bool) :
    jstep (MkJSys g l m ts os ac pb) (MkJSys (set_closed poisoned g) l' m' ts os ac pb).
End System.

Definition js_new (capacity : Z) (l : Lifecycle) (m : Mutex ProxyLedger) : JSys :=
  MkJSys (rg_new capacity) l m [] [] [] [].
