(* ===== verification/JobsProps.v ===== *)
(** Invariants of the registry of [Jobs] over every interleaving of
    obligations, tasks, consumers, recovery and interruptions: it is
    bounded, nothing it owns is lost, and an obligation decides once. *)

From stdpp Require Import relations.
From S2P Require Import Prelude Ledger InMemory Budget Sql SqlLedger SqlContract Usage Allowance.
From S2P Require Import Evidence EvidenceOps EvidenceProps Sharded ProxyLedger Lifecycle Settlement Jobs.
#[local] Open Scope Z_scope.

(** ** Phases *)

Definition phase_of (i : Input) : JPhase :=
  match i with
  | IAdmission _ => PAdmitting
  | IWork (WAuthorize _) => PAuthorizing
  | IWork (WClose _) => PClosing
  | IWork (WSettle _) => PTerminal
  end.

Definition jrank (p : JPhase) : Z :=
  match p with
  | PEmpty => 0 | PAdmitting => 1 | PPrepared => 2 | PAuthorizing | PClosing => 3
  | PAuthorized => 4 | PTerminal => 5 | PResolved | PUncertain => 6
  end.

Lemma next_phase_ok slot i ph :
  next_phase slot i = Some ph -> ph = phase_of i /\ jrank (sl_phase slot) <= jrank ph.
Proof.
  unfold next_phase. intros Hn. destruct i as [[p|p|p]|p]; simpl.
  - destruct (bool_decide_reflect (sl_phase slot = PPrepared)) as [->|]; simpl in Hn; [|done].
    destruct (binding_matches _ _ _); [|done]. by injection Hn as <-.
  - destruct (bool_decide_reflect (sl_phase slot = PPrepared)) as [->|]; simpl in Hn; [|done].
    destruct (binding_matches _ _ _); [|done]. by injection Hn as <-.
  - destruct (bool_decide_reflect (sl_phase slot = PAuthorized)) as [E|];
      destruct (bool_decide_reflect (sl_phase slot = PTerminal)) as [E'|]; simpl in Hn; try done;
      destruct (pe_tracked p); try done; destruct (_ && _); try done; injection Hn as <-;
      rewrite ?E, ?E'; simpl; split; (done || lia).
  - destruct (bool_decide_reflect (sl_phase slot = PEmpty)) as [->|]; [|done]. by injection Hn as <-.
Qed.

(** ** The registry *)

(** A running slot keeps its evidence; an idle one that nobody holds offers
    an outcome. *)
Record slot_ok (slot : Slot) : Prop := {
  so_run : sl_running slot = true -> sl_outcome slot = None;
  so_idle : sl_running slot = false -> sl_held slot = false -> is_Some (sl_outcome slot) }.

Record reg_inv (g : Registry) (os : list Z) : Prop := {
  ri_bound : retained g <= Z.max 0 (rg_capacity g);
  ri_ids : forall id slot, rg_slots g !! id = Some slot -> id < rg_next g;
  ri_slots : forall id slot, rg_slots g !! id = Some slot -> slot_ok slot;
  ri_nodup : NoDup os;
  ri_live : forall id, id ∈ os <-> exists slot, rg_slots g !! id = Some slot /\ sl_held slot = true }.

(** The slot of a scheduled task. *)
Definition task_slot (slots : gmap Z Slot) (t : Task) : Prop :=
  exists slot, slots !! tk_id t = Some slot /\ sl_epoch slot = tk_epoch t /\ sl_running slot = true /\
    sl_snapshot slot = Some (tk_input t) /\
    (sl_held slot = true -> sl_phase slot = phase_of (tk_input t)).

Record tasks_inv (slots : gmap Z Slot) (ts : list Task) : Prop := {
  ti_nodup : NoDup (tk_id <$> ts);
  ti_slots : forall t, t ∈ ts -> task_slot slots t;
  ti_running : forall id slot, slots !! id = Some slot -> sl_running slot = true -> id ∈ tk_id <$> ts }.

(** *** Tasks *)

(** An idle slot has no task. *)
Lemma idle_no_task slots ts id :
  tasks_inv slots ts -> (forall slot, slots !! id = Some slot -> sl_running slot = false) ->
  id ∉ tk_id <$> ts.
Proof.
  intros [_ Ht _] Hid (t & -> & Hin)%list_elem_of_fmap.
  destruct (Ht t Hin) as (slot & Hs & _ & Hr & _). rewrite (Hid slot Hs) in Hr. done.
Qed.

Lemma task_slot_frame slots slots' t :
  slots' !! tk_id t = slots !! tk_id t -> task_slot slots t -> task_slot slots' t.
Proof. unfold task_slot. intros ->. done. Qed.

(** An idle slot changes, and stays idle or goes away. *)
Lemma tasks_quiet slots ts id (o : option Slot) :
  tasks_inv slots ts -> (forall slot, slots !! id = Some slot -> sl_running slot = false) ->
  (forall slot, o = Some slot -> sl_running slot = false) ->
  tasks_inv (partial_alter (fun _ => o) id slots) ts.
Proof.
  intros Hti Hidle Ho. pose proof (idle_no_task _ _ _ Hti Hidle) as Hno. destruct Hti as [Hn Ht Hr].
  split; [done|..].
  - intros t Hin. apply (task_slot_frame slots); [|by apply Ht].
    apply lookup_partial_alter_ne. intros ->. apply Hno. by apply list_elem_of_fmap_2.
  - intros id' slot Hs Hrun. destruct (decide (id = id')) as [<-|Hne].
    + rewrite lookup_partial_alter_eq in Hs. rewrite (Ho slot) in Hrun; done.
    + rewrite lookup_partial_alter_ne in Hs by done. eauto.
Qed.

(** An idle slot starts running its task. *)
Lemma tasks_start slots ts slot t :
  tasks_inv slots ts -> (forall s, slots !! tk_id t = Some s -> sl_running s = false) ->
  task_slot (<[tk_id t := slot]> slots) t -> tasks_inv (<[tk_id t := slot]> slots) (t :: ts).
Proof.
  intros Hti Hidle Htask. pose proof (idle_no_task _ _ _ Hti Hidle) as Hno. destruct Hti as [Hn Ht Hr].
  split.
  - cbn. by constructor.
  - intros t' [->|Hin]%elem_of_cons; [done|]. apply (task_slot_frame slots); [|by apply Ht].
    apply lookup_insert_ne. intros He. apply Hno. rewrite He. by apply list_elem_of_fmap_2.
  - intros id s Hs Hrun. cbn. destruct (decide (tk_id t = id)) as [<-|Hne]; [by left|].
    right. rewrite lookup_insert_ne in Hs by done. eauto.
Qed.

(** A task ends, and its slot is idle or gone. *)
Lemma tasks_stop slots ts1 t ts2 (o : option Slot) :
  tasks_inv slots (ts1 ++ t :: ts2) -> (forall slot, o = Some slot -> sl_running slot = false) ->
  tasks_inv (partial_alter (fun _ => o) (tk_id t) slots) (ts1 ++ ts2).
Proof.
  intros [Hn Ht Hr] Ho. rewrite fmap_app, fmap_cons in Hn. rewrite fmap_app, fmap_cons in Hr.
  assert (Hnt : tk_id t ∉ tk_id <$> (ts1 ++ ts2)).
  { rewrite fmap_app, elem_of_app. apply NoDup_app in Hn as (_ & H1 & H2).
    apply NoDup_cons in H2 as [H2 _]. intros [Hx|Hx]; [|done]. apply (H1 _ Hx). by left. }
  split.
  - rewrite fmap_app. apply NoDup_app in Hn as (H1 & H2 & H3). apply NoDup_cons in H3 as [_ H3].
    apply NoDup_app. split; [done|]. split; [|done]. intros x Hx Hx2. apply (H2 x Hx). by right.
  - intros t' Hin. apply (task_slot_frame slots).
    + apply lookup_partial_alter_ne. intros He. apply Hnt. rewrite He. by apply list_elem_of_fmap_2.
    + apply Ht. apply elem_of_app in Hin as [?|?]; apply elem_of_app; [by left|right; by right].
  - intros id s Hs Hrun. destruct (decide (tk_id t = id)) as [<-|Hne].
    + rewrite lookup_partial_alter_eq in Hs. rewrite (Ho s) in Hrun; done.
    + rewrite lookup_partial_alter_ne in Hs by done. pose proof (Hr id s Hs Hrun) as Hin.
      rewrite fmap_app. rewrite elem_of_app in Hin |- *.
      destruct Hin as [?|[?|?]%elem_of_cons]; [by left|congruence|by right].
Qed.

(** The obligation of a running slot goes away. *)
Lemma tasks_unheld slots ts id slot slot' :
  tasks_inv slots ts -> slots !! id = Some slot -> sl_held slot' = false ->
  sl_snapshot slot' = sl_snapshot slot -> sl_running slot' = sl_running slot ->
  sl_epoch slot' = sl_epoch slot -> tasks_inv (<[id := slot']> slots) ts.
Proof.
  intros [Hn Ht Hr] Hs Hh Hsn Hru Hep. split; [done|..].
  - intros t Hin. destruct (decide (tk_id t = id)) as [He|Hne].
    + destruct (Ht t Hin) as (s0 & Hs0 & H1 & H2 & H3 & _). rewrite He in Hs0.
      assert (s0 = slot) as -> by congruence. exists slot'. rewrite He, lookup_insert_eq.
      repeat split; congruence.
    + apply (task_slot_frame slots); [|by apply Ht]. by apply lookup_insert_ne.
  - intros id' s Hs' Hrun. destruct (decide (id = id')) as [<-|Hne].
    + rewrite lookup_insert_eq in Hs'. injection Hs' as <-. apply (Hr id slot); congruence.
    + rewrite lookup_insert_ne in Hs' by done. eauto.
Qed.

(** *** Slots *)

Lemma retained_insert g id slot slot' :
  rg_slots g !! id = Some slot -> retained (set_slots (<[id := slot']> (rg_slots g)) g) = retained g.
Proof.
  intros Hs. unfold retained. simpl. by rewrite map_size_insert_Some by (by eexists).
Qed.

Lemma retained_delete g id : retained (set_slots (delete id (rg_slots g)) g) <= retained g.
Proof. unfold retained. simpl. rewrite map_size_delete. destruct (rg_slots g !! id); simpl; lia. Qed.

(** A slot is replaced by one held as it was. *)
Lemma reg_update g os id slot slot' :
  reg_inv g os -> rg_slots g !! id = Some slot -> slot_ok slot' -> sl_held slot' = sl_held slot ->
  reg_inv (set_slots (<[id := slot']> (rg_slots g)) g) os.
Proof.
  intros [Hb Hi Hs Hn Hl] Hid Hok Hh. split; [by rewrite (retained_insert _ _ slot)|..]; simpl.
  - intros id' s [[<- <-]|[_ Hx]]%lookup_insert_Some; eauto.
  - intros id' s [[<- <-]|[_ Hx]]%lookup_insert_Some; eauto.
  - done.
  - intros id'. rewrite Hl. split; intros (s & Hs' & Hheld).
    + destruct (decide (id = id')) as [<-|Hne]; [exists slot'|exists s].
      * rewrite lookup_insert_eq. split; congruence.
      * by rewrite lookup_insert_ne.
    + apply lookup_insert_Some in Hs' as [[<- <-]|[_ Hx]]; [exists slot; split; congruence|by exists s].
Qed.

Lemma reg_delete g os id slot :
  reg_inv g os -> rg_slots g !! id = Some slot -> sl_held slot = false ->
  reg_inv (set_slots (delete id (rg_slots g)) g) os.
Proof.
  intros [Hb Hi Hs Hn Hl] Hid Hh. pose proof (retained_delete g id).
  split; [simpl in *; lia|..]; simpl; try done.
  - intros id' s [_ Hx]%lookup_delete_Some. eauto.
  - intros id' s [_ Hx]%lookup_delete_Some. eauto.
  - intros id'. rewrite Hl. split; intros (s & Hs' & Hheld).
    + exists s. rewrite lookup_delete_ne; [done|]. congruence.
    + apply lookup_delete_Some in Hs' as [_ Hx]. by exists s.
Qed.

(** The obligation of [id] goes; its slot is kept unheld, or removed. *)
Lemma reg_drop g os1 id os2 slot (o : option Slot) :
  reg_inv g (os1 ++ id :: os2) -> rg_slots g !! id = Some slot ->
  (forall s, o = Some s -> slot_ok s /\ sl_held s = false) ->
  reg_inv (set_slots (partial_alter (fun _ => o) id (rg_slots g)) g) (os1 ++ os2).
Proof.
  intros [Hb Hi Hs Hn Hl] Hid Ho. split; simpl.
  - destruct o as [s|].
    + change (retained (set_slots (<[id := s]> (rg_slots g)) g) <= Z.max 0 (rg_capacity g)).
      by rewrite (retained_insert _ _ slot).
    + pose proof (retained_delete g id). simpl in *. etransitivity; [|exact Hb]. done.
  - intros id' s Hx. destruct (decide (id = id')) as [<-|Hne]; [eauto|].
    rewrite lookup_partial_alter_ne in Hx by done. eauto.
  - intros id' s Hx. destruct (decide (id = id')) as [<-|Hne].
    + rewrite lookup_partial_alter_eq in Hx. by apply Ho.
    + rewrite lookup_partial_alter_ne in Hx by done. eauto.
  - apply NoDup_app in Hn as (H1 & H2 & H3). apply NoDup_cons in H3 as [_ H3].
    apply NoDup_app. split; [done|]. split; [|done]. intros x Hx Hx2. apply (H2 x Hx). by right.
  - intros id'. apply NoDup_app in Hn as (H1 & H2 & H3). apply NoDup_cons in H3 as [H4 H3].
    destruct (decide (id = id')) as [<-|Hne].
    + rewrite lookup_partial_alter_eq. split.
      * intros [Hx|Hx]%elem_of_app; [|done]. destruct (H2 id Hx). by left.
      * intros (s & Hx & Hh). destruct (Ho s Hx). congruence.
    + rewrite lookup_partial_alter_ne by done. rewrite <- Hl, !elem_of_app, elem_of_cons. naive_solver.
Qed.

(** A new slot under the next id. *)
Lemma reg_new_slot g os slot next :
  reg_inv g os -> retained g < rg_capacity g -> checked_add (rg_next g) 1 = Some next -> slot_ok slot ->
  reg_inv (set_next next (set_slots (<[rg_next g := slot]> (rg_slots g)) g))
    (if sl_held slot then rg_next g :: os else os).
Proof.
  intros [Hb Hi Hs Hn Hl] Hcap Hnext Hok.
  assert (Hfresh : rg_slots g !! rg_next g = None).
  { destruct (rg_slots g !! rg_next g) eqn:E; [|done]. apply Hi in E. lia. }
  unfold checked_add in Hnext. destruct (_ <=? _); [|done]. injection Hnext as <-.
  split; simpl.
  - unfold retained in *. simpl. rewrite map_size_insert_None by done. lia.
  - intros id s [[<- <-]|[_ Hx]]%lookup_insert_Some; [lia|]. apply Hi in Hx. lia.
  - intros id s [[<- <-]|[_ Hx]]%lookup_insert_Some; eauto.
  - destruct (sl_held slot) eqn:Hh; [|done]. constructor; [|done]. rewrite Hl. intros (s & Hx & _). congruence.
  - intros id. destruct (decide (rg_next g = id)) as [<-|Hne].
    + rewrite lookup_insert_eq. destruct (sl_held slot) eqn:Hh.
      * split; [intros _; by exists slot|intros _; by left].
      * rewrite Hl. split; [intros (s & Hx & _); congruence|intros (s & [= <-] & Hx); congruence].
    + rewrite lookup_insert_ne by done. destruct (sl_held slot); [rewrite elem_of_cons|]; rewrite Hl; naive_solver.
Qed.

(** ** The history of an obligation *)

Definition is_admission (i : Input) : bool := match i with IAdmission _ => true | _ => false end.
Definition is_decision (i : Input) : bool :=
  match i with IWork (WAuthorize _ | WClose _) => true | _ => false end.

(** How many inputs of a kind were accepted for a slot. *)
Definition accepted_count (p : Input -> bool) (id : Z) (ac : list (Z * Input)) : nat :=
  length (filter (fun x => bool_decide (x.1 = id) && p x.2 = true) ac).

(** Two owners of the same execution and terminal usage. *)
Definition same_owner (p q : PendingSettlement) : Prop :=
  pe_request_id p = pe_request_id q /\ tr_intent <$> pe_tracked p = tr_intent <$> pe_tracked q /\
  terminal_usage p = terminal_usage q.

Record slot_hist (id : Z) (slot : Slot) (ac : list (Z * Input)) : Prop := {
  sh_adm : sl_phase slot = PEmpty -> accepted_count is_admission id ac = 0%nat;
  sh_dec : jrank (sl_phase slot) < 3 -> accepted_count is_decision id ac = 0%nat;
  sh_settle : forall p, (id, IWork (WSettle p)) ∈ ac -> 5 <= jrank (sl_phase slot) /\
    (sl_phase slot = PTerminal -> exists q, sl_snapshot slot = Some (IWork (WSettle q)) /\ same_owner p q) }.

Record hist_inv (g : Registry) (ac : list (Z * Input)) : Prop := {
  hi_ids : forall x, x ∈ ac -> x.1 < rg_next g;
  hi_counts : forall id, (accepted_count is_admission id ac <= 1)%nat /\ (accepted_count is_decision id ac <= 1)%nat;
  hi_settles : forall id p q, (id, IWork (WSettle p)) ∈ ac -> (id, IWork (WSettle q)) ∈ ac -> same_owner p q;
  hi_slots : forall id slot, rg_slots g !! id = Some slot -> sl_held slot = true -> slot_hist id slot ac }.

Lemma accepted_count_cons p id id' i ac :
  accepted_count p id ((id', i) :: ac) =
  ((if bool_decide (id' = id) && p i then 1 else 0) + accepted_count p id ac)%nat.
Proof.
  unfold accepted_count. destruct (bool_decide (id' = id) && p i) eqn:E.
  - by rewrite filter_cons_True.
  - rewrite filter_cons_False; [done|]. simpl. congruence.
Qed.

Lemma accepted_count_none p id ac : (forall x, x ∈ ac -> x.1 <> id) -> accepted_count p id ac = 0%nat.
Proof.
  induction ac as [|[id' i] ac IH]; intros Hx; [done|]. rewrite accepted_count_cons, IH.
  - rewrite bool_decide_false; [done|]. apply (Hx (id', i)). by left.
  - intros x Hin. apply Hx. by right.
Qed.

(** One slot changes and its history with it. *)
Lemma hist_update g ac id (o : option Slot) :
  hist_inv g ac ->
  (forall slot, o = Some slot -> sl_held slot = true -> slot_hist id slot ac) ->
  hist_inv (set_slots (partial_alter (fun _ => o) id (rg_slots g)) g) ac.
Proof.
  intros [Hi Hc Hs Hsl] Ho. split; try done. simpl. intros id' slot Hx Hh.
  destruct (decide (id = id')) as [<-|Hne].
  - rewrite lookup_partial_alter_eq in Hx. by apply Ho.
  - rewrite lookup_partial_alter_ne in Hx by done. eauto.
Qed.

(** ** Every step keeps the invariant *)

Record jinv (g : Registry) (ts : list Task) (os : list Z) (ac : list (Z * Input)) : Prop := {
  jv_reg : reg_inv g os;
  jv_tasks : tasks_inv (rg_slots g) ts;
  jv_hist : hist_inv g ac }.

Lemma jinv_closed g ts os ac b : jinv g ts os ac -> jinv (set_closed b g) ts os ac.
Proof. intros [[] [] []]. split; by split. Qed.

Lemma first_slot_spec p g id slot :
  first_slot p g = Some (id, slot) -> rg_slots g !! id = Some slot /\ p id slot = true.
Proof.
  unfold first_slot. intros Hh.
  assert (Hin : (id, slot) ∈ filter (fun x => p x.1 x.2 = true) (merge_sort slot_le (map_to_list (rg_slots g)))).
  { destruct (filter _ _) as [|x xs]; [done|]. injection Hh as ->. by left. }
  apply list_elem_of_filter in Hin as [Hp Hin]. split; [|done].
  rewrite merge_sort_Permutation in Hin. by apply elem_of_map_to_list in Hin.
Qed.

Lemma jinv_obligation g l ts os ac id g' l' :
  obligation g l = (Ok id, g', l') -> jinv g ts os ac -> jinv g' ts (id :: os) ac.
Proof.
  unfold obligation. intros Ho [Hr Ht Hh]. destruct (_ || _); [done|].
  destruct (_ <=? _) eqn:Hcap; [done|]. destruct (checked_add _ _) as [next|] eqn:Hn; [|done].
  destruct (try_operation l) as [[] l1]; [|done]. injection Ho as <- <- <-.
  set (slot := MkSlot None None true false 0 false false PEmpty).
  assert (Hok : slot_ok slot) by (by split).
  assert (Hfresh : rg_slots g !! rg_next g = None).
  { destruct (rg_slots g !! rg_next g) eqn:E; [|done]. apply (ri_ids _ _ Hr) in E. lia. }
  split.
  - by apply (reg_new_slot g os slot next Hr); [lia|..].
  - apply (tasks_quiet _ _ (rg_next g) (Some slot)); [done|congruence|by intros s [= <-]].
  - destruct (hist_update g ac (rg_next g) (Some slot) Hh) as [Hi Hc Hs Hsl].
    { intros s [= <-] _. assert (Hne : forall x, x ∈ ac -> x.1 <> rg_next g)
        by (intros x Hx; apply (hi_ids _ _ Hh) in Hx; lia).
      split; simpl; [intros _; by apply accepted_count_none..|].
      intros p Hp. by destruct (Hne _ Hp). }
    split; try done. simpl. intros x Hx. apply (hi_ids _ _ Hh) in Hx.
    unfold checked_add in Hn. destruct (rg_next g + 1 <=? u64_max); [|done]. injection Hn as <-. lia.
Qed.

(** The state a submission finds: a live, idle slot of the obligation. *)
Lemma obl_slot g ts os ac id :
  jinv g ts os ac -> id ∈ os ->
  exists slot, rg_slots g !! id = Some slot /\ sl_held slot = true /\ slot_ok slot /\ slot_hist id slot ac.
Proof.
  intros [Hr _ Hh] Hin. apply (ri_live _ _ Hr) in Hin as (slot & Hs & Hheld).
  exists slot. split; [done|]. split; [done|]. split; [by eapply ri_slots|by eapply hi_slots].
Qed.

(** An accepted or marked settlement continues the history of its slot. *)
Lemma settle_continues id slot ac p ph :
  slot_hist id slot ac -> next_phase slot (IWork (WSettle p)) = Some ph ->
  forall q, (id, IWork (WSettle q)) ∈ ac -> same_owner q p.
Proof.
  intros [_ _ Hse] Hn q Hq. destruct (Hse q Hq) as [Hrank Hterm]. unfold next_phase in Hn.
  destruct (bool_decide_reflect (sl_phase slot = PAuthorized)) as [E|Hna]; [rewrite E in Hrank; simpl in Hrank; lia|].
  destruct (bool_decide_reflect (sl_phase slot = PTerminal)) as [E|]; simpl in Hn; [|done].
  destruct (pe_tracked p) as [t|] eqn:Ht; [|done]. destruct (Hterm E) as (q' & Hsn & Hsame).
  rewrite Hsn in Hn. simpl in Hn. destruct (_ && _) eqn:Hb in Hn; [|done]. bools.
  destruct (pe_tracked q') as [t'|] eqn:Ht'; [|done].
  repeat match goal with Hx : bool_decide _ = true |- _ => apply bool_decide_eq_true in Hx end.
  destruct Hsame as (S1 & S2 & S3). split; [congruence|]. split; [|congruence].
  rewrite S2, Ht, Ht'. simpl. congruence.
Qed.

(** The slot of a submission that captured its terminal evidence. *)
Lemma terminal_hist id slot ac p ph slot' :
  slot_hist id slot ac -> next_phase slot (IWork (WSettle p)) = Some ph ->
  sl_phase slot' = PTerminal -> sl_snapshot slot' = Some (IWork (WSettle p)) -> slot_hist id slot' ac.
Proof.
  intros Hh Hn Hph Hsn. pose proof (settle_continues _ _ _ _ _ Hh Hn) as Hc.
  split; rewrite Hph; simpl; [done|lia|]. intros q Hq. split; [lia|]. intros _. exists p. eauto.
Qed.

Lemma jinv_submit_refused g l ts os ac id input runtime now e g' :
  id ∈ os -> obl_submit g l id input runtime now = (Err e, g') -> jinv g ts os ac -> jinv g' ts os ac.
Proof.
  intros Hin Hs Hj. destruct (obl_slot _ _ _ _ _ Hj Hin) as (slot & Hslot & Hheld & Hok & Hhist).
  unfold obl_submit in Hs. rewrite Hslot in Hs.
  destruct (sl_running slot) eqn:Hrun; simpl in Hs; [by injection Hs as _ <-|].
  destruct (bool_decide_reflect (is_Some (sl_outcome slot))); [by injection Hs as _ <-|].
  destruct (next_phase slot input) as [ph|] eqn:Hn; [|by injection Hs as _ <-].
  destruct (next_phase_ok _ _ _ Hn) as [-> _].
  set (slot1 := if bool_decide (phase_of input = PTerminal) then _ else _) in Hs.
  assert (H1 : sl_held slot1 = true /\ sl_running slot1 = false /\ slot_ok slot1 /\ slot_hist id slot1 ac).
  { unfold slot1. destruct (bool_decide_reflect (phase_of input = PTerminal)) as [Hp|Hp]; [|exact (conj Hheld (conj Hrun (conj Hok Hhist)))]. split; [done|]. split; [done|].
    split; [by split; simpl; congruence|]. destruct input as [[p|p|p]|p]; try done.
    by eapply (terminal_hist id slot ac p). }
  destruct H1 as (Hh1 & Hr1 & Hok1 & Hhist1).
  assert (Hg : g' = set_slots (<[id := slot1]> (rg_slots g)) g).
  { clearbody slot1. destruct (needs_running input && _ || _); [by injection Hs as _ <-|].
    destruct runtime; simpl in Hs; [|by injection Hs as _ <-].
    destruct (checked_add (sl_epoch slot1) 1); [done|by injection Hs as _ <-]. }
  rewrite Hg. destruct Hj as [Hr Ht Hh]. split.
  - eapply reg_update; eauto; congruence.
  - apply (tasks_quiet _ _ id (Some slot1)); [done|congruence|congruence].
  - apply (hist_update g ac id (Some slot1)); [done|]. by intros s [= <-] _.
Qed.

(** The slot an accepted submission leaves. *)
Definition submitted (input : Input) (epoch : Z) : Slot :=
  MkSlot (Some input) None true true epoch false false (phase_of input).

Lemma submit_accepted g l id input runtime now epoch g' slot :
  rg_slots g !! id = Some slot -> sl_held slot = true ->
  obl_submit g l id input runtime now = (Ok epoch, g') ->
  next_phase slot input = Some (phase_of input) /\ sl_running slot = false /\
  g' = set_slots (<[id := submitted input epoch]> (rg_slots g)) g.
Proof.
  intros Hslot Hheld Hs. unfold obl_submit in Hs. rewrite Hslot in Hs.
  destruct (sl_running slot) eqn:Hrun; simpl in Hs; [done|].
  destruct (bool_decide_reflect (is_Some (sl_outcome slot))) as [|Hno]; [done|].
  destruct (next_phase slot input) as [ph|] eqn:Hn; [|done].
  destruct (next_phase_ok _ _ _ Hn) as [-> _]. split; [done|]. split; [done|].
  apply eq_None_not_Some in Hno. set (slot1 := if bool_decide (phase_of input = PTerminal) then _ else _) in Hs.
  assert (H1 : sl_held slot1 = true /\ sl_outcome slot1 = None)
    by (unfold slot1; destruct (bool_decide (phase_of input = PTerminal)); done).
  destruct H1 as [Hh1 Ho1]. clearbody slot1. destruct (needs_running input && _ || _); [done|].
  destruct runtime; simpl in Hs; [|done]. destruct (checked_add (sl_epoch slot1) 1); [|done].
  injection Hs as <- <-. by rewrite Ho1, Hh1.
Qed.

Lemma submitted_hist id slot input epoch ac :
  slot_hist id slot ac -> next_phase slot input = Some (phase_of input) ->
  slot_hist id (submitted input epoch) ((id, input) :: ac).
Proof.
  intros [Hadm Hdec Hset] Hn. destruct (next_phase_ok _ _ _ Hn) as [_ Hrk]. split; simpl.
  - by destruct input as [[]|].
  - intros Hlt. rewrite accepted_count_cons. destruct input as [[]|]; simpl in Hlt; try lia.
    simpl in *. rewrite andb_false_r. apply Hdec. lia.
  - intros p [Hp|Hp]%elem_of_cons.
    + injection Hp as <-. simpl. split; [lia|]. intros _. by exists p.
    + destruct (Hset p Hp) as [Hr5 _]. simpl in Hrk. split; [lia|]. intros Hterm.
      destruct input as [[q|q|q]|q]; try done. exists q. split; [done|].
      eapply settle_continues; [by split|exact Hn|done].
Qed.

(** An accepted input is counted once. *)
Lemma submit_counts id slot input ac id' :
  slot_hist id slot ac -> next_phase slot input = Some (phase_of input) ->
  (accepted_count is_admission id' ac <= 1)%nat /\ (accepted_count is_decision id' ac <= 1)%nat ->
  (accepted_count is_admission id' ((id, input) :: ac) <= 1)%nat /\
  (accepted_count is_decision id' ((id, input) :: ac) <= 1)%nat.
Proof.
  intros [Hadm Hdec _] Hn Hcnt. rewrite !accepted_count_cons.
  destruct (bool_decide_reflect (id = id')) as [<-|]; [|done]. simpl.
  unfold next_phase in Hn. destruct input as [[q|q|q]|q]; simpl; try done.
  - destruct (bool_decide_reflect (sl_phase slot = PPrepared)) as [E|]; [|done].
    rewrite E in Hdec. rewrite Hdec by (simpl; lia). lia.
  - destruct (bool_decide_reflect (sl_phase slot = PPrepared)) as [E|]; [|done].
    rewrite E in Hdec. rewrite Hdec by (simpl; lia). lia.
  - destruct (bool_decide_reflect (sl_phase slot = PEmpty)) as [E|]; [|done]. rewrite Hadm by done. lia.
Qed.

Lemma submit_settles id slot input ac :
  slot_hist id slot ac -> next_phase slot input = Some (phase_of input) ->
  (forall i p q, (i, IWork (WSettle p)) ∈ ac -> (i, IWork (WSettle q)) ∈ ac -> same_owner p q) ->
  forall i p q, (i, IWork (WSettle p)) ∈ (id, input) :: ac -> (i, IWork (WSettle q)) ∈ (id, input) :: ac ->
    same_owner p q.
Proof.
  intros Hhist Hn Hac.
  assert (Hold : forall p q, input = IWork (WSettle p) -> (id, IWork (WSettle q)) ∈ ac -> same_owner q p).
  { intros p q -> Hq. eapply settle_continues; [exact Hhist|exact Hn|done]. }
  intros i p q [Hp|Hp]%elem_of_cons [Hq|Hq]%elem_of_cons.
  - injection Hp as -> Hp. injection Hq as Hq. rewrite <- Hp in Hq. injection Hq as ->. done.
  - injection Hp as -> Hp. destruct (Hold p q (eq_sym Hp) Hq) as (S1 & S2 & S3). by split.
  - injection Hq as -> Hq. by apply Hold.
  - by eapply Hac.
Qed.

Lemma jinv_submit g l ts os ac id input runtime now epoch g' :
  id ∈ os -> obl_submit g l id input runtime now = (Ok epoch, g') -> jinv g ts os ac ->
  jinv g' (MkTask id epoch input :: ts) os ((id, input) :: ac).
Proof.
  intros Hin Hs Hj. destruct (obl_slot _ _ _ _ _ Hj Hin) as (slot & Hslot & Hheld & Hok & Hhist).
  destruct (submit_accepted _ _ _ _ _ _ _ _ _ Hslot Hheld Hs) as (Hn & Hrun & ->).
  clear Hs. destruct Hj as [Hr Ht Hh]. split.
  - eapply reg_update; eauto. by split.
  - apply (tasks_start _ _ (submitted input epoch) (MkTask id epoch input)); [done|simpl; congruence|].
    exists (submitted input epoch). simpl. by rewrite lookup_insert_eq.
  - split.
    + intros x [->|Hx]%elem_of_cons; [apply (ri_ids _ _ Hr _ _ Hslot)|by apply (hi_ids _ _ Hh)].
    + intros id'. eapply submit_counts; eauto. apply (hi_counts _ _ Hh).
    + eapply submit_settles; eauto. apply (hi_settles _ _ Hh).
    + simpl. intros id' s Hx Hheld'. destruct (decide (id = id')) as [<-|Hne].
      { rewrite lookup_insert_eq in Hx. injection Hx as <-. by eapply submitted_hist. }
      rewrite lookup_insert_ne in Hx by done. destruct (hi_slots _ _ Hh id' s Hx Hheld') as [A1 A2 A3].
      split; rewrite ?accepted_count_cons, ?(bool_decide_false (id = id')) by done; [done..|].
      intros p [Hp|Hp]%elem_of_cons; [congruence|by apply A3].
Qed.

Lemma jinv_drop g ts os1 id os2 ac :
  jinv g ts (os1 ++ id :: os2) ac -> jinv (drop_obligation g id) ts (os1 ++ os2) ac.
Proof.
  intros Hj. assert (Hin : id ∈ os1 ++ id :: os2) by (apply elem_of_app; right; by left).
  destruct (obl_slot _ _ _ _ _ Hj Hin) as (slot & Hslot & Hheld & [Hrun Hidle] & _).
  destruct Hj as [Hr Ht Hh]. unfold drop_obligation. rewrite Hslot.
  destruct (sl_running slot) eqn:Er; simpl; [|destruct (bool_decide_reflect (sl_outcome slot = None)) as [Eo|Eo]].
  - specialize (Hrun eq_refl). set (slot' := MkSlot _ _ _ _ _ _ _ _). split.
    + apply (reg_drop _ _ _ _ slot (Some slot')); [done..|]. intros s [= <-]. by split.
    + by eapply (tasks_unheld _ _ id slot slot').
    + apply (hist_update _ _ id (Some slot')); [done|]. by intros s [= <-].
  - destruct (_ || _) eqn:Erel; simpl.
    + split.
      * by apply (reg_drop _ _ _ _ slot None).
      * apply (tasks_quiet _ _ id None); [done|congruence|done].
      * by apply (hist_update _ _ id None).
    + bools. match goal with Hx : bool_decide (sl_snapshot slot = None) = false |- _ =>
        apply bool_decide_eq_false, not_eq_None_Some in Hx as [i Hi] end.
      rewrite Hi. set (slot' := MkSlot _ _ _ _ _ _ _ _). split.
      * apply (reg_drop _ _ _ _ slot (Some slot')); [done..|]. intros s [= <-]. split; [|done]. by split.
      * apply (tasks_quiet _ _ id (Some slot')); [done|congruence|by intros s [= <-]].
      * apply (hist_update _ _ id (Some slot')); [done|]. by intros s [= <-].
  - set (slot' := MkSlot _ _ _ _ _ _ _ _). split.
    + apply (reg_drop _ _ _ _ slot (Some slot')); [done..|]. intros s [= <-]. split; [|done].
      split; simpl; [done|]. intros _ _. by apply not_eq_None_Some.
    + by eapply (tasks_unheld _ _ id slot slot').
    + apply (hist_update _ _ id (Some slot')); [done|]. by intros s [= <-].
Qed.

Lemma jinv_direct g l ts os ac input runtime id g' l' :
  jobs_submit g l input runtime = (Ok id, g', l') -> jinv g ts os ac ->
  jinv g' (MkTask id 0 input :: ts) os ac.
Proof.
  unfold jobs_submit. intros Ho [Hr Ht Hh]. destruct runtime; simpl in Ho; [|done].
  destruct (rg_closed g || _); [done|]. destruct (rg_capacity g <=? retained g) eqn:Hcap; [done|].
  destruct (checked_add (rg_next g) 1) as [next|] eqn:Hn; [|done].
  destruct (try_operation l) as [[] l1]; [|done]. injection Ho as <- <- <-.
  set (slot := MkSlot (Some input) None false true 0 false false PEmpty).
  assert (Hok : slot_ok slot) by (by split).
  assert (Hfresh : rg_slots g !! rg_next g = None).
  { destruct (rg_slots g !! rg_next g) eqn:E; [|done]. apply (ri_ids _ _ Hr) in E. lia. }
  split.
  - by apply (reg_new_slot g os slot next Hr); [lia|..].
  - apply (tasks_start _ _ slot (MkTask (rg_next g) 0 input)); [done|simpl; congruence|].
    exists slot. simpl. by rewrite lookup_insert_eq.
  - destruct (hist_update g ac (rg_next g) (Some slot) Hh) as [Hi Hc Hs Hsl]; [by intros s [= <-]|].
    split; try done. simpl. intros x Hx. apply (hi_ids _ _ Hh) in Hx.
    unfold checked_add in Hn. destruct (rg_next g + 1 <=? u64_max); [|done]. injection Hn as <-. lia.
Qed.

Lemma jinv_direct_refused g l ts os ac input runtime e g' l' :
  jobs_submit g l input runtime = (Err e, g', l') -> jinv g ts os ac -> jinv g' ts os ac.
Proof.
  unfold jobs_submit. intros Ho Hj. destruct runtime; simpl in Ho; [|by injection Ho as _ <- _].
  destruct (rg_closed g || _); [by injection Ho as _ <- _|].
  destruct (rg_capacity g <=? retained g); [by injection Ho as _ <- _|].
  destruct (checked_add (rg_next g) 1); [|injection Ho as _ <- _; by apply jinv_closed].
  destruct (try_operation l) as [[] l1]; [done|by injection Ho as _ <- _].
Qed.

(** *** Publication *)

(** The outcome of running an input, or none. *)
Definition outcome_of `{Calendar} `{UsageCodec} (i : Input) (o : option ResultValue) : Prop :=
  o = None \/ exists m l rd r m', run_input i m l rd = (r, m') /\ o = Some r.

Lemma outcome_phase `{Calendar} `{UsageCodec} i o :
  outcome_of i o ->
  let ph := next_phase_of o (phase_of i) in
  jrank (phase_of i) <= jrank ph /\ (ph = PTerminal -> phase_of i = PTerminal) /\
  (phase_of i = PTerminal -> forall p, o <> Some (RAdmission (AdmissionPrepared p))).
Proof.
  intros [->|(m & l & rd & r & m' & Hr & ->)]; simpl.
  { case_bool_decide as Hp; [by rewrite Hp|]. split; [|done]. destruct i as [[]|]; simpl; lia. }
  destruct i as [[p|p|p]|p]; simpl in Hr.
  - destruct (try_authorize _ _ _) as [a m1]. injection Hr as <- <-. simpl. by destruct a.
  - destruct (try_close _ _ _) as [a m1]. injection Hr as <- <-. simpl. by destruct a.
  - destruct (try_commit _ _ _ _ _) as [a m1]. injection Hr as <- <-. simpl. by destruct a.
  - destruct (run_admission _ _ _ _ _) as [a m1]. injection Hr as <- <-. simpl. by destruct a.
Qed.

Lemma finish_slot g id epoch o slot :
  rg_slots g !! id = Some slot -> sl_epoch slot = epoch -> sl_running slot = true ->
  finish g id epoch o =
    set_slots (<[id := finished slot o]> (rg_slots g))
      (set_closed (match o with None => true | Some r => interrupted r end) g).
Proof. intros Hs He Hr. unfold finish. simpl. by rewrite Hs, He, Hr, Z.eqb_refl. Qed.

(** What publishing does to the slot of its task. *)
Lemma finished_ok `{Calendar} `{UsageCodec} slot o id ac t :
  task_slot {[ id := slot ]} t -> tk_id t = id -> outcome_of (tk_input t) o ->
  (sl_held slot = true -> slot_hist id slot ac) ->
  slot_ok (finished slot o) /\ sl_running (finished slot o) = false /\
  sl_held (finished slot o) = sl_held slot /\
  (sl_held slot = true -> slot_hist id (finished slot o) ac).
Proof.
  intros (s & Hs & _ & Hrun & Hsn & Hph) Hid Ho Hh. rewrite Hid, lookup_singleton_eq in Hs.
  injection Hs as <-. split; [|split; [done|split; [done|]]].
  - split; simpl; [done|]. intros _ Hu. rewrite Hu, Hsn. destruct o as [[|[]]|]; by eexists.
  - intros Hheld. specialize (Hph Hheld). specialize (Hh Hheld).
    destruct (outcome_phase _ _ Ho) as (Hrk & Hterm & Hnp). destruct Hh as [_ Hd Hs].
    split; unfold finished; simpl; rewrite Hheld, Hph.
    + intros He. rewrite He in Hrk. destruct (tk_input t) as [[]|]; simpl in Hrk; lia.
    + intros Hlt. apply Hd. rewrite Hph. lia.
    + intros p Hp. destruct (Hs p Hp) as [Hr5 Hq]. rewrite Hph in Hr5, Hq. split; [lia|].
      intros He. destruct (Hq (Hterm He)) as (q & Hqs & Hsame). exists q. split; [|done].
      specialize (Hnp (Hterm He)). rewrite Hqs. destruct o as [[|[]]|]; try done.
Qed.

(** An idle slot nobody holds is removed. *)
Lemma jinv_remove g ts os ac id slot :
  jinv g ts os ac -> rg_slots g !! id = Some slot -> sl_held slot = false -> sl_running slot = false ->
  jinv (set_slots (delete id (rg_slots g)) g) ts os ac.
Proof.
  intros [Hr Ht Hh] Hs Hheld Hrun. split.
  - by eapply reg_delete.
  - apply (tasks_quiet _ _ id None); [done|congruence|done].
  - by apply (hist_update _ _ id None).
Qed.

Lemma jinv_publish `{Calendar} `{UsageCodec} g ts1 t ts2 os ac o :
  jinv g (ts1 ++ t :: ts2) os ac -> outcome_of (tk_input t) o -> jinv (finish g (tk_id t) (tk_epoch t) o) (ts1 ++ ts2) os ac.
Proof.
  intros [Hr Ht Hh] Ho.
  assert (Hin : t ∈ ts1 ++ t :: ts2) by (apply elem_of_app; right; by left).
  destruct (ti_slots _ _ Ht t Hin) as (slot & Hs & Hep & Hrun & Hsn & Hph).
  destruct (finished_ok slot o (tk_id t) ac t) as (Hok & Hfr & Hfh & Hhist); try done.
  { exists slot. by rewrite lookup_singleton_eq. }
  { intros Hheld. by eapply hi_slots. }
  set (b := match o with None => true | Some r => interrupted r end).
  rewrite (finish_slot g (tk_id t) (tk_epoch t) o slot Hs Hep Hrun). fold b.
  change (jinv (set_closed b (set_slots (<[tk_id t := finished slot o]> (rg_slots g)) g)) (ts1 ++ ts2) os ac).
  apply jinv_closed. split.
  - by eapply reg_update.
  - apply (tasks_stop _ _ t _ (Some (finished slot o))); [done|]. by intros s [= <-].
  - apply (hist_update _ _ (tk_id t) (Some (finished slot o))); [done|]. intros s [= <-]. by rewrite Hfh.
Qed.

(** *** Transfer and recovery *)

(** A slot with an outcome is idle. *)
Lemma outcome_idle g ts os ac id slot r :
  jinv g ts os ac -> rg_slots g !! id = Some slot -> sl_outcome slot = Some r -> sl_running slot = false.
Proof.
  intros [Hr _ _] Hs Ho. destruct (ri_slots _ _ Hr id slot Hs) as [Hrun _].
  destruct (sl_running slot); [|done]. by rewrite Hrun in Ho.
Qed.

Lemma jinv_take g ts os ac id epoch k : jinv g ts os ac -> jinv (take g id epoch k).2 ts os ac.
Proof.
  intros Hj. unfold take. destruct (rg_slots g !! id) as [slot|] eqn:Hs; [|done].
  destruct (sl_outcome slot) as [r|] eqn:Ho; [|done]. destruct (_ || _); [done|].
  pose proof (outcome_idle _ _ _ _ _ _ _ Hj Hs Ho) as Hrun.
  destruct (sl_held slot) eqn:Hheld; simpl; [|by eapply jinv_remove].
  set (slot' := MkSlot _ _ _ _ _ _ _ _). destruct Hj as [Hr Ht Hh]. split.
  - eapply reg_update; eauto. split; simpl; [done|]. by intros _.
  - apply (tasks_quiet _ _ id (Some slot')); [done|congruence|by intros s [= <-]].
  - apply (hist_update _ _ id (Some slot')); [done|]. intros s [= <-] _.
    destruct (hi_slots _ _ Hh id slot Hs Hheld) as [A1 A2 A3]. by split.
Qed.

Lemma jinv_take_ready g ts os ac k : jinv g ts os ac -> jinv (take_ready g k).2 ts os ac.
Proof.
  intros Hj. unfold take_ready. destruct (first_slot _ g) as [[id slot]|] eqn:Hf; [|done].
  apply first_slot_spec in Hf as [Hs Hp]. unfold ready in Hp. bools.
  destruct (sl_outcome slot) as [r|] eqn:Ho; [|done]. simpl.
  eapply jinv_remove; eauto. by eapply outcome_idle.
Qed.

Lemma retry_begin_cases g after x after' g' :
  retry_begin g after = (x, after', g') ->
  (x = None /\ (g' = g \/ exists id slot, rg_slots g !! id = Some slot /\ sl_held slot = false /\
      sl_running slot = false /\ sl_releasable slot = true /\ g' = set_slots (delete id (rg_slots g)) g)) \/
  (exists id epoch w slot, x = Some (id, epoch, w) /\ rg_slots g !! id = Some slot /\
     sl_held slot = false /\ sl_running slot = false /\
     g' = set_slots (<[id := MkSlot (Some (IWork w)) None (sl_held slot) true epoch (sl_releasable slot)
            (sl_consumed slot) (sl_phase slot)]> (rg_slots g)) g).
Proof.
  unfold retry_begin. destruct (first_slot _ g) as [[id slot]|] eqn:Hf; [|intros [= <- _ <-]; left; auto].
  apply first_slot_spec in Hf as [Hs Hp]. unfold abandoned in Hp. bools.
  destruct (sl_releasable slot) eqn:Hrel; [intros [= <- _ <-]; left; split; [done|]; right; by exists id, slot|].
  destruct (owed_work slot) as [w|]; [|intros [= <- _ <-]; left; auto].
  destruct (checked_add _ _) as [epoch|]; [|intros [= <- _ <-]; left; auto].
  intros [= <- _ <-]. right. exists id, epoch, w, slot. by rewrite Hrel.
Qed.

Lemma jinv_retry g ts os ac after id epoch w after' g' :
  retry_begin g after = (Some (id, epoch, w), after', g') -> jinv g ts os ac ->
  jinv g' (MkTask id epoch (IWork w) :: ts) os ac.
Proof.
  intros Hb [Hr Ht Hh]. apply retry_begin_cases in Hb as [[? _]|(id' & ep' & w' & slot & [= <- <- <-] & Hs & Hheld & Hrun & ->)];
    [done|].
  set (slot' := MkSlot _ _ _ _ _ _ _ _). split.
  - eapply reg_update; eauto. by split.
  - apply (tasks_start _ _ slot' (MkTask id epoch (IWork w))); [done|simpl; congruence|].
    exists slot'. simpl. rewrite lookup_insert_eq. simpl. rewrite Hheld. by repeat split.
  - apply (hist_update _ _ id (Some slot')); [done|]. intros s [= <-]. simpl. congruence.
Qed.

Lemma jinv_retry_end g ts os ac id : jinv g ts os ac -> jinv (retry_end g id) ts os ac.
Proof.
  intros Hj. unfold retry_end. destruct (rg_slots g !! id) as [slot|] eqn:Hs; [|done].
  destruct (_ && _) eqn:Hb; [|done]. bools. by eapply jinv_remove.
Qed.

Section System.
Context `{Calendar} `{UsageCodec}.

Definition sys_jinv (s : JSys) : Prop := jinv (js_reg s) (js_tasks s) (js_obligations s) (js_accepted s).

Lemma jstep_inv s s' : jstep s s' -> sys_jinv s -> sys_jinv s'.
Proof.
  unfold sys_jinv. destruct 1; simpl.
  - eauto using jinv_obligation.
  - eauto using jinv_submit.
  - eauto using jinv_submit_refused.
  - apply jinv_drop.
  - eauto using jinv_direct.
  - eauto using jinv_direct_refused.
  - intros Hj. apply jinv_publish; [done|]. right. eauto 10.
  - intros Hj. apply jinv_publish; [done|]. by left.
  - apply jinv_take.
  - apply jinv_take_ready.
  - eauto using jinv_retry.
  - intros Hj. match goal with Hx : retry_begin _ _ = _ |- _ =>
      apply retry_begin_cases in Hx as [[_ [->|(id & slot & Hs & Hh & Hr & _ & ->)]]|(? & ? & ? & ? & ? & _)] end;
      [exact Hj|by eapply jinv_remove|discriminate].
  - apply jinv_retry_end.
  - apply jinv_closed.
Qed.

Lemma js_new_inv capacity l m : sys_jinv (js_new capacity l m).
Proof.
  split; simpl.
  - split; simpl; try done; [unfold retained; simpl; rewrite map_size_empty; lia|by constructor|].
    intros id. split; [by intros ?%elem_of_nil|intros (s & Hs & _); done].
  - split; simpl; [constructor|by intros t ?%elem_of_nil|by intros].
  - split; simpl; [by intros x ?%elem_of_nil| |by intros id p q ?%elem_of_nil|done].
    intros id. split; (rewrite accepted_count_none; [lia|by intros x ?%elem_of_nil]).
Qed.

Lemma reach_jinv capacity l m s : rtc jstep (js_new capacity l m) s -> sys_jinv s.
Proof.
  assert (Hgen : forall s0 s1, rtc jstep s0 s1 -> sys_jinv s0 -> sys_jinv s1).
  { induction 1; eauto using jstep_inv. }
  intros Hr. eapply Hgen; [exact Hr|apply js_new_inv].
Qed.

(** C23: An obligation decides once.  Whatever the interleaving of
    submissions, tasks, consumers, recovery and interruptions, the
    registry accepts for each obligation at most one admission and at most
    one dispatch decision (an authorization or a closure, never both), and
    all the settlements it accepts own the same request, execution intent
    and terminal usage. *)
Theorem obligation_decides_once (capacity : Z) (l : Lifecycle) (m : Mutex ProxyLedger) (s : JSys) (id : Z) :
  rtc jstep (js_new capacity l m) s ->
  (accepted_count is_admission id (js_accepted s) <= 1)%nat /\
  (accepted_count is_decision id (js_accepted s) <= 1)%nat /\
  forall p q, (id, IWork (WSettle p)) ∈ js_accepted s -> (id, IWork (WSettle q)) ∈ js_accepted s ->
    same_owner p q.
Proof.
  intros [_ _ [_ Hc Hs _]]%reach_jinv. destruct (Hc id). split; [done|]. split; [done|]. apply Hs.
Qed.

(** What a consumer finds for a kind: the outcome of an unheld slot. *)
Lemma take_ready_some g k id slot r :
  rg_slots g !! id = Some slot -> sl_held slot = false -> sl_outcome slot = Some r -> kind r = k ->
  exists r', (take_ready g k).1 = Some r' /\ kind r' = k.
Proof.
  intros Hs Hh Ho Hk. unfold take_ready. destruct (first_slot _ g) as [[id' slot']|] eqn:Hf.
  - apply first_slot_spec in Hf as [_ Hp]. unfold ready in Hp. bools.
    destruct (sl_outcome slot') as [r'|] eqn:Ho'; [|done]. exists r'. split; [done|].
    by match goal with Hx : bool_decide (kind r' = k) = true |- _ => apply bool_decide_eq_true in Hx end.
  - exfalso. unfold first_slot in Hf.
    assert (Hin : (id, slot) ∈ filter (fun x => ready k x.2 = true) (merge_sort slot_le (map_to_list (rg_slots g)))).
    { apply list_elem_of_filter. split.
      - unfold ready. simpl. rewrite Hh, Ho. simpl. by apply bool_decide_eq_true.
      - rewrite merge_sort_Permutation. by apply elem_of_map_to_list. }
    destruct (filter _ _); [by apply elem_of_nil in Hin|done].
Qed.

(** The bound is fixed. *)
Lemma finish_capacity g id epoch o : rg_capacity (finish g id epoch o) = rg_capacity g.
Proof. unfold finish. simpl. by repeat case_match. Qed.

Lemma jstep_capacity s s' : jstep s s' -> rg_capacity (js_reg s') = rg_capacity (js_reg s).
Proof.
  destruct 1; simpl; unfold obligation, obl_submit, jobs_submit, drop_obligation, take, take_ready, retry_begin,
    retry_end in *; repeat case_match; simplify_eq; simpl; try done; apply finish_capacity.
Qed.

Lemma reach_capacity capacity l m s : rtc jstep (js_new capacity l m) s -> rg_capacity (js_reg s) = capacity.
Proof.
  assert (Hgen : forall s0 s1, rtc jstep s0 s1 -> rg_capacity (js_reg s1) = rg_capacity (js_reg s0)).
  { induction 1 as [|s0 s1 s2 H01 _ IH]; [done|]. by rewrite IH, (jstep_capacity _ _ H01). }
  intros Hr. by rewrite (Hgen _ _ Hr).
Qed.

(** The registry is bounded and nothing in it is stranded.  In every
    reachable state the number of slots is at most the configured
    capacity, and every slot is held by a live obligation, or is running
    under a scheduled task whose publication it will accept, or holds an
    outcome that a consumer of its kind can take. *)
Theorem registry_bounded_and_collectable (capacity : Z) (l : Lifecycle) (m : Mutex ProxyLedger) (s : JSys) :
  rtc jstep (js_new capacity l m) s ->
  retained (js_reg s) <= Z.max 0 capacity /\
  forall id slot, rg_slots (js_reg s) !! id = Some slot ->
    id ∈ js_obligations s \/
    (exists t, t ∈ js_tasks s /\ tk_id t = id /\ tk_epoch t = sl_epoch slot /\
       sl_snapshot slot = Some (tk_input t)) \/
    (exists r r', sl_outcome slot = Some r /\ (take_ready (js_reg s) (kind r)).1 = Some r' /\ kind r' = kind r).
Proof.
  intros Hreach. pose proof (reach_capacity _ _ _ _ Hreach) as Hcap.
  destruct (reach_jinv _ _ _ _ Hreach) as [Hr Ht _]. split; [apply ri_bound in Hr; by rewrite Hcap in Hr|].
  intros id slot Hs.
  destruct (sl_held slot) eqn:Hh; [left; apply (ri_live _ _ Hr); by exists slot|right].
  destruct (sl_running slot) eqn:Hrun; [left|right].
  - apply (ti_running _ _ Ht id slot Hs) in Hrun as (t & -> & Hin)%list_elem_of_fmap.
    exists t. destruct (ti_slots _ _ Ht t Hin) as (slot' & Hs' & He & _ & Hsn & _).
    assert (slot' = slot) as -> by congruence. done.
  - destruct (ri_slots _ _ Hr id slot Hs) as [_ Hidle]. destruct (Hidle Hrun Hh) as [r Ho].
    destruct (take_ready_some (js_reg s) (kind r) id slot r Hs Hh Ho eq_refl) as (r' & H1 & H2).
    by exists r, r'.
Qed.

(** A slot that may be released was resolved: the task of its epoch
    published a denial, a cutoff, a closure or a commit. *)
Definition resolved (pb : list (Z * Z * option ResultValue)) (id : Z) (slot : Slot) : Prop :=
  exists r, (id, sl_epoch slot, Some r) ∈ pb /\ releases (Some r) = true.
Definition releasable_inv (t : gmap Z Slot) (pb : list (Z * Z * option ResultValue)) : Prop :=
  forall id slot, t !! id = Some slot -> sl_releasable slot = true -> resolved pb id slot.

Lemma releasable_insert t pb id x :
  releasable_inv t pb ->
  (sl_releasable x = true -> exists y, t !! id = Some y /\ sl_releasable y = true /\ sl_epoch x = sl_epoch y) ->
  releasable_inv (<[id := x]> t) pb.
Proof.
  intros Hi Hx id' slot [[<- <-]|[_ Hs]]%lookup_insert_Some Hr; [|by apply Hi].
  destruct (Hx Hr) as (y & Hy & Hry & He). destruct (Hi id y Hy Hry) as (r & Hin & Hrel).
  exists r. by rewrite He.
Qed.

Lemma releasable_delete t pb id : releasable_inv t pb -> releasable_inv (delete id t) pb.
Proof. intros Hi id' slot [_ Hs]%lookup_delete_Some. by apply Hi. Qed.

Lemma releasable_finish g pb id epoch o :
  releasable_inv (rg_slots g) pb ->
  releasable_inv (rg_slots (finish g id epoch o)) ((id, epoch, o) :: pb).
Proof.
  intros Hi. assert (Hw : releasable_inv (rg_slots g) ((id, epoch, o) :: pb)).
  { intros id' s Hs Hr. destruct (Hi id' s Hs Hr) as (r & Hin & Hrel). exists r. split; [by right|done]. }
  unfold finish. simpl. destruct (rg_slots g !! id) as [s0|] eqn:Hs0; [|done].
  destruct (_ && _) eqn:Hb; [|done]. bools. simpl. intros id' s [[<- <-]|[_ Hs]]%lookup_insert_Some Hr; [|by apply Hw].
  simpl in *. destruct o as [r|]; [|done]. exists r. split; [|done]. simpl.
  assert (sl_epoch s0 = epoch) as -> by lia. by left.
Qed.

Lemma jstep_releasable s s' :
  jstep s s' -> releasable_inv (rg_slots (js_reg s)) (js_published s) ->
  releasable_inv (rg_slots (js_reg s')) (js_published s').
Proof.
  destruct 1; simpl; intros Hi; try by apply releasable_finish.
  all: unfold obligation, obl_submit, jobs_submit, drop_obligation, take, take_ready, retry_begin, retry_end in *.
  all: repeat case_match; simplify_eq; simpl; try done; try by apply releasable_delete.
  all: apply releasable_insert; simpl; [done|]; try done.
  all: eauto.
Qed.

Lemma reach_releasable capacity l m s :
  rtc jstep (js_new capacity l m) s -> releasable_inv (rg_slots (js_reg s)) (js_published s).
Proof.
  assert (Hgen : forall s0 s1, rtc jstep s0 s1 -> releasable_inv (rg_slots (js_reg s0)) (js_published s0) ->
    releasable_inv (rg_slots (js_reg s1)) (js_published s1)).
  { induction 1; eauto using jstep_releasable. }
  intros Hr. eapply Hgen; [exact Hr|]. by intros id slot Hs.
Qed.

(** How a slot leaves the registry: its outcome was handed to the caller of
    this step, or it was resolved, or it owned nothing. *)
Definition leaves (s s' : JSys) (id : Z) (slot : Slot) : Prop :=
  (exists epoch k r, take (js_reg s) id epoch k = (Some r, js_reg s') /\ sl_outcome slot = Some r) \/
  (exists k r, take_ready (js_reg s) k = (Some r, js_reg s') /\ sl_outcome slot = Some r) \/
  resolved (js_published s) id slot \/
  (sl_snapshot slot = None /\ sl_outcome slot = None /\ sl_running slot = false).

Lemma finish_keeps g id epoch o id' slot :
  rg_slots g !! id' = Some slot -> is_Some (rg_slots (finish g id epoch o) !! id').
Proof.
  intros Hs. unfold finish. simpl. destruct (rg_slots g !! id) as [s0|]; simpl; [|by eexists].
  destruct (_ && _); simpl; [|by eexists]. destruct (decide (id = id')) as [<-|Hne].
  - rewrite lookup_insert_eq. by eexists.
  - rewrite lookup_insert_ne by done. by eexists.
Qed.

(** An inserted slot removes nothing. *)
Lemma insert_removes (t : gmap Z Slot) i x id slot :
  t !! id = Some slot -> <[i := x]> t !! id = None -> False.
Proof. intros Hs [Hn _]%lookup_insert_None. congruence. Qed.

Lemma delete_removes (t : gmap Z Slot) i id slot :
  t !! id = Some slot -> delete i t !! id = None -> i = id.
Proof. intros Hs [Hn|Hn]%lookup_delete_None; congruence. Qed.

Ltac not_removed := exfalso; first [solve [eauto using insert_removes] | congruence].

Lemma drop_removes g i id slot :
  rg_slots g !! id = Some slot -> rg_slots (drop_obligation g i) !! id = None ->
  sl_releasable slot = true \/ (sl_snapshot slot = None /\ sl_outcome slot = None /\ sl_running slot = false).
Proof.
  intros Hs Hn. unfold drop_obligation in Hn. destruct (rg_slots g !! i) as [s0|] eqn:Hs0; [|congruence].
  destruct (sl_running s0) eqn:Er; simpl in Hn; [not_removed|].
  destruct (bool_decide_reflect (sl_outcome s0 = None)) as [Eo|]; simpl in Hn; [|not_removed].
  destruct (sl_releasable s0) eqn:Erel; simpl in Hn.
  - pose proof (delete_removes _ _ _ _ Hs Hn) as ->. left. congruence.
  - destruct (bool_decide_reflect (sl_snapshot s0 = None)) as [Es|]; simpl in Hn; [|not_removed].
    pose proof (delete_removes _ _ _ _ Hs Hn) as ->. right. by assert (s0 = slot) as -> by congruence.
Qed.

Lemma take_removes g i epoch k id slot :
  rg_slots g !! id = Some slot -> rg_slots (take g i epoch k).2 !! id = None ->
  exists r, take g id epoch k = (Some r, (take g i epoch k).2) /\ sl_outcome slot = Some r.
Proof.
  intros Hs Hn. unfold take in Hn. destruct (rg_slots g !! i) as [s0|] eqn:Hs0; simpl in Hn; [|congruence].
  destruct (sl_outcome s0) as [r|] eqn:Ho; simpl in Hn; [|congruence].
  destruct (_ || _) eqn:Eb; simpl in Hn; [congruence|].
  destruct (sl_held s0) eqn:Eh; simpl in Hn; [not_removed|].
  pose proof (delete_removes _ _ _ _ Hs Hn) as ->. assert (s0 = slot) as -> by congruence.
  exists r. split; [|done]. unfold take. by rewrite Hs, Ho, Eb, Eh.
Qed.

Lemma take_ready_removes g k id slot :
  rg_slots g !! id = Some slot -> rg_slots (take_ready g k).2 !! id = None ->
  exists r, take_ready g k = (Some r, (take_ready g k).2) /\ sl_outcome slot = Some r.
Proof.
  intros Hs Hn. unfold take_ready in *. destruct (first_slot _ g) as [[i s0]|] eqn:Hf; simpl in Hn; [|congruence].
  apply first_slot_spec in Hf as [Hs0 Hp]. unfold ready in Hp. bools.
  destruct (sl_outcome s0) as [r|] eqn:Ho; [|done]. exists r.
  pose proof (delete_removes _ _ _ _ Hs Hn) as ->. split; [done|congruence].
Qed.

Lemma submit_removes g l i input runtime now r g' id slot :
  obl_submit g l i input runtime now = (r, g') -> rg_slots g !! id = Some slot ->
  rg_slots g' !! id = None -> False.
Proof.
  unfold obl_submit. intros Hsub Hs Hn.
  repeat case_match; simplify_eq; simpl in Hn; eauto using insert_removes; congruence.
Qed.

(** Evidence leaves the registry only delivered or resolved.  In every
    execution, when a step removes a slot, then that very step handed the
    slot's outcome to the consumer that asked for it, or the task of the
    slot's last epoch had published a resolution of it (a denial, a
    cutoff, a closure before dispatch or a committed settlement), or the
    slot owned nothing. *)
Theorem evidence_leaves_resolved (capacity : Z) (l : Lifecycle) (m : Mutex ProxyLedger) (s s' : JSys)
    (id : Z) (slot : Slot) :
  rtc jstep (js_new capacity l m) s -> jstep s s' ->
  rg_slots (js_reg s) !! id = Some slot -> rg_slots (js_reg s') !! id = None -> leaves s s' id slot.
Proof.
  intros Hreach Hstep Hs Hn. unfold leaves. pose proof (reach_releasable _ _ _ _ Hreach id slot Hs) as Hres.
  destruct Hstep; simpl in *; try (exfalso; by eauto using submit_removes).
  - unfold obligation in *. repeat case_match; simplify_eq. simpl in Hn. not_removed.
  - destruct (drop_removes _ _ _ _ Hs Hn); auto.
  - unfold jobs_submit in *. repeat case_match; simplify_eq. simpl in Hn. not_removed.
  - unfold jobs_submit in *. repeat case_match; simplify_eq; simpl in Hn; congruence.
  - destruct (finish_keeps g (tk_id t) (tk_epoch t) (Some r) id slot Hs). congruence.
  - destruct (finish_keeps g (tk_id t) (tk_epoch t) None id slot Hs). congruence.
  - destruct (take_removes _ _ _ _ _ _ Hs Hn) as (r & Ht & Ho). left. by exists epoch, k, r.
  - destruct (take_ready_removes _ _ _ _ Hs Hn) as (r & Ht & Ho). right; left. by exists k, r.
  - match goal with Hx : retry_begin _ _ = _ |- _ =>
      apply retry_begin_cases in Hx as [[? _]|(id1 & ep & w1 & s1 & _ & _ & _ & _ & ->)] end; [done|].
    simpl in Hn. not_removed.
  - match goal with Hx : retry_begin _ _ = _ |- _ =>
      apply retry_begin_cases in Hx as [[_ [->|(id1 & s1 & Hs1 & _ & _ & Hrel & ->)]]|(? & ? & ? & ? & ? & _)] end;
      [congruence| |done].
    pose proof (delete_removes _ _ _ _ Hs Hn) as ->. right; right; left. apply Hres. congruence.
  - unfold retry_end in Hn. destruct (rg_slots g !! id0) as [s0|] eqn:Hs0; [|congruence].
    destruct (_ && _) eqn:Hb in Hn; [|congruence]. bools.
    pose proof (delete_removes _ _ _ _ Hs Hn) as ->. right; right; left. apply Hres. congruence.
  - congruence.
Qed.
End System.

(** ** Witnesses *)

(** A schedule picks the steps of the registry, so that a concrete
    execution is computed. *)
Inductive jcmd :=
| CmdObligation
| CmdSubmit (id : Z) (input : Input)
| CmdDrop (id : Z)
| CmdRun (rd : Reads)
| CmdAbort
| CmdTake (id epoch : Z) (k : Kind)
| CmdTakeReady (k : Kind)
| CmdRetry (after : option Z)
| CmdRetryEnd (id : Z).

Section Schedule.
Context `{Calendar} `{UsageCodec}.

Definition jdo (s : JSys) (c : jcmd) : option JSys :=
  let '(MkJSys g l m ts os ac pb) := s in
  match c with
  | CmdObligation =>
      match obligation g l with (Ok id, g', l') => Some (MkJSys g' l' m ts (id :: os) ac pb) | _ => None end
  | CmdSubmit id input =>
      match decide (id ∈ os), obl_submit g l id input true 0 with
      | left _, (Ok epoch, g') =>
          Some (MkJSys g' l m (MkTask id epoch input :: ts) os ((id, input) :: ac) pb)
      | _, _ => None
      end
  | CmdDrop id =>
      match os with
      | id' :: os => if decide (id' = id) then Some (MkJSys (drop_obligation g id) l m ts os ac pb) else None
      | [] => None
      end
  | CmdRun rd =>
      match ts with
      | t :: ts =>
          let '(r, m') := run_input (tk_input t) m l rd in 
          Some (MkJSys (finish g (tk_id t) (tk_epoch t) (Some r)) l m' ts os ac ((tk_id t, tk_epoch t, Some r) :: pb))
      | [] => None
      end
  | CmdAbort =>
      match ts with
      | t :: ts =>
          Some (MkJSys (finish g (tk_id t) (tk_epoch t) None) l m ts os ac ((tk_id t, tk_epoch t, None) :: pb))
      | [] => None
      end
  | CmdTake id epoch k => Some (MkJSys (take g id epoch k).2 l m ts os ac pb)
  | CmdTakeReady k => Some (MkJSys (take_ready g k).2 l m ts os ac pb)
  | CmdRetry after =>
      match retry_begin g after with
      | (Some (id, epoch, w), _, g') => Some (MkJSys g' l m (MkTask id epoch (IWork w) :: ts) os ac pb)
      | (None, _, g') => Some (MkJSys g' l m ts os ac pb)
      end
  | CmdRetryEnd id => Some (MkJSys (retry_end g id) l m ts os ac pb)
  end.

Fixpoint jdos (s : JSys) (cs : list jcmd) : option JSys :=
  match cs with
  | [] => Some s
  | c :: cs => match jdo s c with Some s => jdos s cs | None => None end
  end.

Lemma jdo_step s c s' : jdo s c = Some s' -> jstep s s'.
Proof.
  destruct s as [g l m ts os ac pb]. destruct c; simpl; intros Hd.
  - destruct (obligation g l) as [[[id|e] g'] l'] eqn:Ho; [|done]. injection Hd as <-. by apply JObligation.
  - destruct (decide (id ∈ os)) as [Hin|]; [|done].
    destruct (obl_submit g l id input true 0) as [[epoch|e] g'] eqn:Ho; [|done]. injection Hd as <-.
    by eapply JSubmit.
  - destruct os as [|id' os]; [done|]. destruct (decide (id' = id)) as [->|]; [|done]. injection Hd as <-.
    apply (JDropObligation g l m ts [] os).
  - destruct ts as [|t ts]; [done|]. destruct (run_input (tk_input t) m l rd) as [r m'] eqn:Hr.
    injection Hd as <-. by apply (JRun g l m [] ts os ac pb t rd).
  - destruct ts as [|t ts]; [done|]. injection Hd as <-.
    apply (JInterrupt g l m [] ts os ac pb t (MkReads 0 0 None) false).
  - injection Hd as <-. apply JTake.
  - injection Hd as <-. apply JTakeReady.
  - destruct (retry_begin g after) as [[[[[id epoch] w]|] a] g'] eqn:Hr; injection Hd as <-.
    + by eapply JRetry.
    + by eapply JRetryNone.
  - injection Hd as <-. apply JRetryEnd.
Qed.

Lemma jdos_steps cs : forall s s', jdos s cs = Some s' -> rtc jstep s s'.
Proof.
  induction cs as [|c cs IH]; simpl; intros s s' Hd; [injection Hd as <-; apply rtc_refl|].
  destruct (jdo s c) as [s1|] eqn:Hs; [|done]. eapply rtc_l; [by eapply jdo_step|by apply IH].
Qed.
End Schedule.

#[local] Existing Instances utc_days demo_codec.

(** One request from admission to settlement; the settling task is aborted,
    the obligation dropped, and [retry_terminal] finishes the work. *)
Definition jobs_ledger : Mutex ProxyLedger :=
  Eval vm_compute in idle_mutex (drun demo_store (List.firstn 1 owner_before)).2.
Definition jobs_start : JSys := js_new 4 lc_new jobs_ledger.
Definition jobs_admission : PreparedAdmission :=
  MkPrepared (MkEvidence "req" "team" 1500 (seconds 900) 10) false.
Definition jobs_dispatch : PendingDispatch := MkPendingDispatch "req" owner_intent.
Definition jobs_schedule : list jcmd :=
  [CmdObligation;
   CmdSubmit 0 (IAdmission jobs_admission); CmdRun (MkReads 0 0 demo_ent); CmdTake 0 1 KAdmission;
   CmdSubmit 0 (IWork (WAuthorize jobs_dispatch)); CmdRun (MkReads (seconds 1) 0 None); CmdTake 0 2 KWork;
   CmdSubmit 0 (IWork (WSettle owner)); CmdAbort; CmdDrop 0].
Definition jobs_owed : JSys := Eval vm_compute in default jobs_start (jdos jobs_start jobs_schedule).
Definition jobs_retry : list jcmd := [CmdRetry None; CmdRun (MkReads (seconds 4) (seconds 5) demo_ent2)].
Definition jobs_retried : JSys := Eval vm_compute in default jobs_start (jdos jobs_owed jobs_retry).
Definition jobs_released : JSys := Eval vm_compute in default jobs_start (jdo jobs_retried (CmdRetryEnd 0)).

Lemma jobs_owed_reached : rtc jstep jobs_start jobs_owed.
Proof. apply (jdos_steps jobs_schedule). vm_compute. reflexivity. Qed.

Lemma jobs_retried_reached : rtc jstep jobs_start jobs_retried.
Proof.
  etransitivity; [exact jobs_owed_reached|]. apply (jdos_steps jobs_retry). vm_compute. reflexivity.
Qed.

Lemma obligation_decides_once_witness :
  (0, IWork (WAuthorize jobs_dispatch)) ∈ js_accepted jobs_owed /\
  (accepted_count is_decision 0 (js_accepted jobs_owed) <= 1)%nat.
Proof.
  split; [by right; left|].
  apply (obligation_decides_once 4 lc_new jobs_ledger jobs_owed 0 jobs_owed_reached).
Defined.

Lemma registry_bounded_and_collectable_witness :
  retained (js_reg jobs_retried) = 1 /\ retained (js_reg jobs_retried) <= Z.max 0 4.
Proof.
  split; [vm_compute; reflexivity|].
  apply (registry_bounded_and_collectable 4 lc_new jobs_ledger jobs_retried jobs_retried_reached).
Defined.

Lemma evidence_leaves_resolved_witness :
  exists slot, rg_slots (js_reg jobs_retried) !! 0 = Some slot /\
    rg_slots (js_reg jobs_released) !! 0 = None /\ leaves jobs_retried jobs_released 0 slot.
Proof.
  eexists. split; [vm_compute; reflexivity|]. split; [vm_compute; reflexivity|].
  apply (evidence_leaves_resolved 4 lc_new jobs_ledger jobs_retried jobs_released 0).
  - exact jobs_retried_reached.
  - apply (jdo_step _ (CmdRetryEnd 0)). vm_compute. reflexivity.
  - vm_compute. reflexivity.
  - vm_compute. reflexivity.
Defined.
