(* ===== verification/Json.v ===== *)
(** JSON values as the code reads them.  [serde_json::Value] is a library
    type, so it is a class of its accessors; the laws are what its
    documentation says of them.  [demo_json] instantiates both. *)

From Stdlib Require Export SpecFloat.
From S2P Require Import Prelude.

(** [Value::get] with a string key, [as_u64], [as_f64], [as_str],
    [as_bool], [as_array], [is_object], [is_null].  An [f64] is its
    mathematical description. *)
Class JsonValue (J : Type) := {
  jget : J -> string -> option J;
  jas_u64 : J -> option Z;
  jas_f64 : J -> option spec_float;
  jas_str : J -> option string;
  jas_bool : J -> option bool;
  jas_array : J -> option (list J);
  jis_object : J -> bool;
  jis_null : J -> bool }.

(** A key is found in objects only, null is not an object, and [as_u64]
    answers a [u64]. *)
Class LawfulJson (J : Type) `{JsonValue J} : Prop := {
  jget_object v k x : jget v k = Some x -> jis_object v = true;
  jnull_object v : jis_null v = true -> jis_object v = false;
  jas_u64_range v n : jas_u64 v = Some n -> in_u64 n }.

(** ** An instance *)

Inductive Json :=
| JNull
| JBool (b : bool)
| JNumber (z : Z)
| JFloat (f : spec_float)
| JString (s : string)
| JArray (l : list Json)
| JObject (l : list (string * Json)).

Fixpoint assoc (k : string) (l : list (string * Json)) : option Json :=
  match l with
  | [] => None
  | (k', v) :: l => if bool_decide (k = k') then Some v else assoc k l
  end.

(** [as_i64]. *)
Definition jas_i64 (v : Json) : option Z :=
  match v with JNumber z => if (- i64_max - 1 <=? z) && (z <=? i64_max) then Some z else None | _ => None end.

#[export] Instance demo_json : JsonValue Json := {|
  jget v k := match v with JObject l => assoc k l | _ => None end;
  jas_u64 v := match v with JNumber z => if (0 <=? z) && (z <=? u64_max) then Some z else None | _ => None end;
  jas_f64 v := match v with
               | JFloat f => Some f
               | JNumber z => Some (binary_normalize 53 1024 z 0 false)
               | _ => None
               end;
  jas_str v := match v with JString s => Some s | _ => None end;
  jas_bool v := match v with JBool b => Some b | _ => None end;
  jas_array v := match v with JArray l => Some l | _ => None end;
  jis_object v := match v with JObject _ => true | _ => false end;
  jis_null v := match v with JNull => true | _ => false end |}.

#[export] Instance demo_json_lawful : LawfulJson Json.
Proof.
  split.
  - intros [] k x; simpl; congruence.
  - intros []; simpl; congruence.
  - intros [] n; simpl; try discriminate. destruct (_ && _) eqn:Hb; [|done]. intros [= <-]. bools. ulia.
Qed.
