(* ===== verification/UsageParse.v ===== *)
(** Extraction of token usage from provider responses:
    [crates/sandhi-core/src/usage.rs] and the field observations of
    [cache_read.rs].  The parsers are functions of a JSON value; logging is
    left out, it changes nothing. *)

From S2P Require Import Prelude Usage Json.

Record ParsedUsage := MkParsed {
  pu_tokens_in : Z; pu_tokens_out : Z; pu_cache_creation : Z; pu_cache_read : Z;
  pu_cache_obs : option CacheReadObservation; pu_reasoning : Z; pu_reasoning_included : option bool;
  pu_duration_ms : option Z; pu_ttft_ms : option Z }.
#[export] Instance ParsedUsage_eq_dec : EqDecision ParsedUsage.
Proof. solve_decision. Defined.

(** [(n > 0).then_some(n)]. *)
Definition nonzero (n : Z) : option Z := if 0 <? n then Some n else None.

(** [ms.map(|_| LatencySource::Origin)]. *)
Definition Origin_of (ms : option Z) : option LatencySource := (fun _ => Origin) <$> ms.

(** [From<ParsedUsage> for UsageV2]. *)
Definition parsed_usage (p : ParsedUsage) : UsageV2 :=
  MkUsage (pu_tokens_in p) (pu_tokens_out p) (pu_cache_creation p) (pu_cache_read p)
    (pu_cache_obs p ≫= validated) (u_audio_in UsageV2_default) (u_audio_out UsageV2_default)
    (nonzero (pu_reasoning p)) (pu_reasoning_included p)
    (u_accepted_prediction UsageV2_default) (u_rejected_prediction UsageV2_default) Final
    (u_basis UsageV2_default) (u_attempts UsageV2_default) (u_outcome UsageV2_default)
    (u_upstream_request_id UsageV2_default) (pu_duration_ms p) (Origin_of (pu_duration_ms p))
    (pu_ttft_ms p) (Origin_of (pu_ttft_ms p)).

(** [ParsedUsage::apply]: the counts are stamped, the measurement is filled
    where the caller left it empty. *)
Definition or_some {A} (o : option A) (p : option A) : option A := match o with Some _ => o | None => p end.

Definition apply_parsed (p : ParsedUsage) (e : UsageEvent) : UsageEvent :=
  let e := with_cache_read_observation e (pu_cache_obs p) in
  let e := with_reasoning_included
             (with_reasoning
                (with_cache (with_tokens e (pu_tokens_in p) (pu_tokens_out p))
                   (pu_cache_creation p) (pu_cache_read p))
                (nonzero (pu_reasoning p))) (pu_reasoning_included p) in
  let e := with_latency_sources
             (with_latency e (or_some (pu_duration_ms p) (ev_duration_ms e))
                (or_some (pu_ttft_ms p) (ev_time_to_first_token_ms e)))
             (or_some (Origin_of (pu_duration_ms p)) (ev_duration_source e))
             (or_some (Origin_of (pu_ttft_ms p)) (ev_time_to_first_token_source e)) in
  with_measurement e
    (match ev_usage_completeness e with Unavailable => Final | c => c end)
    (ev_attempts e) (or_some (ev_outcome e) (Some "success")) (ev_upstream_request_id e).

(** ** Reading fields *)

Definition MAX_PLAUSIBLE_TOKENS : Z := 50000000000.

(** [f64::round] of a finite positive number: half away from zero. *)
Definition round_positive (m : positive) (e : Z) : Z :=
  if 0 <=? e then Zpos m * 2 ^ e else (2 * Zpos m + 2 ^ (- e)) / (2 * 2 ^ (- e)).

(** A finite, non-negative number whose rounding is below [i64::MAX as f64],
    which is [2^63]; minus zero is not below zero. *)
Definition millis_of (x : spec_float) : option Z :=
  match x with
  | S754_zero _ => Some 0
  | S754_finite false m e => let r := round_positive m e in if 2 ^ 63 <=? r then None else Some r
  | _ => None
  end.

Definition split_prompt (prompt cached : Z) : Z * bool :=
  if prompt <? cached then (0, true) else (prompt - cached, false).

Inductive BufferedUsageError :=
| InvalidResponse | MissingUsage | InvalidField (path : string) | InconsistentUsage.
Inductive StreamUsageError :=
| InvalidChunk | NonFinalUsage | InvalidUsage (e : BufferedUsageError).
#[export] Instance BufferedUsageError_eq_dec : EqDecision BufferedUsageError.
Proof. solve_decision. Defined.
#[export] Instance StreamUsageError_eq_dec : EqDecision StreamUsageError.
Proof. solve_decision. Defined.

Inductive CacheReadFamily := OpenAi | OpenAiResponses | Anthropic | Gemini | Cohere | Ollama | Bedrock.

(** The generated model of an Anthropic usage object. *)
Record AnthropicMessageUsage := MkAnthropic {
  am_cache_creation : option Z; am_cache_read : option Z; am_input : option Z; am_output : option Z }.

Section Parse.
Context {J : Type} `{JsonValue J}.

Definition u64_at (v : J) (key : string) : Z :=
  match jget v key ≫= jas_u64 with
  | Some n => if n <=? MAX_PLAUSIBLE_TOKENS then n else 0
  | None => 0
  end.

Definition millis_at (v : J) (key : string) : option Z := (jget v key ≫= jas_f64) ≫= millis_of.

(** ** The cache-read field *)

(** The loop of [field_status] down the path. *)
Fixpoint field_status (value : J) (path : list string) : CacheReadStatus :=
  match path with
  | [] =>
      match jas_u64 value with
      | Some n => if n <=? MAX_PLAUSIBLE_TOKENS then Reported else Malformed
      | None => Malformed
      end
  | key :: path =>
      if negb (jis_object value) then Malformed
      else match jget value key with
           | None => Absent
           | Some next => field_status next path
           end
  end.

Definition cache_read_status (family : CacheReadFamily) (response : J) : CacheReadStatus :=
  match family with
  | OpenAi =>
      match jget response "usage" ≫= fun u => jget u "prompt_cache_hit_tokens" with
      | Some _ => field_status response ["usage"; "prompt_cache_hit_tokens"]
      | None => field_status response ["usage"; "prompt_tokens_details"; "cached_tokens"]
      end
  | OpenAiResponses => field_status response ["usage"; "input_tokens_details"; "cached_tokens"]
  | Anthropic | Bedrock => field_status response ["usage"; "cache_read_input_tokens"]
  | Gemini => field_status response ["usageMetadata"; "cachedContentTokenCount"]
  | Cohere =>
      match jget response "usage" with
      | Some u => if negb (jis_object u) then Malformed else Absent
      | None => Absent
      end
  | Ollama => Absent
  end.

(** [CacheReadObservation::origin] of the status; its assertion holds
    ([observe_never_panics]). *)
Definition observe_cache_read (family : CacheReadFamily) (response : J) : CacheReadObservation :=
  MkCacheObs (cache_read_status family response) OriginUsage.

Definition observe_cache_read_stream (family : CacheReadFamily) (frame : J) : option CacheReadObservation :=
  response ←
    match family with
    | OpenAi =>
        usage ← jget frame "usage";
        if jis_null usage
           && match jget frame "choices" ≫= jas_array with Some (_ :: _) => true | _ => false end
        then None else Some frame
    | OpenAiResponses =>
        let response := default frame (jget frame "response") in
        usage ← jget response "usage";
        if jis_null usage
           && match jget frame "type" ≫= jas_str with
              | Some t => bool_decide (t = "response.created") || bool_decide (t = "response.in_progress")
              | None => false
              end
        then None else Some response
    | Anthropic =>
        t ← jget frame "type" ≫= jas_str;
        response ← (if bool_decide (t = "message_start") then jget frame "message"
                    else if bool_decide (t = "message_delta") then Some frame else None);
        _ ← jget response "usage"; Some response
    | Gemini => _ ← jget frame "usageMetadata"; Some frame
    | Cohere =>
        response ← (match jget frame "usage" with Some _ => Some frame | None => jget frame "delta" end);
        _ ← jget response "usage"; Some response
    | Ollama =>
        match jget frame "done" ≫= jas_bool with Some true => Some frame | _ => None end
    | Bedrock => _ ← jget frame "usage"; Some frame
    end;
  Some (observe_cache_read family response).

(** ** Qualification *)

Definition required (object : J) (key field : string) : result BufferedUsageError Z :=
  match jget object key ≫= jas_u64 with
  | Some n => if n <=? MAX_PLAUSIBLE_TOKENS then Ok n else Err (InvalidField field)
  | None => Err (InvalidField field)
  end.

Definition optional (object : J) (key field : string) : result BufferedUsageError (option Z) :=
  match jget object key with
  | None => Ok None
  | Some _ => n ← required object key field; Ok (Some n)
  end.

Definition details (usage : J) (key counter field : string) : result BufferedUsageError (option Z) :=
  match jget usage key with
  | None => Ok None
  | Some object =>
      if jis_null object then Ok None
      else if jis_object object then optional object counter field
      else Err (InvalidField key)
  end.

(** [o.is_some_and(p)]. *)
Definition is_some_and {A} (o : option A) (p : A -> bool) : bool :=
  match o with Some a => p a | None => false end.

Definition inconsistent (prompt completion : Z) (cached reasoning hit miss : option Z) : bool :=
  is_some_and cached (fun n => prompt <? n)
  || is_some_and reasoning (fun n => completion <? n)
  || is_some_and hit (fun n => prompt <? n)
  || is_some_and miss (fun n =>
       match hit with
       | None => true
       | Some h => negb (bool_decide (checked_add h n = Some prompt))
       end)
  || match hit, cached with Some a, Some b => negb (a =? b) | _, _ => false end.

Definition validate_openai_buffered_usage (response : J) : result BufferedUsageError unit :=
  _ ← bail (negb (jis_object response)) InvalidResponse;
  usage ← ok_or (jget response "usage") MissingUsage;
  _ ← bail (negb (jis_object usage)) (InvalidField "usage");
  prompt ← required usage "prompt_tokens" "prompt_tokens";
  completion ← required usage "completion_tokens" "completion_tokens";
  cached ← details usage "prompt_tokens_details" "cached_tokens" "prompt_tokens_details.cached_tokens";
  reasoning ← details usage "completion_tokens_details" "reasoning_tokens"
                "completion_tokens_details.reasoning_tokens";
  hit ← optional usage "prompt_cache_hit_tokens" "prompt_cache_hit_tokens";
  miss ← optional usage "prompt_cache_miss_tokens" "prompt_cache_miss_tokens";
  _ ← bail (inconsistent prompt completion cached reasoning hit miss) InconsistentUsage;
  match jget usage "total_tokens" with
  | None => Ok tt
  | Some total =>
      total ← ok_or (jas_u64 total) (InvalidField "total_tokens");
      bail (negb (bool_decide (checked_add prompt completion = Some total))) InconsistentUsage
  end.

(** ** The parsers *)

(** [usage.get(key).map(|d| u64_at(d, counter)).unwrap_or(0)]. *)
Definition nested_u64 (usage : J) (key counter : string) : Z :=
  match jget usage key with Some d => u64_at d counter | None => 0 end.

Definition parse_openai_usage (response : J) : option ParsedUsage :=
  usage ← jget response "usage";
  let duration_ms := millis_at usage "duration_ms" in
  let ttft := millis_at usage "time_to_first_token_ms" in
  let completion := u64_at usage "completion_tokens" in
  let reasoning := nested_u64 usage "completion_tokens_details" "reasoning_tokens" in
  let obs := Some (observe_cache_read OpenAi response) in
  match jget usage "prompt_cache_hit_tokens" with
  | Some _ =>
      let hit := u64_at usage "prompt_cache_hit_tokens" in
      let fresh := match jget usage "prompt_cache_miss_tokens" with
                   | Some _ => u64_at usage "prompt_cache_miss_tokens"
                   | None => sat_sub (u64_at usage "prompt_tokens") hit
                   end in
      Some (MkParsed fresh completion 0 hit obs reasoning (Some true) duration_ms ttft)
  | None =>
      let prompt := u64_at usage "prompt_tokens" in
      let cached := nested_u64 usage "prompt_tokens_details" "cached_tokens" in
      let '(tokens_in, _) := split_prompt prompt cached in
      Some (MkParsed tokens_in completion 0 cached obs reasoning (Some true) duration_ms ttft)
  end.

Definition parse_openai_responses_usage (response : J) : option ParsedUsage :=
  usage ← jget response "usage";
  let input := u64_at usage "input_tokens" in
  let output := u64_at usage "output_tokens" in
  let cached := nested_u64 usage "input_tokens_details" "cached_tokens" in
  let '(tokens_in, _) := split_prompt input cached in
  let reasoning := nested_u64 usage "output_tokens_details" "reasoning_tokens" in
  Some (MkParsed tokens_in output 0 cached (Some (observe_cache_read OpenAiResponses response))
          reasoning (Some true) None None).

(** [serde_json::from_value] into the generated model is a parameter; its
    fields are [i64], and [.max(0) as u64] clamps the negative ones. *)
Definition count_of (o : option Z) : Z := Z.max (default 0 o) 0.

Definition parse_anthropic_usage (from_value : J -> option AnthropicMessageUsage) (response : J)
    : option ParsedUsage :=
  usage ← jget response "usage";
  u ← from_value usage;
  Some (MkParsed (count_of (am_input u)) (count_of (am_output u)) (count_of (am_cache_creation u))
          (count_of (am_cache_read u)) (Some (observe_cache_read Anthropic response)) 0 (Some true)
          None None).

Definition parse_gemini_usage (response : J) : option ParsedUsage :=
  usage ← jget response "usageMetadata";
  let prompt := u64_at usage "promptTokenCount" in
  let cached := u64_at usage "cachedContentTokenCount" in
  let '(tokens_in, _) := split_prompt prompt cached in
  Some (MkParsed tokens_in (u64_at usage "candidatesTokenCount") 0 cached
          (Some (observe_cache_read Gemini response)) (u64_at usage "thoughtsTokenCount") (Some false)
          None None).

Definition parse_cohere_usage (response : J) : option ParsedUsage :=
  usage ← jget response "usage";
  let units := default usage (or_some (jget usage "billed_units") (jget usage "tokens")) in
  let tokens_in := u64_at units "input_tokens" in
  let tokens_out := u64_at units "output_tokens" in
  if (tokens_in =? 0) && (tokens_out =? 0) then None
  else Some (MkParsed tokens_in tokens_out 0 0 (Some (observe_cache_read Cohere response)) 0 (Some true)
               None None).

Definition parse_ollama_usage (response : J) : option ParsedUsage :=
  match jget response "prompt_eval_count", jget response "eval_count" with
  | None, None => None
  | _, _ =>
      Some (MkParsed (u64_at response "prompt_eval_count") (u64_at response "eval_count") 0 0
              (Some (observe_cache_read Ollama response)) 0 (Some true) None None)
  end.

(** The sum of the Titan results is a plain [u64] sum. *)
Definition parse_bedrock_usage (response : J) : option ParsedUsage :=
  let obs := Some (observe_cache_read Bedrock response) in
  match jget response "usage" with
  | Some usage =>
      Some (MkParsed (u64_at usage "input_tokens") (u64_at usage "output_tokens")
              (u64_at usage "cache_creation_input_tokens") (u64_at usage "cache_read_input_tokens")
              obs 0 (Some true) None None)
  | None =>
      match jget response "inputTextTokenCount" with
      | None => None
      | Some _ =>
          let out := match jget response "results" ≫= jas_array with
                     | Some r => foldl (fun a x => wadd a (u64_at x "tokenCount")) 0 r
                     | None => 0
                     end in
          Some (MkParsed (u64_at response "inputTextTokenCount") out 0 0 obs 0 (Some true) None None)
      end
  end.

Definition qualify_openai_stream_usage (event : J) : result StreamUsageError (option ParsedUsage) :=
  _ ← bail (negb (bool_decide (jget event "object" ≫= jas_str = Some "chat.completion.chunk"))
            || bool_decide (is_Some (jget event "error"))) InvalidChunk;
  choices ← ok_or (jget event "choices" ≫= jas_array) InvalidChunk;
  if match jget event "usage" with None => true | Some u => jis_null u end then Ok None
  else
    _ ← bail (match choices with [] => false | _ => true end) NonFinalUsage;
    _ ← map_err InvalidUsage (validate_openai_buffered_usage event);
    match parse_openai_usage event with
    | Some u => Ok (Some u)
    | None => Err (InvalidUsage MissingUsage)
    end.

(** The numeric parser and the field metadata of a response. *)
Record ObservedUsage := MkObserved {
  ob_usage : option ParsedUsage; ob_cache_obs : option CacheReadObservation }.

Definition observe_usage (from_value : J -> option AnthropicMessageUsage) (family : CacheReadFamily)
    (response : J) : ObservedUsage :=
  MkObserved
    (match family with
     | OpenAi => parse_openai_usage response
     | OpenAiResponses => parse_openai_responses_usage response
     | Anthropic => parse_anthropic_usage from_value response
     | Gemini => parse_gemini_usage response
     | Cohere => parse_cohere_usage response
     | Ollama => parse_ollama_usage response
     | Bedrock => parse_bedrock_usage response
     end) (Some (observe_cache_read family response)).
End Parse.

(** ** Observations of a stream, and coverage *)

Definition merge_cache_read_observation (current update : option CacheReadObservation)
    : option CacheReadObservation :=
  let current := current ≫= validated in
  match update ≫= validated with
  | Some u =>
      if negb (bool_decide (co_status u = Absent)) || bool_decide (current = None) then Some u else current
  | None => current
  end.

Definition resolve_cache_read_observation (o : option CacheReadObservation) (unsupported : bool)
    : option CacheReadObservation :=
  o ← o ≫= validated;
  Some (if unsupported && bool_decide (co_status o = Absent)
        then MkCacheObs Unsupported ExplicitCapability else o).

Record CacheReadCoverage := MkCoverage {
  cv_reported : Z; cv_absent : Z; cv_malformed : Z; cv_unsupported : Z; cv_unknown : Z }.

Definition coverage_unknown (calls : Z) : CacheReadCoverage := MkCoverage 0 0 0 0 calls.
Definition coverage_total (c : CacheReadCoverage) : Z :=
  sat_add (sat_add (sat_add (sat_add (cv_reported c) (cv_absent c)) (cv_malformed c))
    (cv_unsupported c)) (cv_unknown c).
Definition coverage_normalized (c : CacheReadCoverage) (calls : Z) : CacheReadCoverage :=
  let total :=
    n ← checked_add (cv_reported c) (cv_absent c);
    n ← checked_add n (cv_malformed c);
    n ← checked_add n (cv_unsupported c);
    checked_add n (cv_unknown c) in
  if bool_decide (total = Some calls) then c else coverage_unknown calls.

Definition coverage_add (c : CacheReadCoverage) (o : option CacheReadObservation) : CacheReadCoverage :=
  let '(MkCoverage r a m u k) := c in
  match co_status <$> (o ≫= validated) with
  | Some Reported => MkCoverage (sat_add r 1) a m u k
  | Some Absent => MkCoverage r (sat_add a 1) m u k
  | Some Malformed => MkCoverage r a (sat_add m 1) u k
  | Some Unsupported => MkCoverage r a m (sat_add u 1) k
  | None => MkCoverage r a m u (sat_add k 1)
  end.

Definition coverage_merge (c d : CacheReadCoverage) : CacheReadCoverage :=
  MkCoverage (sat_add (cv_reported c) (cv_reported d)) (sat_add (cv_absent c) (cv_absent d))
    (sat_add (cv_malformed c) (cv_malformed d)) (sat_add (cv_unsupported c) (cv_unsupported d))
    (sat_add (cv_unknown c) (cv_unknown d)).

(** ** Lemmas *)

Section ParseProps.
Context {J : Type} `{LawfulJson J}.

(** The assertion of [CacheReadObservation::origin] holds. *)
Lemma field_status_supported (v : J) path : field_status v path <> Unsupported.
Proof.
  revert v. induction path as [|k path IH]; intros v; simpl.
  - destruct (jas_u64 v) as [n|]; [|done]. by destruct (_ <=? _).
  - destruct (jis_object v); simpl; [|done]. destruct (jget v k); [apply IH|done].
Qed.

Lemma observe_never_panics family (response : J) :
  cache_obs_origin (cache_read_status family response) = Some (observe_cache_read family response).
Proof.
  unfold observe_cache_read.
  assert (Hs : cache_read_status family response <> Unsupported).
  { unfold cache_read_status. destruct family; try apply field_status_supported; try done.
    - destruct (jget response "usage" ≫= _); apply field_status_supported.
    - destruct (jget response "usage") as [u|]; [|done]. by destruct (negb (jis_object u)). }
  by destruct (cache_read_status family response).
Qed.

Definition plausible (z : Z) : Prop := 0 <= z <= MAX_PLAUSIBLE_TOKENS.

Lemma u64_at_plausible (v : J) k : plausible (u64_at v k).
Proof.
  unfold plausible, u64_at. destruct (jget v k ≫= jas_u64) as [n|] eqn:E; [|done].
  apply bind_Some in E as (x & _ & Hn). apply jas_u64_range in Hn. unfold in_u64 in Hn.
  destruct (Z.leb_spec n MAX_PLAUSIBLE_TOKENS); [lia|done].
Qed.

Lemma nested_u64_plausible (v : J) k c : plausible (nested_u64 v k c).
Proof. unfold nested_u64. destruct (jget v k); [apply u64_at_plausible|done]. Qed.

Lemma split_prompt_exact prompt cached :
  (split_prompt prompt cached).1 + cached = Z.max prompt cached.
Proof. unfold split_prompt. destruct (Z.ltb_spec prompt cached); simpl; lia. Qed.

(** A required field reads as the parser reads it. *)
Lemma required_ok (v : J) k f n :
  required v k f = Ok n -> jget v k ≫= jas_u64 = Some n /\ u64_at v k = n /\ 0 <= n <= MAX_PLAUSIBLE_TOKENS.
Proof.
  unfold required, u64_at. destruct (jget v k ≫= jas_u64) as [m|] eqn:E; [|done].
  destruct (m <=? MAX_PLAUSIBLE_TOKENS) eqn:Hm; [|done]. intros [= <-].
  apply bind_Some in E as (x & _ & Hn). apply jas_u64_range in Hn. unfold in_u64 in Hn.
  split; [done|]. split; [done|]. lia.
Qed.

Lemma optional_ok (v : J) k f o :
  optional v k f = Ok o ->
  match o with
  | None => jget v k = None
  | Some n => is_Some (jget v k) /\ jget v k ≫= jas_u64 = Some n /\ u64_at v k = n /\
              0 <= n <= MAX_PLAUSIBLE_TOKENS
  end.
Proof.
  unfold optional. destruct (jget v k) as [x|] eqn:E; [|by intros [= <-]]. intros Ho. inv_ok.
  match goal with Hx : required _ _ _ = _ |- _ => apply required_ok in Hx; rewrite E in Hx end.
  split; [by eexists|done].
Qed.

(** A details field reads as the parser reads it, null included. *)
Lemma details_ok (usage : J) k c f o :
  details usage k c f = Ok o ->
  nested_u64 usage k c = default 0 o /\
  match o with
  | None => True
  | Some n => 0 <= n <= MAX_PLAUSIBLE_TOKENS /\
      exists d, jget usage k = Some d /\ jis_object d = true /\ jget d c ≫= jas_u64 = Some n
  end.
Proof.
  unfold details, nested_u64. destruct (jget usage k) as [d|]; [|by intros [= <-]].
  destruct (jis_null d) eqn:Hnull.
  { intros [= <-]. split; [|done]. simpl. unfold u64_at. destruct (jget d c) as [x|] eqn:E; [|done].
    apply jget_object in E. apply jnull_object in Hnull. congruence. }
  destruct (jis_object d) eqn:Hobj; [|done]. intros Ho. apply optional_ok in Ho.
  destruct o as [n|]; simpl.
  - destruct Ho as (_ & Hg & Hu & Hr). split; [done|]. split; [done|]. by exists d.
  - split; [|done]. unfold u64_at. by rewrite Ho.
Qed.

(** What a validated usage object says. *)
Record validated_usage (response usage : J) (prompt completion : Z) (cached reasoning hit miss : option Z)
    : Prop := {
  vu_response : jis_object response = true;
  vu_usage : jget response "usage" = Some usage;
  vu_object : jis_object usage = true;
  vu_prompt : required usage "prompt_tokens" "prompt_tokens" = Ok prompt;
  vu_completion : required usage "completion_tokens" "completion_tokens" = Ok completion;
  vu_cached : details usage "prompt_tokens_details" "cached_tokens"
                "prompt_tokens_details.cached_tokens" = Ok cached;
  vu_reasoning : details usage "completion_tokens_details" "reasoning_tokens"
                   "completion_tokens_details.reasoning_tokens" = Ok reasoning;
  vu_hit : optional usage "prompt_cache_hit_tokens" "prompt_cache_hit_tokens" = Ok hit;
  vu_miss : optional usage "prompt_cache_miss_tokens" "prompt_cache_miss_tokens" = Ok miss;
  vu_consistent : inconsistent prompt completion cached reasoning hit miss = false;
  vu_total : forall t, jget usage "total_tokens" = Some t ->
               exists n, jas_u64 t = Some n /\ checked_add prompt completion = Some n }.

Lemma validate_ok (response : J) :
  validate_openai_buffered_usage response = Ok tt ->
  exists usage prompt completion cached reasoning hit miss,
    validated_usage response usage prompt completion cached reasoning hit miss.
Proof.
  unfold validate_openai_buffered_usage. intros Hv.
  apply result_bind_ok in Hv as ([] & Hr%bail_ok & Hv).
  apply result_bind_ok in Hv as (usage & Hu%ok_or_ok & Hv).
  apply result_bind_ok in Hv as ([] & Ho%bail_ok & Hv).
  apply result_bind_ok in Hv as (prompt & Hp & Hv). apply result_bind_ok in Hv as (completion & Hc & Hv).
  apply result_bind_ok in Hv as (cached & Hca & Hv). apply result_bind_ok in Hv as (reasoning & Hre & Hv).
  apply result_bind_ok in Hv as (hit & Hh & Hv). apply result_bind_ok in Hv as (miss & Hm & Hv).
  apply result_bind_ok in Hv as ([] & Hi%bail_ok & Hv). bools.
  exists usage, prompt, completion, cached, reasoning, hit, miss. split; try done.
  intros t Ht. rewrite Ht in Hv. apply result_bind_ok in Hv as (n & Hn%ok_or_ok & Hb%bail_ok).
  bools. apply bool_decide_eq_true in Hb. by exists n.
Qed.

Lemma validated_reasoning response usage prompt completion cached reasoning hit miss :
  validated_usage response usage prompt completion cached reasoning hit miss ->
  0 <= nested_u64 usage "completion_tokens_details" "reasoning_tokens" <= completion.
Proof.
  intros Hv. destruct (details_ok _ _ _ _ _ (vu_reasoning _ _ _ _ _ _ _ _ Hv)) as [-> Hr].
  pose proof (vu_consistent _ _ _ _ _ _ _ _ Hv) as Hi. unfold inconsistent in Hi. bools.
  destruct (required_ok _ _ _ _ (vu_completion _ _ _ _ _ _ _ _ Hv)) as (_ & _ & ?).
  destruct reasoning as [n|]; simpl in *; lia.
Qed.

(** The cache split the parser takes from a validated object. *)
Lemma validated_split response usage prompt completion cached reasoning hit miss u :
  validated_usage response usage prompt completion cached reasoning hit miss ->
  parse_openai_usage response = Some u ->
  0 <= pu_tokens_in u /\ 0 <= pu_cache_read u /\ pu_tokens_in u + pu_cache_read u = prompt /\
  pu_cache_read u = default (default 0 cached) hit.
Proof.
  intros Hv Hp. unfold parse_openai_usage in Hp. rewrite (vu_usage _ _ _ _ _ _ _ _ Hv) in Hp. simpl in Hp.
  destruct (required_ok _ _ _ _ (vu_prompt _ _ _ _ _ _ _ _ Hv)) as (_ & Hpr & Hb).
  pose proof (vu_consistent _ _ _ _ _ _ _ _ Hv) as Hi. unfold inconsistent in Hi. bools.
  pose proof (optional_ok _ _ _ _ (vu_hit _ _ _ _ _ _ _ _ Hv)) as Hh.
  pose proof (optional_ok _ _ _ _ (vu_miss _ _ _ _ _ _ _ _ Hv)) as Hm.
  destruct (details_ok _ _ _ _ _ (vu_cached _ _ _ _ _ _ _ _ Hv)) as [Hca Hcr].
  destruct hit as [h|].
  - destruct Hh as ([x Hx] & _ & Hu & Hr). rewrite Hx, Hu in Hp. injection Hp as <-. simpl in *.
    destruct miss as [n|].
    + destruct Hm as ([y Hy] & _ & Hum & Hrm). rewrite Hy, Hum. simpl in *. bools.
      match goal with Hx : bool_decide _ = true |- _ => apply bool_decide_eq_true in Hx; rename Hx into Hadd end.
      unfold checked_add in Hadd. destruct (h + n <=? u64_max); [|done]. injection Hadd as <-.
      split; [lia|]. split; [lia|]. split; [lia|done].
    + rewrite Hm, Hpr. unfold sat_sub. split; [lia|]. split; [lia|]. split; [lia|done].
  - rewrite Hh, Hpr, Hca in Hp. unfold split_prompt in Hp.
    destruct cached as [n|]; simpl in *.
    + destruct (prompt <? n) eqn:E; [lia|]. injection Hp as <-. simpl.
      split; [lia|]. split; [lia|]. split; [lia|done].
    + destruct (prompt <? 0) eqn:E; [lia|]. injection Hp as <-. simpl.
      split; [lia|]. split; [lia|]. split; [lia|done].
Qed.

(** A non-zero cache read is a reported one. *)
Lemma validated_cache_reported response usage prompt completion cached reasoning hit miss :
  validated_usage response usage prompt completion cached reasoning hit miss ->
  default (default 0 cached) hit <> 0 -> cache_read_status OpenAi response = Reported.
Proof.
  intros [Hr Hu Ho _ _ Hca _ Hh _ _ _] Hne. unfold cache_read_status. rewrite Hu. simpl.
  apply optional_ok in Hh. apply details_ok in Hca as [_ Hca]. destruct hit as [h|]; simpl in Hne.
  - destruct Hh as ([x Hx] & Hg & _ & Hb). rewrite Hx in *. simpl in Hg.
    rewrite Hr, Hu, Ho, Hx. simpl. rewrite Hg. by rewrite (proj2 (Z.leb_le h _)) by lia.
  - rewrite Hh. destruct cached as [n|]; [|done]. destruct Hca as (Hb & d & Hd & Hobj & Hg).
    rewrite Hr, Hu. simpl. rewrite Ho, Hd. simpl. rewrite Hobj. simpl.
    destruct (jget d "cached_tokens") as [y|]; [|done]. simpl in Hg. rewrite Hg.
    by rewrite (proj2 (Z.leb_le n _)) by lia.
Qed.

(** ** Properties *)

(** A qualified stream usage conserves the provider's totals.  When
    an event qualifies, its fresh input and cache reads are exactly the
    reported prompt tokens, its output the reported completion tokens, the
    reasoning is part of the output, a non-zero cache read was reported
    as such, a reported total is the sum of both, and the neutral charge
    of the measurement is that sum: no token is lost or billed twice by
    the cache split, in either of the two dialects. *)
Theorem qualified_usage_conserves_totals (event : J) (u : ParsedUsage) :
  qualify_openai_stream_usage event = Ok (Some u) ->
  exists usage prompt completion,
    jget event "usage" = Some usage /\
    jget usage "prompt_tokens" ≫= jas_u64 = Some prompt /\
    jget usage "completion_tokens" ≫= jas_u64 = Some completion /\
    pu_tokens_in u + pu_cache_read u = prompt /\ pu_tokens_out u = completion /\
    0 <= pu_reasoning u <= completion /\
    (pu_cache_read u <> 0 -> pu_cache_obs u = Some (MkCacheObs Reported OriginUsage)) /\
    (forall t, jget usage "total_tokens" = Some t -> jas_u64 t = Some (prompt + completion)) /\
    billable (parsed_usage u) = prompt + completion.
Proof.
  unfold qualify_openai_stream_usage. intros Hq.
  apply result_bind_ok in Hq as ([] & _ & Hq). apply result_bind_ok in Hq as (choices & _ & Hq).
  destruct (match jget event "usage" with None => true | Some u => jis_null u end); [done|].
  apply result_bind_ok in Hq as ([] & _ & Hq). apply result_bind_ok in Hq as ([] & Hv%map_err_ok & Hq).
  destruct (parse_openai_usage event) as [u'|] eqn:Hp; [|done]. injection Hq as ->.
  apply validate_ok in Hv as (usage & prompt & completion & cached & reasoning & hit & miss & Hv).
  destruct (validated_split _ _ _ _ _ _ _ _ _ Hv Hp) as (H1 & H2 & H3 & H4).
  pose proof (validated_reasoning _ _ _ _ _ _ _ _ Hv) as Hre.
  destruct (required_ok _ _ _ _ (vu_prompt _ _ _ _ _ _ _ _ Hv)) as (Hpr & _ & Hbp).
  destruct (required_ok _ _ _ _ (vu_completion _ _ _ _ _ _ _ _ Hv)) as (Hco & Hcu & Hbc).
  assert (Hu : pu_tokens_out u = completion /\ pu_cache_creation u = 0 /\
    pu_reasoning u = nested_u64 usage "completion_tokens_details" "reasoning_tokens" /\
    pu_reasoning_included u = Some true /\ pu_cache_obs u = Some (observe_cache_read OpenAi event)).
  { unfold parse_openai_usage in Hp. rewrite (vu_usage _ _ _ _ _ _ _ _ Hv) in Hp. simpl in Hp.
    rewrite Hcu in Hp. destruct (jget usage "prompt_cache_hit_tokens"); [by injection Hp as <-|].
    destruct (split_prompt _ _). by injection Hp as <-. }
  destruct Hu as (Ho & Hcr & Hr & Hinc & Hobs). rewrite <- Hr in Hre.
  exists usage, prompt, completion. repeat split; try done; try lia.
  - apply (vu_usage _ _ _ _ _ _ _ _ Hv).
  - intros Hne. rewrite Hobs. unfold observe_cache_read. do 2 f_equal.
    eapply validated_cache_reported; [exact Hv|]. by rewrite <- H4.
  - intros t Ht. destruct (vu_total _ _ _ _ _ _ _ _ Hv t Ht) as (n & Hn & Hadd).
    unfold checked_add in Hadd. destruct (_ <=? _); [|done]. congruence.
  - assert (Hmax : MAX_PLAUSIBLE_TOKENS * 2 <= u64_max) by done.
    rewrite billable_exact; simpl.
    + rewrite Hinc, Hcr. simpl. lia.
    + split; simpl; unfold in_u64; [lia..|]. unfold nonzero. destruct (0 <? pu_reasoning u); simpl; lia.
Qed.

(** The range of the generated model's fields. *)
Definition anthropic_ok (a : AnthropicMessageUsage) : Prop :=
  forall o, o ∈ [am_cache_creation a; am_cache_read a; am_input a; am_output a] ->
    default 0 o <= i64_max.

Lemma count_of_range o : default 0 o <= i64_max -> 0 <= count_of o <= i64_max.
Proof. unfold count_of. unfold i64_max. lia. Qed.

Lemma titan_sum_range (r : list J) : forall a, in_u64 a ->
  in_u64 (foldl (fun a x => wadd a (u64_at x "tokenCount")) a r).
Proof. induction r as [|x r IH]; intros a Ha; simpl; [done|]. apply IH, wadd_in_u64. Qed.

(** Plausible counts, and the convention for reasoning is explicit. *)
Record parsed_ok (family : CacheReadFamily) (u : ParsedUsage) : Prop := {
  pk_usage : usage_ok (parsed_usage u);
  pk_reasoning : is_Some (pu_reasoning_included u) /\ plausible (pu_reasoning u);
  pk_input : family <> Anthropic ->
    plausible (pu_tokens_in u) /\ plausible (pu_cache_creation u) /\ plausible (pu_cache_read u);
  pk_output : family <> Anthropic -> family <> Bedrock -> plausible (pu_tokens_out u) }.

Lemma parsed_plausible family i o c r obs rs inc d t :
  plausible i -> in_u64 o -> plausible c -> plausible r -> plausible rs ->
  (family <> Bedrock -> plausible o) -> parsed_ok family (MkParsed i o c r obs rs (Some inc) d t).
Proof.
  unfold plausible. intros. assert (MAX_PLAUSIBLE_TOKENS <= u64_max) by done.
  split; simpl.
  - split; simpl; unfold in_u64 in *; try lia. unfold nonzero. destruct (0 <? rs); simpl; lia.
  - eauto.
  - auto.
  - auto.
Qed.

Lemma split_plausible prompt cached :
  plausible prompt -> plausible cached -> plausible (split_prompt prompt cached).1.
Proof. unfold plausible, split_prompt. destruct (prompt <? cached) eqn:E; simpl; lia. Qed.

Lemma plausible_u64 z : plausible z -> in_u64 z.
Proof. unfold plausible, in_u64. assert (MAX_PLAUSIBLE_TOKENS <= u64_max) by done. lia. Qed.

Hint Resolve u64_at_plausible nested_u64_plausible split_plausible plausible_u64 : core.

(** Every parser measures in range.  Whatever the response, the
    counts of a parsed usage are [u64] and its reasoning convention is
    explicit; every count of every family but Anthropic's generated model
    is at most the plausible ceiling, an absurd field reading as zero
    (the Titan output is a sum of such fields). *)
Theorem parsers_measure_in_range (from_value : J -> option AnthropicMessageUsage)
    (family : CacheReadFamily) (response : J) (u : ParsedUsage) :
  (forall v a, from_value v = Some a -> anthropic_ok a) ->
  ob_usage (observe_usage from_value family response) = Some u -> parsed_ok family u.
Proof.
  intros Hfv. assert (Hz : plausible 0) by done. destruct family; simpl; intros Hp.
  - unfold parse_openai_usage in Hp. destruct (jget response "usage") as [v|]; simpl in Hp; [|done].
    destruct (jget v "prompt_cache_hit_tokens").
    + injection Hp as <-. apply parsed_plausible; auto. destruct (jget v "prompt_cache_miss_tokens"); auto.
      pose proof (u64_at_plausible v "prompt_tokens"). pose proof (u64_at_plausible v "prompt_cache_hit_tokens").
      unfold plausible, sat_sub in *. lia.
    + destruct (split_prompt _ _) as [i b] eqn:Es. injection Hp as <-. apply parsed_plausible; auto.
      change i with (i, b).1. rewrite <- Es. auto.
  - unfold parse_openai_responses_usage in Hp. destruct (jget response "usage") as [v|]; simpl in Hp; [|done].
    destruct (split_prompt _ _) as [i b] eqn:Es. injection Hp as <-. apply parsed_plausible; auto.
    change i with (i, b).1. rewrite <- Es. auto.
  - unfold parse_anthropic_usage in Hp. destruct (jget response "usage") as [v|]; simpl in Hp; [|done].
    destruct (from_value v) as [a|] eqn:Ha; simpl in Hp; [|done]. injection Hp as <-. apply Hfv in Ha.
    assert (Hc : forall o, o ∈ [am_cache_creation a; am_cache_read a; am_input a; am_output a] ->
      0 <= count_of o <= i64_max) by (intros; apply count_of_range; auto).
    assert (Hm : i64_max <= u64_max) by done. split; simpl; [|eauto|done|done].
    split; simpl; unfold in_u64; [| | | |done];
      match goal with |- _ <= count_of ?o <= _ => assert (0 <= count_of o <= i64_max); [apply Hc; set_solver|lia] end.
  - unfold parse_gemini_usage in Hp. destruct (jget response "usageMetadata") as [v|]; simpl in Hp; [|done].
    destruct (split_prompt _ _) as [i b] eqn:Es. injection Hp as <-. apply parsed_plausible; auto.
    change i with (i, b).1. rewrite <- Es. auto.
  - unfold parse_cohere_usage in Hp. destruct (jget response "usage") as [v|]; simpl in Hp; [|done].
    destruct (_ && _); [done|]. injection Hp as <-. apply parsed_plausible; auto.
  - unfold parse_ollama_usage in Hp.
    destruct (jget response "prompt_eval_count"), (jget response "eval_count"); try done; injection Hp as <-;
      apply parsed_plausible; auto.
  - unfold parse_bedrock_usage in Hp. destruct (jget response "usage") as [v|].
    + injection Hp as <-. apply parsed_plausible; auto.
    + destruct (jget response "inputTextTokenCount"); [|done]. injection Hp as <-.
      apply parsed_plausible; auto; [|done]. destruct (jget response "results" ≫= jas_array); [|done].
      by apply titan_sum_range.
Qed.
End ParseProps.

(** The counters of a coverage are [u64]. *)
Definition coverage_ok (c : CacheReadCoverage) : Prop :=
  in_u64 (cv_reported c) /\ in_u64 (cv_absent c) /\ in_u64 (cv_malformed c) /\
  in_u64 (cv_unsupported c) /\ in_u64 (cv_unknown c).

Definition coverage_of (os : list (option CacheReadObservation)) : CacheReadCoverage :=
  foldl coverage_add (coverage_unknown 0) os.

Lemma checked_add_exact a b n : checked_add a b = Some n -> n = a + b /\ a + b <= u64_max.
Proof. unfold checked_add. destruct (Z.leb_spec (a + b) u64_max); [|done]. intros [= <-]. done. Qed.

Lemma coverage_add_ok c o : coverage_ok c -> coverage_ok (coverage_add c o).
Proof.
  destruct c. unfold coverage_ok. simpl. intros (? & ? & ? & ? & ?).
  destruct (co_status <$> (o ≫= validated)) as [[]|]; simpl; repeat split; ulia.
Qed.

Lemma coverage_add_merge c d o :
  coverage_ok c -> coverage_ok d -> coverage_merge c (coverage_add d o) = coverage_add (coverage_merge c d) o.
Proof.
  destruct c, d. unfold coverage_ok, coverage_merge. simpl. intros (? & ? & ? & ? & ?) (? & ? & ? & ? & ?).
  destruct (co_status <$> (o ≫= validated)) as [[]|]; simpl; f_equal; ulia.
Qed.

Lemma coverage_fold_ok os : forall c, coverage_ok c -> coverage_ok (foldl coverage_add c os).
Proof. induction os; intros; simpl; eauto using coverage_add_ok. Qed.

Lemma coverage_fold_merge os : forall c d, coverage_ok c -> coverage_ok d ->
  coverage_merge c (foldl coverage_add d os) = foldl coverage_add (coverage_merge c d) os.
Proof.
  induction os as [|o os IH]; intros c d Hc Hd; simpl; [done|].
  rewrite IH by auto using coverage_add_ok. by rewrite coverage_add_merge.
Qed.

Lemma coverage_total_add c o :
  coverage_ok c -> coverage_total (coverage_add c o) = sat_add (coverage_total c) 1.
Proof.
  destruct c. unfold coverage_ok, coverage_total. simpl. intros (? & ? & ? & ? & ?).
  destruct (co_status <$> (o ≫= validated)) as [[]|]; simpl; ulia.
Qed.

(** Coverage counts exactly the calls of the aggregate.  The coverage
    of a population is the merge of the coverages of its two parts,
    however it was split; its total is the number of calls, saturating;
    and a normalized coverage, even an external one that is malformed or
    overflows, always totals the calls it is reported for. *)
Theorem coverage_counts_calls (xs ys : list (option CacheReadObservation)) (c : CacheReadCoverage) (calls : Z) :
  in_u64 calls -> coverage_ok c ->
  coverage_of (xs ++ ys) = coverage_merge (coverage_of xs) (coverage_of ys) /\
  coverage_total (coverage_of xs) = Z.min (Z.of_nat (length xs)) u64_max /\
  coverage_total (coverage_normalized c calls) = calls.
Proof.
  intros Hcalls Hc. assert (H0 : coverage_ok (coverage_unknown 0)) by (repeat split; done).
  split; [|split].
  - unfold coverage_of at 3. rewrite coverage_fold_merge by (unfold coverage_of; auto using coverage_fold_ok).
    unfold coverage_of at 1. rewrite foldl_app. f_equal.
    change (coverage_of xs = coverage_merge (coverage_of xs) (coverage_unknown 0)).
    pose proof (coverage_fold_ok xs _ H0) as Hx. fold (coverage_of xs) in Hx.
    destruct (coverage_of xs). unfold coverage_ok, coverage_merge in *. simpl in *. f_equal; ulia.
  - unfold coverage_of. assert (Hg : forall c, coverage_ok c ->
      coverage_total (foldl coverage_add c xs) = Z.min (coverage_total c + Z.of_nat (length xs)) u64_max).
    { induction xs as [|o xs IH]; intros c' Hc'; simpl.
      - destruct c', Hc' as (? & ? & ? & ? & ?). unfold coverage_total. simpl in *. ulia.
      - rewrite IH by auto using coverage_add_ok. rewrite coverage_total_add by done. ulia. }
    by rewrite Hg.
  - unfold coverage_normalized. case_bool_decide as Ht.
    + repeat (apply bind_Some in Ht as (? & Hn & Ht); apply checked_add_exact in Hn as [-> ?]).
      apply checked_add_exact in Ht as [-> ?]. destruct c, Hc as (? & ? & ? & ? & ?).
      unfold coverage_total, sat_add, in_u64 in *. simpl in *. lia.
    + unfold coverage_total, coverage_unknown. simpl. ulia.
Qed.

(** ** Witnesses *)

(** A final event in the hit/miss dialect, with a total. *)
Definition demo_final (usage : list (string * Json)) : Json :=
  JObject [("object", JString "chat.completion.chunk"); ("choices", JArray []); ("usage", JObject usage)].
Definition demo_hits : list (string * Json) :=
  [("prompt_tokens", JNumber 100); ("completion_tokens", JNumber 40); ("total_tokens", JNumber 140);
   ("prompt_cache_hit_tokens", JNumber 60); ("prompt_cache_miss_tokens", JNumber 40);
   ("completion_tokens_details", JObject [("reasoning_tokens", JNumber 30)])].
Definition demo_parsed : ParsedUsage :=
  MkParsed 40 40 0 60 (Some (MkCacheObs Reported OriginUsage)) 30 (Some true) None None.

Lemma qualified_usage_conserves_totals_witness :
  qualify_openai_stream_usage (demo_final demo_hits) = Ok (Some demo_parsed) /\
  billable (parsed_usage demo_parsed) = 140.
Proof.
  split; [vm_compute; reflexivity|].
  destruct (qualified_usage_conserves_totals (demo_final demo_hits) demo_parsed)
    as (usage & p & c & Hu & Hp & Hc & _ & _ & _ & _ & _ & Hb); [vm_compute; reflexivity|].
  rewrite Hb. injection Hu as <-. injection Hp as <-. injection Hc as <-. reflexivity.
Defined.

(** A Gemini response whose cached count is absurd. *)
Definition demo_gemini : Json :=
  JObject [("usageMetadata", JObject [("promptTokenCount", JNumber 12);
    ("cachedContentTokenCount", JNumber 60000000000); ("candidatesTokenCount", JNumber 7)])].

Lemma parsers_measure_in_range_witness :
  exists u, ob_usage (observe_usage (fun _ => None) Gemini demo_gemini) = Some u /\
    pu_cache_read u = 0 /\ parsed_ok Gemini u.
Proof.
  eexists. split; [vm_compute; reflexivity|]. split; [reflexivity|].
  apply (parsers_measure_in_range (fun _ => None) Gemini demo_gemini); [done|vm_compute; reflexivity].
Defined.

Lemma coverage_counts_calls_witness :
  coverage_total (coverage_normalized (MkCoverage 1 2 0 0 u64_max) 9) = 9 /\
  coverage_of [None; Some (MkCacheObs Absent OriginUsage)] =
    coverage_merge (coverage_of [None]) (coverage_of [Some (MkCacheObs Absent OriginUsage)]).
Proof.
  destruct (coverage_counts_calls [None] [Some (MkCacheObs Absent OriginUsage)] (MkCoverage 1 2 0 0 u64_max) 9)
    as (H1 & _ & H3); [by vm_compute|by vm_compute|].
  split; [exact H3|exact H1].
Defined.
