(* ===== verification/LineSplit.v ===== *)
(** [crates/sandhi-providers/src/linesplit.rs]: the newline splitter both
    streaming planes share.  A byte is a [Z]; an index into the buffer is a
    [nat], its range being that of the buffer.  The counters of the test
    build are kept, so that the linear cost is a theorem. *)

From S2P Require Import Prelude.

Definition LF : Z := 10.
Definition CR : Z := 13.

Record LineSplitter := MkSplitter {
  ls_buf : list Z; ls_consumed : nat; ls_searched_to : nat; ls_budget : Z; ls_sse : bool;
  ls_skip_lf : bool; ls_scanned : nat; ls_compacted : nat }.

Definition splitter_new (budget : Z) : LineSplitter := MkSplitter [] 0 0 budget false false 0 0.
Definition new_sse (budget : Z) : LineSplitter := MkSplitter [] 0 0 budget true false 0 0.

Definition splitter_push (l : LineSplitter) (chunk : list Z) : LineSplitter :=
  MkSplitter (ls_buf l ++ chunk) (ls_consumed l) (ls_searched_to l) (ls_budget l) (ls_sse l)
    (ls_skip_lf l) (ls_scanned l) (ls_compacted l).

Definition compact_if_worthwhile (l : LineSplitter) : LineSplitter :=
  if bool_decide (4096 <= ls_consumed l)%nat && bool_decide (length (ls_buf l) <= ls_consumed l * 2)%nat
  then MkSplitter (drop (ls_consumed l) (ls_buf l)) 0 (ls_searched_to l - ls_consumed l) (ls_budget l)
         (ls_sse l) (ls_skip_lf l) (ls_scanned l)
         (ls_compacted l + (length (ls_buf l) - ls_consumed l))
  else l.

(** [iter().position(..)]. *)
Fixpoint position (p : Z -> bool) (bs : list Z) : option nat :=
  match bs with
  | [] => None
  | b :: bs => if p b then Some 0%nat else S <$> position p bs
  end.

Definition terminator (sse : bool) (b : Z) : bool := (b =? LF) || (sse && (b =? CR)).

(** The LF of a CRLF whose CR ended the last line. *)
Definition skip_pending_lf (l : LineSplitter) : LineSplitter :=
  if ls_skip_lf l && bool_decide (ls_consumed l < length (ls_buf l))%nat then
    let l :=
      if default 0 (ls_buf l !! ls_consumed l) =? LF
      then MkSplitter (ls_buf l) (S (ls_consumed l)) (S (ls_consumed l)) (ls_budget l) (ls_sse l) true
             (S (ls_scanned l)) (ls_compacted l)
      else l in
    compact_if_worthwhile
      (MkSplitter (ls_buf l) (ls_consumed l) (ls_searched_to l) (ls_budget l) (ls_sse l) false
         (ls_scanned l) (ls_compacted l))
  else l.

Definition next_line (l : LineSplitter) : option (list Z) * LineSplitter :=
  let l := skip_pending_lf l in
  if bool_decide (length (ls_buf l) <= ls_searched_to l)%nat then (None, l)
  else
    match position (terminator (ls_sse l)) (drop (ls_searched_to l) (ls_buf l)) with
    | Some rel =>
        let newline := (ls_searched_to l + rel)%nat in
        let skip := ls_sse l && (default 0 (ls_buf l !! newline) =? CR) in
        let line := take (S newline - ls_consumed l) (drop (ls_consumed l) (ls_buf l)) in
        (Some line,
         compact_if_worthwhile
           (MkSplitter (ls_buf l) (S newline) (S newline) (ls_budget l) (ls_sse l) skip
              (ls_scanned l + S rel) (ls_compacted l)))
    | None =>
        (None, MkSplitter (ls_buf l) (ls_consumed l) (length (ls_buf l)) (ls_budget l) (ls_sse l)
                 (ls_skip_lf l) (ls_scanned l + (length (ls_buf l) - ls_searched_to l)) (ls_compacted l))
    end.

Definition over_budget (l : LineSplitter) : bool :=
  ls_budget l <? Z.of_nat (length (ls_buf l) - ls_consumed l).

Definition splitter_reset (l : LineSplitter) : LineSplitter :=
  MkSplitter [] 0 0 (ls_budget l) (ls_sse l) false (ls_scanned l) (ls_compacted l).

Definition remainder (l : LineSplitter) : list Z := drop (ls_consumed l) (ls_buf l).

Definition flush_newline (l : LineSplitter) : bool * LineSplitter :=
  let len := length (ls_buf l) in
  let set_searched n buf :=
    MkSplitter buf (ls_consumed l) n (ls_budget l) (ls_sse l) (ls_skip_lf l) (ls_scanned l)
      (ls_compacted l) in
  let flush l :=
    if bool_decide (len <= ls_consumed l)%nat then (false, l)
    else (true, set_searched len (ls_buf l ++ [LF])) in
  if bool_decide (ls_searched_to l < len)%nat then
    match position (fun b => b =? LF) (drop (ls_searched_to l) (ls_buf l)) with
    | Some _ => (true, l)
    | None => flush (set_searched len (ls_buf l))
    end
  else flush l.

Definition work_done (l : LineSplitter) : nat := ls_scanned l + ls_compacted l.

(** [while let Some(line) = next_line()]; one line takes a byte at least, so
    the fuel of [drain] suffices ([drain_exhausts]). *)
Fixpoint drain_fuel (n : nat) (l : LineSplitter) : list (list Z) * LineSplitter :=
  match n with
  | O => ([], l)
  | S n =>
      match next_line l with
      | (None, l) => ([], l)
      | (Some line, l) => let '(lines, l) := drain_fuel n l in (line :: lines, l)
      end
  end.
Definition drain (l : LineSplitter) : list (list Z) * LineSplitter :=
  drain_fuel (S (length (remainder l))) l.

(** A stream arrives in chunks; each is pushed and its lines drained. *)
Fixpoint feed (l : LineSplitter) (chunks : list (list Z)) : list (list Z) * LineSplitter :=
  match chunks with
  | [] => ([], l)
  | c :: chunks =>
      let '(lines, l) := drain (splitter_push l c) in
      let '(lines', l) := feed l chunks in (lines ++ lines', l)
  end.

(** ** The reference: one pass over the bytes *)

(** The lines of [bs] when [acc] is pending, the pending bytes left, and
    whether an LF is still to be skipped. *)
Fixpoint split_ref (sse skip : bool) (acc bs : list Z) : list (list Z) * (list Z * bool) :=
  match bs with
  | [] => ([], (acc, skip))
  | b :: bs =>
      if skip && (b =? LF) then split_ref sse false acc bs
      else if terminator sse b
      then let '(lines, st) := split_ref sse (sse && (b =? CR)) [] bs in ((acc ++ [b]) :: lines, st)
      else split_ref sse false (acc ++ [b]) bs
  end.

Definition plain (sse : bool) (bs : list Z) : Prop := Forall (fun b => terminator sse b = false) bs.

Lemma terminator_lf sse : terminator sse LF = true.
Proof. done. Qed.

Lemma split_ref_app sse xs : forall skip acc ys,
  split_ref sse skip acc (xs ++ ys) =
  let '(l1, (acc1, skip1)) := split_ref sse skip acc xs in
  let '(l2, st) := split_ref sse skip1 acc1 ys in (l1 ++ l2, st).
Proof.
  induction xs as [|b xs IH]; intros skip acc ys; simpl.
  { by destruct (split_ref sse skip acc ys). }
  destruct (skip && (b =? LF)); [apply IH|]. destruct (terminator sse b); [|apply IH].
  rewrite IH. destruct (split_ref sse (sse && (b =? CR)) [] xs) as [l1 [acc1 skip1]].
  by destruct (split_ref sse skip1 acc1 ys).
Qed.

(** Bytes without a terminator only accumulate. *)
Lemma split_ref_plain sse xs : forall acc ys,
  plain sse xs -> split_ref sse false acc (xs ++ ys) = split_ref sse false (acc ++ xs) ys.
Proof.
  induction xs as [|b xs IH]; intros acc ys Hp; simpl; [by rewrite app_nil_r|].
  apply Forall_cons in Hp as [Hb Hp]. rewrite Hb, IH by done. by rewrite <- app_assoc.
Qed.

(** Pending bytes may be given either as pending or as input. *)
Lemma split_ref_pending sse acc ys :
  plain sse acc -> split_ref sse false acc ys = split_ref sse false [] (acc ++ ys).
Proof. intros Hp. by rewrite split_ref_plain. Qed.

(** ** The invariant *)

(** After [n] bytes were pushed, of which [r] were reclaimed by
    compactions: everything before [searched_to] was examined once and
    holds no terminator, and compaction moved at most the reclaimed
    bytes. *)
Record splitter_inv (l : LineSplitter) (n : nat) : Prop := {
  si_consumed : (ls_consumed l <= ls_searched_to l)%nat;
  si_searched : (ls_searched_to l <= length (ls_buf l))%nat;
  si_plain : plain (ls_sse l) (take (ls_searched_to l - ls_consumed l) (remainder l));
  si_skip : ls_skip_lf l = true -> ls_searched_to l = ls_consumed l;
  si_cost : exists r, (r + length (ls_buf l) = n)%nat /\ (ls_scanned l = r + ls_searched_to l)%nat /\
              (ls_compacted l <= r)%nat }.

(** What the reference makes of the pending bytes. *)
Definition pending_ref (l : LineSplitter) : list (list Z) * (list Z * bool) :=
  split_ref (ls_sse l) (ls_skip_lf l) [] (remainder l).

(** Two states with the same future. *)
Definition same_view (l l' : LineSplitter) : Prop :=
  remainder l' = remainder l /\ ls_sse l' = ls_sse l /\ ls_skip_lf l' = ls_skip_lf l /\
  ls_budget l' = ls_budget l.

Lemma compact_view l : same_view l (compact_if_worthwhile l).
Proof.
  unfold compact_if_worthwhile, same_view, remainder. destruct (_ && _); simpl; [|done].
  by rewrite drop_0.
Qed.

Lemma compact_inv l n : splitter_inv l n -> splitter_inv (compact_if_worthwhile l) n.
Proof.
  intros [Hc Hs Hp Hk (r & Hr & Hsc & Hco)]. unfold compact_if_worthwhile.
  destruct (bool_decide_reflect (4096 <= ls_consumed l)%nat); simpl; [|by split; eauto].
  destruct (bool_decide_reflect (length (ls_buf l) <= ls_consumed l * 2)%nat) as [Hle|]; simpl; [|by split; eauto].
  split; unfold remainder in *; simpl.
  - lia.
  - rewrite length_drop. lia.
  - by rewrite drop_0, Nat.sub_0_r.
  - intros Hsk. rewrite (Hk Hsk). lia.
  - exists (r + ls_consumed l)%nat. rewrite length_drop. split; [lia|]. split; lia.
Qed.

Lemma skip_pending_spec l n :
  splitter_inv l n ->
  let l' := skip_pending_lf l in
  splitter_inv l' n /\ pending_ref l' = pending_ref l /\ ls_sse l' = ls_sse l /\ ls_budget l' = ls_budget l /\
  (ls_skip_lf l' = true -> remainder l' = []) /\ (length (remainder l') <= length (remainder l))%nat.
Proof.
  intros Hi. unfold skip_pending_lf. destruct (ls_skip_lf l) eqn:Hk; simpl.
  2: { split_and!; done || congruence. }
  destruct (bool_decide_reflect (ls_consumed l < length (ls_buf l))%nat) as [Hlt|Hge].
  2: { split_and!; try done. intros _. unfold remainder. apply drop_ge. lia. }
  destruct Hi as [Hc Hs Hp Hsk (r & Hr & Hsc & Hco)]. specialize (Hsk Hk).
  destruct (lookup_lt_is_Some_2 (ls_buf l) (ls_consumed l)) as [b Hb]; [done|]. rewrite Hb. simpl.
  assert (Hrem : remainder l = b :: drop (S (ls_consumed l)) (ls_buf l)) by (unfold remainder; by erewrite drop_S).
  set (l1 := MkSplitter _ _ _ _ _ false _ _).
  assert (Hi1 : splitter_inv l1 n /\ pending_ref l1 = pending_ref l /\
                (length (remainder l1) <= length (remainder l))%nat /\ ls_sse l1 = ls_sse l /\ ls_budget l1 = ls_budget l).
  { unfold l1. destruct (b =? LF) eqn:Elf; simpl.
    - split; [|split; [|split; [|done]]].
      + split; simpl; [lia|lia| |done|exists r; lia]. rewrite Nat.sub_diag. constructor.
      + unfold pending_ref. rewrite Hrem, Hk. simpl. by rewrite Elf.
      + rewrite Hrem. unfold remainder. simpl. lia.
    - split; [|split; [|split; [|done]]].
      + split; simpl; [lia|lia|done|done|exists r; lia].
      + unfold pending_ref, remainder. simpl. fold (remainder l). rewrite Hrem, Hk. simpl. by rewrite Elf.
      + done. }
  destruct Hi1 as (Hi1 & Href & Hlen & Hsse & Hbud). destruct (compact_view l1) as (Hv1 & Hv2 & Hv3 & Hv4).
  split; [by apply compact_inv|]. split; [|split; [congruence|split; [congruence|split]]].
  - rewrite <- Href. unfold pending_ref. by rewrite Hv1, Hv2, Hv3.
  - rewrite Hv3. done.
  - by rewrite Hv1.
Qed.

Lemma position_some p bs k :
  position p bs = Some k -> Forall (fun b => p b = false) (take k bs) /\ exists b, bs !! k = Some b /\ p b = true.
Proof.
  revert k. induction bs as [|b bs IH]; intros k Hk; simpl in *; [done|].
  destruct (p b) eqn:Hb; [injection Hk as <-; split; [constructor|by exists b]|].
  destruct (position p bs) as [j|]; [|done]. injection Hk as <-. destruct (IH j eq_refl) as [H1 H2].
  split; [by constructor|done].
Qed.

Lemma position_none p bs : position p bs = None -> Forall (fun b => p b = false) bs.
Proof.
  induction bs as [|b bs IH]; simpl; intros Hk; [constructor|]. destruct (p b) eqn:Hb; [done|].
  destruct (position p bs); [done|]. constructor; auto.
Qed.

(** The bytes up to a terminator found by the search. *)
Lemma search_line l n rel :
  splitter_inv l n -> position (terminator (ls_sse l)) (drop (ls_searched_to l) (ls_buf l)) = Some rel ->
  let newline := (ls_searched_to l + rel)%nat in
  exists b, ls_buf l !! newline = Some b /\ terminator (ls_sse l) b = true /\
    plain (ls_sse l) (take (newline - ls_consumed l) (remainder l)) /\
    take (S newline - ls_consumed l) (remainder l) = take (newline - ls_consumed l) (remainder l) ++ [b] /\
    remainder l = take (newline - ls_consumed l) (remainder l) ++ b :: drop (S newline) (ls_buf l).
Proof.
  intros [Hc Hs Hp _ _] (Hmid & b & Hb & Ht)%position_some newline. rewrite lookup_drop in Hb.
  fold newline in Hb. exists b.
  assert (Hr : remainder l !! (newline - ls_consumed l)%nat = Some b).
  { unfold remainder. rewrite lookup_drop. rewrite <- Hb. f_equal. lia. }
  split; [done|]. split; [done|]. split; [|split].
  - replace (newline - ls_consumed l)%nat with ((ls_searched_to l - ls_consumed l) + rel)%nat by lia.
    rewrite <- take_take_drop. apply Forall_app. split; [done|].
    unfold remainder. rewrite drop_drop. by replace (_ + _)%nat with (ls_searched_to l) by lia.
  - replace (S newline - ls_consumed l)%nat with (S (newline - ls_consumed l)) by lia. by apply take_S_r.
  - rewrite <- (take_drop (newline - ls_consumed l) (remainder l)) at 1. f_equal.
    unfold remainder. rewrite drop_drop. replace (_ + _)%nat with newline by lia. by apply drop_S.
Qed.

Lemma next_line_spec l n :
  splitter_inv l n ->
  let '(r, l') := next_line l in
  splitter_inv l' n /\ ls_sse l' = ls_sse l /\ ls_budget l' = ls_budget l /\
  match r with
  | Some line => pending_ref l = (line :: (pending_ref l').1, (pending_ref l').2) /\
                 (length (remainder l') < length (remainder l))%nat
  | None => pending_ref l = ([], (remainder l', ls_skip_lf l')) /\ plain (ls_sse l') (remainder l') /\
            (ls_skip_lf l' = true -> remainder l' = [])
  end.
Proof.
  intros Hi0. destruct (skip_pending_spec l n Hi0) as (Hi & <- & <- & <- & Hk & Hlen).
  unfold next_line. set (l1 := skip_pending_lf l) in *. clearbody l1. clear Hi0.
  pose proof Hi as [Hc Hs Hp Hsk (r & Hr & Hsc & Hco)].
  destruct (bool_decide_reflect (length (ls_buf l1) <= ls_searched_to l1)%nat) as [Hge|Hlt].
  { split_and!; try done.
    - rewrite take_ge in Hp by (unfold remainder; rewrite length_drop; lia). unfold pending_ref.
      destruct (ls_skip_lf l1); [by rewrite Hk by done|].
      rewrite <- (app_nil_r (remainder l1)) at 1. by rewrite split_ref_plain.
    - by rewrite take_ge in Hp by (unfold remainder; rewrite length_drop; lia). }
  assert (Hfalse : ls_skip_lf l1 = false).
  { destruct (ls_skip_lf l1); [|done]. specialize (Hk eq_refl). unfold remainder in Hk.
    apply (f_equal length) in Hk. rewrite length_drop in Hk. simpl in Hk. lia. }
  destruct (position _ _) as [rel|] eqn:Hpos.
  - destruct (search_line l1 n rel Hi Hpos) as (b & Hb & Hterm & Hpl & Hline & Hrem). rewrite Hb. simpl.
    fold (remainder l1). rewrite Hline. set (newline := (ls_searched_to l1 + rel)%nat) in *.
    set (l2 := MkSplitter _ _ _ _ _ _ _ _). destruct (compact_view l2) as (Hv1 & Hv2 & Hv3 & Hv4).
    assert (Hbl : (newline < length (ls_buf l1))%nat) by (by eapply lookup_lt_Some).
    assert (Hi2 : splitter_inv l2 n).
    { split; simpl; [lia|lia| |done|exists r; lia]. rewrite Nat.sub_diag. constructor. }
    split_and!; try done.
    + by apply compact_inv.
    + set (line0 := take (newline - ls_consumed l1) (remainder l1)) in *. clearbody line0.
      unfold pending_ref. rewrite Hv1, Hv2, Hv3, Hfalse, Hrem. unfold l2, remainder. simpl.
      rewrite split_ref_plain by done. simpl. rewrite Hterm. by destruct (split_ref _ _ _ _).
    + rewrite Hv1. unfold l2, remainder in *. simpl. rewrite !length_drop in *. lia.
  - apply position_none in Hpos.
    assert (Hall : plain (ls_sse l1) (remainder l1)).
    { rewrite <- (take_drop (ls_searched_to l1 - ls_consumed l1) (remainder l1)). apply Forall_app. split; [done|].
      unfold remainder. rewrite drop_drop. by replace (_ + _)%nat with (ls_searched_to l1) by lia. }
    split_and!; try done.
    + split; unfold remainder; simpl; [lia|done| |congruence|exists r; lia]. by apply Forall_take.
    + unfold pending_ref, remainder. simpl. fold (remainder l1). rewrite Hfalse.
      rewrite <- (app_nil_r (remainder l1)) at 1. by rewrite split_ref_plain.
Qed.

Lemma drain_fuel_spec k : forall l n,
  splitter_inv l n -> (length (remainder l) < k)%nat ->
  let '(lines, l') := drain_fuel k l in
  splitter_inv l' n /\ ls_sse l' = ls_sse l /\ ls_budget l' = ls_budget l /\
  pending_ref l = (lines, (remainder l', ls_skip_lf l')) /\ plain (ls_sse l') (remainder l') /\
  (ls_skip_lf l' = true -> remainder l' = []).
Proof.
  induction k as [|k IH]; intros l n Hi Hk; [lia|]. simpl.
  pose proof (next_line_spec l n Hi) as Hn. destruct (next_line l) as [[line|] l1].
  - destruct Hn as (Hi1 & Hs1 & Hb1 & Hr & Hlen). specialize (IH l1 n Hi1 ltac:(lia)).
    destruct (drain_fuel k l1) as [lines l2]. destruct IH as (Hi2 & Hs2 & Hb2 & Hr2 & Hp2 & Hk2).
    rewrite Hr2 in Hr. split_and!; done || congruence.
  - destruct Hn as (Hi1 & Hs1 & Hb1 & Hr & Hp & Hk1). by split_and!.
Qed.

Lemma push_inv l n c : splitter_inv l n -> splitter_inv (splitter_push l c) (n + length c).
Proof.
  intros [Hc Hs Hp Hk (r & Hr & Hsc & Hco)]. unfold splitter_push, remainder.
  split; simpl; [done|rewrite length_app; lia| |done|exists r; rewrite length_app; lia].
  unfold remainder. simpl. rewrite drop_app_le by lia. rewrite take_app_le; [done|]. rewrite length_drop. lia.
Qed.

Lemma push_remainder l n c : splitter_inv l n -> remainder (splitter_push l c) = remainder l ++ c.
Proof. intros [Hc Hs _ _ _]. unfold remainder. simpl. apply drop_app_le. lia. Qed.

Lemma feed_spec chunks : forall l n,
  splitter_inv l n -> plain (ls_sse l) (remainder l) -> (ls_skip_lf l = true -> remainder l = []) ->
  let '(lines, l') := feed l chunks in
  splitter_inv l' (n + length (concat chunks)) /\
  split_ref (ls_sse l) (ls_skip_lf l) (remainder l) (concat chunks) = (lines, (remainder l', ls_skip_lf l')).
Proof.
  induction chunks as [|c chunks IH]; intros l n Hi Hp Hk; simpl; [by rewrite Nat.add_0_r|].
  pose proof (push_inv l n c Hi) as Hpi. unfold drain.
  pose proof (drain_fuel_spec _ (splitter_push l c) _ Hpi (Nat.lt_succ_diag_r _)) as Hd.
  destruct (drain_fuel _ _) as [lines l1]. destruct Hd as (Hi1 & Hs1 & _ & Hr1 & Hp1 & Hk1).
  specialize (IH l1 _ Hi1 Hp1 Hk1). destruct (feed l1 chunks) as [lines' l2]. destruct IH as [Hi2 Hr2].
  rewrite length_app, Nat.add_assoc. split; [done|]. rewrite split_ref_app.
  assert (Hc : split_ref (ls_sse l) (ls_skip_lf l) (remainder l) c = (lines, (remainder l1, ls_skip_lf l1))).
  { rewrite <- Hr1. unfold pending_ref. simpl. rewrite (push_remainder l n) by done.
    destruct (ls_skip_lf l) eqn:Hsk; [by rewrite Hk by done|]. by apply split_ref_pending. }
  rewrite Hc. simpl in Hs1. rewrite Hs1 in Hr2. by rewrite Hr2.
Qed.

(** The shape of the reference's lines, and that it drops nothing but the
    LF of a CRLF. *)
Definition is_line (sse : bool) (line : list Z) : Prop :=
  exists body b, line = body ++ [b] /\ plain sse body /\ terminator sse b = true.

Lemma split_ref_lines sse bs : forall skip acc,
  plain sse acc -> Forall (is_line sse) (split_ref sse skip acc bs).1 /\ plain sse (split_ref sse skip acc bs).2.1.
Proof.
  induction bs as [|b bs IH]; intros skip acc Hp; simpl; [by split; [constructor|]|].
  destruct (skip && (b =? LF)); [by apply IH|]. destruct (terminator sse b) eqn:Ht.
  - destruct (IH (sse && (b =? CR)) [] ltac:(constructor)) as [H1 H2].
    destruct (split_ref sse (sse && (b =? CR)) [] bs) as [lines [rest k]]. simpl in *.
    split; [|done]. constructor; [|done]. by exists acc, b.
  - apply IH. apply Forall_app. by split; [|constructor].
Qed.

Lemma split_ref_lossless bs : forall acc,
  let '(lines, (rest, _)) := split_ref false false acc bs in concat lines ++ rest = acc ++ bs.
Proof.
  induction bs as [|b bs IH]; intros acc; simpl; [by rewrite app_nil_r|].
  destruct (terminator false b).
  - specialize (IH []). destruct (split_ref false false [] bs) as [lines [rest k]]. simpl in *.
    by rewrite <- !app_assoc, IH.
  - specialize (IH (acc ++ [b])). destruct (split_ref false false (acc ++ [b]) bs) as [lines [rest k]].
    by rewrite IH, <- app_assoc.
Qed.

(** The splitter is exact and linear.  However a stream is cut into
    chunks, the lines drained and the bytes left pending are those of one
    pass over the whole stream; every line ends in its only terminator;
    without SSE framing no byte is lost; and the bytes examined and moved
    are at most twice the bytes received. *)
Theorem splitter_is_chunk_invariant (sse : bool) (budget : Z) (chunks : list (list Z)) :
  let '(lines, l) := feed (if sse then new_sse budget else splitter_new budget) chunks in
  split_ref sse false [] (concat chunks) = (lines, (remainder l, ls_skip_lf l)) /\
  Forall (is_line sse) lines /\ plain sse (remainder l) /\
  (sse = false -> concat lines ++ remainder l = concat chunks) /\
  (work_done l <= 2 * length (concat chunks))%nat.
Proof.
  set (l0 := if sse then new_sse budget else splitter_new budget).
  assert (Hi : splitter_inv l0 0) by (destruct sse; split; simpl; try done; try constructor; exists 0%nat; done).
  assert (Hsse : ls_sse l0 = sse) by (by destruct sse).
  pose proof (feed_spec chunks l0 0 Hi) as Hf. rewrite Hsse in Hf.
  assert (H0 : remainder l0 = [] /\ ls_skip_lf l0 = false) by (by destruct sse).
  destruct H0 as [Hr0 Hk0]. rewrite Hr0, Hk0 in Hf.
  specialize (Hf ltac:(constructor) ltac:(done)). destruct (feed l0 chunks) as [lines l].
  destruct Hf as [[_ Hs _ _ (r & Hr & Hsc & Hco)] Href].
  destruct (split_ref_lines sse (concat chunks) false [] ltac:(constructor)) as [H1 H2].
  rewrite Href in H1, H2. split_and!; try done.
  - intros ->. pose proof (split_ref_lossless (concat chunks) []) as Hl. by rewrite Href in Hl.
  - unfold work_done. simpl in Hr. lia.
Qed.
