(* ===== verification/Text.v ===== *)
(** Text as the standard library handles it: a string is its UTF-8 bytes.
    [str::trim], [to_ascii_lowercase], [eq_ignore_ascii_case] and the
    prefix functions, with the lemmas the parsers of short names need. *)

From S2P Require Import Prelude.

(** The bytes of a string, and back. *)
Definition bytes (s : string) : list Z := (fun c => Z.of_nat (nat_of_ascii c)) <$> String.list_ascii_of_string s.
Definition string_of (bs : list Z) : string :=
  String.string_of_list_ascii ((fun b => ascii_of_nat (Z.to_nat b)) <$> bs).

Lemma string_of_bytes s : string_of (bytes s) = s.
Proof.
  unfold string_of, bytes.
  rewrite <- (String.string_of_list_ascii_of_string s) at 2. f_equal.
  induction (String.list_ascii_of_string s) as [|c l IH]; [done|].
  rewrite !fmap_cons, IH. by rewrite Nat2Z.id, ascii_nat_embedding.
Qed.

Lemma bytes_inj s t : bytes s = bytes t -> s = t.
Proof. intros H. by rewrite <- (string_of_bytes s), H, string_of_bytes. Qed.

Lemma bytes_app s t : bytes (s +:+ t) = bytes s ++ bytes t.
Proof.
  unfold bytes. rewrite <- fmap_app. f_equal. induction s as [|c s IH]; simpl; [done|]. by rewrite IH.
Qed.

(** [strip_prefix] and [starts_with]. *)
Fixpoint strip_prefix (p s : list Z) : option (list Z) :=
  match p, s with
  | [], _ => Some s
  | a :: p, b :: s => if a =? b then strip_prefix p s else None
  | _ :: _, [] => None
  end.
Definition starts_with (p s : list Z) : bool :=
  match strip_prefix p s with Some _ => true | None => false end.

Lemma strip_prefix_app p s : strip_prefix p (p ++ s) = Some s.
Proof. induction p as [|a p IH]; simpl; [done|]. by rewrite Z.eqb_refl. Qed.

Lemma strip_prefix_length p : forall s r, strip_prefix p s = Some r -> (length r <= length s)%nat.
Proof.
  induction p as [|a p IH]; intros [|b s] r; simpl; try done; try (intros [= <-]; done).
  destruct (a =? b); [|done]. intros Hr%IH. lia.
Qed.

(** ASCII case folding. *)
Definition ascii_lower (b : Z) : Z := if (65 <=? b) && (b <=? 90) then b + 32 else b.
Definition to_ascii_lowercase (bs : list Z) : list Z := ascii_lower <$> bs.
Definition eq_ignore_ascii_case (a b : list Z) : bool :=
  bool_decide (to_ascii_lowercase a = to_ascii_lowercase b).

(** The White_Space characters of one, two and three bytes. *)
Definition ws1 (b : Z) : bool := ((9 <=? b) && (b <=? 13)) || (b =? 32).
Definition ws2 (b c : Z) : bool := (b =? 194) && ((c =? 133) || (c =? 160)).
Definition ws3 (b c d : Z) : bool :=
  ((b =? 225) && (c =? 154) && (d =? 128))
  || ((b =? 226) && (c =? 128)
      && (((128 <=? d) && (d <=? 138)) || (d =? 168) || (d =? 169) || (d =? 175)))
  || ((b =? 226) && (c =? 129) && (d =? 159))
  || ((b =? 227) && (c =? 128) && (d =? 128)).

(** Drop leading characters; [rev] says the bytes come last first. *)
Fixpoint trim_front (rev : bool) (s : list Z) : list Z :=
  match s with
  | [] => []
  | b :: r =>
      if ws1 b then trim_front rev r
      else match r with
      | [] => s
      | c :: r1 =>
          if if rev then ws2 c b else ws2 b c then trim_front rev r1
          else match r1 with
          | [] => s
          | d :: r2 => if if rev then ws3 d c b else ws3 b c d then trim_front rev r2 else s
          end
      end
  end.

Definition trim_start (s : list Z) : list Z := trim_front false s.
Definition trim_end (s : list Z) : list Z := reverse (trim_front true (reverse s)).
Definition trim (s : list Z) : list Z := trim_end (trim_start s).

(** A text that starts with no white space. *)
Definition fresh_front (rev : bool) (s : list Z) : bool :=
  match s with
  | [] => true
  | b :: r =>
      negb (ws1 b)
      && match r with
         | [] => true
         | c :: r1 =>
             negb (if rev then ws2 c b else ws2 b c)
             && match r1 with
                | [] => true
                | d :: _ => negb (if rev then ws3 d c b else ws3 b c d)
                end
         end
  end.

Lemma trim_front_fixed rev s : fresh_front rev s = true -> trim_front rev s = s.
Proof.
  destruct s as [|b [|c [|d r]]]; simpl; intros Hf; bools; [done|..].
  - by destruct (ws1 b).
  - destruct (ws1 b); [done|]. by destruct (if rev then ws2 c b else ws2 b c).
  - destruct (ws1 b); [done|]. destruct (if rev then ws2 c b else ws2 b c); [done|].
    by destruct (if rev then ws3 d c b else ws3 b c d).
Qed.

(** Induction on the length, for the functions that drop several bytes. *)
Lemma bytes_ind (P : list Z -> Prop) :
  (forall s, (forall s', (length s' < length s)%nat -> P s') -> P s) -> forall s, P s.
Proof.
  intros Hs s. assert (Hg : forall n s, (length s < n)%nat -> P s); [|by apply (Hg (S (length s))); lia].
  induction n as [|n IH]; intros s0 Hn; [lia|]. apply Hs. intros s' Hlt. apply IH. lia.
Qed.

Lemma trim_front_fresh rev s : fresh_front rev (trim_front rev s) = true.
Proof.
  induction s as [s IH] using bytes_ind. destruct s as [|b [|c [|d r]]]; simpl; [done|..].
  - destruct (ws1 b) eqn:E1; [done|]. simpl. by rewrite E1.
  - destruct (ws1 b) eqn:E1; [exact (IH [c] ltac:(simpl; lia))|].
    destruct (if rev then ws2 c b else ws2 b c) eqn:E2; [done|]. simpl. by rewrite E1, E2.
  - destruct (ws1 b) eqn:E1; [exact (IH (c :: d :: r) ltac:(simpl; lia))|].
    destruct (if rev then ws2 c b else ws2 b c) eqn:E2; [exact (IH (d :: r) ltac:(simpl; lia))|].
    destruct (if rev then ws3 d c b else ws3 b c d) eqn:E3; [exact (IH r ltac:(simpl; lia))|].
    simpl. by rewrite E1, E2, E3.
Qed.

Lemma trim_fixed s : fresh_front false s = true -> fresh_front true (reverse s) = true -> trim s = s.
Proof.
  intros H1 H2. unfold trim, trim_end, trim_start. rewrite (trim_front_fixed _ _ H1), (trim_front_fixed _ _ H2).
  apply reverse_involutive.
Qed.

Lemma trim_end_fresh s : fresh_front true (reverse (trim s)) = true.
Proof. unfold trim, trim_end. rewrite reverse_involutive. apply trim_front_fresh. Qed.

(** A printable ASCII byte is part of no white space. *)
Definition printable (b : Z) : bool := (33 <=? b) && (b <=? 126).

Lemma printable_ws b : printable b = true ->
  ws1 b = false /\ (forall c, ws2 b c = false /\ ws2 c b = false) /\
  (forall c d, ws3 b c d = false /\ ws3 c b d = false /\ ws3 c d b = false).
Proof. unfold printable, ws1, ws2, ws3. intros Hp. split; [lia|]. split; intros; split_and!; lia. Qed.

(** Trimming keeps a printable prefix before a trimmed, non-empty text. *)
Lemma trim_prefixed p s :
  p <> [] -> forallb printable p = true -> trim s <> [] -> trim (p ++ trim s) = p ++ trim s.
Proof.
  intros Hp Hall Hs. apply trim_fixed.
  - destruct p as [|b p]; [done|]. simpl in Hall. apply andb_true_iff in Hall as [Hb _].
    destruct (printable_ws b Hb) as (H1 & H2 & H3). simpl. rewrite H1. simpl.
    destruct (p ++ trim s) as [|c [|d r]]; simpl; [done|..].
    + by destruct (H2 c) as [-> _].
    + destruct (H2 c) as [-> _]. simpl. by destruct (H3 c d) as [-> _].
  - rewrite reverse_app. pose proof (trim_end_fresh s) as Hf.
    assert (Hne : reverse (trim s) <> []).
    { intros He. apply Hs. rewrite <- (reverse_involutive (trim s)), He. done. }
    destruct (reverse p) as [|b q] eqn:Hrp; [by rewrite app_nil_r|].
    assert (Hb : printable b = true).
    { apply forallb_forall with (x := b) in Hall; [done|]. apply list_elem_of_In, elem_of_reverse. rewrite Hrp. by left. }
    destruct (printable_ws b Hb) as (_ & H2 & H3).
    destruct (reverse (trim s)) as [|x [|y [|z r]]]; [done|..]; simpl in *; bools.
    + split_and?. rewrite H. simpl. destruct (H2 x) as [-> _]. simpl. destruct q as [|c q]; [done|].
      by destruct (H3 c x) as (_ & -> & _).
    + rewrite H, H0. simpl. by destruct (H3 y x) as [-> _].
    + by rewrite H, H0, H1.
Qed.

(** Trimming removes bytes at the ends and is idempotent. *)
Lemma trim_front_suffix rev s : exists p, s = p ++ trim_front rev s.
Proof.
  induction s as [s IH] using bytes_ind. destruct s as [|b [|c [|d r]]]; simpl.
  - by exists [].
  - destruct (ws1 b); [by exists [b]|by exists []].
  - destruct (ws1 b).
    { destruct (IH [c] ltac:(simpl; lia)) as [p Hp]. exists (b :: p). simpl in *. by rewrite <- Hp. }
    destruct (if rev then _ else _); [by exists [b; c]|by exists []].
  - destruct (ws1 b).
    { destruct (IH (c :: d :: r) ltac:(simpl; lia)) as [p Hp]. exists (b :: p). simpl in *. by rewrite <- Hp. }
    destruct (if rev then ws2 c b else ws2 b c).
    { destruct (IH (d :: r) ltac:(simpl; lia)) as [p Hp]. exists (b :: c :: p). simpl in *. by rewrite <- Hp. }
    destruct (if rev then ws3 d c b else ws3 b c d); [|by exists []].
    destruct (IH r ltac:(simpl; lia)) as [p Hp]. exists (b :: c :: d :: p). simpl in *. by rewrite <- Hp.
Qed.

Lemma trim_end_prefix s : exists q, s = trim_end s ++ q.
Proof.
  unfold trim_end. destruct (trim_front_suffix true (reverse s)) as [p Hp]. exists (reverse p).
  rewrite <- reverse_app, <- Hp. by rewrite reverse_involutive.
Qed.

Lemma fresh_prefix s q : fresh_front false (s ++ q) = true -> fresh_front false s = true.
Proof.
  destruct s as [|b [|c [|d r]]]; simpl; rewrite ?andb_true_iff, ?andb_true_r; [done|tauto| |done].
  intros (H1 & H2 & _). by rewrite H1, H2.
Qed.

Lemma trim_idem s : trim (trim s) = trim s.
Proof.
  apply trim_fixed; [|apply trim_end_fresh]. unfold trim.
  destruct (trim_end_prefix (trim_start s)) as [q Hq]. apply (fresh_prefix _ q). rewrite <- Hq. apply trim_front_fresh.
Qed.

Lemma trim_Forall P s : Forall P s -> Forall P (trim s).
Proof.
  intros Hs. unfold trim, trim_start. destruct (trim_front_suffix false s) as [p Hp].
  destruct (trim_end_prefix (trim_front false s)) as [q Hq]. rewrite Hp, Hq in Hs.
  by apply Forall_app in Hs as [_ [Hs _]%Forall_app].
Qed.

(** Bytes survive the passage through a string. *)
Definition is_byte (b : Z) : Prop := 0 <= b < 256.
Lemma bytes_are_bytes s : Forall is_byte (bytes s).
Proof.
  unfold bytes. apply Forall_forall. intros b (c & -> & _)%list_elem_of_fmap. unfold is_byte.
  pose proof (nat_ascii_bounded c). lia.
Qed.
Lemma bytes_string_of bs : Forall is_byte bs -> bytes (string_of bs) = bs.
Proof.
  intros Hb. unfold bytes, string_of. rewrite String.list_ascii_of_string_of_list_ascii.
  induction Hb as [|b bs Hb _ IH]; [done|]. unfold is_byte in Hb. rewrite !fmap_cons, IH.
  rewrite nat_ascii_embedding by lia. by rewrite Z2Nat.id by lia.
Qed.

(** [str::split] by a predicate. *)
Fixpoint split_on (p : Z -> bool) (cs : list Z) : list (list Z) :=
  match cs with
  | [] => [[]]
  | c :: cs =>
      match split_on p cs with
      | w :: ws => if p c then [] :: w :: ws else (c :: w) :: ws
      | [] => [[]]
      end
  end.
