(* ===== verification/StreamUsage.v ===== *)
(** [crates/sandhi-providers/src/stream_usage.rs]: the observer that takes
    the usage of an OpenAI chat stream from complete, bounded SSE events,
    over the splitter of [LineSplit] and the qualification of
    [UsageParse].  The JSON decoder is a parameter. *)

From S2P Require Import Prelude Text Usage Json UsageParse LineSplit.

Definition INPUT_SLICE_BYTES : nat := Z.to_nat 8192.
Definition MAX_STREAM_LINE_BYTES : Z := 8 * 1024 * 1024.

Inductive StreamObservationError :=
| LineTooLong | EventTooLong | InvalidUtf8 | InvalidJson | UnexpectedEventType | UnexpectedBom
| InvalidStreamUsage (e : StreamUsageError) | ConflictingUsage | TruncatedEvent | MissingTerminator
| DataAfterTerminator | ObserverClosed.

(** The fields of the observer but its splitter. *)
Record ObState := MkObState {
  ob_limit : Z; ob_first_line : bool; ob_event_bytes : Z; ob_data : list Z; ob_has_data : bool;
  ob_message_event : bool; ob_usage_seen : option ParsedUsage; ob_error : option StreamObservationError;
  ob_done : bool; ob_closed : bool }.
Record Observer := MkObserver { ob_splitter : LineSplitter; ob_state : ObState }.

Definition with_limit (limit : Z) : Observer :=
  MkObserver (new_sse limit) (MkObState limit true 0 [] false true None None false false).
Definition observer_new : Observer := with_limit MAX_STREAM_LINE_BYTES.

(** ** Bytes as text *)

Definition BOM : list Z := [239; 187; 191].
Definition COLON : Z := 58.
Definition SPACE : Z := 32.

(** [std::str::from_utf8] accepts exactly the well-formed sequences of the
    Unicode standard (table 3-7). *)
Definition between (lo hi b : Z) : bool := (lo <=? b) && (b <=? hi).
Fixpoint utf8_valid (bs : list Z) : bool :=
  match bs with
  | [] => true
  | b :: r =>
      if b <=? 127 then utf8_valid r
      else match r with
      | c1 :: r1 =>
          if between 194 223 b then between 128 191 c1 && utf8_valid r1
          else match r1 with
          | c2 :: r2 =>
              if b =? 224 then between 160 191 c1 && between 128 191 c2 && utf8_valid r2
              else if between 225 236 b || between 238 239 b
              then between 128 191 c1 && between 128 191 c2 && utf8_valid r2
              else if b =? 237 then between 128 159 c1 && between 128 191 c2 && utf8_valid r2
              else match r2 with
              | c3 :: r3 =>
                  (if b =? 240 then between 144 191 c1
                   else if between 241 243 b then between 128 191 c1
                   else if b =? 244 then between 128 143 c1 else false)
                  && between 128 191 c2 && between 128 191 c3 && utf8_valid r3
              | [] => false
              end
          | [] => false
          end
      | [] => false
      end
  end.

(** [split_once(':').unwrap_or((content, ""))]. *)
Fixpoint split_field (content : list Z) : list Z * list Z :=
  match content with
  | [] => ([], [])
  | b :: rest => if b =? COLON then ([], rest) else let '(f, v) := split_field rest in (b :: f, v)
  end.

(** [chunk.chunks(INPUT_SLICE_BYTES)]; the fuel is the length of the chunk. *)
Fixpoint slices_fuel (n : nat) (chunk : list Z) : list (list Z) :=
  match n, chunk with
  | S n, _ :: _ => take INPUT_SLICE_BYTES chunk :: slices_fuel n (drop INPUT_SLICE_BYTES chunk)
  | _, _ => []
  end.
Definition slices (chunk : list Z) : list (list Z) := slices_fuel (length chunk) chunk.

(** ** The observer *)

Section Observer.
Context {J : Type} `{JsonValue J}.
Variable from_slice : list Z -> option J.

Definition set_usage (u : ParsedUsage) (s : ObState) : ObState :=
  MkObState (ob_limit s) (ob_first_line s) (ob_event_bytes s) (ob_data s) (ob_has_data s)
    (ob_message_event s) (Some u) (ob_error s) (ob_done s) (ob_closed s).
Definition set_done (s : ObState) : ObState :=
  MkObState (ob_limit s) (ob_first_line s) (ob_event_bytes s) (ob_data s) (ob_has_data s)
    (ob_message_event s) (ob_usage_seen s) (ob_error s) true (ob_closed s).

Definition ob_event (s : ObState) : result StreamObservationError unit * ObState :=
  if negb (ob_has_data s) then (Ok tt, s)
  else if ob_done s then (Err DataAfterTerminator, s)
  else if negb (ob_message_event s) then (Err UnexpectedEventType, s)
  else if bool_decide (ob_data s = bytes "[DONE]") then (Ok tt, set_done s)
  else match from_slice (ob_data s) with
  | None => (Err InvalidJson, s)
  | Some event =>
      match qualify_openai_stream_usage event with
      | Err e => (Err (InvalidStreamUsage e), s)
      | Ok None => (Ok tt, s)
      | Ok (Some next) =>
          match ob_usage_seen s with
          | None => (Ok tt, set_usage next s)
          | Some first => if bool_decide (first = next) then (Ok tt, s) else (Err ConflictingUsage, s)
          end
      end
  end.

(** The fields a line sets. *)
Definition set_line (first : bool) (event_bytes : Z) (s : ObState) : ObState :=
  MkObState (ob_limit s) first event_bytes (ob_data s) (ob_has_data s) (ob_message_event s)
    (ob_usage_seen s) (ob_error s) (ob_done s) (ob_closed s).
Definition set_event (event_bytes : Z) (data : list Z) (has_data message : bool) (s : ObState) : ObState :=
  MkObState (ob_limit s) (ob_first_line s) event_bytes data has_data message (ob_usage_seen s)
    (ob_error s) (ob_done s) (ob_closed s).

(** A non-empty line that is not a comment. *)
Definition ob_field (content : list Z) (s : ObState) : ObState :=
  let '(field, value) := split_field content in
  let value := default value (strip_prefix [SPACE] value) in
  if bool_decide (field = bytes "data") then
    set_event (ob_event_bytes s) ((if ob_has_data s then ob_data s ++ [LF] else ob_data s) ++ value) true
      (ob_message_event s) s
  else if bool_decide (field = bytes "event") then
    set_event (ob_event_bytes s) (ob_data s) (ob_has_data s)
      (bool_decide (value = []) || bool_decide (value = bytes "message")) s
  else s.

Definition ob_line (s : ObState) (line : list Z) : result StreamObservationError unit * ObState :=
  if ob_limit s <? Z.of_nat (length line) then (Err LineTooLong, s)
  else
    let s := set_line (ob_first_line s) (ob_event_bytes s + Z.of_nat (length line)) s in
    if ob_limit s <? ob_event_bytes s then (Err EventTooLong, s)
    else
      let content := take (length line - 1) line in
      let content := if ob_first_line s then default content (strip_prefix BOM content) else content in
      let s := set_line false (ob_event_bytes s) s in
      if starts_with BOM content then (Err UnexpectedBom, s)
      else if negb (utf8_valid content) then (Err InvalidUtf8, s)
      else match content with
      | [] =>
          match ob_event s with
          | (Err e, s) => (Err e, s)
          | (Ok _, s) => (Ok tt, set_event 0 [] false true s)
          end
      | b :: _ => (Ok tt, if b =? COLON then s else ob_field content s)
      end.

Definition ob_fail (o : Observer) (e : StreamObservationError) : result StreamObservationError unit * Observer :=
  let s := ob_state o in
  (Err e, MkObserver (splitter_reset (ob_splitter o))
     (MkObState (ob_limit s) (ob_first_line s) (ob_event_bytes s) [] (ob_has_data s) (ob_message_event s)
        (ob_usage_seen s) (Some e) (ob_done s) (ob_closed s))).

(** [while let Some(line) = next_line() { self.line(&line)? }]. *)
Fixpoint ob_pump (n : nat) (o : Observer) : result StreamObservationError unit * Observer :=
  match n with
  | O => (Ok tt, o)
  | S n =>
      match next_line (ob_splitter o) with
      | (None, l) => (Ok tt, MkObserver l (ob_state o))
      | (Some line, l) =>
          match ob_line (ob_state o) line with
          | (Ok _, s) => ob_pump n (MkObserver l s)
          | (Err e, s) => (Err e, MkObserver l s)
          end
      end
  end.

Fixpoint ob_parts (o : Observer) (parts : list (list Z)) : result StreamObservationError unit * Observer :=
  match parts with
  | [] => (Ok tt, o)
  | part :: parts =>
      let l := splitter_push (ob_splitter o) part in
      match ob_pump (S (length (remainder l))) (MkObserver l (ob_state o)) with
      | (Err e, o) => ob_fail o e
      | (Ok _, o) => if over_budget (ob_splitter o) then ob_fail o LineTooLong else ob_parts o parts
      end
  end.

Definition ob_push (o : Observer) (chunk : list Z) : result StreamObservationError unit * Observer :=
  match ob_error (ob_state o) with
  | Some e => (Err e, o)
  | None => if ob_closed (ob_state o) then (Err ObserverClosed, o) else ob_parts o (slices chunk)
  end.

Definition ob_finish (o : Observer) : result StreamObservationError unit * Observer :=
  let s := ob_state o in
  let o := MkObserver (ob_splitter o)
    (MkObState (ob_limit s) (ob_first_line s) (ob_event_bytes s) (ob_data s) (ob_has_data s)
       (ob_message_event s) (ob_usage_seen s) (ob_error s) (ob_done s) true) in
  match ob_error s with
  | Some e => (Err e, o)
  | None =>
      if negb (bool_decide (remainder (ob_splitter o) = [])) || negb (ob_event_bytes s =? 0)
      then ob_fail o TruncatedEvent
      else if negb (ob_done s) then ob_fail o MissingTerminator
      else (Ok tt, o)
  end.

(** A response arrives in chunks. *)
Definition observe (o : Observer) (chunks : list (list Z)) : Observer :=
  foldl (fun o c => (ob_push o c).2) o chunks.
End Observer.

(** ** The reference: one byte at a time *)

(** The observer's state with the pending bytes and the LF to skip. *)
Record ByteState := MkByteState { by_state : ObState; by_pending : list Z; by_skip : bool }.

Definition by_failed (s : ObState) (e : StreamObservationError) : ByteState :=
  MkByteState
    (MkObState (ob_limit s) (ob_first_line s) (ob_event_bytes s) [] (ob_has_data s) (ob_message_event s)
       (ob_usage_seen s) (Some e) (ob_done s) (ob_closed s)) [] false.

(** No byte is read any more. *)
Definition by_stopped (s : ObState) : bool :=
  match ob_error s with Some _ => true | None => ob_closed s end.

Section Reference.
Context {J : Type} `{JsonValue J}.
Variable from_slice : list Z -> option J.
#[local] Abbreviation line_ := (ob_line from_slice).

Definition byte_step (a : ByteState) (b : Z) : ByteState :=
  let s := by_state a in
  if by_stopped s then a
  else if by_skip a && (b =? LF) then MkByteState s (by_pending a) false
  else if terminator true b then
    match line_ s (by_pending a ++ [b]) with
    | (Ok _, s) => MkByteState s [] (b =? CR)
    | (Err e, s) => by_failed s e
    end
  else if ob_limit s <? Z.of_nat (length (by_pending a ++ [b])) then by_failed s LineTooLong
  else MkByteState s (by_pending a ++ [b]) false.

Definition ob_view (o : Observer) : ByteState :=
  MkByteState (ob_state o) (remainder (ob_splitter o)) (ls_skip_lf (ob_splitter o)).

(** The lines of a segment, then what stays pending. *)
Fixpoint by_lines (s : ObState) (lines : list (list Z)) (rest : list Z) (skip : bool) : ByteState :=
  match lines with
  | [] => if ob_limit s <? Z.of_nat (length rest) then by_failed s LineTooLong else MkByteState s rest skip
  | line :: lines =>
      match line_ s line with
      | (Ok _, s) => by_lines s lines rest skip
      | (Err e, s) => by_failed s e
      end
  end.

Lemma ob_event_keeps s r s' :
  ob_event from_slice s = (r, s') ->
  ob_limit s' = ob_limit s /\ ob_error s' = ob_error s /\ ob_closed s' = ob_closed s /\
  (forall u, ob_usage_seen s = Some u -> ob_usage_seen s' = Some u).
Proof.
  unfold ob_event. intros He. repeat case_match; simplify_eq; split_and!; done || (simpl; congruence).
Qed.

Lemma ob_field_keeps c s :
  ob_limit (ob_field c s) = ob_limit s /\ ob_error (ob_field c s) = ob_error s /\
  ob_closed (ob_field c s) = ob_closed s /\ ob_usage_seen (ob_field c s) = ob_usage_seen s /\
  ob_event_bytes (ob_field c s) = ob_event_bytes s.
Proof. unfold ob_field. destruct (split_field c) as [f v]. by repeat case_bool_decide. Qed.

(** A line keeps the limit, records no error and keeps an accepted usage. *)
Lemma ob_line_keeps s line r s' :
  line_ s line = (r, s') ->
  ob_limit s' = ob_limit s /\ ob_error s' = ob_error s /\ ob_closed s' = ob_closed s /\
  (forall u, ob_usage_seen s = Some u -> ob_usage_seen s' = Some u).
Proof.
  unfold ob_line. intros Hl. destruct (ob_limit s <? Z.of_nat (length line)); [by simplify_eq|].
  simpl in Hl. destruct (_ <? _); [by simplify_eq|].
  set (content := if ob_first_line s then _ else _) in Hl. clearbody content.
  destruct (starts_with BOM content); [by simplify_eq|].
  destruct (utf8_valid content); simpl in Hl; [|by simplify_eq].
  destruct content as [|b content].
  - destruct (ob_event from_slice _) as [[u|e] s1] eqn:He; apply ob_event_keeps in He as (? & ? & ? & ?);
      simplify_eq; simpl in *; auto.
  - simplify_eq. destruct (b =? COLON); [done|].
    match goal with |- context [ob_field ?c ?s] => destruct (ob_field_keeps c s) as (? & ? & ? & Hu & _) end.
    split_and!; try done. intros u Hs. by rewrite Hu.
Qed.

Lemma line_too_long s line :
  ob_limit s < Z.of_nat (length line) -> line_ s line = (Err LineTooLong, s).
Proof. intros Hl. unfold ob_line. by rewrite (proj2 (Z.ltb_lt _ _)) by done. Qed.

Lemma byte_fold_stopped bs : forall a, by_stopped (by_state a) = true -> foldl byte_step a bs = a.
Proof.
  induction bs as [|b bs IH]; intros a Hs; simpl; [done|].
  assert (byte_step a b = a) as -> by (unfold byte_step; by rewrite Hs). by apply IH.
Qed.

(** A pending line only grows until it ends. *)
Lemma split_ref_grows sse bs : forall skip acc lines rest k,
  split_ref sse skip acc bs = (lines, (rest, k)) ->
  match lines with
  | [] => (length acc <= length rest)%nat
  | line :: _ => (length acc < length line)%nat
  end.
Proof.
  induction bs as [|b bs IH]; intros skip acc lines rest k; simpl; [by intros [= <- <- <-]|].
  destruct (skip && (b =? LF)); [by apply IH|]. destruct (terminator sse b).
  - destruct (split_ref sse (sse && (b =? CR)) [] bs) as [l st]. intros [= <- ->]. rewrite length_app. simpl. lia.
  - intros Hs%IH. rewrite length_app in Hs. simpl in Hs. destruct lines; lia.
Qed.

(** Reading bytes is splitting them and running the lines. *)
Lemma byte_fold_lines bs : forall s acc skip,
  by_stopped s = false -> Z.of_nat (length acc) <= ob_limit s ->
  foldl byte_step (MkByteState s acc skip) bs =
  let '(lines, (rest, k)) := split_ref true skip acc bs in by_lines s lines rest k.
Proof.
  induction bs as [|b bs IH]; intros s acc skip Hs Hl; simpl.
  { by rewrite (proj2 (Z.ltb_ge _ _)) by lia. }
  unfold byte_step at 2. simpl. rewrite Hs. destruct (skip && (b =? LF)); [by apply IH|].
  destruct (terminator true b) eqn:Ht.
  - destruct (split_ref true (b =? CR) [] bs) as [lines [rest k]] eqn:Hr. simpl.
    destruct (line_ s (acc ++ [b])) as [[u|e] s1] eqn:Hline.
    + destruct (ob_line_keeps _ _ _ _ Hline) as (H1 & H2 & H3 & _).
      rewrite IH; [by rewrite Hr|unfold by_stopped in *; by rewrite H2, H3|simpl; rewrite H1; lia].
    + by apply byte_fold_stopped.
  - destruct (Z.ltb_spec (ob_limit s) (Z.of_nat (length (acc ++ [b])))) as [Hlong|Hshort].
    + rewrite byte_fold_stopped by done.
      destruct (split_ref true false (acc ++ [b]) bs) as [lines [rest k]] eqn:Hr.
      apply split_ref_grows in Hr. destruct lines as [|line lines]; simpl.
      * by rewrite (proj2 (Z.ltb_lt _ _)) by lia.
      * by rewrite line_too_long by lia.
    + by apply IH.
Qed.
End Reference.

(** ** Refinement *)

Section Refinement.
Context {J : Type} `{JsonValue J}.
Variable from_slice : list Z -> option J.
#[local] Abbreviation line_ := (ob_line from_slice).

(** What holds of an observer that still reads. *)
Record ob_inv (o : Observer) : Prop := {
  oi_splitter : exists n, splitter_inv (ob_splitter o) n;
  oi_sse : ls_sse (ob_splitter o) = true;
  oi_budget : ls_budget (ob_splitter o) = ob_limit (ob_state o);
  oi_plain : plain true (remainder (ob_splitter o));
  oi_skip : ls_skip_lf (ob_splitter o) = true -> remainder (ob_splitter o) = [];
  oi_pending : Z.of_nat (length (remainder (ob_splitter o))) <= ob_limit (ob_state o) }.
Definition ob_ok (o : Observer) : Prop := by_stopped (ob_state o) = false -> ob_inv o.

Lemma fail_view o e : ob_view (ob_fail o e).2 = by_failed (ob_state o) e.
Proof. done. Qed.

(** The loop runs the lines the splitter drains. *)
Lemma pump_lines n : forall o,
  let '(lines, l') := drain_fuel n (ob_splitter o) in
  match ob_pump from_slice n o with
  | (Ok _, o') =>
      ob_splitter o' = l' /\ ob_limit (ob_state o') = ob_limit (ob_state o) /\
      by_stopped (ob_state o') = by_stopped (ob_state o) /\
      forall rest k, by_lines from_slice (ob_state o) lines rest k = by_lines from_slice (ob_state o') [] rest k
  | (Err e, o') =>
      forall rest k, by_lines from_slice (ob_state o) lines rest k = by_failed (ob_state o') e
  end.
Proof.
  induction n as [|n IH]; intros o; simpl; [done|].
  destruct (next_line (ob_splitter o)) as [[line|] l]; [|done].
  destruct (line_ (ob_state o) line) as [[u|e] s] eqn:Hl.
  - specialize (IH (MkObserver l s)). simpl in IH. destruct (drain_fuel n l) as [lines l'].
    destruct (ob_line_keeps _ _ _ _ _ Hl) as (H1 & H2 & H3 & _).
    destruct (ob_pump from_slice n (MkObserver l s)) as [[v|e'] o']; simpl; rewrite Hl; [|done].
    destruct IH as (A & B & C & D). unfold by_stopped in *. rewrite H2, H3 in C. split_and!; try done; congruence.
  - destruct (drain_fuel n l) as [lines l']. simpl. by rewrite Hl.
Qed.

Lemma over_budget_view o :
  ls_budget (ob_splitter o) = ob_limit (ob_state o) ->
  over_budget (ob_splitter o) = (ob_limit (ob_state o) <? Z.of_nat (length (remainder (ob_splitter o)))).
Proof. intros <-. unfold over_budget, remainder. by rewrite length_drop. Qed.

Lemma parts_refine parts : forall o,
  by_stopped (ob_state o) = false -> ob_inv o ->
  ob_view (ob_parts from_slice o parts).2 = foldl (byte_step from_slice) (ob_view o) (concat parts) /\
  ob_ok (ob_parts from_slice o parts).2.
Proof.
  induction parts as [|part parts IH]; intros o Hs Hi; [by split; [|intros _]|].
  cbn [ob_parts concat].
  rewrite foldl_app. pose proof Hi as [[n Hn] Hsse Hbud Hpl Hsk Hpend].
  set (l := splitter_push (ob_splitter o) part). pose proof (push_inv _ _ part Hn) as Hpi.
  assert (Hrem : remainder l = remainder (ob_splitter o) ++ part) by (eapply push_remainder, Hn).
  (* the part read by bytes is the pending bytes and the part split into lines *)
  assert (Hb : foldl (byte_step from_slice) (ob_view o) part =
    let '(lines, (rest, k)) := pending_ref l in by_lines from_slice (ob_state o) lines rest k).
  { unfold ob_view. rewrite byte_fold_lines by done. unfold pending_ref. fold l. rewrite Hrem.
    unfold l. simpl. rewrite Hsse. destruct (ls_skip_lf (ob_splitter o)) eqn:Hk.
    - by rewrite (Hsk eq_refl).
    - by rewrite split_ref_pending. }
  pose proof (drain_fuel_spec _ l _ Hpi (Nat.lt_succ_diag_r _)) as Hd.
  pose proof (pump_lines (S (length (remainder l))) (MkObserver l (ob_state o))) as Hp.
  change (ob_splitter (MkObserver l (ob_state o))) with l in Hp. fold l.
  destruct (drain_fuel (S (length (remainder l))) l) as [lines l'].
  destruct Hd as (Hi' & Hsse' & Hbud' & Href & Hpl' & Hsk'). rewrite Href in Hb.
  destruct (ob_pump from_slice (S (length (remainder l))) (MkObserver l (ob_state o))) as [[u|e] o'].
  - destruct Hp as (Hl' & Hlim & Hstop & Hby). simpl in Hlim, Hstop, Hby. rewrite Hby in Hb. simpl in Hb.
    cbv beta iota. rewrite over_budget_view by (rewrite Hl', Hbud'; simpl; congruence). rewrite Hl'.
    destruct (Z.ltb_spec (ob_limit (ob_state o')) (Z.of_nat (length (remainder l')))) as [Hov|Hin].
    + rewrite Hb, byte_fold_stopped by done. split; [done|]. intros Hx. discriminate.
    + assert (Hb' : foldl (byte_step from_slice) (ob_view o) part = ob_view o').
      { rewrite Hb. unfold ob_view. by rewrite Hl'. }
      rewrite Hb'. apply IH; [congruence|]. rewrite <- Hl' in *.
      split; try done; [by eexists|by rewrite Hsse'|rewrite Hbud'; simpl; congruence|].
      by rewrite Hsse' in Hpl'; simpl in Hpl'; rewrite Hsse in Hpl'.
  - simpl in Hp. rewrite Hp in Hb. rewrite Hb, byte_fold_stopped by done. split; [done|]. intros Hx. discriminate.
Qed.

Lemma slices_concat chunk : concat (slices chunk) = chunk.
Proof.
  unfold slices. assert (Hg : forall n c, (length c <= n)%nat -> concat (slices_fuel n c) = c).
  { induction n as [|n IH]; intros c Hc; [by destruct c; simpl in *; [|lia]|].
    destruct c as [|b c]; [done|]. cbn [slices_fuel concat]. rewrite IH; [apply take_drop|].
    rewrite length_drop. assert (1 <= INPUT_SLICE_BYTES)%nat by (unfold INPUT_SLICE_BYTES; lia). simpl in *. lia. }
  by apply Hg.
Qed.

Lemma push_refines o chunk :
  ob_ok o ->
  ob_view (ob_push from_slice o chunk).2 = foldl (byte_step from_slice) (ob_view o) chunk /\
  ob_ok (ob_push from_slice o chunk).2.
Proof.
  intros Hok. unfold ob_push. destruct (ob_error (ob_state o)) as [e|] eqn:He.
  { rewrite byte_fold_stopped by (simpl; unfold by_stopped; by rewrite He). by split. }
  destruct (ob_closed (ob_state o)) eqn:Hc.
  { rewrite byte_fold_stopped by (simpl; unfold by_stopped; by rewrite He, Hc). by split. }
  assert (Hs : by_stopped (ob_state o) = false) by (unfold by_stopped; by rewrite He).
  rewrite <- (slices_concat chunk) at 2. by apply parts_refine; [|apply Hok].
Qed.

Lemma observe_refines chunks : forall o,
  ob_ok o ->
  ob_view (observe from_slice o chunks) = foldl (byte_step from_slice) (ob_view o) (concat chunks) /\
  ob_ok (observe from_slice o chunks).
Proof.
  induction chunks as [|c chunks IH]; intros o Hok; simpl; [done|].
  destruct (push_refines o c Hok) as [Hv Hok']. rewrite foldl_app, <- Hv. by apply IH.
Qed.

Lemma with_limit_ok limit : 0 <= limit -> ob_ok (with_limit limit).
Proof.
  intros Hl _. split; simpl; try done; [|constructor].
  exists 0%nat. split; simpl; try done; [constructor|]. by exists 0%nat.
Qed.

(** The verdict at the end of the stream is a function of the view. *)
Definition by_finish (a : ByteState) : result StreamObservationError unit :=
  match ob_error (by_state a) with
  | Some e => Err e
  | None =>
      if negb (bool_decide (by_pending a = [])) || negb (ob_event_bytes (by_state a) =? 0)
      then Err TruncatedEvent
      else if ob_done (by_state a) then Ok tt else Err MissingTerminator
  end.

Lemma finish_view o : (ob_finish o).1 = by_finish (ob_view o).
Proof.
  unfold ob_finish, by_finish. simpl. destruct (ob_error (ob_state o)); [done|].
  destruct (_ || _); [done|]. by destruct (ob_done (ob_state o)).
Qed.
End Refinement.

(** ** Properties *)

Section Properties.
Context {J : Type} `{JsonValue J}.
Variable from_slice : list Z -> option J.

(** Observation does not depend on how the stream was cut.  Whatever
    the chunks and the slices of a chunk, the observer ends in the state of
    reading the stream byte by byte: the same accepted usage, the same
    error, the same terminator, the same pending bytes and the same
    verdict at the end. *)
Theorem observation_is_chunk_invariant (limit : Z) (chunks : list (list Z)) :
  0 <= limit ->
  let o := observe from_slice (with_limit limit) chunks in
  let whole := observe from_slice (with_limit limit) [concat chunks] in
  ob_view o = foldl (byte_step from_slice) (ob_view (with_limit limit)) (concat chunks) /\
  ob_view whole = ob_view o /\ (ob_finish whole).1 = (ob_finish o).1.
Proof.
  intros Hl o whole. destruct (observe_refines from_slice chunks _ (with_limit_ok limit Hl)) as [Ho _].
  destruct (observe_refines from_slice [concat chunks] _ (with_limit_ok limit Hl)) as [Hw _].
  change (concat [concat chunks]) with (concat chunks ++ []) in Hw. rewrite app_nil_r in Hw.
  assert (Hv : ob_view whole = ob_view o) by (unfold whole, o; congruence).
  split; [done|]. split; [done|]. by rewrite !finish_view, Hv.
Qed.

(** A usage that was accepted came from a qualified event. *)
Definition qualified (u : ParsedUsage) : Prop :=
  exists data event, from_slice data = Some event /\ qualify_openai_stream_usage event = Ok (Some u).

(** The data of an event is part of the event's bytes, and both are
    bounded by the limit while the observer reads. *)
Record by_inv (a : ByteState) : Prop := {
  bi_usage : forall u, ob_usage_seen (by_state a) = Some u -> qualified u;
  bi_pending : Z.of_nat (length (by_pending a)) <= Z.max 0 (ob_limit (by_state a));
  bi_data : by_stopped (by_state a) = false ->
    Z.of_nat (length (ob_data (by_state a))) <= ob_event_bytes (by_state a) <= Z.max 0 (ob_limit (by_state a)) }.

Lemma ob_event_usage s r s' :
  ob_event from_slice s = (r, s') ->
  ob_data s' = ob_data s /\ ob_event_bytes s' = ob_event_bytes s /\
  (ob_usage_seen s' = ob_usage_seen s \/ exists u, ob_usage_seen s' = Some u /\ qualified u).
Proof.
  unfold ob_event. intros He. repeat case_match; simplify_eq; split_and!; try done; auto.
  right. eexists. split; [done|]. by eexists _, _.
Qed.

Lemma split_field_length c : (length (split_field c).1 + length (split_field c).2 <= length c)%nat.
Proof.
  induction c as [|b c IH]; simpl; [lia|]. destruct (b =? COLON); simpl; [lia|].
  destruct (split_field c). simpl in *. lia.
Qed.

(** A field line adds at most its own bytes to the data. *)
Lemma ob_field_data c s :
  Z.of_nat (length (ob_data (ob_field c s))) <= Z.of_nat (length (ob_data s)) + Z.of_nat (length c) + 1.
Proof.
  unfold ob_field. pose proof (split_field_length c) as Hl. destruct (split_field c) as [f v]. simpl in Hl.
  assert (Hv : (length (default v (strip_prefix [SPACE] v)) <= length v)%nat).
  { destruct (strip_prefix [SPACE] v) eqn:E; [by apply strip_prefix_length in E|done]. }
  set (w := default v (strip_prefix [SPACE] v)) in *. clearbody w.
  case_bool_decide; [|case_bool_decide]; simpl; try lia.
  rewrite length_app. destruct (ob_has_data s); rewrite ?length_app; simpl; lia.
Qed.

Lemma take_init_length (line : list Z) : line <> [] -> (length (take (length line - 1) line) + 1 = length line)%nat.
Proof. intros Hne. rewrite length_take. destruct line; [done|]. simpl. lia. Qed.

(** What a line may do to the measured state. *)
Lemma ob_line_inv s line r s' :
  ob_line from_slice s line = (r, s') -> line <> [] -> by_stopped s = false ->
  (forall u, ob_usage_seen s = Some u -> qualified u) ->
  Z.of_nat (length (ob_data s)) <= ob_event_bytes s <= Z.max 0 (ob_limit s) ->
  (forall u, ob_usage_seen s' = Some u -> qualified u) /\
  (is_ok r = true -> Z.of_nat (length (ob_data s')) <= ob_event_bytes s' <= Z.max 0 (ob_limit s')).
Proof.
  unfold ob_line. intros Hl Hne Hs Hu Hd. pose proof (take_init_length line Hne) as Hlen.
  destruct (ob_limit s <? Z.of_nat (length line)); [by simplify_eq|].
  cbn [ob_limit set_line ob_event_bytes ob_first_line] in Hl.
  destruct (Z.ltb_spec (ob_limit s) (ob_event_bytes s + Z.of_nat (length line))); [by simplify_eq|].
  set (c0 := take (length line - 1) line) in *.
  set (content := if ob_first_line s then default c0 (strip_prefix BOM c0) else c0) in Hl.
  assert (Hc : (length content <= length c0)%nat).
  { unfold content. destruct (ob_first_line s); [|done].
    destruct (strip_prefix BOM c0) eqn:E; [by apply strip_prefix_length in E|done]. }
  clearbody content. destruct (starts_with BOM content); [by simplify_eq|].
  destruct (utf8_valid content); simpl in Hl; [|by simplify_eq]. destruct content as [|b content].
  - destruct (ob_event from_slice _) as [[u|e] s1] eqn:He;
      destruct (ob_event_usage _ _ _ He) as (H1 & H2 & H3); simplify_eq; simpl in *.
    + split; [|lia]. intros v Hv. destruct H3 as [H3|(w & H3 & Hq)]; [apply Hu; congruence|].
      assert (v = w) as -> by congruence. done.
    + split; [|done]. intros v Hv. destruct H3 as [H3|(w & H3 & Hq)]; [apply Hu; congruence|].
      assert (v = w) as -> by congruence. done.
  - simplify_eq. destruct (b =? COLON); simpl; [split; [done|lia]|].
    match goal with |- context [ob_field ?c ?s0] =>
      destruct (ob_field_keeps c s0) as (Hk1 & _ & _ & Hk2 & Hk3); pose proof (ob_field_data c s0) as Hk4 end.
    rewrite Hk1, Hk2, Hk3. simpl in *. split; [done|lia].
Qed.

Lemma byte_step_inv a b : by_inv a -> by_inv (byte_step from_slice a b).
Proof.
  intros [Hu Hp Hd]. unfold byte_step. destruct (by_stopped (by_state a)) eqn:Hs; [by split; [..|rewrite Hs]|].
  specialize (Hd eq_refl).
  destruct (by_skip a && (b =? LF)); [by split|]. destruct (terminator true b).
  - destruct (ob_line from_slice (by_state a) (by_pending a ++ [b])) as [r s'] eqn:Hl.
    assert (Hne : by_pending a ++ [b] <> []) by (by destruct (by_pending a)).
    destruct (ob_line_inv _ _ _ _ Hl Hne Hs Hu Hd) as [Hu' Hd'].
    destruct r; split; simpl; try done; try lia; auto.
  - destruct (Z.ltb_spec (ob_limit (by_state a)) (Z.of_nat (length (by_pending a ++ [b]))));
      split; simpl; try done; lia.
Qed.

Lemma byte_fold_inv bs : forall a, by_inv a -> by_inv (foldl (byte_step from_slice) a bs).
Proof. induction bs as [|b bs IH]; intros a Ha; simpl; auto using byte_step_inv. Qed.

Lemma byte_fold_keeps bs : forall a u,
  ob_usage_seen (by_state a) = Some u -> ob_usage_seen (by_state (foldl (byte_step from_slice) a bs)) = Some u.
Proof.
  induction bs as [|b bs IH]; intros a u Hu; simpl; [done|]. apply IH. unfold byte_step.
  destruct (by_stopped (by_state a)); [done|]. destruct (by_skip a && (b =? LF)); [done|].
  destruct (terminator true b); [|by destruct (_ <? _)].
  destruct (ob_line from_slice (by_state a) _) as [[] s'] eqn:Hl;
    destruct (ob_line_keeps _ _ _ _ _ Hl) as (_ & _ & _ & Hk); simpl; auto.
Qed.

(** An observation is qualified, final and bounded.  Over any stream,
    a usage the observer holds was decoded from a complete event that
    qualified; once held it is never replaced, whatever follows; an error
    is final; what is pending never exceeds the line limit; and the end of
    the stream is accepted only after a complete terminator, with no error
    and nothing pending. *)
Theorem observation_is_final (limit : Z) (before after : list (list Z)) :
  0 <= limit ->
  let o := observe from_slice (with_limit limit) before in
  let o' := observe from_slice o after in
  (forall u, ob_usage_seen (ob_state o) = Some u -> qualified u /\ ob_usage_seen (ob_state o') = Some u) /\
  (forall e, ob_error (ob_state o) = Some e -> o' = o /\ (ob_finish o').1 = Err e) /\
  Z.of_nat (length (remainder (ob_splitter o))) <= limit /\
  ((ob_finish o).1 = Ok tt ->
     ob_done (ob_state o) = true /\ ob_error (ob_state o) = None /\ remainder (ob_splitter o) = []).
Proof.
  intros Hl o o'. destruct (observe_refines from_slice before _ (with_limit_ok limit Hl)) as [Ho Hok].
  destruct (observe_refines from_slice after _ Hok) as [Ho' _]. fold o in Ho, Hok, Ho'. fold o' in Ho'.
  assert (Hi : by_inv (ob_view o)).
  { rewrite Ho. apply byte_fold_inv. split; simpl; [done|lia|intros _; lia]. }
  split; [|split; [|split]].
  - intros u Hu. split; [by apply (bi_usage _ Hi)|].
    change (ob_usage_seen (by_state (ob_view o')) = Some u). rewrite Ho'. by apply byte_fold_keeps.
  - intros e He. assert (Heq : o' = o).
    { unfold o'. clear -He. revert He. generalize o. induction after as [|c cs IH]; intros x Hx; simpl; [done|].
      unfold ob_push at 1. rewrite Hx. by apply IH. }
    rewrite Heq. split; [done|]. rewrite finish_view. unfold by_finish. simpl. by rewrite He.
  - pose proof (bi_pending _ Hi) as Hp. assert (Hlim : ob_limit (by_state (ob_view o)) = limit).
    { rewrite Ho. clear. change limit with (ob_limit (by_state (ob_view (with_limit limit)))) at 2.
      generalize (ob_view (with_limit limit)). induction (concat before) as [|b bs IH]; intros a; simpl; [done|].
      rewrite IH. unfold byte_step. destruct (by_stopped _); [done|]. destruct (by_skip a && _); [done|].
      destruct (terminator true b); [|by destruct (_ <? _)].
      destruct (ob_line from_slice (by_state a) _) as [[] s'] eqn:E;
        by destruct (ob_line_keeps _ _ _ _ _ E) as (? & _). }
    rewrite Hlim in Hp. simpl in Hp. lia.
  - rewrite finish_view. unfold by_finish. simpl. destruct (ob_error (ob_state o)); [done|].
    destruct (negb (bool_decide (remainder (ob_splitter o) = [])) || _) eqn:Eb; [done|].
    destruct (ob_done (ob_state o)); [|done]. intros _. bools.
    split; [done|]. split; [done|]. by eapply bool_decide_eq_true.
Qed.
End Properties.

(** ** Witnesses *)

(** A decoder that knows one document, and a stream that is cut inside a
    CRLF and inside a field. *)
Definition demo_from_slice (data : list Z) : option Json :=
  if bool_decide (data = bytes "usage") then Some (demo_final demo_hits) else None.
Definition demo_chunks : list (list Z) :=
  [bytes "data: us"; bytes "age" ++ [CR]; [LF; CR]; [LF]; bytes ": ping" ++ [LF; LF];
   bytes "data: [DO"; bytes "NE]" ++ [LF; LF]].

Lemma observation_is_chunk_invariant_witness :
  ob_usage_seen (ob_state (observe demo_from_slice (with_limit 64) demo_chunks)) = Some demo_parsed /\
  (ob_finish (observe demo_from_slice (with_limit 64) [concat demo_chunks])).1 = Ok tt.
Proof.
  split; [vm_compute; reflexivity|].
  destruct (observation_is_chunk_invariant demo_from_slice 64 demo_chunks) as (_ & _ & Hf); [lia|].
  rewrite Hf. vm_compute. reflexivity.
Defined.

Lemma observation_is_final_witness :
  exists u, qualified demo_from_slice u /\
    ob_usage_seen (ob_state (observe demo_from_slice
      (observe demo_from_slice (with_limit 64) demo_chunks) [bytes "garbage"])) = Some u.
Proof.
  destruct (observation_is_final demo_from_slice 64 demo_chunks [bytes "garbage"]) as [H _]; [lia|].
  exists demo_parsed. apply H. vm_compute. reflexivity.
Defined.
