(* ===== verification/Stats.v ===== *)
(** [crates/sandhi-core/src/stats.rs]: the fold of usage events into
    aggregates, the bounded aggregator of one dimension, and the cost tree
    of a run.  A [BTreeMap] is a [gmap] read in key order. *)

From S2P Require Import Prelude Text Usage Json UsageParse.

(** ** Dimensions *)

Inductive Dimension := Subject | Group | Provider | Model | VirtualKeyDim | Session | Run | TotalDim.

Definition NONE_KEY : string := "(none)".
Definition TOTAL_KEY : string := "total".
Definition OVERFLOW_KEY : string := "(overflow)".

Definition dimension_parse (name : string) : option Dimension :=
  let n := string_of (to_ascii_lowercase (trim (bytes name))) in
  if bool_decide (n = "subject") || bool_decide (n = "user") then Some Subject
  else if bool_decide (n = "group") then Some Group
  else if bool_decide (n = "provider") then Some Provider
  else if bool_decide (n = "model") then Some Model
  else if bool_decide (n = "key") || bool_decide (n = "virtual_key") then Some VirtualKeyDim
  else if bool_decide (n = "session") then Some Session
  else if bool_decide (n = "run") then Some Run
  else if bool_decide (n = "total") then Some TotalDim
  else None.

Definition dimension_as_str (d : Dimension) : string :=
  match d with
  | Subject => "subject" | Group => "group" | Provider => "provider" | Model => "model"
  | VirtualKeyDim => "virtual_key" | Session => "session" | Run => "run" | TotalDim => "total"
  end.

Definition key_of (d : Dimension) (e : UsageEvent) : option string :=
  match d with
  | Subject => ev_subject_id e
  | Group => ev_group_id e
  | Provider => Some (ev_provider e)
  | Model => Some (ev_model e)
  | VirtualKeyDim => ev_virtual_key_id e
  | Session => ev_session_id e
  | Run => ev_run_id e
  | TotalDim => Some TOTAL_KEY
  end.

(** ** Latency *)

Record LatencySummary := MkLatency {
  lt_samples : Z; lt_p50_ms : Z; lt_p95_ms : Z; lt_ttft_p50_ms : option Z }.

(** An [f64] from an integer, and [ceil() as usize] of one. *)
Definition f64_of (z : Z) : spec_float := binary_normalize 53 1024 z 0 false.
Definition ceil_usize (x : spec_float) : Z :=
  match x with
  | S754_finite false m e => if 0 <=? e then Z.min (Zpos m * 2 ^ e) u64_max else - (- Zpos m / 2 ^ (- e))
  | S754_infinity false => u64_max
  | _ => 0
  end.

(** [sorted[rank.saturating_sub(1).min(len - 1)]]. *)
Definition percentile (sorted : list Z) (p : Z) : option Z :=
  let len := Z.of_nat (length sorted) in
  let rank := ceil_usize (SFmul 53 1024 (SFdiv 53 1024 (f64_of p) (f64_of 100)) (f64_of len)) in
  sorted !! Z.to_nat (Z.min (sat_sub rank 1) (len - 1)).

Definition from_samples (durations ttfts : list Z) : option LatencySummary :=
  match durations with
  | [] => None
  | _ =>
      let d := merge_sort Z.le durations in
      let t := merge_sort Z.le ttfts in
      p50 ← percentile d 50;
      p95 ← percentile d 95;
      Some (MkLatency (Z.of_nat (length d)) p50 p95
              (match t with [] => None | _ => percentile t 50 end))
  end.

(** ** Aggregates *)

Record UsageAggregateV1 := MkAggregate {
  ag_key : string; ag_calls : Z; ag_tokens_in : Z; ag_tokens_out : Z; ag_cache_creation : Z;
  ag_cache_read : Z; ag_coverage : option CacheReadCoverage; ag_reasoning : Z; ag_billable : Z;
  ag_latency : option LatencySummary }.

Definition agg_empty (key : string) : UsageAggregateV1 := MkAggregate key 0 0 0 0 0 None 0 0 None.

(** The coverage of a row, made to total its calls. *)
Definition agg_coverage (a : UsageAggregateV1) : CacheReadCoverage :=
  coverage_normalized (default (coverage_unknown (ag_calls a)) (ag_coverage a)) (ag_calls a).

Definition agg_add (a : UsageAggregateV1) (e : UsageEvent) : UsageAggregateV1 :=
  MkAggregate (ag_key a) (wadd (ag_calls a) 1) (wadd (ag_tokens_in a) (ev_tokens_in e))
    (wadd (ag_tokens_out a) (ev_tokens_out e)) (wadd (ag_cache_creation a) (ev_cache_creation_tokens e))
    (wadd (ag_cache_read a) (ev_cache_read_tokens e))
    (Some (coverage_add (agg_coverage a) (ev_cache_read_observation e)))
    (wadd (ag_reasoning a) (default 0 (ev_reasoning_tokens e)))
    (wadd (ag_billable a)
       (billable_parts_with_reasoning (ev_tokens_in e) (ev_cache_creation_tokens e)
          (ev_cache_read_tokens e) (ev_tokens_out e) (default 0 (ev_reasoning_tokens e))
          (ev_reasoning_included e)))
    (ag_latency a).

Definition agg_merge (a b : UsageAggregateV1) : UsageAggregateV1 :=
  let other := coverage_normalized (default (coverage_unknown 0) (ag_coverage b)) (ag_calls b) in
  MkAggregate (ag_key a) (wadd (ag_calls a) (ag_calls b)) (wadd (ag_tokens_in a) (ag_tokens_in b))
    (wadd (ag_tokens_out a) (ag_tokens_out b)) (wadd (ag_cache_creation a) (ag_cache_creation b))
    (wadd (ag_cache_read a) (ag_cache_read b)) (Some (coverage_merge (agg_coverage a) other))
    (wadd (ag_reasoning a) (ag_reasoning b)) (wadd (ag_billable a) (ag_billable b)) (ag_latency a).

(** ** The cost tree of a run *)

Definition StepKey : Type := string * option string.

(** The derived order of the pair. *)
Definition opt_leb (a b : option string) : bool :=
  match a, b with None, _ => true | Some _, None => false | Some a, Some b => String.leb a b end.
Definition step_le (a b : StepKey) : Prop :=
  (bool_decide (a.1 = b.1) && opt_leb a.2 b.2) || (negb (bool_decide (a.1 = b.1)) && String.leb a.1 b.1) = true.
#[export] Instance step_le_dec a b : Decision (step_le a b).
Proof. unfold step_le. apply _. Defined.

Inductive RunUsageNodeV1 := MkNode {
  nd_step_id : string; nd_parent_id : option string; nd_own : UsageAggregateV1;
  nd_rollup : UsageAggregateV1; nd_children : list RunUsageNodeV1 }.
Record RunCostTreeV1 := MkTree { tr_run_id : string; tr_total : UsageAggregateV1; tr_roots : list RunUsageNodeV1 }.

(** The first loop of [from_events]: the total and the rows of the steps. *)
Definition step_key (e : UsageEvent) : StepKey := (default NONE_KEY (ev_step_id e), ev_parent_id e).
Definition fold_step (st : UsageAggregateV1 * gmap StepKey UsageAggregateV1) (e : UsageEvent)
    : UsageAggregateV1 * gmap StepKey UsageAggregateV1 :=
  let '(total, own) := st in
  let k := step_key e in
  (agg_add total e, <[k := agg_add (default (agg_empty k.1) (own !! k)) e]> own).

Definition step_keys (own : gmap StepKey UsageAggregateV1) : list StepKey :=
  merge_sort step_le (map_to_list own).*1.
(** The index of children, by the name of their parent. *)
Definition children_of (own : gmap StepKey UsageAggregateV1) (parent : string) : list StepKey :=
  filter (fun k => k.2 = Some parent) (step_keys own).
Definition is_root (own : gmap StepKey UsageAggregateV1) (k : StepKey) : bool :=
  match k.2 with
  | None => true
  | Some p => negb (bool_decide (p ∈ (step_keys own).*1))
  end.

(** [build], with the children's loop threaded through [visited]; every call
    that goes deeper visits a new key, so the number of keys is enough fuel
    ([run_tree_conserves_spend]). *)
Definition visit_child (build : StepKey -> gset StepKey -> option RunUsageNodeV1 * gset StepKey)
    (st : UsageAggregateV1 * list RunUsageNodeV1 * gset StepKey) (k : StepKey)
    : UsageAggregateV1 * list RunUsageNodeV1 * gset StepKey :=
  let '(rollup, children, visited) := st in
  match build k visited with
  | (Some child, visited) => (agg_merge rollup (nd_rollup child), children ++ [child], visited)
  | (None, visited) => (rollup, children, visited)
  end.

Fixpoint build (own : gmap StepKey UsageAggregateV1) (fuel : nat) (key : StepKey) (visited : gset StepKey)
    : option RunUsageNodeV1 * gset StepKey :=
  match fuel with
  | O => (None, visited)
  | S fuel =>
      if decide (key ∈ visited) then (None, visited)
      else
        let visited := {[key]} ∪ visited in
        match own !! key with
        | None => (None, visited)
        | Some own_row =>
            let '(rollup, children, visited) :=
              foldl (visit_child (build own fuel)) (own_row, [], visited) (children_of own key.1) in
            (Some (MkNode key.1 key.2 own_row rollup children), visited)
        end
  end.

(** Build a key and push its node. *)
Definition push_root (own : gmap StepKey UsageAggregateV1) (st : list RunUsageNodeV1 * gset StepKey) (key : StepKey)
    : list RunUsageNodeV1 * gset StepKey :=
  match build own (S (size own)) key st.2 with
  | (Some node, visited) => (st.1 ++ [node], visited)
  | (None, visited) => (st.1, visited)
  end.

(** The [while let] loop over unvisited keys; each turn visits one. *)
Fixpoint promote (own : gmap StepKey UsageAggregateV1) (fuel : nat) (st : list RunUsageNodeV1 * gset StepKey)
    : list RunUsageNodeV1 * gset StepKey :=
  match fuel with
  | O => st
  | S fuel =>
      match filter (fun k => k ∉ st.2) (step_keys own) with
      | [] => st
      | key :: _ => promote own fuel (push_root own st key)
      end
  end.

Definition from_events (run_id : string) (events : list UsageEvent) : RunCostTreeV1 :=
  let '(total, own) := foldl fold_step (agg_empty run_id, ∅) events in
  let roots := foldl (push_root own) ([], ∅) (filter (fun k => is_root own k = true) (step_keys own)) in
  MkTree run_id total (promote own (size own) roots).1.

(** ** The aggregator of one dimension *)

Record UsageAggregator := MkAggregator {
  ua_dimension : Dimension; ua_cap : Z; ua_rows : gmap string UsageAggregateV1;
  ua_durations : gmap string (list Z); ua_ttfts : gmap string (list Z); ua_total : UsageAggregateV1;
  ua_total_durations : list Z; ua_total_ttfts : list Z }.

Definition DEFAULT_CARDINALITY_CAP : Z := 1024.
Definition with_cap (d : Dimension) (cap : Z) : UsageAggregator :=
  MkAggregator d cap ∅ ∅ ∅ (agg_empty TOTAL_KEY) [] [].
Definition aggregator_new (d : Dimension) : UsageAggregator := with_cap d DEFAULT_CARDINALITY_CAP.

Definition raw_key (d : Dimension) (e : UsageEvent) : string := default NONE_KEY (key_of d e).

(** [entry(key).or_default().push(x)] when there is an [x]. *)
Definition push_sample (key : string) (x : option Z) (m : gmap string (list Z)) : gmap string (list Z) :=
  match x with Some x => <[key := default [] (m !! key) ++ [x]]> m | None => m end.
Definition push_some (x : option Z) (l : list Z) : list Z :=
  match x with Some x => l ++ [x] | None => l end.

Definition ua_key (a : UsageAggregator) (e : UsageEvent) : string :=
  let raw := raw_key (ua_dimension a) e in
  if bool_decide (is_Some (ua_rows a !! raw)) || (Z.of_nat (size (ua_rows a)) <? ua_cap a)
  then raw else OVERFLOW_KEY.

Definition ua_add (a : UsageAggregator) (e : UsageEvent) : UsageAggregator :=
  let key := ua_key a e in
  MkAggregator (ua_dimension a) (ua_cap a)
    (<[key := agg_add (default (agg_empty key) (ua_rows a !! key)) e]> (ua_rows a))
    (push_sample key (ev_duration_ms e) (ua_durations a))
    (push_sample key (ev_time_to_first_token_ms e) (ua_ttfts a))
    (agg_add (ua_total a) e)
    (push_some (ev_duration_ms e) (ua_total_durations a))
    (push_some (ev_time_to_first_token_ms e) (ua_total_ttfts a)).

Definition set_latency (l : option LatencySummary) (a : UsageAggregateV1) : UsageAggregateV1 :=
  MkAggregate (ag_key a) (ag_calls a) (ag_tokens_in a) (ag_tokens_out a) (ag_cache_creation a)
    (ag_cache_read a) (ag_coverage a) (ag_reasoning a) (ag_billable a) l.

(** Busiest first, ties by key. *)
Definition row_le (a b : UsageAggregateV1) : Prop :=
  (ag_billable b <? ag_billable a) || ((ag_billable a =? ag_billable b) && String.leb (ag_key a) (ag_key b)) = true.
#[export] Instance row_le_dec a b : Decision (row_le a b).
Proof. unfold row_le. apply _. Defined.

Definition ua_rows_out (a : UsageAggregator) : list UsageAggregateV1 :=
  merge_sort row_le
    ((fun kv => set_latency (from_samples (default [] (ua_durations a !! kv.1)) (default [] (ua_ttfts a !! kv.1)))
                  kv.2) <$> map_to_list (ua_rows a)).
Definition ua_total_out (a : UsageAggregator) : UsageAggregateV1 :=
  set_latency (from_samples (ua_total_durations a) (ua_total_ttfts a)) (ua_total a).
