(* ===== verification/StatsProps.v ===== *)
(** What the folds of [Stats] conserve: the cost tree places every step
    once and loses no token, and the bounded aggregator stays exact. *)

From S2P Require Import Prelude Text Usage Json UsageParse Stats.

(** ** Columns *)

Inductive Column := CCalls | CIn | COut | CCreation | CRead | CReasoning | CBillable.

Definition column (c : Column) (a : UsageAggregateV1) : Z :=
  match c with
  | CCalls => ag_calls a | CIn => ag_tokens_in a | COut => ag_tokens_out a
  | CCreation => ag_cache_creation a | CRead => ag_cache_read a
  | CReasoning => ag_reasoning a | CBillable => ag_billable a
  end.
Definition event_column (c : Column) (e : UsageEvent) : Z :=
  match c with
  | CCalls => 1 | CIn => ev_tokens_in e | COut => ev_tokens_out e
  | CCreation => ev_cache_creation_tokens e | CRead => ev_cache_read_tokens e
  | CReasoning => default 0 (ev_reasoning_tokens e) | CBillable => billable_tokens e
  end.

Lemma column_empty c k : column c (agg_empty k) = 0.
Proof. by destruct c. Qed.
Lemma column_add c a e : column c (agg_add a e) = wadd (column c a) (event_column c e).
Proof. by destruct c. Qed.
Lemma column_merge c a b : column c (agg_merge a b) = wadd (column c a) (column c b).
Proof. by destruct c. Qed.

(** Sums of [u64] wrap, so they are compared modulo [2^64]. *)
Definition cong (a b : Z) : Prop := exists k, a = b + k * u64_mod.
#[export] Instance cong_equiv : Equivalence cong.
Proof.
  split; unfold cong.
  - intros a. exists 0. lia.
  - intros a b [k ->]. exists (- k). lia.
  - intros a b c [k ->] [j ->]. exists (j + k). lia.
Qed.
#[export] Instance cong_add : Proper (cong ==> cong ==> cong) Z.add.
Proof. intros a a' [k ->] b b' [j ->]. exists (k + j). lia. Qed.
Lemma cong_wadd a b : cong (wadd a b) (a + b).
Proof.
  unfold wadd. exists (- ((a + b) / u64_mod)). pose proof (Z.div_mod (a + b) u64_mod ltac:(done)). lia.
Qed.
Lemma cong_range a b : in_u64 a -> in_u64 b -> cong a b -> a = b.
Proof.
  unfold in_u64. intros Ha Hb [k Hk]. assert (u64_mod = u64_max + 1) by done.
  assert (k = 0) by nia. lia.
Qed.

Definition wsum (l : list Z) : Z := foldr wadd 0 l.

Lemma wsum_range l : in_u64 (wsum l).
Proof. destruct l; simpl; [done|apply wadd_in_u64]. Qed.
Lemma wsum_snoc l x : cong (wsum (l ++ [x])) (wsum l + x).
Proof.
  induction l as [|y l IH]; simpl.
  - rewrite cong_wadd. by rewrite Z.add_comm.
  - rewrite !cong_wadd, IH. by rewrite Z.add_assoc.
Qed.

(** ** The cost tree *)

Section Tree.
Variable own : gmap StepKey UsageAggregateV1.

(** The rows not visited yet. *)
Definition remaining (v : gset StepKey) : gmap StepKey UsageAggregateV1 :=
  filter (fun kv => kv.1 ∉ v) own.

Lemma remaining_lookup v k :
  remaining v !! k = if decide (k ∈ v) then None else own !! k.
Proof.
  unfold remaining. destruct (decide (k ∈ v)) as [Hk|Hk].
  - apply map_lookup_filter_None. right. intros x _ Hn. by apply Hn.
  - destruct (own !! k) eqn:E.
    + by apply map_lookup_filter_Some.
    + apply map_lookup_filter_None. by left.
Qed.

Lemma remaining_visit v k : remaining ({[k]} ∪ v) = delete k (remaining v).
Proof.
  apply map_eq. intros i. destruct (decide (k = i)) as [<-|Hne].
  - rewrite lookup_delete_eq, remaining_lookup. by rewrite decide_True by set_solver.
  - rewrite lookup_delete_ne by done. rewrite !remaining_lookup.
    destruct (decide (i ∈ v)); [by rewrite decide_True by set_solver|by rewrite decide_False by set_solver].
Qed.

Lemma remaining_mono v v' : v ⊆ v' -> (size (remaining v') <= size (remaining v))%nat.
Proof.
  intros Hs. apply map_subseteq_size. apply map_subseteq_spec. intros k x.
  rewrite !remaining_lookup. destruct (decide (k ∈ v')); [done|]. by rewrite decide_False by set_solver.
Qed.

Lemma visit_size v k row :
  k ∉ v -> own !! k = Some row -> size (remaining v) = S (size (remaining ({[k]} ∪ v))).
Proof.
  intros Hk Hr. rewrite remaining_visit, map_size_delete.
  assert (Hl : remaining v !! k = Some row) by (rewrite remaining_lookup; by rewrite decide_False).
  rewrite Hl. assert (size (remaining v) <> 0%nat).
  { intros H0%map_size_empty_inv. rewrite H0 in Hl. done. }
  lia.
Qed.

Lemma step_keys_spec k : k ∈ step_keys own <-> is_Some (own !! k).
Proof.
  unfold step_keys. rewrite merge_sort_Permutation. rewrite list_elem_of_fmap. split.
  - intros ([k' x] & -> & Hx%elem_of_map_to_list). by exists x.
  - intros [x Hx]. exists (k, x). split; [done|by apply elem_of_map_to_list].
Qed.
Lemma step_keys_nodup : NoDup (step_keys own).
Proof. unfold step_keys. rewrite merge_sort_Permutation. apply NoDup_fst_map_to_list. Qed.

(** The steps of a node and below. *)
Fixpoint node_keys (n : RunUsageNodeV1) : list StepKey :=
  match n with
  | MkNode s p _ _ ch => (s, p) :: (fix go l := match l with [] => [] | n :: l => node_keys n ++ go l end) ch
  end.
Definition forest_keys (l : list RunUsageNodeV1) : list StepKey := concat (node_keys <$> l).

Lemma node_keys_eq s p o r ch : node_keys (MkNode s p o r ch) = (s, p) :: forest_keys ch.
Proof. simpl. f_equal. induction ch as [|n ch IH]; [done|]. unfold forest_keys in *. simpl. by rewrite IH. Qed.

(** Each node's rollup is its own row and its children's rollups. *)
Fixpoint rolled (n : RunUsageNodeV1) : Prop :=
  match n with
  | MkNode s p o r ch =>
      own !! (s, p) = Some o /\
      (forall c, cong (column c r) (column c o + wsum ((fun n => column c (nd_rollup n)) <$> ch))) /\
      (fix go l := match l with [] => True | n :: l => rolled n /\ go l end) ch
  end.

Lemma rolled_eq s p o r ch :
  rolled (MkNode s p o r ch) <->
  own !! (s, p) = Some o /\
  (forall c, cong (column c r) (column c o + wsum ((fun n => column c (nd_rollup n)) <$> ch))) /\
  Forall rolled ch.
Proof.
  simpl. assert (Hg : forall l, (fix go l := match l with [] => True | n :: l => rolled n /\ go l end) l <-> Forall rolled l).
  { induction l as [|n l IH]; [by split; [constructor|]|]. rewrite Forall_cons, IH. done. }
  by rewrite Hg.
Qed.

(** What was placed between two visited sets: those keys once each, and
    their spend. *)
Record placed (v v' : gset StepKey) (nodes : list RunUsageNodeV1) : Prop := {
  pl_sub : v ⊆ v';
  pl_nodup : NoDup (forest_keys nodes);
  pl_keys : forall k, k ∈ forest_keys nodes <-> k ∈ v' /\ k ∉ v;
  pl_spend : forall c, cong (wsum ((fun n => column c (nd_rollup n)) <$> nodes) + msum (column c) (remaining v'))
                         (msum (column c) (remaining v));
  pl_rolled : Forall rolled nodes }.

Lemma placed_nil v : placed v v [].
Proof.
  split; unfold forest_keys; simpl.
  - done.
  - apply NoDup_nil_2.
  - set_solver.
  - done.
  - by apply Forall_nil.
Qed.

Lemma placed_snoc v v1 v2 nodes n :
  placed v v1 nodes -> placed v1 v2 [n] -> placed v v2 (nodes ++ [n]).
Proof.
  intros [S1 N1 K1 P1 R1] [S2 N2 K2 P2 R2]. unfold forest_keys in *. simpl in *. rewrite app_nil_r in *.
  split; unfold forest_keys.
  - set_solver.
  - rewrite fmap_app, concat_app. simpl. rewrite app_nil_r. apply NoDup_app. split_and!; try done.
    intros k Hk1 Hk2. apply K1 in Hk1. apply K2 in Hk2. tauto.
  - intros k. rewrite fmap_app, concat_app, elem_of_app. simpl. rewrite app_nil_r, K1, K2. split.
    + intros [[H1 H2]|[H1 H2]]; [split; [by apply S2|done]|split; [done|intros H3; by apply H2, S1]].
    + intros [H1 H2]. destruct (decide (k ∈ v1)); tauto.
  - intros c. rewrite fmap_app, list_fmap_singleton, wsum_snoc. rewrite <- P1, <- P2. simpl. rewrite cong_wadd. simpl.
    rewrite Z.add_0_r. by rewrite Z.add_assoc.
  - apply Forall_app. by split.
Qed.

Definition builds (build : StepKey -> gset StepKey -> option RunUsageNodeV1 * gset StepKey) (bound : nat) : Prop :=
  forall key v, (size (remaining v) < bound)%nat -> is_Some (own !! key) ->
    match build key v with
    | (Some n, v') => placed v v' [n] /\ key ∈ v'
    | (None, v') => v' = v /\ key ∈ v
    end.

Lemma children_loop bld bound cs : builds bld bound -> forall v0 row rollup ch v1,
  (size (remaining v0) < bound)%nat -> Forall (fun k => is_Some (own !! k)) cs ->
  placed v0 v1 ch ->
  (forall c, cong (column c rollup) (column c row + wsum ((fun n => column c (nd_rollup n)) <$> ch))) ->
  let '(rollup', ch', v') := foldl (visit_child bld) (rollup, ch, v1) cs in
  placed v0 v' ch' /\
  forall c, cong (column c rollup') (column c row + wsum ((fun n => column c (nd_rollup n)) <$> ch')).
Proof.
  intros Hb. induction cs as [|k cs IH]; intros v0 row rollup ch v1 Hsz Hcs Hp Hr; simpl; [done|].
  apply Forall_cons in Hcs as [Hk Hcs].
  assert (Hsz1 : (size (remaining v1) < bound)%nat).
  { pose proof (remaining_mono v0 v1 (pl_sub _ _ _ Hp)). lia. }
  pose proof (Hb k v1 Hsz1 Hk) as Hbk. destruct (bld k v1) as [[n|] v2].
  - destruct Hbk as [Hpn _]. apply IH; try done; [by eapply placed_snoc|].
    intros c. rewrite column_merge, cong_wadd, Hr, fmap_app, list_fmap_singleton, wsum_snoc.
    by rewrite Z.add_assoc.
  - destruct Hbk as [-> _]. by apply IH.
Qed.

Lemma placed_node v v' key row rollup ch :
  key ∉ v -> own !! key = Some row -> placed ({[key]} ∪ v) v' ch ->
  (forall c, cong (column c rollup) (column c row + wsum ((fun n => column c (nd_rollup n)) <$> ch))) ->
  placed v v' [MkNode key.1 key.2 row rollup ch].
Proof.
  intros Hk Hrow [S1 N1 K1 P1 R1] Hr.
  assert (Hkeys : forest_keys [MkNode key.1 key.2 row rollup ch] = key :: forest_keys ch).
  { unfold forest_keys at 1. rewrite list_fmap_singleton, node_keys_eq. simpl. rewrite app_nil_r. by destruct key. }
  split; rewrite ?Hkeys.
  - intros x Hx. apply S1. apply elem_of_union. by right.
  - apply NoDup_cons_2; [|done]. intros Hin%K1. destruct Hin as [_ Hn]. apply Hn, elem_of_union_l, elem_of_singleton_2. done.
  - intros k. rewrite elem_of_cons, K1. split.
    + intros [->|[H1 H2]]; [split; [apply S1, elem_of_union_l, elem_of_singleton_2; done|done]|].
      split; [done|]. intros Hv. apply H2. apply elem_of_union. by right.
    + intros [H1 H2]. destruct (decide (k = key)) as [->|Hne]; [by left|]. right. split; [done|].
      intros [->%elem_of_singleton|Hv]%elem_of_union; done.
  - intros c. rewrite list_fmap_singleton. simpl. rewrite cong_wadd, Z.add_0_r, Hr.
    rewrite <- Z.add_assoc, P1. rewrite remaining_visit.
    rewrite (msum_delete (column c) (remaining v) key row); [done|].
    rewrite remaining_lookup. by rewrite decide_False.
  - apply Forall_singleton. apply rolled_eq. by destruct key.
Qed.

Lemma children_own k : Forall (fun k => is_Some (own !! k)) (children_of own k).
Proof. apply Forall_forall. intros x [_ Hx]%list_elem_of_filter. by apply step_keys_spec. Qed.

Lemma build_placed fuel : builds (build own fuel) fuel.
Proof.
  induction fuel as [|fuel IH]; intros key v Hsz [row Hrow]; [lia|]. simpl.
  destruct (decide (key ∈ v)) as [Hin|Hk]; [done|]. rewrite Hrow.
  pose proof (visit_size v key row Hk Hrow) as Hvs.
  pose proof (children_loop (build own fuel) fuel (children_of own key.1) IH ({[key]} ∪ v) row row [] ({[key]} ∪ v)
    ltac:(lia) (children_own _) (placed_nil _)) as Hloop.
  destruct (foldl _ _ _) as [[rollup ch] v'].
  destruct Hloop as [Hp Hr]; [intros c; simpl; by rewrite Z.add_0_r|].
  split; [by apply placed_node|]. apply (pl_sub _ _ _ Hp), elem_of_union_l, elem_of_singleton_2. done.
Qed.

(** The roots: natural ones, then the promoted ones. *)
Lemma push_root_placed st key v0 :
  is_Some (own !! key) -> placed v0 st.2 st.1 ->
  placed v0 (push_root own st key).2 (push_root own st key).1 /\ key ∈ (push_root own st key).2 /\
  st.2 ⊆ (push_root own st key).2.
Proof.
  intros Hk Hp. unfold push_root.
  assert (Hsz : (size (remaining st.2) < S (size own))%nat).
  { enough (size (remaining st.2) <= size own)%nat by lia. apply map_subseteq_size, map_filter_subseteq. }
  pose proof (build_placed (S (size own)) key st.2 Hsz Hk) as Hb.
  destruct (build own (S (size own)) key st.2) as [[n|] v'].
  - destruct Hb as [Hn Hin]. split; [by eapply placed_snoc|]. split; [done|apply (pl_sub _ _ _ Hn)].
  - by destruct Hb as [-> Hin].
Qed.

Lemma push_roots_placed keys : forall st v0,
  Forall (fun k => is_Some (own !! k)) keys -> placed v0 st.2 st.1 ->
  placed v0 (foldl (push_root own) st keys).2 (foldl (push_root own) st keys).1.
Proof.
  induction keys as [|k keys IH]; intros st v0 Hk Hp; simpl; [done|].
  apply Forall_cons in Hk as [Hk1 Hk2]. apply IH; [done|]. by apply push_root_placed.
Qed.

Lemma promote_placed fuel : forall st v0,
  (size (remaining st.2) <= fuel)%nat -> placed v0 st.2 st.1 ->
  placed v0 (promote own fuel st).2 (promote own fuel st).1 /\ remaining (promote own fuel st).2 = ∅.
Proof.
  induction fuel as [|fuel IH]; intros st v0 Hsz Hp; simpl.
  { split; [done|]. apply map_size_empty_inv. lia. }
  destruct (filter (fun k => k ∉ st.2) (step_keys own)) as [|key ks] eqn:Hf.
  { split; [done|]. apply map_eq. intros k. rewrite remaining_lookup, lookup_empty.
    destruct (decide (k ∈ st.2)) as [|Hk]; [done|]. destruct (own !! k) eqn:E; [|done]. exfalso.
    assert (Hin : k ∈ filter (fun k => k ∉ st.2) (step_keys own)).
    { apply list_elem_of_filter. split; [done|]. apply step_keys_spec. by eexists. }
    rewrite Hf in Hin. by apply elem_of_nil in Hin. }
  assert (Hin : key ∈ filter (fun k => k ∉ st.2) (step_keys own)) by (rewrite Hf; by left).
  apply list_elem_of_filter in Hin as [Hnk Hk%step_keys_spec].
  destruct (push_root_placed st key v0 Hk Hp) as (Hp' & Hkin & Hsub). apply IH; [|done].
  destruct Hk as [row Hrow]. pose proof (visit_size st.2 key row Hnk Hrow) as Hvs.
  assert (Hle : {[key]} ∪ st.2 ⊆ (push_root own st key).2).
  { intros x [->%elem_of_singleton|Hx]%elem_of_union; [done|by apply Hsub]. }
  pose proof (remaining_mono _ _ Hle). lia.
Qed.
End Tree.

(** Every placed key has a row. *)
Lemma rolled_own own n : rolled own n -> forall k, k ∈ node_keys n -> is_Some (own !! k).
Proof.
  revert n. fix IH 1. intros [s p o r ch] Hr k. rewrite node_keys_eq, elem_of_cons.
  apply rolled_eq in Hr as (Ho & _ & Hch). intros [->|Hk]; [by eexists|].
  revert Hch Hk. unfold forest_keys. clear Ho. induction ch as [|n ch IHch]; intros Hch Hk; simpl in Hk.
  - by apply elem_of_nil in Hk.
  - inversion Hch as [|? ? Hn Hch']; subst. apply elem_of_app in Hk as [Hk|Hk]; [by apply (IH n)|by apply IHch].
Qed.
Lemma placed_own own v v' nodes :
  placed own v v' nodes -> forall k, k ∈ forest_keys nodes -> is_Some (own !! k).
Proof.
  intros Hp k. unfold forest_keys. pose proof (pl_rolled _ _ _ _ Hp) as Hr. clear Hp.
  induction nodes as [|n nodes IH]; simpl; [by intros ?%elem_of_nil|].
  inversion Hr as [|? ? Hn Hr']; subst. rewrite elem_of_app. intros [Hk|Hk]; [by eapply rolled_own|by apply IH].
Qed.

(** The first loop keeps a row per step: the fold of that step's events. *)
Definition own_rows (run_id : string) (events : list UsageEvent) : gmap StepKey UsageAggregateV1 :=
  (foldl fold_step (agg_empty run_id, ∅) events).2.

(** The row of a key in a fold over events. *)
Definition row_of {K} `{EqDecision K} (name : K -> string) (key : UsageEvent -> K) (k : K)
    (events : list UsageEvent) : option UsageAggregateV1 :=
  match filter (fun e => key e = k) events with
  | [] => None
  | es => Some (foldl agg_add (agg_empty (name k)) es)
  end.

Lemma row_of_snoc {K} `{EqDecision K} (name : K -> string) key (k : K) events e :
  row_of name key k (events ++ [e]) =
  if decide (key e = k) then Some (agg_add (default (agg_empty (name k)) (row_of name key k events)) e)
  else row_of name key k events.
Proof.
  unfold row_of. rewrite filter_app, filter_cons, filter_nil. destruct (decide (key e = k)).
  - destruct (filter _ events) as [|e' es]; [done|]. simpl. by rewrite foldl_app.
  - by rewrite app_nil_r.
Qed.

Lemma own_rows_lookup run_id events k :
  own_rows run_id events !! k = row_of fst step_key k events.
Proof.
  unfold own_rows. induction events as [|e events IH] using rev_ind; [apply lookup_empty|].
  rewrite row_of_snoc, foldl_app. cbn [foldl]. destruct (foldl fold_step _ events) as [total own].
  cbn [fold_step fst snd] in *. case_decide as Hk.
  - subst k. by rewrite lookup_insert_eq, <- IH.
  - by rewrite lookup_insert_ne.
Qed.

Lemma row_of_is_Some {K} `{EqDecision K} (name : K -> string) key (k : K) events :
  is_Some (row_of name key k events) <-> k ∈ key <$> events.
Proof.
  rewrite list_elem_of_fmap. unfold row_of. split.
  - destruct (filter _ events) as [|e es] eqn:Hf; [by intros [? ?]|]. intros _. exists e.
    assert (He : e ∈ filter (fun e => key e = k) events) by (rewrite Hf; by left).
    apply list_elem_of_filter in He as [-> ?]. done.
  - intros (e & -> & He). assert (Hf : e ∈ filter (fun e' => key e' = key e) events) by by apply list_elem_of_filter.
    destruct (filter _ events); [by apply elem_of_nil in Hf|done].
Qed.

(** Adding one event to a row moves a map's column by that event. *)
Lemma msum_row {K} `{Countable K} c (m : gmap K UsageAggregateV1) k name e :
  cong (msum (column c) (<[k := agg_add (default (agg_empty name) (m !! k)) e]> m))
    (msum (column c) m + event_column c e).
Proof.
  destruct (m !! k) as [row|] eqn:E; simpl.
  - rewrite (msum_update _ m k row) by done. rewrite (msum_delete _ m k row E), column_add.
    replace (column c row + msum (column c) (delete k m) - column c row) with (msum (column c) (delete k m)) by lia.
    rewrite cong_wadd. replace (msum (column c) (delete k m) + (column c row + event_column c e))
      with (column c row + msum (column c) (delete k m) + event_column c e) by lia. done.
  - rewrite msum_insert by done. rewrite column_add, column_empty, cong_wadd.
    replace (0 + event_column c e + msum (column c) m) with (msum (column c) m + event_column c e) by lia. done.
Qed.

Lemma fold_step_total run_id events c :
  cong (msum (column c) (own_rows run_id events))
    (column c (foldl fold_step (agg_empty run_id, ∅) events).1).
Proof.
  unfold own_rows. induction events as [|e events IH] using rev_ind; [by cbn; rewrite column_empty|].
  rewrite foldl_app. simpl. destruct (foldl fold_step _ events) as [total own]. simpl in *.
  rewrite msum_row, column_add, cong_wadd, IH. done.
Qed.

Lemma fold_step_agg run_id events :
  (foldl fold_step (agg_empty run_id, ∅) events).1 = foldl agg_add (agg_empty run_id) events.
Proof.
  induction events as [|e events IH] using rev_ind; [done|]. rewrite !foldl_app. simpl. rewrite <- IH.
  by destruct (foldl fold_step _ events).
Qed.

Lemma fold_agg_range c key events : in_u64 (column c (foldl agg_add (agg_empty key) events)).
Proof.
  destruct events as [|e events _] using rev_ind; [by cbn [foldl]; rewrite column_empty|].
  rewrite foldl_app. simpl. rewrite column_add. apply wadd_in_u64.
Qed.

Lemma remaining_all own : remaining own ∅ = own.
Proof. apply map_eq. intros k. rewrite remaining_lookup. by rewrite decide_False by set_solver. Qed.

Lemma from_events_placed run_id events : exists v,
  placed (own_rows run_id events) ∅ v (tr_roots (from_events run_id events)) /\
  remaining (own_rows run_id events) v = ∅.
Proof.
  unfold from_events, own_rows. destruct (foldl fold_step _ events) as [total own]. simpl.
  set (st := foldl (push_root own) _ _).
  assert (Hp : placed own ∅ st.2 st.1).
  { apply push_roots_placed; [|apply placed_nil]. apply Forall_forall. intros k [_ Hk]%list_elem_of_filter.
    by apply step_keys_spec. }
  destruct (promote_placed own (size own) st ∅) as [H1 H2]; [|done|by eexists].
  apply map_subseteq_size, map_filter_subseteq.
Qed.

(** The cost tree of a run, whatever the events claim as parents
    (missing ones, cycles, a step that is its own parent): assembly ends
    with every step of the run in the forest exactly once and no other
    step, each node's own row being the fold of exactly that step's events;
    each rollup is the node's own row plus the rollups of its children; and
    in every column the run's total is the fold of all the events and also
    what the roots' rollups add up to, in [u64] arithmetic. *)
Theorem run_tree_conserves_spend run_id events :
  let t := from_events run_id events in
  NoDup (forest_keys (tr_roots t)) /\
  (forall k, k ∈ forest_keys (tr_roots t) <-> k ∈ step_key <$> events) /\
  Forall (rolled (own_rows run_id events)) (tr_roots t) /\
  (forall k, own_rows run_id events !! k = row_of fst step_key k events) /\
  tr_total t = foldl agg_add (agg_empty run_id) events /\
  (forall c, column c (tr_total t) = wsum ((fun n => column c (nd_rollup n)) <$> tr_roots t)).
Proof.
  intros t. destruct (from_events_placed run_id events) as (v & Hp & Hrem). fold t in Hp.
  assert (Ht : tr_total t = foldl agg_add (agg_empty run_id) events).
  { rewrite <- fold_step_agg. unfold t, from_events. by destruct (foldl fold_step _ events). }
  split_and!; [apply Hp| |apply Hp|apply own_rows_lookup|done|].
  - intros k. rewrite (pl_keys _ _ _ _ Hp), <- (row_of_is_Some (K := StepKey) fst step_key k events), <- (own_rows_lookup run_id).
    pose proof (remaining_lookup (own_rows run_id events) v k) as Hl. rewrite Hrem, lookup_empty in Hl.
    split.
    + intros [Hk _]. assert (Hin : k ∈ forest_keys (tr_roots t)) by (apply Hp; set_solver).
      by apply (placed_own _ _ _ _ Hp).
    + intros [row Hrow]. case_decide; [by split; [|apply not_elem_of_empty]|exfalso; pose proof (eq_trans Hl Hrow); done].
  - intros c. apply cong_range; [rewrite Ht; apply fold_agg_range|apply wsum_range|].
    pose proof (pl_spend _ _ _ _ Hp c) as Hs. rewrite Hrem, msum_empty, Z.add_0_r, remaining_all in Hs.
    rewrite Hs, fold_step_total, fold_step_agg, Ht. done.
Qed.

(** ** The bounded aggregator *)

Lemma size_insert_present {K} `{Countable K} {V} (m : gmap K V) k x :
  is_Some (m !! k) -> size (<[k := x]> m) = size m.
Proof. intros [y Hy]. by rewrite map_size_insert, Hy. Qed.

Record aggregated (d : Dimension) (cap : Z) (events : list UsageEvent) (a : UsageAggregator) : Prop := {
  ad_dim : ua_dimension a = d;
  ad_cap : ua_cap a = cap;
  ad_size : Z.of_nat (size (delete OVERFLOW_KEY (ua_rows a))) <= cap;
  ad_full : forall k, k ∈ raw_key d <$> events -> ua_rows a !! k = None -> cap <= Z.of_nat (size (ua_rows a));
  ad_row : forall k row, k <> OVERFLOW_KEY -> ua_rows a !! k = Some row ->
    row_of (fun k => k) (raw_key d) k events = Some row;
  ad_total : ua_total a = foldl agg_add (agg_empty TOTAL_KEY) events;
  ad_sum : forall c, cong (msum (column c) (ua_rows a)) (column c (ua_total a)) }.

Lemma size_delete_le {K} `{Countable K} {V} (m : gmap K V) k : (size (delete k m) <= size m)%nat.
Proof. apply map_subseteq_size, delete_subseteq. Qed.

Lemma ua_add_size d cap events a e : aggregated d cap events a ->
  Z.of_nat (size (delete OVERFLOW_KEY (ua_rows (ua_add a e)))) <= cap.
Proof.
  intros Ha. destruct Ha as [_ Hc Hs _ _ _ _]. simpl. unfold ua_key. rewrite Hc.
  case_bool_decide as Hin; simpl.
  - destruct (decide (raw_key (ua_dimension a) e = OVERFLOW_KEY)) as [->|Hne]; [by rewrite delete_insert_eq|].
    rewrite delete_insert_ne by done. rewrite size_insert_present; [done|]. by rewrite lookup_delete_ne.
  - destruct (Z.ltb_spec (Z.of_nat (size (ua_rows a))) cap) as [Hlt|Hge]; [|by rewrite delete_insert_eq].
    etrans; [apply inj_le, size_delete_le|]. rewrite map_size_insert_None; [lia|]. by apply eq_None_not_Some.
Qed.

Lemma ua_add_full d cap events a e : aggregated d cap events a ->
  forall k, k ∈ raw_key d <$> events ++ [e] -> ua_rows (ua_add a e) !! k = None ->
  cap <= Z.of_nat (size (ua_rows (ua_add a e))).
Proof.
  intros Ha k Hk. destruct Ha as [Hd Hc _ Hf _ _ _]. simpl.
  set (row := agg_add _ e). intros [Hno Hne]%lookup_insert_None.
  assert (Hle : (size (ua_rows a) <= size (<[ua_key a e := row]> (ua_rows a)))%nat).
  { rewrite map_size_insert. destruct (ua_rows a !! ua_key a e); unfold id; lia. }
  rewrite fmap_app, elem_of_app in Hk. destruct Hk as [Hk|Hk]; [pose proof (Hf k Hk Hno); lia|].
  rewrite list_fmap_singleton, list_elem_of_singleton in Hk. subst k. unfold ua_key in *. rewrite Hd, Hc in *.
  case_bool_decide; simpl in *; [done|]. destruct (Z.ltb_spec (Z.of_nat (size (ua_rows a))) cap); [done|lia].
Qed.

Lemma ua_add_row d cap events a e : aggregated d cap events a ->
  forall k row, k <> OVERFLOW_KEY -> ua_rows (ua_add a e) !! k = Some row ->
  row_of (fun k => k) (raw_key d) k (events ++ [e]) = Some row.
Proof.
  intros [Hd Hc _ Hf Hr _ _] k row Hk. rewrite row_of_snoc. simpl. unfold ua_key. rewrite Hd, Hc.
  destruct (bool_decide (is_Some (ua_rows a !! raw_key d e)) || (Z.of_nat (size (ua_rows a)) <? cap)) eqn:Hb; cycle 1.
  { apply orb_false_iff in Hb as [Hb%bool_decide_eq_false_1 _]. rewrite lookup_insert_ne by done. intros Hrow.
    case_decide as He; [subst k; destruct Hb; by eexists|by apply Hr]. }
  case_decide as He.
  - subst k. rewrite lookup_insert_eq. intros [= <-]. do 2 f_equal.
    destruct (ua_rows a !! raw_key d e) as [r|] eqn:E; [by rewrite (Hr _ r)|].
    apply orb_true_iff in Hb as [[? ?]%bool_decide_eq_true_1|Hlt%Z.ltb_lt]; [done|].
    destruct (row_of _ _ _ events) eqn:Hro; [|done]. exfalso.
    assert (Hin : raw_key d e ∈ raw_key d <$> events) by (apply (row_of_is_Some (fun k => k)); by eexists).
    pose proof (Hf _ Hin E). lia.
  - rewrite lookup_insert_ne by done. by apply Hr.
Qed.

Lemma aggregator_inv d cap events : 0 <= cap ->
  aggregated d cap events (foldl ua_add (with_cap d cap) events).
Proof.
  intros Hcap. induction events as [|e events IH] using rev_ind.
  { split; simpl; try done.
    - intros k. by rewrite elem_of_nil.
    - intros c. by rewrite column_empty. }
  rewrite foldl_app. cbn [foldl]. pose proof IH as IH'. destruct IH as [Hd Hc Hs Hf Hr Ht Hsum].
  split; [done|done|by eapply ua_add_size|by eapply ua_add_full|by eapply ua_add_row| |].
  - simpl. by rewrite Ht, foldl_app.
  - intros c. simpl. rewrite msum_row, column_add, cong_wadd, Hsum. done.
Qed.

(** ** The reported rows *)

Lemma wsum_perm l l' : l ≡ₚ l' -> cong (wsum l) (wsum l').
Proof.
  induction 1 as [|x l l' _ IH|x y l|l l' l'' _ IH1 _ IH2]; simpl; [done| | |by etrans].
  - by rewrite !cong_wadd, IH.
  - rewrite !cong_wadd. rewrite !Z.add_assoc. by rewrite (Z.add_comm y x).
Qed.
Lemma wsum_map {K} `{Countable K} (f : UsageAggregateV1 -> Z) (m : gmap K UsageAggregateV1) :
  cong (wsum ((fun kv => f kv.2) <$> map_to_list m)) (msum f m).
Proof.
  induction m as [|i x m Hi IH] using map_ind; [by rewrite map_to_list_empty, msum_empty|].
  rewrite (wsum_perm _ _ (fmap_Permutation _ _ _ (map_to_list_insert m i x Hi))), msum_insert by done.
  simpl. by rewrite cong_wadd, IH.
Qed.
Lemma column_latency c l a : column c (set_latency l a) = column c a.
Proof. by destruct c. Qed.

Lemma rows_out_sum c a : cong (wsum (column c <$> ua_rows_out a)) (msum (column c) (ua_rows a)).
Proof.
  unfold ua_rows_out. rewrite <- wsum_map. rewrite (wsum_perm _ _ (fmap_Permutation _ _ _ (merge_sort_Permutation _ _))).
  rewrite <- list_fmap_compose. erewrite (list_fmap_ext _ (fun kv => column c kv.2)); [done|].
  intros i kv _. apply column_latency.
Qed.
Lemma rows_out_length a : length (ua_rows_out a) = size (ua_rows a).
Proof.
  unfold ua_rows_out. rewrite (Permutation_length (merge_sort_Permutation _ _)), length_fmap.
  apply length_map_to_list.
Qed.

(** the bounded aggregator.  Whatever the events and however many
    distinct keys they bring, it reports at most [cap + 1] rows; the rows it
    reports add up, in every column, to the total it reports, which is the
    fold of all the events; and a tracked key's row is exactly the fold of
    that key's events: a key is never tracked in part. *)
Theorem aggregator_is_bounded_and_exact d cap events :
  0 <= cap ->
  let a := foldl ua_add (with_cap d cap) events in
  Z.of_nat (length (ua_rows_out a)) <= cap + 1 /\
  (forall c, column c (ua_total_out a) = column c (foldl agg_add (agg_empty TOTAL_KEY) events)) /\
  (forall c, wsum (column c <$> ua_rows_out a) = column c (ua_total_out a)) /\
  (forall k row, k <> OVERFLOW_KEY -> ua_rows a !! k = Some row ->
     row_of (fun k => k) (raw_key d) k events = Some row).
Proof.
  intros Hcap a. destruct (aggregator_inv d cap events Hcap) as [_ _ Hs _ Hr Ht Hsum]. fold a in Hs, Hr, Ht, Hsum.
  split_and!; [| | |done].
  - rewrite rows_out_length. rewrite map_size_delete in Hs. destruct (ua_rows a !! OVERFLOW_KEY); unfold id in Hs; lia.
  - intros c. unfold ua_total_out. by rewrite column_latency, Ht.
  - intros c. unfold ua_total_out. rewrite column_latency. apply cong_range; [apply wsum_range| |].
    + rewrite Ht. apply fold_agg_range.
    + by rewrite rows_out_sum.
Qed.
Definition agg_event (model : string) (tin : Z) : UsageEvent :=
  with_tokens (UsageEvent_new "r" "t" "openai" model External) tin 1.
Lemma aggregator_is_bounded_and_exact_witness :
  let a := foldl ua_add (with_cap Model 1) [agg_event "a" 3; agg_event "b" 4; agg_event "c" 5] in
  length (ua_rows_out a) = 2%nat /\
  wsum (column CIn <$> ua_rows_out a) = 12 /\
  Z.of_nat (length (ua_rows_out a)) <= 1 + 1 /\
  (forall c, column c (ua_total_out a) =
     column c (foldl agg_add (agg_empty TOTAL_KEY) [agg_event "a" 3; agg_event "b" 4; agg_event "c" 5])).
Proof.
  destruct (aggregator_is_bounded_and_exact Model 1 [agg_event "a" 3; agg_event "b" 4; agg_event "c" 5] ltac:(lia))
    as (H1 & H2 & _ & _).
  split_and!; [vm_compute; reflexivity|vm_compute; reflexivity|exact H1|exact H2].
Defined.
