(* ===== verification/Alerts.v ===== *)
(** [crates/sandhi-core/src/alerts.rs]: the channel of an alert rule and its
    stored spelling, and the registry that fires a rule when a scope's spend
    crosses its threshold and then keeps quiet for a cooldown. *)

From stdpp Require Import pretty.
From S2P Require Import Prelude Text Stats.

(** ** Channels *)

Inductive AlertChannel := Log | Webhook (url : string).

Definition channel_as_str (c : AlertChannel) : string :=
  match c with Log => "log" | Webhook url => "webhook:" +:+ url end.

(** [split_once(':')]: the text after the first colon. *)
Fixpoint after_colon (s : list Z) : option (list Z) :=
  match s with [] => None | b :: s => if b =? 58 then Some s else after_colon s end.

Definition channel_parse (text : string) : AlertChannel :=
  let s := trim (bytes text) in
  let lower := to_ascii_lowercase s in
  if bool_decide (lower = bytes "log") then Log
  else if starts_with (bytes "webhook:") lower then
    let url := default [] (trim <$> after_colon s) in
    match url with [] => Log | _ => Webhook (string_of url) end
  else Log.

(** ** Rules and alerts *)

Record AlertRule := MkRule {
  ru_id : string; ru_scope : string; ru_threshold_pct : Z; ru_channel : AlertChannel }.

Record Alert := MkAlert {
  al_rule_id : string; al_scope : string; al_threshold_pct : Z; al_spent : Z; al_limit : Z;
  al_pct : Z; al_message : string; al_fired_at : string }.

(** [spent * 100] at 64 bits, as the release build computes it. *)
Definition percent (spent limit : Z) : Z := wmul spent 100 / limit.

Definition alert_message (rule : AlertRule) (pct spent limit : Z) : string :=
  "budget alert: scope '" +:+ ru_scope rule +:+ "' at " +:+ pretty pct +:+ "% (" +:+ pretty spent
  +:+ " of " +:+ pretty limit +:+ " tokens, threshold " +:+ pretty (ru_threshold_pct rule) +:+ "%)".

(** [checked_div] by [limit.max(1)] never fails. *)
Definition from_rule (rule : AlertRule) (spent limit : Z) (fired_at : string) : Alert :=
  let pct := percent spent (Z.max limit 1) in
  MkAlert (ru_id rule) (ru_scope rule) (ru_threshold_pct rule) spent limit pct
    (alert_message rule pct spent limit) fired_at.

(** ** The registry *)

Record AlertRegistry := MkRegistry {
  rg_rules : list AlertRule; rg_last_fired_at : gmap (string * string) string; rg_cooldown_secs : Z }.

Definition DEFAULT_COOLDOWN_SECS : Z := 3600.
Definition registry_new (cooldown_secs : Z) : AlertRegistry := MkRegistry [] ∅ cooldown_secs.
Definition registry_default : AlertRegistry := registry_new DEFAULT_COOLDOWN_SECS.

Definition add_rule (rule : AlertRule) (g : AlertRegistry) : AlertRegistry :=
  if existsb (fun r => String.eqb (ru_id r) (ru_id rule)) (rg_rules g) then g
  else MkRegistry (rg_rules g ++ [rule]) (rg_last_fired_at g) (rg_cooldown_secs g).

Definition remove_rule (id : string) (g : AlertRegistry) : bool * AlertRegistry :=
  let rules := filter (fun r => ru_id r <> id) (rg_rules g) in
  (negb (Nat.eqb (length rules) (length (rg_rules g))),
   MkRegistry rules (filter (fun kv => kv.1.2 <> id) (rg_last_fired_at g)) (rg_cooldown_secs g)).

Definition set_last_fired_at (scope rule_id : string) (fired_at : option string) (g : AlertRegistry) : AlertRegistry :=
  match fired_at with
  | Some ts => MkRegistry (rg_rules g) (<[(scope, rule_id) := ts]> (rg_last_fired_at g)) (rg_cooldown_secs g)
  | None => g
  end.
Definition last_fired_at (scope rule_id : string) (g : AlertRegistry) : option string :=
  rg_last_fired_at g !! (scope, rule_id).

(** The clock's text and the parsing of one are the [time] crate's. *)
Section Evaluate.
Variable parse_ts : string -> option Z.

(** What an evaluation does besides answering: the line it logs for each
    alert, and the webhook calls, in order. *)
Record Fired := MkFired {
  fi_last : gmap (string * string) string; fi_alerts : list Alert; fi_sent : list (string * Alert) }.

Definition cooled_down (cooldown now_ts : Z) (last : option string) : bool :=
  match last ≫= parse_ts with
  | Some l => negb (sat_sub_i64 now_ts l <? cooldown)
  | None => true
  end.

Definition evaluate_rule (now : string) (now_ts cooldown : Z) (scope : string) (spent limit : Z)
    (st : Fired) (rule : AlertRule) : Fired :=
  if percent spent limit <? ru_threshold_pct rule then st
  else
    let key := (scope, ru_id rule) in
    if negb (cooled_down cooldown now_ts (fi_last st !! key)) then st
    else
      let alert := from_rule rule spent limit now in
      MkFired (<[key := now]> (fi_last st)) (fi_alerts st ++ [alert])
        (match ru_channel rule with Webhook url => fi_sent st ++ [(url, alert)] | Log => fi_sent st end).

Definition evaluate (now : string) (scope : string) (spent : Z) (limit : option Z) (g : AlertRegistry)
    : list Alert * list (string * Alert) * AlertRegistry :=
  match limit with
  | None => ([], [], g)
  | Some limit =>
      if limit <=? 0 then ([], [], g)
      else
        let now_ts := default 0 (parse_ts now) in
        let st := foldl (evaluate_rule now now_ts (rg_cooldown_secs g) scope spent limit)
                    (MkFired (rg_last_fired_at g) [] [])
                    (filter (fun r => ru_scope r = scope) (rg_rules g)) in
        (fi_alerts st, fi_sent st, MkRegistry (rg_rules g) (fi_last st) (rg_cooldown_secs g))
  end.
End Evaluate.

(** ** The spelling of a channel *)

Lemma parse_printed url :
  trim (bytes url) = bytes url -> url <> ""%string -> channel_parse (channel_as_str (Webhook url)) = Webhook url.
Proof.
  intros Ht Hne. assert (Hb : bytes url <> []) by (by destruct url).
  unfold channel_parse, channel_as_str. rewrite bytes_app, <- Ht, trim_prefixed; [|done|done|by rewrite Ht].
  rewrite Ht. unfold to_ascii_lowercase, starts_with. rewrite fmap_app.
  change (ascii_lower <$> bytes "webhook:") with (bytes "webhook:"). rewrite strip_prefix_app.
  change (after_colon (bytes "webhook:" ++ bytes url)) with (Some (bytes url)).
  rewrite bool_decide_eq_false_2 by done. cbv zeta.
  change (default [] (trim <$> Some (bytes url))) with (trim (bytes url)). rewrite Ht, string_of_bytes.
  by destruct (bytes url).
Qed.

Lemma after_colon_Forall P s r : Forall P s -> after_colon s = Some r -> Forall P r.
Proof.
  induction 1 as [|b s Hb Hs IH]; simpl; [done|]. destruct (b =? 58); [by intros [= <-]|done].
Qed.

Lemma parsed_is_trimmed text url :
  channel_parse text = Webhook url -> trim (bytes url) = bytes url /\ url <> ""%string.
Proof.
  unfold channel_parse. case_bool_decide; [done|]. destruct (starts_with _ _); [|done].
  destruct (after_colon (trim (bytes text))) as [r|] eqn:Hr; [|done]. simpl.
  assert (Hb : Forall is_byte (trim r)).
  { apply trim_Forall. eapply after_colon_Forall; [|done]. apply trim_Forall, bytes_are_bytes. }
  destruct (trim r) as [|b u] eqn:Hu; [done|]. intros [= <-]. rewrite bytes_string_of by done. split.
  - rewrite <- Hu. apply trim_idem.
  - intros He. assert (bytes (string_of (b :: u)) = []) as Hn by (by rewrite He). by rewrite bytes_string_of in Hn.
Qed.

(** the stored spellings read back.  What a channel's text is parsed
    to survives being written and parsed again, whatever the text; a webhook
    channel built directly does so exactly when its url is not empty and has
    no white space around it; and every dimension's name is parsed to it. *)
Theorem stored_names_round_trip :
  (forall text, channel_parse (channel_as_str (channel_parse text)) = channel_parse text) /\
  (forall url, channel_parse (channel_as_str (Webhook url)) = Webhook url <->
     trim (bytes url) = bytes url /\ url <> ""%string) /\
  (forall d, dimension_parse (dimension_as_str d) = Some d).
Proof.
  split_and!.
  - intros text. destruct (channel_parse text) as [|url] eqn:Hp; [done|]. by apply parse_printed; eapply parsed_is_trimmed.
  - intros url. split; [apply parsed_is_trimmed|intros []; by apply parse_printed].
  - by intros [].
Qed.

(** ** The cooldown *)

Section Cooldown.
Variable parse_ts : string -> option Z.

(** What happens to a registry while it runs. *)
Inductive RegistryOp :=
| OpAddRule (rule : AlertRule)
| OpEvaluate (now scope : string) (spent : Z) (limit : option Z).

(** One operation after another, with every alert raised so far. *)
Definition registry_step (st : list Alert * AlertRegistry) (op : RegistryOp) : list Alert * AlertRegistry :=
  match op with
  | OpAddRule rule => (st.1, add_rule rule st.2)
  | OpEvaluate now scope spent limit =>
      let '(alerts, _, g) := evaluate parse_ts now scope spent limit st.2 in (st.1 ++ alerts, g)
  end.
Definition registry_run (g : AlertRegistry) (ops : list RegistryOp) : list Alert * AlertRegistry :=
  foldl registry_step ([], g) ops.

Definition same_rule (a b : Alert) : Prop := al_scope a = al_scope b /\ al_rule_id a = al_rule_id b.
Definition fired_ts (a : Alert) : option Z := parse_ts (al_fired_at a).

Definition quiet (cooldown : Z) (a b : Alert) : Prop :=
  same_rule a b -> exists s t, fired_ts a = Some s /\ fired_ts b = Some t /\ s + cooldown <= t.
Definition spaced (cooldown : Z) (h : list Alert) : Prop :=
  forall i j a b, (i < j)%nat -> h !! i = Some a -> h !! j = Some b -> quiet cooldown a b.
(** The registry remembers a firing of each alert's rule, no older. *)
Definition remembered (last : gmap (string * string) string) (h : list Alert) : Prop :=
  Forall (fun a => exists s l t, last !! (al_scope a, al_rule_id a) = Some s /\ parse_ts s = Some l /\
                           fired_ts a = Some t /\ t <= l) h.
(** An alert's percentage reaches its threshold. *)
Definition over (a : Alert) : Prop :=
  0 < al_limit a /\ al_threshold_pct a <= percent (al_spent a) (al_limit a).

Lemma spaced_snoc cooldown h b :
  spaced cooldown h -> Forall (fun a => quiet cooldown a b) h -> spaced cooldown (h ++ [b]).
Proof.
  intros Hs Hb i j a b' Hij Ha Hb'. apply lookup_snoc_Some in Hb' as [[Hj Hb']|[-> <-]].
  - rewrite lookup_app_l in Ha by lia. eauto.
  - rewrite lookup_app_l in Ha by lia. by eapply Forall_lookup_1 in Hb.
Qed.

Lemma cooled_gap cooldown now_ts l s :
  0 <= cooldown <= i64_max -> parse_ts s = Some l -> cooled_down parse_ts cooldown now_ts (Some s) = true -> l + cooldown <= now_ts.
Proof.
  unfold cooled_down, sat_sub_i64. simpl. intros Hc ->. rewrite negb_true_iff, Z.ltb_ge. ulia.
Qed.

Definition history_ok (cooldown : Z) (h : list Alert) (last : gmap (string * string) string) : Prop :=
  spaced cooldown h /\ remembered last h /\ Forall over h.

(** One rule: the alert it may raise extends the history. *)
Lemma evaluate_rule_ok cooldown now ts scope spent limit h st rule :
  0 <= cooldown <= i64_max -> parse_ts now = Some ts -> 0 < limit -> ru_scope rule = scope ->
  history_ok cooldown (h ++ fi_alerts st) (fi_last st) ->
  history_ok cooldown (h ++ fi_alerts (evaluate_rule parse_ts now ts cooldown scope spent limit st rule))
    (fi_last (evaluate_rule parse_ts now ts cooldown scope spent limit st rule)).
Proof.
  intros Hc Hnow Hl Hsc Hok. unfold evaluate_rule. destruct (Z.ltb_spec (percent spent limit) (ru_threshold_pct rule)); [done|].
  destruct (cooled_down _ _ _ _) eqn:Hcd; [|done]. destruct Hok as (Hs & Hr & Ho). simpl. rewrite app_assoc.
  set (b := from_rule rule spent limit now). split_and!.
  - apply spaced_snoc; [done|]. apply Forall_forall. intros a Ha.
    destruct (proj1 (Forall_forall _ _) Hr a Ha) as (s & l & t & Hlast & Hp & Hf & Hle). intros [E1 E2].
    exists t, ts. split_and!; [done|done|]. simpl in E1, E2. rewrite E1, E2, Hsc in Hlast. rewrite Hlast in Hcd.
    pose proof (cooled_gap _ _ _ _ Hc Hp Hcd). lia.
  - apply Forall_app. split; [|apply Forall_singleton; exists now, ts, ts; simpl; rewrite Hsc, lookup_insert_eq; done].
    apply Forall_forall. intros a Ha. destruct (proj1 (Forall_forall _ _) Hr a Ha) as (s & l & t & Hlast & Hp & Hf & Hle).
    destruct (decide ((scope, ru_id rule) = (al_scope a, al_rule_id a))) as [E|E]; [|rewrite lookup_insert_ne by done; eauto 10].
    rewrite E, lookup_insert_eq in *. rewrite Hlast in Hcd.
    pose proof (cooled_gap _ _ _ _ Hc Hp Hcd). exists now, ts, t. split_and!; [done..|lia].
  - apply Forall_app. split; [done|]. apply Forall_singleton. by split.
Qed.

Lemma evaluate_rules_ok cooldown now ts scope spent limit h rules : forall st,
  0 <= cooldown <= i64_max -> parse_ts now = Some ts -> 0 < limit -> Forall (fun r => ru_scope r = scope) rules ->
  history_ok cooldown (h ++ fi_alerts st) (fi_last st) ->
  let st' := foldl (evaluate_rule parse_ts now ts cooldown scope spent limit) st rules in
  history_ok cooldown (h ++ fi_alerts st') (fi_last st').
Proof.
  induction rules as [|rule rules IH]; intros st Hc Hnow Hl Hsc Hok; [done|]. simpl.
  apply Forall_cons in Hsc as [Hsc1 Hsc2]. apply IH; [done..|]. by apply evaluate_rule_ok.
Qed.

(** The clock of an operation can be read. *)
Definition clocked (op : RegistryOp) : Prop :=
  match op with OpAddRule _ => True | OpEvaluate now _ _ _ => is_Some (parse_ts now) end.

Lemma registry_step_ok cooldown st op :
  0 <= cooldown <= i64_max -> clocked op -> rg_cooldown_secs st.2 = cooldown ->
  history_ok cooldown st.1 (rg_last_fired_at st.2) ->
  history_ok cooldown (registry_step st op).1 (rg_last_fired_at (registry_step st op).2) /\
  rg_cooldown_secs (registry_step st op).2 = cooldown.
Proof.
  intros Hc Hop Hcd Hok. destruct op as [rule|now scope spent limit]; simpl.
  - unfold add_rule. by destruct (existsb _ _).
  - destruct Hop as [ts Hts]. unfold evaluate. destruct limit as [limit|]; simpl; [|by rewrite app_nil_r].
    destruct (Z.leb_spec limit 0) as [|Hl]; simpl; [by rewrite app_nil_r|]. rewrite Hcd, Hts. split; [|done].
    apply evaluate_rules_ok; [done..| |by rewrite app_nil_r].
    apply Forall_forall. by intros r [Hr _]%list_elem_of_filter.
Qed.

Lemma registry_run_ok cooldown ops : forall st,
  0 <= cooldown <= i64_max -> Forall clocked ops -> rg_cooldown_secs st.2 = cooldown ->
  history_ok cooldown st.1 (rg_last_fired_at st.2) ->
  history_ok cooldown (foldl registry_step st ops).1 (rg_last_fired_at (foldl registry_step st ops).2).
Proof.
  induction ops as [|op ops IH]; intros st Hc Hops Hcd Hok; [done|]. apply Forall_cons in Hops as [Hop Hops].
  destruct (registry_step_ok cooldown st op Hc Hop Hcd Hok). by apply IH.
Qed.

(** Nothing over its threshold is passed over: after an evaluation, the rule
    has a firing on record that is this one or still within the cooldown. *)
Definition accounted (now : string) (ts cooldown : Z) (scope : string) (last : gmap (string * string) string)
    (rule : AlertRule) : Prop :=
  exists s, last !! (scope, ru_id rule) = Some s /\
    (s = now \/ exists l, parse_ts s = Some l /\ sat_sub_i64 ts l < cooldown).

Lemma evaluate_rule_accounts now ts cooldown scope spent limit st rule :
  ru_threshold_pct rule <= percent spent limit ->
  accounted now ts cooldown scope (fi_last (evaluate_rule parse_ts now ts cooldown scope spent limit st rule)) rule.
Proof.
  intros Hp. unfold evaluate_rule. destruct (Z.ltb_spec (percent spent limit) (ru_threshold_pct rule)); [lia|].
  destruct (cooled_down _ _ _ _) eqn:Hcd; simpl.
  - exists now. rewrite lookup_insert_eq. auto.
  - unfold cooled_down in Hcd. destruct (fi_last st !! _) as [s|] eqn:Hs; simpl in Hcd; [|done].
    destruct (parse_ts s) as [l|] eqn:Hl; [|done]. exists s. split; [done|]. right. exists l.
    apply negb_false_iff, Z.ltb_lt in Hcd. done.
Qed.

Lemma evaluate_rule_keeps now ts cooldown scope spent limit st rule r :
  accounted now ts cooldown scope (fi_last st) r ->
  accounted now ts cooldown scope (fi_last (evaluate_rule parse_ts now ts cooldown scope spent limit st rule)) r.
Proof.
  intros (s & Hs & Ha). unfold evaluate_rule. destruct (_ <? _); [by exists s|].
  destruct (cooled_down _ _ _ _); simpl; [|by exists s].
  destruct (decide (ru_id rule = ru_id r)) as [E|E].
  - exists now. rewrite E, lookup_insert_eq. auto.
  - exists s. rewrite lookup_insert_ne by congruence. auto.
Qed.

Lemma evaluate_rules_account now ts cooldown scope spent limit rules r : forall st,
  r ∈ rules -> ru_threshold_pct r <= percent spent limit ->
  accounted now ts cooldown scope (fi_last (foldl (evaluate_rule parse_ts now ts cooldown scope spent limit) st rules)) r.
Proof.
  induction rules as [|rule rules IH] using rev_ind; intros st Hr Hp; [by apply elem_of_nil in Hr|].
  rewrite foldl_app. simpl. apply elem_of_app in Hr as [Hr|Hr%list_elem_of_singleton].
  - apply evaluate_rule_keeps. by apply IH.
  - subst. by apply evaluate_rule_accounts.
Qed.
End Cooldown.

(** The alert registry, over any sequence of added rules and
    evaluations whose clock can be read.  Two alerts of one rule on one scope
    are at least the cooldown apart, however the evaluations are spread and
    whatever the spend; no alert is raised for a scope without a limit or
    below the rule's threshold; and in every evaluation a rule at its
    threshold is either raised then or has a firing on record within the
    cooldown, so none is lost. *)
Theorem alerts_fire_once_per_cooldown parse_ts cooldown ops :
  0 <= cooldown <= i64_max -> Forall (clocked parse_ts) ops ->
  let '(alerts, g) := registry_run parse_ts (registry_new cooldown) ops in
  spaced parse_ts cooldown alerts /\ Forall over alerts /\
  forall now scope spent limit rule, is_Some (parse_ts now) -> 0 < limit ->
    rule ∈ rg_rules g -> ru_scope rule = scope -> ru_threshold_pct rule <= percent spent limit ->
    accounted parse_ts now (default 0 (parse_ts now)) (rg_cooldown_secs g) scope
      (rg_last_fired_at (evaluate parse_ts now scope spent (Some limit) g).2) rule.
Proof.
  intros Hc Hops. pose proof (registry_run_ok parse_ts cooldown ops ([], registry_new cooldown) Hc Hops eq_refl) as Hok.
  unfold registry_run. destruct (foldl _ _ ops) as [alerts g]. destruct Hok as (Hs & _ & Ho).
  { split_and!; [intros i j a b _; cbn [fst]; by rewrite lookup_nil|constructor|constructor]. }
  split_and!; [done|done|]. intros now scope spent limit rule _ Hl Hr Hsc Hp.
  unfold evaluate. destruct (Z.leb_spec limit 0); [lia|]. simpl.
  apply evaluate_rules_account; [|done]. by apply list_elem_of_filter.
Qed.

(** The clock in seconds, for the examples. *)
Definition clock_read (s : string) : option Z :=
  match s with "10" => Some 10 | "20" => Some 20 | "4000" => Some 4000 | _ => None end%string.
Lemma alerts_fire_once_per_cooldown_witness :
  let ops := [OpAddRule (MkRule "a1" "group:x" 80 Log);
              OpEvaluate "10" "group:x" 80 (Some 100); OpEvaluate "20" "group:x" 90 (Some 100);
              OpEvaluate "4000" "group:x" 95 (Some 100)] in
  let alerts := (registry_run clock_read (registry_new 3600) ops).1 in
  al_fired_at <$> alerts = ["10"; "4000"]%string /\ spaced clock_read 3600 alerts /\ Forall over alerts.
Proof.
  intros ops alerts.
  pose proof (alerts_fire_once_per_cooldown clock_read 3600 ops ltac:(done)
    ltac:(repeat constructor; eexists; reflexivity)) as Hw.
  rewrite (surjective_pairing (registry_run _ _ _)) in Hw. destruct Hw as (H1 & H2 & _).
  split_and!; [vm_compute; reflexivity|exact H1|exact H2].
Defined.
