(* ===== verification/Attempt.v ===== *)
(** [crates/sandhi-providers/src/attempt.rs]: the observation of physical
    attempts.  A guard reports one dispatch when an adapter sends a request
    and one terminal when the attempt ends, however it ends: an answer, an
    error, a stream that stops short, a timeout or a caller that goes away. *)

From S2P Require Import Prelude Usage UsageParse.

(** ** Provider errors and stream items ([lib.rs]) *)

Inductive ProviderError :=
| InvalidRequest (detail : string) | AuthError | RateLimited
| Upstream (status : Z) (body : option string) (request_id : option (list Z))
| Transport (detail : string) | CircuitOpen | TimeoutError (bound : Z).

Record StreamChunk := MkChunk {
  ck_data : list Z; ck_usage : option ParsedUsage; ck_usage_running : option ParsedUsage;
  ck_cache_obs : option CacheReadObservation; ck_attempts : Z; ck_terminal : bool }.

(** ** Labels

    A label is the list of its characters' scalar values. *)

Definition utf8_len (c : Z) : Z :=
  if c <? 128 then 1 else if c <? 2048 then 2 else if c <? 65536 then 3 else 4.
Definition label_len (l : list Z) : Z := foldr (fun c n => utf8_len c + n) 0 l.
(** [char::is_control]: the category Cc. *)
Definition is_control (c : Z) : bool := ((0 <=? c) && (c <=? 31)) || ((127 <=? c) && (c <=? 159)).

Definition MAX_EXECUTION_ID_BYTES : Z := 192.
Definition MAX_PROVIDER_BYTES : Z := 96.
Definition MAX_MODEL_BYTES : Z := 256.
Definition MAX_PROVIDER_REQUEST_ID_BYTES : Z := 256.
Definition MAX_CHANNEL_CAPACITY : Z := 65536.

Definition validate_label (value : list Z) (max_bytes : Z) : bool :=
  negb (bool_decide (value = []) || (max_bytes <? label_len value) || existsb is_control value).

Definition sanitized (c : Z) : Z := if is_control c then 65533 else c.
(** The loop over the characters; [len] is what was pushed so far. *)
Fixpoint bounded_from (len : Z) (value : list Z) (max_bytes : Z) : list Z :=
  match value with
  | [] => []
  | c :: value =>
      if max_bytes <? len + utf8_len (sanitized c) then []
      else sanitized c :: bounded_from (len + utf8_len (sanitized c)) value max_bytes
  end.
Definition bounded_label (value : list Z) (max_bytes : Z) : list Z := bounded_from 0 value max_bytes.

(** ** Observations *)

Inductive AttemptOutcome := Success | ProviderRejected | TransportErrorOutcome | TimeoutOutcome | Cancelled | IncompleteStream.

Inductive AttemptPhase :=
| Dispatch
| Terminal (outcome : AttemptOutcome) (provider_status : option Z) (provider_request_id : option (list Z))
    (usage : option ParsedUsage) (usage_completeness : UsageCompleteness).

Record AttemptObservation := MkObservation {
  ob_version : Z; ob_execution_id : list Z; ob_attempt_id : string; ob_ordinal : Z; ob_provider : list Z;
  ob_model : option (list Z); ob_observed_at : Z; ob_phase : AttemptPhase }.

Definition ATTEMPT_OBSERVATION_VERSION : Z := 1.

(** [i64::try_from(millis).unwrap_or(i64::MAX)]. *)
Definition now_unix_ms (millis : Z) : Z := if millis <=? i64_max then millis else i64_max.

Definition hex_digit (d : Z) : ascii :=
  ascii_of_nat (Z.to_nat (if d <? 10 then 48 + d else 87 + d)).
(** The two digits of each byte. *)
Fixpoint hex (bytes : list Z) : string :=
  match bytes with
  | [] => ""
  | b :: bytes => String (hex_digit (Z.shiftr b 4)) (String (hex_digit (Z.land b 15)) (hex bytes))
  end.
(** [{:016x}] of a [u64]: its sixteen digits, the last [n] of them. *)
Fixpoint hex_digits (n : nat) (z : Z) : string :=
  match n with
  | O => ""
  | S n => String (hex_digit (Z.land (Z.shiftr z (4 * Z.of_nat n)) 15)) (hex_digits n z)
  end.
Definition attempt_id_of (nonce : list Z) (ordinal : Z) : string :=
  "att_" +:+ hex nonce +:+ "_" +:+ hex_digits 16 ordinal.

(** ** The context: the bounded channel and the cancellation scopes *)

Record SharedAttemptContext := MkShared {
  sh_execution_id : list Z; sh_nonce : list Z; sh_queue : list AttemptObservation; sh_capacity : Z;
  sh_connected : bool; sh_next_ordinal : Z; sh_dropped : Z }.

Inductive AttemptContextError := InvalidExecutionId | InvalidCapacity | EntropyUnavailable.

(** The scopes of an execution: whether each timed out, and its parent,
    allocated before it. *)
Notation Scopes := (list (bool * option nat)).

Definition attempt_channel (execution_id : list Z) (capacity : Z) (entropy : option (list Z))
    : result AttemptContextError (SharedAttemptContext * Scopes) :=
  if negb (validate_label execution_id MAX_EXECUTION_ID_BYTES) then Err InvalidExecutionId
  else if (capacity =? 0) || (MAX_CHANNEL_CAPACITY <? capacity) then Err InvalidCapacity
  else match entropy with
  | None => Err EntropyUnavailable
  | Some nonce => Ok (MkShared execution_id nonce [] capacity true 0 0, [(false, None)])
  end.

(** [try_send]: full or disconnected counts a drop. *)
Definition try_send (o : AttemptObservation) (s : SharedAttemptContext) : SharedAttemptContext :=
  if sh_connected s && (Z.of_nat (length (sh_queue s)) <? sh_capacity s)
  then MkShared (sh_execution_id s) (sh_nonce s) (sh_queue s ++ [o]) (sh_capacity s) (sh_connected s)
         (sh_next_ordinal s) (sh_dropped s)
  else MkShared (sh_execution_id s) (sh_nonce s) (sh_queue s) (sh_capacity s) (sh_connected s)
         (sh_next_ordinal s) (sat_add (sh_dropped s) 1).

Definition receiver_drain (s : SharedAttemptContext) : list AttemptObservation * SharedAttemptContext :=
  (sh_queue s, MkShared (sh_execution_id s) (sh_nonce s) [] (sh_capacity s) (sh_connected s)
                 (sh_next_ordinal s) (sh_dropped s)).

Definition fresh_call (parent : nat) (sc : Scopes) : nat * Scopes := (length sc, sc ++ [(false, Some parent)]).
Definition mark_timeout (scope : nat) (sc : Scopes) : Scopes :=
  match sc !! scope with Some (_, parent) => <[scope := (true, parent)]> sc | None => sc end.
(** The walk up the parents; each is allocated before its child, so the
    scope's own number is enough fuel. *)
Fixpoint timed_out_from (fuel : nat) (scope : nat) (sc : Scopes) : bool :=
  match fuel, sc !! scope with
  | S fuel, Some (reason, parent) =>
      reason || match parent with Some p => timed_out_from fuel p sc | None => false end
  | _, _ => false
  end.
Definition timed_out (scope : nat) (sc : Scopes) : bool := timed_out_from (S scope) scope sc.

(** ** The guard *)

Record ResponseFactValues := MkFacts { rf_status : option Z; rf_request_id : option (list Z) }.

Record AttemptGuard := MkGuard {
  gd_scope : nat; gd_attempt_id : string; gd_ordinal : Z; gd_provider : list Z; gd_model : option (list Z);
  gd_terminal : bool; gd_running : option ParsedUsage; gd_facts : option ResponseFactValues }.

Definition set_running (u : ParsedUsage) (g : AttemptGuard) : AttemptGuard :=
  MkGuard (gd_scope g) (gd_attempt_id g) (gd_ordinal g) (gd_provider g) (gd_model g) (gd_terminal g)
    (Some u) (gd_facts g).
Definition set_terminal (g : AttemptGuard) : AttemptGuard :=
  MkGuard (gd_scope g) (gd_attempt_id g) (gd_ordinal g) (gd_provider g) (gd_model g) true
    (gd_running g) (gd_facts g).

(** The first of the standard headers that is there, read as text. *)
Fixpoint find_map {A B} (f : A -> option B) (l : list A) : option B :=
  match l with [] => None | x :: l => match f x with Some y => Some y | None => find_map f l end end.
Definition provider_request_id (get : string -> option (option (list Z))) (vendor : option string) : option (list Z) :=
  default None (find_map get (["x-request-id"; "request-id"]%string ++ option_list vendor)).

(** [OnceLock::set]: the first call wins. *)
Definition record_headers (status : Z) (get : string -> option (option (list Z))) (vendor : option string)
    (g : AttemptGuard) : AttemptGuard :=
  match gd_facts g with
  | Some _ => g
  | None => MkGuard (gd_scope g) (gd_attempt_id g) (gd_ordinal g) (gd_provider g) (gd_model g) (gd_terminal g)
              (gd_running g) (Some (MkFacts (Some status) (provider_request_id get vendor)))
  end.

Definition observation (s : SharedAttemptContext) (g : AttemptGuard) (at_ms : Z) (phase : AttemptPhase) : AttemptObservation :=
  MkObservation ATTEMPT_OBSERVATION_VERSION (sh_execution_id s) (gd_attempt_id g) (gd_ordinal g) (gd_provider g)
    (gd_model g) (now_unix_ms at_ms) phase.
Definition emit (at_ms : Z) (phase : AttemptPhase) (g : AttemptGuard) (s : SharedAttemptContext) : SharedAttemptContext :=
  try_send (observation s g at_ms phase) s.

Definition response_values (g : AttemptGuard) : option Z * option (list Z) :=
  let facts := default (MkFacts None None) (gd_facts g) in
  (rf_status facts, (fun id => bounded_label id MAX_PROVIDER_REQUEST_ID_BYTES) <$> rf_request_id facts).

Definition finish (at_ms : Z) (outcome : AttemptOutcome) (status : option Z) (request_id : option (list Z))
    (usage : option ParsedUsage) (completeness : UsageCompleteness) (gs : AttemptGuard * SharedAttemptContext)
    : AttemptGuard * SharedAttemptContext :=
  let '(g, s) := gs in
  if gd_terminal g then (g, s)
  else let g := set_terminal g in
       (g, emit at_ms (Terminal outcome status request_id usage completeness) g s).

Definition finish_success (at_ms : Z) (usage : option ParsedUsage) (completeness : UsageCompleteness)
    (gs : AttemptGuard * SharedAttemptContext) : AttemptGuard * SharedAttemptContext :=
  let '(status, request_id) := response_values gs.1 in
  finish at_ms Success status request_id usage completeness gs.

Definition completeness_of (usage : option ParsedUsage) : UsageCompleteness :=
  match usage with Some _ => Final | None => Unavailable end.
Definition partial_of (usage : option ParsedUsage) : UsageCompleteness :=
  match usage with Some _ => Partial | None => Unavailable end.

Definition finish_qualified_stream (at_ms : Z) (outcome : AttemptOutcome) (usage : option ParsedUsage)
    (gs : AttemptGuard * SharedAttemptContext) : AttemptGuard * SharedAttemptContext :=
  let '(status, request_id) := response_values gs.1 in
  finish at_ms outcome status request_id usage (completeness_of usage) gs.

Definition error_facts (e : ProviderError) : AttemptOutcome * option Z * option (list Z) :=
  match e with
  | AuthError => (ProviderRejected, None, None)
  | RateLimited => (ProviderRejected, Some 429, None)
  | Upstream status _ request_id =>
      (ProviderRejected, Some status, (fun id => bounded_label id MAX_PROVIDER_REQUEST_ID_BYTES) <$> request_id)
  | TimeoutError _ => (TimeoutOutcome, None, None)
  | InvalidRequest _ | Transport _ | CircuitOpen => (TransportErrorOutcome, None, None)
  end.

Definition finish_error (at_ms : Z) (e : ProviderError) (gs : AttemptGuard * SharedAttemptContext)
    : AttemptGuard * SharedAttemptContext :=
  let '(outcome, status, request_id) := error_facts e in
  let '(observed_status, observed_request_id) := response_values gs.1 in
  finish at_ms outcome (or_some status observed_status) (or_some request_id observed_request_id)
    (gd_running gs.1) (partial_of (gd_running gs.1)) gs.

(** [Drop for AttemptGuard]. *)
Definition cancellation_outcome (g : AttemptGuard) (sc : Scopes) : AttemptOutcome :=
  if timed_out (gd_scope g) sc then TimeoutOutcome else Cancelled.
Definition drop_guard (at_ms : Z) (sc : Scopes) (gs : AttemptGuard * SharedAttemptContext)
    : AttemptGuard * SharedAttemptContext :=
  if gd_terminal gs.1 then gs
  else
    let '(status, request_id) := response_values gs.1 in
    finish at_ms (cancellation_outcome gs.1 sc) status request_id (gd_running gs.1) (partial_of (gd_running gs.1)) gs.

(** [begin]: an ordinal that no attempt of the execution had, and the
    dispatch.  [None] when the ordinals are used up. *)
Definition begin_attempt (at_ms : Z) (scope : nat) (provider : list Z) (model : option (list Z))
    (s : SharedAttemptContext) : option (AttemptGuard * SharedAttemptContext) :=
  match checked_add (sh_next_ordinal s) 1 with
  | None => None
  | Some next =>
      let ordinal := sat_add (sh_next_ordinal s) 1 in
      let s := MkShared (sh_execution_id s) (sh_nonce s) (sh_queue s) (sh_capacity s) (sh_connected s) next
                 (sh_dropped s) in
      let g := MkGuard scope (attempt_id_of (sh_nonce s) ordinal) ordinal (bounded_label provider MAX_PROVIDER_BYTES)
                 ((fun m => bounded_label m MAX_MODEL_BYTES) <$> model) false None None in
      Some (g, emit at_ms Dispatch g s)
  end.

(** ** Observed calls *)

(** How a future the observer awaits ends: with a value, or dropped first. *)
Inductive Awaited (A : Type) := Completed (a : A) | Abandoned.
Arguments Completed {A} a.
Arguments Abandoned {A}.

(** A fact the transport reports while it runs. *)
Definition Headers : Type := Z * (string -> option (option (list Z))) * option string.
Definition record_all (hs : list Headers) (g : AttemptGuard) : AttemptGuard :=
  foldl (fun g h => record_headers h.1.1 h.1.2 h.2 g) g hs.

(** [observe_value]: a buffered call under a context, with the instants of
    its dispatch and its end. *)
Definition observe_value {T} (begun ended : Z) (context : option nat) (sc : Scopes) (provider : list Z)
    (model : option (list Z)) (headers : list Headers)
    (future : Awaited (result ProviderError (T * option ParsedUsage))) (s : SharedAttemptContext)
    : Awaited (result ProviderError T) * SharedAttemptContext :=
  let answer := match future with
                | Completed (Ok (t, _)) => Completed (Ok t)
                | Completed (Err e) => Completed (Err e)
                | Abandoned => Abandoned
                end in
  match context with
  | None => (answer, s)
  | Some scope =>
      match begin_attempt begun scope provider model s with
      | None => (answer, s)
      | Some (g, s) =>
          let g := record_all headers g in
          let gs := match future with
                    | Completed (Ok (_, usage)) => finish_success ended usage (completeness_of usage) (g, s)
                    | Completed (Err e) => finish_error ended e (g, s)
                    | Abandoned => (g, s)
                    end in
          (answer, (drop_guard ended sc gs).2)
      end
  end.

(** ** Observed streams *)

Definition Item : Type := option (result ProviderError StreamChunk).

(** What can happen to a stream that is being read: the inner stream answers
    a poll, the transport reports its headers, or a scope times out. *)
Inductive StreamEvent :=
| Polled (at_ms : Z) (item : Item)
| PolledPending
| GotHeaders (h : Headers)
| ScopeTimedOut (scope : nat).

Record ObservedStream := MkObserved { os_guard : option AttemptGuard }.

(** [poll_next] when the inner stream answers [item]. *)
Definition observed_poll (at_ms : Z) (sc : Scopes) (item : Item) (st : ObservedStream * SharedAttemptContext)
    : ObservedStream * SharedAttemptContext :=
  let '(os, s) := st in
  match os_guard os, item with
  | None, _ => (os, s)
  | Some g, Some (Ok chunk) =>
      let g := match ck_usage_running chunk with Some u => set_running u g | None => g end in
      let '(g, s) := if ck_terminal chunk
                     then finish_success at_ms (ck_usage chunk) (completeness_of (ck_usage chunk)) (g, s)
                     else (g, s) in
      (MkObserved (Some g), s)
  | Some g, Some (Err e) => (MkObserved None, (drop_guard at_ms sc (finish_error at_ms e (g, s))).2)
  | Some g, None =>
      let '(status, request_id) := response_values g in
      (MkObserved None,
       (drop_guard at_ms sc
          (finish at_ms IncompleteStream status request_id (gd_running g) (partial_of (gd_running g)) (g, s))).2)
  end.

Definition LifeState : Type := ObservedStream * SharedAttemptContext * Scopes.
Definition observed_step (st : LifeState) (e : StreamEvent) : LifeState :=
  let '(os, s, sc) := st in
  match e with
  | Polled at_ms item => (observed_poll at_ms sc item (os, s), sc)
  | PolledPending => st
  | GotHeaders h =>
      (MkObserved (record_headers h.1.1 h.1.2 h.2 <$> os_guard os), s, sc)
  | ScopeTimedOut scope => (os, s, mark_timeout scope sc)
  end.

(** The stream is dropped. *)
Definition drop_stream (ended : Z) (st : LifeState) : SharedAttemptContext :=
  let '(os, s, sc) := st in
  match os_guard os with Some g => (drop_guard ended sc (g, s)).2 | None => s end.

(** [observe_stream] and the life of the stream it wraps: [future] is how the
    setup ends, with the events of the stream until it is dropped at [ended]. *)
Definition observe_stream (begun setup ended : Z) (context : option nat) (sc : Scopes) (provider : list Z)
    (model : option (list Z)) (headers : list Headers) (future : Awaited (result ProviderError (list StreamEvent)))
    (s : SharedAttemptContext) : SharedAttemptContext :=
  match context with
  | None => s
  | Some scope =>
      match begin_attempt begun scope provider model s with
      | None => s
      | Some (g, s) =>
          let g := record_all headers g in
          match future with
          | Completed (Ok es) => drop_stream ended (foldl observed_step (MkObserved (Some g), s, sc) es)
          | Completed (Err e) => (drop_guard setup sc (finish_error setup e (g, s))).2
          | Abandoned => (drop_guard setup sc (g, s)).2
          end
      end
  end.

(** ** What an attempt reports

    The reference: the first event that decides, read off the events. *)

Definition facts_of (h : Headers) : ResponseFactValues := MkFacts (Some h.1.1) (provider_request_id h.1.2 h.2).
Definition fact_values (facts : option ResponseFactValues) : option Z * option (list Z) :=
  let f := default (MkFacts None None) facts in
  (rf_status f, (fun id => bounded_label id MAX_PROVIDER_REQUEST_ID_BYTES) <$> rf_request_id f).

Definition ends (outcome : AttemptOutcome) (facts : option ResponseFactValues) (usage : option ParsedUsage)
    (completeness : UsageCompleteness) : AttemptPhase :=
  Terminal outcome (fact_values facts).1 (fact_values facts).2 usage completeness.
Definition ends_in_error (e : ProviderError) (facts : option ResponseFactValues) (running : option ParsedUsage) : AttemptPhase :=
  Terminal (error_facts e).1.1 (or_some (error_facts e).1.2 (fact_values facts).1)
    (or_some (error_facts e).2 (fact_values facts).2) running (partial_of running).
Definition ends_dropped (timed_out : bool) (facts : option ResponseFactValues) (running : option ParsedUsage) : AttemptPhase :=
  ends (if timed_out then TimeoutOutcome else Cancelled) facts running (partial_of running).

Fixpoint stream_verdict (ended : Z) (scope : nat) (facts : option ResponseFactValues) (running : option ParsedUsage)
    (sc : Scopes) (es : list StreamEvent) : Z * AttemptPhase :=
  match es with
  | [] => (ended, ends_dropped (timed_out scope sc) facts running)
  | Polled at_ms (Some (Ok c)) :: es =>
      if ck_terminal c then (at_ms, ends Success facts (ck_usage c) (completeness_of (ck_usage c)))
      else stream_verdict ended scope facts (or_some (ck_usage_running c) running) sc es
  | Polled at_ms (Some (Err e)) :: _ => (at_ms, ends_in_error e facts running)
  | Polled at_ms None :: _ => (at_ms, ends IncompleteStream facts running (partial_of running))
  | PolledPending :: es => stream_verdict ended scope facts running sc es
  | GotHeaders h :: es => stream_verdict ended scope (or_some facts (Some (facts_of h))) running sc es
  | ScopeTimedOut k :: es => stream_verdict ended scope facts running (mark_timeout k sc) es
  end.

Definition call_verdict (setup ended : Z) (scope : nat) (facts : option ResponseFactValues) (sc : Scopes)
    (future : Awaited (result ProviderError (list StreamEvent))) : Z * AttemptPhase :=
  match future with
  | Completed (Ok es) => stream_verdict ended scope facts None sc es
  | Completed (Err e) => (setup, ends_in_error e facts None)
  | Abandoned => (setup, ends_dropped (timed_out scope sc) facts None)
  end.

Lemma drop_finished at_ms sc gs : gd_terminal gs.1 = true -> drop_guard at_ms sc gs = gs.
Proof. unfold drop_guard. by intros ->. Qed.

Lemma finish_live at_ms o st r u c g s : gd_terminal g = false ->
  finish at_ms o st r u c (g, s) = (set_terminal g, emit at_ms (Terminal o st r u c) g s).
Proof. unfold finish. by intros ->. Qed.
Lemma finish_error_live at_ms e g s : gd_terminal g = false ->
  finish_error at_ms e (g, s) = (set_terminal g, emit at_ms (ends_in_error e (gd_facts g) (gd_running g)) g s).
Proof.
  intros Hg. unfold finish_error, ends_in_error. destruct (error_facts e) as [[o st] r]. simpl. by rewrite Hg.
Qed.
Lemma drop_live at_ms sc g s : gd_terminal g = false ->
  (drop_guard at_ms sc (g, s)).2 =
  emit at_ms (ends_dropped (timed_out (gd_scope g) sc) (gd_facts g) (gd_running g)) g s.
Proof. intros Hg. unfold drop_guard. simpl. by rewrite Hg. Qed.

Lemma success_finished at_ms u c g s : gd_terminal g = true -> finish_success at_ms u c (g, s) = (g, s).
Proof. intros Hg. unfold finish_success, finish. simpl. by rewrite Hg. Qed.

Lemma success_live at_ms u c g s : gd_terminal g = false ->
  finish_success at_ms u c (g, s) = (set_terminal g, emit at_ms (ends Success (gd_facts g) u c) g s).
Proof. intros Hg. unfold finish_success, finish. simpl. by rewrite Hg. Qed.

(** After the terminal nothing more is reported. *)
Definition spent (os : ObservedStream) : Prop :=
  match os_guard os with Some g => gd_terminal g = true | None => True end.
Lemma spent_silent es : forall os s sc ended, spent os ->
  drop_stream ended (foldl observed_step (os, s, sc) es) = s.
Proof.
  induction es as [|e es IH]; intros [[g|]] s sc ended Hs; unfold spent in Hs; simpl in *.
  - by rewrite drop_finished.
  - done.
  - destruct e as [at_ms [[c|e]|]| |h|k]; simpl; try (apply IH; done).
    + destruct (ck_usage_running c), (ck_terminal c); rewrite ?success_finished by done; by apply IH.
    + unfold finish_error. destruct (error_facts e) as [[? ?] ?]. simpl. rewrite Hs, drop_finished by done. by apply IH.
    + rewrite Hs, drop_finished by done. by apply IH.
    + apply IH. unfold spent, record_headers. simpl. by destruct (gd_facts g).
  - destruct e as [at_ms [[c|e]|]| |h|k]; simpl; by apply IH.
Qed.

Lemma emit_running u at_ms ph g s : emit at_ms ph (set_running u g) s = emit at_ms ph g s.
Proof. done. Qed.
Lemma emit_headers h at_ms ph g s : emit at_ms ph (record_headers h.1.1 h.1.2 h.2 g) s = emit at_ms ph g s.
Proof. unfold record_headers. by destruct (gd_facts g). Qed.
Lemma headers_facts h g :
  gd_facts (record_headers h.1.1 h.1.2 h.2 g) = or_some (gd_facts g) (Some (facts_of h)) /\
  gd_terminal (record_headers h.1.1 h.1.2 h.2 g) = gd_terminal g /\
  gd_running (record_headers h.1.1 h.1.2 h.2 g) = gd_running g /\
  gd_scope (record_headers h.1.1 h.1.2 h.2 g) = gd_scope g.
Proof. unfold record_headers. by destruct (gd_facts g) eqn:E; rewrite ?E. Qed.

Lemma live_stream es : forall g s sc ended, gd_terminal g = false ->
  drop_stream ended (foldl observed_step (MkObserved (Some g), s, sc) es) =
  let '(at_ms, phase) := stream_verdict ended (gd_scope g) (gd_facts g) (gd_running g) sc es in emit at_ms phase g s.
Proof.
  induction es as [|e es IH]; intros g s sc ended Hg; [by apply drop_live|].
  destruct e as [at_ms [[c|e]|]| |h|k]; cbn [foldl observed_step observed_poll os_guard stream_verdict].
  - destruct (ck_usage_running c) as [u|]; cbn [or_some]; destruct (ck_terminal c).
    + rewrite success_live by done. by rewrite spent_silent.
    + by rewrite IH.
    + rewrite success_live by done. by rewrite spent_silent.
    + by rewrite IH.
  - rewrite finish_error_live, drop_finished by done. by apply spent_silent.
  - destruct (response_values g) eqn:Hv. rewrite finish_live, drop_finished by done. rewrite spent_silent by done.
    by injection Hv as <- <-.
  - by apply IH.
  - destruct (headers_facts h g) as (H1 & H2 & H3 & H4). cbn [fmap option_fmap option_map].
    rewrite IH by congruence. rewrite H1, H3, H4. destruct (stream_verdict _ _ _ _ _ _). apply emit_headers.
  - by apply IH.
Qed.

(** The walk has enough fuel when parents come before their children, as
    [attempt_channel] and [fresh_call] allocate them. *)
Definition scopes_ok (sc : Scopes) : Prop :=
  forall k r p, sc !! k = Some (r, Some p) -> (p < k)%nat.
Lemma timed_out_step n k sc : timed_out_from (S n) k sc =
  match sc !! k with
  | Some (reason, parent) => reason || match parent with Some p => timed_out_from n p sc | None => false end
  | None => false
  end.
Proof. done. Qed.
Lemma timed_out_fuel sc : scopes_ok sc -> forall n m k, (k < n)%nat -> (k < m)%nat ->
  timed_out_from n k sc = timed_out_from m k sc.
Proof.
  intros Hok. induction n as [|n IH]; intros [|m] k Hn Hm; [lia..|]. simpl.
  destruct (sc !! k) as [[r [p|]]|] eqn:Hk; [|done|done]. f_equal. pose proof (Hok k r p Hk). apply IH; lia.
Qed.
Lemma scopes_ok_fresh sc parent : scopes_ok sc -> (parent < length sc)%nat -> scopes_ok (fresh_call parent sc).2.
Proof.
  intros Hok Hp k r p Hk. simpl in Hk. apply lookup_snoc_Some in Hk as [[_ Hk]|[-> [= _ <-]]]; [by eapply Hok|done].
Qed.
Lemma scopes_ok_mark sc scope : scopes_ok sc -> scopes_ok (mark_timeout scope sc).
Proof.
  intros Hok k r p. unfold mark_timeout. destruct (sc !! scope) as [[r' p']|] eqn:Hs; [|apply Hok].
  rewrite list_lookup_insert_Some. intros [(-> & [= _ ->] & _)|[_ Hk]]; by eapply Hok.
Qed.
(** A scope that a child is taken of passes its timeout on. *)
Lemma timed_out_child sc parent : scopes_ok sc -> (parent < length sc)%nat ->
  timed_out (fresh_call parent sc).1 (fresh_call parent sc).2 = timed_out parent (fresh_call parent sc).2.
Proof.
  intros Hok Hp. unfold timed_out, fresh_call. cbn [fst snd].
  assert (Hl : (sc ++ [(false, Some parent)] : Scopes) !! length sc = Some (false, Some parent)).
  { apply lookup_snoc_Some. by right. }
  rewrite (timed_out_step (length sc)), Hl. simpl orb. apply timed_out_fuel; [|lia|lia]. by apply (scopes_ok_fresh sc parent).
Qed.

(** ** Identities and labels *)

Lemma hex_digit_inj a b : 0 <= a < 16 -> 0 <= b < 16 -> hex_digit a = hex_digit b -> a = b.
Proof.
  unfold hex_digit. intros Ha Hb He%(f_equal nat_of_ascii).
  destruct (Z.ltb_spec a 10), (Z.ltb_spec b 10); rewrite !nat_ascii_embedding in He by lia; lia.
Qed.

Lemma land_15 z : Z.land z 15 = z mod 16.
Proof. change 15 with (Z.ones 4). by rewrite Z.land_ones. Qed.

Lemma hex_digits_inj n : forall a b,
  hex_digits n a = hex_digits n b -> a mod 16 ^ Z.of_nat n = b mod 16 ^ Z.of_nat n.
Proof.
  induction n as [|n IH]; intros a b He; [by rewrite !Z.mod_1_r|].
  cbn [hex_digits] in He. injection He as Hd Ht. apply IH in Ht. rewrite !land_15 in Hd.
  assert (Hp : 0 < 16 ^ Z.of_nat n) by (apply Z.pow_pos_nonneg; lia).
  apply hex_digit_inj in Hd; [|apply Z.mod_pos_bound; lia..].
  rewrite !Z.shiftr_div_pow2 in Hd by lia. change 2 with (2 ^ 1) in Hd. rewrite <- !Z.pow_mul_r in Hd by lia.
  replace (1 * (4 * Z.of_nat n)) with (4 * Z.of_nat n) in Hd by lia.
  rewrite Z.pow_mul_r in Hd by lia. change (2 ^ 4) with 16 in Hd.
  rewrite Nat2Z.inj_succ, Z.pow_succ_r, (Z.mul_comm 16) by lia.
  rewrite !Z.rem_mul_r by lia. by rewrite Hd, Ht.
Qed.

Lemma string_app_inj_l (p a b : string) : p +:+ a = p +:+ b -> a = b.
Proof. induction p as [|c p IH]; simpl; [done|]. intros [= H]. by apply IH. Qed.

Lemma attempt_id_inj nonce a b :
  in_u64 a -> in_u64 b -> attempt_id_of nonce a = attempt_id_of nonce b -> a = b.
Proof.
  unfold attempt_id_of. intros Ha Hb He. apply string_app_inj_l, string_app_inj_l, string_app_inj_l in He.
  apply hex_digits_inj in He. change (16 ^ Z.of_nat 16) with u64_mod in He.
  rewrite !Z.mod_small in He by ulia. done.
Qed.

(** What may appear in a log: short, and no control characters. *)
Definition clean_label (max : Z) (l : list Z) : Prop := label_len l <= max /\ existsb is_control l = false.

Lemma sanitized_clean c : is_control (sanitized c) = false.
Proof. unfold sanitized. destruct (is_control c) eqn:E; [done|done]. Qed.
Lemma bounded_from_clean value max : forall len, len <= max ->
  len + label_len (bounded_from len value max) <= max /\ existsb is_control (bounded_from len value max) = false.
Proof.
  induction value as [|c value IH]; intros len Hl; simpl; [split; [lia|done]|].
  destruct (Z.ltb_spec max (len + utf8_len (sanitized c))); simpl; [split; [lia|done]|].
  destruct (IH (len + utf8_len (sanitized c)) ltac:(lia)). rewrite sanitized_clean. split; [lia|done].
Qed.
Lemma bounded_label_clean value max : 0 <= max -> clean_label max (bounded_label value max).
Proof. intros Hm. exact (bounded_from_clean value max 0 Hm). Qed.

Definition clean_observation (o : AttemptObservation) : Prop :=
  clean_label MAX_PROVIDER_BYTES (ob_provider o) /\
  (forall m, ob_model o = Some m -> clean_label MAX_MODEL_BYTES m) /\
  match ob_phase o with
  | Dispatch => True
  | Terminal _ _ id _ _ => forall i, id = Some i -> clean_label MAX_PROVIDER_REQUEST_ID_BYTES i
  end.

(** ** One dispatch, one terminal *)

Definition bump (s : SharedAttemptContext) : SharedAttemptContext :=
  MkShared (sh_execution_id s) (sh_nonce s) (sh_queue s) (sh_capacity s) (sh_connected s)
    (sh_next_ordinal s + 1) (sh_dropped s).

(** The attempt's observation of a phase. *)
Definition attempt_says (s : SharedAttemptContext) (provider : list Z) (model : option (list Z)) (said : Z * AttemptPhase)
    : AttemptObservation :=
  MkObservation ATTEMPT_OBSERVATION_VERSION (sh_execution_id s) (attempt_id_of (sh_nonce s) (sh_next_ordinal s + 1))
    (sh_next_ordinal s + 1) (bounded_label provider MAX_PROVIDER_BYTES)
    ((fun m => bounded_label m MAX_MODEL_BYTES) <$> model) (now_unix_ms said.1) said.2.

Definition reported (s : SharedAttemptContext) (provider : list Z) (model : option (list Z)) (begun : Z)
    (verdict : Z * AttemptPhase) : SharedAttemptContext :=
  try_send (attempt_says s provider model verdict)
    (try_send (attempt_says s provider model (begun, Dispatch)) (bump s)).

Definition value_verdict {T} (ended : Z) (scope : nat) (facts : option ResponseFactValues) (sc : Scopes)
    (future : Awaited (result ProviderError (T * option ParsedUsage))) : Z * AttemptPhase :=
  (ended, match future with
          | Completed (Ok (_, usage)) => ends Success facts usage (completeness_of usage)
          | Completed (Err e) => ends_in_error e facts None
          | Abandoned => ends_dropped (timed_out scope sc) facts None
          end).

Lemma begin_reports begun scope provider model s :
  0 <= sh_next_ordinal s < u64_max ->
  exists g, begin_attempt begun scope provider model s =
      Some (g, try_send (attempt_says s provider model (begun, Dispatch)) (bump s)) /\
    gd_scope g = scope /\ gd_terminal g = false /\ gd_running g = None /\ gd_facts g = None /\
    forall at_ms phase s', sh_execution_id s' = sh_execution_id s ->
      emit at_ms phase g s' = try_send (attempt_says s provider model (at_ms, phase)) s'.
Proof.
  intros Hn. unfold begin_attempt, checked_add. destruct (Z.leb_spec (sh_next_ordinal s + 1) u64_max); [|lia].
  assert (Ho : sat_add (sh_next_ordinal s) 1 = sh_next_ordinal s + 1) by ulia. rewrite Ho.
  eexists. split; [reflexivity|]. split_and!; try done. intros at_ms phase s' Hs'.
  unfold emit, observation, attempt_says. simpl. by rewrite Hs'.
Qed.

Lemma record_all_facts hs : forall g,
  gd_facts (record_all hs g) = or_some (gd_facts g) (facts_of <$> head hs) /\
  gd_terminal (record_all hs g) = gd_terminal g /\ gd_running (record_all hs g) = gd_running g /\
  gd_scope (record_all hs g) = gd_scope g /\
  forall at_ms ph s, emit at_ms ph (record_all hs g) s = emit at_ms ph g s.
Proof.
  induction hs as [|h hs IH]; intros g; simpl.
  { split_and!; try done. by destruct (gd_facts g). }
  destruct (headers_facts h g) as (H1 & H2 & H3 & H4).
  destruct (IH (record_headers h.1.1 h.1.2 h.2 g)) as (I1 & I2 & I3 & I4 & I5).
  split_and!; try congruence.
  - rewrite I1, H1. by destruct (gd_facts g).
  - intros. by rewrite I5, emit_headers.
Qed.

Lemma send_execution o s : sh_execution_id (try_send o s) = sh_execution_id s.
Proof. unfold try_send. by destruct (_ && _). Qed.

Lemma error_facts_clean e i : (error_facts e).2 = Some i -> clean_label MAX_PROVIDER_REQUEST_ID_BYTES i.
Proof.
  destruct e as [| | |? ? [r|]| | |]; simpl; try done. intros [= <-]. by apply bounded_label_clean.
Qed.
Lemma fact_values_clean facts i : (fact_values facts).2 = Some i -> clean_label MAX_PROVIDER_REQUEST_ID_BYTES i.
Proof.
  unfold fact_values. destruct facts as [[st [r|]]|]; simpl; try done. intros [= <-]. by apply bounded_label_clean.
Qed.

(** A terminal phase, with a clean request id. *)
Definition clean_terminal (phase : AttemptPhase) : Prop :=
  match phase with
  | Dispatch => False
  | Terminal _ _ id _ _ => forall i, id = Some i -> clean_label MAX_PROVIDER_REQUEST_ID_BYTES i
  end.
Lemma ends_clean o facts u c : clean_terminal (ends o facts u c).
Proof. intros i. apply fact_values_clean. Qed.
Lemma ends_in_error_clean e facts u : clean_terminal (ends_in_error e facts u).
Proof.
  intros i. destruct (error_facts e).2 as [r|] eqn:E; simpl; [|apply fact_values_clean].
  intros [= <-]. by apply (error_facts_clean e).
Qed.
Lemma stream_verdict_clean ended scope es : forall facts running sc,
  clean_terminal (stream_verdict ended scope facts running sc es).2.
Proof.
  induction es as [|e es IH]; intros facts running sc; [apply ends_clean|].
  destruct e as [at_ms [[c|e]|]| |h|k]; cbn [stream_verdict]; try apply IH.
  - destruct (ck_terminal c); [apply ends_clean|apply IH].
  - apply ends_in_error_clean.
  - apply ends_clean.
Qed.
Lemma call_verdict_clean setup ended scope facts sc future :
  clean_terminal (call_verdict setup ended scope facts sc future).2.
Proof.
  destruct future as [[es|e]|]; [apply stream_verdict_clean|apply ends_in_error_clean|apply ends_clean].
Qed.

Lemma observe_stream_reports begun setup ended scope sc provider model headers future s :
  0 <= sh_next_ordinal s < u64_max ->
  observe_stream begun setup ended (Some scope) sc provider model headers future s =
  reported s provider model begun (call_verdict setup ended scope (facts_of <$> head headers) sc future).
Proof.
  intros Hn. destruct (begin_reports begun scope provider model s Hn) as (g & Hb & Hsc & Ht & Hr & Hf & He).
  unfold observe_stream. rewrite Hb. destruct (record_all_facts headers g) as (F1 & F2 & F3 & F4 & F5).
  rewrite Hf in F1. rewrite Ht in F2. rewrite Hr in F3. rewrite Hsc in F4. cbn [or_some] in F1. unfold reported.
  destruct future as [[es|e]|]; cbn [call_verdict].
  - rewrite live_stream by done. rewrite F1, F3, F4. destruct (stream_verdict _ _ _ _ _ _) as [at_ms phase].
    rewrite F5. apply He; by rewrite send_execution.
  - rewrite finish_error_live, drop_finished by done. cbn [snd]. rewrite F5, F1, F3. apply He; by rewrite send_execution.
  - rewrite drop_live by done. rewrite F5, F1, F3, F4. apply He; by rewrite send_execution.
Qed.

Lemma observe_value_reports {T} begun ended scope sc provider model headers
    (future : Awaited (result ProviderError (T * option ParsedUsage))) s :
  0 <= sh_next_ordinal s < u64_max ->
  (observe_value begun ended (Some scope) sc provider model headers future s).2 =
  reported s provider model begun (value_verdict ended scope (facts_of <$> head headers) sc future).
Proof.
  intros Hn. destruct (begin_reports begun scope provider model s Hn) as (g & Hb & Hsc & Ht & Hr & Hf & He).
  unfold observe_value. rewrite Hb. destruct (record_all_facts headers g) as (F1 & F2 & F3 & F4 & F5).
  rewrite Hf in F1. rewrite Ht in F2. rewrite Hr in F3. rewrite Hsc in F4. cbn [or_some] in F1. unfold reported.
  destruct future as [[[t usage]|e]|]; cbn [value_verdict snd].
  - rewrite success_live, drop_finished by done. cbn [snd]. rewrite F5, F1. apply He; by rewrite send_execution.
  - rewrite finish_error_live, drop_finished by done. cbn [snd]. rewrite F5, F1, F3. apply He; by rewrite send_execution.
  - rewrite drop_live by done. rewrite F5, F1, F3, F4. apply He; by rewrite send_execution.
Qed.

Lemma reported_delivers s provider model begun verdict :
  sh_connected s = true -> Z.of_nat (length (sh_queue s)) + 2 <= sh_capacity s ->
  sh_queue (reported s provider model begun verdict) =
  sh_queue s ++ [attempt_says s provider model (begun, Dispatch); attempt_says s provider model verdict].
Proof.
  intros Hc Hl. unfold reported, try_send, bump. simpl. rewrite Hc.
  destruct (Z.ltb_spec (Z.of_nat (length (sh_queue s))) (sh_capacity s)); [|lia]. simpl. rewrite length_app. simpl.
  destruct (Z.ltb_spec (Z.of_nat (length (sh_queue s) + 1)) (sh_capacity s)); [|lia]. simpl. by rewrite <- app_assoc.
Qed.

(** A physical attempt is observed once.  Whatever an observed call or
    stream goes through (an answer, an error, a stream that ends short or is
    dropped half read, before or after its own terminal item, with a scope
    timing out at any point), exactly two observations are sent, the dispatch
    and then one terminal, which is the one the first decisive event calls
    for; both carry an id no other attempt of the execution has and labels
    that are short and free of control characters; and when the channel has
    room the receiver sees exactly these two. *)
Theorem attempt_is_observed_once begun setup ended scope sc provider model headers future s :
  0 <= sh_next_ordinal s < u64_max ->
  let verdict := call_verdict setup ended scope (facts_of <$> head headers) sc future in
  let s' := observe_stream begun setup ended (Some scope) sc provider model headers future s in
  s' = reported s provider model begun verdict /\
  (forall T (value : Awaited (result ProviderError (T * option ParsedUsage))),
     (observe_value begun ended (Some scope) sc provider model headers value s).2 =
     reported s provider model begun (value_verdict ended scope (facts_of <$> head headers) sc value)) /\
  clean_terminal verdict.2 /\ clean_observation (attempt_says s provider model verdict) /\
  (forall n, in_u64 n -> attempt_id_of (sh_nonce s) n = ob_attempt_id (attempt_says s provider model verdict) ->
     n = sh_next_ordinal s + 1) /\
  (sh_connected s = true -> Z.of_nat (length (sh_queue s)) + 2 <= sh_capacity s ->
   sh_queue s' = sh_queue s ++ [attempt_says s provider model (begun, Dispatch); attempt_says s provider model verdict]).
Proof.
  intros Hn verdict s'. unfold s'. rewrite observe_stream_reports by done. fold verdict.
  pose proof (call_verdict_clean setup ended scope (facts_of <$> head headers) sc future) as Hc. fold verdict in Hc.
  split_and!; [done|intros; by apply observe_value_reports|done| | |apply reported_delivers].
  - split_and!; simpl; [by apply bounded_label_clean| |by destruct verdict.2].
    intros m. destruct model; simpl; [|done]. intros [= <-]. by apply bounded_label_clean.
  - intros n Hin He. apply (attempt_id_inj (sh_nonce s)); [done|ulia|done].
Qed.

(** A stream dropped after one chunk that moved the counts. *)
Definition sample_context : SharedAttemptContext := MkShared [101] [1; 255] [] 16 true 0 0.
Definition some_usage : ParsedUsage := MkParsed 7 0 0 0 None 0 None None None.
Definition half_read : list StreamEvent :=
  [PolledPending; Polled 5 (Some (Ok (MkChunk [] None (Some some_usage) None 1 false))); ScopeTimedOut 0].
Lemma attempt_is_observed_once_witness :
  let s' := observe_stream 1 2 9 (Some 1%nat) [(false, None); (false, Some 0%nat)] [111; 7] None []
              (Completed (Ok half_read)) sample_context in
  ob_phase <$> sh_queue s' = [Dispatch; Terminal TimeoutOutcome None None (Some some_usage) Partial] /\
  s' = reported sample_context [111; 7] None 1
         (call_verdict 2 9 1 None [(false, None); (false, Some 0%nat)] (Completed (Ok half_read))).
Proof.
  destruct (attempt_is_observed_once 1 2 9 1 [(false, None); (false, Some 0%nat)] [111; 7] None []
    (Completed (Ok half_read)) sample_context ltac:(done)) as (H1 & _).
  split; [vm_compute; reflexivity|exact H1].
Defined.
