(* ===== verification/Resilience.v ===== *)
(** [crates/sandhi-providers/src/resilience.rs] and [deadline.rs]: the retry
    loop, the circuit breaker shared by the calls of a provider, and the idle
    bound of a stream.  Instants and durations are nanoseconds; a timer fires
    at its deadline. *)

From S2P Require Import Prelude Usage UsageParse Attempt.

Definition u32_max : Z := 4294967295.
Definition NANOS : Z := 1000000000.
Definition DURATION_MAX : Z := u64_max * NANOS + 999999999.

Record RetryConfig := MkRetry { rt_max_retries : Z; rt_base_backoff : Z }.
Definition retry_default : RetryConfig := MkRetry 0 (200 * 1000000).

Record TimeoutConfig := MkTimeouts { to_complete : Z; to_stream_setup : Z; to_idle : option Z }.
Definition timeouts_default : TimeoutConfig := MkTimeouts (120 * NANOS) (90 * NANOS) (Some (90 * NANOS)).

(** ** The breaker *)

Record BreakerState := MkBreakerState { bs_failures : Z; bs_opened_at : option Z }.
Record CircuitBreaker := MkBreaker { cb_threshold : Z; cb_cooldown : Z; cb_state : BreakerState }.

Definition breaker_new (threshold cooldown : Z) : CircuitBreaker :=
  MkBreaker (Z.max threshold 1) cooldown (MkBreakerState 0 None).

(** [opened.elapsed()] is zero for an instant to come. *)
Definition allow (now : Z) (b : CircuitBreaker) : bool :=
  match bs_opened_at (cb_state b) with
  | Some opened => cb_cooldown b <=? Z.max (now - opened) 0
  | None => true
  end.
Definition record_success (b : CircuitBreaker) : CircuitBreaker :=
  MkBreaker (cb_threshold b) (cb_cooldown b) (MkBreakerState 0 None).
Definition record_failure (now : Z) (b : CircuitBreaker) : CircuitBreaker :=
  let failures := (bs_failures (cb_state b) + 1) mod (u32_max + 1) in
  MkBreaker (cb_threshold b) (cb_cooldown b)
    (MkBreakerState failures
       (if cb_threshold b <=? failures then Some now else bs_opened_at (cb_state b))).
Definition is_open (now : Z) (b : CircuitBreaker) : bool := negb (allow now b).

(** ** Deadlines *)

Record BufferedDeadline := MkDeadline { dl_at : Z; dl_timeout : Z }.
Record StreamingDeadline := MkStreaming { sd_setup : BufferedDeadline; sd_idle : Z }.
Definition deadline_new (now timeout : Z) : BufferedDeadline := MkDeadline (now + timeout) timeout.
Definition streaming_new (now setup idle : Z) : StreamingDeadline := MkStreaming (deadline_new now setup) idle.

(** ** Retry *)

Definition is_retryable (e : ProviderError) : bool :=
  match e with
  | Transport _ | RateLimited | TimeoutError _ => true
  | Upstream status _ _ => 500 <=? status
  | InvalidRequest _ | AuthError | CircuitOpen => false
  end.

Definition saturating_pow2 (n : Z) : Z := Z.min (2 ^ n) u32_max.
Definition backoff (base attempt : Z) : Z :=
  let factor := saturating_pow2 (Z.max (attempt - 1) 0) in
  Z.min (Z.min (base * factor) DURATION_MAX) (30 * NANOS).

Section Call.
Context {R : Type}.
(** The inner provider: when attempt [k], sent at [now] under a scope, is
    answered and with what; [None] when it never is. *)
Variable inner : nat -> option nat -> Z -> option (Z * result ProviderError R).

(** One attempt: when it was sent, if it was, and how and when it ended. *)
Record AttemptRun := MkRun { ar_sent : option Z; ar_ended : Z; ar_result : result ProviderError R }.

(** [bounded_until]; the adapter's future is polled before the timer, and the
    timer fires at its deadline. *)
Definition bounded_until (bound deadline : Z) (context : option nat) (now : Z)
    (fut : Z -> option (Z * result ProviderError R)) (sc : Scopes) : AttemptRun * Scopes :=
  if deadline <=? now then (MkRun None now (Err (TimeoutError bound)), sc)
  else
    let timeout := (MkRun (Some now) deadline (Err (TimeoutError bound)),
                    match context with Some c => mark_timeout c sc | None => sc end) in
    match fut now with
    | Some (t, r) => if t <=? deadline then (MkRun (Some now) (Z.max now t) r, sc) else timeout
    | None => timeout
    end.

(** [fresh_call] of the request's context, when it has one. *)
Definition fresh (context : option nat) (sc : Scopes) : option nat * Scopes :=
  match context with
  | None => (None, sc)
  | Some parent => let '(c, sc) := fresh_call parent sc in (Some c, sc)
  end.

(** What a call did: its attempts, its answer with the attempts counted, and
    the instant it ended. *)
Record CallReport := MkReport {
  cl_attempts : list AttemptRun; cl_result : result ProviderError (R * Z); cl_ended : Z; cl_scopes : Scopes }.

(** The loop of [complete] and of [stream]: [deadline] is the caller's, and
    [default_bound] the configured bound of one attempt. *)
Fixpoint retry_loop (retry : RetryConfig) (default_bound : Z) (deadline : option BufferedDeadline)
    (context : option nat) (fuel : nat) (attempt : Z) (done : list AttemptRun) (now : Z) (sc : Scopes)
    : option CallReport :=
  match fuel with
  | O => None
  | S fuel =>
      let '(attempt_context, sc) := fresh context sc in
      let bound := default (deadline_new now default_bound) deadline in
      let '(run, sc) := bounded_until (dl_timeout bound) (dl_at bound) attempt_context now
                          (inner (Z.to_nat attempt) attempt_context) sc in
      let done := done ++ [run] in
      let now := ar_ended run in
      match ar_result run with
      | Ok resp => Some (MkReport done (Ok (resp, Z.min (attempt + 1) u32_max)) now sc)
      | Err e =>
          if is_retryable e && (attempt <? rt_max_retries retry) then
            let attempt := attempt + 1 in
            let wake := now + backoff (rt_base_backoff retry) attempt in
            match deadline with
            | Some d =>
                (* timeout_at(deadline.at, wait) *)
                if wake <=? Z.max now (dl_at d)
                then retry_loop retry default_bound deadline context fuel attempt done wake sc
                else Some (MkReport done (Err (TimeoutError (dl_timeout d))) (Z.max now (dl_at d)) sc)
            | None => retry_loop retry default_bound deadline context fuel attempt done wake sc
            end
          else Some (MkReport done (Err e) now sc)
      end
  end.
Definition call_loop (retry : RetryConfig) (default_bound : Z) (deadline : option BufferedDeadline)
    (context : option nat) (now : Z) (sc : Scopes) : option CallReport :=
  retry_loop retry default_bound deadline context (S (Z.to_nat (rt_max_retries retry))) 0 [] now sc.

(** What the calls of a provider record on its breaker, in order. *)
Inductive Recorded := Succeeded | FailedAt (now : Z).
Definition record (b : CircuitBreaker) (r : Recorded) : CircuitBreaker :=
  match r with Succeeded => record_success b | FailedAt now => record_failure now b end.
Definition recorded_by (c : CallReport) : Recorded :=
  match cl_result c with Ok _ => Succeeded | Err _ => FailedAt (cl_ended c) end.

(** A call through the breaker; [others] is what concurrent calls record on
    it while this one runs. *)
Definition guarded_call (retry : RetryConfig) (default_bound : Z) (deadline : option BufferedDeadline)
    (context : option nat) (now : Z) (sc : Scopes) (others : list Recorded) (b : CircuitBreaker)
    : option (result ProviderError (R * Z) * list AttemptRun * CircuitBreaker) :=
  if negb (allow now b) then Some (Err CircuitOpen, [], foldl record b others)
  else
    c ← call_loop retry default_bound deadline context now sc;
    Some (cl_result c, cl_attempts c, record (foldl record b others) (recorded_by c)).
End Call.

(** ** The resilient provider *)

Record ResilientProvider := MkProvider { rp_retry : RetryConfig; rp_timeouts : TimeoutConfig }.

Definition with_retry (max_retries base_backoff : Z) (p : ResilientProvider) : ResilientProvider :=
  MkProvider (MkRetry max_retries base_backoff) (rp_timeouts p).
Definition with_timeouts (t : TimeoutConfig) (p : ResilientProvider) : ResilientProvider := MkProvider (rp_retry p) t.

(** [ResilientProvider::new], with its breaker. *)
Definition resilient_new : ResilientProvider * CircuitBreaker :=
  (MkProvider retry_default timeouts_default, breaker_new 5 (30 * NANOS)).

Definition complete {R} (inner : nat -> option nat -> Z -> option (Z * result ProviderError R)) (p : ResilientProvider)
    (deadline : option BufferedDeadline) (context : option nat) (now : Z) (sc : Scopes) (others : list Recorded)
    (b : CircuitBreaker) : option (result ProviderError (R * Z) * list (AttemptRun (R := R)) * CircuitBreaker) :=
  guarded_call inner (rp_retry p) (to_complete (rp_timeouts p)) deadline context now sc others b.

(** The stream handed out carries the attempts and the idle bound it is
    wrapped with. *)
Definition stream {R} (inner : nat -> option nat -> Z -> option (Z * result ProviderError R)) (p : ResilientProvider)
    (deadline : option StreamingDeadline) (context : option nat) (now : Z) (sc : Scopes) (others : list Recorded)
    (b : CircuitBreaker)
    : option (result ProviderError (R * Z * option Z) * list (AttemptRun (R := R)) * CircuitBreaker) :=
  '(answer, attempts, b) ← guarded_call inner (rp_retry p) (to_stream_setup (rp_timeouts p)) (sd_setup <$> deadline)
                             context now sc others b;
  Some (match answer with
        | Ok (s, n) => Ok (s, n, or_some (sd_idle <$> deadline) (to_idle (rp_timeouts p)))
        | Err e => Err e
        end, attempts, b).

(** ** The stream's wrappers *)

(** [AttemptCountStream]. *)
Definition count_attempts (attempts : Z) (item : Item) : Item :=
  match item with
  | Some (Ok c) => Some (Ok (MkChunk (ck_data c) (ck_usage c) (ck_usage_running c) (ck_cache_obs c) attempts (ck_terminal c)))
  | other => other
  end.

Record IdleTimeout := MkIdle { it_idle : Z; it_sleep_at : Z; it_expired : bool; it_context : option nat }.
Definition idle_new (now idle : Z) (context : option nat) : IdleTimeout := MkIdle idle (now + idle) false context.

(** A poll at [now] when the inner stream answers [inner], [None] for
    pending: what the caller sees ([None] for pending), whether the inner
    stream was dropped, and the scopes. *)
Definition idle_poll (now : Z) (inner : option Item) (t : IdleTimeout) (sc : Scopes)
    : option Item * bool * IdleTimeout * Scopes :=
  if it_expired t then (Some None, false, t, sc)
  else match inner with
  | Some item => (Some item, false, MkIdle (it_idle t) (now + it_idle t) (it_expired t) (it_context t), sc)
  | None =>
      if it_sleep_at t <=? now then
        (Some (Some (Err (TimeoutError (it_idle t)))), true, MkIdle (it_idle t) (it_sleep_at t) true (it_context t),
         match it_context t with Some c => mark_timeout c sc | None => sc end)
      else (None, false, t, sc)
  end.

(** ** The breaker against its history *)

(** The failures recorded since the last success, latest first. *)
Fixpoint failures_since_success (latest_first : list Recorded) : list Z :=
  match latest_first with
  | FailedAt t :: h => t :: failures_since_success h
  | _ => []
  end.
Definition trailing (h : list Recorded) : list Z := failures_since_success (reverse h).

(** What a breaker promises, from what was recorded alone: closed below the
    threshold, otherwise closed for the cooldown after the last failure. *)
Definition admits (threshold cooldown now : Z) (h : list Recorded) : bool :=
  match trailing h with
  | (last :: _) as fs => (Z.of_nat (length fs) <? Z.max threshold 1) || (cooldown <=? Z.max (now - last) 0)
  | [] => true
  end.

Lemma trailing_snoc h r : trailing (h ++ [r]) = match r with Succeeded => [] | FailedAt t => t :: trailing h end.
Proof. unfold trailing. rewrite reverse_app. simpl. by destruct r. Qed.

Lemma trailing_length h : (length (trailing h) <= length h)%nat.
Proof.
  induction h as [|r h IH] using rev_ind; [done|]. rewrite trailing_snoc, length_app. destruct r; simpl; lia.
Qed.

Lemma breaker_state threshold cooldown h : Z.of_nat (length h) <= u32_max ->
  let b := foldl record (breaker_new threshold cooldown) h in
  cb_threshold b = Z.max threshold 1 /\ cb_cooldown b = cooldown /\
  bs_failures (cb_state b) = Z.of_nat (length (trailing h)) /\
  bs_opened_at (cb_state b) = (if Z.of_nat (length (trailing h)) <? Z.max threshold 1 then None else head (trailing h)).
Proof.
  induction h as [|r h IH] using rev_ind; intros Hl; cbv zeta.
  { split_and!; try done. unfold trailing. cbn [reverse rev_append failures_since_success head]. by destruct (_ <? _). }
  rewrite length_app in Hl. simpl in Hl. destruct IH as (H1 & H2 & H3 & H4); [lia|].
  rewrite foldl_app, trailing_snoc. cbn [foldl]. cbv zeta in *. destruct r as [|t]; cbn [record record_success record_failure cb_state cb_threshold cb_cooldown bs_failures bs_opened_at length head].
  { split_and!; try done. by destruct (Z.of_nat 0 <? Z.max threshold 1). }
  pose proof (trailing_length h). rewrite H1, H2, H3, H4. rewrite Z.mod_small by (unfold u32_max in *; lia).
  split_and!; [done|done|lia|].
  replace (Z.of_nat (length (trailing h)) + 1) with (Z.of_nat (S (length (trailing h)))) by lia.
  destruct (Z.leb_spec (Z.max threshold 1) (Z.of_nat (S (length (trailing h))))),
    (Z.ltb_spec (Z.of_nat (S (length (trailing h)))) (Z.max threshold 1)); try lia; [done|].
  destruct (Z.ltb_spec (Z.of_nat (length (trailing h))) (Z.max threshold 1)); [done|lia].
Qed.

(** the circuit breaker, shared by concurrent calls that record in any
    order, is a function of that record: it refuses exactly when the
    failures since the last success reach the threshold and the last of them
    is within the cooldown.  So a success closes it at once, a failure of a
    trial re-opens it for a whole cooldown, and it refuses nothing for
    ever. *)
Theorem breaker_refines_history threshold cooldown h :
  Z.of_nat (length h) <= u32_max ->
  let b := foldl record (breaker_new threshold cooldown) h in
  (forall now, allow now b = admits threshold cooldown now h /\ is_open now b = negb (admits threshold cooldown now h)) /\
  (forall now, allow now (record b Succeeded) = true) /\
  (forall now t, bs_opened_at (cb_state b) <> None -> Z.of_nat (length h) < u32_max ->
     now < t + cooldown -> 0 < cooldown -> allow now (record b (FailedAt t)) = false) /\
  exists late, forall now, late <= now -> allow now b = true.
Proof.
  intros Hl b. destruct (breaker_state threshold cooldown h Hl) as (H1 & H2 & H3 & H4). fold b in H1, H2, H3, H4.
  assert (Ha : forall now, allow now b = admits threshold cooldown now h).
  { intros now. unfold allow, admits. rewrite H2, H4. destruct (trailing h) as [|t ts]; cbn [head].
    - by case_match.
    - by destruct (Z.of_nat (length (t :: ts)) <? Z.max threshold 1). }
  split_and!; [intros now; unfold is_open; by rewrite Ha|done| |].
  - intros now t Ho Hlt Hn Hc. unfold allow. simpl. rewrite H1, H2, H3.
    pose proof (trailing_length h). rewrite Z.mod_small by (unfold u32_max in *; lia).
    rewrite H4 in Ho. destruct (Z.ltb_spec (Z.of_nat (length (trailing h))) (Z.max threshold 1)); [done|].
    destruct (Z.leb_spec (Z.max threshold 1) (Z.of_nat (length (trailing h)) + 1)); [|lia].
    apply Z.leb_gt. lia.
  - destruct (bs_opened_at (cb_state b)) as [o|] eqn:E.
    + exists (o + Z.max cooldown 0). intros now Hn. unfold allow. rewrite E, H2. apply Z.leb_le. lia.
    + exists 0. intros now _. unfold allow. by rewrite E.
Qed.
Lemma breaker_refines_history_witness :
  let b := foldl record (breaker_new 2 10) [FailedAt 1; Succeeded; FailedAt 5; FailedAt 7] in
  (allow 16 b = false /\ allow 17 b = true) /\ allow 16 b = admits 2 10 16 [FailedAt 1; Succeeded; FailedAt 5; FailedAt 7].
Proof.
  destruct (breaker_refines_history 2 10 [FailedAt 1; Succeeded; FailedAt 5; FailedAt 7] ltac:(done)) as (H & _).
  split; [split; vm_compute; reflexivity|exact (proj1 (H 16))].
Defined.

(** ** The retry loop *)

Lemma backoff_bound base attempt : backoff base attempt <= 30 * NANOS.
Proof. unfold backoff. lia. Qed.

Section Retries.
Context {R : Type}.
Variable inner : nat -> option nat -> Z -> option (Z * result ProviderError R).

Definition retried (r : AttemptRun (R := R)) : Prop :=
  match ar_result r with Ok _ => False | Err e => is_retryable e = true end.

(** The next attempt is sent when the backoff after this one is over. *)
Definition next_start (base : Z) (done : list (AttemptRun (R := R))) (start : Z) : Z :=
  match last done with
  | None => start
  | Some r => ar_ended r + backoff base (Z.of_nat (length done))
  end.
Definition paced (base start : Z) (runs : list (AttemptRun (R := R))) : Prop :=
  forall i r t, runs !! i = Some r -> ar_sent r = Some t -> t = next_start base (take i runs) start.

(** What a call may report. *)
Record call_ok (retry : RetryConfig) (deadline : option BufferedDeadline) (start : Z) (attempts : list (AttemptRun (R := R)))
    (answer : result ProviderError (R * Z)) (ended : Z) : Prop := {
  co_bound : Z.of_nat (length attempts) <= rt_max_retries retry + 1;
  co_last : exists runs final, attempts = runs ++ [final] /\ Forall retried runs /\
    match ar_result final with
    | Ok r => answer = Ok (r, Z.min (Z.of_nat (length attempts)) u32_max)
    | Err e =>
        (answer = Err e /\ (is_retryable e = false \/ Z.of_nat (length attempts) = rt_max_retries retry + 1)) \/
        (is_retryable e = true /\ exists d, deadline = Some d /\ answer = Err (TimeoutError (dl_timeout d)))
    end;
  co_paced : paced (rt_base_backoff retry) start attempts;
  co_deadline : forall d, deadline = Some d -> start <= dl_at d -> ended <= dl_at d }.

Lemma bounded_until_run bound at_ context now fut sc :
  let '(run, _) := bounded_until (R := R) bound at_ context now fut sc in
  (forall t, ar_sent run = Some t -> t = now) /\ (now <= at_ -> ar_ended run <= at_).
Proof.
  unfold bounded_until. destruct (Z.leb_spec at_ now); [split; simpl; [done|lia]|].
  destruct (fut now) as [[t r]|]; [|split; simpl; [by intros t [= <-]|lia]].
  destruct (Z.leb_spec t at_); (split; simpl; [by intros ? [= <-]|lia]).
Qed.

Lemma paced_snoc base start runs r :
  paced base start runs -> (forall t, ar_sent r = Some t -> t = next_start base runs start) ->
  paced base start (runs ++ [r]).
Proof.
  intros Hp Hr i r' t Hi Ht. apply lookup_snoc_Some in Hi as [[Hlt Hi]|[-> <-]].
  - rewrite take_app_le by lia. by eapply Hp.
  - rewrite take_app_length. by apply Hr.
Qed.

Lemma retry_loop_ok retry default_bound deadline context start fuel :
  rt_max_retries retry <= u32_max -> forall attempt done now sc,
  0 <= attempt <= rt_max_retries retry -> (Z.to_nat (rt_max_retries retry - attempt) < fuel)%nat ->
  Z.of_nat (length done) = attempt -> Forall retried done -> paced (rt_base_backoff retry) start done ->
  now = next_start (rt_base_backoff retry) done start ->
  (forall d, deadline = Some d -> start <= dl_at d -> now <= dl_at d) ->
  exists c, retry_loop inner retry default_bound deadline context fuel attempt done now sc = Some c /\
    call_ok retry deadline start (cl_attempts c) (cl_result c) (cl_ended c).
Proof.
  intros Hmax. induction fuel as [|fuel IH]; intros attempt done now sc Ha Hf Hd Hr Hp Hnow Hdl; [lia|]. cbn [retry_loop].
  destruct (fresh context sc) as [ctx sc1]. set (bound := default _ deadline).
  pose proof (bounded_until_run (dl_timeout bound) (dl_at bound) ctx now (inner (Z.to_nat attempt) ctx) sc1) as Hrun.
  destruct (bounded_until _ _ _ _ _ _) as [run sc2]. destruct Hrun as [Hsent Hend].
  assert (Hp' : paced (rt_base_backoff retry) start (done ++ [run])).
  { apply paced_snoc; [done|]. intros t Ht. by rewrite (Hsent t Ht), Hnow. }
  assert (Hdl' : forall d, deadline = Some d -> start <= dl_at d -> ar_ended run <= dl_at d).
  { intros d Ed Hs. subst bound. rewrite Ed in Hend. simpl in Hend. by apply Hend, Hdl. }
  assert (Hlen : Z.of_nat (length (done ++ [run])) = attempt + 1) by (rewrite length_app; simpl; lia).
  destruct (ar_result run) as [resp|e] eqn:Hres.
  { eexists. split; [reflexivity|]. split; simpl; [lia| |done|done].
    exists done, run. rewrite Hres, Hlen. done. }
  destruct (is_retryable e) eqn:Hre; simpl; cycle 1.
  { eexists. split; [reflexivity|]. split; simpl; [lia| |done|done].
    exists done, run. rewrite Hres. split_and!; [done|done|]. left. auto. }
  destruct (Z.ltb_spec attempt (rt_max_retries retry)) as [Hlt|Hge]; cycle 1.
  { eexists. split; [reflexivity|]. split; simpl; [lia| |done|done].
    exists done, run. rewrite Hres, Hlen. split_and!; [done|done|]. left. split; [done|]. right. lia. }
  assert (Hr' : Forall retried (done ++ [run])).
  { apply Forall_app. split; [done|]. apply Forall_singleton. unfold retried. by rewrite Hres. }
  assert (Hwake : ar_ended run + backoff (rt_base_backoff retry) (attempt + 1) =
                  next_start (rt_base_backoff retry) (done ++ [run]) start).
  { unfold next_start. by rewrite last_snoc, Hlen. }
  destruct deadline as [d|]; [|by apply IH; try done; lia].
  destruct (Z.leb_spec (ar_ended run + backoff (rt_base_backoff retry) (attempt + 1)) (Z.max (ar_ended run) (dl_at d))).
  - apply IH; try done; [lia..|]. intros d' [= <-] Hs. pose proof (Hdl' d eq_refl Hs). lia.
  - eexists. split; [reflexivity|]. split; simpl; [lia| |done|].
    + exists done, run. rewrite Hres. split_and!; [done|done|]. right. eauto.
    + intros d' [= <-] Hs. pose proof (Hdl' d eq_refl Hs). lia.
Qed.

(** A guarded call always answers, and leaves one mark on the breaker. *)
Definition answered (retry : RetryConfig) (deadline : option BufferedDeadline) (start : Z) (others : list Recorded)
    (b : CircuitBreaker) (answer : result ProviderError (R * Z)) (attempts : list (AttemptRun (R := R)))
    (b' : CircuitBreaker) : Prop :=
  if allow start b
  then exists ended, call_ok retry deadline start attempts answer ended /\
         b' = record (foldl record b others) (match answer with Ok _ => Succeeded | Err _ => FailedAt ended end)
  else answer = Err CircuitOpen /\ attempts = [] /\ b' = foldl record b others.

Lemma guarded_call_ok retry default_bound deadline context start sc others b :
  0 <= rt_max_retries retry <= u32_max ->
  exists answer attempts b',
    guarded_call inner retry default_bound deadline context start sc others b = Some (answer, attempts, b') /\
    answered retry deadline start others b answer attempts b'.
Proof.
  intros Hm. unfold guarded_call, answered. destruct (allow start b); simpl; [|by repeat eexists].
  assert (Hp : paced (rt_base_backoff retry) start []) by (intros i r t Hi; by rewrite lookup_nil in Hi).
  destruct (retry_loop_ok retry default_bound deadline context start (S (Z.to_nat (rt_max_retries retry))) ltac:(lia)
    0 [] start sc ltac:(lia) ltac:(lia) eq_refl (Forall_nil_2 _) Hp eq_refl ltac:(done)) as (c & Hc & Hok).
  unfold call_loop. rewrite Hc. simpl. do 3 eexists. split; [reflexivity|].
  exists (cl_ended c). split; [done|]. unfold recorded_by. by destruct (cl_result c).
Qed.
End Retries.


(** Two timeouts of the upstream, then an answer. *)
Definition flaky (k : nat) (_ : option nat) (now : Z) : option (Z * result ProviderError string) :=
  match k with O => None | 1%nat => Some (now + 5, Err RateLimited) | _ => Some (now + 1, Ok "ok"%string) end.
Definition three_tries : ResilientProvider := MkProvider (MkRetry 2 NANOS) timeouts_default.

(** ** The idle bound *)

(** A run of polls: what the caller saw. *)
Fixpoint idle_polls (polls : list (Z * option Item)) (t : IdleTimeout) (sc : Scopes)
    : list (option Item) * IdleTimeout * Scopes :=
  match polls with
  | [] => ([], t, sc)
  | (now, inner) :: polls =>
      let '(seen, _, t, sc) := idle_poll now inner t sc in
      let '(rest, t, sc) := idle_polls polls t sc in (seen :: rest, t, sc)
  end.

Lemma expired_polls polls : forall t sc, it_expired t = true ->
  idle_polls polls t sc = (replicate (length polls) (Some None), t, sc).
Proof.
  induction polls as [|[now inner] polls IH]; intros t sc Ht; [done|]. simpl. unfold idle_poll. rewrite Ht.
  by rewrite (IH t sc Ht).
Qed.

(** Once the gap exceeds the bound the caller sees the timeout once and then
    the end, whatever the upstream still sends; the inner stream is dropped
    with its scope marked. *)
Theorem idle_timeout_is_final now t sc polls :
  it_expired t = false -> it_sleep_at t <= now ->
  let '(seen, _, sc') := idle_polls ((now, None) :: polls) t sc in
  seen = Some (Some (Err (TimeoutError (it_idle t)))) :: replicate (length polls) (Some None) /\
  sc' = match it_context t with Some c => mark_timeout c sc | None => sc end.
Proof.
  intros Ht Hn. cbn [idle_polls]. unfold idle_poll. rewrite Ht. destruct (Z.leb_spec (it_sleep_at t) now); [|lia].
  by rewrite expired_polls.
Qed.

(** An upstream that answers within the bound is never cut off. *)
Theorem idle_items_pass now inner t sc :
  it_expired t = false -> now < it_sleep_at t \/ is_Some inner ->
  let '(seen, dropped, t', sc') := idle_poll now inner t sc in
  seen = inner /\ dropped = false /\ it_expired t' = false /\ sc' = sc /\
  (is_Some inner -> it_sleep_at t' = now + it_idle t).
Proof.
  intros Ht Hi. unfold idle_poll. rewrite Ht. destruct inner as [item|]; [done|].
  destruct (Z.leb_spec (it_sleep_at t) now); [|split_and!; try done; by intros []].
  destruct Hi as [?|[? ?]]; [lia|done].
Qed.

(** No terminal item, error or end so far. *)
Definition undecided (e : StreamEvent) : Prop :=
  match e with Polled _ (Some (Ok c)) => ck_terminal c = false | Polled _ _ => False | _ => True end.

Lemma mark_timeout_length k sc : length (mark_timeout k sc) = length sc.
Proof. unfold mark_timeout. destruct (sc !! k) as [[r p]|]; [apply length_insert|done]. Qed.
Lemma mark_timeout_self scope sc : (scope < length sc)%nat -> timed_out scope (mark_timeout scope sc) = true.
Proof.
  intros Hl. unfold mark_timeout. destruct (sc !! scope) as [[r p]|] eqn:Hs; [|apply lookup_ge_None_1 in Hs; lia].
  unfold timed_out. rewrite timed_out_step.
  by rewrite list_lookup_insert_eq.
Qed.

(** An idle timeout of a stream that had not ended is what its attempt
    reports: the scope is marked before the stream is dropped. *)
Theorem idle_timeout_is_reported ended scope es : forall facts running sc,
  Forall undecided es -> (scope < length sc)%nat ->
  exists facts' running',
    stream_verdict ended scope facts running sc (es ++ [ScopeTimedOut scope]) =
    (ended, ends TimeoutOutcome facts' running' (partial_of running')).
Proof.
  induction es as [|e es IH]; intros facts running sc Hu Hl.
  { exists facts, running. simpl. by rewrite mark_timeout_self. }
  apply Forall_cons in Hu as [He Hu]. destruct e as [at_ms [[c|e]|]| |h|k]; simpl in He; try done; simpl.
  - rewrite He. by apply IH.
  - by apply IH.
  - by apply IH.
  - apply IH; [done|]. by rewrite mark_timeout_length.
Qed.
