(* ===== verification/TokenEstimate.v ===== *)
(** [crates/sandhi-providers/src/token_estimate.rs]: the calibration of the
    input estimate from final, provider-reported usage.  An [f64] is a
    [spec_float] with the operations of binary64. *)

From S2P Require Import Prelude Text Usage Json UsageParse Stats.

Definition CALIBRATION_MIN_SAMPLES : Z := 32.
(** 1.5, 8.0 and 0.125. *)
Definition MIN_UNITS_PER_TOKEN : spec_float := SFdiv 53 1024 (f64_of 3) (f64_of 2).
Definition MAX_UNITS_PER_TOKEN : spec_float := f64_of 8.
Definition EWMA_ALPHA : spec_float := SFdiv 53 1024 (f64_of 1) (f64_of 8).

Record Calibration := MkCalibration { cal_samples : Z; cal_units_per_token : spec_float }.
Notation TokenEstimateCalibrator := (gmap string (gmap string Calibration)).

Definition baseline_estimate (input_len : Z) : Z := sat_add input_len 3 / 4.

Definition estimate (c : TokenEstimateCalibrator) (provider model : string) (input_len : Z) : Z :=
  let baseline := baseline_estimate input_len in
  match c !! provider ≫= (fun models => models !! model) with
  | None => baseline
  | Some cal =>
      if cal_samples cal <? CALIBRATION_MIN_SAMPLES then baseline
      else
        let calibrated := ceil_usize (SFdiv 53 1024 (f64_of input_len) (cal_units_per_token cal)) in
        let floor := sat_add (sat_mul baseline 3) 3 / 4 in
        Z.max calibrated floor
  end.

(** [f64::clamp]. *)
Definition f64_clamp (x lo hi : spec_float) : spec_float :=
  let x := if SFltb x lo then lo else x in
  if SFltb hi x then hi else x.

(** [f64::mul_add]: the exact product and sum of finite numbers, rounded
    once. *)
Definition signed (s : bool) (m : positive) : Z := if s then Zneg m else Zpos m.
Definition mul_add (a b c : spec_float) : spec_float :=
  match a, b, c with
  | S754_finite sa ma ea, S754_finite sb mb eb, S754_finite sc mc ec =>
      let e := Z.min (ea + eb) ec in
      binary_normalize 53 1024
        (signed sa ma * signed sb mb * 2 ^ (ea + eb - e) + signed sc mc * 2 ^ (ec - e)) e false
  | _, _, _ => SFadd 53 1024 (SFmul 53 1024 a b) c
  end.

Definition estimator_observe (input_len : Z) (event : UsageEvent) (c : TokenEstimateCalibrator)
    : TokenEstimateCalibrator :=
  if negb (bool_decide (ev_usage_completeness event = Final))
     || negb (bool_decide (ev_usage_basis event = ProviderReported)) then c
  else
    let input_tokens := sat_add (sat_add (ev_tokens_in event) (ev_cache_creation_tokens event))
                          (ev_cache_read_tokens event) in
    if (input_len =? 0) || (input_tokens =? 0) then c
    else
      let observed := f64_clamp (SFdiv 53 1024 (f64_of input_len) (f64_of input_tokens))
                        MIN_UNITS_PER_TOKEN MAX_UNITS_PER_TOKEN in
      let models := default ∅ (c !! ev_provider event) in
      let entry := default (MkCalibration 0 observed) (models !! ev_model event) in
      let units := if 0 <? cal_samples entry
                   then mul_add EWMA_ALPHA observed
                          (SFmul 53 1024 (SFsub 53 1024 (f64_of 1) EWMA_ALPHA) (cal_units_per_token entry))
                   else cal_units_per_token entry in
      <[ev_provider event :=
          <[ev_model event := MkCalibration (sat_add (cal_samples entry) 1) units]> models]> c.

(** Before enough samples the estimate is the historical one, and it never
    falls below three quarters of it, whatever was observed. *)
Theorem estimate_is_floored c provider model input_len :
  0 <= input_len <= u64_max ->
  let baseline := baseline_estimate input_len in
  (match c !! provider ≫= (fun models => models !! model) with
   | Some cal => cal_samples cal < CALIBRATION_MIN_SAMPLES -> estimate c provider model input_len = baseline
   | None => estimate c provider model input_len = baseline
   end) /\
  3 * baseline <= 4 * estimate c provider model input_len.
Proof.
  intros Hl baseline. assert (Hb : 0 <= baseline /\ baseline * 3 + 3 <= u64_max).
  { unfold baseline, baseline_estimate, sat_add.
    assert (0 <= Z.min (input_len + 3) u64_max / 4) by (apply Z.div_pos; ulia).
    assert (Z.min (input_len + 3) u64_max / 4 <= u64_max / 4) by (apply Z.div_le_mono; lia).
    assert (u64_max / 4 = 4611686018427387903) by done. ulia. }
  unfold estimate. fold baseline. destruct (c !! provider ≫= _) as [cal|]; [|split; [done|lia]].
  destruct (Z.ltb_spec (cal_samples cal) CALIBRATION_MIN_SAMPLES); [split; [done|lia]|]. split; [lia|].
  assert (Hf : sat_add (sat_mul baseline 3) 3 / 4 = (baseline * 3 + 3) / 4).
  { unfold sat_add, sat_mul. f_equal. lia. }
  rewrite Hf. pose proof (Z.div_mod (baseline * 3 + 3) 4 ltac:(done)).
  pose proof (Z.mod_pos_bound (baseline * 3 + 3) 4 ltac:(done)). lia.
Qed.

(** Only a final, provider-reported measurement moves the calibration, and
    only of its own model. *)
Theorem estimator_learns_from_final_usage input_len e c :
  (ev_usage_completeness e <> Final \/ ev_usage_basis e <> ProviderReported -> estimator_observe input_len e c = c) /\
  (forall provider model, (provider, model) <> (ev_provider e, ev_model e) ->
     estimator_observe input_len e c !! provider ≫= (fun m => m !! model) =
     c !! provider ≫= (fun m => m !! model)).
Proof.
  unfold estimator_observe. split.
  - intros [H|H]; [rewrite bool_decide_eq_false_2 by done; done|].
    rewrite (bool_decide_eq_false_2 (_ = ProviderReported)) by done. by rewrite orb_true_r.
  - intros provider model Hne. destruct (_ || _); [done|]. destruct ((_ =? _) || _); [done|].
    destruct (decide (ev_provider e = provider)) as [<-|Hp]; [|by rewrite lookup_insert_ne].
    rewrite lookup_insert_eq. set (cal := MkCalibration _ _). simpl. rewrite lookup_insert_ne by congruence.
    by destruct (c !! ev_provider e); simpl; rewrite ?lookup_empty.
Qed.
