(* ===== verification/Accounting.v ===== *)
(** The accounting of a request in [crates/sandhi-proxy/src/lib.rs]: the
    reservation before dispatch and its rollback, the owner that settles the
    lease once however the request ends, and the usage the two streaming
    planes hold for it while a stream runs.  Time is an argument; a lock is
    taken by one thread at a time, and a poisoned one is a value of the
    state. *)

From S2P Require Import Prelude Text Ledger InMemory Budget Sql SqlLedger Usage Sharded ProxyLedger Json UsageParse.
From S2P Require Import Stats Alerts TokenEstimate Attempt.

(** ** Usage records, updated in place *)

Definition set_u_outcome (o : option string) (u : UsageV2) : UsageV2 :=
  MkUsage (u_tokens_in u) (u_tokens_out u) (u_cache_creation u) (u_cache_read u) (u_cache_obs u)
    (u_audio_in u) (u_audio_out u) (u_reasoning u) (u_reasoning_included u) (u_accepted_prediction u)
    (u_rejected_prediction u) (u_completeness u) (u_basis u) (u_attempts u) o (u_upstream_request_id u)
    (u_duration_ms u) (u_duration_source u) (u_ttft_ms u) (u_ttft_source u).
Definition set_u_completeness (c : UsageCompleteness) (u : UsageV2) : UsageV2 :=
  MkUsage (u_tokens_in u) (u_tokens_out u) (u_cache_creation u) (u_cache_read u) (u_cache_obs u)
    (u_audio_in u) (u_audio_out u) (u_reasoning u) (u_reasoning_included u) (u_accepted_prediction u)
    (u_rejected_prediction u) c (u_basis u) (u_attempts u) (u_outcome u) (u_upstream_request_id u)
    (u_duration_ms u) (u_duration_source u) (u_ttft_ms u) (u_ttft_source u).
Definition set_u_cache_obs (o : option CacheReadObservation) (u : UsageV2) : UsageV2 :=
  MkUsage (u_tokens_in u) (u_tokens_out u) (u_cache_creation u) (u_cache_read u) o
    (u_audio_in u) (u_audio_out u) (u_reasoning u) (u_reasoning_included u) (u_accepted_prediction u)
    (u_rejected_prediction u) (u_completeness u) (u_basis u) (u_attempts u) (u_outcome u)
    (u_upstream_request_id u) (u_duration_ms u) (u_duration_source u) (u_ttft_ms u) (u_ttft_source u).
Definition set_u_latency (d : option Z) (ds : option LatencySource) (t : option Z) (ts : option LatencySource)
    (u : UsageV2) : UsageV2 :=
  MkUsage (u_tokens_in u) (u_tokens_out u) (u_cache_creation u) (u_cache_read u) (u_cache_obs u)
    (u_audio_in u) (u_audio_out u) (u_reasoning u) (u_reasoning_included u) (u_accepted_prediction u)
    (u_rejected_prediction u) (u_completeness u) (u_basis u) (u_attempts u) (u_outcome u)
    (u_upstream_request_id u) d ds t ts.

Definition reconcile_boundary_duration (boundary_ms : Z) (u : UsageV2) : UsageV2 :=
  match u_duration_ms u with
  | Some _ => set_u_latency (u_duration_ms u) (or_some (u_duration_source u) (Some Origin)) (u_ttft_ms u) (u_ttft_source u) u
  | None => set_u_latency (Some boundary_ms) (Some Boundary) (u_ttft_ms u) (u_ttft_source u) u
  end.
Definition reconcile_boundary_ttft (boundary_ms : option Z) (u : UsageV2) : UsageV2 :=
  match u_ttft_ms u, boundary_ms with
  | Some _, _ => set_u_latency (u_duration_ms u) (u_duration_source u) (u_ttft_ms u) (or_some (u_ttft_source u) (Some Origin)) u
  | None, Some ms => set_u_latency (u_duration_ms u) (u_duration_source u) (Some ms) (Some Boundary) u
  | None, None => u
  end.

Definition reported_parts (u : UsageV2) : ParsedUsage :=
  MkParsed (u_tokens_in u) (u_tokens_out u) (u_cache_creation u) (u_cache_read u) (u_cache_obs u)
    (default 0 (u_reasoning u)) (u_reasoning_included u) None None.

(** The running usage of a stream without its terminal frame. *)
Definition partial_usage (reported : option ParsedUsage) (delta_out_bytes : Z) : UsageV2 :=
  let estimated_out := sat_add delta_out_bytes 3 / 4 in
  let d := UsageV2_default in
  match reported with
  | None =>
      MkUsage (u_tokens_in d) estimated_out (u_cache_creation d) (u_cache_read d) (u_cache_obs d)
        (u_audio_in d) (u_audio_out d) (u_reasoning d) (u_reasoning_included d) (u_accepted_prediction d)
        (u_rejected_prediction d) Partial Estimated (u_attempts d) (u_outcome d) (u_upstream_request_id d)
        (u_duration_ms d) (u_duration_source d) (u_ttft_ms d) (u_ttft_source d)
  | Some r =>
      MkUsage (pu_tokens_in r) (Z.max (pu_tokens_out r) estimated_out) (pu_cache_creation r) (pu_cache_read r)
        (pu_cache_obs r) (u_audio_in d) (u_audio_out d) (nonzero (pu_reasoning r)) (pu_reasoning_included r)
        (u_accepted_prediction d) (u_rejected_prediction d) Partial
        (if pu_tokens_out r <? estimated_out then Estimated else ProviderReported) (u_attempts d)
        (u_outcome d) (u_upstream_request_id d) (u_duration_ms d) (u_duration_source d) (u_ttft_ms d) (u_ttft_source d)
  end.

(** ** Requests *)

Record RequestMetadataV1 := MkMetadata {
  md_session_id : option string; md_virtual_key_id : option string; md_subject_id : option string;
  md_group_id : option string; md_route : option string; md_idempotency_key : option string;
  md_run_id : option string; md_step_id : option string; md_parent_id : option string;
  md_trace_context : option string }.

Definition DEFAULT_OUTPUT_CEILING : Z := 4096.
Definition reservation_ceiling (max_output_tokens : option Z) (estimated_input : Z) : Z * Z :=
  let effective_max := default DEFAULT_OUTPUT_CEILING max_output_tokens in
  (Z.max (sat_add estimated_input effective_max) 1, effective_max).

(** The event of a settled usage; [minted] is the id of the call. *)
Definition usage_event (now provider model : string) (m : RequestMetadataV1) (u : UsageV2) (minted : string) : UsageEvent :=
  let request_id := default minted (u_upstream_request_id u) in
  let e := UsageEvent_new request_id now provider model External in
  let e := with_attribution e (md_virtual_key_id m) (md_subject_id m) (md_group_id m) in
  let e := with_session (with_route e (md_route m)) (md_session_id m) in
  let e := with_identity e (md_idempotency_key m) (md_run_id m) (md_step_id m) (md_parent_id m) (md_trace_context m) in
  let e := with_tokens e (u_tokens_in u) (u_tokens_out u) in
  let e := with_reasoning_included (with_reasoning e (u_reasoning u)) (u_reasoning_included u) in
  let e := with_cache e (u_cache_creation u) (u_cache_read u) in
  let e := with_cache_read_observation e (u_cache_obs u) in
  let e := with_measurement e (u_completeness u) (u_attempts u) (u_outcome u) (u_upstream_request_id u) in
  let e := with_latency (with_basis e (u_basis u)) (u_duration_ms u) (u_ttft_ms u) in
  with_latency_sources e (u_duration_source u) (u_ttft_source u).

(** ** The state of the proxy *)

Record BudgetSpec := MkBudgetSpec { sp_scope : string; sp_limit_tokens : Z; sp_window : string; sp_policy : string }.

Record CallMeasurements := MkCall {
  cm_fresh_input : Z; cm_cache_creation : Z; cm_cache_read : Z; cm_output : Z; cm_reasoning : Z;
  cm_billable : Z; cm_estimated : bool; cm_duration_ms : option Z; cm_ttft_ms : option Z }.

(** What the proxy keeps; [None] under a lock is a poisoned one.  The sink,
    the webhook calls, the rules marked in the store and the calls counted
    are kept as the lists of what was done. *)
Record ProxyState := MkState {
  ps_ledger : Mutex ProxyLedger; ps_budgets : option (gmap string BudgetSpec);
  ps_alerts : option (option AlertRegistry); ps_alert_store : bool; ps_estimator : option TokenEstimateCalibrator;
  ps_cache_read_weight_bp : Z; ps_sink : list UsageEvent; ps_marked : list string; ps_sent : list (string * Alert);
  ps_calls : list (string * CallMeasurements); ps_overshoots : list Z; ps_replays : Z; ps_fallbacks : Z }.

Definition set_ledger (l : Mutex ProxyLedger) (s : ProxyState) : ProxyState :=
  MkState l (ps_budgets s) (ps_alerts s) (ps_alert_store s) (ps_estimator s) (ps_cache_read_weight_bp s) (ps_sink s)
    (ps_marked s) (ps_sent s) (ps_calls s) (ps_overshoots s) (ps_replays s) (ps_fallbacks s).
Definition set_alerts (a : option (option AlertRegistry)) (marked : list string) (sent : list (string * Alert))
    (s : ProxyState) : ProxyState :=
  MkState (ps_ledger s) (ps_budgets s) a (ps_alert_store s) (ps_estimator s) (ps_cache_read_weight_bp s) (ps_sink s)
    (ps_marked s ++ marked) (ps_sent s ++ sent) (ps_calls s) (ps_overshoots s) (ps_replays s) (ps_fallbacks s).
Definition count_overshoot (o : Z) (s : ProxyState) : ProxyState :=
  MkState (ps_ledger s) (ps_budgets s) (ps_alerts s) (ps_alert_store s) (ps_estimator s) (ps_cache_read_weight_bp s)
    (ps_sink s) (ps_marked s) (ps_sent s) (ps_calls s) (ps_overshoots s ++ [o]) (ps_replays s) (ps_fallbacks s).
Definition count_idempotent (replay fallback : Z) (s : ProxyState) : ProxyState :=
  MkState (ps_ledger s) (ps_budgets s) (ps_alerts s) (ps_alert_store s) (ps_estimator s) (ps_cache_read_weight_bp s)
    (ps_sink s) (ps_marked s) (ps_sent s) (ps_calls s) (ps_overshoots s) (wadd (ps_replays s) replay)
    (wadd (ps_fallbacks s) fallback).
Definition emitted (call : string * CallMeasurements) (estimator : option TokenEstimateCalibrator) (e : UsageEvent)
    (s : ProxyState) : ProxyState :=
  MkState (ps_ledger s) (ps_budgets s) (ps_alerts s) (ps_alert_store s) estimator (ps_cache_read_weight_bp s)
    (ps_sink s ++ [e]) (ps_marked s) (ps_sent s) (ps_calls s ++ [call]) (ps_overshoots s) (ps_replays s) (ps_fallbacks s).

(** An unset scope, or a poisoned map, is a hard cap. *)
Definition scope_policy (s : ProxyState) (scope : string) : Policy :=
  match ps_budgets s ≫= (fun budgets => budgets !! scope) with
  | Some spec => Policy_parse (sp_policy spec)
  | None => Block
  end.
Definition ledger_failure_admission (p : Policy) : Admission := match p with Warn => Unmetered | Block => Refused end.

(** ** The ledger lock *)

(** What a critical section gives: its value, nothing because the lock is
    poisoned, or a panic, which poisons it. *)
Inductive Locked (A : Type) := Ran (a : A) | LockPoisoned | LockPanicked.
Arguments Ran {A} a.
Arguments LockPoisoned {A}.
Arguments LockPanicked {A}.

Definition with_ledger {A} (f : ProxyLedger -> ProxyLedger * option A) (s : ProxyState) : Locked A * ProxyState :=
  let m := ps_ledger s in
  if mx_poisoned m then (LockPoisoned, s)
  else match f (mx_value m) with
  | (l, Some a) => (Ran a, set_ledger (MkMutex (mx_locked m) false l) s)
  | (l, None) => (LockPanicked, set_ledger (MkMutex (mx_locked m) true l) s)
  end.

Section Accounting.
Context `{Calendar}.
(** The alert registry reads its clock through the [time] crate. *)
Variable parse_ts : string -> option Z.

(** ** Reservation before dispatch *)

Record PendingAdmission := MkPending { pa_capped : bool; pa_admission : option Admission }.

(** The worker's section: [running] is the lifecycle's answer under the
    lock. *)
Definition reserve_section (running : bool) (scope : string) (ceiling now : Z) (policy : Policy) (l : ProxyLedger)
    : ProxyLedger * option (bool * Admission) :=
  if negb running then (l, Some (false, Refused))
  else
    let limited :=
      match policy with
      | Block => match pl_limit l scope with Some (lim, l) => Some (bool_decide (is_Some lim), l) | None => None end
      | Warn => Some (false, l)
      end in
    match limited with
    | None => (l, None)
    | Some (capped, l) =>
        match pl_reserve l scope ceiling now policy with
        | Some (a, l) => (l, Some (capped, a))
        | None => (l, None)
        end
    end.

Definition reserve_worker (running : bool) (scope : string) (ceiling now : Z) (policy : Policy) (s : ProxyState)
    : PendingAdmission * ProxyState :=
  match with_ledger (reserve_section running scope ceiling now policy) s with
  | (Ran (capped, a), s) => (MkPending capped (Some a), s)
  | (LockPoisoned, s) | (LockPanicked, s) => (MkPending false (Some (ledger_failure_admission policy)), s)
  end.

(** [Drop for PendingAdmission]: a lease that never reached dispatch is
    settled with zero. *)
Definition settle_section (r : Reservation) (actual clock : Z) (l : ProxyLedger) : ProxyLedger * option unit :=
  match pl_settle l r actual clock with Some l => (l, Some tt) | None => (l, None) end.
Definition drop_pending (clock : Z) (p : PendingAdmission) (s : ProxyState) : ProxyState :=
  match pa_admission p with
  | Some (Leased r) => (with_ledger (settle_section r 0 clock) s).2
  | _ => s
  end.

(** [reserve_budget]: refused at the cutoff; a cancelled caller leaves the
    worker's reservation to its drop. *)
Definition reserve_budget (admitted running cancelled : bool) (scope : string) (ceiling now dropped_at : Z) (policy : Policy)
    (s : ProxyState) : option PendingAdmission * ProxyState :=
  if negb admitted then (None, s)
  else
    let '(p, s) := reserve_worker running scope ceiling now policy s in
    if cancelled then (None, drop_pending dropped_at p s) else (Some p, s).

(** ** The owner of a request's accounting *)

(** The labels of metrics and spans, the lifetime of the body and the guard
    of the lifecycle are left out. *)
Record RequestAccounting := MkAccounting {
  ac_owned : bool; ac_scope : string; ac_reservation : option Reservation; ac_provider : string; ac_model : string;
  ac_input_len : Z; ac_dedup : option (string * string); ac_request_id : string; ac_metadata : RequestMetadataV1;
  ac_usage : option UsageV2; ac_outcome : string; ac_finalized : bool }.

Definition accounting_new (scope : string) (reservation : option Reservation) (provider model request_id : string)
    (m : RequestMetadataV1) : RequestAccounting :=
  MkAccounting false scope reservation provider model 0 None request_id m None "cancelled" false.

(** The fields the handler sets before dispatch. *)
Definition prepare_accounting (input_len : Z) (a : RequestAccounting) : RequestAccounting :=
  let m := ac_metadata a in
  MkAccounting (ac_owned a) (ac_scope a) (ac_reservation a) (ac_provider a) (ac_model a) input_len
    ((fun key => (default ""%string (md_virtual_key_id m), key)) <$> md_idempotency_key m)
    (ac_request_id a) m (ac_usage a) (ac_outcome a) (ac_finalized a).

Definition set_usage (u : option UsageV2) (a : RequestAccounting) : RequestAccounting :=
  MkAccounting (ac_owned a) (ac_scope a) (ac_reservation a) (ac_provider a) (ac_model a) (ac_input_len a) (ac_dedup a)
    (ac_request_id a) (ac_metadata a) u (ac_outcome a) (ac_finalized a).
Definition observe (u : UsageV2) (a : RequestAccounting) : RequestAccounting := set_usage (Some u) a.
Definition set_outcome (o : string) (a : RequestAccounting) : RequestAccounting :=
  MkAccounting (ac_owned a) (ac_scope a) (ac_reservation a) (ac_provider a) (ac_model a) (ac_input_len a) (ac_dedup a)
    (ac_request_id a) (ac_metadata a) (ac_usage a) o (ac_finalized a).
(** The finalizer takes the usage and marks the owner. *)
Definition finish_accounting (a : RequestAccounting) : RequestAccounting :=
  MkAccounting (ac_owned a) (ac_scope a) (ac_reservation a) (ac_provider a) (ac_model a) (ac_input_len a) (ac_dedup a)
    (ac_request_id a) (ac_metadata a) (if ac_owned a then ac_usage a else None) (ac_outcome a) true.

(** The instants at which one finalizer reads the clock. *)
Record Clocks := MkClocks { ck_settle : Z; ck_seen : Z; ck_record : Z; ck_spent : Z; ck_now : string }.

Definition is_measured (u : UsageV2) : bool := match u_completeness u with Final | Partial => true | Unavailable => false end.

(** The usage to settle, and its charge. *)
Definition final_usage (a : RequestAccounting) : UsageV2 :=
  let u := default UsageV2_default (ac_usage a) in
  match u_outcome u with Some _ => u | None => set_u_outcome (Some (ac_outcome a)) u end.
Definition charge_of (bp : Z) (u : UsageV2) : Z := if is_measured u then billable_weighted u bp else 0.

(** The section under the ledger lock: settle, then the idempotency record,
    then the spend for the alerts.  It gives whether the call is a replay,
    and the spend of a measured one. *)
Definition dedup_section (ck : Clocks) (a : RequestAccounting) (actual : Z) (l : ProxyLedger) : ProxyLedger * option bool :=
  match ac_dedup a with
  | None => (l, Some false)
  | Some (vkey, idem_key) =>
      match pl_seen l vkey idem_key (ck_seen ck) with
      | None => (l, None)
      | Some (Some _, l) => (l, Some true)
      | Some (None, l) =>
          let reservation_id := match ac_reservation a with Some r => rsv_id r | None => 0 end in
          match pl_record l vkey idem_key reservation_id actual (ck_record ck) with
          | None => (l, None)
          | Some l => (l, Some false)
          end
      end
  end.
Definition spent_section (ck : Clocks) (measured : bool) (scope : string) (l : ProxyLedger) : ProxyLedger * option (option Z) :=
  if measured
  then match pl_spent l scope (ck_spent ck) with Some (n, l) => (l, Some (Some n)) | None => (l, None) end
  else (l, Some None).
Definition finalize_section (ck : Clocks) (a : RequestAccounting) (measured : bool) (actual : Z) (l : ProxyLedger)
    : ProxyLedger * option (bool * option Z) :=
  let settled := match ac_reservation a with Some r => settle_section r actual (ck_settle ck) l | None => (l, Some tt) end in
  match settled with
  | (l, None) => (l, None)
  | (l, Some _) =>
      match dedup_section ck a actual l with
      | (l, None) => (l, None)
      | (l, Some reused) =>
          match spent_section ck measured (ac_scope a) l with
          | (l, None) => (l, None)
          | (l, Some spent) => (l, Some (reused, spent))
          end
      end
  end.

Definition fire_alerts (ck : Clocks) (scope : string) (spent : Z) (limit : option Z) (s : ProxyState) : ProxyState :=
  match ps_alerts s with
  | None | Some None => s
  | Some (Some reg) =>
      let '(fired, sent, reg) := evaluate parse_ts (ck_now ck) scope spent limit reg in
      set_alerts (Some (Some reg)) (if ps_alert_store s then al_rule_id <$> fired else []) sent s
  end.

Definition emit_usage (ck : Clocks) (a : RequestAccounting) (u : UsageV2) (actual : Z) (s : ProxyState) : ProxyState :=
  let event := usage_event (ck_now ck) (ac_provider a) (ac_model a) (ac_metadata a) u (ac_request_id a) in
  let call := MkCall (u_tokens_in u) (u_cache_creation u) (u_cache_read u) (u_tokens_out u) (default 0 (u_reasoning u))
                actual (bool_decide (u_basis u = Estimated)) (u_duration_ms u) (u_ttft_ms u) in
  emitted (ac_outcome a, call) (estimator_observe (ac_input_len a) event <$> ps_estimator s) event s.

(** [observe_settle_overshoot]. *)
Definition note_overshoot (a : RequestAccounting) (actual : Z) (s : ProxyState) : ProxyState :=
  match ac_reservation a with
  | Some r => if rsv_ceiling r <? actual then count_overshoot (actual - rsv_ceiling r) s else s
  | None => s
  end.

(** After the lock: a replay is dropped, anything else is reported. *)
Definition report (ck : Clocks) (a : RequestAccounting) (u : UsageV2) (actual : Z) (reused : bool) (spent : option Z)
    (s : ProxyState) : ProxyState :=
  if reused then count_idempotent 1 0 s
  else
    let volatile := negb (mx_poisoned (ps_ledger s)) && is_volatile (mx_value (ps_ledger s)) in
    let s := if bool_decide (is_Some (ac_dedup a)) && volatile then count_idempotent 0 1 s else s in
    let s := match spent with
             | Some n =>
                 let limit := (ps_budgets s ≫= (fun b => b !! ac_scope a)) in
                 fire_alerts ck (ac_scope a) n (sp_limit_tokens <$> limit) s
             | None => s
             end in
    emit_usage ck a u actual s.

(** [finalize]. *)
Definition finalize (ck : Clocks) (a : RequestAccounting) (s : ProxyState) : RequestAccounting * ProxyState :=
  if ac_finalized a then (a, s)
  else if ac_owned a then (finish_accounting a, s)
  else
    let u := final_usage a in
    let actual := charge_of (ps_cache_read_weight_bp s) u in
    let s := note_overshoot a actual s in
    match with_ledger (finalize_section ck a (is_measured u) actual) s with
    | (LockPanicked, s) => (finish_accounting a, s)
    | (LockPoisoned, s) => (finish_accounting a, report ck a u actual false None s)
    | (Ran (reused, spent), s) => (finish_accounting a, report ck a u actual reused spent s)
    end.

(** ** From the reservation to the response *)

Definition SETTLEMENT_HEADROOM_MS : Z := 60000.
(** [fits_lease]: the expiry counts in whole seconds. *)
Definition fits_lease (duration expires_at now : Z) : bool :=
  duration + SETTLEMENT_HEADROOM_MS * 1000000 <=? expires_at / seconds 1 * seconds 1 - now.

Inductive Refusal := RefDraining | RefLease | RefBudget.

(** A request as the tail of the handler sees it. *)
Record Call := MkCallEnv {
  rq_scope : string; rq_policy : Policy; rq_ceiling : Z; rq_effective_max : Z; rq_max_output : option Z;
  rq_provider : string; rq_model : string; rq_request_id : string; rq_metadata : RequestMetadataV1;
  rq_input_len : Z; rq_transparent_eligible : bool;
  (* the deadlines, when the route has them: of a buffered call, of a stream *)
  rq_buffered : option Z; rq_streaming : option Z;
  (* what the lifecycle answers, and when the clock is read *)
  rq_admitted : bool; rq_running : bool; rq_cancelled : bool; rq_operation : bool;
  rq_reserve_at : Z; rq_check_at : Z; rq_stream_check_at : Z; rq_drop_at : Z }.

(** A dispatched call: its accounting, the output bound put on the request,
    and whether it takes the transparent plane. *)
Record Dispatched := MkDispatched { di_accounting : RequestAccounting; di_max_output : option Z; di_transparent : bool }.

Definition lease_too_short (duration : option Z) (now : Z) (p : PendingAdmission) : bool :=
  match duration, pa_admission p with
  | Some d, Some (Leased r) => negb (fits_lease d (rsv_expires_at r) now)
  | _, _ => false
  end.

Definition dispatch (q : Call) (p : PendingAdmission) : result Refusal Dispatched :=
  let inject := pa_capped p && bool_decide (rq_max_output q = None) in
  let go reservation :=
    Ok (MkDispatched
          (prepare_accounting (rq_input_len q)
             (accounting_new (rq_scope q) reservation (rq_provider q) (rq_model q) (rq_request_id q) (rq_metadata q)))
          (if inject then Some (rq_effective_max q) else rq_max_output q)
          (rq_transparent_eligible q && negb inject)) in
  match pa_admission p with
  | Some (Leased r) => go (Some r)
  | Some Unmetered => go None
  | Some Refused | None => Err RefBudget
  end.

Definition admit_request (q : Call) (s : ProxyState) : result Refusal Dispatched * ProxyState :=
  match reserve_budget (rq_admitted q) (rq_running q) (rq_cancelled q) (rq_scope q) (rq_ceiling q) (rq_reserve_at q)
          (rq_drop_at q) (rq_policy q) s with
  | (None, s) => (Err RefDraining, s)
  | (Some p, s) =>
      if lease_too_short (rq_buffered q) (rq_check_at q) p || lease_too_short (rq_streaming q) (rq_stream_check_at q) p
      then (Err RefLease, drop_pending (rq_drop_at q) p s)
      else if negb (rq_operation q) then (Err RefDraining, drop_pending (rq_drop_at q) p s)
      else (dispatch q p, s)
  end.

(** What the response does to its accounting while it runs. *)
Inductive AccOp :=
| AObserve (u : UsageV2)
| AOutcome (outcome : string)
| ACacheObs (o : option CacheReadObservation)      (* on the usage held, if any *)
| ANoteObs (o : option CacheReadObservation)       (* held or not *)
| AFailed (outcome : string)                       (* delivery failed: the outcome only *)
| ASucceed                                         (* the end, unless it failed *)
| AFinalize (ck : Clocks).

Definition acc_update (op : AccOp) (a : RequestAccounting) : RequestAccounting :=
  match op with
  | AObserve u => observe u a
  | AOutcome o => set_outcome o a
  | ACacheObs o => set_usage (set_u_cache_obs o <$> ac_usage a) a
  | ANoteObs o =>
      match ac_usage a, o with
      | Some u, _ => set_usage (Some (set_u_cache_obs o u)) a
      | None, Some _ => observe (set_u_cache_obs o UsageV2_default) a
      | None, None => a
      end
  | AFailed o => set_usage (set_u_outcome (Some o) <$> ac_usage a) (set_outcome o a)
  | ASucceed => if String.eqb (ac_outcome a) "error" then a else set_outcome "success" a
  | AFinalize _ => a
  end.
Definition acc_step (st : RequestAccounting * ProxyState) (op : AccOp) : RequestAccounting * ProxyState :=
  match op with
  | AFinalize ck => finalize ck st.1 st.2
  | _ => (acc_update op st.1, st.2)
  end.

(** The accounting is dropped when the response is over or abandoned. *)
Definition response_life (ops : list AccOp) (dropped : Clocks) (st : RequestAccounting * ProxyState) : ProxyState :=
  let '(a, s) := foldl acc_step st ops in (finalize dropped a s).2.

Definition handle (q : Call) (ops : list AccOp) (dropped : Clocks) (s : ProxyState) : result Refusal Dispatched * ProxyState :=
  match admit_request q s with
  | (Ok d, s) => (Ok d, response_life ops dropped (di_accounting d, s))
  | (Err e, s) => (Err e, s)
  end.
End Accounting.

(** ** The buffered planes *)

Definition measured_answer (u : UsageV2) : UsageV2 :=
  let u := set_u_completeness Final u in set_u_outcome (or_some (u_outcome u) (Some "success"%string)) u.
(** The answer of the provider, or [None] for an error, on an accounting that
    the registry does not own: [finalize_owned] is then [finalize]. *)
Definition complete_ops (answer : option UsageV2) (ck : Clocks) : list AccOp :=
  match answer with
  | Some u => [AObserve (measured_answer u); AOutcome "success"; AFinalize ck]
  | None => [AOutcome "error"; AFinalize ck]
  end.
Definition transparent_complete_ops (elapsed : Z) (answer : option UsageV2) (ck : Clocks) : list AccOp :=
  complete_ops (reconcile_boundary_duration elapsed <$> answer) ck.

(** ** The streaming planes *)

Inductive FinishReasonV1 := FrStop | FrLength | FrToolCalls | FrContentFilter | FrFunctionCall | FrUnknown.
Record ProviderErrorV1 := MkProviderError {
  pv_code : string; pv_message : string; pv_retryable : bool; pv_http_status : option Z;
  pv_provider : option string; pv_request_id : option string; pv_details : gmap string Json }.

Inductive ChatStreamEventV1 :=
| EvResponseStart (id : option string) (model : string)
| EvTextDelta (delta : string)
| EvReasoningDelta (delta : string)
| EvRefusalDelta (delta : string)
| EvToolCallStart (index : Z) (id name : string)
| EvToolCallArgumentsDelta (index : Z) (delta : string)
| EvToolCallEnd (index : Z)
| EvUsage (usage : UsageV2)
| EvFinish (reason : FinishReasonV1)
| EvError (error : ProviderErrorV1).

Record TypedState := MkTyped {
  ts_last : option UsageV2; ts_running : option ParsedUsage; ts_obs : option CacheReadObservation; ts_bytes : Z }.
Definition typed_new : TypedState := MkTyped None None None 0.

(** The match on one event. *)
Definition typed_event (st : TypedState) (e : ChatStreamEventV1) : TypedState * list AccOp :=
  match e with
  | EvUsage u =>
      let obs := merge_cache_read_observation (ts_obs st) (u_cache_obs u) in
      if bool_decide (u_completeness u = Final)
      then (MkTyped (Some u) (ts_running st) obs (ts_bytes st), [AObserve u])
      else
        let fresh := negb (bool_decide (u_completeness u = Unavailable)) || bool_decide (u_cache_obs u ≫= validated = None) in
        (MkTyped (ts_last st) (if fresh then Some (reported_parts u) else ts_running st) obs (ts_bytes st), [])
  | EvTextDelta delta | EvReasoningDelta delta | EvRefusalDelta delta | EvToolCallArgumentsDelta _ delta =>
      (MkTyped (ts_last st) (ts_running st) (ts_obs st) (sat_add (ts_bytes st) (Z.of_nat (String.length delta))), [])
  | EvError _ => (st, [AOutcome "error"])
  | EvFinish _ (* kept for the span only *) | EvResponseStart _ _ | EvToolCallStart _ _ _ | EvToolCallEnd _ => (st, [])
  end.
(** Then the running partial, until the terminal usage arrived. *)
Definition typed_hold (st : TypedState) : list AccOp :=
  match ts_last st with
  | None => [AObserve (set_u_cache_obs (ts_obs st) (partial_usage (ts_running st) (ts_bytes st)))]
  | Some _ => [ACacheObs (ts_obs st)]
  end.

(** The loop up to where it stands: an upstream error ends it. *)
Fixpoint typed_ops (st : TypedState) (items : list (option ChatStreamEventV1)) : list AccOp :=
  match items with
  | [] => []
  | None :: _ => [AOutcome "error"]
  | Some e :: items => let '(st, ops) := typed_event st e in ops ++ typed_hold st ++ typed_ops st items
  end.

(** The transparent plane reads the chunks of the metered pass-through. *)
Record RawState := MkRaw { rw_seen : bool; rw_bytes : Z; rw_ttft : option Z; rw_obs : option CacheReadObservation }.
Definition raw_new : RawState := MkRaw false 0 None None.

(** One chunk; [elapsed] is the two readings of the call's timer, for its
    first byte and for its duration. *)
Definition raw_chunk (elapsed : Z * Z) (st : RawState) (c : StreamChunk) : RawState * list AccOp :=
  let obs := merge_cache_read_observation (rw_obs st) (ck_cache_obs c) in
  let empty := bool_decide (ck_data c = []) in
  let ttft := if empty then rw_ttft st else or_some (rw_ttft st) (Some elapsed.1) in
  match ck_usage c with
  | Some parsed =>
      let u := set_u_cache_obs obs (parsed_usage parsed) in
      let u := reconcile_boundary_ttft ttft (reconcile_boundary_duration elapsed.2 u) in
      let u := set_u_completeness Final u in
      let u := set_u_outcome (or_some (u_outcome u) (Some "success"%string)) u in
      (MkRaw true (rw_bytes st) ttft obs, [AObserve u; ANoteObs obs])
  | None =>
      if empty then (MkRaw (rw_seen st) (rw_bytes st) ttft obs, [ANoteObs obs])
      else
        let bytes := sat_add (rw_bytes st) (Z.of_nat (length (ck_data c))) in
        (MkRaw (rw_seen st) bytes ttft obs,
         (if rw_seen st then [] else [AObserve (set_u_cache_obs obs (partial_usage (ck_usage_running c) bytes))])
         ++ [ANoteObs obs])
  end.
Fixpoint raw_ops (st : RawState) (items : list (Z * Z * option StreamChunk)) : list AccOp :=
  match items with
  | [] => []
  | (_, None) :: _ => [AOutcome "error"]
  | (elapsed, Some c) :: items => let '(st, ops) := raw_chunk elapsed st c in ops ++ raw_ops st items
  end.

(** ** How a stream's owner leaves it ([streaming.rs]) *)

Inductive Failure := Deadline | Disconnected | Shutdown | LeaseFailure | Source | Panic | AccountingFailure.
Definition failure_outcome (f : Failure) : string :=
  match f with Deadline => "timeout" | Disconnected => "cancelled" | _ => "error" end.

(** The body ran to its end; its delivery failed, before the source ended or
    after; or it was dropped. *)
Inductive StreamEnd := Ended | DeliveryFailed (source_ended : bool) (reason : Failure) | AbandonedBody.
Definition end_ops (e : StreamEnd) : list AccOp :=
  match e with
  | Ended => [ASucceed]
  | DeliveryFailed ended reason => (if ended then [ASucceed] else []) ++ [AFailed (failure_outcome reason)]
  | AbandonedBody => []
  end.
