(* ===== verification/AccountingProps.v ===== *)
(** What the accounting of a request guarantees: every lease is settled
    once, with the charge of the usage held when the request ended, and a
    stream that is cut short is charged for what it delivered. *)

From S2P Require Import Prelude Text Ledger InMemory Budget Sql SqlLedger Usage Sharded ProxyLedger Json UsageParse.
From S2P Require Import Stats Alerts TokenEstimate Attempt SqlContract Accounting.

(** ** The finalizer runs once *)

(** The clocks and the accounting of the finalization that counts. *)
Fixpoint settling (ops : list AccOp) (dropped : Clocks) (a : RequestAccounting) : Clocks * RequestAccounting :=
  match ops with
  | [] => (dropped, a)
  | AFinalize ck :: _ => (ck, a)
  | op :: ops => settling ops dropped (acc_update op a)
  end.

Section Once.
Context `{Calendar}.
Variable parse_ts : string -> option Z.

Lemma finalize_done ck a s : ac_finalized a = true -> finalize parse_ts ck a s = (a, s).
Proof. unfold finalize. by intros ->. Qed.
Lemma finalize_finishes ck a s : ac_finalized (finalize parse_ts ck a s).1 = true.
Proof.
  unfold finalize. destruct (ac_finalized a) eqn:E; [done|]. destruct (ac_owned a); [done|].
  by destruct (with_ledger _ _) as [[[]| |] ?].
Qed.
Lemma acc_update_finalized op a : ac_finalized (acc_update op a) = ac_finalized a.
Proof. destruct op; simpl; try done; by repeat case_match. Qed.

Lemma finished_steps ops : forall a s, ac_finalized a = true ->
  ac_finalized (foldl (acc_step parse_ts) (a, s) ops).1 = true /\ (foldl (acc_step parse_ts) (a, s) ops).2 = s.
Proof.
  induction ops as [|op ops IH]; intros a s Ha; [done|]. simpl.
  assert (Hs : exists a', acc_step parse_ts (a, s) op = (a', s) /\ ac_finalized a' = true).
  { destruct op; simpl; try (eexists; split; [reflexivity|]; by rewrite ?acc_update_finalized).
    - by repeat case_match; eexists.
    - by case_match; eexists.
    - exists a. by rewrite finalize_done. }
  destruct Hs as (a' & -> & Ha'). by apply IH.
Qed.

Lemma life_settles ops dropped : forall a s, ac_finalized a = false ->
  response_life parse_ts ops dropped (a, s) =
  (finalize parse_ts (settling ops dropped a).1 (settling ops dropped a).2 s).2.
Proof.
  induction ops as [|op ops IH]; intros a s Ha; [done|]. unfold response_life in *. simpl.
  assert (Hf : forall ck, op = AFinalize ck ->
    (let '(a0, s0) := foldl (acc_step parse_ts) (acc_step parse_ts (a, s) op) ops in (finalize parse_ts dropped a0 s0).2) =
    (finalize parse_ts ck a s).2).
  { intros ck ->. simpl. pose proof (finalize_finishes ck a s) as Hd. destruct (finalize parse_ts ck a s) as [a1 s1].
    destruct (finished_steps ops a1 s1 Hd) as [H1 H2]. destruct (foldl _ _ ops) as [a2 s2]. simpl in *.
    by rewrite finalize_done. }
  destruct op; try (apply (IH (acc_update _ a)); by rewrite acc_update_finalized). by apply Hf.
Qed.
End Once.

(** ** What a request does to the ledger *)

Definition settle_of (o : pop) : option (Reservation * Z) :=
  match o with PSettle r a _ => Some (r, a) | _ => None end.
Definition settles (ops : list pop) : list (Reservation * Z) := omap settle_of ops.
Definition reserve_of (o : pop) : option string := match o with PReserve sc _ _ _ => Some sc | _ => None end.
Definition reserves (ops : list pop) : list string := omap reserve_of ops.

Section Ledger.
Context `{Calendar}.
Variable parse_ts : string -> option Z.

Lemma prun_app l ops ops' : prun l (ops ++ ops') = prun l ops ≫= (fun l => prun l ops').
Proof.
  revert l. induction ops as [|o ops IH]; intros l; simpl; [done|]. destruct (pstep l o); simpl; [apply IH|done].
Qed.
Lemma prun_step l o l' ops l'' : pstep l o = Some l' -> prun l' ops = Some l'' -> prun l (o :: ops) = Some l''.
Proof. intros H1 H2. simpl. by rewrite H1. Qed.

(** A section is a run of operations with these settlements. *)
Definition section_runs {A} (x : ProxyLedger * option A) (l : ProxyLedger) (st : list (Reservation * Z)) (rs : list string) : Prop :=
  forall l' a, x = (l', Some a) -> exists ops, prun l ops = Some l' /\ settles ops = st /\ reserves ops = rs.

Lemma settle_section_runs r actual clock l : section_runs (settle_section r actual clock l) l [(r, actual)] [].
Proof.
  intros l' a. unfold settle_section. destruct (pl_settle l r actual clock) as [l1|] eqn:E; [|done]. intros [= <- _].
  exists [PSettle r actual clock]. split_and!; [|done|done]. simpl. by rewrite E.
Qed.

Lemma dedup_section_runs ck a actual l : section_runs (dedup_section ck a actual l) l [] [].
Proof.
  intros l' r. unfold dedup_section. destruct (ac_dedup a) as [[vk ik]|]; [|intros [= <- _]; by exists []].
  destruct (pl_seen l vk ik (ck_seen ck)) as [[[x|] l1]|] eqn:E; [| |done].
  - intros [= <- _]. exists [PSeen vk ik (ck_seen ck)]. split_and!; [|done|done]. simpl. by rewrite E.
  - set (id := match ac_reservation a with Some r => rsv_id r | None => 0 end).
    destruct (pl_record l1 vk ik id actual (ck_record ck)) as [l2|] eqn:E2; [|done]. intros [= <- _].
    exists [PSeen vk ik (ck_seen ck); PRecord vk ik id actual (ck_record ck)]. split_and!; [|done|done]. simpl.
    rewrite E. simpl. by rewrite E2.
Qed.

Lemma spent_section_runs ck m scope l : section_runs (spent_section ck m scope l) l [] [].
Proof.
  intros l' r. unfold spent_section. destruct m; [|intros [= <- _]; by exists []].
  destruct (pl_spent l scope (ck_spent ck)) as [[n l1]|] eqn:E; [|done]. intros [= <- _].
  exists [PSpent scope (ck_spent ck)]. split_and!; [|done|done]. simpl. by rewrite E.
Qed.

Lemma settles_app a b : settles (a ++ b) = settles a ++ settles b.
Proof. apply omap_app. Qed.
Lemma reserves_app a b : reserves (a ++ b) = reserves a ++ reserves b.
Proof. apply omap_app. Qed.

Definition lease_settles (r : option Reservation) (actual : Z) : list (Reservation * Z) :=
  match r with Some r => [(r, actual)] | None => [] end.

Lemma finalize_section_runs ck a m actual l :
  section_runs (finalize_section ck a m actual l) l (lease_settles (ac_reservation a) actual) [].
Proof.
  intros l' r. unfold finalize_section.
  assert (H1 : section_runs (match ac_reservation a with Some r => settle_section r actual (ck_settle ck) l | None => (l, Some tt) end)
    l (lease_settles (ac_reservation a) actual) []).
  { destruct (ac_reservation a) as [r0|]; [apply settle_section_runs|]. intros ? ? [= <- _]. by exists []. }
  destruct (match ac_reservation a with Some r => _ | None => _ end) as [l1 [u|]]; [|done].
  destruct (H1 l1 u eq_refl) as (o1 & R1 & S1 & V1).
  pose proof (dedup_section_runs ck a actual l1) as H2. destruct (dedup_section ck a actual l1) as [l2 [b|]]; [|done].
  destruct (H2 l2 b eq_refl) as (o2 & R2 & S2 & V2).
  pose proof (spent_section_runs ck m (ac_scope a) l2) as H3. destruct (spent_section ck m (ac_scope a) l2) as [l3 [n|]]; [|done].
  destruct (H3 l3 n eq_refl) as (o3 & R3 & S3 & V3). intros [= <- _].
  exists (o1 ++ o2 ++ o3). rewrite !prun_app, R1. simpl. rewrite prun_app, R2. simpl. rewrite R3.
  rewrite !settles_app, !reserves_app, S1, S2, S3, V1, V2, V3. by rewrite !app_nil_r.
Qed.

Lemma reserve_section_runs running scope ceiling now policy l :
  section_runs (reserve_section running scope ceiling now policy l) l [] (if running then [scope] else []).
Proof.
  intros l' r. unfold reserve_section. destruct running; simpl; [|intros [= <- _]; by exists []]. destruct policy.
  - destruct (pl_limit l scope) as [[lim l1]|] eqn:E1; [|done].
    destruct (pl_reserve l1 scope ceiling now Block) as [[a l2]|] eqn:E2; [|done]. intros [= <- _].
    exists [PLimit scope; PReserve scope ceiling now Block]. split_and!; [|done|done]. simpl. rewrite E1. simpl. by rewrite E2.
  - destruct (pl_reserve l scope ceiling now Warn) as [[a l2]|] eqn:E2; [|done]. intros [= <- _].
    exists [PReserve scope ceiling now Warn]. split_and!; [|done|done]. simpl. by rewrite E2.
Qed.

(** ** The rest of the state *)

(** What only the ledger changed. *)
Definition only_ledger (s s' : ProxyState) : Prop := exists m, s' = set_ledger m s.

Lemma with_ledger_runs {A} (f : ProxyLedger -> ProxyLedger * option A) s st rs :
  (forall l, section_runs (f l) l st rs) ->
  mx_poisoned (ps_ledger s) = false -> mx_poisoned (ps_ledger (with_ledger f s).2) = false ->
  exists a ops, (with_ledger f s).1 = Ran a /\
    prun (mx_value (ps_ledger s)) ops = Some (mx_value (ps_ledger (with_ledger f s).2)) /\
    settles ops = st /\ reserves ops = rs.
Proof.
  intros Hf Hp Hp'. unfold with_ledger in *. rewrite Hp in *.
  destruct (f (mx_value (ps_ledger s))) as [l [a|]] eqn:E; [|done]. simpl in *.
  destruct (Hf _ _ _ E) as (ops & H1 & H2 & H3). by exists a, ops.
Qed.

Lemma with_ledger_only {A} (f : ProxyLedger -> ProxyLedger * option A) s : only_ledger s (with_ledger f s).2.
Proof.
  unfold with_ledger. destruct (mx_poisoned (ps_ledger s)); [exists (ps_ledger s); by destruct s|].
  destruct (f _) as [l [a|]]; by eexists.
Qed.

Lemma report_ledger ck a u actual reused spent s : ps_ledger (report parse_ts ck a u actual reused spent s) = ps_ledger s.
Proof.
  unfold report. destruct reused; [done|]. unfold emit_usage, emitted. simpl. unfold fire_alerts.
  repeat (case_match; simpl; try done).
Qed.

Lemma report_sink ck a u actual spent s :
  ps_sink (report parse_ts ck a u actual false spent s) =
  ps_sink s ++ [usage_event (ck_now ck) (ac_provider a) (ac_model a) (ac_metadata a) u (ac_request_id a)].
Proof.
  unfold report, emit_usage, emitted. simpl. f_equal. unfold fire_alerts. repeat (case_match; simpl; try done).
Qed.

Lemma replay_has_key ck a m actual l l' spent :
  finalize_section ck a m actual l = (l', Some (true, spent)) -> is_Some (ac_dedup a).
Proof.
  unfold finalize_section, dedup_section. destruct (match ac_reservation a with Some r => _ | None => _ end) as [l1 [u|]]; [|done].
  destruct (ac_dedup a); [by eexists|]. by repeat case_match.
Qed.

Lemma note_overshoot_same a actual s :
  ps_ledger (note_overshoot a actual s) = ps_ledger s /\ ps_sink (note_overshoot a actual s) = ps_sink s /\
  ps_replays (note_overshoot a actual s) = ps_replays s /\
  ps_cache_read_weight_bp (note_overshoot a actual s) = ps_cache_read_weight_bp s.
Proof. unfold note_overshoot. by repeat case_match. Qed.

(** One event for the call, unless it is a replay of a settled one. *)
Definition event_of (ck : Clocks) (a : RequestAccounting) : UsageEvent :=
  usage_event (ck_now ck) (ac_provider a) (ac_model a) (ac_metadata a) (final_usage a) (ac_request_id a).
Definition reported_once (ck : Clocks) (a : RequestAccounting) (s s' : ProxyState) : Prop :=
  ps_sink s' = ps_sink s ++ [event_of ck a] \/
  (is_Some (ac_dedup a) /\ ps_sink s' = ps_sink s /\ ps_replays s' = wadd (ps_replays s) 1).

Lemma finalize_effect ck a s :
  ac_finalized a = false -> ac_owned a = false ->
  mx_poisoned (ps_ledger s) = false -> mx_poisoned (ps_ledger (finalize parse_ts ck a s).2) = false ->
  exists ops, prun (mx_value (ps_ledger s)) ops = Some (mx_value (ps_ledger (finalize parse_ts ck a s).2)) /\
    settles ops = lease_settles (ac_reservation a) (charge_of (ps_cache_read_weight_bp s) (final_usage a)) /\
    reserves ops = [] /\ reported_once ck a s (finalize parse_ts ck a s).2.
Proof.
  intros Hf Ho Hp. unfold finalize. rewrite Hf, Ho. set (actual := charge_of _ _).
  destruct (note_overshoot_same a actual s) as (N1 & N2 & N3 & _). set (s1 := note_overshoot a actual s) in *.
  set (sec := finalize_section ck a (is_measured (final_usage a)) actual).
  rewrite <- N1 in Hp |- *. pose proof (with_ledger_only sec s1) as Hon.
  pose proof (with_ledger_runs sec s1 (lease_settles (ac_reservation a) actual) [] (finalize_section_runs ck a _ actual) Hp) as Hr.
  assert (Hreplay : forall l spent, sec (mx_value (ps_ledger s1)) = (l, Some (true, spent)) -> is_Some (ac_dedup a)).
  { intros l spent. apply replay_has_key. }
  unfold reported_once. rewrite <- N2, <- N3. unfold with_ledger in *. rewrite Hp in *.
  destruct (sec (mx_value (ps_ledger s1))) as [l [[reused spent]|]]; simpl; [|done].
  rewrite report_ledger. intros Hp'. destruct (Hr Hp') as (x & ops & _ & R1 & R2 & R3).
  exists ops. split_and!; [done..|]. destruct reused; [right|left].
  - split_and!; [by eapply Hreplay|done|done].
  - rewrite report_sink. done.
Qed.

(** ** The whole request *)

(** The admission the worker answered, if it was asked. *)
Definition answered_admission (q : Call) (s : ProxyState) : option Admission :=
  if rq_admitted q
  then pa_admission (reserve_worker (rq_running q) (rq_scope q) (rq_ceiling q) (rq_reserve_at q) (rq_policy q) s).1
  else None.
Definition leased (o : option Admission) : option Reservation :=
  match o with Some (Leased r) => Some r | _ => None end.

Lemma reserve_worker_effect q s :
  mx_poisoned (ps_ledger s) = false ->
  let '(p, s') := reserve_worker (rq_running q) (rq_scope q) (rq_ceiling q) (rq_reserve_at q) (rq_policy q) s in
  only_ledger s s' /\ (mx_poisoned (ps_ledger s') = false ->
  exists ops, prun (mx_value (ps_ledger s)) ops = Some (mx_value (ps_ledger s')) /\ settles ops = []).
Proof.
  intros Hp. unfold reserve_worker. set (sec := reserve_section _ _ _ _ _).
  pose proof (with_ledger_only sec s) as Ho.
  pose proof (with_ledger_runs sec s [] _ (reserve_section_runs (rq_running q) (rq_scope q) (rq_ceiling q) (rq_reserve_at q) (rq_policy q)) Hp) as Hr.
  destruct (with_ledger sec s) as [[[capped a]| |] s']; simpl in *; (split; [done|]); intros Hp';
    destruct (Hr Hp') as (x & ops & _ & R1 & R2 & _); by exists ops.
Qed.

Lemma drop_pending_effect clock p s :
  mx_poisoned (ps_ledger s) = false -> mx_poisoned (ps_ledger (drop_pending clock p s)) = false ->
  only_ledger s (drop_pending clock p s) /\
  exists ops, prun (mx_value (ps_ledger s)) ops = Some (mx_value (ps_ledger (drop_pending clock p s))) /\
    settles ops = lease_settles (leased (pa_admission p)) 0.
Proof.
  intros Hp. unfold drop_pending.
  assert (Hnil : only_ledger s s /\ exists ops, prun (mx_value (ps_ledger s)) ops = Some (mx_value (ps_ledger s)) /\ settles ops = []).
  { split; [exists (ps_ledger s); by destruct s|by exists []]. }
  destruct (pa_admission p) as [[r| |]|]; simpl; intros Hp'; [|done..].
  split; [apply with_ledger_only|].
  destruct (with_ledger_runs (settle_section r 0 clock) s [(r, 0)] [] (settle_section_runs r 0 clock) Hp Hp')
    as (x & ops & _ & R1 & R2 & _). by exists ops.
Qed.

(** Poison stays. *)
Lemma drop_pending_poison clock p s :
  mx_poisoned (ps_ledger (drop_pending clock p s)) = false -> mx_poisoned (ps_ledger s) = false.
Proof.
  unfold drop_pending. destruct (pa_admission p) as [[r| |]|]; try done. unfold with_ledger.
  by destruct (mx_poisoned (ps_ledger s)) eqn:E; simpl; rewrite ?E.
Qed.
Lemma finalize_poison ck a s :
  mx_poisoned (ps_ledger (finalize parse_ts ck a s).2) = false -> mx_poisoned (ps_ledger s) = false.
Proof.
  unfold finalize. destruct (ac_finalized a); [done|]. destruct (ac_owned a); [done|].
  set (actual := charge_of _ _). destruct (note_overshoot_same a actual s) as (N1 & _).
  unfold with_ledger. destruct (mx_poisoned (ps_ledger s)) eqn:E; [|done]. rewrite N1, E. cbn [snd].
  by rewrite report_ledger, N1, E.
Qed.

Lemma only_ledger_same s s' : only_ledger s s' ->
  ps_sink s' = ps_sink s /\ ps_replays s' = ps_replays s /\ ps_cache_read_weight_bp s' = ps_cache_read_weight_bp s.
Proof. by intros [m ->]. Qed.

Lemma settling_same ops dropped : forall a,
  let a' := (settling ops dropped a).2 in
  ac_reservation a' = ac_reservation a /\ ac_owned a' = ac_owned a /\ ac_finalized a' = ac_finalized a /\ ac_dedup a' = ac_dedup a.
Proof.
  assert (Hu : forall op a, ac_reservation (acc_update op a) = ac_reservation a /\ ac_owned (acc_update op a) = ac_owned a /\
    ac_finalized (acc_update op a) = ac_finalized a /\ ac_dedup (acc_update op a) = ac_dedup a).
  { intros op a. destruct op; simpl; try done; by repeat case_match. }
  induction ops as [|op ops IH]; intros a; [done|].
  assert (Hs : (exists ck, op = AFinalize ck) \/ settling (op :: ops) dropped a = settling ops dropped (acc_update op a)).
  { destruct op; eauto. }
  destruct Hs as [[ck ->]| ->]; [done|]. destruct (IH (acc_update op a)) as (E1 & E2 & E3 & E4).
  destruct (Hu op a) as (U1 & U2 & U3 & U4). split_and!; congruence.
Qed.

(** What [admit_request] leaves behind: its reservation is settled with zero unless
    it hands the lease to the accounting. *)
Lemma admit_effect q s :
  mx_poisoned (ps_ledger s) = false ->
  let '(r, s') := admit_request q s in
  mx_poisoned (ps_ledger s') = false ->
  ps_sink s' = ps_sink s /\ ps_replays s' = ps_replays s /\ ps_cache_read_weight_bp s' = ps_cache_read_weight_bp s /\
  exists ops, prun (mx_value (ps_ledger s)) ops = Some (mx_value (ps_ledger s')) /\
    match r with
    | Ok d => settles ops = [] /\ ac_reservation (di_accounting d) = leased (answered_admission q s) /\
              ac_owned (di_accounting d) = false /\ ac_finalized (di_accounting d) = false
    | Err _ => settles ops = lease_settles (leased (answered_admission q s)) 0
    end.
Proof.
  intros Hp. unfold admit_request, reserve_budget, answered_admission. destruct (rq_admitted q); simpl.
  2: { intros _. split_and!; try done. by exists []. }
  pose proof (reserve_worker_effect q s Hp) as Hw.
  destruct (reserve_worker _ _ _ _ _ s) as [p s1]. destruct Hw as [Ho Hr]. simpl.
  assert (Hdrop : mx_poisoned (ps_ledger (drop_pending (rq_drop_at q) p s1)) = false ->
    ps_sink (drop_pending (rq_drop_at q) p s1) = ps_sink s /\ ps_replays (drop_pending (rq_drop_at q) p s1) = ps_replays s /\
    ps_cache_read_weight_bp (drop_pending (rq_drop_at q) p s1) = ps_cache_read_weight_bp s /\
    exists ops, prun (mx_value (ps_ledger s)) ops = Some (mx_value (ps_ledger (drop_pending (rq_drop_at q) p s1))) /\
      settles ops = lease_settles (leased (pa_admission p)) 0).
  { intros Hp2. pose proof (drop_pending_poison _ _ _ Hp2) as Hp1. destruct (Hr Hp1) as (o1 & R1 & S1).
    destruct (drop_pending_effect _ p s1 Hp1 Hp2) as (Ho2 & o2 & R2 & S2).
    destruct (only_ledger_same _ _ Ho2) as (F1 & F2 & F3). destruct (only_ledger_same _ _ Ho) as (E1 & E2 & E3).
    split_and!; try congruence.
    exists (o1 ++ o2). rewrite prun_app, R1, settles_app, S1. done. }
  destruct (rq_cancelled q); [done|]. destruct (_ || _); [done|]. destruct (rq_operation q); simpl; [|done].
  intros Hp1. destruct (Hr Hp1) as (o1 & R1 & S1). destruct (only_ledger_same _ _ Ho) as (E1 & E2 & E3).
  split_and!; try done. exists o1. split; [done|]. unfold dispatch.
  by destruct (pa_admission p) as [[r| |]|]; simpl.
Qed.

Lemma admit_fresh q s d s1 : admit_request q s = (Ok d, s1) -> ac_finalized (di_accounting d) = false.
Proof.
  unfold admit_request. destruct (reserve_budget _ _ _ _ _ _ _ _ s) as [[p|] s2]; [|done].
  destruct (_ || _); [done|]. destruct (rq_operation q); simpl; [|done]. unfold dispatch.
  by destruct (pa_admission p) as [[r| |]|]; intros [= <- _].
Qed.

(** C26: a request settles its lease exactly once.  Whatever the request
    meets (a refusal, a lease too short for its deadline, the cutoff before
    or after the reservation, an answer, an error, a client that leaves in
    the middle of a stream, a finalizer that runs several times), the ledger
    has been through a run of its own operations in which the lease that was
    handed out, if one was, is settled once: with zero when nothing was
    dispatched, and otherwise with the charge of the usage the accounting
    held at its first finalization.  Nothing is reported for a call that was
    not dispatched, and one event, or one counted replay of an idempotency
    key, for one that was.  (A lock that a panic poisoned is the exception.) *)
Theorem request_settles_once q ops dropped s :
  let '(r, s') := handle parse_ts q ops dropped s in
  mx_poisoned (ps_ledger s) = false -> mx_poisoned (ps_ledger s') = false ->
  exists lops, prun (mx_value (ps_ledger s)) lops = Some (mx_value (ps_ledger s')) /\
    match r with
    | Err _ => settles lops = lease_settles (leased (answered_admission q s)) 0 /\ ps_sink s' = ps_sink s
    | Ok d =>
        let '(ck, a) := settling ops dropped (di_accounting d) in
        settles lops = lease_settles (leased (answered_admission q s)) (charge_of (ps_cache_read_weight_bp s) (final_usage a)) /\
        reported_once ck a s s'
    end.
Proof.
  unfold handle. pose proof (fun Hp => admit_effect q s Hp) as Ha. pose proof (admit_fresh q s) as Hfresh.
  destruct (admit_request q s) as [[d|e] s1].
  2: { intros Hp Hp'. destruct (Ha Hp Hp') as (E1 & _ & _ & lops & R & S). by exists lops. }
  intros Hp Hp'. specialize (Ha Hp).
  destruct (settling_same ops dropped (di_accounting d)) as (A1 & A2 & A3 & A4).
  rewrite life_settles in Hp' |- * by (by eapply Hfresh).
  destruct (settling ops dropped (di_accounting d)) as [ck a] eqn:Est. cbn [fst snd] in *.
  pose proof (finalize_poison _ _ _ Hp') as Hp1. destruct (Ha Hp1) as (E1 & E2 & E3 & o1 & R1 & S1 & L1 & O1 & F1).
  destruct (finalize_effect ck a s1) as (o2 & R2 & S2 & _ & Hrep); [congruence|congruence|done|done|].
  exists (o1 ++ o2). rewrite prun_app, R1, settles_app, S1. simpl. split; [done|].
  rewrite S2, A1, L1, E3. split; [done|]. unfold reported_once in *. by rewrite <- E1, <- E2.
Qed.
End Ledger.

Definition demo_state : ProxyState :=
  MkState (MkMutex false false in_memory) (Some ∅) None false None 10000 [] [] [] [] [] 0 0.
Definition demo_metadata : RequestMetadataV1 := MkMetadata None (Some "k"%string) None None None None None None None None.
Definition demo_call : Call :=
  MkCallEnv "vk:k" Block 5000 4096 None "openai" "m" "req_1" demo_metadata 12 false (Some 1000) None true true false true
    (seconds 1000) (seconds 1000) (seconds 1000) (seconds 1000).
Definition demo_clocks : Clocks := MkClocks (seconds 1001) (seconds 1001) (seconds 1001) (seconds 1001) "t".
(** Finalized twice by the handler, and a third time by its drop. *)
Definition demo_ops : list AccOp := [AObserve usage_demo; AOutcome "success"; AFinalize demo_clocks; AFinalize demo_clocks].

Lemma request_settles_once_witness :
  exists lops d s' lease,
    @handle utc_days (fun _ => None) demo_call demo_ops demo_clocks demo_state = (Ok d, s') /\
    @prun utc_days in_memory lops = Some (mx_value (ps_ledger s')) /\ settles lops = [(lease, 1025)] /\
    length (ps_sink s') = 1%nat.
Proof.
  pose proof (@request_settles_once utc_days (fun _ => None) demo_call demo_ops demo_clocks demo_state) as Hw.
  destruct (@handle utc_days (fun _ => None) demo_call demo_ops demo_clocks demo_state) as [r s'] eqn:E.
  vm_compute in E. injection E as <- <-.
  destruct (Hw eq_refl eq_refl) as (lops & Hr & Hs & _). exists lops. do 3 eexists. split; [reflexivity|].
  split; [exact Hr|]. split; [rewrite Hs; vm_compute; reflexivity|reflexivity].
Defined.

(** ** A stream that is cut short *)

(** The charge the accounting would settle, were it dropped now. *)
Definition held_charge (bp : Z) (a : RequestAccounting) : Z := charge_of bp (default UsageV2_default (ac_usage a)).

(** The charge of the last observation in a list of updates. *)
Definition observed_of (op : AccOp) : option UsageV2 := match op with AObserve u => Some u | _ => None end.
Definition is_finalize (op : AccOp) : bool := match op with AFinalize _ => true | _ => false end.

Lemma held_charge_final bp a : charge_of bp (final_usage a) = held_charge bp a.
Proof. unfold final_usage, held_charge. by destruct (u_outcome _). Qed.

Lemma held_charge_update bp op a :
  held_charge bp (acc_update op a) = from_option (charge_of bp) (held_charge bp a) (observed_of op).
Proof.
  unfold held_charge. destruct op; simpl; try done; destruct (ac_usage a) eqn:E; simpl; try done;
    case_match; simpl; by rewrite ?E.
Qed.

(** A run of updates without a finalizer. *)
Definition updated (ops : list AccOp) (a : RequestAccounting) : RequestAccounting := foldl (flip acc_update) a ops.

Lemma settling_updated ops rest dropped : forall a, existsb is_finalize ops = false ->
  settling (ops ++ rest) dropped a = settling rest dropped (updated ops a).
Proof. induction ops as [|op ops IH]; intros a Hn; [done|]. destruct op; [by apply IH..|done]. Qed.

Lemma held_charge_one bp op a :
  held_charge bp (updated [op] a) = from_option (charge_of bp) (held_charge bp a) (observed_of op).
Proof. apply (held_charge_update bp op). Qed.
Lemma held_charge_cons bp op op' a :
  held_charge bp (updated [op; op'] a) = from_option (charge_of bp) (held_charge bp (updated [op] a)) (observed_of op').
Proof. apply (held_charge_update bp op'). Qed.
Lemma updated_app ops ops' a : updated (ops ++ ops') a = updated ops' (updated ops a).
Proof. apply foldl_app. Qed.

Lemma held_charge_ended bp e dropped a :
  held_charge bp (settling (end_ops e) dropped a).2 = held_charge bp a.
Proof.
  destruct e as [|[] f|]; cbn [end_ops app settling snd]; [apply (held_charge_update bp ASucceed)| |by rewrite held_charge_update|done].
  by rewrite !held_charge_update.
Qed.

(** What the two planes have in common: the terminal usage, once there is
    one; before it, what the family announced and the bytes delivered. *)
Definition charge_due (bp : Z) (terminal : option UsageV2) (running : option ParsedUsage) (bytes : Z) : Z :=
  match terminal with Some u => charge_of bp u | None => charge_of bp (partial_usage running bytes) end.

Definition out_estimate (bytes : Z) : Z := sat_add bytes 3 / 4.
Lemma out_estimate_in_u64 bytes : in_u64 bytes -> in_u64 (out_estimate bytes).
Proof.
  intros Hb. unfold out_estimate. assert (Hs : in_u64 (sat_add bytes 3)) by ulia. revert Hs. generalize (sat_add bytes 3).
  intros z Hz. unfold in_u64 in *. split; [apply Z.div_pos; lia|]. apply Z.div_le_upper_bound; lia.
Qed.
Lemma scaled_cache_read_nonneg c bp : in_u64 c -> 0 <= bp -> 0 <= scaled_cache_read c bp.
Proof. intros Hc Hbp. unfold scaled_cache_read. pose proof (Z.div_pos (c * bp) 10000). ulia. Qed.

Definition announced_parts (running : option ParsedUsage) : ParsedUsage :=
  default (MkParsed 0 0 0 0 None 0 None None None) running.

Lemma partial_usage_parts bp running bytes :
  let r := announced_parts running in
  charge_of bp (partial_usage running bytes) =
  billable_parts_weighted (pu_tokens_in r) (pu_cache_creation r) (pu_cache_read r)
    (match running with Some r => Z.max (pu_tokens_out r) (out_estimate bytes) | None => out_estimate bytes end)
    (default 0 (nonzero (pu_reasoning r))) (pu_reasoning_included r) bp.
Proof. by destruct running. Qed.

Lemma partial_usage_charge bp running bytes :
  0 <= bp -> in_u64 bytes -> (forall r, running = Some r -> usage_ok (parsed_usage r)) ->
  let r := announced_parts running in
  out_estimate bytes <= charge_of bp (partial_usage running bytes) /\
  Z.min (pu_tokens_in r + pu_cache_creation r + scaled_cache_read (pu_cache_read r) bp + Z.max (pu_tokens_out r) (out_estimate bytes)) u64_max
    <= charge_of bp (partial_usage running bytes).
Proof.
  intros Hbp Hb%out_estimate_in_u64 Hr r. rewrite partial_usage_parts. fold r.
  assert (Hok : usage_ok (parsed_usage r)).
  { subst r. destruct running as [r|]; [by apply Hr|]. by apply usage_ok_b_spec. }
  destruct Hok as [I O C R Re]. cbn [parsed_usage u_tokens_in u_tokens_out u_cache_creation u_cache_read u_reasoning] in *.
  set (out := match running with Some _ => _ | None => _ end).
  assert (Hout : out = Z.max (pu_tokens_out r) (out_estimate bytes)).
  { subst out r. destruct running; [done|]. unfold in_u64 in Hb. cbn [announced_parts default pu_tokens_out]. lia. }
  clearbody out r. subst out. generalize dependent (out_estimate bytes). intros est He.
  pose proof (scaled_cache_read_nonneg _ _ R Hbp).
  pose proof (unfolded_reasoning_bounds _ (Z.max (pu_tokens_out r) est) (pu_reasoning_included r) Re).
  assert (in_u64 (Z.max (pu_tokens_out r) est)) by ulia.
  rewrite billable_parts_weighted_exact by done. unfold in_u64 in *. lia.
Qed.

(** *** The typed plane *)

(** The terminal usage so far, the last announcement that counts, the bytes. *)
Definition typed_terminal (evs : list ChatStreamEventV1) : option UsageV2 :=
  last (omap (fun e => match e with EvUsage u => if bool_decide (u_completeness u = Final) then Some u else None | _ => None end) evs).
Definition typed_announced (evs : list ChatStreamEventV1) : option ParsedUsage :=
  last (omap (fun e => match e with
    | EvUsage u =>
        if bool_decide (u_completeness u = Final) then None
        else if negb (bool_decide (u_completeness u = Unavailable)) || bool_decide (u_cache_obs u ≫= validated = None)
        then Some (reported_parts u) else None
    | _ => None end) evs).
Definition typed_bytes (evs : list ChatStreamEventV1) : Z :=
  foldl sat_add 0 (omap (fun e => match e with
    | EvTextDelta d | EvReasoningDelta d | EvRefusalDelta d | EvToolCallArgumentsDelta _ d => Some (Z.of_nat (String.length d))
    | _ => None end) evs).

(** The state of the loop after these events. *)
Definition typed_seen (evs : list ChatStreamEventV1) : TypedState := foldl (fun st e => (typed_event st e).1) typed_new evs.
Definition typed_due (bp : Z) (st : TypedState) : Z := charge_due bp (ts_last st) (ts_running st) (ts_bytes st).

Lemma last_omap_snoc {A B} (f : A -> option B) l x :
  last (omap f (l ++ [x])) = match f x with Some b => Some b | None => last (omap f l) end.
Proof. rewrite omap_app. simpl. destruct (f x); [apply last_snoc|by rewrite app_nil_r]. Qed.

Lemma typed_seen_spec evs :
  ts_last (typed_seen evs) = typed_terminal evs /\ ts_running (typed_seen evs) = typed_announced evs /\
  ts_bytes (typed_seen evs) = typed_bytes evs.
Proof.
  induction evs as [|e evs (IH1 & IH2 & IH3)] using rev_ind; [done|].
  unfold typed_seen, typed_terminal, typed_announced, typed_bytes in *. rewrite foldl_snoc, !last_omap_snoc, omap_app. simpl.
  set (st := foldl _ _ evs) in *. rewrite <- IH1, <- IH2.
  destruct e; simpl; rewrite ?app_nil_r, ?foldl_snoc, <- ?IH3; try done.
  destruct (bool_decide (u_completeness usage = Final)); simpl; [done|]. by destruct (_ || _).
Qed.

Lemma typed_step_due bp st e a :
  (forall u, ts_last st = Some u -> held_charge bp a = charge_of bp u) ->
  let '(st', ops) := typed_event st e in
  held_charge bp (updated (ops ++ typed_hold st') a) = typed_due bp st'.
Proof.
  intros Hl. destruct (typed_event st e) as [st' ops] eqn:E.
  assert (Hop : forall u, ts_last st' = Some u -> held_charge bp (updated ops a) = charge_of bp u).
  { destruct e; simpl in E; try case_match; injection E as <- <-; simpl; try done.
    by intros u' [= <-]. }
  rewrite updated_app. unfold typed_hold, typed_due, charge_due. destruct (ts_last st') as [u|] eqn:El; rewrite held_charge_one.
  - by apply Hop.
  - done.
Qed.

Definition cut_items {A} (items : list A) (failed : bool) : list (option A) := (Some <$> items) ++ (if failed then [None] else []).

Lemma typed_ops_plain items : forall st, existsb is_finalize (typed_ops st items) = false.
Proof.
  induction items as [|[e|] items IH]; intros st; [done| |done]. simpl.
  destruct (typed_event st e) as [st' ops] eqn:E. rewrite !existsb_app, IH.
  unfold typed_hold. replace (existsb is_finalize ops) with false; [by destruct (ts_last st')|].
  destruct e; simpl in E; try case_match; by injection E as <- <-.
Qed.

Lemma typed_ops_due bp failed evs : forall st a,
  (evs = [] -> held_charge bp a = typed_due bp st) ->
  (forall u, ts_last st = Some u -> held_charge bp a = charge_of bp u) ->
  held_charge bp (updated (typed_ops st (cut_items evs failed)) a) =
  typed_due bp (foldl (fun st e => (typed_event st e).1) st evs).
Proof.
  induction evs as [|e evs IH]; intros st a H0 Hl.
  - destruct failed; [|by apply H0]. by apply H0.
  - simpl. pose proof (typed_step_due bp st e a Hl) as Hs. destruct (typed_event st e) as [st' ops]. simpl.
    rewrite app_assoc, updated_app. apply IH; [done|].
    intros u Hu. rewrite Hs. unfold typed_due, charge_due. by rewrite Hu.
Qed.

(** *** The transparent plane *)

Definition raw_terminal (chunks : list StreamChunk) : option UsageV2 :=
  last (omap (fun c => parsed_usage <$> ck_usage c) chunks).
(** The chunks that carry data and no terminal usage. *)
Definition is_content (c : StreamChunk) : bool := bool_decide (ck_usage c = None) && negb (bool_decide (ck_data c = [])).
Definition raw_announced (chunks : list StreamChunk) : option ParsedUsage :=
  last (List.filter is_content chunks) ≫= ck_usage_running.
Definition raw_bytes (chunks : list StreamChunk) : Z :=
  foldl sat_add 0 ((fun c => Z.of_nat (length (ck_data c))) <$> List.filter is_content chunks).

(** The timed chunks of the pass-through, then its failure, if it failed. *)
Definition raw_items (chunks : list (Z * Z * StreamChunk)) (failed : option (Z * Z)) : list (Z * Z * option StreamChunk) :=
  ((fun x => (x.1, Some x.2)) <$> chunks) ++ match failed with Some t => [(t, None)] | None => [] end.
Definition raw_seen (chunks : list (Z * Z * StreamChunk)) : RawState := foldl (fun st x => (raw_chunk x.1 st x.2).1) raw_new chunks.
Definition raw_chunks_ops (chunks : list (Z * Z * StreamChunk)) : list AccOp := raw_ops raw_new (raw_items chunks None).

Lemma raw_ops_items chunks failed : forall st,
  raw_ops st (raw_items chunks failed) =
  raw_ops st (raw_items chunks None) ++ match failed with Some _ => [AOutcome "error"] | None => [] end.
Proof.
  unfold raw_items. induction chunks as [|[t c] chunks IH]; intros st; simpl; [by destruct failed|].
  destruct (raw_chunk t st c) as [st' ops]. by rewrite IH, app_assoc.
Qed.

Lemma raw_ops_snoc t c chunks :
  raw_chunks_ops (chunks ++ [(t, c)]) = raw_chunks_ops chunks ++ (raw_chunk t (raw_seen chunks) c).2.
Proof.
  unfold raw_chunks_ops, raw_seen, raw_items. rewrite !app_nil_r, fmap_app. generalize raw_new.
  induction chunks as [|[t' c'] chunks IH]; intros st; simpl.
  - destruct (raw_chunk t st c). simpl. by rewrite app_nil_r.
  - specialize (IH (raw_chunk t' st c').1). destruct (raw_chunk t' st c') as [st' ops]. simpl in *.
    rewrite <- app_assoc. f_equal. apply IH.
Qed.

Lemma raw_seen_spec chunks :
  rw_seen (raw_seen chunks) = bool_decide (is_Some (raw_terminal chunks.*2)) /\ rw_bytes (raw_seen chunks) = raw_bytes chunks.*2.
Proof.
  induction chunks as [|[t c] chunks [IH1 IH2]] using rev_ind; [done|].
  unfold raw_seen, raw_terminal, raw_bytes in *. rewrite foldl_snoc, fmap_app, List.filter_app, fmap_app, foldl_app. simpl.
  rewrite last_omap_snoc. set (st := foldl _ _ chunks) in *. rewrite <- IH2. unfold raw_chunk, is_content.
  destruct (ck_usage c) as [p|]; simpl; [done|]. destruct (ck_data c) eqn:Ed; simpl; rewrite ?Ed; by split.
Qed.

Lemma raw_ops_plain chunks : existsb is_finalize (raw_chunks_ops chunks) = false.
Proof.
  induction chunks as [|[t c] chunks IH] using rev_ind; [done|]. rewrite raw_ops_snoc, existsb_app, IH. unfold raw_chunk.
  destruct (ck_usage c); [done|]. destruct (ck_data c); [done|]. simpl. by destruct (rw_seen _).
Qed.

Lemma raw_final_charge bp obs elapsed ttft p :
  let u := set_u_completeness Final (reconcile_boundary_ttft ttft (reconcile_boundary_duration elapsed (set_u_cache_obs obs (parsed_usage p)))) in
  charge_of bp (set_u_outcome (or_some (u_outcome u) (Some "success"%string)) u) = charge_of bp (parsed_usage p).
Proof.
  destruct p as [? ? ? ? ? ? ? d f]. unfold reconcile_boundary_duration, reconcile_boundary_ttft. simpl.
  by destruct d, f, ttft.
Qed.

(** How the three readings of the chunks grow. *)
Lemma raw_readings cs c :
  raw_terminal (cs ++ [c]) = or_some (parsed_usage <$> ck_usage c) (raw_terminal cs) /\
  (is_content c = true -> raw_announced (cs ++ [c]) = ck_usage_running c /\
    raw_bytes (cs ++ [c]) = sat_add (raw_bytes cs) (Z.of_nat (length (ck_data c))) /\ List.filter is_content (cs ++ [c]) <> []) /\
  (is_content c = false -> raw_announced (cs ++ [c]) = raw_announced cs /\ raw_bytes (cs ++ [c]) = raw_bytes cs /\
    List.filter is_content (cs ++ [c]) = List.filter is_content cs).
Proof.
  unfold raw_terminal, raw_announced, raw_bytes. rewrite last_omap_snoc, List.filter_app. simpl.
  split; [by destruct (ck_usage c)|]. split; intros ->.
  - rewrite last_snoc, fmap_app, foldl_app. split_and!; [done..|]. by destruct (List.filter is_content cs).
  - by rewrite app_nil_r.
Qed.

Lemma raw_ops_due bp a chunks :
  raw_terminal chunks.*2 <> None \/ List.filter is_content chunks.*2 <> [] ->
  held_charge bp (updated (raw_chunks_ops chunks) a) =
  charge_due bp (raw_terminal chunks.*2) (raw_announced chunks.*2) (raw_bytes chunks.*2).
Proof.
  induction chunks as [|[t c] chunks IH] using rev_ind; [by intros [?|?]|]. rewrite raw_ops_snoc, updated_app, fmap_app.
  destruct (raw_seen_spec chunks) as [Hs Hb]. destruct (raw_readings chunks.*2 c) as (R1 & R2 & R3).
  simpl. rewrite R1. unfold raw_chunk. destruct (ck_usage c) as [p|] eqn:Eu.
  - intros _. cbn [snd]. rewrite held_charge_cons, held_charge_one. apply raw_final_charge.
  - destruct (ck_data c) as [|b data] eqn:Ed.
    + destruct R3 as (-> & -> & ->); [unfold is_content; by rewrite Eu, Ed|].
      rewrite (bool_decide_eq_true_2 ([] = [])) by done. cbn [snd]. rewrite held_charge_one. apply IH.
    + destruct R2 as (-> & -> & _); [unfold is_content; by rewrite Eu, Ed|]. intros _. rewrite <- Hb.
      rewrite bool_decide_eq_false_2 by done. cbn [snd]. rewrite updated_app, held_charge_one. cbn [observed_of from_option].
      unfold charge_due. destruct (rw_seen (raw_seen chunks)); symmetry in Hs.
      * apply bool_decide_eq_true in Hs as [u Hu]. cbn [updated foldl]. rewrite Hu in IH |- *. by rewrite IH by (by left).
      * apply bool_decide_eq_false, eq_None_not_Some in Hs. rewrite Hs. by rewrite held_charge_one.
Qed.

(** *** Both planes *)

(** The events, or the chunks, of a stream carry [u64] counts. *)
Definition event_ok (e : ChatStreamEventV1) : Prop :=
  match e with EvUsage u => usage_ok u | _ => True end.
Definition chunk_ok (c : StreamChunk) : Prop := forall r, ck_usage_running c = Some r -> usage_ok (parsed_usage r).

Lemma foldl_sat_add_in_u64 ns : Forall (fun n => 0 <= n) ns -> in_u64 (foldl sat_add 0 ns).
Proof.
  assert (Hg : forall z, in_u64 z -> Forall (fun n => 0 <= n) ns -> in_u64 (foldl sat_add z ns)).
  { induction ns as [|n ns IH]; intros z Hz Hn; [done|]. inv Hn. apply IH; [ulia|done]. }
  apply Hg. done.
Qed.

Lemma nonzero_in_u64 z : in_u64 z -> in_u64 (default 0 (nonzero z)).
Proof. unfold nonzero. by destruct (0 <? z). Qed.

Lemma last_omap_some {A B} (f : A -> option B) l b : last (omap f l) = Some b -> exists x, x ∈ l /\ f x = Some b.
Proof. intros Hl. apply last_Some_elem_of, list_elem_of_omap in Hl. destruct Hl as (x & ? & ?). eauto. Qed.

Lemma typed_announced_ok evs r : Forall event_ok evs -> typed_announced evs = Some r -> usage_ok (parsed_usage r).
Proof.
  intros Hok (e & He & Hr)%last_omap_some. apply Forall_forall with (x := e) in Hok; [|done].
  destruct e as [| | | | | | |u| |]; simpl in Hr; try done. destruct (bool_decide _); [done|]. destruct (_ || _); [|done].
  injection Hr as <-. destruct Hok. split; simpl; try done. by apply nonzero_in_u64.
Qed.
Lemma typed_bytes_in_u64 evs : in_u64 (typed_bytes evs).
Proof.
  apply foldl_sat_add_in_u64, Forall_forall. intros n (e & He & Hn)%list_elem_of_omap.
  destruct e; try done; injection Hn as <-; lia.
Qed.
Lemma raw_announced_ok cs r : Forall chunk_ok cs -> raw_announced cs = Some r -> usage_ok (parsed_usage r).
Proof.
  unfold raw_announced. intros Hok Hr. apply bind_Some in Hr as (c & Hc%last_Some_elem_of & Hr).
  apply list_elem_of_In, List.filter_In in Hc as [Hc _]. apply list_elem_of_In in Hc.
  apply Forall_forall with (x := c) in Hok; [|done]. by apply Hok.
Qed.
Lemma raw_bytes_in_u64 cs : in_u64 (raw_bytes cs).
Proof. apply foldl_sat_add_in_u64, Forall_fmap, Forall_true. intros c. simpl. lia. Qed.

(** What a stream owes: its terminal usage, or, without one, what was
    announced and no less than the estimate of what was delivered. *)
Definition charged_for (bp : Z) (terminal : option UsageV2) (running : option ParsedUsage) (bytes charge : Z) : Prop :=
  charge = charge_due bp terminal running bytes /\
  (terminal = None ->
   let r := announced_parts running in
   out_estimate bytes <= charge /\
   Z.min (pu_tokens_in r + pu_cache_creation r + scaled_cache_read (pu_cache_read r) bp + Z.max (pu_tokens_out r) (out_estimate bytes)) u64_max
     <= charge).

Lemma due_is_charged bp terminal running bytes :
  0 <= bp -> in_u64 bytes -> (forall r, running = Some r -> usage_ok (parsed_usage r)) ->
  charged_for bp terminal running bytes (charge_due bp terminal running bytes).
Proof. intros Hbp Hb Hr. split; [done|]. intros ->. by apply partial_usage_charge. Qed.

(** C27: an interrupted stream is charged for what it delivered.  Wherever a
    stream is cut (the client leaves and the accounting is dropped, delivery
    fails, the upstream fails, or it ends), what the accounting settles is
    the charge of the terminal usage if one arrived, and otherwise at least
    the input and cache split the provider announced plus the larger of its
    output count and a token for each four bytes delivered.  This holds on
    the typed plane from its first event and on the transparent plane from
    its first byte, so reading a stream and leaving is never free. *)
Theorem interrupted_stream_is_charged bp a e dropped :
  0 <= bp ->
  (forall evs failed, evs <> [] -> Forall event_ok evs ->
    let '(_, a') := settling (typed_ops typed_new (cut_items evs failed) ++ end_ops e) dropped a in
    charged_for bp (typed_terminal evs) (typed_announced evs) (typed_bytes evs) (charge_of bp (final_usage a'))) /\
  (forall chunks failed, Forall chunk_ok chunks.*2 -> raw_terminal chunks.*2 <> None \/ List.filter is_content chunks.*2 <> [] ->
    let '(_, a') := settling (raw_ops raw_new (raw_items chunks failed) ++ end_ops e) dropped a in
    charged_for bp (raw_terminal chunks.*2) (raw_announced chunks.*2) (raw_bytes chunks.*2) (charge_of bp (final_usage a'))).
Proof.
  intros Hbp. split.
  - intros evs failed Hne Hok. rewrite settling_updated by apply typed_ops_plain.
    pose proof (held_charge_ended bp e dropped (updated (typed_ops typed_new (cut_items evs failed)) a)) as He.
    destruct (settling _ _ _) as [ck a']. simpl in He. rewrite held_charge_final, He, typed_ops_due by done.
    fold (typed_seen evs). destruct (typed_seen_spec evs) as (E1 & E2 & E3). unfold typed_due. rewrite E1, E2, E3.
    apply due_is_charged; [done|apply typed_bytes_in_u64|]. intros r. by apply typed_announced_ok.
  - intros chunks failed Hok Hsome. rewrite raw_ops_items, <- app_assoc. fold (raw_chunks_ops chunks).
    rewrite settling_updated by apply raw_ops_plain. set (a1 := updated _ a).
    assert (He : held_charge bp (settling (match failed with Some _ => [AOutcome "error"] | None => [] end ++ end_ops e) dropped a1).2 = held_charge bp a1).
    { destruct failed; [|apply held_charge_ended]. simpl. rewrite held_charge_ended. apply (held_charge_update bp (AOutcome "error")). }
    destruct (settling _ _ _) as [ck a']. simpl in He. rewrite held_charge_final, He. subst a1.
    rewrite raw_ops_due by done.
    apply due_is_charged; [done|apply raw_bytes_in_u64|]. intros r. by apply raw_announced_ok.
Qed.

(** Anthropic announced 900 input tokens; 41 bytes later the client left. *)
Definition demo_announced : UsageV2 := set_u_completeness Partial (parsed_usage (MkParsed 900 1 0 0 None 0 (Some true) None None)).
Definition demo_accounting : RequestAccounting := accounting_new "vk:k" None "anthropic" "m" "req_1" demo_metadata.
Lemma interrupted_stream_is_charged_witness :
  let ops := typed_ops typed_new (cut_items [EvUsage demo_announced; EvTextDelta "The quick brown fox "; EvTextDelta "jumps over a lazy dog"] false) in
  charge_of 10000 (final_usage (settling (ops ++ end_ops AbandonedBody) demo_clocks demo_accounting).2) = 911.
Proof.
  destruct (interrupted_stream_is_charged 10000 demo_accounting AbandonedBody demo_clocks) as [Ht _]; [done|].
  destruct (Ht [EvUsage demo_announced; EvTextDelta "The quick brown fox "; EvTextDelta "jumps over a lazy dog"] false) as [Hc _]; [done| |exact Hc].
  repeat constructor; simpl; ulia.
Defined.
