(* ===== verification/Passthrough.v ===== *)
(** The metered pass-through of [crates/sandhi-providers/src/lib.rs] and the
    usage sniffers of the adapters: every upstream chunk is forwarded as it
    came, the lines it completes are read for usage, and one terminal item
    carries the finalized usage.  The JSON decoder is a parameter, and so is
    the building of an object of one field. *)

From S2P Require Import Prelude Text Usage Json UsageParse LineSplit StreamUsage Attempt.

Inductive ProviderFamily := FOpenAiCompat | FOpenAiResponses | FAnthropic | FCohere | FGemini | FOllama.

(** ** Lines *)

(** [windows(needle.len()).any(|w| w == needle)]. *)
Fixpoint contains_substring (haystack needle : list Z) : bool :=
  starts_with needle haystack
  || match haystack with [] => false | _ :: haystack => contains_substring haystack needle end.
Definition line_contains_usage (line : list Z) : bool :=
  contains_substring line (bytes "usage") || contains_substring line (bytes "eval_count").

Definition strip_suffix (s p : list Z) : option (list Z) := reverse <$> strip_prefix (reverse p) (reverse s).

Definition openai_done_line (line : list Z) : bool :=
  let data :=
    line ← strip_suffix line [LF];
    let line := default line (strip_suffix line [CR]) in
    data ← strip_prefix (bytes "data:") line;
    Some (default data (strip_prefix [SPACE] data)) in
  bool_decide (data = Some (bytes "[DONE]")).

(** ** The sniffers *)

Definition set_pu_obs (o : option CacheReadObservation) (u : ParsedUsage) : ParsedUsage :=
  MkParsed (pu_tokens_in u) (pu_tokens_out u) (pu_cache_creation u) (pu_cache_read u) o
    (pu_reasoning u) (pu_reasoning_included u) (pu_duration_ms u) (pu_ttft_ms u).
Definition ParsedUsage_default : ParsedUsage := MkParsed 0 0 0 0 None 0 None None None.

Section Sniff.
Context {J : Type} `{JsonValue J}.
Variable from_str : list Z -> option J.
Variable object : string -> J -> J.

Definition sse_data_json (line : list Z) : option J :=
  if utf8_valid line then
    payload ← strip_prefix (bytes "data:") (trim line);
    let payload := trim payload in
    if bool_decide (payload = bytes "[DONE]") then None else from_str payload
  else None.

Definition observe_stream_cache (family : CacheReadFamily) (frame : J) (u : ParsedUsage) : ParsedUsage :=
  set_pu_obs (merge_cache_read_observation (pu_cache_obs u) (observe_cache_read_stream family frame)) u.
Definition replace_numeric_usage (u next : ParsedUsage) : ParsedUsage := set_pu_obs (pu_cache_obs u) next.

Definition recorded (u : ParsedUsage) (next : option ParsedUsage) : bool * ParsedUsage :=
  match next with Some n => (true, replace_numeric_usage u n) | None => (false, u) end.

Definition sniff_openai (line : list Z) (u : ParsedUsage) : bool * ParsedUsage :=
  match sse_data_json line with
  | None => (false, u)
  | Some v =>
      let u := observe_stream_cache OpenAi v u in
      recorded u
        (match jget v "usage" with
         | Some x => if jis_null x then None else parse_openai_usage v
         | None => None
         end)
  end.

Definition sniff_responses (line : list Z) (u : ParsedUsage) : bool * ParsedUsage :=
  match sse_data_json line with
  | None => (false, u)
  | Some event =>
      let u := observe_stream_cache OpenAiResponses event u in
      let response := default event (jget event "response") in
      recorded u
        (match jget response "usage" with
         | None => None
         | Some x => if jis_null x then None else parse_openai_responses_usage response
         end)
  end.

(** Anthropic reports its input first and its output last. *)
Definition sniff_anthropic (line : list Z) (u : ParsedUsage) : bool * ParsedUsage :=
  let value :=
    if utf8_valid line
    then payload ← strip_prefix (bytes "data:") (trim line); from_str (trim payload)
    else None in
  match value with
  | None => (false, u)
  | Some v =>
      let u := observe_stream_cache Anthropic v u in
      let type := jget v "type" ≫= jas_str in
      if bool_decide (type = Some "message_start"%string) then
          match jget v "message" ≫= fun m => jget m "usage" with
          | Some x =>
              (true, MkParsed (u64_at x "input_tokens") (pu_tokens_out u) (u64_at x "cache_creation_input_tokens")
                       (u64_at x "cache_read_input_tokens") (pu_cache_obs u) (pu_reasoning u) (Some true)
                       (pu_duration_ms u) (pu_ttft_ms u))
          | None => (false, u)
          end
      else if bool_decide (type = Some "message_delta"%string) then
          match jget v "usage" with
          | Some x =>
              (true, MkParsed (pu_tokens_in u) (u64_at x "output_tokens") (pu_cache_creation u) (pu_cache_read u)
                       (pu_cache_obs u) (pu_reasoning u) (Some true) (pu_duration_ms u) (pu_ttft_ms u))
          | None => (false, u)
          end
      else (false, u)
  end.

Definition sniff_cohere (line : list Z) (u : ParsedUsage) : bool * ParsedUsage :=
  match sse_data_json line with
  | None => (false, u)
  | Some v =>
      let u := observe_stream_cache Cohere v u in
      recorded u
        (uo ← or_some (jget v "usage") (jget v "delta" ≫= fun d => jget d "usage");
         parse_cohere_usage (object "usage" uo))
  end.

Definition sniff_gemini (line : list Z) (u : ParsedUsage) : bool * ParsedUsage :=
  match sse_data_json line with
  | None => (false, u)
  | Some v => recorded (observe_stream_cache Gemini v u) (parse_gemini_usage v)
  end.

Definition sniff_ollama (line : list Z) (u : ParsedUsage) : bool * ParsedUsage :=
  match (if utf8_valid line then from_str (trim line) else None) with
  | None => (false, u)
  | Some v => recorded (observe_stream_cache Ollama v u) (parse_ollama_usage v)
  end.

Definition sniff_for_family (family : ProviderFamily) : list Z -> ParsedUsage -> bool * ParsedUsage :=
  match family with
  | FOpenAiCompat => sniff_openai
  | FOpenAiResponses => sniff_responses
  | FAnthropic => sniff_anthropic
  | FCohere => sniff_cohere
  | FGemini => sniff_gemini
  | FOllama => sniff_ollama
  end.
End Sniff.

(** ** The pass-through *)

Definition ABSENT : CacheReadObservation := MkCacheObs Absent OriginUsage.
(** [get_or_insert_with] of an absent field. *)
Definition note_absent (u : ParsedUsage) : ParsedUsage := set_pu_obs (or_some (pu_cache_obs u) (Some ABSENT)) u.

Section Passthrough.
Variable sniff : list Z -> ParsedUsage -> bool * ParsedUsage.
Variable openai_done : bool.

(** The variables of the generator but its splitter. *)
Record Pass := MkPass {
  ps_usage : ParsedUsage; ps_sniffed : bool; ps_finalized : bool; ps_discarded : bool; ps_event_has_data : bool }.
Definition pass_new : Pass := MkPass ParsedUsage_default false false false false.

(** A line that may carry usage. *)
Definition sniff_line (line : list Z) (p : Pass) : Pass :=
  if line_contains_usage line
  then let '(b, u) := sniff line (ps_usage p) in
       MkPass u (ps_sniffed p || b) (ps_finalized p) (ps_discarded p) (ps_event_has_data p)
  else p.

(** One complete line; it says whether the line ended the stream. *)
Definition pass_line (line : list Z) (p : Pass) : bool * Pass :=
  if ps_discarded p
  then (false, MkPass (ps_usage p) (ps_sniffed p) (ps_finalized p) false (ps_event_has_data p))
  else if openai_done && negb (ps_event_has_data p) && openai_done_line line
  then (true, MkPass (ps_usage p) (ps_sniffed p) true false (ps_event_has_data p))
  else
    let has_data :=
      if openai_done then
        if bool_decide (line = [LF]) || bool_decide (line = [CR; LF]) then false
        else if starts_with (bytes "data:") line || bool_decide (line = bytes "data" ++ [LF])
                || bool_decide (line = bytes "data" ++ [CR; LF]) then true
        else ps_event_has_data p
      else ps_event_has_data p in
    (false, sniff_line line (MkPass (ps_usage p) (ps_sniffed p) (ps_finalized p) false has_data)).

(** [while let Some(line) = splitter.next_line()]; a line takes a byte at
    least. *)
Fixpoint pass_lines (n : nat) (l : LineSplitter) (p : Pass) : bool * (LineSplitter * Pass) :=
  match n with
  | O => (false, (l, p))
  | S n =>
      match next_line l with
      | (None, l) => (false, (l, p))
      | (Some line, l) =>
          match pass_line line p with
          | (true, p) => (true, (splitter_reset l, p))
          | (false, p) => pass_lines n l p
          end
      end
  end.

Definition set_pass_usage (u : ParsedUsage) (p : Pass) : Pass :=
  MkPass u (ps_sniffed p) (ps_finalized p) (ps_discarded p) (ps_event_has_data p).
Definition then_some {A} (b : bool) (a : A) : option A := if b then Some a else None.

Definition pass_chunk (chunk : list Z) (st : LineSplitter * Pass) : StreamChunk * (LineSplitter * Pass) :=
  let '(l, p) := st in
  let l := if ps_finalized p then l else splitter_push l chunk in
  let '(terminal, (l, p)) := pass_lines (S (length (remainder l))) l p in
  let '(l, p) :=
    if over_budget l
    then (splitter_reset l,
          MkPass (ps_usage p) (ps_sniffed p) (ps_finalized p) openai_done
            (if openai_done then true else ps_event_has_data p))
    else (l, p) in
  let p := if bool_decide (chunk = []) then p else set_pass_usage (note_absent (ps_usage p)) p in
  (MkChunk chunk (then_some (terminal && ps_sniffed p) (ps_usage p)) (then_some (ps_sniffed p) (ps_usage p))
     (pu_cache_obs (ps_usage p)) 1 terminal, (l, p)).

(** The end of the upstream. *)
Definition pass_end (st : LineSplitter * Pass) : list StreamChunk :=
  let '(l, p) := st in
  if ps_finalized p then []
  else
    let rest := remainder l in
    let p :=
      if negb (ps_discarded p) && negb (bool_decide (rest = []))
         && (Z.of_nat (length rest) <=? MAX_STREAM_LINE_BYTES) && line_contains_usage rest
      then let '(b, u) := sniff rest (ps_usage p) in
           MkPass u (ps_sniffed p || b) (ps_finalized p) (ps_discarded p) (ps_event_has_data p)
      else p in
    let u := note_absent (ps_usage p) in
    [MkChunk [] (then_some (ps_sniffed p) u) (then_some (ps_sniffed p) u) (pu_cache_obs u) 1 true].

(** The items for an upstream of chunks and, possibly, a transport error. *)
Fixpoint pass_stream (st : LineSplitter * Pass) (upstream : list (result string (list Z)))
    : list (result ProviderError StreamChunk) :=
  match upstream with
  | [] => Ok <$> pass_end st
  | Err e :: _ => [Err (Transport e)]
  | Ok chunk :: upstream => let '(item, st) := pass_chunk chunk st in Ok item :: pass_stream st upstream
  end.
Definition metered_passthrough_inner (upstream : list (result string (list Z))) : list (result ProviderError StreamChunk) :=
  pass_stream (splitter_new MAX_STREAM_LINE_BYTES, pass_new) upstream.
End Passthrough.

(** The stream of the transparent plane ([raw.rs]), without the idle bound and
    the attempt guard around it, which are [Resilience] and [Attempt]. *)
Definition forward_stream {J} `{JsonValue J} (from_str : list Z -> option J) (object : string -> J -> J)
    (family : ProviderFamily) (upstream : list (result string (list Z))) : list (result ProviderError StreamChunk) :=
  metered_passthrough_inner (sniff_for_family from_str object family)
    (match family with FOpenAiCompat => true | _ => false end) upstream.

(** ** Usage up to when an absent field was noted *)

(** A chunk boundary notes that the cache field is absent so far; sniffers
    do not tell that from not knowing. *)
Definition obs_ok (u : ParsedUsage) : Prop := pu_cache_obs u ≫= validated = pu_cache_obs u.
Definition usage_sim (u v : ParsedUsage) : Prop := note_absent u = note_absent v /\ obs_ok u /\ obs_ok v.
Definition sniff_stable (sniff : list Z -> ParsedUsage -> bool * ParsedUsage) : Prop :=
  forall line u v, usage_sim u v -> (sniff line u).1 = (sniff line v).1 /\ usage_sim (sniff line u).2 (sniff line v).2.

Lemma note_absent_idem u : note_absent (note_absent u) = note_absent u.
Proof. by destruct u as [? ? ? ? [o|] ? ? ? ?]. Qed.
Lemma note_absent_sim u : obs_ok u -> usage_sim u (note_absent u).
Proof. intros Ho. split_and!; [by rewrite note_absent_idem|done|]. unfold obs_ok in *. by destruct u as [? ? ? ? [o|] ? ? ? ?]. Qed.
Lemma usage_sim_trans u v w : usage_sim u v -> usage_sim v w -> usage_sim u w.
Proof. intros (E1 & A1 & B1) (E2 & A2 & B2). split_and!; congruence. Qed.
Lemma usage_sim_sym u v : usage_sim u v -> usage_sim v u.
Proof. intros (E & A & B). by split_and!. Qed.

Section Stable.
Context {J : Type} `{JsonValue J}.

Lemma observed_is_origin family (frame : J) o :
  observe_cache_read_stream family frame = Some o -> validated o = Some o /\ (co_status o = Absent -> o = ABSENT).
Proof.
  unfold observe_cache_read_stream. intros (r & _ & Hr)%bind_Some. injection Hr as <-.
  pose proof (observe_never_panics family r) as Hp. unfold observe_cache_read in *. simpl in *.
  destruct (cache_read_status family r); by split.
Qed.

Lemma merge_sim family (frame : J) u v : usage_sim u v -> usage_sim (observe_stream_cache family frame u) (observe_stream_cache family frame v).
Proof.
  unfold observe_stream_cache, merge_cache_read_observation.
  intros (E & A & B). unfold usage_sim, obs_ok in *. simpl. rewrite A, B.
  assert (Hn : forall o p, or_some (pu_cache_obs u) (Some ABSENT) = or_some (pu_cache_obs v) (Some ABSENT) /\
      set_pu_obs o u = set_pu_obs o v /\ (or_some p (Some ABSENT) = or_some o (Some ABSENT) -> note_absent (set_pu_obs p u) = note_absent (set_pu_obs o v))).
  { intros o p. destruct u, v. unfold note_absent, set_pu_obs in *. simpl in *. injection E as <- <- <- <- E <- <- <- <-.
    split_and!; [done..|]. by intros Hq; rewrite Hq. }
  destruct (observe_cache_read_stream family frame) as [o|] eqn:Eo; simpl.
  2: { split_and!; try done. }
  destruct (observed_is_origin _ _ _ Eo) as [Ho Ha]. rewrite Ho.
  destruct (Hn None None) as (Eu & _ & _).
  destruct (bool_decide_reflect (co_status o = Absent)) as [Hs|Hs]; simpl.
  2: { split_and!; try done. by apply Hn. }
  rewrite (Ha Hs) in *. destruct (pu_cache_obs u) as [cu|] eqn:Cu, (pu_cache_obs v) as [cv|] eqn:Cv; simpl in *; split_and!; try done; by apply Hn.
Qed.

Lemma recorded_sim u v next : usage_sim u v ->
  (recorded u next).1 = (recorded v next).1 /\ usage_sim (recorded u next).2 (recorded v next).2.
Proof.
  intros (E & A & B). destruct next as [n|]; [|done]. split; [done|]. unfold usage_sim, obs_ok, replace_numeric_usage, note_absent, set_pu_obs in *. simpl.
  injection E as _ _ _ _ E _ _ _ _. split_and!; [by rewrite E|done..].
Qed.

Lemma sniff_for_family_stable (from_str : list Z -> option J) object family : sniff_stable (sniff_for_family from_str object family).
Proof.
  intros line u v Hs. destruct family; simpl.
  - unfold sniff_openai. destruct (sse_data_json _ line) as [x|]; [|done]. by apply recorded_sim, merge_sim.
  - unfold sniff_responses. destruct (sse_data_json _ line) as [x|]; [|done]. by apply recorded_sim, merge_sim.
  - unfold sniff_anthropic. destruct (if utf8_valid line then _ else _) as [x|]; [|done].
    pose proof (merge_sim Anthropic x _ _ Hs) as Hm. revert Hm. generalize (observe_stream_cache Anthropic x u), (observe_stream_cache Anthropic x v).
    clear u v Hs. intros u v (E & A & B). unfold usage_sim, obs_ok, note_absent, set_pu_obs in *.
    repeat (case_match; try done); simpl; injection E as ? ? ? ? ? ? ? ? ?; split_and!; done || congruence.
  - unfold sniff_cohere. destruct (sse_data_json _ line) as [x|]; [|done]. by apply recorded_sim, merge_sim.
  - unfold sniff_gemini. destruct (sse_data_json _ line) as [x|]; [|done]. by apply recorded_sim, merge_sim.
  - unfold sniff_ollama. destruct (if utf8_valid line then _ else _) as [x|]; [|done]. by apply recorded_sim, merge_sim.
Qed.
End Stable.

(** ** The reference: the lines of the whole stream *)

Section Reference.
Variable sniff : list Z -> ParsedUsage -> bool * ParsedUsage.
Variable openai_done : bool.

Fixpoint read_lines (lines : list (list Z)) (p : Pass) : bool * Pass :=
  match lines with
  | [] => (false, p)
  | line :: lines =>
      match pass_line sniff openai_done line p with
      | (true, p) => (true, p)
      | (false, p) => read_lines lines p
      end
  end.

(** The usage of a stream of these lines and this rest, read from [p]. *)
Definition measure (lines : list (list Z)) (rest : list Z) (p : Pass) : option ParsedUsage :=
  let '(ended, p) := read_lines lines p in
  let p := if ended || bool_decide (rest = []) then p else sniff_line sniff rest p in
  then_some (ps_sniffed p) (note_absent (ps_usage p)).
Definition measured (bs : list Z) : option ParsedUsage :=
  let '(lines, (rest, _)) := split_ref false false [] bs in measure lines rest pass_new.

(** No line of the stream is longer than the splitter keeps. *)
Definition within_budget (bs : list Z) : Prop :=
  let '(lines, (rest, _)) := split_ref false false [] bs in
  Forall (fun line => Z.of_nat (length line) <= MAX_STREAM_LINE_BYTES) (rest :: lines).
End Reference.

(** ** The loop *)

Section Loop.
Variable sniff : list Z -> ParsedUsage -> bool * ParsedUsage.
Variable openai_done : bool.

Definition live (l : LineSplitter) : Prop :=
  (exists n, splitter_inv l n) /\ ls_sse l = false /\ ls_budget l = MAX_STREAM_LINE_BYTES /\ ls_skip_lf l = false.

Lemma live_new : live (splitter_new MAX_STREAM_LINE_BYTES).
Proof. split_and!; try done. exists 0%nat. split; simpl; try done; [constructor|]. by exists 0%nat. Qed.

Lemma live_reset l : live l -> live (splitter_reset l).
Proof.
  intros ([n Hi] & Hs & Hb & Hk). split_and!; try done. destruct Hi as [? ? ? ? (r & Hr & Hsc & Hco)]. exists (ls_scanned l).
  split; simpl; try done; [constructor|]. exists (ls_scanned l). simpl. lia.
Qed.

Lemma live_push l c : live l -> live (splitter_push l c) /\ remainder (splitter_push l c) = remainder l ++ c.
Proof.
  intros ([n Hi] & Hs & Hb & Hk). split; [|by eapply push_remainder]. split_and!; try done. eexists. by apply push_inv.
Qed.

Lemma next_line_live l : live l ->
  let '(r, l') := next_line l in
  live l' /\
  match r with
  | Some line => pending_ref l = (line :: (pending_ref l').1, (pending_ref l').2) /\ (length (remainder l') < length (remainder l))%nat
  | None => pending_ref l = ([], (remainder l', false)) /\ plain false (remainder l')
  end.
Proof.
  intros ([n Hi] & Hs & Hb & Hk). pose proof (next_line_spec l n Hi) as Hn. unfold next_line in *.
  assert (Hsk : ls_skip_lf (skip_pending_lf l) = false) by (unfold skip_pending_lf; by rewrite Hk).
  assert (Hss : ls_sse (skip_pending_lf l) = false) by (unfold skip_pending_lf; by rewrite Hk).
  destruct (bool_decide _); [|destruct (position _ _) as [rel|]].
  - destruct Hn as (Hi' & E1 & E2 & E3 & E4 & _). rewrite Hss in *; rewrite Hsk in E3. split; [|done].
    split_and!; [by eexists|done|congruence|done].
  - destruct Hn as (Hi' & E1 & E2 & Hr & Hlt). split; [|done]. split_and!; [by eexists|congruence|congruence|].
    set (l2 := MkSplitter _ _ _ _ _ _ _ _). destruct (compact_view l2) as (_ & _ & -> & _). simpl. by rewrite Hss.
  - destruct Hn as (Hi' & E1 & E2 & E3 & E4 & _). simpl in *. rewrite Hss in *; rewrite Hsk in E3. split; [|done].
    split_and!; [by eexists|done|simpl; congruence|done].
Qed.

Lemma pass_lines_spec n : forall l p, live l -> (length (remainder l) < n)%nat ->
  let '(ended, (l', p')) := pass_lines sniff openai_done n l p in
  let '(lines, (rest, _)) := pending_ref l in
  live l' /\ read_lines sniff openai_done lines p = (ended, p') /\ remainder l' = (if ended then [] else rest) /\ plain false (remainder l').
Proof.
  induction n as [|n IH]; intros l p Hl Hn; [lia|]. simpl. pose proof (next_line_live l Hl) as Hx.
  destruct (next_line l) as [[line|] l1]; destruct Hx as [Hl1 Hx].
  - destruct Hx as [-> Hlt]. destruct (pending_ref l1) as [lines [rest sk]] eqn:Ep. simpl.
    destruct (pass_line sniff openai_done line p) as [[|] p1].
    + split_and!; [by apply live_reset|done|done|constructor].
    + specialize (IH l1 p1 Hl1 ltac:(lia)). by rewrite Ep in IH.
  - destruct Hx as [-> Hp]. by split_and!.
Qed.

(** *** One chunk *)

Definition pass_ok (st : LineSplitter * Pass) : Prop :=
  live st.1 /\ plain false (remainder st.1) /\ (ps_finalized st.2 = true -> remainder st.1 = []).

Lemma over_budget_spec l : live l -> over_budget l = (MAX_STREAM_LINE_BYTES <? Z.of_nat (length (remainder l))).
Proof. intros (_ & _ & Hb & _). unfold over_budget, remainder. by rewrite Hb, length_drop. Qed.

Lemma sniff_line_flags line p :
  ps_finalized (sniff_line sniff line p) = ps_finalized p /\ ps_discarded (sniff_line sniff line p) = ps_discarded p /\
  ps_event_has_data (sniff_line sniff line p) = ps_event_has_data p.
Proof. unfold sniff_line. destruct (line_contains_usage line); [|done]. by destruct (sniff line (ps_usage p)). Qed.

Lemma pass_line_flags line p :
  let '(ended, p') := pass_line sniff openai_done line p in ps_finalized p' = ended || ps_finalized p /\ ps_discarded p' = false.
Proof.
  unfold pass_line. destruct (ps_discarded p); [done|]. destruct (openai_done && _ && _); [done|].
  match goal with |- context [sniff_line sniff line ?q] => destruct (sniff_line_flags line q) as (E1 & E2 & _) end. by rewrite E1, E2.
Qed.

Lemma read_lines_flags lines : forall p, let '(ended, p') := read_lines sniff openai_done lines p in
  ps_finalized p' = ended || ps_finalized p /\ (ps_discarded p = false -> ps_discarded p' = false).
Proof.
  induction lines as [|line lines IH]; intros p; simpl; [done|]. pose proof (pass_line_flags line p) as Hf.
  destruct (pass_line sniff openai_done line p) as [[|] p1]; destruct Hf as [Hf Hd]; [done|].
  specialize (IH p1). destruct (read_lines _ _ lines p1) as [e p2]. simpl in Hf. rewrite Hf in IH. destruct IH. by split; [|auto].
Qed.

(** What a chunk makes of the lines it completes. *)
Lemma pass_chunk_spec chunk l p : pass_ok (l, p) ->
  let '(item, (l', p')) := pass_chunk sniff openai_done chunk (l, p) in
  let '(lines, (rest, _)) := split_ref false false (remainder l) (if ps_finalized p then [] else chunk) in
  let '(ended, p1) := read_lines sniff openai_done lines p in
  let over := negb ended && (MAX_STREAM_LINE_BYTES <? Z.of_nat (length rest)) in
  let u := if bool_decide (chunk = []) then ps_usage p1 else note_absent (ps_usage p1) in
  pass_ok (l', p') /\ remainder l' = (if ended || over then [] else rest) /\
  p' = MkPass u (ps_sniffed p1) (ps_finalized p1) (if over then openai_done else ps_discarded p1)
         (if over && openai_done then true else ps_event_has_data p1) /\
  item = MkChunk chunk (then_some (ended && ps_sniffed p1) u) (then_some (ps_sniffed p1) u) (pu_cache_obs u) 1 ended.
Proof.
  intros (Hl & Hp & Hf). cbn [fst snd] in *. unfold pass_chunk.
  set (l1 := if ps_finalized p then l else splitter_push l chunk).
  assert (H1 : live l1 /\ remainder l1 = remainder l ++ (if ps_finalized p then [] else chunk)).
  { subst l1. destruct (ps_finalized p); [by rewrite app_nil_r|]. by apply live_push. }
  destruct H1 as [Hl1 Hr1]. pose proof (pass_lines_spec _ l1 p Hl1 (Nat.lt_succ_diag_r _)) as Hs.
  assert (Href : pending_ref l1 = split_ref false false (remainder l) (if ps_finalized p then [] else chunk)).
  { unfold pending_ref. destruct Hl1 as (_ & -> & _ & ->). rewrite Hr1. symmetry; by apply split_ref_pending. }
  rewrite Href in Hs. destruct (pass_lines _ _ _ l1 p) as [ended [l2 p2]].
  destruct (split_ref _ _ _ _) as [lines [rest sk]] eqn:Hsr. destruct Hs as (Hl2 & Hrl & Hr2 & Hp2). rewrite Hrl.
  pose proof (read_lines_flags lines p) as Hfl. rewrite Hrl in Hfl. destruct Hfl as [Hfl _].
  rewrite over_budget_spec by done. rewrite Hr2.
  set (over := MAX_STREAM_LINE_BYTES <? _).
  assert (Ho : over = negb ended && (MAX_STREAM_LINE_BYTES <? Z.of_nat (length rest))) by (subst over; by destruct ended).
  rewrite <- Ho. clearbody over. destruct over.
  - destruct ended; [done|]. simpl. split_and!.
    + split_and!; [by apply live_reset|constructor|done].
    + done.
    + destruct openai_done; by destruct (bool_decide (chunk = [])).
    + by destruct (bool_decide (chunk = [])).
  - rewrite orb_false_r. simpl. split_and!.
    + split_and!; [done|exact Hp2|]. simpl. intros Hfin.
      assert (Hfin' : ended || ps_finalized p = true) by (rewrite <- Hfl; by destruct (bool_decide (chunk = []))).
      rewrite Hr2. destruct ended; [done|]. simpl in Hfin'. rewrite (Hf Hfin'), Hfin' in Hsr. simpl in Hsr. congruence.
    + done.
    + destruct p2; by destruct (bool_decide (chunk = [])).
    + by destruct (bool_decide (chunk = [])).
Qed.

(** *** The items *)

Definition upstream_of (chunks : list (list Z)) (failure : option string) : list (result string (list Z)) :=
  (Ok <$> chunks) ++ match failure with Some e => [Err e] | None => [] end.
Definition items_of (items : list StreamChunk) (failure : option string) : list (result ProviderError StreamChunk) :=
  (Ok <$> items) ++ match failure with Some e => [Err (Transport e)] | None => [] end.
Definition terminals (items : list StreamChunk) : nat := length (List.filter ck_terminal items).
Definition usage_is_terminal (c : StreamChunk) : Prop := ck_terminal c = false -> ck_usage c = None.

Lemma pass_chunk_shape chunk l p : pass_ok (l, p) ->
  let '(item, (l', p')) := pass_chunk sniff openai_done chunk (l, p) in
  pass_ok (l', p') /\ ck_data item = chunk /\ usage_is_terminal item /\ ps_finalized p' = ck_terminal item || ps_finalized p /\
  (ps_finalized p = true -> ck_terminal item = false).
Proof.
  intros Hok. pose proof (pass_chunk_spec chunk l p Hok) as Hs. destruct Hok as (_ & _ & Hf). cbn [fst snd] in Hf.
  destruct (pass_chunk sniff openai_done chunk (l, p)) as [item [l' p']].
  destruct (split_ref _ _ _ _) as [lines [rest sk]] eqn:Hsr. pose proof (read_lines_flags lines p) as Hfl.
  destruct (read_lines _ _ lines p) as [ended p1] eqn:Hrl. destruct Hfl as [Hfl _]. destruct Hs as (Hok' & _ & -> & ->). simpl.
  split_and!; try done.
  - unfold usage_is_terminal. simpl. by intros ->.
  - intros Hfin. rewrite Hfin, (Hf Hfin) in Hsr. injection Hsr as <- _ _. by injection Hrl as <- _.
Qed.

Lemma pass_end_shape l p : exists items, pass_end sniff (l, p) = items /\ ck_data <$> items = (if ps_finalized p then [] else [[]]) /\
  terminals items = (if ps_finalized p then 0%nat else 1%nat) /\ Forall usage_is_terminal items.
Proof. eexists. split; [done|]. unfold pass_end. destruct (ps_finalized p); split_and!; try done; by repeat constructor. Qed.

Lemma pass_stream_shape chunks failure : forall l p, pass_ok (l, p) ->
  exists items k, pass_stream sniff openai_done (l, p) (upstream_of chunks failure) = items_of items failure /\
    ck_data <$> items = chunks ++ replicate k [] /\ (k <= 1)%nat /\ Forall usage_is_terminal items /\
    (if ps_finalized p then terminals items = 0%nat else (terminals items <= 1)%nat) /\
    (failure = None -> ps_finalized p = false -> terminals items = 1%nat).
Proof.
  unfold upstream_of, items_of. induction chunks as [|c chunks IH]; intros l p Hok.
  - destruct failure as [e|]; [exists [], 0%nat; split_and!; try done; destruct (ps_finalized p); unfold terminals; simpl; done || lia|].
    destruct (pass_end_shape l p) as (items & He & Hd & Ht & Hu). exists items, (if ps_finalized p then 0%nat else 1%nat).
    cbn [fmap list_fmap app pass_stream]. rewrite He, app_nil_r, Ht. split_and!; try done; destruct (ps_finalized p); done || lia.
  - pose proof (pass_chunk_shape c l p Hok) as Hc. rewrite fmap_cons. cbn [app pass_stream]. destruct (pass_chunk sniff openai_done c (l, p)) as [item [l' p']].
    destruct Hc as (Hok' & Hd & Hu & Hf & Hn). destruct (IH l' p' Hok') as (items & k & -> & Hds & Hk & Hus & Ht & H1).
    exists (item :: items), k. split_and!; [done| |done|by constructor| |].
    + simpl. rewrite Hd. f_equal. exact Hds.
    + unfold terminals in *. simpl. rewrite Hf in Ht. destruct (ps_finalized p).
      * by rewrite Hn, orb_true_r in * by done.
      * destruct (ck_terminal item); simpl in *; lia.
    + intros Hnone Hfp. unfold terminals in *. simpl. rewrite Hf, Hfp in *. destruct (ck_terminal item); simpl in *; [lia|]. by apply H1.
Qed.

(** *** The measurement *)

Hypothesis Hsniff : sniff_stable sniff.

Definition pass_sim (p q : Pass) : Prop :=
  usage_sim (ps_usage p) (ps_usage q) /\ ps_sniffed p = ps_sniffed q /\ ps_finalized p = ps_finalized q /\
  ps_discarded p = ps_discarded q /\ ps_event_has_data p = ps_event_has_data q.

Lemma sniff_line_sim line p q : pass_sim p q -> pass_sim (sniff_line sniff line p) (sniff_line sniff line q).
Proof.
  intros (Hu & E1 & E2 & E3 & E4). unfold sniff_line. destruct (line_contains_usage line); [|done].
  destruct (Hsniff line _ _ Hu) as [Hb Hu']. destruct (sniff line (ps_usage p)), (sniff line (ps_usage q)). simpl in *.
  subst. split_and!; simpl; congruence || done.
Qed.

Lemma read_lines_sim lines : forall p q, pass_sim p q ->
  (read_lines sniff openai_done lines p).1 = (read_lines sniff openai_done lines q).1 /\
  pass_sim (read_lines sniff openai_done lines p).2 (read_lines sniff openai_done lines q).2.
Proof.
  induction lines as [|line lines IH]; intros p q Hs; simpl; [done|].
  assert (Hl : (pass_line sniff openai_done line p).1 = (pass_line sniff openai_done line q).1 /\
    pass_sim (pass_line sniff openai_done line p).2 (pass_line sniff openai_done line q).2).
  { pose proof Hs as (Hu & E1 & E2 & E3 & E4). unfold pass_line. rewrite E1, E2, E3, E4.
    destruct (ps_discarded q); [done|]. destruct (openai_done && _ && _); [done|]. split; [done|]. by apply sniff_line_sim. }
  destruct (pass_line sniff openai_done line p) as [b p1], (pass_line sniff openai_done line q) as [b' q1].
  destruct Hl as [Hb Hl]. simpl in Hb, Hl. subst b'. destruct b; [done|]. by apply IH.
Qed.

Lemma measure_sim lines rest p q : pass_sim p q ->
  measure sniff openai_done lines rest p = measure sniff openai_done lines rest q.
Proof.
  intros Hs. unfold measure. destruct (read_lines_sim lines p q Hs) as [E Hs'].
  destruct (read_lines _ _ lines p) as [e p1], (read_lines _ _ lines q) as [e' q1]. simpl in *. subst e'.
  assert (Hf : pass_sim (if e || bool_decide (rest = []) then p1 else sniff_line sniff rest p1)
    (if e || bool_decide (rest = []) then q1 else sniff_line sniff rest q1)).
  { destruct (e || _); [done|]. by apply sniff_line_sim. }
  destruct Hf as ((Hu & _) & -> & _). by rewrite Hu.
Qed.

Lemma read_lines_app lines lines' p : read_lines sniff openai_done (lines ++ lines') p =
  let '(e, p1) := read_lines sniff openai_done lines p in if e then (true, p1) else read_lines sniff openai_done lines' p1.
Proof.
  revert p. induction lines as [|line lines IH]; intros p; simpl; [done|]. destruct (pass_line _ _ line p) as [[] p1]; [done|apply IH].
Qed.

(** The pending bytes are a part of the line they will be. *)
Lemma pending_fits bs : forall acc,
  let '(lines, (rest, _)) := split_ref false false acc bs in
  Forall (fun line => Z.of_nat (length line) <= MAX_STREAM_LINE_BYTES) (rest :: lines) ->
  Z.of_nat (length acc) <= MAX_STREAM_LINE_BYTES.
Proof.
  induction bs as [|b bs IH]; intros acc; simpl; [by intros [H _]%Forall_cons|].
  destruct (terminator false b).
  - destruct (split_ref false false [] bs) as [lines [rest sk]]. intros (_ & [H _]%Forall_cons)%Forall_cons.
    rewrite length_app in H. lia.
  - specialize (IH (acc ++ [b])). destruct (split_ref _ _ _ bs) as [lines [rest sk]]. intros Hf. specialize (IH Hf).
    rewrite length_app in IH. lia.
Qed.

Definition item_usage (r : result ProviderError StreamChunk) : option ParsedUsage :=
  match r with Ok c => ck_usage c | Err _ => None end.

Lemma omap_cons {A B} (f : A -> option B) x l :
  omap f (x :: l) = match f x with Some y => y :: omap f l | None => omap f l end.
Proof. done. Qed.

Lemma finalized_is_silent chunks : forall l p, pass_ok (l, p) -> ps_finalized p = true ->
  omap item_usage (pass_stream sniff openai_done (l, p) (Ok <$> chunks)) = [].
Proof.
  induction chunks as [|c chunks IH]; intros l p Hok Hf.
  - cbn [fmap list_fmap pass_stream]. unfold pass_end. by rewrite Hf.
  - pose proof (pass_chunk_shape c l p Hok) as Hc. rewrite fmap_cons. cbn [pass_stream].
    destruct (pass_chunk sniff openai_done c (l, p)) as [item [l' p']]. destruct Hc as (Hok' & _ & Hu & Hf' & Hn).
    rewrite omap_cons. cbn [item_usage]. rewrite Hu by auto. apply IH; [done|]. by rewrite Hf', Hf, orb_true_r.
Qed.

Lemma split_ref_skip bs : forall acc, (split_ref false false acc bs).2.2 = false.
Proof.
  induction bs as [|b bs IH]; intros acc; simpl; [done|]. destruct (terminator false b); [|apply IH].
  specialize (IH []). by destruct (split_ref false false [] bs).
Qed.

Lemma pass_stream_measures chunks : forall l p q,
  pass_ok (l, p) -> ps_finalized p = false -> ps_discarded p = false -> pass_sim p q ->
  let '(lines, (rest, _)) := split_ref false false (remainder l) (concat chunks) in
  Forall (fun line => Z.of_nat (length line) <= MAX_STREAM_LINE_BYTES) (rest :: lines) ->
  omap item_usage (pass_stream sniff openai_done (l, p) (Ok <$> chunks)) =
  match measure sniff openai_done lines rest q with Some u => [u] | None => [] end.
Proof.
  induction chunks as [|c chunks IH]; intros l p q Hok Hf Hd Hs.
  - simpl. intros [Hlen _]%Forall_cons. rewrite <- (measure_sim [] _ p q Hs). unfold pass_end, measure. cbn [read_lines].
    rewrite Hf, Hd, (proj2 (Z.leb_le _ _) Hlen). unfold sniff_line.
    destruct (bool_decide (remainder l = [])); simpl; [by destruct (ps_sniffed p)|].
    destruct (line_contains_usage (remainder l)); simpl; [|by destruct (ps_sniffed p)].
    destruct (sniff (remainder l) (ps_usage p)). simpl. by destruct (_ || _).
  - rewrite fmap_cons. cbn [pass_stream concat]. rewrite split_ref_app. pose proof (pass_chunk_spec c l p Hok) as Hc.
    destruct (pass_chunk sniff openai_done c (l, p)) as [item [l' p']]. rewrite Hf in Hc.
    pose proof (split_ref_skip c (remainder l)) as Hsk.
    destruct (split_ref false false (remainder l) c) as [lines1 [rest1 sk1]] eqn:Hsr. simpl in Hsk. subst sk1.
    destruct (read_lines_sim lines1 p q Hs) as [Eb Hs1]. pose proof (read_lines_flags lines1 p) as Hfl.
    destruct (read_lines sniff openai_done lines1 p) as [ended p1] eqn:Hrl. rewrite Hf, orb_false_r in Hfl. destruct Hfl as [Hfl Hdl].
    destruct Hc as (Hok' & Hrem & Hp' & ->).
    pose proof (pending_fits (concat chunks) rest1) as Hfit.
    destruct (split_ref false false rest1 (concat chunks)) as [lines2 [rest2 sk2]] eqn:Hsr2.
    intros Hlen. assert (Hlen2 : Forall (fun line => Z.of_nat (length line) <= MAX_STREAM_LINE_BYTES) (rest2 :: lines2)).
    { inv Hlen. constructor; [done|]. by apply Forall_app in H2 as [_ H2]. }
    specialize (Hfit Hlen2). rewrite omap_cons. cbn [item_usage ck_usage]. unfold measure. rewrite read_lines_app.
    destruct (read_lines sniff openai_done lines1 q) as [e' q1] eqn:Hrq. cbn [fst snd] in *. subst e'.
    rewrite (proj2 (Z.ltb_ge _ _) Hfit), andb_false_r in *. cbn [andb] in *. rewrite orb_false_r in Hrem.
    destruct ended.
    + assert (Hc : bool_decide (c = []) = false).
      { apply bool_decide_eq_false. intros ->. injection Hsr as <- _. by injection Hrl as ?. }
      rewrite Hc in *. rewrite (finalized_is_silent chunks l' p' Hok') by (by rewrite Hp').
      destruct Hs1 as ((Hu & _) & Hsn & _). cbn [orb andb]. rewrite Hu, Hsn. by destruct (ps_sniffed q1).
    + cbn [andb then_some]. specialize (IH l' p' q1 Hok'). rewrite Hrem, Hsr2 in IH. apply IH; [by rewrite Hp'| |  |done].
      * rewrite Hp'. by apply Hdl.
      * rewrite Hp'. destruct Hs1 as (Hu & E1 & E2 & E3 & E4). split_and!; cbn [ps_usage ps_sniffed ps_finalized ps_discarded ps_event_has_data]; try done.
        destruct (bool_decide (c = [])); [done|]. eapply usage_sim_trans; [|exact Hu]. apply usage_sim_sym, note_absent_sim, Hu.
Qed.
End Loop.

Lemma pass_ok_new : pass_ok (splitter_new MAX_STREAM_LINE_BYTES, pass_new).
Proof. split_and!; [apply live_new|constructor|done]. Qed.

(** The usages on the items of a clean stream are the one measured. *)
Lemma forward_stream_measures {J} `{JsonValue J} (from_str : list Z -> option J) object family chunks items :
  forward_stream from_str object family (upstream_of chunks None) = items_of items None ->
  within_budget (concat chunks) ->
  omap ck_usage items =
    match measured (sniff_for_family from_str object family) (match family with FOpenAiCompat => true | _ => false end) (concat chunks) with
    | Some u => [u] | None => [] end.
Proof.
  unfold forward_stream, metered_passthrough_inner. set (sniff := sniff_for_family from_str object family).
  set (openai := match family with FOpenAiCompat => true | _ => false end).
  intros Ho. unfold within_budget, measured. intros Hw.
  assert (Hst : sniff_stable sniff) by apply sniff_for_family_stable.
  assert (Hsim : pass_sim pass_new pass_new) by done.
  pose proof (pass_stream_measures sniff openai Hst chunks _ _ _ pass_ok_new eq_refl eq_refl Hsim) as Hm.
  change (remainder (splitter_new MAX_STREAM_LINE_BYTES)) with (@nil Z) in Hm.
  destruct (split_ref false false [] (concat chunks)) as [lines [rest sk]]. rewrite <- (Hm Hw).
  unfold upstream_of, items_of in Ho. rewrite !app_nil_r in Ho. rewrite Ho. clear. induction items as [|i items IH]; [done|].
  rewrite fmap_cons, !omap_cons. cbn [item_usage]. by rewrite IH.
Qed.

(** C30: the pass-through is transparent and measures once.  The items of a
    metered stream are the upstream's chunks, byte for byte and in order,
    then at most an item of no bytes, and its transport error, if any.
    Usage is finalized on a terminal item only; there is one of these at
    most, and exactly one when the upstream ends cleanly, whether at
    [data: [DONE]] or at the end of the body.  When no line is longer than
    the splitter keeps, the finalized usage depends on the bytes and not on
    how they were cut: it is that of reading the lines of the whole stream,
    for the sniffer of each provider family. *)
Theorem passthrough_is_transparent {J} `{JsonValue J} (from_str : list Z -> option J) object family chunks failure :
  let openai := match family with FOpenAiCompat => true | _ => false end in
  exists items k,
    forward_stream from_str object family (upstream_of chunks failure) = items_of items failure /\
    ck_data <$> items = chunks ++ replicate k [] /\ (k <= 1)%nat /\ Forall usage_is_terminal items /\
    (terminals items <= 1)%nat /\ (failure = None -> terminals items = 1%nat) /\
    (failure = None -> within_budget (concat chunks) ->
     omap ck_usage items =
       match measured (sniff_for_family from_str object family) openai (concat chunks) with Some u => [u] | None => [] end).
Proof.
  intros openai.
  destruct (pass_stream_shape (sniff_for_family from_str object family) openai chunks failure _ _ pass_ok_new)
    as (items & k & Ho & Hd & Hk & Hu & Ht & H1).
  exists items, k. split_and!; try done; [by intros ?; apply H1|]. intros ->. by apply forward_stream_measures.
Qed.

(** A usage line cut in two, and the protocol's end before the body's. *)
Definition demo_from_str (payload : list Z) : option Json :=
  if bool_decide (payload = bytes "{usage}") then Some (demo_final demo_hits) else None.
Definition demo_chunks : list (list Z) := [bytes "data: {usa"; bytes "ge}" ++ [LF; LF]; bytes "data: [DONE]" ++ [LF; LF]].
Lemma passthrough_is_transparent_witness :
  exists items,
    forward_stream demo_from_str (fun k v => JObject [(k, v)]) FOpenAiCompat (upstream_of demo_chunks None) = items_of items None /\
    ck_data <$> items = demo_chunks /\ omap ck_usage items = [demo_parsed].
Proof.
  destruct (passthrough_is_transparent demo_from_str (fun k v => JObject [(k, v)]) FOpenAiCompat demo_chunks None)
    as (items & k & Ho & _ & _ & _ & _ & _ & Hm).
  exists items. split; [exact Ho|]. split.
  - vm_compute in Ho. destruct items as [|i0 [|i1 [|i2 [|]]]]; try discriminate Ho. by injection Ho as <- <- <-.
  - rewrite Hm; [vm_compute; reflexivity|reflexivity|].
    unfold within_budget. set (lines := split_ref _ _ _ _). vm_compute in lines. subst lines.
    repeat (apply Forall_cons_2; [vm_compute; discriminate|]). apply Forall_nil_2.
Defined.
