(* ===== verification/Metering.v ===== *)
(** [crates/sandhi-providers/src/metering.rs]: the decorator that makes every
    call of a provider emit one usage event, on the measured usage only.  A
    stream is metered by a wrapper that emits when it ends, fails or is
    dropped.  The provider inside is an argument: what it answers. *)

From S2P Require Import Prelude Text Usage Json UsageParse LineSplit StreamUsage Attempt Passthrough.

(** ** Requests and answers ([lib.rs]) *)

Record Attribution := MkAttribution {
  at_virtual_key_id : option string; at_subject_id : option string; at_group_id : option string; at_route : option string }.

(** The fields of a [ProviderRequest] that the meter reads. *)
Record ProviderRequest := MkRequest { rq_model : string; rq_session_id : option string; rq_attribution : Attribution }.
Record ProviderResponse (J : Type) := MkResponse { rs_status : Z; rs_body : J; rs_usage : ParsedUsage; rs_attempts : Z }.
Arguments MkResponse {J}.
Arguments rs_usage {J}.
Arguments rs_attempts {J}.

(** ** The decorator *)

(** [MeteredProvider] but its inner provider, whose slug it asks for. *)
Record MeteredProvider := MkMetered { mp_slug : string; mp_backend : Backend }.
Definition metered_new (slug : string) : MeteredProvider := MkMetered slug External.
Definition with_backend (b : Backend) (m : MeteredProvider) : MeteredProvider := MkMetered (mp_slug m) b.

(** The id and the time of the call are read from a counter and the clock. *)
Definition event_base (request_id now : string) (m : MeteredProvider) (req : ProviderRequest) : UsageEvent :=
  let a := rq_attribution req in
  with_session
    (with_route
       (with_attribution (UsageEvent_new request_id now (mp_slug m) (rq_model req) (mp_backend m))
          (at_virtual_key_id a) (at_subject_id a) (at_group_id a))
       (at_route a))
    (rq_session_id req).

Definition reconcile_event_latency (e : UsageEvent) (boundary_duration_ms : Z) (boundary_ttft_ms : option Z) : UsageEvent :=
  let e :=
    match ev_duration_ms e with
    | Some _ => with_latency_sources e (or_some (ev_duration_source e) (Some Origin)) (ev_time_to_first_token_source e)
    | None =>
        with_latency_sources (with_latency e (Some boundary_duration_ms) (ev_time_to_first_token_ms e))
          (Some Boundary) (ev_time_to_first_token_source e)
    end in
  match ev_time_to_first_token_ms e, boundary_ttft_ms with
  | Some _, _ => with_latency_sources e (ev_duration_source e) (or_some (ev_time_to_first_token_source e) (Some Origin))
  | None, Some ms =>
      with_latency_sources (with_latency e (ev_duration_ms e) (Some ms)) (ev_duration_source e) (Some Boundary)
  | None, None => e
  end.

(** [complete]: a failed call emits nothing.  [elapsed] is read after it. *)
Definition metered_complete {J} (base : UsageEvent) (elapsed : Z) (answer : result ProviderError (ProviderResponse J))
    (sink : list UsageEvent) : result ProviderError (ProviderResponse J) * list UsageEvent :=
  match answer with
  | Err e => (Err e, sink)
  | Ok r =>
      (Ok r,
       sink ++ [with_measurement (reconcile_event_latency (apply_parsed (rs_usage r) base) elapsed None)
                  Final (rs_attempts r) (Some "success"%string) None])
  end.

Record PendingEvent := MkPendingEvent {
  pe_base : UsageEvent; pe_usage : ParsedUsage; pe_usage_seen : bool; pe_attempts : Z; pe_ttft_ms : option Z }.
(** [MeteredStream]: the event that is due, and the sink. *)
Record MeteredStream := MkMeteredStream { ms_pending : option PendingEvent; ms_sink : list UsageEvent }.

(** [stream], when the inner stream was set up. *)
Definition metered_stream (base : UsageEvent) (sink : list UsageEvent) : MeteredStream :=
  MkMeteredStream (Some (MkPendingEvent base ParsedUsage_default false 1 None)) sink.

Definition completeness_for (usage_seen : bool) (outcome : string) : UsageCompleteness :=
  if usage_seen && String.eqb outcome "success" then Final else if usage_seen then Partial else Unavailable.

Definition emit_once (elapsed : Z) (outcome : string) (m : MeteredStream) : MeteredStream :=
  match ms_pending m with
  | None => m
  | Some p =>
      MkMeteredStream None
        (ms_sink m ++
         [with_measurement (reconcile_event_latency (apply_parsed (pe_usage p) (pe_base p)) elapsed (pe_ttft_ms p))
            (completeness_for (pe_usage_seen p) outcome) (pe_attempts p) (Some outcome) None])
  end.

(** A chunk goes by. *)
Definition note_chunk (elapsed : Z) (c : StreamChunk) (p : PendingEvent) : PendingEvent :=
  let observation := pu_cache_obs (pe_usage p) in
  let '(usage, seen, observation) :=
    match ck_usage c with
    | Some u => (u, true, merge_cache_read_observation observation (pu_cache_obs u))
    | None => (pe_usage p, pe_usage_seen p, observation)
    end in
  let observation := merge_cache_read_observation observation (ck_cache_obs c) in
  MkPendingEvent (pe_base p) (set_pu_obs observation usage) seen (ck_attempts c) (or_some (pe_ttft_ms p) (Some elapsed)).

(** [poll_next], when the inner stream answers [item] [elapsed] milliseconds
    into the call: what the caller gets, and the stream. *)
Definition metered_poll (elapsed : Z) (item : Item) (m : MeteredStream) : Item * MeteredStream :=
  (item,
   match item with
   | Some (Ok chunk) => MkMeteredStream (note_chunk elapsed chunk <$> ms_pending m) (ms_sink m)
   | Some (Err _) => emit_once elapsed "error" m
   | None => emit_once elapsed "success" m
   end).

(** The stream is polled, at times the inner one is not ready, and then
    dropped. *)
Notation Polls := (list (option (Z * Item))).
Definition poll_step (m : MeteredStream) (poll : option (Z * Item)) : MeteredStream :=
  match poll with Some (elapsed, item) => (metered_poll elapsed item m).2 | None => m end.
Definition stream_life (polls : Polls) (dropped : Z) (m : MeteredStream) : list UsageEvent :=
  ms_sink (emit_once dropped "cancelled" (foldl poll_step m polls)).

(** ** The reference: what happened until the stream was decided *)

Record StreamStory := MkStory { sy_chunks : list (Z * StreamChunk); sy_outcome : string; sy_elapsed : Z }.
Fixpoint story (polls : Polls) (dropped : Z) : StreamStory :=
  match polls with
  | [] => MkStory [] "cancelled" dropped
  | None :: polls => story polls dropped
  | Some (t, Some (Ok c)) :: polls =>
      let s := story polls dropped in MkStory ((t, c) :: sy_chunks s) (sy_outcome s) (sy_elapsed s)
  | Some (t, Some (Err _)) :: _ => MkStory [] "error" t
  | Some (t, None) :: _ => MkStory [] "success" t
  end.

(** The last usage that was seen, under every observation that was made. *)
Definition seen_usage (cs : list StreamChunk) : option ParsedUsage := last (omap ck_usage cs).
Definition seen_observation (cs : list StreamChunk) : option CacheReadObservation :=
  foldl (fun o c =>
    let o := match ck_usage c with Some u => merge_cache_read_observation o (pu_cache_obs u) | None => o end in
    merge_cache_read_observation o (ck_cache_obs c)) None cs.
Definition metered_event (base : UsageEvent) (s : StreamStory) : UsageEvent :=
  let cs := (sy_chunks s).*2 in
  let usage := set_pu_obs (seen_observation cs) (default ParsedUsage_default (seen_usage cs)) in
  with_measurement
    (reconcile_event_latency (apply_parsed usage base) (sy_elapsed s) (fst <$> head (sy_chunks s)))
    (completeness_for (bool_decide (is_Some (seen_usage cs))) (sy_outcome s))
    (default 1 (ck_attempts <$> last cs)) (Some (sy_outcome s)) None.

(** ** Lemmas *)

Definition noted (cs : list (Z * StreamChunk)) (p : PendingEvent) : PendingEvent := foldl (fun p x => note_chunk x.1 x.2 p) p cs.

Lemma emitted_is_final polls dropped sink : stream_life polls dropped (MkMeteredStream None sink) = sink.
Proof.
  unfold stream_life. replace (foldl poll_step (MkMeteredStream None sink) polls) with (MkMeteredStream None sink); [done|].
  induction polls as [|[[t [[c|e]|]]|] polls IH]; simpl; done.
Qed.

Lemma life_story polls dropped : forall p sink,
  stream_life polls dropped (MkMeteredStream (Some p) sink) =
  let s := story polls dropped in
  ms_sink (emit_once (sy_elapsed s) (sy_outcome s) (MkMeteredStream (Some (noted (sy_chunks s) p)) sink)).
Proof.
  induction polls as [|[[t [[c|e]|]]|] polls IH]; intros p sink; [done| | | |apply IH].
  - apply (IH (note_chunk t c p)).
  - apply emitted_is_final.
  - apply emitted_is_final.
Qed.

Lemma noted_spec base cs :
  noted cs (MkPendingEvent base ParsedUsage_default false 1 None) =
  MkPendingEvent base (set_pu_obs (seen_observation cs.*2) (default ParsedUsage_default (seen_usage cs.*2)))
    (bool_decide (is_Some (seen_usage cs.*2))) (default 1 (ck_attempts <$> last cs.*2)) (fst <$> head cs).
Proof.
  induction cs as [|[t c] cs IH] using rev_ind; [done|]. unfold noted in *. rewrite foldl_snoc, IH. clear IH.
  replace ((cs ++ [(t, c)]).*2) with (cs.*2 ++ [c]) by (by rewrite fmap_app).
  unfold seen_usage, seen_observation, note_chunk. rewrite foldl_app, omap_app, last_snoc. simpl.
  destruct (ck_usage c) as [u|] eqn:Eu; simpl.
  - rewrite last_snoc. simpl. f_equal. by destruct cs as [|[]].
  - rewrite app_nil_r. f_equal. by destruct cs as [|[]].
Qed.

(** What the caller is given, and what is left when nothing was dropped. *)
Definition answers (polls : Polls) : list Item := (omap id polls).*2.

Lemma story_answers items : forall polls dropped, answers polls = (Some <$> (Ok <$> items)) ++ [None] ->
  (sy_chunks (story polls dropped)).*2 = items /\ sy_outcome (story polls dropped) = "success"%string.
Proof.
  intros polls dropped. revert items. unfold answers.
  induction polls as [|[[t item]|] polls IH]; intros items Ha.
  - by destruct items.
  - simpl in Ha. destruct items as [|c items]; simpl in Ha.
    + by injection Ha as -> _.
    + injection Ha as -> Ha. destruct (IH items Ha) as [H1 H2]. split; [|exact H2]. simpl. f_equal. exact H1.
  - by apply IH.
Qed.

(** The counts and the verdict of an event. *)
Definition event_usage (e : UsageEvent) : Z * Z * Z * Z * option Z * option bool :=
  (ev_tokens_in e, ev_tokens_out e, ev_cache_creation_tokens e, ev_cache_read_tokens e, ev_reasoning_tokens e, ev_reasoning_included e).
Definition usage_counts (u : ParsedUsage) : Z * Z * Z * Z * option Z * option bool :=
  (pu_tokens_in u, pu_tokens_out u, pu_cache_creation u, pu_cache_read u, nonzero (pu_reasoning u), pu_reasoning_included u).

Lemma metered_event_counts base s :
  event_usage (metered_event base s) = usage_counts (default ParsedUsage_default (seen_usage (sy_chunks s).*2)) /\
  ev_usage_completeness (metered_event base s) =
    completeness_for (bool_decide (is_Some (seen_usage (sy_chunks s).*2))) (sy_outcome s).
Proof.
  unfold metered_event, event_usage, usage_counts, reconcile_event_latency. split; [|done].
  repeat (case_match; simpl; try done).
Qed.

(** The pass-through publishes a usage on its terminal item only, so a
    stream that is cut before it is metered with no counts, whatever its
    items had announced as running. *)
Lemma interrupted_passthrough_is_unmeasured base s :
  Forall usage_is_terminal (sy_chunks s).*2 -> Forall (fun c => ck_terminal c = false) (sy_chunks s).*2 ->
  ev_usage_completeness (metered_event base s) = Unavailable /\
  event_usage (metered_event base s) = usage_counts ParsedUsage_default.
Proof.
  intros Hu Ht. destruct (metered_event_counts base s) as [-> ->].
  replace (seen_usage (sy_chunks s).*2) with (@None ParsedUsage); [done|].
  unfold seen_usage. generalize dependent (sy_chunks s).*2. intros cs Hu Ht.
  induction cs as [|c cs IH]; [done|]. apply Forall_cons in Hu as [Hc Hu], Ht as [Hct Ht].
  rewrite omap_cons, (Hc Hct). by apply IH.
Qed.

(** A metered stream emits one event, and the right one.  However a
    caller polls a stream, and wherever it stops, one event is emitted: with
    the usage last seen before the stream was decided (by its first error,
    its end or the caller's departure), the observations made until then,
    the attempts of its last item and the time of its first; it is final
    when a usage was seen and the stream ended cleanly, partial when one was
    seen, and unavailable otherwise.  Over the pass-through of a provider
    read to its end, the counts of the event are those measured on the bytes
    of the whole response. *)
Theorem metered_stream_emits_once base polls dropped sink :
  let e := metered_event base (story polls dropped) in
  stream_life polls dropped (metered_stream base sink) = sink ++ [e] /\
  (forall J `(JsonValue J) (from_str : list Z -> option J) object family chunks,
    let openai := match family with FOpenAiCompat => true | _ => false end in
    answers polls = (Some <$> forward_stream from_str object family (upstream_of chunks None)) ++ [None] ->
    within_budget (concat chunks) ->
    match measured (sniff_for_family from_str object family) openai (concat chunks) with
    | Some u => ev_usage_completeness e = Final /\ event_usage e = usage_counts u
    | None => ev_usage_completeness e = Unavailable /\ event_usage e = usage_counts ParsedUsage_default
    end).
Proof.
  split.
  - unfold metered_stream. rewrite life_story. cbv zeta. rewrite noted_spec. done.
  - intros J HJ from_str object family chunks openai Ha Hw. set (s := story polls dropped).
    destruct (pass_stream_shape (sniff_for_family from_str object family) openai chunks None _ _ pass_ok_new)
      as (items & k & Ho & _).
    pose proof (forward_stream_measures from_str object family chunks items Ho Hw) as Hm. fold openai in Hm.
    change (forward_stream from_str object family (upstream_of chunks None) = items_of items None) in Ho.
    rewrite Ho in Ha. unfold items_of in Ha. rewrite app_nil_r in Ha.
    destruct (story_answers items polls dropped Ha) as [Hc Hout]. fold s in Hc, Hout.
    destruct (metered_event_counts base s) as [Hu Hcomp]. unfold seen_usage in *. rewrite Hc, Hm, ?Hout in *.
    by destruct (measured _ _ _).
Qed.

(** The demonstration stream, read to its end with a pause. *)
Definition demo_base : UsageEvent := event_base "req_1" "t" (metered_new "openai") (MkRequest "m" None (MkAttribution None None None None)).
Definition demo_polls : Polls :=
  [None; Some (5, Some (Ok (MkChunk (bytes "data: {usa") None None (Some ABSENT) 1 false)));
   Some (7, Some (Ok (MkChunk (bytes "ge}" ++ [LF; LF]) None (Some demo_parsed) (Some (MkCacheObs Reported OriginUsage)) 1 false))); None;
   Some (9, Some (Ok (MkChunk (bytes "data: [DONE]" ++ [LF; LF]) (Some demo_parsed) (Some demo_parsed) (Some (MkCacheObs Reported OriginUsage)) 1 true)));
   Some (9, None)].
Lemma metered_stream_emits_once_witness :
  exists e, stream_life demo_polls 12 (metered_stream demo_base []) = [e] /\
    ev_usage_completeness e = Final /\ event_usage e = usage_counts demo_parsed /\ ev_time_to_first_token_ms e = Some 5.
Proof.
  destruct (metered_stream_emits_once demo_base demo_polls 12 []) as [Hl Hm]. eexists. split; [exact Hl|].
  destruct (Hm Json demo_json demo_from_str (fun k v => JObject [(k, v)]) FOpenAiCompat Passthrough.demo_chunks) as [H1 H2].
  - vm_compute. reflexivity.
  - unfold within_budget. set (lines := split_ref _ _ _ _). vm_compute in lines. subst lines.
    repeat (apply Forall_cons_2; [vm_compute; discriminate|]). apply Forall_nil_2.
  - split_and!; [exact H1|exact H2|vm_compute; reflexivity].
Defined.
