(* ===== verification/Inspect.v ===== *)
(** Bounded plaintext inspection ([core/policy.rs]): the strict JSON reader,
    the allowlists of the request formats, the walk over messages, content
    blocks and tool calls, and the views of the text handed to evaluators.
    [serde_json]'s reader is an argument: [parse] gives the tree of a
    document as written, keys repeated as they are, and [is_json] says that
    a document is syntactically valid. *)

From S2P Require Import Prelude Json Text.

Inductive EvaluationError := TheEvaluationError.
Notation inspected A := (result EvaluationError A).
Definition refused {A} : inspected A := Err TheEvaluationError.

Definition str_eq (a b : string) : bool := bool_decide (a = b).
Definition one_of (k : string) (ks : list string) : bool := bool_decide (k ∈ ks).

(** [f64::is_finite]. *)
Definition f64_is_finite (f : spec_float) : bool :=
  match f with S754_zero _ | S754_finite _ _ _ => true | S754_infinity _ | S754_nan => false end.

(** A loop with [?] in its body. *)
Section TryFold.
Context {E A S : Type} (f : S -> A -> result E S).
Fixpoint try_fold (s : S) (l : list A) : result E S :=
  match l with [] => Ok s | a :: l => s ← f s a; try_fold s l end.
End TryFold.

(** [Map::get], then a use of the value found. *)
Section AssocMap.
Context {B : Type} (f : Json -> B) (k : string).
Fixpoint assoc_map (l : list (string * Json)) : option B :=
  match l with [] => None | (k', v) :: l => if bool_decide (k = k') then Some (f v) else assoc_map l end.
End AssocMap.

(** ** Strict reading *)

(** [Map::insert]: the map is ordered by key, and an old value is returned. *)
Fixpoint map_insert (k : string) (v : Json) (m : list (string * Json)) : option Json * list (string * Json) :=
  match m with
  | [] => (None, [(k, v)])
  | (k', v') :: m' =>
      match String.compare k k' with
      | Lt => (None, (k, v) :: m)
      | Eq => (Some v', (k, v) :: m')
      | Gt => let '(old, m') := map_insert k v m' in (old, (k', v') :: m')
      end
  end.

(** The visitor [Unique]: numbers are finite and no key comes twice. *)
Fixpoint unique (d : Json) : inspected Json :=
  match d with
  | JFloat f => if f64_is_finite f then Ok (JFloat f) else refused
  | JArray a => out ← try_fold (fun out v => u ← unique v; Ok (out ++ [u])) [] a; Ok (JArray out)
  | JObject a =>
      out ← try_fold (fun out '(k, v) => u ← unique v;
                      match map_insert k u out with (Some _, _) => refused | (None, out) => Ok out end) [] a;
      Ok (JObject out)
  | d => Ok d
  end.

(** ** The walk *)

Fixpoint collect (value : Json) (out : list string) (depth : Z) : inspected (list string) :=
  if (32 <? depth) || (4096 <? Z.of_nat (length out)) then refused
  else match value with
  | JString v => Ok (out ++ [v])
  | JArray values => try_fold (fun out v => collect v out (depth + 1)) out values
  | JObject values => try_fold (fun out '(key, v) => collect v (out ++ [key]) (depth + 1)) out values
  | _ => Ok out
  end.

(** [.and_then(Value::as_str).ok_or(EvaluationError)?] and
    [as_object().ok_or(EvaluationError)?]. *)
Definition get_str (k : string) (l : list (string * Json)) : inspected string :=
  ok_or (assoc k l ≫= jas_str) TheEvaluationError.
Definition as_object (v : Json) : inspected (list (string * Json)) :=
  match v with JObject l => Ok l | _ => refused end.
(** [parts.push(get(key).as_str()?)]. *)
Definition push_str (k : string) (l : list (string * Json)) (parts : list string) : inspected (list string) :=
  s ← get_str k l; Ok (parts ++ [s]).
(** [for key in keys { if let Some(v) = m.get(key) { collect(v, parts, 0)? } }]. *)
Definition sweep (keys : list string) (l : list (string * Json)) (parts : list string) : inspected (list string) :=
  try_fold (fun parts k => match assoc k l with Some v => collect v parts 0 | None => Ok parts end) parts keys.

Definition keys_are (l : list (string * Json)) (required optional : list string) : bool :=
  forallb (fun k => one_of k l.*1) required
  && forallb (fun k => one_of k required || one_of k optional) l.*1.

Definition is_ascii_alphanumeric (b : Z) : bool :=
  ((48 <=? b) && (b <=? 57)) || ((65 <=? b) && (b <=? 90)) || ((97 <=? b) && (b <=? 122)).
Definition looks_like_base64 (value : string) : bool :=
  negb (str_eq value "")
  && forallb (fun b => is_ascii_alphanumeric b || (b =? 43) || (b =? 47) || (b =? 61) || (b =? 10) || (b =? 13)) (bytes value).

Definition BLOCK_EXTRAS : list string := ["cache_control"; "citations"].

(** The source of an image or a document. *)
Definition inspect_source (source : Json) (parts : list string) : inspected (list string) :=
  source ← as_object source;
  source_kind ← get_str "type" source;
  if str_eq source_kind "url" then
    _ ← bail (negb (keys_are source ["type"; "url"] [])) TheEvaluationError;
    push_str "url" source parts
  else if str_eq source_kind "base64" then
    _ ← bail (negb (keys_are source ["type"; "media_type"; "data"] [])) TheEvaluationError;
    parts ← push_str "media_type" source parts;
    data ← get_str "data" source;
    _ ← bail (negb (looks_like_base64 data)) TheEvaluationError;
    Ok parts
  else if str_eq source_kind "file" then
    _ ← bail (negb (keys_are source ["type"; "file_id"] [])) TheEvaluationError;
    push_str "file_id" source parts
  else refused.

(** One turn of the loop of [inspect_anthropic_blocks]. *)
Fixpoint inspect_block (block : Json) (parts : list string) : inspected (list string) :=
  match block with
  | JObject block =>
      kind ← get_str "type" block;
      if str_eq kind "text" then
        _ ← bail (negb (keys_are block ["type"; "text"] BLOCK_EXTRAS)) TheEvaluationError;
        parts ← push_str "text" block parts;
        sweep BLOCK_EXTRAS block parts
      else if str_eq kind "thinking" then
        _ ← bail (negb (keys_are block ["type"; "thinking"; "signature"] BLOCK_EXTRAS)) TheEvaluationError;
        parts ← push_str "thinking" block parts;
        parts ← push_str "signature" block parts;
        sweep BLOCK_EXTRAS block parts
      else if str_eq kind "redacted_thinking" then
        _ ← bail (negb (keys_are block ["type"; "data"] BLOCK_EXTRAS)) TheEvaluationError;
        parts ← push_str "data" block parts;
        sweep BLOCK_EXTRAS block parts
      else if str_eq kind "tool_use" then
        _ ← bail (negb (keys_are block ["type"; "id"; "name"; "input"] BLOCK_EXTRAS)) TheEvaluationError;
        parts ← push_str "id" block parts;
        parts ← push_str "name" block parts;
        input ← ok_or (assoc "input" block) TheEvaluationError;
        parts ← collect input parts 0;
        sweep BLOCK_EXTRAS block parts
      else if str_eq kind "tool_result" then
        _ ← bail (negb (keys_are block ["type"; "tool_use_id"] ["content"; "is_error"; "cache_control"; "citations"]))
              TheEvaluationError;
        parts ← push_str "tool_use_id" block parts;
        parts ← match assoc_map (fun content => match content with
                     | JString s => Ok (parts ++ [s])
                     | JNull => Ok parts
                     | JArray blocks => try_fold (fun parts b => inspect_block b parts) parts blocks
                     | _ => refused
                     end) "content" block with
                | Some r => r
                | None => Ok parts
                end;
        _ ← match assoc "is_error" block with
            | Some is_error => bail (negb (bool_decide (is_Some (jas_bool is_error)))) TheEvaluationError
            | None => Ok tt
            end;
        sweep BLOCK_EXTRAS block parts
      else if str_eq kind "image" || str_eq kind "document" then
        _ ← bail (negb (keys_are block ["type"; "source"] BLOCK_EXTRAS)) TheEvaluationError;
        source ← ok_or (assoc "source" block) TheEvaluationError;
        parts ← inspect_source source parts;
        sweep BLOCK_EXTRAS block parts
      else refused
  | _ => refused
  end.
Definition inspect_anthropic_blocks (blocks : list Json) (parts : list string) : inspected (list string) :=
  try_fold (fun parts b => inspect_block b parts) parts blocks.

Definition inspect_anthropic_message (m : list (string * Json)) (parts : list string) : inspected (list string) :=
  _ ← bail (existsb (fun k => negb (one_of k ["role"; "content"])) m.*1) TheEvaluationError;
  match assoc "content" m with
  | Some (JString s) => Ok (parts ++ [s])
  | Some JNull | None => Ok parts
  | Some (JArray blocks) => inspect_anthropic_blocks blocks parts
  | _ => refused
  end.

(** ** Escapes

    [unescape_json_text] on the bytes of the text: the escapes are ASCII and
    every other character is copied. *)

Definition hex_value (b : Z) : option Z :=
  if (48 <=? b) && (b <=? 57) then Some (b - 48)
  else if (65 <=? b) && (b <=? 70) then Some (b - 55)
  else if (97 <=? b) && (b <=? 102) then Some (b - 87)
  else None.
Definition hex4 (a b c d : Z) : option Z :=
  a ← hex_value a; b ← hex_value b; c ← hex_value c; d ← hex_value d;
  Some (((a * 16 + b) * 16 + c) * 16 + d).

(** [String::push] of a character. *)
Definition push_char (c : Z) : list Z :=
  if c <? 128 then [c]
  else if c <? 2048 then [192 + c / 64; 128 + c mod 64]
  else if c <? 65536 then [224 + c / 4096; 128 + (c / 64) mod 64; 128 + c mod 64]
  else [240 + c / 262144; 128 + (c / 4096) mod 64; 128 + (c / 64) mod 64; 128 + c mod 64].
Definition REPLACEMENT : Z := 65533.
(** [char::from_u32(code).unwrap_or('\u{FFFD}')]. *)
Definition char_or_replacement (c : Z) : Z :=
  if (55296 <=? c) && (c <? 57344) || (1114111 <? c) then REPLACEMENT else c.

Definition short_escape (e : Z) : option Z :=
  if (e =? 34) || (e =? 92) || (e =? 47) then Some e
  else if e =? 98 then Some 8
  else if e =? 102 then Some 12
  else if e =? 110 then Some 10
  else if e =? 114 then Some 13
  else if e =? 116 then Some 9
  else None.

(** One turn of the loop; [go] is the rest of it. *)
Definition unescape_turn (go : list Z -> list Z) (s : list Z) : list Z :=
  match s with
  | [] => []
  | c :: r =>
      if negb (c =? 92) then c :: go r
      else match r with
      | [] => [92]
      | e :: r1 =>
          match short_escape e with
          | Some x => x :: go r1
          | None =>
              if negb (e =? 117) then 92 :: go r
              else match r1 with
              | h1 :: h2 :: h3 :: h4 :: r2 =>
                  match hex4 h1 h2 h3 h4 with
                  | None => 92 :: go r
                  | Some high =>
                      if negb ((55296 <=? high) && (high <? 56320)) then
                        push_char (char_or_replacement high) ++ go r2
                      else match r2 with
                      | b :: u :: l1 :: l2 :: l3 :: l4 :: r3 =>
                          match (if (b =? 92) && (u =? 117) then hex4 l1 l2 l3 l4 else None) with
                          | Some low =>
                              if (56320 <=? low) && (low <? 57344) then
                                push_char (char_or_replacement (65536 + Z.shiftl (high - 55296) 10 + (low - 56320)))
                                ++ go r3
                              else push_char REPLACEMENT ++ go r2
                          | None => push_char REPLACEMENT ++ go r2
                          end
                      | _ => push_char REPLACEMENT ++ go r2
                      end
                  end
              | _ => 92 :: go r
              end
          end
      end
  end.
Fixpoint unescape_bytes (s : list Z) : list Z := unescape_turn unescape_bytes s.
Definition unescape_json_text (text : string) : string := string_of (unescape_bytes (bytes text)).

(** ** Requests *)

Inductive InputFormat := Chat | Messages | Embeddings | Completions.
#[export] Instance InputFormat_eq_dec : EqDecision InputFormat.
Proof. solve_decision. Defined.

Definition FIELDS : list string :=
  ["model"; "messages"; "stream"; "stream_options"; "max_tokens"; "max_completion_tokens"; "temperature"; "top_p";
   "tools"; "tool_choice"; "parallel_tool_calls"; "response_format"; "stop"; "seed"; "presence_penalty";
   "frequency_penalty"; "logit_bias"; "user"; "n"; "service_tier"; "reasoning_effort"; "sandhi_extensions"].
Definition format_fields (format : InputFormat) : list string :=
  match format with
  | Chat => FIELDS
  | Messages =>
      ["model"; "messages"; "system"; "max_tokens"; "stream"; "temperature"; "top_p"; "top_k"; "stop_sequences";
       "tools"; "tool_choice"; "metadata"; "thinking"; "service_tier"; "betas"; "mcp_servers"; "context_management";
       "sandhi_extensions"]
  | Embeddings => ["model"; "input"; "encoding_format"; "dimensions"; "user"; "sandhi_extensions"]
  | Completions =>
      ["model"; "prompt"; "suffix"; "max_tokens"; "temperature"; "top_p"; "n"; "stream"; "stream_options"; "logprobs";
       "echo"; "stop"; "presence_penalty"; "frequency_penalty"; "best_of"; "logit_bias"; "user"; "seed";
       "sandhi_extensions"]
  end.
Definition text_field (format : InputFormat) : string :=
  match format with Chat | Messages => "messages" | Embeddings => "input" | Completions => "prompt" end.

Record Inspection := MkInspection {
  in_text : string; in_joined : string; in_body_bytes : Z; in_max_output_tokens : option Z }.

(** The top-level system prompt of an Anthropic request. *)
Definition inspect_system (object : list (string * Json)) (parts : list string) : inspected (list string) :=
  match assoc "system" object with
  | None => Ok parts
  | Some (JString text) => Ok (parts ++ [text])
  | Some (JArray blocks) =>
      try_fold (fun parts block =>
        block ← as_object block;
        _ ← bail (negb (keys_are block ["type"; "text"] ["cache_control"])) TheEvaluationError;
        _ ← bail (negb (bool_decide ((assoc "type" block ≫= jas_str) = Some "text"))) TheEvaluationError;
        parts ← push_str "text" block parts;
        sweep ["cache_control"] block parts) parts blocks
  | Some _ => refused
  end.

(** The inputs of an embedding or completion request. *)
Definition inspect_inputs (v : option Json) (parts : list string) : inspected (list string) :=
  match v with
  | Some (JString text) => Ok (parts ++ [text])
  | Some (JArray texts) =>
      if (0 <? Z.of_nat (length texts)) && (Z.of_nat (length texts) <=? 2048)
      then try_fold (fun parts text => t ← ok_or (jas_str text) TheEvaluationError; Ok (parts ++ [t])) parts texts
      else refused
  | _ => refused
  end.

Definition CHAT_MESSAGE_KEYS : list string :=
  ["role"; "content"; "name"; "tool_calls"; "tool_call_id"; "function_call"; "refusal"].

(** The content of a chat message. *)
Definition inspect_chat_content (content : option Json) (parts : list string) : inspected (list string) :=
  match content with
  | Some (JString s) => Ok (parts ++ [s])
  | Some JNull | None => Ok parts
  | Some (JArray items) =>
      try_fold (fun parts item =>
        item ← as_object item;
        _ ← bail (negb (Z.of_nat (length item) =? 2)
                  || negb (bool_decide ((assoc "type" item ≫= jas_str) = Some "text"))) TheEvaluationError;
        push_str "text" item parts) parts items
  | Some _ => refused
  end.

Section Requests.
Context (parse : list Z -> option Json) (is_json : list Z -> bool).

Definition strict_json (bytes : list Z) : inspected Json :=
  d ← ok_or (parse bytes) TheEvaluationError; unique d.

Definition inspect_arguments (value : Json) (parts : list string) : inspected (list string) :=
  args ← ok_or (jget value "arguments" ≫= jas_str) TheEvaluationError;
  match strict_json (bytes args) with
  | Ok decoded => collect decoded parts 0
  | Err error =>
      if is_json (bytes args) then Err error
      else if 4096 <? Z.of_nat (length parts) then refused
      else let unescaped := unescape_json_text args in
           Ok (if str_eq unescaped args then parts else parts ++ [unescaped])
  end.

Definition inspect_calls (calls : Json) (parts : list string) : inspected (list string) :=
  calls ← ok_or (jas_array calls) TheEvaluationError;
  try_fold (fun parts call =>
    _ ← bail (negb (bool_decide ((jget call "type" ≫= jas_str) = Some "function"))) TheEvaluationError;
    f ← ok_or (jget call "function") TheEvaluationError;
    inspect_arguments f parts) parts calls.

Definition inspect_chat_message (m : list (string * Json)) (parts : list string) : inspected (list string) :=
  _ ← bail (existsb (fun k => negb (one_of k CHAT_MESSAGE_KEYS)) m.*1) TheEvaluationError;
  parts ← inspect_chat_content (assoc "content" m) parts;
  parts ← match assoc "tool_calls" m with Some calls => inspect_calls calls parts | None => Ok parts end;
  parts ← match assoc "function_call" m with Some call => inspect_arguments call parts | None => Ok parts end;
  sweep ["name"; "tool_calls"; "tool_call_id"; "function_call"; "refusal"] m parts.

(** The part before the messages, and the messages themselves. *)
Definition inspect_front (format : InputFormat) (object : list (string * Json))
    : inspected (list Json * list string) :=
  match format with
  | Chat | Messages =>
      parts ← (if bool_decide (format = Messages) then inspect_system object [] else Ok []);
      messages ← ok_or (assoc "messages" object ≫= jas_array) TheEvaluationError;
      Ok (messages, parts)
  | _ => parts ← inspect_inputs (assoc (text_field format) object) []; Ok ([], parts)
  end.

Definition inspect_messages (format : InputFormat) (messages : list Json) (parts : list string)
    : inspected (list string) :=
  try_fold (fun parts message =>
    m ← as_object message;
    if bool_decide (format = Messages) then inspect_anthropic_message m parts
    else inspect_chat_message m parts) parts messages.

Definition inspect_extras (format : InputFormat) (object : list (string * Json)) (parts : list string)
    : inspected (list string) :=
  try_fold (fun parts '(key, value) =>
    if negb (str_eq key (text_field format)) && negb (str_eq key "model")
       && negb (bool_decide (format = Messages) && str_eq key "system")
    then collect value parts 0 else Ok parts) parts object.

Definition max_output_tokens (object : list (string * Json)) : inspected (option Z) :=
  match assoc "max_tokens" object, assoc "max_completion_tokens" object with
  | Some _, Some _ => refused
  | Some v, None | None, Some v => n ← ok_or (jas_u64 v) TheEvaluationError; Ok (Some n)
  | None, None => Ok None
  end.

Definition NEWLINE : string := String (ascii_of_nat 10) "".

Definition inspect_format (body : list Z) (format : InputFormat) : inspected Inspection :=
  value ← strict_json body;
  object ← as_object value;
  _ ← bail (existsb (fun k => negb (one_of k (format_fields format))) object.*1) TheEvaluationError;
  '(messages, parts) ← inspect_front format object;
  parts ← inspect_messages format messages parts;
  parts ← inspect_extras format object parts;
  tokens ← max_output_tokens object;
  Ok (MkInspection (String.concat NEWLINE parts) (String.concat "" parts) (Z.of_nat (length body)) tokens).
End Requests.
