(* ===== verification/InspectProps.v ===== *)
(** Properties of the inspection: a document that is read strictly has no
    repeated key, and every text of an accepted request reaches the
    evaluators, in the clear and with the escapes of tool arguments undone. *)

From S2P Require Import Prelude Json Text Inspect.

(** ** Induction on JSON values *)

Section JsonInd.
Context (P : Json -> Prop).
Context (Hnull : P JNull) (Hbool : forall b, P (JBool b)) (Hnum : forall z, P (JNumber z)).
Context (Hfloat : forall f, P (JFloat f)) (Hstr : forall s, P (JString s)).
Context (Harr : forall l, Forall P l -> P (JArray l)).
Context (Hobj : forall l, Forall (fun kv => P kv.2) l -> P (JObject l)).
Fixpoint json_tree_ind (v : Json) : P v :=
  match v with
  | JNull => Hnull | JBool b => Hbool b | JNumber z => Hnum z | JFloat f => Hfloat f | JString s => Hstr s
  | JArray l => Harr l ((fix go l : Forall P l :=
      match l with [] => Forall_nil_2 P | v :: l => Forall_cons_2 P v l (json_tree_ind v) (go l) end) l)
  | JObject l => Hobj l ((fix go l : Forall (fun kv => P kv.2) l :=
      match l with
      | [] => Forall_nil_2 _
      | kv :: l => Forall_cons_2 (fun kv => P kv.2) kv l (json_tree_ind kv.2) (go l)
      end) l)
  end.
End JsonInd.

(** All texts of a value, keys included. *)
Fixpoint texts (v : Json) : list string :=
  match v with
  | JString s => [s]
  | JArray l => l ≫= texts
  | JObject l => l ≫= (fun '(k, v) => k :: texts v)
  | _ => []
  end.

(** No object of the value repeats a key. *)
Inductive keys_distinct : Json -> Prop :=
| kd_null : keys_distinct JNull
| kd_bool b : keys_distinct (JBool b)
| kd_number z : keys_distinct (JNumber z)
| kd_float f : keys_distinct (JFloat f)
| kd_string s : keys_distinct (JString s)
| kd_array l : Forall keys_distinct l -> keys_distinct (JArray l)
| kd_object l : NoDup l.*1 -> Forall (fun kv => keys_distinct kv.2) l -> keys_distinct (JObject l).

Lemma kd_object_inv l : keys_distinct (JObject l) -> NoDup l.*1 /\ Forall (fun kv => keys_distinct kv.2) l.
Proof. by inversion 1. Qed.
Lemma kd_array_inv l : keys_distinct (JArray l) -> Forall keys_distinct l.
Proof. by inversion 1. Qed.

(** ** Strict reading *)

(** The order of the keys of a map. *)
Definition str_lt (a b : string) : Prop := String.compare a b = Lt.

Lemma str_compare_refl a : String.compare a a = Eq.
Proof. pose proof (String.compare_antisym a a) as H. destruct (String.compare a a); done. Qed.
Lemma str_lt_le a b : str_lt a b <-> String.le a b /\ a <> b.
Proof.
  unfold str_lt, String.le, String.leb. split.
  - intros H. rewrite H. split; [done|]. intros ->. by rewrite str_compare_refl in H.
  - intros [H Hne]. destruct (String.compare a b) eqn:Hc; [|done..]. by apply String.compare_eq_iff in Hc.
Qed.
#[export] Instance str_lt_trans : Transitive str_lt.
Proof.
  intros a b c [Hab Hn]%str_lt_le [Hbc Hn']%str_lt_le. apply str_lt_le. split; [by etrans|].
  intros ->. apply Hn. by apply (anti_symm String.le).
Qed.

Lemma sorted_keys_nodup l : StronglySorted str_lt l -> NoDup l.
Proof.
  induction 1 as [|k l _ IH Hk]; constructor; [|done]. intros Hin.
  rewrite Forall_forall in Hk. apply Hk, str_lt_le in Hin. naive_solver.
Qed.

Lemma map_insert_keys k v m x :
  x ∈ (map_insert k v m).2.*1 <-> x = k \/ x ∈ m.*1.
Proof.
  induction m as [|[k' v'] m IH]; simpl; [set_solver|].
  destruct (String.compare k k') eqn:Hc; simpl; [|set_solver|].
  - apply String.compare_eq_iff in Hc as ->. set_solver.
  - destruct (map_insert k v m) as [o m']. simpl in *. set_solver.
Qed.

Lemma map_insert_sorted k v m :
  StronglySorted str_lt m.*1 -> StronglySorted str_lt (map_insert k v m).2.*1.
Proof.
  induction m as [|[k' v'] m IH]; simpl; intros Hs; [repeat constructor|].
  inversion Hs as [|? ? Hs' Hk]; subst.
  destruct (String.compare k k') eqn:Hc; simpl.
  - apply String.compare_eq_iff in Hc as ->. done.
  - constructor; [done|]. constructor; [done|]. eapply Forall_impl; [exact Hk|]. intros y. by transitivity k'.
  - destruct (map_insert k v m) as [o m'] eqn:Hm. simpl. constructor; [by apply IH|].
    apply Forall_forall. intros y Hy. rewrite Forall_forall in Hk.
    pose proof (map_insert_keys k v m y) as Hmem. rewrite Hm in Hmem. apply Hmem in Hy as [->|Hy]; [|auto].
    unfold str_lt. rewrite String.compare_antisym, Hc. done.
Qed.

Lemma map_insert_values (Q : string * Json -> Prop) k v m :
  Q (k, v) -> Forall Q m -> Forall Q (map_insert k v m).2.
Proof.
  intros Hq. induction 1 as [|[k' v'] m Hk Hm IH]; simpl; [by constructor|].
  destruct (String.compare k k'); simpl; [by constructor|by repeat constructor|].
  destruct (map_insert k v m) as [o m']. by constructor.
Qed.

Lemma try_fold_inv {E A S} (f : S -> A -> result E S) (I : S -> Prop) l : forall s s',
  (forall s a s', a ∈ l -> I s -> f s a = Ok s' -> I s') -> I s -> try_fold f s l = Ok s' -> I s'.
Proof.
  induction l as [|a l IH]; intros s s' Hstep Hi Hf; cbn [try_fold] in Hf; inv_ok; [done|].
  eapply IH; [|eapply Hstep; [left| |]; eauto|eassumption]. intros ? b ? Hb. apply Hstep. by right.
Qed.

Lemma unique_distinct d : forall v, unique d = Ok v -> keys_distinct v.
Proof.
  induction d as [| | | | |l IH|l IH] using json_tree_ind; intros v Hu; cbn [unique] in Hu;
    repeat case_match; unfold refused in *; inv_ok; constructor.
  - rewrite Forall_forall in IH.
    refine (try_fold_inv _ (Forall keys_distinct) _ _ _ _ _ H); [|done].
    intros s a s' Ha Hs Hf. inv_ok. apply Forall_app. split; [done|]. constructor; [by eapply IH|done].
  - apply sorted_keys_nodup.
    refine (try_fold_inv _ (fun m => StronglySorted str_lt m.*1) _ _ _ _ _ H); [|constructor].
    intros s [k a] s' Ha Hs Hf. inv_ok. pose proof (map_insert_sorted k x0 s Hs) as Hm.
    destruct (map_insert k x0 s) as [[?|] m]; [done|]. by inv_ok.
  - rewrite Forall_forall in IH.
    refine (try_fold_inv _ (Forall (fun kv => keys_distinct kv.2)) _ _ _ _ _ H); [|done].
    intros s [k a] s' Ha Hs Hf. inv_ok.
    pose proof (map_insert_values (fun kv => keys_distinct kv.2) k x0 s) as Hm. simpl in Hm.
    destruct (map_insert k x0 s) as [[?|] m]; [done|]. inv_ok. apply Hm; [|done]. by eapply (IH (k, a)).
Qed.

(** ** Coverage *)

(** The parts grew, and hold the texts [need]. *)
Definition covers (need parts parts' : list string) : Prop := parts ⊆ parts' /\ need ⊆ parts'.

Lemma covers_nil p : covers [] p p.
Proof. split; set_solver. Qed.
Lemma covers_app n1 n2 p p1 p2 : covers n1 p p1 -> covers n2 p1 p2 -> covers (n1 ++ n2) p p2.
Proof. intros [??] [??]. split; set_solver. Qed.
Lemma covers_weaken n n' p p' : covers n p p' -> n' ⊆ n -> covers n' p p'.
Proof. intros [??] ?. split; set_solver. Qed.
Lemma covers_push s p : covers [s] p (p ++ [s]).
Proof. split; set_solver. Qed.

Lemma covers_fold {A} (f : list string -> A -> inspected (list string)) (need : A -> list string) l : forall p p',
  (forall p a p', a ∈ l -> f p a = Ok p' -> covers (need a) p p') ->
  try_fold f p l = Ok p' -> covers (l ≫= need) p p'.
Proof.
  induction l as [|a l IH]; intros p p' Hstep Hf; cbn [try_fold] in Hf; inv_ok; [apply covers_nil|].
  rewrite bind_cons. eapply covers_app; [eapply Hstep; [left|eassumption]|].
  apply IH; [|done]. intros ? b ? Hb. apply Hstep. by right.
Qed.

(** [collect] adds the texts of the value, in order, and nothing else. *)
Lemma collect_exact v : forall out out' depth, collect v out depth = Ok out' -> out' = out ++ texts v.
Proof.
  induction v as [| | | | |l IH|l IH] using json_tree_ind; intros out out' depth Hc; cbn [collect] in Hc;
    destruct (_ || _); try done; inv_ok; cbn [texts]; rewrite ?app_nil_r; try done.
  - revert out Hc. induction IH as [|v l Hv _ IHl]; intros out Hc; cbn [try_fold] in Hc; inv_ok;
      [by rewrite app_nil_r|]. rewrite bind_cons, (IHl _ Hc), (Hv _ _ _ H), <- app_assoc. done.
  - revert out Hc. induction IH as [|[k v] l Hv _ IHl]; intros out Hc; cbn [try_fold] in Hc; inv_ok;
      [by rewrite app_nil_r|]. rewrite bind_cons, (IHl _ Hc), (Hv _ _ _ H), <- !app_assoc. done.
Qed.

Lemma collect_covers v p p' d : collect v p d = Ok p' -> covers (texts v) p p'.
Proof. intros ->%collect_exact. split; set_solver. Qed.

Lemma push_str_covers k l p p' : push_str k l p = Ok p' ->
  exists s, assoc k l = Some (JString s) /\ covers [s] p p'.
Proof.
  unfold push_str, get_str. intros H. inv_ok. destruct (assoc k l) as [[]|]; try done. simpl in *. inv_ok.
  eexists. split; [done|apply covers_push].
Qed.

(** The value of [k], or nothing. *)
Definition texts_at (l : list (string * Json)) (k : string) : list string :=
  match assoc k l with Some v => texts v | None => [] end.

Lemma sweep_covers ks l p p' : sweep ks l p = Ok p' -> covers (ks ≫= texts_at l) p p'.
Proof.
  apply covers_fold. intros q k q' _. unfold texts_at.
  destruct (assoc k l); [apply collect_covers|]. intros [= <-]. apply covers_nil.
Qed.

Lemma push_texts_covers k l p p' : push_str k l p = Ok p' -> covers (texts_at l k) p p'.
Proof. intros (s & Hs & Hc)%push_str_covers. unfold texts_at. by rewrite Hs. Qed.

Lemma assoc_elem l k v : NoDup l.*1 -> (k, v) ∈ l -> assoc k l = Some v.
Proof.
  induction l as [|[k' v'] l IH]; simpl; [set_solver|]. intros [Hk Hn]%NoDup_cons [Heq|Hin]%elem_of_cons.
  - simplify_eq. by rewrite bool_decide_eq_true_2.
  - rewrite bool_decide_eq_false_2; [by apply IH|]. intros ->. apply Hk. by apply (list_elem_of_fmap_2 fst) in Hin.
Qed.
Lemma assoc_in l k v : assoc k l = Some v -> (k, v) ∈ l.
Proof.
  induction l as [|[k' v'] l IH]; simpl; [done|]. case_bool_decide; [intros [= ->]; subst; by left|].
  intros. right. by apply IH.
Qed.
Lemma assoc_map_assoc {B} (f : Json -> B) k l : assoc_map f k l = f <$> assoc k l.
Proof. induction l as [|[k' v] l IH]; simpl; [done|]. by case_bool_decide. Qed.

Lemma keys_are_in l r o k v : keys_are l r o = true -> (k, v) ∈ l -> k ∈ r ++ o.
Proof.
  unfold keys_are, one_of. intros [_ Hk]%andb_true_iff Hin. rewrite forallb_forall in Hk.
  assert (Hi : In k l.*1). { apply list_elem_of_In. by apply (list_elem_of_fmap_2 fst) in Hin. }
  apply Hk in Hi. rewrite orb_true_iff, !bool_decide_eq_true in Hi. set_solver.
Qed.

(** The texts a request carries, position by position.  Left out are the
    names of the fields of messages and blocks, their [type] tags, the roles
    of messages, the model, and the data of a [base64] source. *)
Definition source_texts (v : Json) : list string :=
  match v with
  | JObject l => l ≫= (fun '(k, v) =>
      if str_eq k "type" || (str_eq k "data" && bool_decide ((assoc "type" l ≫= jas_str) = Some "base64"))
      then [] else texts v)
  | _ => texts v
  end.

Fixpoint block_texts (b : Json) : list string :=
  match b with
  | JObject l => l ≫= (fun '(k, v) =>
      if str_eq k "type" then []
      else if str_eq k "content" then match v with JArray bs => bs ≫= block_texts | _ => texts v end
      else if str_eq k "source" then source_texts v
      else texts v)
  | _ => texts b
  end.

Definition content_texts (v : Json) : list string :=
  match v with JArray bs => bs ≫= block_texts | _ => texts v end.
Definition block_entry (k : string) (v : Json) : list string :=
  if str_eq k "type" then []
  else if str_eq k "content" then content_texts v
  else if str_eq k "source" then source_texts v
  else texts v.

Definition message_texts (m : Json) : list string :=
  match m with
  | JObject l => l ≫= (fun '(k, v) =>
      if str_eq k "role" then [] else if str_eq k "content" then content_texts v else texts v)
  | _ => texts m
  end.

Definition body_entry (format : InputFormat) (k : string) (v : Json) : list string :=
  if str_eq k "model" then []
  else match format with
  | Chat => if str_eq k "messages" then match v with JArray ms => ms ≫= message_texts | _ => texts v end else texts v
  | Messages =>
      if str_eq k "messages" then match v with JArray ms => ms ≫= message_texts | _ => texts v end
      else if str_eq k "system" then content_texts v
      else texts v
  | _ => texts v
  end.
Definition body_texts (format : InputFormat) (object : list (string * Json)) : list string :=
  object ≫= (fun '(k, v) => body_entry format k v).

Lemma block_texts_object l : block_texts (JObject l) = l ≫= (fun '(k, v) => block_entry k v).
Proof. done. Qed.

(** What a key of an object contributes. *)
Definition entry_at (entry : string -> Json -> list string) (l : list (string * Json)) (k : string) : list string :=
  match assoc k l with Some v => entry k v | None => [] end.

Lemma entries_cover entry l ks p p' :
  NoDup l.*1 -> (forall k v, (k, v) ∈ l -> k ∈ ks) -> p ⊆ p' ->
  Forall (fun k => entry_at entry l k ⊆ p') ks -> covers (l ≫= (fun '(k, v) => entry k v)) p p'.
Proof.
  intros Hn Hk Hp He. split; [done|]. intros s ([k v] & Hs & Hin)%list_elem_of_bind.
  rewrite Forall_forall in He. specialize (He k (Hk _ _ Hin)). unfold entry_at in He.
  rewrite (assoc_elem _ _ _ Hn Hin) in He. by apply He.
Qed.

Lemma object_covers l r o p p' :
  NoDup l.*1 -> keys_are l r o = true -> p ⊆ p' ->
  Forall (fun k => entry_at block_entry l k ⊆ p') (r ++ o) -> covers (block_texts (JObject l)) p p'.
Proof. intros Hn Hk. apply (entries_cover block_entry); [done|]. intros k v. by apply keys_are_in. Qed.

Lemma entry_type l p : entry_at block_entry l "type" ⊆ p.
Proof. unfold entry_at. destruct (assoc _ _); simpl; set_solver. Qed.

Lemma bools_keys {l r o} : negb (keys_are l r o) = false -> keys_are l r o = true.
Proof. apply negb_false_iff. Qed.

Lemma app_covered (a b p : list string) : a ++ b ⊆ p -> a ⊆ p /\ b ⊆ p.
Proof. set_solver. Qed.

(** A chain of inclusions. *)
Ltac chain :=
  match goal with |- ?a ⊆ ?b =>
    first [exact (reflexivity a) | assumption
          | match goal with H : a ⊆ ?m |- _ => transitivity m; [exact H|]; clear H; chain end]
  end.

(** Gather what the calls have covered, and look each key up in it. *)
Ltac gather :=
  repeat match goal with
  | H : bail _ _ = Ok _ |- _ => apply bail_ok in H
  | H : negb (keys_are _ _ _) = false |- _ => apply bools_keys in H
  | H : push_str _ _ _ = Ok _ |- _ => apply push_texts_covers in H as [? ?]
  | H : sweep _ _ _ = Ok _ |- _ => apply sweep_covers in H as [? H]; unfold BLOCK_EXTRAS in H
  | H : (_ :: _) ≫= _ ⊆ _ |- _ => rewrite bind_cons in H; apply app_covered in H as [? H]
  | H : collect _ _ _ = Ok _ |- _ => apply collect_covers in H as [? ?]
  end.
Ltac entries :=
  repeat first [apply Forall_cons; split | apply Forall_nil; exact I];
  first [apply entry_type | match goal with |- entry_at _ ?l ?k ⊆ ?p =>
    first [change (texts_at l k ⊆ p); chain | idtac] end].
(** The keys of the block are the ones covered. *)
Ltac by_keys :=
  match goal with Hk : keys_are ?l _ _ = true |- covers _ ?p ?q =>
    apply (object_covers l _ _ p q ltac:(assumption) Hk); [chain|entries] end.

Definition source_entry (l : list (string * Json)) (k : string) (v : Json) : list string :=
  if str_eq k "type" || (str_eq k "data" && bool_decide ((assoc "type" l ≫= jas_str) = Some "base64"))
  then [] else texts v.

Lemma inspect_source_covers v p p' :
  keys_distinct v -> inspect_source v p = Ok p' -> covers (source_texts v) p p'.
Proof.
  intros Hd Hi. unfold inspect_source in Hi. destruct v as [| | | | | |l]; try done. cbn [as_object] in Hi.
  apply result_bind_ok in Hi as (? & [= <-] & Hi). apply result_bind_ok in Hi as (kind & Hkind & Hi).
  apply kd_object_inv in Hd as [Hn _]. cbn [source_texts].
  assert (Hty : forall q, entry_at (source_entry l) l "type" ⊆ q).
  { intros q. unfold entry_at. destruct (assoc _ _); simpl; set_solver. }
  assert (Hplain : forall k q, str_eq k "type" = false -> str_eq k "data" = false ->
            texts_at l k ⊆ q -> entry_at (source_entry l) l k ⊆ q).
  { intros k q H1 H2. unfold entry_at, texts_at, source_entry. rewrite H1, H2. done. }
  unfold get_str in Hkind. inv_ok.
  destruct (str_eq _ "url"); [|destruct (str_eq kind "base64") eqn:Eb; [|destruct (str_eq kind "file"); [|done]]];
    inv_ok; gather;
    (apply (entries_cover (source_entry l) l _ p p' Hn (fun k v => keys_are_in l _ _ k v ltac:(eassumption)));
      [chain|]); cbn [app]; repeat (apply Forall_cons; split); try apply Forall_nil; try done; try apply Hty;
    try (apply Hplain; [done|done|chain]).
  unfold entry_at. destruct (assoc "data" l); [|set_solver]. unfold source_entry. rewrite Hkind.
  apply bool_decide_eq_true in Eb as ->. rewrite bool_decide_eq_true_2 by done. simpl. set_solver.
Qed.

Definition blocks_covered (v : Json) : Prop := forall bs, v = JArray bs -> forall p p',
  try_fold (fun parts b => inspect_block b parts) p bs = Ok p' -> covers (bs ≫= block_texts) p p'.

Lemma inspect_block_covers v : keys_distinct v ->
  (forall p p', inspect_block v p = Ok p' -> covers (block_texts v) p p') /\ blocks_covered v.
Proof.
  induction v as [| | | | |l IH|l IH] using json_tree_ind; intros Hd; (split; [intros p p' Hi|try by intros ? ?]);
    try (cbn in Hi; done).
  - intros bs [= <-] p p'. apply covers_fold. intros q b q' Hb Hq. apply kd_array_inv in Hd.
    rewrite Forall_forall in IH, Hd. by apply (IH b Hb (Hd b Hb)).
  - apply kd_object_inv in Hd as [Hn Hd]. cbn [inspect_block] in Hi. inv_ok.
    destruct (str_eq x "text"); [inv_ok; gather; by_keys|].
    destruct (str_eq x "thinking"); [inv_ok; gather; by_keys|].
    destruct (str_eq x "redacted_thinking"); [inv_ok; gather; by_keys|].
    destruct (str_eq x "tool_use").
    { inv_ok. gather. by_keys.
      unfold entry_at. match goal with H : assoc "input" l = Some ?j |- _ => rewrite H; change (texts j ⊆ p'); chain end. }
    destruct (str_eq x "tool_result").
    { inv_ok. rewrite assoc_map_assoc in *.
      assert (Hc : covers (entry_at block_entry l "content") x1 x2).
      { unfold entry_at. destruct (assoc "content" l) as [c|] eqn:Ec; simpl in *; [|inv_ok; apply covers_nil].
        change (block_entry "content" c) with (content_texts c).
        apply assoc_in in Ec. rewrite Forall_forall in IH, Hd. specialize (IH _ Ec (Hd _ Ec)) as [_ Hbs].
        destruct c; try done; inv_ok; [apply covers_nil|apply covers_push|by apply Hbs]. }
      assert (He : entry_at block_entry l "is_error" ⊆ p').
      { unfold entry_at. destruct (assoc "is_error" l) as [e|]; [|set_solver]. inv_ok. bools.
        apply bool_decide_eq_true in H3. destruct e; try (by destruct H3). change ([] ⊆ p'). set_solver. }
      destruct Hc. gather. by_keys; chain. }
    destruct (_ || _); [|done]. inv_ok.
    assert (Hc : covers (entry_at block_entry l "source") p x2).
    { unfold entry_at. match goal with H : assoc "source" l = Some ?s |- _ => rewrite H; rename H into Hs end.
      apply assoc_in in Hs. rewrite Forall_forall in Hd. apply inspect_source_covers; [|done]. by apply (Hd _ Hs). }
    destruct Hc. gather. by_keys; chain.
Qed.

Lemma blocks_cover bs p p' : Forall keys_distinct bs ->
  inspect_anthropic_blocks bs p = Ok p' -> covers (bs ≫= block_texts) p p'.
Proof. intros Hd. by apply (inspect_block_covers (JArray bs)); [constructor|]. Qed.

Lemma system_covers object p p' :
  Forall (fun kv => keys_distinct kv.2) object -> inspect_system object p = Ok p' ->
  covers (entry_at (body_entry Messages) object "system") p p'.
Proof.
  intros Hd. unfold inspect_system, entry_at. destruct (assoc "system" object) as [v|] eqn:Hv;
    [|intros [= <-]; apply covers_nil].
  change (body_entry Messages "system" v) with (content_texts v).
  apply assoc_in in Hv. rewrite Forall_forall in Hd. specialize (Hd _ Hv). simpl in Hd.
  destruct v as [| | | |s|bs|]; try done; [intros [= <-]; apply covers_push|].
  apply kd_array_inv in Hd. rewrite Forall_forall in Hd. apply covers_fold. intros q b q' Hb Hq.
  specialize (Hd b Hb). destruct b as [| | | | | |l]; try done. cbn [as_object] in Hq.
  apply result_bind_ok in Hq as (? & [= <-] & Hq). apply kd_object_inv in Hd as [Hn _]. inv_ok. gather. by_keys.
Qed.

Lemma two_keys (l : list (string * Json)) a b : NoDup l.*1 -> length l = 2%nat -> a <> b -> a ∈ l.*1 -> b ∈ l.*1 ->
  forall k v, (k, v) ∈ l -> k = a \/ k = b.
Proof.
  destruct l as [|[k1 v1] [|[k2 v2] [|? l]]]; try done. simpl. set_unfold. naive_solver.
Qed.

Lemma assoc_key k l v : assoc k l = Some v -> k ∈ l.*1.
Proof. intros H%assoc_in. by apply (list_elem_of_fmap_2 fst) in H. Qed.

Lemma chat_content_covers v p p' : (forall c, v = Some c -> keys_distinct c) ->
  inspect_chat_content v p = Ok p' -> covers (from_option content_texts [] v) p p'.
Proof.
  intros Hd. destruct v as [v|]; [|intros [= <-]; apply covers_nil]. specialize (Hd v eq_refl). simpl.
  destruct v as [| | | |s|items|]; try done; [intros [= <-]; apply covers_nil|intros [= <-]; apply covers_push|].
  apply kd_array_inv in Hd. rewrite Forall_forall in Hd. apply covers_fold. intros q b q' Hb Hq.
  specialize (Hd b Hb). destruct b as [| | | | | |l]; try done. cbn [as_object] in Hq.
  apply result_bind_ok in Hq as (? & [= <-] & Hq). apply kd_object_inv in Hd as [Hn _]. inv_ok. bools.
  rewrite bool_decide_eq_true in *. apply Z.eqb_eq in H. apply push_str_covers in Hq as Hs. destruct Hs as (s & Hs & _).
  destruct (assoc "type" l) as [t|] eqn:Ht; [|done]. apply assoc_key in Hs. apply assoc_key in Ht. gather.
  apply (entries_cover block_entry l ["type"; "text"]); [done| |done|entries].
  intros k v Hin. apply (two_keys l "type" "text") in Hin as [-> | ->]; [set_solver..|done|lia|done|done|done].
Qed.

Lemma existsb_false {A} (f : A -> bool) l x : existsb f l = false -> In x l -> f x = false.
Proof. intros Hf Hx. apply not_true_iff_false. intros Ht. apply not_true_iff_false in Hf. apply Hf, existsb_exists. eauto. Qed.

Section Coverage.
Context (parse : list Z -> option Json) (is_json : list Z -> bool).
Notation strict_json := (strict_json parse).
Notation inspect_arguments := (inspect_arguments parse is_json).
Notation inspect_chat_message := (inspect_chat_message parse is_json).

(** The second reading of the arguments of a tool call. *)
Definition argument_texts (call : Json) : list string :=
  match jget call "arguments" ≫= jas_str with
  | None => []
  | Some args =>
      match strict_json (bytes args) with
      | Ok decoded => texts decoded
      | Err _ => if str_eq (unescape_json_text args) args then [] else [unescape_json_text args]
      end
  end.
Definition call_texts (m : list (string * Json)) : list string :=
  (from_option (fun calls => from_option id [] (jas_array calls)) [] (assoc "tool_calls" m)
     ≫= (fun call => from_option argument_texts [] (jget call "function")))
  ++ from_option argument_texts [] (assoc "function_call" m).

Lemma arguments_cover call p p' : inspect_arguments call p = Ok p' -> covers (argument_texts call) p p'.
Proof.
  unfold Inspect.inspect_arguments, argument_texts. intros Hi. inv_ok. rewrite H.
  destruct (strict_json (bytes x)) as [d|e]; [by eapply collect_covers|].
  destruct (is_json _); [done|]. destruct (4096 <? _); [done|]. inv_ok. destruct (str_eq _ _); [apply covers_nil|apply covers_push].
Qed.

Lemma calls_cover calls p p' : inspect_calls parse is_json calls p = Ok p' ->
  covers (from_option id [] (jas_array calls) ≫= (fun call => from_option argument_texts [] (jget call "function"))) p p'.
Proof.
  unfold inspect_calls. intros Hi. apply result_bind_ok in Hi as (cs & Hcs & Hi). apply ok_or_ok in Hcs as ->.
  revert Hi. apply covers_fold. intros q b q' _ Hq. inv_ok.
  match goal with H : jget b "function" = _ |- _ => rewrite H end. by apply arguments_cover.
Qed.

Lemma chat_message_covers m p p' : keys_distinct (JObject m) ->
  inspect_chat_message m p = Ok p' -> covers (message_texts (JObject m) ++ call_texts m) p p'.
Proof.
  intros [Hn Hd]%kd_object_inv Hi. unfold Inspect.inspect_chat_message in Hi. inv_ok.
  match goal with H : existsb _ _ = false |- _ => rename H into Hkeys end.
  assert (Hc : covers (from_option content_texts [] (assoc "content" m)) p x0).
  { apply chat_content_covers; [|done]. intros c Hc%assoc_in. rewrite Forall_forall in Hd. apply (Hd _ Hc). }
  assert (Ha : covers (call_texts m) x0 x2).
  { eapply covers_app.
    - destruct (assoc "tool_calls" m) as [calls|]; simpl; [|inv_ok; apply covers_nil].
      by apply calls_cover.
    - destruct (assoc "function_call" m); simpl in *; [by apply arguments_cover|]. inv_ok. apply covers_nil. }
  destruct Hc as [Hc1 Hc2], Ha as [Ha1 Ha2]. gather.
  assert (Hm : covers (message_texts (JObject m)) p p').
  { apply (entries_cover (fun k v => if str_eq k "role" then [] else if str_eq k "content" then content_texts v else texts v)
             m CHAT_MESSAGE_KEYS); [done| |chain|].
    - intros k v Hin. apply (list_elem_of_fmap_2 fst), list_elem_of_In in Hin.
      eapply existsb_false in Hkeys; [|exact Hin]. unfold one_of in Hkeys. by bools; apply bool_decide_eq_true in Hkeys.
    - unfold CHAT_MESSAGE_KEYS, entry_at. repeat (apply Forall_cons; split); try apply Forall_nil; try done.
      + destruct (assoc "role" m); simpl; set_solver.
      + destruct (assoc "content" m); simpl in *; [chain|set_solver]. }
  destruct Hm as [Hm1 Hm2]. split; [done|]. assert (call_texts m ⊆ p') by chain. set_solver.
Qed.

Lemma anthropic_message_covers m p p' : keys_distinct (JObject m) ->
  inspect_anthropic_message m p = Ok p' -> covers (message_texts (JObject m)) p p'.
Proof.
  intros [Hn Hd]%kd_object_inv Hi. unfold inspect_anthropic_message in Hi. inv_ok.
  assert (Hc : covers (entry_at (fun _ => content_texts) m "content") p p').
  { unfold entry_at. destruct (assoc "content" m) as [c|] eqn:Hc; [|inv_ok; apply covers_nil].
    apply assoc_in in Hc. rewrite Forall_forall in Hd. specialize (Hd _ Hc). simpl in Hd.
    destruct c; try done; inv_ok; [apply covers_nil|apply covers_push|].
    apply kd_array_inv in Hd. by apply blocks_cover. }
  destruct Hc as [Hp Hc].
  apply (entries_cover (fun k v => if str_eq k "role" then [] else if str_eq k "content" then content_texts v else texts v)
           m ["role"; "content"]); [done| |done|].
  - intros k v Hin. apply (list_elem_of_fmap_2 fst), list_elem_of_In in Hin.
    eapply existsb_false in H; [|exact Hin]. unfold one_of in H. by bools; apply bool_decide_eq_true in H.
  - unfold entry_at in *. repeat (apply Forall_cons; split); [|exact Hc|by apply Forall_nil].
    destruct (assoc "role" m); simpl; set_solver.
Qed.

Definition message_object (m : Json) : list (string * Json) := match m with JObject l => l | _ => [] end.
(** The texts of a message as this format reads it. *)
Definition read_texts (format : InputFormat) (m : Json) : list string :=
  message_texts m ++ (if bool_decide (format = Messages) then [] else call_texts (message_object m)).

Lemma messages_cover format ms p p' : Forall keys_distinct ms ->
  inspect_messages parse is_json format ms p = Ok p' -> covers (ms ≫= read_texts format) p p'.
Proof.
  intros Hd. apply covers_fold. intros q m q' Hm Hq. rewrite Forall_forall in Hd. specialize (Hd m Hm).
  destruct m as [| | | | | |l]; try done. cbn [as_object] in Hq. apply result_bind_ok in Hq as (? & [= <-] & Hq).
  unfold read_texts. destruct (bool_decide _); [|by apply chat_message_covers].
  rewrite app_nil_r. by apply anthropic_message_covers.
Qed.

Lemma inputs_cover v p p' : inspect_inputs (Some v) p = Ok p' -> covers (texts v) p p'.
Proof.
  unfold inspect_inputs. destruct v as [| | | |s|ts|]; try done; [intros [= <-]; apply covers_push|].
  destruct (_ && _); [|done]. apply covers_fold. intros q t q' _ Hq. inv_ok. destruct t; try done. simpl in *. inv_ok.
  apply covers_push.
Qed.

(** The messages of a request, and all its texts. *)
Definition messages_of (object : list (string * Json)) : list Json :=
  default [] (assoc "messages" object ≫= jas_array).
Definition request_texts (format : InputFormat) (object : list (string * Json)) : list string :=
  body_texts format object
  ++ match format with Chat => messages_of object ≫= (fun m => call_texts (message_object m)) | _ => [] end.

Lemma extras_cover format object p p' : inspect_extras format object p = Ok p' ->
  p ⊆ p' /\ forall k v, (k, v) ∈ object ->
    negb (str_eq k (text_field format)) && negb (str_eq k "model")
      && negb (bool_decide (format = Messages) && str_eq k "system") = true -> texts v ⊆ p'.
Proof.
  intros [Hp Hc]%(covers_fold _ (fun '(k, v) =>
    if negb (str_eq k (text_field format)) && negb (str_eq k "model")
       && negb (bool_decide (format = Messages) && str_eq k "system") then texts v else [])).
  - split; [done|]. intros k v Hin Hk s Hs. apply Hc, list_elem_of_bind. exists (k, v). by rewrite Hk.
  - intros q [k v] q' _. destruct (_ && _); [apply collect_covers|]. intros [= <-]. apply covers_nil.
Qed.

(** What is inspected before the extras: the text field, and the system
    prompt of an Anthropic request. *)
Lemma front_covers format object ms p p' :
  keys_distinct (JObject object) -> inspect_front format object = Ok (ms, p) ->
  inspect_messages parse is_json format ms p = Ok p' ->
  entry_at (body_entry format) object (text_field format) ⊆ p'
  /\ (format = Messages -> entry_at (body_entry format) object "system" ⊆ p')
  /\ (format = Chat -> messages_of object ≫= (fun m => call_texts (message_object m)) ⊆ p').
Proof.
  intros [Hn Hd]%kd_object_inv Hf Hm.
  assert (Hchat : format = Chat \/ format = Messages -> forall q ms0,
    assoc "messages" object ≫= jas_array = Some ms0 ->
    inspect_messages parse is_json format ms0 q = Ok p' ->
    q ⊆ p' /\ entry_at (body_entry format) object "messages" ⊆ p'
    /\ (format = Chat -> messages_of object ≫= (fun m => call_texts (message_object m)) ⊆ p')).
  { intros Hfmt q ms0 Hms Hq. unfold entry_at, messages_of. rewrite Hms. simpl.
    destruct (assoc "messages" object) as [v|] eqn:Hv; [|done]. destruct v as [| | | | |l|]; try done. injection Hms as ->.
    apply assoc_in in Hv. rewrite Forall_forall in Hd. apply Hd, kd_array_inv in Hv.
    apply (messages_cover _ _ _ _ Hv) in Hq as [Hq Hc]. split_and!; [done| |].
    - replace (body_entry format "messages" (JArray ms0)) with (ms0 ≫= message_texts) by (by destruct Hfmt as [-> | ->]).
      intros s (m & Hs & Hin)%list_elem_of_bind. apply Hc, list_elem_of_bind. exists m. unfold read_texts. set_solver.
    - intros -> s (m & Hs & Hin)%list_elem_of_bind. apply Hc, list_elem_of_bind. exists m. unfold read_texts. simpl. set_solver. }
  destruct format; cbn [inspect_front] in Hf; inv_ok.
  - destruct (Hchat (or_introl eq_refl) _ _ H0 Hm) as (_ & Ha & Hb). split_and!; [done|done|done].
  - destruct (Hchat (or_intror eq_refl) _ _ H0 Hm) as (Hp & Ha & Hb). split_and!; [done| |done]. intros _.
    apply system_covers in H as [_ H]; [|done]. set_solver.
  - cbn in Hm. inv_ok. split_and!; [|done..]. unfold entry_at. cbn [text_field] in *.
    destruct (assoc "input" object); [|done]. by apply inputs_cover in H as [_ H].
  - cbn in Hm. inv_ok. split_and!; [|done..]. unfold entry_at. cbn [text_field] in *.
    destruct (assoc "prompt" object); [|done]. by apply inputs_cover in H as [_ H].
Qed.

Lemma body_entry_plain format k v :
  str_eq k (text_field format) = false -> str_eq k "model" = false ->
  bool_decide (format = Messages) && str_eq k "system" = false -> body_entry format k v = texts v.
Proof. unfold body_entry. intros H1 H2 H3. rewrite H2. destruct format; simpl in *; by rewrite ?H1, ?H3. Qed.

Lemma request_covers format object ms p p' p'' :
  keys_distinct (JObject object) -> inspect_front format object = Ok (ms, p) ->
  inspect_messages parse is_json format ms p = Ok p' -> inspect_extras format object p' = Ok p'' ->
  request_texts format object ⊆ p''.
Proof.
  intros Hd Hf Hm He. destruct (front_covers _ _ _ _ _ Hd Hf Hm) as (H1 & H2 & H3).
  apply extras_cover in He as [Hp He]. apply kd_object_inv in Hd as [Hn _].
  unfold request_texts. apply list_subseteq_app_iff_l. split; [|destruct format; [|set_solver..]; set_solver].
  intros s ([k v] & Hs & Hin)%list_elem_of_bind. pose proof (assoc_elem _ _ _ Hn Hin) as Ha.
  destruct (str_eq k (text_field format)) eqn:E1.
  { apply bool_decide_eq_true in E1 as ->. unfold entry_at in H1. rewrite Ha in H1. by apply Hp, H1. }
  destruct (str_eq k "model") eqn:E2; [unfold body_entry in Hs; rewrite E2 in Hs; set_solver|].
  destruct (bool_decide (format = Messages) && str_eq k "system") eqn:E3.
  { apply andb_true_iff in E3 as [E3 E4]. apply bool_decide_eq_true in E3, E4. subst k.
    specialize (H2 E3). unfold entry_at in H2. rewrite Ha in H2. by apply Hp, H2. }
  rewrite body_entry_plain in Hs by done. apply (He k v Hin); [by rewrite E1, E2, E3|done].
Qed.
End Coverage.

(** ** What is left out

    The names and tags the formats fix, and binary data. *)

Definition BLOCK_NAMES : list string :=
  ["type"; "text"; "thinking"; "signature"; "redacted_thinking"; "data"; "tool_use"; "id"; "name"; "input"; "tool_result";
   "tool_use_id"; "content"; "is_error"; "image"; "document"; "source"; "url"; "base64"; "media_type"; "file"; "file_id"]
  ++ BLOCK_EXTRAS ++ CHAT_MESSAGE_KEYS.
Lemma message_names k : k ∈ CHAT_MESSAGE_KEYS -> k ∈ BLOCK_NAMES.
Proof. unfold BLOCK_NAMES. rewrite !elem_of_app. auto. Qed.
#[local] Opaque BLOCK_NAMES.
(** The data of the base64 sources of a block, nested ones included. *)
Definition source_data (v : Json) : list string :=
  match v with
  | JObject l => if bool_decide ((assoc "type" l ≫= jas_str) = Some "base64") then texts_at l "data" else []
  | _ => []
  end.
Fixpoint block_data (b : Json) : list string :=
  match b with
  | JObject l => l ≫= (fun '(k, v) =>
      if str_eq k "content" then match v with JArray bs => bs ≫= block_data | _ => [] end
      else if str_eq k "source" then source_data v else [])
  | _ => []
  end.
Definition content_data (v : Json) : list string := match v with JArray bs => bs ≫= block_data | _ => [] end.

(** Every text is one of the needed ones, binary data or a fixed name. *)
Definition accounted (need data all : list string) : Prop :=
  all ⊆ need ++ data ++ BLOCK_NAMES /\ Forall (fun s => looks_like_base64 s = true) data.

Lemma accounted_plain l : accounted l [] l.
Proof. split; [set_solver|constructor]. Qed.
Lemma accounted_bind {A} (need data all : A -> list string) (l : list A) :
  (forall a, a ∈ l -> accounted (need a) (data a) (all a)) -> accounted (l ≫= need) (l ≫= data) (l ≫= all).
Proof.
  induction l as [|a l IH]; intros H; [split; [apply list_subseteq_nil|constructor]|]. rewrite !bind_cons.
  destruct (H a (list_elem_of_here _ _)) as [Ha1 Ha2], (IH (fun b Hb => H b (list_elem_of_further _ _ _ Hb))) as [Hl1 Hl2].
  split; [set_solver|by apply Forall_app].
Qed.
(** Field by field: a known name, and a value that is accounted for. *)
Lemma accounted_object (need data : string -> Json -> list string) (l : list (string * Json)) :
  (forall k v, (k, v) ∈ l -> k ∈ BLOCK_NAMES /\ accounted (need k v) (data k v) (texts v)) ->
  accounted (l ≫= (fun '(k, v) => need k v)) (l ≫= (fun '(k, v) => data k v)) (texts (JObject l)).
Proof.
  intros H. cbn [texts]. apply (accounted_bind (fun '(k, v) => need k v) (fun '(k, v) => data k v) (fun '(k, v) => k :: texts v)).
  intros [k v] Hin. destruct (H k v Hin) as [Hk [Ha Hd]]. split; [|done]. set_solver.
Qed.

Lemma tag_accounted l kind v data : NoDup l.*1 -> get_str "type" l = Ok kind -> kind ∈ BLOCK_NAMES -> ("type", v) ∈ l ->
  Forall (fun s => looks_like_base64 s = true) data -> accounted [] data (texts v).
Proof.
  unfold get_str. intros Hn Ht Hk Hin Hd. inv_ok. rewrite (assoc_elem _ _ _ Hn Hin) in Ht. destruct v; try done. cbn in *. simplify_eq.
  split; [set_solver|done].
Qed.
Ltac name_in := apply (bool_decide_unpack _); vm_compute; exact I.
(** A key is on the list of its block. *)
Lemma known_key l r o k v : keys_are l r o = true -> (k, v) ∈ l -> forallb (fun k => bool_decide (k ∈ BLOCK_NAMES)) (r ++ o) = true ->
  k ∈ BLOCK_NAMES.
Proof. intros Hk Hin Ho. eapply keys_are_in, list_elem_of_In in Hin; [|done]. eapply forallb_forall in Ho; [|done]. by apply bool_decide_eq_true in Ho. Qed.
Lemma push_str_get k l p p' : push_str k l p = Ok p' -> exists s, get_str k l = Ok s.
Proof. unfold push_str. intros H. inv_ok. by eexists. Qed.

Lemma source_accounted v p p' : keys_distinct v -> inspect_source v p = Ok p' -> accounted (source_texts v) (source_data v) (texts v).
Proof.
  intros Hd Hi. unfold inspect_source in Hi. destruct v as [| | | | | |l]; try done. cbn [as_object] in Hi.
  apply result_bind_ok in Hi as (? & [= <-] & Hi). apply result_bind_ok in Hi as (x0 & Hkind & Hi). apply kd_object_inv in Hd as [Hn _].
  assert (Hx : x0 ∈ BLOCK_NAMES /\ (forall k v, (k, v) ∈ l -> k ∈ BLOCK_NAMES)
    /\ (x0 = "base64" -> exists s, assoc "data" l = Some (JString s) /\ looks_like_base64 s = true)).
  { destruct (str_eq x0 "url") eqn:E1; [|destruct (str_eq x0 "base64") eqn:E2; [|destruct (str_eq x0 "file") eqn:E3; [|done]]]; inv_ok;
      repeat match goal with H : negb (keys_are _ _ _) = false |- _ => apply bools_keys in H end;
      match goal with H : str_eq x0 _ = true |- _ => apply bool_decide_eq_true in H as -> end;
      (split; [name_in|]; split; [intros k v Hin; eapply known_key; [eassumption|exact Hin|vm_compute; reflexivity]|]); try done.
    intros _. match goal with H : get_str "data" l = Ok ?s |- _ => exists s; unfold get_str in H; inv_ok; destruct (assoc "data" l) as [[]|]; try done end.
    simpl in *. simplify_eq. split; [done|]. bools. match goal with H : negb (looks_like_base64 _) = false |- _ => by apply negb_false_iff in H | _ => done end. }
  destruct Hx as (Hk & Hnames & Hdata).
  assert (Hty : (assoc "type" l ≫= jas_str) = Some x0) by (unfold get_str in Hkind; by inv_ok).
  assert (Hbin : Forall (fun s => looks_like_base64 s = true) (source_data (JObject l))).
  { cbn [source_data]. rewrite Hty. case_bool_decide as Hb; [|constructor]. injection Hb as ->.
    destruct (Hdata eq_refl) as (s & Hs & Hl). unfold texts_at. rewrite Hs. by apply Forall_singleton. }
  split; [|done]. intros s (kv & Hs & Hin)%list_elem_of_bind. destruct kv as [k v]. pose proof (Hnames _ _ Hin) as Hkn.
  apply elem_of_cons in Hs as [->|Hs]; [set_solver|]. cbn [source_texts source_data]. rewrite Hty.
  destruct (str_eq k "type") eqn:Et.
  { apply bool_decide_eq_true in Et as ->. destruct (tag_accounted l x0 v [] Hn) as [Ht _]; [done|done|done|constructor|]. specialize (Ht s Hs). set_solver. }
  destruct (str_eq k "data" && bool_decide (Some x0 = Some "base64")) eqn:Eb.
  - apply andb_true_iff in Eb as [Ek Eb]. apply bool_decide_eq_true in Ek as ->. rewrite Eb. unfold texts_at.
    rewrite (assoc_elem _ _ _ Hn Hin). set_solver.
  - apply elem_of_app. left. apply list_elem_of_bind. exists (k, v). rewrite Et, Eb. done.
Qed.

(** What an accepted block is known to have. *)
Ltac absent :=
  intros ? Hin _; exfalso; match goal with Hk : keys_are _ _ _ = true |- _ => eapply keys_are_in in Hin; [|exact Hk] end;
  apply (bool_decide_pack _) in Hin; vm_compute in Hin; exact Hin.
Ltac shape kind :=
  inv_ok; repeat match goal with H : negb (keys_are _ _ _) = false |- _ => apply bools_keys in H end;
  match goal with H : str_eq kind _ = true |- _ => apply bool_decide_eq_true in H as -> end;
  split; [name_in|];
  split; [intros k v Hin; eapply known_key; [eassumption|exact Hin|vm_compute; reflexivity]|]; split; try absent.
Lemma block_shape l p p' : inspect_block (JObject l) p = Ok p' ->
  exists kind, get_str "type" l = Ok kind /\ kind ∈ BLOCK_NAMES /\ (forall k v, (k, v) ∈ l -> k ∈ BLOCK_NAMES)
    /\ (forall bs, ("content", JArray bs) ∈ l -> NoDup l.*1 -> exists q q', try_fold (fun parts b => inspect_block b parts) q bs = Ok q')
    /\ (forall v, ("source", v) ∈ l -> NoDup l.*1 -> exists q q', inspect_source v q = Ok q').
Proof.
  intros Hi. cbn [inspect_block] in Hi. apply result_bind_ok in Hi as (kind & Hkind & Hi). exists kind. split; [done|].
  destruct (str_eq kind "text") eqn:E1; [shape kind|].
  destruct (str_eq kind "thinking") eqn:E2; [shape kind|].
  destruct (str_eq kind "redacted_thinking") eqn:E3; [shape kind|].
  destruct (str_eq kind "tool_use") eqn:E4; [shape kind|].
  destruct (str_eq kind "tool_result") eqn:E5.
  { shape kind. intros bs Hin Hn. rewrite assoc_map_assoc in *. rewrite (assoc_elem _ _ _ Hn Hin) in *. cbn [fmap option_fmap option_map] in *. eauto. }
  destruct (str_eq kind "image") eqn:E6; [|destruct (str_eq kind "document") eqn:E7; [|done]]; cbn [orb] in Hi;
    shape kind; intros v Hin Hn; match goal with H : assoc "source" l = Some _ |- _ => rewrite (assoc_elem _ _ _ Hn Hin) in H; simplify_eq end;
    by eexists _, _.
Qed.

Lemma try_fold_each {A} (f : list string -> A -> inspected (list string)) l a : forall p p',
  try_fold f p l = Ok p' -> a ∈ l -> exists q q', f q a = Ok q'.
Proof.
  induction l as [|b l IH]; intros p p' Hf Ha; [by apply not_elem_of_nil in Ha|]. cbn [try_fold] in Hf. inv_ok.
  apply elem_of_cons in Ha as [->|Ha]; [by eexists _, _|by eapply IH].
Qed.

Lemma block_accounted v : keys_distinct v ->
  (forall p p', inspect_block v p = Ok p' -> accounted (block_texts v) (block_data v) (texts v))
  /\ (forall bs, v = JArray bs -> forall p p', try_fold (fun parts b => inspect_block b parts) p bs = Ok p' ->
       accounted (bs ≫= block_texts) (bs ≫= block_data) (bs ≫= texts)).
Proof.
  induction v as [| | | | |l IH|l IH] using json_tree_ind; intros Hd; (split; [intros p p' Hi|try by intros ? ?]);
    try (cbn in Hi; done).
  - intros bs [= <-] p p' Hf. apply kd_array_inv in Hd. rewrite Forall_forall in IH, Hd. apply accounted_bind. intros b Hb.
    destruct (try_fold_each _ _ _ _ _ Hf Hb) as (q & q' & Hq). by apply (proj1 (IH b Hb (Hd b Hb))) in Hq.
  - apply kd_object_inv in Hd as [Hn Hd]. apply block_shape in Hi as (kind & Hty & Hk & Hnames & Hc & Hs).
    rewrite block_texts_object. apply (accounted_object block_entry
      (fun k v => if str_eq k "content" then content_data v else if str_eq k "source" then source_data v else [])).
    intros k v Hin. split; [by eapply Hnames|]. unfold block_entry. rewrite Forall_forall in IH, Hd.
    destruct (str_eq k "type") eqn:Et.
    { apply bool_decide_eq_true in Et as ->. eapply tag_accounted; [done|done|done|done|]. constructor. }
    destruct (str_eq k "content") eqn:Ec.
    { apply bool_decide_eq_true in Ec as ->. destruct v as [| | | | |bs|]; try apply accounted_plain. destruct (Hc _ Hin Hn) as (q & q' & Hf).
      by apply (proj2 (IH _ Hin (Hd _ Hin)) bs eq_refl _ _ Hf). }
    destruct (str_eq k "source") eqn:Es; [|apply accounted_plain].
    apply bool_decide_eq_true in Es as ->. destruct (Hs _ Hin Hn) as (q & q' & Hf). eapply source_accounted; [by apply (Hd _ Hin)|done].
Qed.

Lemma content_accounted v : (forall bs, v = JArray bs -> forall b, b ∈ bs -> accounted (block_texts b) (block_data b) (texts b)) ->
  accounted (content_texts v) (content_data v) (texts v).
Proof.
  intros H. destruct v as [| | | | |bs|]; try apply accounted_plain.
  apply (accounted_bind block_texts block_data texts). intros b Hb. by eapply H.
Qed.
(** A block of a text, and what may go with it. *)
Lemma text_item_accounted l kind : NoDup l.*1 -> get_str "type" l = Ok kind -> kind ∈ BLOCK_NAMES ->
  (forall k v, (k, v) ∈ l -> k ∈ BLOCK_NAMES /\ k <> "content" /\ k <> "source") ->
  accounted (block_texts (JObject l)) (block_data (JObject l)) (texts (JObject l)).
Proof.
  intros Hn Ht Hk Hl. rewrite block_texts_object. apply (accounted_object block_entry
    (fun k v => if str_eq k "content" then content_data v else if str_eq k "source" then source_data v else [])).
  intros k v Hin. destruct (Hl _ _ Hin) as (H1 & H2 & H3). split; [done|]. unfold block_entry, str_eq.
  rewrite (bool_decide_eq_false_2 (k = "content")), (bool_decide_eq_false_2 (k = "source")) by done.
  case_bool_decide; [subst; by eapply tag_accounted|apply accounted_plain].
Qed.
Lemma text_kind l : (assoc "type" l ≫= jas_str) = Some "text" -> get_str "type" l = Ok "text".
Proof. unfold get_str. by intros ->. Qed.

Lemma chat_content_accounted v p p' : keys_distinct v -> inspect_chat_content (Some v) p = Ok p' -> accounted (content_texts v) (content_data v) (texts v).
Proof.
  intros Hd Hi. apply content_accounted. intros bs -> b Hb. cbn [inspect_chat_content] in Hi.
  destruct (try_fold_each _ _ _ _ _ Hi Hb) as (q & q' & Hq). apply kd_array_inv in Hd. rewrite Forall_forall in Hd. specialize (Hd b Hb).
  destruct b as [| | | | | |l]; try done. cbn [as_object] in Hq. apply result_bind_ok in Hq as (? & [= <-] & Hq).
  apply kd_object_inv in Hd as [Hn _]. inv_ok. bools. rewrite bool_decide_eq_true in *. apply Z.eqb_eq in H. apply push_str_covers in Hq as (s & Hs & _).
  apply (text_item_accounted l "text"); [done|by apply text_kind|name_in|].
  destruct (assoc "type" l) as [t|] eqn:Ht; [|done]. apply assoc_key in Hs, Ht.
  intros k v Hin. apply (two_keys l "type" "text") in Hin as [-> | ->]; [split; [name_in|done]..|done|lia|done|done|done].
Qed.
Lemma anthropic_content_accounted v p p' : keys_distinct v ->
  (forall bs, v = JArray bs -> inspect_anthropic_blocks bs p = Ok p') -> accounted (content_texts v) (content_data v) (texts v).
Proof.
  intros Hd Hi. apply content_accounted. intros bs -> b Hb. destruct (try_fold_each _ _ _ _ _ (Hi _ eq_refl) Hb) as (q & q' & Hq).
  apply kd_array_inv in Hd. rewrite Forall_forall in Hd. by apply (proj1 (block_accounted b (Hd b Hb))) in Hq.
Qed.
Lemma system_accounted object p p' v : NoDup object.*1 -> keys_distinct v -> ("system", v) ∈ object -> inspect_system object p = Ok p' ->
  accounted (content_texts v) (content_data v) (texts v).
Proof.
  intros Hn Hd Hin Hi. apply content_accounted. intros bs -> b Hb. unfold inspect_system in Hi. rewrite (assoc_elem _ _ _ Hn Hin) in Hi.
  destruct (try_fold_each _ _ _ _ _ Hi Hb) as (q & q' & Hq). apply kd_array_inv in Hd. rewrite Forall_forall in Hd. specialize (Hd b Hb).
  destruct b as [| | | | | |l]; try done. cbn [as_object] in Hq. apply result_bind_ok in Hq as (? & [= <-] & Hq).
  apply kd_object_inv in Hd as [Hnl _]. inv_ok. apply bools_keys in H. bools. rewrite ?negb_false_iff, ?bool_decide_eq_true in *.
  apply (text_item_accounted l "text"); [done|by apply text_kind|name_in|]. intros k v Hk.
  apply (keys_are_in _ _ _ _ _ H) in Hk. cbn in Hk. repeat (apply elem_of_cons in Hk as [->|Hk]; [split; [name_in|done]|]).
  by apply not_elem_of_nil in Hk.
Qed.

(** The role of a message, of whatever type, and its binary data. *)
Definition role_texts (m : Json) : list string := texts_at (message_object m) "role".
Definition message_data (m : Json) : list string := entry_at (fun _ => content_data) (message_object m) "content".
Lemma message_accounted m : NoDup m.*1 -> (forall k v, (k, v) ∈ m -> k ∈ CHAT_MESSAGE_KEYS) ->
  (forall v, ("content", v) ∈ m -> accounted (content_texts v) (content_data v) (texts v)) ->
  accounted (message_texts (JObject m) ++ role_texts (JObject m)) (message_data (JObject m)) (texts (JObject m)).
Proof.
  intros Hn Hk Hc. split.
  - intros s ([k v] & Hs & Hin)%list_elem_of_bind. pose proof (assoc_elem _ _ _ Hn Hin) as Ha.
    apply elem_of_cons in Hs as [->|Hs]; [apply Hk, message_names in Hin; rewrite !elem_of_app; auto|].
    unfold role_texts, message_data, entry_at, texts_at. cbn [message_object message_texts].
    destruct (str_eq k "role") eqn:Er; [apply bool_decide_eq_true in Er as ->; rewrite Ha, !elem_of_app; auto|].
    destruct (str_eq k "content") eqn:Ec.
    + apply bool_decide_eq_true in Ec as ->. rewrite Ha. destruct (Hc _ Hin) as [Hall _]. apply Hall in Hs. rewrite !elem_of_app in *.
      destruct Hs as [Hs|[Hs|Hs]]; [|auto..]. left. left. apply list_elem_of_bind. by exists ("content", v).
    + rewrite !elem_of_app. left. left. apply list_elem_of_bind. exists (k, v). by rewrite Er, Ec.
  - unfold message_data, entry_at. cbn [message_object]. destruct (assoc "content" m) as [v|] eqn:Ha; [|constructor].
    apply assoc_in in Ha. by apply Hc.
Qed.

Section LeftOut.
Context (parse : list Z -> option Json) (is_json : list Z -> bool).

Lemma messages_accounted format ms p p' : Forall keys_distinct ms -> inspect_messages parse is_json format ms p = Ok p' ->
  accounted (ms ≫= (fun m => message_texts m ++ role_texts m)) (ms ≫= message_data) (ms ≫= texts).
Proof.
  intros Hd Hi. apply accounted_bind. intros m Hm. rewrite Forall_forall in Hd. specialize (Hd m Hm).
  destruct (try_fold_each _ _ _ _ _ Hi Hm) as (q & q' & Hq). destruct m as [| | | | | |l]; try done. cbn [as_object] in Hq.
  apply result_bind_ok in Hq as (? & [= <-] & Hq). apply kd_object_inv in Hd as [Hn Hd]. rewrite Forall_forall in Hd.
  destruct (bool_decide (format = Messages)).
  - unfold inspect_anthropic_message in Hq. inv_ok. apply message_accounted; [done| |].
    + intros k v Hin. apply (list_elem_of_fmap_2 fst), list_elem_of_In in Hin. eapply existsb_false in H; [|exact Hin].
      apply negb_false_iff, bool_decide_eq_true in H. set_solver.
    + intros v Hin. eapply anthropic_content_accounted; [by apply (Hd _ Hin)|]. intros bs ->. rewrite (assoc_elem _ _ _ Hn Hin) in Hq. exact Hq.
  - unfold inspect_chat_message in Hq. apply result_bind_ok in Hq as (u & Hkeys%bail_ok & Hq). apply result_bind_ok in Hq as (q1 & Hc & _).
    apply message_accounted; [done| |].
    + intros k v Hin. apply (list_elem_of_fmap_2 fst), list_elem_of_In in Hin. eapply existsb_false in Hkeys; [|exact Hin].
      by apply negb_false_iff, bool_decide_eq_true in Hkeys.
    + intros v Hin. rewrite (assoc_elem _ _ _ Hn Hin) in Hc. eapply chat_content_accounted; [by apply (Hd _ Hin)|exact Hc].
Qed.

(** The binary data of a request. *)
Definition binary_data (object : list (string * Json)) : list string :=
  (messages_of object ≫= message_data) ++ entry_at (fun _ => content_data) object "system".
Definition unread_texts (object : list (string * Json)) : list string :=
  texts_at object "model" ++ (messages_of object ≫= role_texts).

Lemma request_accounted format object ms p p' : keys_distinct (JObject object) ->
  Forall (fun k => k ∈ format_fields format) object.*1 -> inspect_front format object = Ok (ms, p) ->
  inspect_messages parse is_json format ms p = Ok p' ->
  texts (JObject object) ⊆ request_texts parse format object ++ unread_texts object ++ binary_data object ++ format_fields format ++ BLOCK_NAMES
  /\ Forall (fun s => looks_like_base64 s = true) (binary_data object).
Proof.
  intros [Hn Hd]%kd_object_inv Hkeys Hf Hm. rewrite Forall_forall in Hd. rewrite Forall_forall in Hkeys.
  assert (Hms : format = Chat \/ format = Messages -> ms = messages_of object /\ Forall keys_distinct ms /\ assoc "messages" object = Some (JArray ms)).
  { intros Hfm. assert (Ha : (assoc "messages" object ≫= jas_array) = Some ms) by (destruct Hfm as [-> | ->]; cbn in Hf; by inv_ok).
    unfold messages_of. rewrite Ha. split; [done|]. destruct (assoc "messages" object) as [v|] eqn:Hv; [|done]. destruct v; try done.
    injection Ha as ->. split; [|done]. apply assoc_in in Hv. by apply Hd, kd_array_inv in Hv. }
  assert (Hacc : format = Chat \/ format = Messages ->
    accounted (ms ≫= (fun m => message_texts m ++ role_texts m)) (ms ≫= message_data) (ms ≫= texts)).
  { intros Hfm. destruct (Hms Hfm) as (_ & Hk & _). by eapply messages_accounted. }
  assert (Hnot : forall k, bool_decide (k ∈ format_fields format) = false -> assoc k object = None).
  { intros k Hk%bool_decide_eq_false. destruct (assoc k object) as [v|] eqn:Ha; [|done]. destruct Hk. by eapply Hkeys, assoc_key. }
  split.
  2:{ unfold binary_data, entry_at. apply Forall_app. split.
      - destruct (decide (format = Chat \/ format = Messages)) as [Hfm|Hno]; [destruct (Hms Hfm) as (<- & _); by destruct (Hacc Hfm)|].
        unfold messages_of. rewrite Hnot; [constructor|]. destruct format; [destruct Hno; auto..|vm_compute; reflexivity|vm_compute; reflexivity].
      - destruct (decide (format = Messages)) as [->|Hno]; [|rewrite Hnot; [constructor|destruct format; [|done| |]; vm_compute; reflexivity]].
        destruct (assoc "system" object) as [v|] eqn:Ha; [|constructor]. apply assoc_in in Ha. cbn in Hf. inv_ok.
        by pose proof (system_accounted object _ _ v Hn (Hd _ Ha) Ha H) as [_ Hb]. }
  intros s ([k v] & Hs & Hin)%list_elem_of_bind. pose proof (assoc_elem _ _ _ Hn Hin) as Ha.
  apply elem_of_cons in Hs as [->|Hs]; [apply (list_elem_of_fmap_2 fst), Hkeys in Hin; rewrite !elem_of_app; auto|].
  destruct (str_eq k "model") eqn:Em.
  { apply bool_decide_eq_true in Em as ->. unfold unread_texts, texts_at. rewrite Ha, !elem_of_app. auto. }
  assert (Hbody : s ∈ body_entry format k v -> s ∈ request_texts parse format object ++ unread_texts object ++ binary_data object ++ format_fields format ++ BLOCK_NAMES).
  { intros Hb. unfold request_texts, body_texts. rewrite !elem_of_app. left. left. apply list_elem_of_bind. by exists (k, v). }
  destruct (bool_decide (format = Chat \/ format = Messages) && str_eq k "messages") eqn:Ek.
  { apply andb_true_iff in Ek as [Efm Ek]. apply bool_decide_eq_true in Efm, Ek. subst k. destruct (Hms Efm) as (Hmo & _ & Hv).
    rewrite Ha in Hv. injection Hv as ->. destruct (Hacc Efm) as [Hall _]. apply Hall in Hs. rewrite !elem_of_app in Hs. unfold unread_texts, binary_data.
    rewrite <- Hmo. destruct Hs as [Hs|[Hs|Hs]]; [|rewrite !elem_of_app; auto..]. apply list_elem_of_bind in Hs as (m & Hs & Hmm).
    apply elem_of_app in Hs as [Hs|Hs].
    - assert (Hb : s ∈ body_entry format "messages" (JArray ms)).
      { replace (body_entry format "messages" (JArray ms)) with (ms ≫= message_texts) by (by destruct Efm as [-> | ->]).
        apply list_elem_of_bind. by exists m. }
      rewrite !elem_of_app. left. unfold request_texts, body_texts. apply elem_of_app. left. apply list_elem_of_bind. by exists ("messages", JArray ms).
    - rewrite !elem_of_app. right. left. right. apply list_elem_of_bind. by exists m. }
  destruct (bool_decide (format = Messages) && str_eq k "system") eqn:Es.
  { apply andb_true_iff in Es as [Efm Es]. apply bool_decide_eq_true in Efm, Es. subst k format. cbn in Hf. inv_ok.
    pose proof (system_accounted object _ _ v Hn (Hd _ Hin) Hin H) as [Hall _]. apply Hall in Hs. rewrite !elem_of_app in Hs.
    destruct Hs as [Hs|[Hs|Hs]]; [by apply Hbody| |rewrite !elem_of_app; auto]. unfold binary_data, entry_at. rewrite Ha, !elem_of_app. auto. }
  apply Hbody. unfold body_entry. rewrite Em. destruct format; simpl in *; rewrite ?Ek, ?Es; exact Hs.
Qed.
End LeftOut.

(** ** The views *)

Definition infix_of (s t : string) : Prop := exists a b, t = a +:+ s +:+ b.

Lemma str_app_nil s : s +:+ "" = s.
Proof. induction s as [|c s IH]; [done|]. change (String c (s +:+ "") = String c s). by rewrite IH. Qed.
Lemma str_app_assoc a b c : (a +:+ b) +:+ c = a +:+ (b +:+ c).
Proof.
  induction a as [|x a IH]; [done|].
  change (String x ((a +:+ b) +:+ c) = String x (a +:+ (b +:+ c))). by rewrite IH.
Qed.
Lemma concat_cons sep a l : String.concat sep (a :: l) = a +:+ match l with [] => "" | _ => sep +:+ String.concat sep l end.
Proof. destruct l; simpl; [by rewrite str_app_nil|done]. Qed.

Lemma concat_infix sep l s : s ∈ l -> infix_of s (String.concat sep l).
Proof.
  induction l as [|a l IH]; [set_solver|]. rewrite concat_cons. intros [->|Hin]%elem_of_cons.
  - exists "", (match l with [] => "" | _ => sep +:+ String.concat sep l end). done.
  - destruct (IH Hin) as (x & y & Hxy). destruct l; [set_solver|]. rewrite Hxy.
    exists (a +:+ sep +:+ x), y. by rewrite !str_app_assoc.
Qed.

Definition shows (i : Inspection) (s : string) : Prop := infix_of s (in_text i) /\ infix_of s (in_joined i).


(** ** Escapes *)

(** The ways JSON spells one character: as it is, with a short escape, or
    with its code, in lower or upper case. *)
Definition lower_hex (d : Z) : Z := if d <? 10 then 48 + d else 87 + d.
Definition upper_hex (d : Z) : Z := if d <? 10 then 48 + d else 55 + d.
Definition unit_digits (digit : Z -> Z) (c : Z) : list Z :=
  [92; 117; digit (c / 4096); digit ((c / 256) mod 16); digit ((c / 16) mod 16); digit (c mod 16)].

(** A Unicode scalar value. *)
Definition is_scalar (c : Z) : Prop := 0 <= c < 55296 \/ 57344 <= c <= 1114111.

Inductive spells : list Z -> Z -> Prop :=
| spell_plain c : is_scalar c -> c <> 92 -> spells (push_char c) c
| spell_short e c : short_escape e = Some c -> spells [92; e] c
| spell_unit digit c : digit = lower_hex \/ digit = upper_hex -> 0 <= c < 55296 \/ 57344 <= c < 65536 ->
    spells (unit_digits digit c) c
| spell_pair digit digit' c : digit = lower_hex \/ digit = upper_hex -> digit' = lower_hex \/ digit' = upper_hex ->
    65536 <= c <= 1114111 ->
    spells (unit_digits digit (55296 + (c - 65536) / 1024) ++ unit_digits digit' (56320 + (c - 65536) mod 1024)) c.

Lemma hex_value_digit digit d : digit = lower_hex \/ digit = upper_hex -> 0 <= d < 16 -> hex_value (digit d) = Some d.
Proof.
  intros [-> | ->] Hd; unfold hex_value, lower_hex, upper_hex; destruct (d <? 10) eqn:E;
    repeat match goal with |- context [if ?b then _ else _] => destruct b eqn:? end; f_equal; lia.
Qed.

Lemma hex4_digits digit c : digit = lower_hex \/ digit = upper_hex -> 0 <= c < 65536 ->
  hex4 (digit (c / 4096)) (digit ((c / 256) mod 16)) (digit ((c / 16) mod 16)) (digit (c mod 16)) = Some c.
Proof.
  intros Hd Hc. unfold hex4. rewrite !hex_value_digit by (try done; Z.div_mod_to_equations; lia). simpl. f_equal.
  Z.div_mod_to_equations. lia.
Qed.

Lemma unescape_eq s : unescape_bytes s = unescape_turn unescape_bytes s.
Proof. by destruct s. Qed.

Lemma unescape_copies bs rest : Forall (fun b => b <> 92) bs -> unescape_bytes (bs ++ rest) = bs ++ unescape_bytes rest.
Proof.
  induction 1 as [|b bs Hb _ IH]; [done|]. rewrite unescape_eq. cbn [app unescape_turn].
  rewrite (proj2 (Z.eqb_neq b 92)) by done. cbn [negb]. by rewrite IH.
Qed.

Lemma push_char_bytes c : is_scalar c -> Forall is_byte (push_char c) /\ (c <> 92 -> Forall (fun b => b <> 92) (push_char c)).
Proof.
  unfold is_scalar, is_byte, push_char. intros Hc.
  destruct (c <? 128) eqn:?; [split; [|intros ?]; repeat constructor; lia|].
  destruct (c <? 2048) eqn:?; [|destruct (c <? 65536) eqn:?]; (split; [|intros _]); repeat constructor;
    Z.div_mod_to_equations; lia.
Qed.

Lemma digit_is_byte digit d : digit = lower_hex \/ digit = upper_hex -> 0 <= d < 16 -> is_byte (digit d).
Proof. unfold is_byte. intros [-> | ->] Hd; unfold lower_hex, upper_hex; destruct (d <? 10) eqn:?; lia. Qed.

Lemma unit_digits_bytes digit c : digit = lower_hex \/ digit = upper_hex -> 0 <= c < 65536 ->
  Forall is_byte (unit_digits digit c).
Proof.
  intros Hd Hc. unfold unit_digits. repeat (apply Forall_cons; split); try apply Forall_nil; try done;
    try (apply digit_is_byte; [done|]; Z.div_mod_to_equations; lia).
Qed.

Lemma spells_bytes enc c : spells enc c -> Forall is_byte enc /\ is_scalar c.
Proof.
  destruct 1 as [c Hc Hn|e c He|digit c Hd Hc|digit digit' c Hd Hd' Hc].
  - split; [by apply push_char_bytes|done].
  - unfold short_escape in He. unfold is_scalar, is_byte.
    split; [repeat constructor|]; repeat case_match; inv_ok; bools; rewrite ?orb_true_iff in *; lia.
  - split; [apply unit_digits_bytes; [done|lia]|unfold is_scalar; lia].
  - split; [|unfold is_scalar; lia]. apply Forall_app. split; apply unit_digits_bytes; try done; Z.div_mod_to_equations; lia.
Qed.

Lemma spelled_head enc c rest : spells enc c ->
  unescape_bytes (enc ++ rest) = push_char c ++ unescape_bytes rest.
Proof.
  destruct 1 as [c Hc Hn|e c He|digit c Hd Hc|digit digit' c Hd Hd' Hc];
    [by apply unescape_copies, push_char_bytes|rewrite unescape_eq; unfold unit_digits; cbn [app unescape_turn]..].
  - rewrite Z.eqb_refl. cbn [negb]. rewrite He. unfold push_char.
    assert (c < 128) by (revert He; unfold short_escape; repeat case_match; intros [= <-]; lia).
    by rewrite (proj2 (Z.ltb_lt c 128)).
  - change (short_escape 117) with (@None Z). cbn [negb]. rewrite hex4_digits by (try done; lia).
    unfold char_or_replacement. replace ((55296 <=? c) && (c <? 56320)) with false by lia. cbn [negb].
    by replace ((55296 <=? c) && (c <? 57344) || (1114111 <? c)) with false by lia.
  - change (short_escape 117) with (@None Z). cbn [negb Z.eqb Pos.eqb andb].
    assert (0 <= (c - 65536) / 1024 < 1024) by (Z.div_mod_to_equations; lia).
    assert (0 <= (c - 65536) mod 1024 < 1024) by (Z.div_mod_to_equations; lia).
    rewrite !hex4_digits by (try done; lia). set (h := (c - 65536) / 1024) in *. set (l := (c - 65536) mod 1024) in *.
    replace ((55296 <=? 55296 + h) && (55296 + h <? 56320)) with true by lia. cbn [negb].
    replace ((56320 <=? 56320 + l) && (56320 + l <? 57344)) with true by lia.
    rewrite Z.shiftl_mul_pow2 by lia.
    replace (65536 + (55296 + h - 55296) * 2 ^ 10 + (56320 + l - 56320)) with c
      by (unfold h, l; pose proof (Z.div_mod (c - 65536) 1024); lia).
    unfold char_or_replacement. by replace ((55296 <=? c) && (c <? 57344) || (1114111 <? c)) with false by lia.
Qed.

(** However a text is spelled in JSON, each character as it is, with a
    short escape, with its code in either case or with a surrogate pair, the
    escape-decoded view of arguments that are not JSON shows the text. *)
Theorem escapes_hide_nothing encs cs :
  Forall2 spells encs cs ->
  unescape_json_text (string_of (mjoin encs)) = string_of (cs ≫= push_char).
Proof.
  intros Hs. unfold unescape_json_text. rewrite bytes_string_of.
  - f_equal. induction Hs as [|enc c encs cs He _ IH]; [done|]. simpl. by rewrite (spelled_head _ _ _ He), IH.
  - induction Hs as [|enc c encs cs He _ IH]; [constructor|]. simpl. apply Forall_app. split; [|done].
    by apply spells_bytes in He as [? _].
Qed.

(** "A" as its code, a line feed, the letter o, and a key emoji. *)
Lemma escapes_hide_nothing_witness :
  unescape_json_text "\u0041\no\ud83d\uDD11" = string_of [65; 10; 111; 240; 159; 148; 145].
Proof.
  change "\u0041\no\ud83d\uDD11"
    with (string_of (mjoin [unit_digits lower_hex 65; [92; 110]; [111];
                            unit_digits lower_hex 55357 ++ unit_digits upper_hex 56593])).
  rewrite (escapes_hide_nothing _ [65; 10; 111; 128273]); [reflexivity|].
  apply Forall2_cons_2; [apply spell_unit; [by left|lia]|].
  apply Forall2_cons_2; [by apply spell_short|].
  apply Forall2_cons_2; [by apply (spell_plain 111); [left; lia|]|].
  apply Forall2_cons_2; [|constructor].
  apply (spell_pair lower_hex upper_hex 128273); [by left|by right|lia].
Defined.

(** A reader for the examples: the documents it knows. *)
Definition demo_body : list Z := bytes "{the request}".
Definition demo_request : Json := JObject
  [("model", JString "m"); ("max_tokens", JNumber 7);
   ("messages", JArray [JObject [("role", JString "assistant"); ("content", JString "hello");
      ("tool_calls", JArray [JObject [("type", JString "function");
         ("function", JObject [("name", JString "f"); ("arguments", JString "{args}")])]])]])].
Definition demo_parse (bs : list Z) : option Json :=
  if bool_decide (bs = demo_body) then Some demo_request
  else if bool_decide (bs = bytes "{args}") then Some (JObject [("path", JString "/etc/passwd")])
  else None.

