(* ===== verification/Policy.v ===== *)
(** The policy engine ([core/policy.rs]): documents, rules and selectors,
    the evaluators, the registry of extensions, the compilation of a
    document and the decision on a request.

    An evaluator acts on the world ([W]: it takes time, and a remote one
    sends the text out), so a run of the engine threads it.  [Instant::now]
    reads the clock of the world.  The regular expressions, the reader of
    JSON, the decoding of the document and Unicode's tables are arguments. *)

From S2P Require Import Prelude Json Text Stats Inspect.

Record Identity := MkIdentity {
  id_issuer : option string; id_subject : option string; id_groups : list string; id_roles : list string;
  id_directory_known : bool }.

Definition MAX_BODY_BYTES_CEILING : Z := 4 * 1024 * 1024.

Inductive Metric := BodyBytes | MaxOutputTokens.
Inductive Effect := Audit | Quarantine | Block.
Inductive Disposition := DForward | DQuarantine | DBlock | DUnavailable.
#[export] Instance Effect_eq_dec : EqDecision Effect.
Proof. solve_decision. Defined.
#[export] Instance Disposition_eq_dec : EqDecision Disposition.
Proof. solve_decision. Defined.

Inductive EvaluatorSpec :=
| Registered (name : string) (configuration : Json)
| Regex (pattern : string)
| Threshold (metric : Metric) (above : Z)
| LexicalSimilarity (reference : string) (at_least : spec_float).

Record Selector := MkSelector {
  sl_issuer : option string; sl_subjects : list string; sl_groups : list string; sl_roles : list string;
  sl_upstreams : list string; sl_models : list string }.

Record Rule := MkRule { ru_id : string; ru_when : Selector; ru_evaluator : EvaluatorSpec; ru_effect : Effect }.

Record PolicyDocumentV1 := MkPolicyDocument {
  pd_schema_version : string; pd_revision : Z; pd_deadline_ms : Z; pd_max_body_bytes : Z; pd_rules : list Rule }.

Record Decision := MkDecision {
  de_revision : Z; de_disposition : Disposition; de_matched_rules : list string; de_reason : string;
  de_elapsed_us : Z }.

(** The derived order of dispositions, and [Ord::max]. *)
Definition severity (d : Disposition) : Z :=
  match d with DForward => 0 | DQuarantine => 1 | DBlock => 2 | DUnavailable => 3 end.
Definition disposition_max (a b : Disposition) : Disposition := if severity b <? severity a then a else b.
Definition effect_disposition (e : Effect) : Disposition :=
  match e with Audit => DForward | Quarantine => DQuarantine | Block => DBlock end.

(** ** Selectors *)

Definition contains (values : list string) (v : string) : bool :=
  match values with [] => true | _ => existsb (fun x => str_eq x v) values end.

Definition matches (s : Selector) (who : Identity) (upstream model : string) : inspected bool :=
  if match sl_issuer s with Some i => negb (bool_decide (Some i = id_issuer who)) | None => false end
     || negb (contains (sl_subjects s) (default "" (id_subject who)))
     || negb (contains (sl_upstreams s) upstream)
     || negb (contains (sl_models s) model)
  then Ok false
  else
    let no_groups := bool_decide (sl_groups s = []) in
    let no_roles := bool_decide (sl_roles s = []) in
    if (negb no_groups || negb no_roles) && negb (id_directory_known who) then refused
    else Ok ((no_groups || existsb (fun g => one_of g (sl_groups s)) (id_groups who))
             && (no_roles || existsb (fun r => one_of r (sl_roles s)) (id_roles who))).

(** ** Words *)

(** [str::chars] on the bytes of a string, which are valid UTF-8. *)
Fixpoint chars (s : list Z) : list Z :=
  match s with
  | [] => []
  | b :: r =>
      if b <? 128 then b :: chars r
      else match r with
      | c1 :: r1 =>
          if b <? 224 then ((b - 192) * 64 + (c1 - 128)) :: chars r1
          else match r1 with
          | c2 :: r2 =>
              if b <? 240 then ((b - 224) * 4096 + (c1 - 128) * 64 + (c2 - 128)) :: chars r2
              else match r2 with
              | c3 :: r3 => ((b - 240) * 262144 + (c1 - 128) * 4096 + (c2 - 128) * 64 + (c3 - 128)) :: chars r3
              | [] => []
              end
          | [] => []
          end
      | [] => []
      end
  end.

Section Engine.
Context {W : Type} (now : W -> Z * W).
Context (parse : list Z -> option Json) (is_json : list Z -> bool).
Context (decode_document : Json -> option PolicyDocumentV1).
Context (regex_build : string -> option (string -> bool)).
Context (is_alphanumeric : Z -> bool) (to_lowercase : string -> string).

(** ** Evaluators *)

Record Evaluator := MkEvaluator {
  ev_requires_text_egress : bool;
  ev_evaluate : Inspection -> Z -> W -> inspected bool * W }.

Definition check_time (deadline : Z) (w : W) : inspected unit * W :=
  let '(t, w) := now w in (if deadline <=? t then refused else Ok tt, w).

(** [f()?] in a function that acts on the world. *)
Definition step {A B} (m : W -> inspected A * W) (k : A -> W -> inspected B * W) (w : W) : inspected B * W :=
  match m w with (Ok a, w) => k a w | (Err e, w) => (Err e, w) end.
Definition give {A} (r : inspected A) (w : W) : inspected A * W := (r, w).

Definition unit_interval (f : spec_float) : bool := f64_is_finite f && (SFleb (f64_of 0) f && SFleb f (f64_of 1)).

Record ScoreBackend := MkScoreBackend {
  sb_requires_text_egress : bool;
  sb_score : Inspection -> Z -> W -> inspected spec_float * W }.

Definition thresholded_new (backend : ScoreBackend) (at_least : spec_float) : inspected (ScoreBackend * spec_float) :=
  if negb (unit_interval at_least) then refused else Ok (backend, at_least).
Definition ThresholdedScore (ts : ScoreBackend * spec_float) : Evaluator :=
  MkEvaluator (sb_requires_text_egress ts.1) (fun input deadline =>
    step (check_time deadline) (fun _ =>
    step (sb_score ts.1 input deadline) (fun score =>
    step (check_time deadline) (fun _ =>
    give (if negb (unit_interval score) then refused else Ok (SFleb ts.2 score)))))).

Definition RegexEvaluator (is_match : string -> bool) : Evaluator :=
  MkEvaluator false (fun input deadline =>
    step (check_time deadline) (fun _ =>
    let matched := is_match (in_text input) || is_match (in_joined input) in
    step (check_time deadline) (fun _ => give (Ok matched)))).

Definition ThresholdEvaluator (metric : Metric) (above : Z) : Evaluator :=
  MkEvaluator false (fun input deadline =>
    step (check_time deadline) (fun _ =>
    give (value ← match metric with
                  | BodyBytes => Ok (in_body_bytes input)
                  | MaxOutputTokens => ok_or (in_max_output_tokens input) TheEvaluationError
                  end;
          Ok (above <? value)))).

Definition words (value : string) : inspected (gset string) :=
  let ws := List.filter (fun w => negb (bool_decide (w = []))) (split_on (fun c => negb (is_alphanumeric c)) (chars (bytes value))) in
  out ← try_fold (fun '(i, out) word =>
           if 8192 <=? i then refused
           else Ok (i + 1, {[ to_lowercase (string_of (word ≫= push_char)) ]} ∪ out)) (0, ∅) ws;
  Ok out.2.

Definition LexicalEvaluator (reference : gset string) (at_least : spec_float) : Evaluator :=
  MkEvaluator false (fun input deadline =>
    step (check_time deadline) (fun _ =>
    step (give (words (in_text input))) (fun ws =>
    let union := Z.of_nat (size (reference ∪ ws)) in
    let score := SFdiv 53 1024 (f64_of (Z.of_nat (size (reference ∩ ws)))) (f64_of (Z.max union 1)) in
    step (check_time deadline) (fun _ => give (Ok (SFleb at_least score)))))).

(** ** The registry *)

Notation EvaluatorFactory := (Json -> inspected Evaluator).
Notation Registry := (gmap string EvaluatorFactory).

Definition name_byte (extra : list Z) (b : Z) : bool := is_ascii_alphanumeric b || bool_decide (b ∈ extra).

Definition register (name : string) (factory : EvaluatorFactory) (r : Registry) : inspected Registry :=
  if str_eq name "" || (64 <? Z.of_nat (String.length name)) || bool_decide (is_Some (r !! name))
     || negb (forallb (name_byte [46; 95; 45]) (bytes name))
  then refused else Ok (<[name := factory]> r).

(** ** Compilation *)

Record Engine := MkEngine { en_document : PolicyDocumentV1; en_evaluators : list Evaluator }.

Definition selector_list_ok (values : list string) : bool :=
  (Z.of_nat (length values) <=? 64)
  && forallb (fun s => negb (str_eq s "") && (Z.of_nat (String.length s) <=? 256)) values.

Definition build_evaluator (registry : Registry) (spec : EvaluatorSpec) : inspected Evaluator :=
  match spec with
  | Registered name configuration =>
      factory ← ok_or (registry !! name) TheEvaluationError; factory configuration
  | Regex pattern =>
      if str_eq pattern "" || (4096 <? Z.of_nat (String.length pattern)) then refused
      else m ← ok_or (regex_build pattern) TheEvaluationError; Ok (RegexEvaluator m)
  | Threshold metric above => Ok (ThresholdEvaluator metric above)
  | LexicalSimilarity reference at_least =>
      if (4096 <? Z.of_nat (String.length reference)) || negb (unit_interval at_least) then refused
      else ws ← words reference;
           if bool_decide (ws = ∅) then refused else Ok (LexicalEvaluator ws at_least)
  end.

(** One turn of the loop over the rules. *)
Definition compile_rule (registry : Registry) (acc : gset string * list Evaluator) (rule : Rule)
    : inspected (gset string * list Evaluator) :=
  let '(ids, evaluators) := acc in
  if str_eq (ru_id rule) "" || (64 <? Z.of_nat (String.length (ru_id rule)))
     || negb (forallb (name_byte [95; 45]) (bytes (ru_id rule)))
     || bool_decide (ru_id rule ∈ ids)
  then refused
  else
    let when := ru_when rule in
    _ ← bail (negb (forallb selector_list_ok [sl_subjects when; sl_groups when; sl_roles when; sl_upstreams when; sl_models when]))
          TheEvaluationError;
    _ ← bail (match sl_issuer when with
              | Some v => str_eq v "" || (2048 <? Z.of_nat (String.length v))
              | None => false
              end) TheEvaluationError;
    e ← build_evaluator registry (ru_evaluator rule);
    Ok ({[ ru_id rule ]} ∪ ids, evaluators ++ [e]).

Definition from_slice_with_registry (bs : list Z) (registry : Registry) : inspected Engine :=
  if 131072 <? Z.of_nat (length bs) then refused
  else
    value ← strict_json parse bs;
    document ← ok_or (decode_document value) TheEvaluationError;
    if negb (str_eq (pd_schema_version document) "1")
       || (pd_revision document =? 0)
       || negb ((1 <=? pd_deadline_ms document) && (pd_deadline_ms document <=? 2000))
       || negb ((1 <=? pd_max_body_bytes document) && (pd_max_body_bytes document <=? MAX_BODY_BYTES_CEILING))
       || bool_decide (pd_rules document = [])
       || (32 <? Z.of_nat (length (pd_rules document)))
    then refused
    else
      acc ← try_fold (compile_rule registry) (∅, []) (pd_rules document);
      Ok (MkEngine document acc.2).
Definition from_slice (bs : list Z) : inspected Engine := from_slice_with_registry bs ∅.

(** ** Decisions *)

(** A rule matched. *)
Definition record_match (rule : Rule) (d : Decision) : Decision :=
  MkDecision (de_revision d) (disposition_max (de_disposition d) (effect_disposition (ru_effect rule)))
    (de_matched_rules d ++ [ru_id rule]) (de_reason d) (de_elapsed_us d).
Definition is_forward (d : Decision) : bool := bool_decide (de_disposition d = DForward).

(** The rules of one phase; the decision so far survives an error. *)
Fixpoint run_rules (remote_phase : bool) (input : Inspection) (who : Identity) (upstream model : string) (deadline : Z)
    (rules : list (Rule * Evaluator)) (decision : Decision) (w : W) : inspected unit * Decision * W :=
  match rules with
  | [] => (Ok tt, decision, w)
  | (rule, evaluator) :: rules =>
      let continue := run_rules remote_phase input who upstream model deadline rules in
      if negb (Bool.eqb (ev_requires_text_egress evaluator) remote_phase) then continue decision w
      else if remote_phase && negb (is_forward decision) then (Ok tt, decision, w)
      else match check_time deadline w with
      | (Err e, w) => (Err e, decision, w)
      | (Ok _, w) =>
          match matches (ru_when rule) who upstream model with
          | Err e => (Err e, decision, w)
          | Ok false => continue decision w
          | Ok true =>
              match ev_evaluate evaluator input deadline w with
              | (Err e, w) => (Err e, decision, w)
              | (Ok true, w) => continue (record_match rule decision) w
              | (Ok false, w) => continue decision w
              end
          end
      end
  end.

(** The closure of [evaluate_with_format]. *)
Definition evaluate_rules (engine : Engine) (body : list Z) (who : Identity) (upstream model : string)
    (format : InputFormat) (deadline : Z) (decision : Decision) (w : W) : inspected unit * Decision * W :=
  match check_time deadline w with
  | (Err e, w) => (Err e, decision, w)
  | (Ok _, w) =>
      if pd_max_body_bytes (en_document engine) <? Z.of_nat (length body) then (refused, decision, w)
      else match inspect_format parse is_json body format with
      | Err e => (Err e, decision, w)
      | Ok input =>
          let pairs := zip (pd_rules (en_document engine)) (en_evaluators engine) in
          match run_rules false input who upstream model deadline pairs decision w with
          | (Err e, decision, w) => (Err e, decision, w)
          | (Ok _, decision, w) =>
              let '(r, decision, w) :=
                if negb (is_forward decision) then (Ok tt, decision, w)
                else run_rules true input who upstream model deadline pairs decision w in
              match r with
              | Err e => (Err e, decision, w)
              | Ok _ => let '(r, w) := check_time deadline w in (r, decision, w)
              end
          end
      end
  end.

Definition evaluate_with_format (engine : Engine) (body : list Z) (who : Identity) (upstream model : string)
    (format : InputFormat) (deadline : Z) (w : W) : Decision * W :=
  let '(start, w) := now w in
  let decision := MkDecision (pd_revision (en_document engine)) DForward [] "evaluated" 0 in
  let '(result, decision, w) := evaluate_rules engine body who upstream model format deadline decision w in
  let '(disposition, reason) :=
    match result with
    | Err _ => (if is_forward decision then DUnavailable else de_disposition decision, "incomplete_evaluation")
    | Ok _ => (de_disposition decision, de_reason decision)
    end in
  let '(finish, w) := now w in
  (MkDecision (de_revision decision) disposition (merge_sort String.le (de_matched_rules decision)) reason
     (Z.min (Z.max (finish - start) 0 / 1000) u64_max), w).
Definition evaluate (engine : Engine) (body : list Z) (who : Identity) (upstream model : string) (deadline : Z) (w : W)
    : Decision * W := evaluate_with_format engine body who upstream model Chat deadline w.

(** ** What an engine decides *)

(** The rule applies, and its evaluator answered [b] at some moment. *)
Definition answered (input : Inspection) (who : Identity) (upstream model : string) (deadline : Z)
    (re : Rule * Evaluator) (b : bool) : Prop :=
  matches (ru_when re.1) who upstream model = Ok true /\
  exists w w', ev_evaluate re.2 input deadline w = (Ok b, w').
(** The rule raises no objection. *)
Definition cleared (input : Inspection) (who : Identity) (upstream model : string) (deadline : Z)
    (re : Rule * Evaluator) : Prop :=
  matches (ru_when re.1) who upstream model = Ok false \/
  exists b, answered input who upstream model deadline re b /\ (b = true -> ru_effect re.1 = Audit).
(** The gravest disposition of the rules that matched. *)
Definition worst (hits : list Rule) : Disposition :=
  foldr (fun r d => disposition_max d (effect_disposition (ru_effect r))) DForward (reverse hits).

(** What the engine found out about a rule it came to: that the rule does
    not apply to the caller, or what its evaluator answered. *)
Inductive Verdict := NotApplicable | Answered (matched : bool).
Notation Judgement := ((Rule * Evaluator) * Verdict)%type.

(** A course of judgements that starts in one world and ends in another: each
    rule is looked at in time, and what was found is what the selector and
    the evaluator say there. *)
Inductive judged (input : Inspection) (who : Identity) (upstream model : string) (deadline : Z)
    : W -> list Judgement -> W -> Prop :=
| judged_nil w : judged input who upstream model deadline w [] w
| judged_skip re vs w w1 w2 :
    check_time deadline w = (Ok tt, w1) -> matches (ru_when re.1) who upstream model = Ok false ->
    judged input who upstream model deadline w1 vs w2 ->
    judged input who upstream model deadline w ((re, NotApplicable) :: vs) w2
| judged_ask re b vs w w1 w2 w3 :
    check_time deadline w = (Ok tt, w1) -> matches (ru_when re.1) who upstream model = Ok true ->
    ev_evaluate re.2 input deadline w1 = (Ok b, w2) ->
    judged input who upstream model deadline w2 vs w3 ->
    judged input who upstream model deadline w ((re, Answered b) :: vs) w3.
(** The rules found to match, in the order they were judged. *)
Definition found (vs : list Judgement) : list Rule :=
  omap (fun v : Judgement => match v.2 with Answered true => Some v.1.1 | _ => None end) vs.
(** The rules of one phase, and all rules in the order they are judged. *)
Definition phase (remote : bool) (rules : list (Rule * Evaluator)) : list (Rule * Evaluator) :=
  List.filter (fun re => Bool.eqb (ev_requires_text_egress re.2) remote) rules.
Definition agenda (engine : Engine) : list (Rule * Evaluator) :=
  let pairs := zip (pd_rules (en_document engine)) (en_evaluators engine) in phase false pairs ++ phase true pairs.

Lemma max_forward a b : disposition_max a b = DForward <-> a = DForward /\ b = DForward.
Proof. destruct a, b; cbv; naive_solver. Qed.
Lemma effect_forward e : effect_disposition e = DForward <-> e = Audit.
Proof. by destruct e. Qed.

Definition record_all (hits : list Rule) (d : Decision) : Decision := fold_left (fun d r => record_match r d) hits d.

Lemma record_all_matched hits : forall d,
  de_matched_rules (record_all hits d) = de_matched_rules d ++ (ru_id <$> hits)
  /\ de_revision (record_all hits d) = de_revision d /\ de_reason (record_all hits d) = de_reason d.
Proof.
  induction hits as [|r hits IH]; intros d; simpl; [by rewrite app_nil_r|].
  destruct (IH (record_match r d)) as (-> & -> & ->). simpl. by rewrite <- app_assoc.
Qed.

Lemma record_all_app a b d : record_all (a ++ b) d = record_all b (record_all a d).
Proof. apply fold_left_app. Qed.

Lemma record_all_worst hits d : de_disposition d = DForward -> de_disposition (record_all hits d) = worst hits.
Proof.
  intros Hd. induction hits as [|r hits IH] using rev_ind; [done|].
  rewrite record_all_app. unfold worst in *. rewrite reverse_snoc. simpl. by rewrite IH.
Qed.

Lemma record_forward r d : is_forward (record_match r d) = true -> is_forward d = true /\ ru_effect r = Audit.
Proof.
  unfold is_forward. rewrite !bool_decide_eq_true. simpl. by rewrite max_forward, effect_forward.
Qed.

Lemma record_all_forward hits : forall d, is_forward (record_all hits d) = true -> is_forward d = true.
Proof. induction hits as [|r hits IH]; intros d; simpl; [done|]. by intros [? _]%IH%record_forward. Qed.

Lemma judged_app input who upstream model deadline w a w1 b w2 :
  judged input who upstream model deadline w a w1 -> judged input who upstream model deadline w1 b w2 ->
  judged input who upstream model deadline w (a ++ b) w2.
Proof. intros Ha Hb. induction Ha; [done|by econstructor; eauto..]. Qed.
Lemma found_app a b : found (a ++ b) = found a ++ found b.
Proof. apply omap_app. Qed.

(** One phase judges its rules in order and records those that matched; it
    ends early only in the remote phase of a request that is denied. *)
Lemma run_rules_spec remote input who upstream model deadline rules : forall d w r d' w',
  run_rules remote input who upstream model deadline rules d w = (r, d', w') ->
  exists vs wj, judged input who upstream model deadline w vs wj /\ vs.*1 `prefix_of` phase remote rules
    /\ d' = record_all (found vs) d
    /\ (r = Ok tt -> wj = w' /\ (vs.*1 = phase remote rules \/ remote = true /\ is_forward d' = false)).
Proof.
  assert (Hstop : forall l d w e w', exists vs wj, judged input who upstream model deadline w vs wj
    /\ vs.*1 `prefix_of` l /\ d = record_all (found vs) d
    /\ ((Err e : inspected unit) = Ok tt -> wj = w' /\ (vs.*1 = l \/ remote = true /\ is_forward d = false))).
  { intros. exists [], w. split; [constructor|]. split; [apply prefix_nil|]. by split. }
  induction rules as [|[rule ev] rules IH]; intros d w r d' w' Hr; cbn [run_rules] in Hr.
  { inv_ok. exists [], w'. split; [constructor|]. split; [done|]. split; [done|]. intros _. split; [done|by left]. }
  unfold phase in *. cbn [List.filter snd]. destruct (Bool.eqb _ _) eqn:He; cbn [negb] in Hr; [|by apply IH].
  destruct (remote && negb (is_forward d)) eqn:Hb.
  { injection Hr as <- <- <-. bools. exists [], w. split; [constructor|]. split; [apply prefix_nil|]. split; [done|].
    intros _. split; [done|]. right. split; [done|]. by destruct (is_forward d). }
  destruct (check_time deadline w) as [[[]|e] w1] eqn:Ht; [|injection Hr as <- <- <-; apply Hstop].
  destruct (matches _ _ _ _) as [[]|e] eqn:Hm; [| |injection Hr as <- <- <-; apply Hstop].
  - destruct (ev_evaluate ev input deadline w1) as [[b|e] w2] eqn:Hev; [|destruct e; injection Hr as <- <- <-; apply Hstop].
    assert (Hgo : run_rules remote input who upstream model deadline rules (if b then record_match rule d else d) w2 = (r, d', w'))
      by (by destruct b).
    apply IH in Hgo as (vs & wj & Hj & Hp & -> & Hok). exists (((rule, ev), Answered b) :: vs), wj.
    split; [by eapply judged_ask|]. cbn. split; [by apply prefix_cons|]. split; [by destruct b|].
    intros H. destruct (Hok H) as [-> [->|Hs]]; split; auto.
  - apply IH in Hr as (vs & wj & Hj & Hp & -> & Hok). exists (((rule, ev), NotApplicable) :: vs), wj.
    split; [by eapply judged_skip|]. cbn. split; [by apply prefix_cons|]. split; [done|].
    intros H. destruct (Hok H) as [-> [->|Hs]]; split; auto.
Qed.

Lemma check_time_ok deadline w w' : check_time deadline w = (Ok tt, w') -> (now w).1 < deadline.
Proof. unfold check_time. destruct (now w) as [t w1]. destruct (deadline <=? t) eqn:Ht; [done|]. simpl. lia. Qed.

Lemma phases_permutation (rules : list (Rule * Evaluator)) : phase false rules ++ phase true rules ≡ₚ rules.
Proof.
  unfold phase. induction rules as [|re rules IH]; simpl; [done|]. destruct (ev_requires_text_egress re.2); simpl.
  - by rewrite <- Permutation_middle, IH.
  - by rewrite IH.
Qed.
(** No rule is judged twice. *)
Lemma found_submseteq engine vs : vs.*1 `prefix_of` agenda engine ->
  found vs ⊆+ (zip (pd_rules (en_document engine)) (en_evaluators engine)).*1.
Proof.
  intros [rest Hp]. rewrite <- (phases_permutation (zip _ _)). fold (agenda engine). rewrite Hp, fmap_app.
  apply submseteq_inserts_r. clear Hp. induction vs as [|[re v] vs IH]; [done|]. cbn.
  destruct v as [|[]]; cbn; [by apply submseteq_cons|by apply submseteq_skip|by apply submseteq_cons].
Qed.

Lemma evaluate_rules_spec engine body who upstream model format deadline d0 w r d w' :
  evaluate_rules engine body who upstream model format deadline d0 w = (r, d, w') -> is_forward d0 = true ->
  exists vs wj, vs.*1 `prefix_of` agenda engine /\ d = record_all (found vs) d0
    /\ match inspect_format parse is_json body format with
       | Ok input => judged input who upstream model deadline (check_time deadline w).2 vs wj
       | Err _ => vs = []
       end
    /\ (r = Ok tt ->
        Z.of_nat (length body) <= pd_max_body_bytes (en_document engine)
        /\ is_ok (inspect_format parse is_json body format) = true
        /\ (now wj).1 < deadline
        /\ (vs.*1 = agenda engine
            \/ phase false (zip (pd_rules (en_document engine)) (en_evaluators engine)) `prefix_of` vs.*1
               /\ is_forward d = false)).
Proof.
  intros Hr Hf0. unfold evaluate_rules in Hr. destruct (check_time deadline w) as [t w1] eqn:Ht. cbn [snd].
  assert (Hstop : forall e, (r, d, w') = (Err e, d0, w1) -> exists vs wj, vs.*1 `prefix_of` agenda engine /\ d = record_all (found vs) d0
    /\ match inspect_format parse is_json body format with
       | Ok input => judged input who upstream model deadline w1 vs wj | Err _ => vs = [] end
    /\ (r = Ok tt ->
        Z.of_nat (length body) <= pd_max_body_bytes (en_document engine)
        /\ is_ok (inspect_format parse is_json body format) = true /\ (now wj).1 < deadline
        /\ (vs.*1 = agenda engine
            \/ phase false (zip (pd_rules (en_document engine)) (en_evaluators engine)) `prefix_of` vs.*1 /\ is_forward d = false))).
  { intros e [= -> -> ->]. exists [], w1. split; [apply prefix_nil|]. split; [done|]. split; [destruct (inspect_format _ _ _ _); [constructor|done]|done]. }
  destruct t as [[]|e]; [|by apply (Hstop e)]. destruct (_ <? _) eqn:Hlen; [by eapply Hstop|].
  destruct (inspect_format parse is_json body format) as [input|e]; [|by apply (Hstop e)]. clear Hstop.
  set (pairs := zip (pd_rules (en_document engine)) (en_evaluators engine)) in *.
  destruct (run_rules false _ _ _ _ _ _ _ _) as [[rl dl] wl] eqn:Hl.
  apply run_rules_spec in Hl as (vl & wj & Hj & Hp & -> & Hok).
  destruct rl as [[]|e]; [|inv_ok; exists vl, wj; split; [by apply prefix_app_r|done]].
  destruct (Hok eq_refl) as [-> [Hall|[? _]]]; [|done]. clear Hok Hp.
  destruct (is_forward (record_all (found vl) d0)) eqn:Hfl; cbn [negb] in Hr.
  2:{ destruct (check_time deadline wl) as [r' w2] eqn:Ht2. inv_ok. exists vl, wl.
      split; [unfold agenda; fold pairs; rewrite <- Hall; by apply prefix_app_r|]. split; [done|]. split; [done|].
      intros ->. split; [lia|]. split; [done|]. split; [by eapply check_time_ok|]. right. by rewrite Hall. }
  destruct (run_rules true _ _ _ _ _ _ _ _) as [[rr dr] wr] eqn:Hr2.
  apply run_rules_spec in Hr2 as (vr & wk & Hk & Hp & -> & Hok). rewrite <- record_all_app, <- found_app in *.
  assert (Hpre : (vl ++ vr).*1 `prefix_of` agenda engine).
  { unfold agenda. fold pairs. rewrite fmap_app, Hall. by apply prefix_app. }
  pose proof (judged_app _ _ _ _ _ _ _ _ _ _ Hj Hk) as Hjk.
  destruct rr as [[]|e]; [|inv_ok; by exists (vl ++ vr), wk]. destruct (Hok eq_refl) as [-> Hd].
  destruct (check_time deadline wr) as [r' w2] eqn:Ht2. injection Hr as <- <- <-. exists (vl ++ vr), wr. repeat (split; [done|]).
  intros ->. split; [lia|]. split; [done|]. split; [by eapply check_time_ok|].
  unfold agenda. fold pairs. rewrite fmap_app, Hall.
  destruct Hd as [->|[_ Hd]]; [by left|right]. split; [by apply prefix_app_r|done].
Qed.

(** A rule that was judged and not found to object cleared. *)
Lemma judged_cleared input who upstream model deadline w vs w' : judged input who upstream model deadline w vs w' ->
  Forall (fun r => ru_effect r = Audit) (found vs) -> Forall (cleared input who upstream model deadline) vs.*1.
Proof.
  induction 1 as [w|re vs w w1 w2 Ht Hm Hj IH|re b vs w w1 w2 w3 Ht Hm He Hj IH]; intros Hf; cbn; constructor; [by left|by apply IH| |].
  - right. exists b. split; [split; [done|by exists w1, w2]|]. intros ->. by apply Forall_cons in Hf as [? _].
  - apply IH. destruct b; [by apply Forall_cons in Hf as [_ ?]|done].
Qed.
Lemma worst_forward hits : worst hits = DForward -> Forall (fun r => ru_effect r = Audit) hits.
Proof.
  induction hits as [|r hits IH] using rev_ind; [by constructor|]. unfold worst in *. rewrite reverse_snoc. cbn.
  intros [Hw He]%max_forward. apply Forall_app. split; [by apply IH|]. by apply Forall_singleton, effect_forward.
Qed.


(** ** Egress *)

(** The engine without the rules whose evaluators send the text out. *)
Definition local_pairs (pairs : list (Rule * Evaluator)) : list (Rule * Evaluator) :=
  List.filter (fun re => negb (ev_requires_text_egress re.2)) pairs.
Definition local_engine (engine : Engine) : Engine :=
  let doc := en_document engine in
  let pairs := local_pairs (zip (pd_rules doc) (en_evaluators engine)) in
  MkEngine (MkPolicyDocument (pd_schema_version doc) (pd_revision doc) (pd_deadline_ms doc) (pd_max_body_bytes doc) pairs.*1)
    pairs.*2.

Lemma run_local_filter input who upstream model deadline pairs : forall d w,
  run_rules false input who upstream model deadline (local_pairs pairs) d w
  = run_rules false input who upstream model deadline pairs d w.
Proof.
  induction pairs as [|[rule ev] pairs IH]; intros d w; [done|]. unfold local_pairs in *. cbn [List.filter run_rules snd].
  destruct (ev_requires_text_egress ev) eqn:He; cbn [negb Bool.eqb]; [apply IH|].
  cbn [run_rules]. rewrite He. cbn [negb Bool.eqb andb]. destruct (check_time deadline w) as [[[]|e] w1]; [|done].
  destruct (matches _ _ _ _) as [[]|e]; [|apply IH|done].
  destruct (ev_evaluate ev input deadline w1) as [[[]|e] w2]; [apply IH|apply IH|done].
Qed.

Lemma run_remote_local input who upstream model deadline pairs : forall d w,
  run_rules true input who upstream model deadline (local_pairs pairs) d w = (Ok tt, d, w).
Proof.
  induction pairs as [|[rule ev] pairs IH]; intros d w; [done|]. unfold local_pairs in *. cbn [List.filter snd].
  destruct (ev_requires_text_egress ev) eqn:He; cbn [negb]; [apply IH|].
  cbn [run_rules]. rewrite He. cbn [negb Bool.eqb]. apply IH.
Qed.

(** A remote phase that starts past the deadline evaluates nothing. *)
Lemma run_remote_late input who upstream model deadline pairs d w e w1 :
  check_time deadline w = (Err e, w1) -> is_forward d = true ->
  run_rules true input who upstream model deadline pairs d w = (Ok tt, d, w)
  \/ run_rules true input who upstream model deadline pairs d w = (Err e, d, w1).
Proof.
  intros Ht Hf. induction pairs as [|[rule ev] pairs IH]; [by left|]. cbn [run_rules].
  destruct (Bool.eqb _ _); cbn [negb]; [|done]. rewrite Hf, Ht. by right.
Qed.

(** Text leaves the process only for a request that passed every local
    check.  When the engine stripped of its remote evaluators does not
    forward a request, because a local rule denies it or a local check could
    not be completed, the full engine takes the same decision with the same
    effects on the world: no remote evaluator ran. *)
Theorem denied_text_is_not_sent engine body who upstream model format deadline w :
  de_disposition (evaluate_with_format (local_engine engine) body who upstream model format deadline w).1 <> DForward ->
  evaluate_with_format engine body who upstream model format deadline w
  = evaluate_with_format (local_engine engine) body who upstream model format deadline w.
Proof.
  unfold evaluate_with_format. destruct (now w) as [start w1]. cbn [en_document local_engine pd_revision].
  set (d0 := MkDecision _ DForward [] _ 0). intros Hd.
  cut (evaluate_rules engine body who upstream model format deadline d0 w1
       = evaluate_rules (local_engine engine) body who upstream model format deadline d0 w1); [by intros ->|].
  revert Hd. unfold evaluate_rules. destruct (check_time deadline w1) as [[[]|e] w2]; [|done].
  cbn [en_document local_engine pd_max_body_bytes pd_rules en_evaluators]. rewrite zip_fst_snd.
  destruct (_ <? _); [done|]. destruct (inspect_format _ _ _ _) as [input|e]; [|done].
  rewrite run_local_filter, ?run_remote_local.
  destruct (run_rules false _ _ _ _ _ _ _ _) as [[[[]|e] d1] w3]; [|done].
  destruct (is_forward d1) eqn:Hf; cbn [negb]; [|done]. rewrite run_remote_local.
  destruct (check_time deadline w3) as [[[]|e] w4] eqn:Ht.
  - destruct (now w4). cbn. apply bool_decide_eq_true in Hf. congruence.
  - intros _. destruct (run_remote_late input who upstream model deadline
      (zip (pd_rules (en_document engine)) (en_evaluators engine)) d1 w3 e w4 Ht Hf) as [-> | ->]; by rewrite ?Ht.
Qed.

(** ** Compiled engines *)

Definition rule_id_ok (id : string) : Prop :=
  id <> "" /\ (String.length id <= 64)%nat /\ Forall (fun b => name_byte [95; 45] b = true) (bytes id).

(** The document is within its limits, the rules have distinct, short ids,
    and the evaluators are those of the rules, in their order. *)
Record engine_ok (registry : Registry) (e : Engine) : Prop := {
  eo_rules : (1 <= length (pd_rules (en_document e)) <= 32)%nat;
  eo_deadline : 1 <= pd_deadline_ms (en_document e) <= 2000;
  eo_body : 1 <= pd_max_body_bytes (en_document e) <= MAX_BODY_BYTES_CEILING;
  eo_ids : NoDup (ru_id <$> pd_rules (en_document e));
  eo_names : Forall (fun r => rule_id_ok (ru_id r)) (pd_rules (en_document e));
  eo_evaluators : Forall2 (fun r ev => build_evaluator registry (ru_evaluator r) = Ok ev)
                    (pd_rules (en_document e)) (en_evaluators e) }.

Lemma compile_rule_ok registry ids evs rule ids' evs' :
  compile_rule registry (ids, evs) rule = Ok (ids', evs') ->
  rule_id_ok (ru_id rule) /\ ru_id rule ∉ ids /\ ids' = {[ ru_id rule ]} ∪ ids
  /\ exists ev, build_evaluator registry (ru_evaluator rule) = Ok ev /\ evs' = evs ++ [ev].
Proof.
  unfold compile_rule. destruct (_ || _) eqn:Hid; [done|]. intros Hc. inv_ok. bools. unfold str_eq in *.
  rewrite bool_decide_eq_false in *. split_and!; [|done|done|by eexists].
  split_and!; [done|lia|]. apply Forall_forall. intros b Hb%list_elem_of_In. by eapply forallb_forall in Hb.
Qed.

Lemma compile_rules_ok registry rules : forall ids evs ids' evs',
  try_fold (compile_rule registry) (ids, evs) rules = Ok (ids', evs') ->
  Forall (fun r => rule_id_ok (ru_id r)) rules /\ NoDup (ru_id <$> rules)
  /\ Forall (fun r => ru_id r ∉ ids) rules
  /\ exists new, evs' = evs ++ new
     /\ Forall2 (fun r ev => build_evaluator registry (ru_evaluator r) = Ok ev) rules new.
Proof.
  induction rules as [|r rules IH]; intros ids evs ids' evs' Hf; cbn [try_fold] in Hf.
  { inv_ok. split_and!; try constructor. exists []. split; [by rewrite app_nil_r|constructor]. }
  apply result_bind_ok in Hf as ([ids1 evs1] & Hc & Hf).
  apply compile_rule_ok in Hc as (Hok & Hnew & -> & ev & Hev & ->).
  apply IH in Hf as (H1 & H2 & H3 & new & -> & H4). rewrite Forall_forall in H3. split_and!.
  - by constructor.
  - rewrite fmap_cons. constructor; [|done]. intros (r' & Heq & Hin)%list_elem_of_fmap.
    specialize (H3 r' Hin). set_solver.
  - constructor; [done|]. apply Forall_forall. intros r' Hin. specialize (H3 r' Hin). set_solver.
  - exists (ev :: new). split; [by rewrite <- app_assoc|by constructor].
Qed.

(** C15: A compiled engine is well formed, and so are its decisions.  What
    [from_slice_with_registry] accepts has between 1 and 32 rules with
    distinct, short, printable ids, a deadline of at most two seconds and a
    body limit of at most 4 MiB, and every rule is judged by the evaluator
    built from its own specification.  So every decision of such an engine
    names at most 32 rules, each at most once. *)
Theorem compiled_engine_is_well_formed bs registry engine :
  from_slice_with_registry bs registry = Ok engine ->
  engine_ok registry engine
  /\ forall body who upstream model format deadline w,
     let d := (evaluate_with_format engine body who upstream model format deadline w).1 in
     NoDup (de_matched_rules d) /\ (length (de_matched_rules d) <= 32)%nat
     /\ de_matched_rules d ⊆ (ru_id <$> pd_rules (en_document engine)).
Proof.
  intros Hs. assert (Hok : engine_ok registry engine).
  { unfold from_slice_with_registry in Hs. destruct (_ <? _); [done|]. inv_ok.
    destruct (_ || _) eqn:Hv; [done|]. inv_ok. destruct x1 as [ids evs]. bools. rewrite bool_decide_eq_false in *.
    match goal with H : try_fold _ _ _ = _ |- _ => apply compile_rules_ok in H as (H1' & H2' & _ & new & -> & H4') end.
    split; cbn; try done; try lia.
    assert (length (pd_rules x0) <> 0)%nat by (by intros ?%nil_length_inv). lia. }
  split; [done|]. intros body who upstream model format deadline w d.
  assert (Hm : exists hits, de_matched_rules d ≡ₚ (ru_id <$> hits)
     /\ hits ⊆+ (zip (pd_rules (en_document engine)) (en_evaluators engine)).*1).
  { unfold d, evaluate_with_format. destruct (now w) as [start w1].
    set (d0 := MkDecision (pd_revision (en_document engine)) DForward [] "evaluated" 0).
    destruct (evaluate_rules _ _ _ _ _ _ _ _ _) as [[r d1] w2] eqn:Hr.
    apply evaluate_rules_spec in Hr as (vs & wj & Hsub & -> & _); [|done]. apply found_submseteq in Hsub.
    destruct r; destruct (now w2); exists (found vs); (split; [|done]); cbn; rewrite merge_sort_Permutation;
      by rewrite (proj1 (record_all_matched (found vs) d0)). }
  destruct Hm as (hits & Hperm & Hsub). pose proof (Forall2_length _ _ _ (eo_evaluators _ _ Hok)) as Hlen.
  assert (Hsub' : (ru_id <$> hits) ⊆+ (ru_id <$> pd_rules (en_document engine))).
  { rewrite <- (fst_zip (pd_rules (en_document engine)) (en_evaluators engine)) by lia. by apply fmap_submseteq. }
  rewrite <- Hperm in Hsub'. split_and!.
  - apply submseteq_Permutation in Hsub' as [rest Hrest]. pose proof (eo_ids _ _ Hok) as Hnd.
    rewrite Hrest in Hnd. by apply NoDup_app in Hnd as [? _].
  - apply submseteq_length in Hsub'. rewrite length_fmap in Hsub'. destruct (eo_rules _ _ Hok). lia.
  - intros x Hx. by eapply elem_of_submseteq.
Qed.
End Engine.

(** ** An instance

    A clock that ticks, patterns that are substrings, and a document with a
    remote rule first and a local one that blocks. *)
Definition demo_now (w : Z) : Z * Z := (w, w + 1).
Definition demo_regex (pattern : string) : option (string -> bool) :=
  Some (fun t => match String.index 0 pattern t with Some _ => true | None => false end).
Definition demo_selector : Selector := MkSelector None [] [] [] [] [].
Definition demo_document : PolicyDocumentV1 := MkPolicyDocument "1" 3 1000 1000
  [MkRule "remote" demo_selector (Registered "scan" JNull) Quarantine;
   MkRule "secrets" demo_selector (Regex "/etc/") Block].
Definition demo_policy_body : list Z := bytes "{the policy}".
Definition demo_message (text : string) : Json := JObject
  [("messages", JArray [JObject [("role", JString "user"); ("content", JString text)]])].
Definition demo_reader (bs : list Z) : option Json :=
  if bool_decide (bs = demo_policy_body) then Some JNull
  else if bool_decide (bs = bytes "good") then Some (demo_message "read a book")
  else if bool_decide (bs = bytes "bad") then Some (demo_message "read /etc/passwd")
  else None.
(** The remote scanner takes a long time, and finds nothing. *)
Definition demo_scan : Evaluator (W := Z) := MkEvaluator true (fun _ _ w => (Ok false, w + 100)).
Definition demo_registry : gmap string (Json -> inspected (Evaluator (W := Z))) := {[ "scan" := fun _ => Ok demo_scan ]}.
Definition demo_compile : inspected (Engine (W := Z)) :=
  from_slice_with_registry demo_now demo_reader (fun _ => Some demo_document) demo_regex is_ascii_alphanumeric id
    demo_policy_body demo_registry.
Definition demo_who : Identity := MkIdentity None None [] [] false.
Definition demo_evaluate (e : Engine (W := Z)) (body : string) : Decision * Z :=
  evaluate_with_format demo_now demo_reader (fun _ => false) e (bytes body) demo_who "openai" "m" Chat 1000 0.

Lemma compiled_engine_is_well_formed_witness :
  exists e, demo_compile = Ok e /\ NoDup (de_matched_rules (demo_evaluate e "bad").1).
Proof.
  destruct demo_compile as [e|] eqn:He; [|vm_compute in He; discriminate].
  exists e. split; [done|].
  by apply (compiled_engine_is_well_formed demo_now demo_reader (fun _ => false) (fun _ => Some demo_document) demo_regex
    is_ascii_alphanumeric id demo_policy_body demo_registry e He).
Defined.


Lemma denied_text_is_not_sent_witness :
  exists e, demo_compile = Ok e /\ (demo_evaluate e "bad").2 < 100 /\ 100 < (demo_evaluate e "good").2.
Proof.
  destruct demo_compile as [e|] eqn:He; [|vm_compute in He; discriminate].
  exists e. vm_compute in He. injection He as <-. split; [done|]. split; [|vm_compute; reflexivity].
  unfold demo_evaluate. rewrite denied_text_is_not_sent; [vm_compute; reflexivity|vm_compute; discriminate].
Defined.
