(* ===== verification/PolicyGate.v ===== *)
(** The policy gate of the proxy ([proxy/policy.rs]) and the receipts it
    must leave ([store/policy.rs]).

    A check takes a slot, evaluates and records on a worker thread, and
    gives the slot back when the worker is done; the request waits for the
    worker until its deadline.  Workers and waiters interleave in any order.
    A statement of the store may fail, and a commit may fail before or after
    it took effect. *)

From S2P Require Import Prelude Json Text Inspect Policy.

(** ** Receipts *)

Record ReceiptRow := MkReceipt {
  re_created_at : string; re_issuer : option string; re_subject_id : option string;
  re_virtual_key_id : string; re_decision_json : string }.
Record PolicyAuditStore := MkAudit { au_receipts : gmap string ReceiptRow; au_max_rows : Z }.

Inductive AuditError := InvalidQuery | SqliteFailure.

(** [open], on the rows already in the file. *)
Definition audit_open (rows : gmap string ReceiptRow) (max_rows : Z) : result AuditError PolicyAuditStore :=
  if (max_rows =? 0) || (100000 <? max_rows) then Err InvalidQuery else Ok (MkAudit rows max_rows).

Definition receipt_count (s : PolicyAuditStore) : Z := Z.of_nat (size (au_receipts s)).

Record ReceiptSummary := MkSummary { su_used : Z; su_capacity : Z; su_remaining : Z; su_full : bool }.
Definition audit_summary (lock_free query_ok : bool) (s : PolicyAuditStore) : result AuditError ReceiptSummary :=
  if negb lock_free then Err InvalidQuery
  else if negb query_ok then Err SqliteFailure
  else let used := receipt_count s in
       Ok (MkSummary used (au_max_rows s) (sat_sub (au_max_rows s) used) (au_max_rows s <=? used)).

Inductive CommitOutcome := Committed | LostBefore | LostAfter.
(** What the file and the randomness do during one call: whether the lock
    is free, which statements succeed, the id and the time SQLite produces. *)
Record AuditRun := MkAuditRun {
  ar_lock_free : bool; ar_begin_ok : bool; ar_count_ok : bool; ar_insert_ok : bool; ar_commit : CommitOutcome;
  ar_id : string; ar_now : string }.

Section Gate.
Context {W : Type} (now : W -> Z * W).
Context (parse : list Z -> option Json) (is_json : list Z -> bool).
Context (to_string : Decision -> option string).
Context (engine : Engine (W := W)).

Definition str_len (s : string) : Z := Z.of_nat (String.length s).

Definition record (run : AuditRun) (identity : Identity) (key_id : string) (decision : Decision) (s : PolicyAuditStore)
    : result AuditError string * PolicyAuditStore :=
  match to_string decision with
  | None => (Err InvalidQuery, s)
  | Some json =>
      if (8192 <? str_len json) || (256 <? str_len key_id)
         || match id_issuer identity with Some i => 2048 <? str_len i | None => false end
         || match id_subject identity with Some i => 256 <? str_len i | None => false end
      then (Err InvalidQuery, s)
      else if negb (ar_lock_free run) then (Err InvalidQuery, s)
      else if negb (ar_begin_ok run) then (Err SqliteFailure, s)
      else if negb (ar_count_ok run) then (Err SqliteFailure, s)
      else if au_max_rows s <=? receipt_count s then (Err InvalidQuery, s)
      else if negb (ar_insert_ok run) || bool_decide (is_Some (au_receipts s !! ar_id run)) then (Err SqliteFailure, s)
      else
        let row := MkReceipt (ar_now run) (id_issuer identity) (id_subject identity) key_id json in
        let s' := MkAudit (<[ar_id run := row]> (au_receipts s)) (au_max_rows s) in
        match ar_commit run with
        | Committed => (Ok (ar_id run), s')
        | LostBefore => (Err SqliteFailure, s)
        | LostAfter => (Err SqliteFailure, s')
        end
  end.

(** ** The gate *)

Record Admission := MkAdmission { ad_decision : Decision; ad_receipt : string }.
Inductive Unavailable := TheUnavailable.

(** The arguments of [check_input] that the worker owns, and its deadline. *)
Record Check := MkCheck {
  ck_body : list Z; ck_identity : Identity; ck_key : string; ck_upstream : string; ck_model : string;
  ck_format : option InputFormat; ck_deadline : Z }.

(** The closure run by [spawn_blocking]. *)
Definition check_work (run : AuditRun) (c : Check) (w : W) (s : PolicyAuditStore)
    : result Unavailable Admission * W * PolicyAuditStore :=
  let '(decision, w) :=
    match ck_format c with
    | Some format =>
        evaluate_with_format now parse is_json engine (ck_body c) (ck_identity c) (ck_upstream c) (ck_model c) format
          (ck_deadline c) w
    | None => (MkDecision (pd_revision (en_document engine)) DUnavailable [] "unsupported_dialect" 0, w)
    end in
  let '(t, w) := now w in
  if ck_deadline c <=? t then (Err TheUnavailable, w, s)
  else match record run (ck_identity c) (ck_key c) decision s with
  | (Err _, s) => (Err TheUnavailable, w, s)
  | (Ok receipt, s) =>
      let '(t, w) := now w in
      if ck_deadline c <=? t then (Err TheUnavailable, w, s)
      else (Ok (MkAdmission decision receipt), w, s)
  end.

Definition SLOTS : nat := 4.

(** The free slots, the workers that hold one, the outcomes of the workers
    that are done, who still waits, the number of checks, the answers given, newest first. *)
Record GateState := MkGate {
  gt_free : nat; gt_running : gmap nat Check; gt_done : gmap nat (Check * result Unavailable Admission);
  gt_waiting : gmap nat Check; gt_next : nat; gt_answers : list (nat * (Check * result Unavailable Admission));
  gt_audit : PolicyAuditStore; gt_world : W }.

Definition gate_new (s : PolicyAuditStore) (w : W) : GateState := MkGate SLOTS ∅ ∅ ∅ 0 [] s w.

Inductive GateEvent :=
| CheckInput (body : list Z) (identity : Identity) (key upstream model : string) (format : option InputFormat)
| WorkerRuns (id : nat) (run : AuditRun)
| WorkerDies (id : nat)
| WaitTimesOut (id : nat)
| WaitEnds (id : nat).

Definition millis (ms : Z) : Z := ms * 1000000.

(** [check_input] up to the spawn: the deadline, then [try_acquire_owned]. *)
Definition start_check (body : list Z) (identity : Identity) (key upstream model : string) (format : option InputFormat)
    (g : GateState) : GateState :=
  let '(start, w) := now (gt_world g) in
  let c := MkCheck body identity key upstream model format (start + millis (pd_deadline_ms (en_document engine))) in
  match gt_free g with
  | O => MkGate O (gt_running g) (gt_done g) (gt_waiting g) (S (gt_next g))
           ((gt_next g, (c, Err TheUnavailable)) :: gt_answers g) (gt_audit g) w
  | S free => MkGate free (<[gt_next g := c]> (gt_running g)) (gt_done g) (<[gt_next g := c]> (gt_waiting g))
                (S (gt_next g)) (gt_answers g) (gt_audit g) w
  end.

(** The worker ends: the permit is dropped with it. *)
Definition end_worker (id : nat) (c : Check) (r : result Unavailable Admission) (w : W) (s : PolicyAuditStore)
    (g : GateState) : GateState :=
  MkGate (S (gt_free g)) (delete id (gt_running g)) (<[id := (c, r)]> (gt_done g)) (gt_waiting g) (gt_next g)
    (gt_answers g) s w.
Definition answer (id : nat) (c : Check) (r : result Unavailable Admission) (g : GateState) : GateState :=
  MkGate (gt_free g) (gt_running g) (gt_done g) (delete id (gt_waiting g)) (gt_next g) ((id, (c, r)) :: gt_answers g)
    (gt_audit g) (gt_world g).

Definition gate_step (g : GateState) (e : GateEvent) : GateState :=
  match e with
  | CheckInput body identity key upstream model format => start_check body identity key upstream model format g
  | WorkerRuns id run =>
      match gt_running g !! id with
      | Some c => let '(r, w, s) := check_work run c (gt_world g) (gt_audit g) in end_worker id c r w s g
      | None => g
      end
  | WorkerDies id =>
      match gt_running g !! id with
      | Some c => end_worker id c (Err TheUnavailable) (gt_world g) (gt_audit g) g
      | None => g
      end
  | WaitTimesOut id => match gt_waiting g !! id with Some c => answer id c (Err TheUnavailable) g | None => g end
  | WaitEnds id =>
      match gt_waiting g !! id, gt_done g !! id with
      | Some c, Some (_, r) => answer id c r g
      | _, _ => g
      end
  end.
Definition gate_run (g : GateState) (es : list GateEvent) : GateState := fold_left gate_step es g.

(** ** Admissions and receipts *)

(** What the worker decides about a check. *)
Definition decide_check (c : Check) (w : W) : Decision * W :=
  match ck_format c with
  | Some format =>
      evaluate_with_format now parse is_json engine (ck_body c) (ck_identity c) (ck_upstream c) (ck_model c) format
        (ck_deadline c) w
  | None => (MkDecision (pd_revision (en_document engine)) DUnavailable [] "unsupported_dialect" 0, w)
  end.

(** The admission was decided for this check in time, and the row under its
    receipt says so. *)
Definition receipted (s : PolicyAuditStore) (c : Check) (a : Admission) : Prop :=
  (exists w w', decide_check c w = (ad_decision a, w')) /\ (exists w, (now w).1 < ck_deadline c)
  /\ exists row, au_receipts s !! ad_receipt a = Some row
     /\ re_virtual_key_id row = ck_key c /\ re_issuer row = id_issuer (ck_identity c)
     /\ re_subject_id row = id_subject (ck_identity c) /\ to_string (ad_decision a) = Some (re_decision_json row).

Definition within (s : PolicyAuditStore) : Prop := receipt_count s <= au_max_rows s.
(** Receipts are only added. *)
Definition grows (s s' : PolicyAuditStore) : Prop := au_receipts s ⊆ au_receipts s' /\ au_max_rows s' = au_max_rows s.

Lemma record_spec run who key d s r s' : record run who key d s = (r, s') -> within s ->
  grows s s' /\ within s' /\
  match r with
  | Ok id => au_receipts s !! id = None /\ exists row, au_receipts s' !! id = Some row
      /\ re_virtual_key_id row = key /\ re_issuer row = id_issuer who /\ re_subject_id row = id_subject who
      /\ to_string d = Some (re_decision_json row)
  | Err _ => True
  end.
Proof.
  unfold record. intros Hr Hw.
  assert (Hsame : grows s s) by done.
  destruct (to_string d) as [json|] eqn:Hj; [|by injection Hr as <- <-].
  repeat (match goal with H : (if ?b then _ else _) = _ |- _ => destruct b eqn:? end; [by injection Hr as <- <-|]).
  bools. rewrite bool_decide_eq_false, <- eq_None_not_Some in *. rename H0 into Hnone.
  assert (Hnew : let s' := MkAudit (<[ar_id run := MkReceipt (ar_now run) (id_issuer who) (id_subject who) key json]> (au_receipts s))
                             (au_max_rows s) in grows s s' /\ within s').
  { split; [split; [by apply insert_subseteq|done]|]. unfold within, receipt_count in *. cbn. rewrite map_size_insert_None by done. lia. }
  destruct (ar_commit run); injection Hr as <- <-; destruct Hnew; split_and!; try done.
  eexists. split; [apply lookup_insert_eq|done].
Qed.

Lemma check_work_spec run c w s r w' s' : check_work run c w s = (r, w', s') -> within s ->
  grows s s' /\ within s' /\
  match r with Ok a => au_receipts s !! ad_receipt a = None /\ receipted s' c a | Err _ => True end.
Proof.
  unfold check_work. fold (decide_check c w). intros Hr Hw. destruct (decide_check c w) as [d w1] eqn:Hd.
  destruct (now w1) as [t w2]. destruct (_ <=? t); [injection Hr as <- <- <-; by split|].
  destruct (record _ _ _ _ _) as [[id|e] s1] eqn:Hrec; apply record_spec in Hrec as (Hg & Hw1 & Hid); try done;
    [|injection Hr as <- <- <-; by split].
  destruct (now w2) as [t2 w3] eqn:Ht2. destruct (ck_deadline c <=? t2) eqn:Hdl; [injection Hr as <- <- <-; by split|].
  injection Hr as <- <- <-. split; [done|]. split; [done|]. destruct Hid as [Hn Hrow]. split; [done|].
  split_and!; [by exists w, w1|exists w2; rewrite Ht2; simpl; lia|done].
Qed.

Lemma receipted_grows s s' c a : grows s s' -> receipted s c a -> receipted s' c a.
Proof.
  intros [Hs _] (H1 & H2 & row & Hrow & H3). split_and!; [done..|]. exists row. split; [|done]. by eapply lookup_weaken.
Qed.

Record gate_inv (g : GateState) : Prop := {
  gi_slots : (gt_free g + size (gt_running g) = SLOTS)%nat;
  gi_rows : within (gt_audit g);
  gi_fresh : forall id, (gt_next g <= id)%nat ->
    gt_running g !! id = None /\ gt_done g !! id = None /\ gt_waiting g !! id = None /\ id ∉ (gt_answers g).*1;
  gi_ended : forall id c, gt_running g !! id = Some c -> gt_done g !! id = None;
  gi_waits : forall id c, gt_waiting g !! id = Some c ->
    (gt_running g !! id = Some c \/ exists r, gt_done g !! id = Some (c, r)) /\ id ∉ (gt_answers g).*1;
  gi_done : forall id c a, gt_done g !! id = Some (c, Ok a) -> receipted (gt_audit g) c a;
  gi_once : forall i j c c' a b, gt_done g !! i = Some (c, Ok a) -> gt_done g !! j = Some (c', Ok b) ->
    ad_receipt a = ad_receipt b -> i = j;
  gi_answers : forall id c a, (id, (c, Ok a)) ∈ gt_answers g -> gt_done g !! id = Some (c, Ok a);
  gi_answered : NoDup (gt_answers g).*1 }.

Lemma gate_new_inv s w : within s -> gate_inv (gate_new s w).
Proof. intros Hs. split; cbn; try done; try set_solver. constructor. Qed.

Lemma start_inv body identity key upstream model format g :
  gate_inv g -> gate_inv (start_check body identity key upstream model format g).
Proof.
  intros [Hs Hr Hf He Hw Hd Ho Ha Hn]. unfold start_check. destruct (now (gt_world g)) as [start w].
  destruct (Hf (gt_next g)) as (Hf1 & Hf2 & Hf3 & Hf4); [lia|].
  destruct (gt_free g) as [|free] eqn:Hfree; split; cbn; try done.
  - intros id Hid. destruct (Hf id) as (? & ? & ? & ?); [lia|]. split_and!; try done. set_unfold. intros [-> | ?]; [lia|done].
  - intros id c Hc. destruct (Hw id c Hc) as [? ?]. split; [done|]. set_unfold. intros [-> | ?]; [congruence|done].
  - intros id c a. rewrite elem_of_cons. intros [?|?]; [done|by apply Ha].
  - by constructor.
  - rewrite map_size_insert_None by done. lia.
  - intros id Hid. destruct (Hf id) as (? & ? & ? & ?); [lia|]. rewrite !lookup_insert_ne by lia. done.
  - intros id c. destruct (decide (id = gt_next g)) as [->|]; [done|]. rewrite lookup_insert_ne by done. apply He.
  - intros id c. destruct (decide (id = gt_next g)) as [->|]; [rewrite !lookup_insert_eq; naive_solver|].
    rewrite !lookup_insert_ne by done. apply Hw.
Qed.

Lemma end_worker_inv id c r w s g :
  gate_inv g -> gt_running g !! id = Some c -> grows (gt_audit g) s -> within s ->
  match r with Ok a => au_receipts (gt_audit g) !! ad_receipt a = None /\ receipted s c a | Err _ => True end ->
  gate_inv (end_worker id c r w s g).
Proof.
  intros [Hs Hr Hf He Hw Hd Ho Ha Hn] Hc Hg Hws Hra.
  assert (Hold : forall i c' b, gt_done g !! i = Some (c', Ok b) -> is_Some (au_receipts (gt_audit g) !! ad_receipt b)).
  { intros i c' b (_ & _ & row & Hrow & _)%Hd. by exists row. }
  assert (Hdone : gt_done g !! id = None) by (by eapply He).
  split; cbn; try done.
  - rewrite map_size_delete_Some by (by eexists). destruct (decide (size (gt_running g) = 0%nat)) as [Hz|]; [|unfold SLOTS in *; lia].
    apply map_size_empty_inv in Hz. rewrite Hz in Hc. done.
  - intros i Hi. destruct (Hf i Hi) as (? & ? & ? & ?). assert (id <> i) by congruence.
    by rewrite lookup_delete_ne, lookup_insert_ne.
  - intros i c'. destruct (decide (i = id)) as [->|]; [by rewrite lookup_delete_eq|].
    rewrite lookup_delete_ne, lookup_insert_ne by done. apply He.
  - intros i c' Hi. destruct (Hw i c' Hi) as [Hor ?]. split; [|done]. destruct (decide (i = id)) as [->|].
    + right. exists r. rewrite lookup_insert_eq. destruct Hor as [Hor|[r' Hor]]; congruence.
    + by rewrite lookup_delete_ne, lookup_insert_ne.
  - intros i c' a. destruct (decide (i = id)) as [->|].
    + rewrite lookup_insert_eq. intros [= -> ->]. apply Hra.
    + rewrite lookup_insert_ne by done. intros H%Hd. by eapply receipted_grows.
  - intros i j c1 c2 a b. rewrite !lookup_insert. repeat case_decide; subst; try done.
    + intros [= -> ->] Hj Heq. destruct Hra as [Hra _]. destruct (Hold _ _ _ Hj). congruence.
    + intros Hi [= -> ->] Heq. destruct Hra as [Hra _]. destruct (Hold _ _ _ Hi). congruence.
    + apply Ho.
  - intros i c' a Hi%Ha. rewrite lookup_insert_ne; [done|]. congruence.
Qed.

Lemma answer_inv id c r g :
  gate_inv g -> gt_waiting g !! id = Some c ->
  match r with Ok a => gt_done g !! id = Some (c, Ok a) | Err _ => True end -> gate_inv (answer id c r g).
Proof.
  intros [Hs Hr Hf He Hw Hd Ho Ha Hn] Hc Hra. destruct (Hw id c Hc) as [Hor Hnot]. split; cbn; try done.
  - intros i Hi. destruct (Hf i Hi) as (? & ? & ? & ?). assert (id <> i) by congruence.
    rewrite lookup_delete_ne by done. split_and!; try done. set_solver.
  - intros i c'. destruct (decide (i = id)) as [->|]; [by rewrite lookup_delete_eq|]. rewrite lookup_delete_ne by done.
    intros Hi. destruct (Hw i c' Hi). split; [done|]. set_solver.
  - intros i c' a. rewrite elem_of_cons. intros [[= -> -> <-]|?]; [done|by apply Ha].
  - by constructor.
Qed.

Lemma gate_step_inv g e : gate_inv g -> gate_inv (gate_step g e).
Proof.
  intros Hi. destruct e as [body identity key upstream model format|id run|id|id|id]; cbn [gate_step].
  - by apply start_inv.
  - destruct (gt_running g !! id) as [c|] eqn:Hc; [|done].
    destruct (check_work _ _ _ _) as [[r w] s] eqn:Hr. apply check_work_spec in Hr as (? & ? & ?); [|apply Hi].
    by apply end_worker_inv.
  - destruct (gt_running g !! id) as [c|] eqn:Hc; [|done]. apply end_worker_inv; try done. apply Hi.
  - destruct (gt_waiting g !! id) as [c|] eqn:Hc; [|done]. by apply answer_inv.
  - destruct (gt_waiting g !! id) as [c|] eqn:Hc; [|done]. destruct (gt_done g !! id) as [[c' r]|] eqn:Hr; [|done].
    apply answer_inv; [done..|]. destruct r as [a|]; [|done]. rewrite Hr.
    destruct (gi_waits _ Hi id c Hc) as [[Hrun|[r Hd]] _]; [|congruence].
    by rewrite (gi_ended _ Hi id c Hrun) in Hr.
Qed.

Lemma gate_run_inv es : forall g, gate_inv g -> gate_inv (gate_run g es).
Proof. induction es as [|e es IH]; intros g Hg; [done|]. by apply IH, gate_step_inv. Qed.

(** The receipts handed out, one for each admission. *)
Definition receipts_given (g : GateState) : list string :=
  omap (fun x => match x.2.2 with Ok a => Some (ad_receipt a) | Err _ => None end) (gt_answers g).

Lemma receipts_given_nodup g : gate_inv g -> NoDup (receipts_given g).
Proof.
  intros Hg. destruct Hg as [_ _ _ _ _ _ Ho Ha Hn]. unfold receipts_given.
  induction (gt_answers g) as [|[i [c r]] l IH]; [constructor|]. apply NoDup_cons in Hn as [Hi Hn].
  assert (IH' : NoDup (omap (fun x : nat * (Check * result Unavailable Admission) =>
    match x.2.2 with Ok a => Some (ad_receipt a) | Err _ => None end) l)).
  { apply IH; [|done]. intros id c' a H. apply Ha. by right. }
  simpl.
  destruct r as [a|]; [|done]. simpl. constructor; [|done].
  intros ([j [c' r']] & Hin & Hj)%list_elem_of_omap. destruct r' as [b|]; simpl in Hj; [|done]. injection Hj as Heq.
  assert (i = j). { eapply Ho; [apply Ha; left|apply Ha; right; exact Hin|done]. }
  subst j. apply Hi. by apply (list_elem_of_fmap_2 fst) in Hin.
Qed.

End Gate.

(** Two checks at a store with room for one receipt: the second finds the
    audit full, and is not admitted. *)
Definition demo_audit : PolicyAuditStore := MkAudit ∅ 1.
Definition demo_run (id : string) : AuditRun := MkAuditRun true true true true Committed id "now".
Definition demo_checks : list GateEvent :=
  [CheckInput (bytes "good") demo_who "k1" "openai" "m" (Some Chat);
   CheckInput (bytes "good") demo_who "k2" "openai" "m" (Some Chat);
   WorkerRuns 0 (demo_run "a"); WorkerRuns 1 (demo_run "b"); WaitEnds 0; WaitEnds 1].

