(* ===== verification/StreamEncoder.v ===== *)
(** Streams as clients see them ([proxy/codec.rs]): the encoder that turns
    the canonical events of an answer into the frames of the caller's
    dialect.  Anthropic frames follow a content-block protocol, Responses
    frames share an index space with the terminal frame, Gemini frames carry
    whole function calls, OpenAI frames repeat the identity of the chunk.

    Frames are JSON values; an object is its list of fields, in any order.
    The serialisation of an error, the reader of tool arguments and the
    clock are arguments. *)

From S2P Require Import Prelude Json Usage Accounting.

Notation JStr := JString.
Notation Frames := (list (option string * Json)).

Inductive IngressDialect := OpenAi | EmbeddingsDialect | CompletionsDialect | Anthropic | ResponsesDialect | GeminiDialect.
#[export] Instance IngressDialect_eq_dec : EqDecision IngressDialect.
Proof. solve_decision. Defined.

(** [json!] of an optional string, and [value[key] = v] on an object. *)
Definition jopt (o : option string) : Json := match o with Some s => JStr s | None => JNull end.
Definition jopt_num (o : option Z) : Json := match o with Some n => JNumber n | None => JNull end.
Fixpoint field_set (k : string) (v : Json) (l : list (string * Json)) : list (string * Json) :=
  match l with
  | [] => [(k, v)]
  | (k', v') :: l => if bool_decide (k = k') then (k, v) :: l else (k', v') :: field_set k v l
  end.
Definition jset (k : string) (v : Json) (j : Json) : Json :=
  match j with JObject l => JObject (field_set k v l) | JNull => JObject [(k, v)] | j => j end.

(** ** [BTreeMap<u32, V>] *)

Section BTree.
Context {V : Type}.
Notation btree := (list (Z * V)).
Fixpoint bt_get (k : Z) (m : btree) : option V :=
  match m with [] => None | (k', v) :: m => if k =? k' then Some v else bt_get k m end.
Fixpoint bt_insert (k : Z) (v : V) (m : btree) : btree :=
  match m with
  | [] => [(k, v)]
  | (k', v') :: m' =>
      if k <? k' then (k, v) :: m else if k =? k' then (k, v) :: m' else (k', v') :: bt_insert k v m'
  end.
Fixpoint bt_remove (k : Z) (m : btree) : btree :=
  match m with [] => [] | (k', v) :: m => if k =? k' then m else (k', v) :: bt_remove k m end.
End BTree.

(** ** Usage blocks and finish reasons *)

Definition output_including_reasoning (u : UsageV2) : Z :=
  billable_parts_with_reasoning 0 0 0 (u_tokens_out u) (default 0 (u_reasoning u)) (u_reasoning_included u).
Definition prompt_tokens (u : UsageV2) : Z := sat_add (sat_add (u_tokens_in u) (u_cache_read u)) (u_cache_creation u).

Definition openai_usage (u : UsageV2) : Json :=
  let output := output_including_reasoning u in
  JObject
    [("prompt_tokens", JNumber (prompt_tokens u)); ("completion_tokens", JNumber output);
     ("total_tokens", JNumber (sat_add (prompt_tokens u) output));
     ("prompt_tokens_details", JObject [("cached_tokens", JNumber (u_cache_read u))]);
     ("completion_tokens_details", JObject
        [("reasoning_tokens", jopt_num (u_reasoning u)); ("audio_tokens", jopt_num (u_audio_out u));
         ("accepted_prediction_tokens", jopt_num (u_accepted_prediction u));
         ("rejected_prediction_tokens", jopt_num (u_rejected_prediction u))])].
Definition anthropic_usage (u : UsageV2) : Json :=
  JObject
    [("input_tokens", JNumber (u_tokens_in u)); ("output_tokens", JNumber (output_including_reasoning u));
     ("cache_creation_input_tokens", JNumber (u_cache_creation u)); ("cache_read_input_tokens", JNumber (u_cache_read u))].
Definition responses_usage (u : UsageV2) : Json :=
  JObject
    [("input_tokens", JNumber (prompt_tokens u)); ("output_tokens", JNumber (output_including_reasoning u));
     ("input_tokens_details", JObject [("cached_tokens", JNumber (u_cache_read u))]);
     ("output_tokens_details", JObject [("reasoning_tokens", JNumber (default 0 (u_reasoning u)))])].
Definition gemini_usage (u : UsageV2) : Json :=
  let output := output_including_reasoning u in
  let prompt := prompt_tokens u in
  JObject
    ([("promptTokenCount", JNumber prompt);
      ("candidatesTokenCount", JNumber (sat_sub output (default 0 (u_reasoning u))));
      ("totalTokenCount", JNumber (sat_add prompt output))]
     ++ (if 0 <? u_cache_read u then [("cachedContentTokenCount", JNumber (u_cache_read u))] else [])
     ++ match u_reasoning u with Some r => [("thoughtsTokenCount", JNumber r)] | None => [] end).

Definition openai_finish_name (r : FinishReasonV1) : string :=
  match r with
  | FrStop => "stop" | FrLength => "length" | FrToolCalls => "tool_calls"
  | FrContentFilter => "content_filter" | FrFunctionCall => "function_call" | FrUnknown => "unknown"
  end.
Definition openai_finish (reason : option FinishReasonV1) : Json :=
  match reason with Some r => JStr (openai_finish_name r) | None => JNull end.
Definition anthropic_finish (reason : option FinishReasonV1) : Json :=
  match reason with
  | Some FrStop => JStr "end_turn"
  | Some FrLength => JStr "max_tokens"
  | Some (FrToolCalls | FrFunctionCall) => JStr "tool_use"
  | Some (FrContentFilter | FrUnknown) => JStr "end_turn"
  | None => JNull
  end.
Definition gemini_finish_reason (reason : FinishReasonV1) : string :=
  match reason with
  | FrStop => "STOP"
  | FrLength => "MAX_TOKENS"
  | FrContentFilter => "SAFETY"
  | FrToolCalls | FrFunctionCall => "STOP"
  | FrUnknown => "FINISH_REASON_UNSPECIFIED"
  end.
Definition responses_status (reason : option FinishReasonV1) : string :=
  match reason with Some (FrLength | FrContentFilter) => "incomplete" | _ => "completed" end.
Definition incomplete_details (reason : FinishReasonV1) : list (string * Json) :=
  match reason with
  | FrLength => [("incomplete_details", JObject [("reason", JStr "max_output_tokens")])]
  | FrContentFilter => [("incomplete_details", JObject [("reason", JStr "content_filter")])]
  | _ => []
  end.

(** ** The encoder *)

Inductive ResponsesOutputItem := OutText | OutCall (index : Z).
#[export] Instance ResponsesOutputItem_eq_dec : EqDecision ResponsesOutputItem.
Proof. solve_decision. Defined.

(** A function call: its id, its name and its arguments so far. *)
Notation CallParts := (string * string * string)%type.

Record StreamEventEncoder := MkEncoder {
  se_dialect : IngressDialect; se_next_block : Z; se_open_prose : option (Z * string); se_open_tools : list (Z * Z);
  se_gemini_calls : list (Z * CallParts); se_responses_text : string; se_responses_calls : list (Z * CallParts);
  se_responses_order : list ResponsesOutputItem; se_openai_id : option string; se_openai_model : option string }.

Definition encoder_new (dialect : IngressDialect) : StreamEventEncoder :=
  MkEncoder dialect 0 None [] [] "" [] [] None None.

Definition set_blocks (next : Z) (prose : option (Z * string)) (tools : list (Z * Z)) (s : StreamEventEncoder) :=
  MkEncoder (se_dialect s) next prose tools (se_gemini_calls s) (se_responses_text s) (se_responses_calls s)
    (se_responses_order s) (se_openai_id s) (se_openai_model s).
Definition set_gemini_calls (calls : list (Z * CallParts)) (s : StreamEventEncoder) :=
  MkEncoder (se_dialect s) (se_next_block s) (se_open_prose s) (se_open_tools s) calls (se_responses_text s)
    (se_responses_calls s) (se_responses_order s) (se_openai_id s) (se_openai_model s).
Definition set_responses (text : string) (calls : list (Z * CallParts)) (order : list ResponsesOutputItem)
    (s : StreamEventEncoder) :=
  MkEncoder (se_dialect s) (se_next_block s) (se_open_prose s) (se_open_tools s) (se_gemini_calls s) text calls order
    (se_openai_id s) (se_openai_model s).
Definition set_identity (id : option string) (model : option string) (s : StreamEventEncoder) :=
  MkEncoder (se_dialect s) (se_next_block s) (se_open_prose s) (se_open_tools s) (se_gemini_calls s) (se_responses_text s)
    (se_responses_calls s) (se_responses_order s) id model.

Section Encoder.
Context (error_json : ProviderErrorV1 -> Json) (from_str : string -> option Json) (unix_now : Z).

(** *** Anthropic *)

Definition block_start (index : Z) (content_block : Json) : option string * Json :=
  (Some "content_block_start",
   JObject [("type", JStr "content_block_start"); ("index", JNumber index); ("content_block", content_block)]).
Definition block_delta (index : Z) (delta : Json) : option string * Json :=
  (Some "content_block_delta",
   JObject [("type", JStr "content_block_delta"); ("index", JNumber index); ("delta", delta)]).
Definition block_stop (index : Z) : option string * Json :=
  (Some "content_block_stop", JObject [("type", JStr "content_block_stop"); ("index", JNumber index)]).

Definition prose_block (kind : string) : Json :=
  if bool_decide (kind = "thinking")
  then JObject [("type", JStr "thinking"); ("thinking", JStr "")]
  else JObject [("type", JStr "text"); ("text", JStr "")].

Definition open_prose_block (kind : string) (s : StreamEventEncoder) : Z * Frames * StreamEventEncoder :=
  let fresh stops :=
    let index := se_next_block s in
    (index, stops ++ [block_start index (prose_block kind)],
     set_blocks (index + 1) (Some (index, kind)) (se_open_tools s) s) in
  match se_open_prose s with
  | Some (index, open_kind) => if bool_decide (open_kind = kind) then (index, [], s) else fresh [block_stop index]
  | None => fresh []
  end.
Definition close_prose_block (s : StreamEventEncoder) : Frames * StreamEventEncoder :=
  match se_open_prose s with
  | Some (index, _) => ([block_stop index], set_blocks (se_next_block s) None (se_open_tools s) s)
  | None => ([], s)
  end.
(** Close the prose block, then the tool blocks in the order of their calls. *)
Definition close_all (s : StreamEventEncoder) : Frames * StreamEventEncoder :=
  let '(frames, s) := close_prose_block s in
  (frames ++ (block_stop <$> (se_open_tools s).*2), set_blocks (se_next_block s) (se_open_prose s) [] s).

Definition prose_delta (kind delta_type field delta : string) (s : StreamEventEncoder) : Frames * StreamEventEncoder :=
  let '(index, frames, s) := open_prose_block kind s in
  (frames ++ [block_delta index (JObject [("type", JStr delta_type); (field, JStr delta)])], s).

Definition encode_anthropic (event : ChatStreamEventV1) (s : StreamEventEncoder) : Frames * StreamEventEncoder :=
  match event with
  | EvResponseStart id model =>
      ([(Some "message_start", JObject
           [("type", JStr "message_start");
            ("message", JObject
               [("id", jopt id); ("type", JStr "message"); ("role", JStr "assistant"); ("model", JStr model);
                ("content", JArray []); ("stop_reason", JNull); ("stop_sequence", JNull);
                ("usage", JObject [("input_tokens", JNumber 0); ("output_tokens", JNumber 0)])])]);
        (Some "ping", JObject [("type", JStr "ping")])], s)
  | EvTextDelta delta => prose_delta "text" "text_delta" "text" delta s
  | EvReasoningDelta delta => prose_delta "thinking" "thinking_delta" "thinking" delta s
  | EvRefusalDelta delta => prose_delta "text" "text_delta" "text" delta s
  | EvToolCallStart index id name =>
      let '(frames, s) := close_prose_block s in
      let block := se_next_block s in
      (frames ++ [block_start block (JObject
          [("type", JStr "tool_use"); ("id", JStr id); ("name", JStr name); ("input", JObject [])])],
       set_blocks (block + 1) (se_open_prose s) (bt_insert index block (se_open_tools s)) s)
  | EvToolCallArgumentsDelta index delta =>
      let block := default index (bt_get index (se_open_tools s)) in
      ([block_delta block (JObject [("type", JStr "input_json_delta"); ("partial_json", JStr delta)])], s)
  | EvToolCallEnd index =>
      let block := default index (bt_get index (se_open_tools s)) in
      ([block_stop block], set_blocks (se_next_block s) (se_open_prose s) (bt_remove index (se_open_tools s)) s)
  | EvUsage usage =>
      ([(Some "message_delta", JObject
           [("type", JStr "message_delta"); ("delta", JObject []); ("usage", anthropic_usage usage)])], s)
  | EvFinish reason =>
      let '(frames, s) := close_all s in
      (frames
       ++ [(Some "message_delta", JObject
              [("type", JStr "message_delta");
               ("delta", JObject [("stop_reason", anthropic_finish (Some reason)); ("stop_sequence", JNull)])]);
           (Some "message_stop", JObject [("type", JStr "message_stop")])], s)
  | EvError error =>
      let '(frames, s) := close_all s in
      (frames ++ [(Some "error", JObject [("type", JStr "error"); ("error", error_json error)])], s)
  end.

(** *** Responses *)

Fixpoint position (item : ResponsesOutputItem) (order : list ResponsesOutputItem) : option Z :=
  match order with
  | [] => None
  | x :: order => if bool_decide (x = item) then Some 0 else Z.succ <$> position item order
  end.
(** [responses_open_text] and [responses_open_call]. *)
Definition responses_open (item : ResponsesOutputItem) (s : StreamEventEncoder) : Z * StreamEventEncoder :=
  match position item (se_responses_order s) with
  | Some p => (p, s)
  | None => (Z.of_nat (length (se_responses_order s)),
             set_responses (se_responses_text s) (se_responses_calls s) (se_responses_order s ++ [item]) s)
  end.
Definition responses_index_of_call (index : Z) (s : StreamEventEncoder) : Z :=
  default index (position (OutCall index) (se_responses_order s)).

Definition event_frame (name : string) (fields : list (string * Json)) : option string * Json :=
  (Some name, JObject (("type", JStr name) :: fields)).
Definition function_call_item (call : CallParts) (status : string) : Json :=
  JObject [("type", JStr "function_call"); ("id", JStr call.1.1); ("call_id", JStr call.1.1); ("name", JStr call.1.2);
           ("arguments", JStr call.2); ("status", JStr status)].

Definition encode_responses_stream_event (event : ChatStreamEventV1) (last_usage : option UsageV2) : Frames :=
  match event with
  | EvResponseStart id model =>
      [event_frame "response.created"
         [("response", JObject [("id", jopt id); ("object", JStr "response"); ("status", JStr "in_progress");
                                ("model", JStr model); ("output", JArray [])])]]
  | EvTextDelta delta =>
      [event_frame "response.output_text.delta"
         [("output_index", JNumber 0); ("content_index", JNumber 0); ("delta", JStr delta)]]
  | EvReasoningDelta delta => [event_frame "response.reasoning_summary_text.delta" [("delta", JStr delta)]]
  | EvRefusalDelta delta => [event_frame "response.refusal.delta" [("delta", JStr delta)]]
  | EvToolCallStart index id name =>
      [event_frame "response.output_item.added"
         [("output_index", JNumber index); ("item", function_call_item (id, name, "") "in_progress")]]
  | EvToolCallArgumentsDelta index delta =>
      [event_frame "response.function_call_arguments.delta" [("output_index", JNumber index); ("delta", JStr delta)]]
  | EvToolCallEnd index =>
      [event_frame "response.output_item.done"
         [("output_index", JNumber index);
          ("item", JObject [("type", JStr "function_call"); ("status", JStr "completed")])]]
  | EvUsage _ => []
  | EvFinish reason =>
      [event_frame "response.completed"
         [("response", JObject [("object", JStr "response"); ("status", JStr (responses_status (Some reason)));
                                ("output", JArray []);
                                ("usage", responses_usage (default UsageV2_default last_usage))])]]
  | EvError error =>
      [event_frame "error" [("error", JObject [("code", JStr (pv_code error)); ("message", JStr (pv_message error))])]]
  end.

(** The items of the terminal frame, in the order their slots were opened. *)
Definition responses_output (s : StreamEventEncoder) : list Json :=
  omap (fun item =>
    match item with
    | OutText =>
        if bool_decide (se_responses_text s = "") then None
        else Some (JObject [("type", JStr "message"); ("role", JStr "assistant");
                            ("content", JArray [JObject [("type", JStr "output_text"); ("text", JStr (se_responses_text s))]])])
    | OutCall index => (fun call => function_call_item call "completed") <$> bt_get index (se_responses_calls s)
    end) (se_responses_order s).

Definition encode_responses (event : ChatStreamEventV1) (last_usage : option UsageV2) (s : StreamEventEncoder)
    : Frames * StreamEventEncoder :=
  match event with
  | EvTextDelta delta =>
      let '(output_index, s) := responses_open OutText s in
      ([event_frame "response.output_text.delta"
          [("output_index", JNumber output_index); ("content_index", JNumber 0); ("delta", JStr delta)]],
       set_responses (se_responses_text s +:+ delta) (se_responses_calls s) (se_responses_order s) s)
  | EvRefusalDelta delta =>
      let '(output_index, s) := responses_open OutText s in
      ([event_frame "response.refusal.delta" [("output_index", JNumber output_index); ("delta", JStr delta)]],
       set_responses (se_responses_text s +:+ delta) (se_responses_calls s) (se_responses_order s) s)
  | EvToolCallStart index id name =>
      let '(output_index, s) := responses_open (OutCall index) s in
      ([event_frame "response.output_item.added"
          [("output_index", JNumber output_index); ("item", function_call_item (id, name, "") "in_progress")]],
       set_responses (se_responses_text s) (bt_insert index (id, name, "") (se_responses_calls s)) (se_responses_order s) s)
  | EvToolCallArgumentsDelta index delta =>
      let s := match bt_get index (se_responses_calls s) with
               | Some (id, name, args) =>
                   set_responses (se_responses_text s) (bt_insert index (id, name, args +:+ delta) (se_responses_calls s))
                     (se_responses_order s) s
               | None => s
               end in
      ([event_frame "response.function_call_arguments.delta"
          [("output_index", JNumber (responses_index_of_call index s)); ("delta", JStr delta)]], s)
  | EvToolCallEnd index =>
      match bt_get index (se_responses_calls s) with
      | Some call =>
          ([event_frame "response.output_item.done"
              [("output_index", JNumber (responses_index_of_call index s)); ("item", function_call_item call "completed")]], s)
      | None => (encode_responses_stream_event event last_usage, s)
      end
  | EvFinish reason =>
      let usage := responses_usage (default UsageV2_default last_usage) in
      ([event_frame "response.completed"
          [("response", JObject
              ([("object", JStr "response"); ("status", JStr (responses_status (Some reason)));
                ("output", JArray (responses_output s)); ("usage", usage)] ++ incomplete_details reason))]],
       set_responses (se_responses_text s) (se_responses_calls s) [] s)
  | _ => (encode_responses_stream_event event last_usage, s)
  end.

(** *** OpenAI *)

Definition chunk (fields : list (string * Json)) : Json :=
  JObject ([("object", JStr "chat.completion.chunk"); ("created", JNumber unix_now)] ++ fields).
Definition choice (delta finish : Json) : Json :=
  JArray [JObject [("index", JNumber 0); ("delta", delta); ("finish_reason", finish)]].
Definition openai_delta (delta : list (string * Json)) : Json := chunk [("choices", choice (JObject delta) JNull)].

Definition encode_openai_stream_event (event : ChatStreamEventV1) : Frames :=
  match event with
  | EvResponseStart id model =>
      [(None, JObject [("id", jopt id); ("object", JStr "chat.completion.chunk"); ("created", JNumber unix_now);
                       ("model", JStr model); ("choices", choice (JObject [("role", JStr "assistant")]) JNull)])]
  | EvTextDelta delta => [(None, openai_delta [("content", JStr delta)])]
  | EvReasoningDelta delta => [(None, openai_delta [("reasoning_content", JStr delta)])]
  | EvRefusalDelta delta => [(None, openai_delta [("refusal", JStr delta)])]
  | EvToolCallStart index id name =>
      [(None, openai_delta [("tool_calls", JArray [JObject
          [("index", JNumber index); ("id", JStr id); ("type", JStr "function");
           ("function", JObject [("name", JStr name); ("arguments", JStr "")])]])])]
  | EvToolCallArgumentsDelta index delta =>
      [(None, openai_delta [("tool_calls", JArray [JObject
          [("index", JNumber index); ("function", JObject [("arguments", JStr delta)])]])])]
  | EvToolCallEnd _ => []
  | EvUsage usage => [(None, chunk [("choices", JArray []); ("usage", openai_usage usage)])]
  | EvFinish reason => [(None, chunk [("choices", choice (JObject []) (openai_finish (Some reason)))])]
  | EvError error => [(None, JObject [("error", error_json error)])]
  end.

Definition stamp_identity (s : StreamEventEncoder) (value : Json) : Json :=
  match jget value "object" with
  | None => value
  | Some _ =>
      let value := match se_openai_id s with Some id => jset "id" (JStr id) value | None => value end in
      match se_openai_model s with Some model => jset "model" (JStr model) value | None => value end
  end.
Definition encode_openai (event : ChatStreamEventV1) (s : StreamEventEncoder) : Frames * StreamEventEncoder :=
  let s := match event with EvResponseStart id model => set_identity id (Some model) s | _ => s end in
  ((fun '(name, value) => (name, stamp_identity s value)) <$> encode_openai_stream_event event, s).

(** *** Gemini *)

Definition candidate (fields : list (string * Json)) : list (string * Json) :=
  [("candidates", JArray [JObject fields])].
Definition model_content (parts : list Json) : string * Json :=
  ("content", JObject [("role", JStr "model"); ("parts", JArray parts)]).

Definition encode_gemini_stream_event (event : ChatStreamEventV1) (last_usage : option UsageV2) : Frames :=
  match event with
  | EvTextDelta delta =>
      [(None, JObject (candidate [model_content [JObject [("text", JStr delta)]]; ("index", JNumber 0)]))]
  | EvError error => [(None, JObject [("error", error_json error)])]
  | EvFinish reason =>
      [(None, JObject (candidate [model_content []; ("finishReason", JStr (gemini_finish_reason reason)); ("index", JNumber 0)]
                       ++ match last_usage with Some u => [("usageMetadata", gemini_usage u)] | None => [] end))]
  | _ => []
  end.
Definition encode_gemini (event : ChatStreamEventV1) (last_usage : option UsageV2) (s : StreamEventEncoder)
    : Frames * StreamEventEncoder :=
  match event with
  | EvToolCallStart index id name => ([], set_gemini_calls (bt_insert index (id, name, "") (se_gemini_calls s)) s)
  | EvToolCallArgumentsDelta index delta =>
      ([], match bt_get index (se_gemini_calls s) with
           | Some (id, name, args) => set_gemini_calls (bt_insert index (id, name, args +:+ delta) (se_gemini_calls s)) s
           | None => s
           end)
  | EvToolCallEnd index =>
      match bt_get index (se_gemini_calls s) with
      | Some (id, name, args) =>
          ([(None, JObject (candidate
              [model_content [JObject [("functionCall", JObject
                 [("name", JStr name); ("id", JStr id); ("args", default (JObject []) (from_str args))])]];
               ("index", JNumber 0)]))],
           set_gemini_calls (bt_remove index (se_gemini_calls s)) s)
      | None => ([], s)
      end
  | _ => (encode_gemini_stream_event event last_usage, s)
  end.

Definition encode (event : ChatStreamEventV1) (last_usage : option UsageV2) (s : StreamEventEncoder)
    : Frames * StreamEventEncoder :=
  match se_dialect s with
  | Anthropic => encode_anthropic event s
  | GeminiDialect => encode_gemini event last_usage s
  | ResponsesDialect => encode_responses event last_usage s
  | _ => encode_openai event s
  end.

(** The frames of a stream, as the proxy writes them: a usage that is not
    final is for accounting only, a final one is remembered. *)
Definition stream_turn (event : ChatStreamEventV1) (last_usage : option UsageV2) (s : StreamEventEncoder)
    : Frames * option UsageV2 * StreamEventEncoder :=
  match event with
  | EvUsage usage =>
      if bool_decide (u_completeness usage = Final)
      then let '(frames, s) := encode event (Some usage) s in (frames, Some usage, s)
      else ([], last_usage, s)
  | _ => let '(frames, s) := encode event last_usage s in (frames, last_usage, s)
  end.
Fixpoint stream_frames (events : list ChatStreamEventV1) (last_usage : option UsageV2) (s : StreamEventEncoder) : Frames :=
  match events with
  | [] => []
  | event :: events =>
      let '(frames, last_usage, s) := stream_turn event last_usage s in frames ++ stream_frames events last_usage s
  end.
End Encoder.
