(* ===== verification/AnthropicStream.v ===== *)
(** The Anthropic frames of the stream encoder against a strict client: a
    reader that accepts a frame only when the content-block protocol allows
    it and assembles the message.  For every well-formed canonical stream the
    frames are accepted, and the message assembled is the one the events
    spell. *)

From S2P Require Import Prelude Json Usage Accounting StreamEncoder.

(** ** What the events say *)

(** A call: the index of its events, its parts, and whether it is open. *)
Record Call := MkCallOf { cl_index : Z; cl_parts : CallParts; cl_open : bool }.
Record Assembly := MkAssembly {
  am_begun : bool; am_text : string; am_thinking : string; am_calls : list Call; am_over : bool }.
Definition assembly_new : Assembly := MkAssembly false "" "" [] false.

Definition is_open (i : Z) (c : Call) : bool := (cl_index c =? i) && cl_open c.
Definition add_args (i : Z) (delta : string) (c : Call) : Call :=
  if is_open i c
  then let '(id, name, args) := cl_parts c in MkCallOf (cl_index c) (id, name, args +:+ delta) (cl_open c) else c.
Definition end_call (c : Call) : Call := MkCallOf (cl_index c) (cl_parts c) false.
Definition end_open (i : Z) (c : Call) : Call := if is_open i c then end_call c else c.

(** One event; [None] is a stream that is not well formed: it says something
    before the response started or after it was over, or refers to a call
    that is not open. *)
Definition assemble (a : Assembly) (e : ChatStreamEventV1) : option Assembly :=
  let text t := MkAssembly true (am_text a +:+ t) (am_thinking a) (am_calls a) false in
  let calls cs := MkAssembly true (am_text a) (am_thinking a) cs false in
  let over := MkAssembly (am_begun a) (am_text a) (am_thinking a) (end_call <$> am_calls a) true in
  if am_over a then None
  else match e with
  | EvError _ => Some over
  | EvResponseStart _ _ => if am_begun a then None else Some (calls (am_calls a))
  | _ =>
      if negb (am_begun a) then None
      else match e with
      | EvTextDelta t | EvRefusalDelta t => Some (text t)
      | EvReasoningDelta t => Some (MkAssembly true (am_text a) (am_thinking a +:+ t) (am_calls a) false)
      | EvToolCallStart i id name =>
          if existsb (is_open i) (am_calls a) then None else Some (calls (am_calls a ++ [MkCallOf i (id, name, "") true]))
      | EvToolCallArgumentsDelta i t =>
          if existsb (is_open i) (am_calls a) then Some (calls (add_args i t <$> am_calls a)) else None
      | EvToolCallEnd i =>
          if existsb (is_open i) (am_calls a) then Some (calls (end_open i <$> am_calls a)) else None
      | EvFinish _ => Some over
      | _ => Some a
      end
  end.
Fixpoint assemble_all (a : Assembly) (es : list ChatStreamEventV1) : option Assembly :=
  match es with [] => Some a | e :: es => assemble a e ≫= (fun a => assemble_all a es) end.

(** ** A strict client *)

(** A content block: its kind, the id and name of a tool call, the text, the
    thinking or the arguments so far, and whether it is open. *)
Record ABlock := MkABlock { ab_kind : string; ab_call : string * string; ab_body : string; ab_open : bool }.
Record AClient := MkAClient { ac_begun : bool; ac_blocks : list ABlock; ac_ended : bool }.
Definition client_new : AClient := MkAClient false [] false.

Definition field_str (k : string) (j : Json) : option string := jget j k ≫= jas_str.
Definition field_index (j : Json) : option nat :=
  match jget j "index" with Some (JNumber z) => if 0 <=? z then Some (Z.to_nat z) else None | _ => None end.

(** A block starts open and empty: text and thinking, or a tool use with its
    id, its name and no input. *)
Definition read_block (j : Json) : option ABlock :=
  kind ← field_str "type" j;
  if bool_decide (kind = "tool_use")
  then id ← field_str "id" j; name ← field_str "name" j; Some (MkABlock kind (id, name) "" true)
  else if bool_decide (kind = "text") || bool_decide (kind = "thinking")
  then t ← field_str kind j; if bool_decide (t = "") then Some (MkABlock kind ("", "") "" true) else None
  else None.
(** A delta fits the kind of its block. *)
Definition delta_text (kind : string) (delta : Json) : option string :=
  t ← field_str "type" delta;
  if bool_decide (kind = "text") && bool_decide (t = "text_delta") then field_str "text" delta
  else if bool_decide (kind = "thinking") && bool_decide (t = "thinking_delta") then field_str "thinking" delta
  else if bool_decide (kind = "tool_use") && bool_decide (t = "input_json_delta") then field_str "partial_json" delta
  else None.

Definition open_block (n : nat) (c : AClient) : option ABlock :=
  b ← ac_blocks c !! n; if ab_open b then Some b else None.
Definition set_block (n : nat) (b : ABlock) (c : AClient) : AClient :=
  MkAClient (ac_begun c) (<[n := b]> (ac_blocks c)) (ac_ended c).

Definition client_step (c : AClient) (frame : option string * Json) : option AClient :=
  kind ← field_str "type" frame.2;
  if negb (bool_decide (frame.1 = Some kind)) || ac_ended c then None
  else if bool_decide (kind = "error") then Some (MkAClient (ac_begun c) (ac_blocks c) true)
  else if bool_decide (kind = "message_start") then
    if ac_begun c then None else Some (MkAClient true (ac_blocks c) false)
  else if negb (ac_begun c) then None
  else if bool_decide (kind = "ping") || bool_decide (kind = "message_delta") then Some c
  else if bool_decide (kind = "content_block_start") then
    n ← field_index frame.2;
    b ← jget frame.2 "content_block" ≫= read_block;
    if (n =? length (ac_blocks c))%nat then Some (MkAClient true (ac_blocks c ++ [b]) false) else None
  else if bool_decide (kind = "content_block_delta") then
    n ← field_index frame.2;
    b ← open_block n c;
    t ← jget frame.2 "delta" ≫= delta_text (ab_kind b);
    Some (set_block n (MkABlock (ab_kind b) (ab_call b) (ab_body b +:+ t) true) c)
  else if bool_decide (kind = "content_block_stop") then
    n ← field_index frame.2;
    b ← open_block n c;
    Some (set_block n (MkABlock (ab_kind b) (ab_call b) (ab_body b) false) c)
  else if bool_decide (kind = "message_stop") then
    if existsb ab_open (ac_blocks c) then None else Some (MkAClient true (ac_blocks c) true)
  else None.
Fixpoint client_run (c : AClient) (frames : Frames) : option AClient :=
  match frames with [] => Some c | f :: frames => client_step c f ≫= (fun c => client_run c frames) end.

Lemma client_run_app c f g : client_run c (f ++ g) = client_run c f ≫= (fun c => client_run c g).
Proof. revert c. induction f as [|x f IH]; intros c; [done|]. simpl. destruct (client_step c x); simpl; [apply IH|done]. Qed.

(** What the blocks of a kind say, and the calls. *)
Fixpoint said (kind : string) (bs : list ABlock) : string :=
  match bs with [] => "" | b :: bs => (if bool_decide (ab_kind b = kind) then ab_body b else "") +:+ said kind bs end.
Definition calls_of (bs : list ABlock) : list CallParts :=
  omap (fun b => if bool_decide (ab_kind b = "tool_use") then Some (ab_call b, ab_body b) else None) bs.

(** The frames this client accepts, and what they do. *)
Notation live bs := (MkAClient true bs false).
Definition closed (b : ABlock) : ABlock := MkABlock (ab_kind b) (ab_call b) (ab_body b) false.
Definition extended (t : string) (b : ABlock) : ABlock := MkABlock (ab_kind b) (ab_call b) (ab_body b +:+ t) true.

Lemma index_of_nat n : (if 0 <=? Z.of_nat n then Some (Z.to_nat (Z.of_nat n)) else None) = Some n.
Proof. rewrite (proj2 (Z.leb_le 0 (Z.of_nat n))) by lia. by rewrite Nat2Z.id. Qed.

Lemma step_start bs blk j : read_block j = Some blk ->
  client_step (live bs) (block_start (Z.of_nat (length bs)) j) = Some (live (bs ++ [blk])).
Proof.
  intros Hr. unfold client_step, block_start, field_index. simpl. rewrite index_of_nat. simpl. rewrite Hr. simpl.
  by rewrite Nat.eqb_refl.
Qed.
Lemma step_delta bs n b delta t : bs !! n = Some b -> ab_open b = true -> delta_text (ab_kind b) delta = Some t ->
  client_step (live bs) (block_delta (Z.of_nat n) delta) = Some (live (<[n := extended t b]> bs)).
Proof.
  intros Hb Ho Ht. unfold client_step, block_delta, field_index, open_block. simpl. rewrite index_of_nat. simpl.
  rewrite Hb. simpl. rewrite Ho. simpl. by rewrite Ht.
Qed.
Lemma step_stop bs n b : bs !! n = Some b -> ab_open b = true ->
  client_step (live bs) (block_stop (Z.of_nat n)) = Some (live (<[n := closed b]> bs)).
Proof.
  intros Hb Ho. unfold client_step, block_stop, field_index, open_block. simpl. rewrite index_of_nat. simpl.
  rewrite Hb. simpl. by rewrite Ho.
Qed.

(** Several stops, for different open blocks. *)
Lemma run_stops ns : forall bs, NoDup ns ->
  (forall n, n ∈ ns -> exists b, bs !! n = Some b /\ ab_open b = true) ->
  exists bs', client_run (live bs) ((fun n => block_stop (Z.of_nat n)) <$> ns) = Some (live bs')
    /\ forall m, bs' !! m = (fun b => if bool_decide (m ∈ ns) then closed b else b) <$> bs !! m.
Proof.
  induction ns as [|n ns IH]; intros bs Hn Ho.
  { exists bs. split; [done|]. intros m. by destruct (bs !! m). }
  apply NoDup_cons in Hn as [Hnot Hn]. destruct (Ho n) as (b & Hb & Hob); [left|].
  destruct (IH (<[n := closed b]> bs) Hn) as (bs' & Hrun & Hbs').
  { intros m Hm. assert (n <> m) by set_solver. rewrite list_lookup_insert_ne by done. apply Ho. by right. }
  exists bs'. rewrite fmap_cons. cbn [client_run]. rewrite (step_stop _ _ _ Hb Hob). simpl. split; [done|].
  intros m. rewrite Hbs'. destruct (decide (m = n)) as [->|Hne].
  - rewrite list_lookup_insert_eq by (by eapply lookup_lt_Some). rewrite Hb. simpl.
    rewrite bool_decide_eq_false_2 by done. by rewrite bool_decide_eq_true_2 by left.
  - rewrite list_lookup_insert_ne by done. destruct (bs !! m); [simpl|done]. f_equal.
    rewrite (bool_decide_ext (m ∈ ns) (m ∈ n :: ns)); [done|]. set_solver.
Qed.

(** ** Ordered maps *)

Lemma bt_get_in {V} (k : Z) (v : V) m : bt_get k m = Some v -> (k, v) ∈ m.
Proof.
  induction m as [|[k' v'] m IH]; simpl; [done|]. destruct (k =? k') eqn:E; [|intros; right; by apply IH].
  apply Z.eqb_eq in E as ->. intros [= ->]. by left.
Qed.
Lemma bt_get_insert {V} (k : Z) (v : V) m j : bt_get j (bt_insert k v m) = if j =? k then Some v else bt_get j m.
Proof.
  induction m as [|[k' v'] m IH]; simpl; [done|]. destruct (k <? k') eqn:E1; simpl; [done|].
  destruct (k =? k') eqn:E2; simpl.
  - apply Z.eqb_eq in E2 as ->. by destruct (j =? k').
  - rewrite IH. destruct (j =? k') eqn:E3, (j =? k) eqn:E4; try done. lia.
Qed.

Definition ordered {V} (m : list (Z * V)) : Prop := StronglySorted Z.lt m.*1.
Lemma bt_insert_keys {V} (k : Z) (v : V) m x : x ∈ (bt_insert k v m).*1 <-> x = k \/ x ∈ m.*1.
Proof.
  induction m as [|[k' v'] m IH]; simpl; [set_solver|]. destruct (k <? k'); simpl; [set_solver|].
  destruct (k =? k') eqn:E; simpl; [apply Z.eqb_eq in E; set_solver|]. rewrite !elem_of_cons, IH. tauto.
Qed.
Lemma bt_insert_ordered {V} (k : Z) (v : V) m : ordered m -> ordered (bt_insert k v m).
Proof.
  unfold ordered. induction m as [|[k' v'] m IH]; simpl; intros Ho; [repeat constructor|].
  inversion Ho as [|? ? Ho' Hk]; subst. destruct (k <? k') eqn:E1; simpl.
  - constructor; [done|]. constructor; [lia|]. eapply Forall_impl; [exact Hk|]. intros. simpl in *. lia.
  - destruct (k =? k') eqn:E2; simpl; [apply Z.eqb_eq in E2 as ->; done|]. constructor; [by apply IH|].
    apply Forall_forall. intros x [->|Hx]%bt_insert_keys; [lia|]. rewrite Forall_forall in Hk. by apply Hk.
Qed.
Lemma bt_remove_keys {V} (k : Z) (m : list (Z * V)) x : x ∈ (bt_remove k m).*1 -> x ∈ m.*1.
Proof. induction m as [|[k' v'] m IH]; simpl; [done|]. destruct (k =? k'); simpl; set_solver. Qed.
Lemma bt_remove_ordered {V} (k : Z) (m : list (Z * V)) : ordered m -> ordered (bt_remove k m).
Proof.
  unfold ordered. induction m as [|[k' v'] m IH]; simpl; intros Ho; [done|]. inversion Ho as [|? ? Ho' Hk]; subst.
  destruct (k =? k'); simpl; [done|]. constructor; [by apply IH|]. rewrite Forall_forall in *. intros x Hx%bt_remove_keys.
  by apply Hk.
Qed.
Lemma bt_get_not_in {V} (k : Z) (m : list (Z * V)) : k ∉ m.*1 -> bt_get k m = None.
Proof.
  induction m as [|[k' v'] m IH]; simpl; [done|]. intros Hk. rewrite (proj2 (Z.eqb_neq k k')) by set_solver.
  apply IH. set_solver.
Qed.
Lemma bt_get_remove {V} (k : Z) (m : list (Z * V)) j : ordered m -> bt_get j (bt_remove k m) = if j =? k then None else bt_get j m.
Proof.
  unfold ordered. induction m as [|[k' v'] m IH]; simpl; intros Ho; [by destruct (j =? k)|].
  inversion Ho as [|? ? Ho' Hk]; subst. rewrite Forall_forall in Hk. destruct (k =? k') eqn:E1; simpl.
  - apply Z.eqb_eq in E1 as ->. destruct (j =? k') eqn:E2; [|done]. apply Z.eqb_eq in E2 as ->.
    apply bt_get_not_in. intros Hin%Hk. lia.
  - rewrite IH by done. destruct (j =? k') eqn:E2, (j =? k) eqn:E3; try done. lia.
Qed.
Lemma bt_in_get {V} (k : Z) (v : V) m : ordered m -> (k, v) ∈ m -> bt_get k m = Some v.
Proof.
  unfold ordered. induction m as [|[k' v'] m IH]; simpl; intros Ho Hin; [set_solver|].
  inversion Ho as [|? ? Ho' Hk]; subst. apply elem_of_cons in Hin as [[= -> ->]|Hin]; [by rewrite Z.eqb_refl|].
  assert (k' < k). { rewrite Forall_forall in Hk. apply Hk. by apply (list_elem_of_fmap_2 fst) in Hin. }
  rewrite (proj2 (Z.eqb_neq k k')) by lia. by apply IH.
Qed.

(** ** The encoder and its client in step *)

Definition is_tool (b : ABlock) : bool := bool_decide (ab_kind b = "tool_use").
(** The call of a block that was opened for the events of index [j]. *)
Definition block_call (x : ABlock * Z) : option Call :=
  if is_tool x.1 then Some (MkCallOf x.2 (ab_call x.1, ab_body x.1) (ab_open x.1)) else None.

(** The blocks [L] of the client, each with the index of its call, are those
    the encoder believes in, and say what the events said. *)
Record in_step (s : StreamEventEncoder) (L : list (ABlock * Z)) (a : Assembly) : Prop := {
  st_next : se_next_block s = Z.of_nat (length L);
  st_prose : forall i k, se_open_prose s = Some (i, k) ->
    (k = "text" \/ k = "thinking") /\
    exists L0 body j, L = L0 ++ [(MkABlock k ("", "") body true, j)] /\ i = Z.of_nat (length L0);
  st_closed : forall n b j, L !! n = Some (b, j) -> ab_open b = true -> is_tool b = false ->
    exists k, se_open_prose s = Some (Z.of_nat n, k);
  st_tools : forall i b, bt_get i (se_open_tools s) = Some b <->
    exists n blk, b = Z.of_nat n /\ L !! n = Some (blk, i) /\ is_tool blk = true /\ ab_open blk = true;
  st_ordered : ordered (se_open_tools s);
  st_text : said "text" L.*1 = am_text a;
  st_thinking : said "thinking" L.*1 = am_thinking a;
  st_calls : omap block_call L = am_calls a }.

Lemma said_app k l m : said k (l ++ m) = said k l +:+ said k m.
Proof.
  induction l as [|b l IH]; [done|]. simpl. rewrite IH. clear IH.
  generalize (if bool_decide (ab_kind b = k) then ab_body b else ""). intros x.
  induction x as [|c x IHx]; [done|]. change (String c (x +:+ said k l +:+ said k m) = String c ((x +:+ said k l) +:+ said k m)).
  by rewrite IHx.
Qed.
Lemma app_empty s : s +:+ "" = s.
Proof. induction s as [|c s IH]; [done|]. change (String c (s +:+ "") = String c s). by rewrite IH. Qed.
Lemma app_assoc_str a b c : (a +:+ b) +:+ c = a +:+ (b +:+ c).
Proof.
  induction a as [|x a IH]; [done|]. change (String x ((a +:+ b) +:+ c) = String x (a +:+ (b +:+ c))). by rewrite IH.
Qed.

(** *** Updating the block of an open call *)

Definition open_for (i : Z) (x : ABlock * Z) : bool := is_tool x.1 && ab_open x.1 && (x.2 =? i).
Definition upd_call (i : Z) (f : ABlock -> ABlock) (L : list (ABlock * Z)) : list (ABlock * Z) :=
  (fun x => if open_for i x then (f x.1, x.2) else x) <$> L.

Lemma open_for_spec i b j : open_for i (b, j) = true <-> is_tool b = true /\ ab_open b = true /\ j = i.
Proof. unfold open_for. simpl. rewrite !andb_true_iff, Z.eqb_eq. tauto. Qed.

Lemma open_unique s L a i n b m b' : in_step s L a ->
  L !! n = Some (b, i) -> is_tool b = true -> ab_open b = true ->
  L !! m = Some (b', i) -> is_tool b' = true -> ab_open b' = true -> m = n.
Proof.
  intros Hs H1 H2 H3 H4 H5 H6.
  assert (Hn : bt_get i (se_open_tools s) = Some (Z.of_nat n)) by (apply (st_tools _ _ _ Hs); by exists n, b).
  assert (Hm : bt_get i (se_open_tools s) = Some (Z.of_nat m)) by (apply (st_tools _ _ _ Hs); by exists m, b').
  rewrite Hn in Hm. injection Hm. lia.
Qed.

Lemma upd_call_insert s L a i n b f : in_step s L a ->
  L !! n = Some (b, i) -> is_tool b = true -> ab_open b = true ->
  <[n := f b]> L.*1 = (upd_call i f L).*1.
Proof.
  intros Hs Hn Ht Ho. apply list_eq. intros m. unfold upd_call. rewrite <- list_fmap_compose, list_lookup_fmap.
  destruct (decide (m = n)) as [->|Hne].
  - rewrite list_lookup_insert_eq by (rewrite length_fmap; by eapply lookup_lt_Some). rewrite Hn. simpl.
    by rewrite (proj2 (open_for_spec i b i)).
  - rewrite list_lookup_insert_ne, list_lookup_fmap by done. destruct (L !! m) as [[b' j]|] eqn:Hm; [|done]. simpl.
    destruct (open_for i (b', j)) eqn:E; [|done]. apply open_for_spec in E as (? & ? & ->).
    exfalso. apply Hne. eapply open_unique; eauto.
Qed.

Lemma upd_call_said i f k L : (forall b, ab_kind (f b) = ab_kind b) -> k <> "tool_use" ->
  said k (upd_call i f L).*1 = said k L.*1.
Proof.
  intros Hf Hk. unfold upd_call. induction L as [|[b j] L IH]; [done|]. rewrite !fmap_cons. cbn [said fst]. rewrite IH. f_equal.
  destruct (open_for i (b, j)) eqn:E; [|done]. apply open_for_spec in E as (Ht & _). apply bool_decide_eq_true in Ht.
  simpl. rewrite Hf, Ht. by rewrite bool_decide_eq_false_2 by done.
Qed.

Lemma omap_block_calls (U : ABlock * Z -> ABlock * Z) (g : Call -> Call) (L : list (ABlock * Z)) :
  (forall x, block_call (U x) = g <$> block_call x) -> omap block_call (U <$> L) = g <$> omap block_call L.
Proof.
  intros HU. induction L as [|x L IH]; [done|].
  change (omap block_call (U x :: (U <$> L)) = g <$> omap block_call (x :: L)). cbn. rewrite HU.
  destruct (block_call x); cbn; rewrite <- ?IH; done.
Qed.

Lemma calls_open s L a i : in_step s L a -> existsb (is_open i) (am_calls a) = bool_decide (is_Some (bt_get i (se_open_tools s))).
Proof.
  intros Hs. apply eq_true_iff_eq. rewrite bool_decide_eq_true, existsb_exists. split.
  - intros (c & Hc%list_elem_of_In & Ho). rewrite <- (st_calls _ _ _ Hs) in Hc.
    apply list_elem_of_omap in Hc as ([b j] & [n Hn]%list_elem_of_lookup & Hc). unfold block_call in Hc. simpl in Hc.
    destruct (is_tool b) eqn:Ht; [|done]. injection Hc as <-. unfold is_open in Ho. simpl in Ho.
    apply andb_true_iff in Ho as [->%Z.eqb_eq Ho]. exists (Z.of_nat n). apply (st_tools _ _ _ Hs). by exists n, b.
  - intros [b (n & blk & -> & Hn & Ht & Ho)%(st_tools _ _ _ Hs)].
    exists (MkCallOf i (ab_call blk, ab_body blk) true). split; [|unfold is_open; simpl; by rewrite Z.eqb_refl].
    apply list_elem_of_In. rewrite <- (st_calls _ _ _ Hs). apply list_elem_of_omap. exists (blk, i).
    split; [by eapply list_elem_of_lookup_2|]. unfold block_call. simpl. by rewrite Ht, Ho.
Qed.

Lemma said_last k (L : list (ABlock * Z)) b j : said k (L ++ [(b, j)]).*1 = said k L.*1 +:+ (if bool_decide (ab_kind b = k) then ab_body b else "").
Proof. rewrite fmap_app, said_app. cbn [fmap list_fmap said fst]. by rewrite app_empty. Qed.
Lemma calls_last (L : list (ABlock * Z)) b j : omap block_call (L ++ [(b, j)]) = omap block_call L ++ match block_call (b, j) with Some c => [c] | None => [] end.
Proof. rewrite omap_app. simpl. by destruct (block_call (b, j)). Qed.

Lemma prose_not_tool k : k = "text" \/ k = "thinking" -> forall c b o, is_tool (MkABlock k c b o) = false.
Proof. by intros [-> | ->]. Qed.

(** A new block at the end, when no prose block is open. *)
Lemma fresh_block s L a blk j prose tools a' :
  in_step s L a -> se_open_prose s = None ->
  (is_tool blk = false /\ (ab_kind blk = "text" \/ ab_kind blk = "thinking") /\ ab_call blk = ("", "")
     /\ prose = Some (Z.of_nat (length L), ab_kind blk) /\ tools = se_open_tools s
   \/ is_tool blk = true /\ prose = None /\ tools = bt_insert j (Z.of_nat (length L)) (se_open_tools s)
     /\ bt_get j (se_open_tools s) = None) ->
  ab_open blk = true -> ab_body blk = "" ->
  am_text a' = am_text a -> am_thinking a' = am_thinking a ->
  am_calls a' = am_calls a ++ match block_call (blk, j) with Some c => [c] | None => [] end ->
  in_step (set_blocks (se_next_block s + 1) prose tools s) (L ++ [(blk, j)]) a'.
Proof.
  intros Hs Hp Hkind Ho Hb Ht Hth Hc. split; cbn.
  - rewrite (st_next _ _ _ Hs), length_app. simpl. lia.
  - intros i k ->. destruct Hkind as [(_ & Hk & Hcall & [= -> ->] & _)|(_ & ? & _)]; [|done]. split; [done|].
    exists L, (ab_body blk), j. split; [|done]. destruct blk; simpl in *. by subst.
  - intros n b i Hn Hob Hnt. apply lookup_app_Some in Hn as [Hn|[Hlen Hn]].
    + destruct (st_closed _ _ _ Hs n b i Hn Hob Hnt). congruence.
    + apply list_lookup_singleton_Some in Hn as [Hz [= <- <-]]. destruct Hkind as [(_ & _ & _ & -> & _)|(? & _)]; [|congruence].
      exists (ab_kind blk). do 2 f_equal. lia.
  - intros i b. split.
    + intros Hg.
      assert (Hcase : bt_get i (se_open_tools s) = Some b \/ (is_tool blk = true /\ i = j /\ b = Z.of_nat (length L))).
      { destruct Hkind as [(_ & _ & _ & _ & ->)|(? & _ & -> & _)]; [by left|]. rewrite bt_get_insert in Hg.
        destruct (i =? j) eqn:E; [|by left]. apply Z.eqb_eq in E. right. naive_solver. }
      destruct Hcase as [(n & b' & -> & Hn & H1 & H2)%(st_tools _ _ _ Hs)|(Ht' & -> & ->)].
      * exists n, b'. split_and!; try done. by apply lookup_app_l_Some.
      * exists (length L), blk. split_and!; try done. by apply list_lookup_middle.
    + intros (n & b' & -> & Hn & H1 & H2). apply lookup_app_Some in Hn as [Hn|[Hlen Hn]].
      * assert (Hg : bt_get i (se_open_tools s) = Some (Z.of_nat n)) by (apply (st_tools _ _ _ Hs); by exists n, b').
        destruct Hkind as [(_ & _ & _ & _ & ->)|(_ & _ & -> & Hnone)]; [done|]. rewrite bt_get_insert.
        destruct (i =? j) eqn:E; [|done]. apply Z.eqb_eq in E. congruence.
      * apply list_lookup_singleton_Some in Hn as [Hz [= <- <-]]. destruct Hkind as [(? & _)|(_ & _ & -> & _)]; [congruence|].
        rewrite bt_get_insert, Z.eqb_refl. do 2 f_equal. lia.
  - destruct Hkind as [(_ & _ & _ & _ & ->)|(_ & _ & -> & _)]; [|apply bt_insert_ordered]; apply Hs.
  - rewrite said_last, Hb. destruct (bool_decide _); rewrite app_empty, Ht; apply Hs.
  - rewrite said_last, Hb. destruct (bool_decide _); rewrite app_empty, Hth; apply Hs.
  - by rewrite calls_last, (st_calls _ _ _ Hs), Hc.
Qed.

(** The last block changes, and is prose. *)
Lemma prose_block_step s (L0 : list (ABlock * Z)) k body j body' (o : bool) prose a a' :
  in_step s (L0 ++ [(MkABlock k ("", "") body true, j)]) a -> k = "text" \/ k = "thinking" ->
  prose = (if o then Some (Z.of_nat (length L0), k) else None) ->
  am_text a' = said "text" L0.*1 +:+ (if bool_decide (k = "text") then body' else "") ->
  am_thinking a' = said "thinking" L0.*1 +:+ (if bool_decide (k = "thinking") then body' else "") ->
  am_calls a' = am_calls a ->
  in_step (set_blocks (se_next_block s) prose (se_open_tools s) s) (L0 ++ [(MkABlock k ("", "") body' o, j)]) a'.
Proof.
  intros Hs Hk -> Ht Hth Hc. pose proof (prose_not_tool k Hk) as Hnt.
  split; cbn.
  - rewrite (st_next _ _ _ Hs), !length_app. done.
  - intros i k'. destruct o; [|done]. intros [= <- <-]. split; [done|]. eauto.
  - intros n b i Hn Ho Hb. apply lookup_app_Some in Hn as [Hn|[Hlen Hn]].
    + assert (Hn' : (L0 ++ [(MkABlock k ("", "") body true, j)]) !! n = Some (b, i)) by (by apply lookup_app_l_Some).
      destruct (st_closed _ _ _ Hs n b i Hn' Ho Hb) as [k' Hk'].
      apply (st_prose _ _ _ Hs) in Hk' as (_ & L1 & body1 & j1 & HL & Hn1).
      apply app_inj_tail in HL as [<- _]. apply lookup_lt_Some in Hn. lia.
    + apply list_lookup_singleton_Some in Hn as [Hz [= <- <-]]. simpl in Ho. subst o. exists k. do 2 f_equal. lia.
  - intros i b. rewrite (st_tools _ _ _ Hs). split; intros (n & blk & -> & Hn & H1 & H2); exists n, blk;
      split_and!; try done.
    + apply lookup_app_Some in Hn as [Hn|[_ [_ [= <- _]]%list_lookup_singleton_Some]]; [by apply lookup_app_l_Some|].
      by rewrite Hnt in H1.
    + apply lookup_app_Some in Hn as [Hn|[_ [_ [= <- _]]%list_lookup_singleton_Some]]; [by apply lookup_app_l_Some|].
      by rewrite Hnt in H1.
  - apply Hs.
  - by rewrite said_last, Ht.
  - by rewrite said_last, Hth.
  - rewrite Hc, <- (st_calls _ _ _ Hs), !calls_last. unfold block_call. cbn [fst]. by rewrite !Hnt.
Qed.

(** What the client and the events agree on after some frames. *)
Definition reaches (s : StreamEventEncoder) (a : Assembly) (L : list (ABlock * Z)) (frames : Frames) : Prop :=
  exists L', client_run (live L.*1) frames = Some (live L'.*1) /\ in_step s L' a.

Lemma reaches_none s a L : in_step s L a -> reaches s a L [].
Proof. intros Hs. by exists L. Qed.
Lemma reaches_app s a L frames s' a' frames' :
  reaches s a L frames -> (forall L, in_step s L a -> reaches s' a' L frames') -> reaches s' a' L (frames ++ frames').
Proof.
  intros (L1 & Hr1 & Hs1) Hk. destruct (Hk L1 Hs1) as (L2 & Hr2 & Hs2). exists L2. split; [|done].
  by rewrite client_run_app, Hr1.
Qed.

Lemma insert_last (L0 : list (ABlock * Z)) b j b' : <[length L0 := b']> (L0 ++ [(b, j)]).*1 = (L0 ++ [(b', j)]).*1.
Proof.
  rewrite !fmap_app. cbn. rewrite <- (length_fmap fst L0), <- (Nat.add_0_r (length L0.*1)). by rewrite insert_app_r.
Qed.
Lemma lookup_last (L0 : list (ABlock * Z)) b j : (L0 ++ [(b, j)]).*1 !! length L0 = Some b.
Proof. rewrite fmap_app. cbn. rewrite <- (length_fmap fst L0). by apply list_lookup_middle. Qed.

Lemma close_prose_reaches s L a : in_step s L a ->
  reaches (close_prose_block s).2 a L (close_prose_block s).1 /\ se_open_prose (close_prose_block s).2 = None.
Proof.
  intros Hs. unfold close_prose_block. destruct (se_open_prose s) as [[i k]|] eqn:Hp;
    [|split; [by apply reaches_none|done]].
  split; [|done]. destruct (st_prose _ _ _ Hs i k Hp) as (Hk & L0 & body & j & -> & ->).
  exists (L0 ++ [(MkABlock k ("", "") body false, j)]). cbn [fst snd client_run].
  rewrite (step_stop _ _ (MkABlock k ("", "") body true) (lookup_last _ _ _) eq_refl). cbn. rewrite insert_last. split; [done|].
  apply (prose_block_step s L0 k body j body false _ a a); try done.
  - rewrite <- (st_text _ _ _ Hs), said_last. done.
  - rewrite <- (st_thinking _ _ _ Hs), said_last. done.
Qed.

Lemma fresh_prose_reaches s L a kind : in_step s L a -> se_open_prose s = None -> kind = "text" \/ kind = "thinking" ->
  let s' := set_blocks (se_next_block s + 1) (Some (se_next_block s, kind)) (se_open_tools s) s in
  reaches s' a L [block_start (se_next_block s) (prose_block kind)].
Proof.
  intros Hs Hp Hk s'. exists (L ++ [(MkABlock kind ("", "") "" true, 0)]). cbn [client_run].
  rewrite (st_next _ _ _ Hs), <- (length_fmap fst L).
  rewrite (step_start _ (MkABlock kind ("", "") "" true)) by (by destruct Hk as [-> | ->]).
  split; [by rewrite fmap_app|]. unfold s'. rewrite (st_next _ _ _ Hs) at 2.
  apply (fresh_block s L a); try done; [left|].
  - split_and!; try done. by apply prose_not_tool.
  - unfold block_call. cbn. rewrite (prose_not_tool kind Hk). by rewrite app_nil_r.
Qed.

Lemma open_prose_reaches s L a kind : in_step s L a -> kind = "text" \/ kind = "thinking" ->
  let '(index, frames, s') := open_prose_block kind s in
  reaches s' a L frames /\ se_open_prose s' = Some (index, kind).
Proof.
  intros Hs Hk. unfold open_prose_block. destruct (se_open_prose s) as [[i k]|] eqn:Hp.
  - case_bool_decide as He; [subst; split; [by apply reaches_none|done]|]. split; [|done].
    destruct (close_prose_reaches s L a Hs) as [Hc Hnone]. unfold close_prose_block in Hc, Hnone. rewrite Hp in *.
    apply (reaches_app _ _ _ _ _ _ _ Hc). intros L1 Hs1. apply (fresh_prose_reaches _ L1 a kind Hs1 Hnone Hk).
  - split; [|done]. by apply fresh_prose_reaches.
Qed.

Lemma prose_delta_reaches s L a a' kind dtype field delta : in_step s L a -> kind = "text" \/ kind = "thinking" ->
  delta_text kind (JObject [("type", JStr dtype); (field, JStr delta)]) = Some delta ->
  am_text a' = am_text a +:+ (if bool_decide (kind = "text") then delta else "") ->
  am_thinking a' = am_thinking a +:+ (if bool_decide (kind = "thinking") then delta else "") ->
  am_calls a' = am_calls a ->
  reaches (prose_delta kind dtype field delta s).2 a' L (prose_delta kind dtype field delta s).1.
Proof.
  intros Hs Hk Hd Ht Hth Hc. unfold prose_delta. pose proof (open_prose_reaches s L a kind Hs Hk) as Ho.
  destruct (open_prose_block kind s) as [[index frames] s1]. destruct Ho as [Hr Hp]. cbn [fst snd].
  apply (reaches_app _ _ _ _ _ _ _ Hr). clear L Hs Hr. intros L Hs.
  destruct (st_prose _ _ _ Hs index kind Hp) as (_ & L0 & body & j & -> & ->).
  exists (L0 ++ [(MkABlock kind ("", "") (body +:+ delta) true, j)]). cbn [client_run].
  rewrite (step_delta _ _ (MkABlock kind ("", "") body true) _ delta (lookup_last _ _ _) eq_refl Hd). cbn.
  rewrite insert_last. split; [done|].
  replace s1 with (set_blocks (se_next_block s1) (Some (Z.of_nat (length L0), kind)) (se_open_tools s1) s1)
    by (rewrite <- Hp; by destruct s1).
  pose proof (st_text _ _ _ Hs) as H1. pose proof (st_thinking _ _ _ Hs) as H2. rewrite said_last in H1, H2. cbn in H1, H2.
  apply (prose_block_step s1 L0 kind body j (body +:+ delta) true _ a a'); try done.
  - rewrite Ht, <- H1, app_assoc_str. by destruct Hk as [-> | ->].
  - rewrite Hth, <- H2, app_assoc_str. by destruct Hk as [-> | ->].
Qed.

(** The open block of a call changes. *)
Lemma upd_call_step s L a a' i f (still : bool) (g : Call -> Call) :
  in_step s L a -> (forall b, ab_kind (f b) = ab_kind b) -> (forall b, ab_open (f b) = still) ->
  (forall x, block_call (if open_for i x then (f x.1, x.2) else x) = g <$> block_call x) ->
  am_text a' = am_text a -> am_thinking a' = am_thinking a -> am_calls a' = g <$> am_calls a ->
  in_step (set_blocks (se_next_block s) (se_open_prose s)
             (if still then se_open_tools s else bt_remove i (se_open_tools s)) s) (upd_call i f L) a'.
Proof.
  intros Hs Hkind Hstill Hg Ht Hth Hc.
  assert (Htool : forall b, is_tool (f b) = is_tool b) by (intros b; unfold is_tool; by rewrite Hkind).
  split; cbn.
  - unfold upd_call. rewrite length_fmap. apply Hs.
  - intros p k Hp. destruct (st_prose _ _ _ Hs p k Hp) as (Hk & L0 & body & j & -> & ->). split; [done|].
    exists (upd_call i f L0), body, j. unfold upd_call. rewrite fmap_app, length_fmap. split; [|done]. cbn.
    unfold open_for. cbn [fst]. by rewrite (prose_not_tool k Hk).
  - intros n b j Hn Ho Hb. unfold upd_call in Hn. rewrite list_lookup_fmap in Hn.
    destruct (L !! n) as [[b0 j0]|] eqn:Hl; [|done]. simpl in Hn. injection Hn as Hn.
    destruct (open_for i (b0, j0)) eqn:E; injection Hn as <- <-.
    + apply open_for_spec in E as (? & _). rewrite Htool in Hb. congruence.
    + eapply (st_closed _ _ _ Hs); eauto.
  - intros j b.
    assert (Hgen : bt_get j (if still then se_open_tools s else bt_remove i (se_open_tools s))
                   = if negb still && (j =? i) then None else bt_get j (se_open_tools s)).
    { destruct still; [done|]. rewrite bt_get_remove by apply Hs. done. }
    rewrite Hgen. clear Hgen. split.
    + destruct (negb still && (j =? i)) eqn:Eg; [done|]. intros (n & blk & -> & Hn & H1 & H2)%(st_tools _ _ _ Hs).
      unfold upd_call. destruct (open_for i (blk, j)) eqn:E.
      * exists n, (f blk). rewrite list_lookup_fmap, Hn. cbn. rewrite E, Htool, Hstill. split_and!; try done.
        apply open_for_spec in E as (_ & _ & ->). rewrite Z.eqb_refl in Eg. by destruct still.
      * exists n, blk. rewrite list_lookup_fmap, Hn. cbn. by rewrite E.
    + intros (n & blk & -> & Hn & H1 & H2). unfold upd_call in Hn. rewrite list_lookup_fmap in Hn.
      destruct (L !! n) as [[b0 j0]|] eqn:Hl; [|done]. simpl in Hn. injection Hn as Hn.
      destruct (open_for i (b0, j0)) eqn:E; injection Hn as <- <-.
      * rewrite Hstill in H2. subst still. cbn. apply open_for_spec in E as (? & ? & ->).
        apply (st_tools _ _ _ Hs). by exists n, b0.
      * destruct (j0 =? i) eqn:Ej; [|rewrite andb_false_r; apply (st_tools _ _ _ Hs); by exists n, b0].
        apply Z.eqb_eq in Ej as ->. by rewrite (proj2 (open_for_spec i b0 i)) in E.
  - destruct still; [|apply bt_remove_ordered]; apply Hs.
  - rewrite upd_call_said by done. rewrite Ht. apply Hs.
  - rewrite upd_call_said by done. rewrite Hth. apply Hs.
  - unfold upd_call. rewrite (omap_block_calls _ g) by done. by rewrite (st_calls _ _ _ Hs).
Qed.

Lemma open_call_block s L a i b : in_step s L a -> bt_get i (se_open_tools s) = Some b ->
  exists n blk, b = Z.of_nat n /\ L !! n = Some (blk, i) /\ L.*1 !! n = Some blk /\ is_tool blk = true /\ ab_open blk = true.
Proof.
  intros Hs (n & blk & -> & Hn & H1 & H2)%(st_tools _ _ _ Hs). exists n, blk. split_and!; try done.
  by rewrite list_lookup_fmap, Hn.
Qed.

Section Main.
Context (error_json : ProviderErrorV1 -> Json).
Notation encode_anthropic := (encode_anthropic error_json).

Lemma tool_start_reaches s L a i id name : in_step s L a -> bt_get i (se_open_tools s) = None ->
  let e := encode_anthropic (EvToolCallStart i id name) s in
  reaches e.2 (MkAssembly true (am_text a) (am_thinking a) (am_calls a ++ [MkCallOf i (id, name, "") true]) false) L e.1.
Proof.
  intros Hs Hi. cbn. destruct (close_prose_reaches s L a Hs) as [Hc Hnone].
  assert (Htools : se_open_tools (close_prose_block s).2 = se_open_tools s).
  { unfold close_prose_block. by destruct (se_open_prose s) as [[]|]. }
  destruct (close_prose_block s) as [frames s1]. cbn in *. apply (reaches_app _ _ _ _ _ _ _ Hc). clear Hc Hs L.
  intros L Hs. exists (L ++ [(MkABlock "tool_use" (id, name) "" true, i)]). cbn [client_run].
  rewrite (st_next _ _ _ Hs), <- (length_fmap fst L).
  rewrite (step_start _ (MkABlock "tool_use" (id, name) "" true)) by done.
  split; [by rewrite fmap_app|]. rewrite length_fmap, Hnone.
  rewrite <- (st_next _ _ _ Hs) at 1. apply (fresh_block s1 L a); try done. right. by rewrite Htools.
Qed.

Lemma tool_args_reaches s L a i t b : in_step s L a -> bt_get i (se_open_tools s) = Some b ->
  let e := encode_anthropic (EvToolCallArgumentsDelta i t) s in
  reaches e.2 (MkAssembly true (am_text a) (am_thinking a) (add_args i t <$> am_calls a) false) L e.1.
Proof.
  intros Hs Hb. cbn. rewrite Hb. cbn. destruct (open_call_block _ _ _ _ _ Hs Hb) as (n & blk & -> & Hn & Hn' & Ht & Ho).
  exists (upd_call i (extended t) L). cbn [client_run].
  rewrite (step_delta _ _ _ _ t Hn' Ho) by (unfold is_tool in Ht; apply bool_decide_eq_true in Ht; by rewrite Ht).
  cbn. rewrite (upd_call_insert _ _ _ _ _ _ (extended t) Hs Hn Ht Ho). split; [done|].
  replace s with (set_blocks (se_next_block s) (se_open_prose s) (se_open_tools s) s) by (by destruct s).
  apply (upd_call_step s L a _ i (extended t) true (add_args i t) Hs); try done.
  intros [b' j]. unfold open_for, block_call, add_args, is_open. cbn. destruct (is_tool b') eqn:E; cbn.
  - destruct (ab_open b') eqn:E2; cbn; [|rewrite E, ?E2; cbn; by rewrite ?E2, ?andb_false_r]. destruct (j =? i) eqn:E3; cbn.
    + change (is_tool (extended t b')) with (is_tool b'). rewrite E. by destruct (ab_call b').
    + rewrite E, ?E2. cbn. by rewrite ?E3, ?E2.
  - by rewrite E.
Qed.

Lemma tool_end_reaches s L a i b : in_step s L a -> bt_get i (se_open_tools s) = Some b ->
  let e := encode_anthropic (EvToolCallEnd i) s in
  reaches e.2 (MkAssembly true (am_text a) (am_thinking a) (end_open i <$> am_calls a) false) L e.1.
Proof.
  intros Hs Hb. cbn. rewrite Hb. cbn. destruct (open_call_block _ _ _ _ _ Hs Hb) as (n & blk & -> & Hn & Hn' & Ht & Ho).
  exists (upd_call i closed L). cbn [client_run]. rewrite (step_stop _ _ _ Hn' Ho).
  cbn. rewrite (upd_call_insert _ _ _ _ _ _ closed Hs Hn Ht Ho). split; [done|].
  apply (upd_call_step s L a _ i closed false (end_open i) Hs); try done.
  intros [b' j]. unfold open_for, block_call, end_open, is_open, end_call. cbn. destruct (is_tool b') eqn:E; cbn.
  - destruct (ab_open b') eqn:E2; cbn; [|rewrite E, ?E2; cbn; by rewrite ?E2, ?andb_false_r]. destruct (j =? i) eqn:E3; cbn.
    + change (is_tool (closed b')) with (is_tool b'). by rewrite E.
    + rewrite E, ?E2. cbn. by rewrite ?E3, ?E2.
  - by rewrite E.
Qed.

Lemma said_closed k bs : said k (closed <$> bs) = said k bs.
Proof. induction bs as [|b bs IH]; [done|]. rewrite fmap_cons. cbn [said]. by rewrite IH. Qed.
Lemma calls_of_step s L a : in_step s L a -> calls_of L.*1 = cl_parts <$> am_calls a.
Proof.
  intros Hs. rewrite <- (st_calls _ _ _ Hs). clear Hs. induction L as [|[b j] L IH]; [done|]. rewrite fmap_cons.
  unfold calls_of in *. cbn. rewrite IH. unfold block_call, is_tool. cbn. by destruct (bool_decide _).
Qed.
Lemma calls_of_closed bs : calls_of (closed <$> bs) = calls_of bs.
Proof.
  unfold calls_of. induction bs as [|b bs IH]; [done|]. rewrite fmap_cons. cbn. rewrite IH. done.
Qed.

(** The blocks of the client once everything is closed. *)
Lemma close_all_runs s L a : in_step s L a ->
  exists bs, client_run (live L.*1) (close_all s).1 = Some (live bs)
    /\ existsb ab_open bs = false /\ said "text" bs = am_text a /\ said "thinking" bs = am_thinking a
    /\ calls_of bs = cl_parts <$> am_calls a.
Proof.
  intros Hs. unfold close_all. destruct (close_prose_reaches s L a Hs) as [(L1 & Hr & Hs1) Hnone].
  destruct (close_prose_block s) as [frames s1]. cbn [fst snd] in *.
  set (ns := Z.to_nat <$> (se_open_tools s1).*2).
  assert (Hvals : forall i b, (i, b) ∈ se_open_tools s1 -> exists n blk, b = Z.of_nat n /\ L1 !! n = Some (blk, i)
                    /\ L1.*1 !! n = Some blk /\ is_tool blk = true /\ ab_open blk = true).
  { intros i b Hin. eapply open_call_block; [exact Hs1|]. apply bt_in_get; [apply Hs1|done]. }
  assert (Hframes : block_stop <$> (se_open_tools s1).*2 = (fun n => block_stop (Z.of_nat n)) <$> ns).
  { unfold ns. rewrite <- !list_fmap_compose. apply list_fmap_ext. intros k [i b] Hk%list_elem_of_lookup_2. cbn.
    destruct (Hvals i b Hk) as (n & blk & -> & _). by rewrite Nat2Z.id. }
  assert (Hnd : NoDup ns).
  { unfold ns. apply NoDup_fmap_2_strong; [|].
    - intros x y Hx Hy Heq. apply list_elem_of_fmap in Hx as ([i bx] & -> & Hx), Hy as ([j by'] & -> & Hy). cbn in *.
      destruct (Hvals _ _ Hx) as (n & ? & -> & _), (Hvals _ _ Hy) as (m & ? & -> & _). rewrite !Nat2Z.id in Heq. by subst.
    - pose proof (st_ordered _ _ _ Hs1) as Hord. pose proof (fun i b => Hvals i b) as Hv. clear Hframes.
      assert (Hinj : forall i j b, (i, b) ∈ se_open_tools s1 -> (j, b) ∈ se_open_tools s1 -> i = j).
      { intros i j b Hi Hj. destruct (Hvals _ _ Hi) as (n & ? & -> & Hn & _), (Hvals _ _ Hj) as (m & ? & Heq & Hm & _).
        apply Nat2Z.inj in Heq as <-. congruence. }
      clear -Hord Hinj. induction (se_open_tools s1) as [|[i b] l IH]; [constructor|]. inversion Hord as [|? ? Ho Hk]; subst.
      constructor; [|apply IH; [done|]; intros; eapply Hinj; right; eauto].
      intros ([j b'] & Heq & Hin)%list_elem_of_fmap. cbn in Heq. subst b'. assert (i = j) by (eapply Hinj; [left|right; exact Hin]). subst j.
      rewrite Forall_forall in Hk. specialize (Hk i (list_elem_of_fmap_2 fst _ _ Hin)). lia. }
  destruct (run_stops ns L1.*1 Hnd) as (bs & Hrun & Hbs).
  { intros n (b & -> & ([i b'] & -> & Hin)%list_elem_of_fmap)%list_elem_of_fmap. cbn.
    destruct (Hvals _ _ Hin) as (n & blk & -> & _ & Hn & _ & Ho). rewrite Nat2Z.id. eauto. }
  exists bs. rewrite client_run_app, Hr. cbn. rewrite Hframes, Hrun.
  assert (Hall : bs = closed <$> L1.*1).
  { apply list_eq. intros m. rewrite Hbs, (list_lookup_fmap closed). destruct (L1.*1 !! m) as [b|] eqn:Hm; [|done]. cbn. f_equal.
    case_bool_decide as Hin; [done|]. destruct b as [k c body o] eqn:Eb. destruct o; [|done]. exfalso. apply Hin.
    rewrite list_lookup_fmap in Hm. destruct (L1 !! m) as [[b0 j]|] eqn:Hl; [|done]. cbn in Hm. injection Hm as ->.
    destruct (is_tool (MkABlock k c body true)) eqn:Et.
    - assert (Hg : bt_get j (se_open_tools s1) = Some (Z.of_nat m)) by (apply (st_tools _ _ _ Hs1); by eexists m, _).
      apply bt_get_in in Hg. unfold ns. apply list_elem_of_fmap. exists (Z.of_nat m). split; [by rewrite Nat2Z.id|].
      by apply (list_elem_of_fmap_2 snd) in Hg.
    - destruct (st_closed _ _ _ Hs1 m _ j Hl eq_refl Et). congruence. }
  rewrite Hall, said_closed, said_closed, calls_of_closed, (calls_of_step _ _ _ Hs1). split_and!; try done.
  - apply not_true_iff_false. intros (b & Hin%list_elem_of_In & Ho)%existsb_exists.
    by apply list_elem_of_fmap in Hin as (? & -> & _).
  - apply Hs1.
  - apply Hs1.
Qed.

(** The client agrees with the events, and its stream is over if theirs is. *)
Definition agrees (c : AClient) (a : Assembly) : Prop :=
  said "text" (ac_blocks c) = am_text a /\ said "thinking" (ac_blocks c) = am_thinking a
  /\ calls_of (ac_blocks c) = cl_parts <$> am_calls a /\ ac_ended c = am_over a
  /\ (am_over a = true -> existsb ab_open (ac_blocks c) = false).

Lemma step_message_delta bs fields :
  client_step (live bs) (Some "message_delta", JObject (("type", JStr "message_delta") :: fields)) = Some (live bs).
Proof. done. Qed.
Lemma step_message_stop bs : existsb ab_open bs = false ->
  client_step (live bs) (Some "message_stop", JObject [("type", JStr "message_stop")]) = Some (MkAClient true bs true).
Proof. intros Hb. unfold client_step. simpl. by rewrite Hb. Qed.
Lemma step_error c j : ac_ended c = false ->
  client_step c (Some "error", JObject [("type", JStr "error"); ("error", j)]) = Some (MkAClient (ac_begun c) (ac_blocks c) true).
Proof. intros Hc. unfold client_step. simpl. by rewrite Hc. Qed.

Lemma ended_parts (cs : list Call) : cl_parts <$> (end_call <$> cs) = cl_parts <$> cs.
Proof. rewrite <- list_fmap_compose. by apply list_fmap_ext. Qed.

Definition over_of (a : Assembly) : Assembly :=
  MkAssembly (am_begun a) (am_text a) (am_thinking a) (end_call <$> am_calls a) true.

(** An event in the middle of a stream: the stream goes on, or is over. *)
Lemma live_event s L a e a' : in_step s L a -> am_begun a = true -> assemble a e = Some a' ->
  let r := encode_anthropic e s in
  (am_begun a' = true /\ am_over a' = false /\ reaches r.2 a' L r.1)
  \/ (am_over a' = true /\ exists c, client_run (live L.*1) r.1 = Some c /\ agrees c a').
Proof.
  intros Hs Hb Ha. unfold assemble in Ha. destruct (am_over a) eqn:Hover; [done|]. rewrite Hb in Ha.
  assert (Hopen : forall i, existsb (is_open i) (am_calls a) = true -> exists b, bt_get i (se_open_tools s) = Some b).
  { intros i. rewrite (calls_open s L a i Hs), bool_decide_eq_true. by intros [b Hi]; exists b. }
  destruct e as [id model|t|t|t|i id name|i t|i|u|r|er]; cbn [negb] in Ha.
  - done.
  - injection Ha as <-. left. split_and!; try done. apply (prose_delta_reaches s L a); try done; try (by left); by rewrite ?app_empty.
  - injection Ha as <-. left. split_and!; try done. apply (prose_delta_reaches s L a); try done; try (by right); by rewrite ?app_empty.
  - injection Ha as <-. left. split_and!; try done. apply (prose_delta_reaches s L a); try done; try (by left); by rewrite ?app_empty.
  - destruct (existsb _ _) eqn:Ho; [done|]. injection Ha as <-. left. split_and!; try done.
    apply tool_start_reaches; [done|]. rewrite (calls_open s L a i Hs) in Ho. apply bool_decide_eq_false in Ho.
    by apply eq_None_not_Some.
  - destruct (existsb _ _) eqn:Ho; [|done]. injection Ha as <-. left. split_and!; try done.
    destruct (Hopen i Ho) as [b Hg]. by eapply tool_args_reaches.
  - destruct (existsb _ _) eqn:Ho; [|done]. injection Ha as <-. left. split_and!; try done.
    destruct (Hopen i Ho) as [b Hg]. by eapply tool_end_reaches.
  - injection Ha as <-. left. split_and!; try done. exists L. split; [done|done].
  - injection Ha as <-. right. split; [done|]. destruct (close_all_runs s L a Hs) as (bs & Hrun & Hcl & H1 & H2 & H3).
    cbn [encode_anthropic]. destruct (close_all s) as [frames s1]. cbn [fst snd] in *.
    exists (MkAClient true bs true). rewrite client_run_app, Hrun. cbn [mbind option_bind client_run].
    rewrite step_message_delta. cbn [mbind option_bind]. rewrite (step_message_stop bs Hcl). split; [done|].
    split_and!; try done. cbn. by rewrite ended_parts.
  - injection Ha as <-. right. split; [done|]. destruct (close_all_runs s L a Hs) as (bs & Hrun & Hcl & H1 & H2 & H3).
    cbn [encode_anthropic]. destruct (close_all s) as [frames s1]. cbn [fst snd] in *.
    exists (MkAClient true bs true). rewrite client_run_app, Hrun. cbn. split; [done|].
    split_and!; try done. cbn. by rewrite ended_parts.
Qed.

Lemma anthropic_keeps_dialect e s : se_dialect (encode_anthropic e s).2 = se_dialect s.
Proof.
  assert (Hc : forall s, se_dialect (close_prose_block s).2 = se_dialect s).
  { intros s0. unfold close_prose_block. by destruct (se_open_prose s0) as [[]|]. }
  assert (Ho : forall k s, se_dialect (open_prose_block k s).2 = se_dialect s).
  { intros k s0. unfold open_prose_block. destruct (se_open_prose s0) as [[]|]; [|done]. by case_bool_decide. }
  destruct e; cbn; try done.
  - unfold prose_delta. specialize (Ho "text" s). by destruct (open_prose_block _ s) as [[]].
  - unfold prose_delta. specialize (Ho "thinking" s). by destruct (open_prose_block _ s) as [[]].
  - unfold prose_delta. specialize (Ho "text" s). by destruct (open_prose_block _ s) as [[]].
  - specialize (Hc s). by destruct (close_prose_block s).
  - unfold close_all. specialize (Hc s). by destruct (close_prose_block s).
  - unfold close_all. specialize (Hc s). by destruct (close_prose_block s).
Qed.

Context (from_str : string -> option Json) (unix_now : Z).
Notation stream_frames := (stream_frames error_json from_str unix_now).
Notation stream_turn := (stream_turn error_json from_str unix_now).

Lemma anthropic_turn e lu s : se_dialect s = Anthropic ->
  exists lu', stream_turn e lu s = ((encode_anthropic e s).1, lu', (encode_anthropic e s).2)
  \/ stream_turn e lu s = ([], lu', s) /\ exists u, e = EvUsage u.
Proof.
  intros Hd. unfold StreamEncoder.stream_turn, encode. rewrite Hd.
  destruct e; try (exists lu; left; by destruct (encode_anthropic _ s)).
  case_bool_decide; [exists (Some usage); by left|exists lu; right; eauto].
Qed.

Lemma assemble_over a es a' : am_over a = true -> assemble_all a es = Some a' -> es = [] /\ a' = a.
Proof. intros Ho. destruct es as [|e es]; cbn; [by intros [= <-]|]. unfold assemble. by rewrite Ho. Qed.

Lemma client_follows es : forall s L a lu a', se_dialect s = Anthropic -> in_step s L a -> am_begun a = true -> am_over a = false ->
  assemble_all a es = Some a' ->
  exists c, client_run (live L.*1) (stream_frames es lu s) = Some c /\ agrees c a'.
Proof.
  induction es as [|e es IH]; intros s L a lu a' Hd Hs Hb Ho Ha; cbn in Ha.
  { injection Ha as <-. exists (live L.*1). split; [done|]. unfold agrees. cbn [ac_blocks ac_ended]. rewrite (calls_of_step _ _ _ Hs), Ho.
    split_and!; try done; apply Hs. }
  apply bind_Some in Ha as (a1 & Ha1 & Ha). cbn [StreamEncoder.stream_frames].
  destruct (anthropic_turn e lu s Hd) as (lu' & [-> | [-> (u & ->)]]).
  - rewrite client_run_app. destruct (live_event s L a e a1 Hs Hb Ha1) as [(Hb1 & Ho1 & L1 & Hr & Hs1)|(Ho1 & c & Hr & Hag)].
    + rewrite Hr. cbn. eapply IH; try done. by rewrite anthropic_keeps_dialect.
    + destruct (assemble_over _ _ _ Ho1 Ha) as [-> ->]. rewrite Hr. cbn. by exists c.
  - unfold assemble in Ha1. rewrite Ho, Hb in Ha1. cbn in Ha1. injection Ha1 as <-. by eapply IH.
Qed.

Lemma in_step_new d : in_step (encoder_new d) [] assembly_new.
Proof.
  split; cbn; try done.
  - intros i b. split; [done|]. intros (n & blk & _ & Hn & _). done.
  - constructor.
Qed.

(** C31: An Anthropic client can read every answer.  For every canonical
    stream in which calls are started before they are extended or ended, the
    frames written to an Anthropic caller satisfy the content-block protocol:
    the message starts once, blocks are numbered from zero without a gap, a
    delta fits the kind of an open block, every block is closed once and all
    of them before the message stops.  What the client assembles is what the
    events said: the text with the refusals, the thinking, and the calls in
    order with their ids, names and arguments. *)
Theorem anthropic_stream_is_well_formed es a :
  assemble_all assembly_new es = Some a ->
  exists c, client_run client_new (stream_frames es None (encoder_new Anthropic)) = Some c /\ agrees c a.
Proof.
  destruct es as [|e es]; cbn [assemble_all]; intros Ha.
  { injection Ha as <-. by exists client_new. }
  apply bind_Some in Ha as (a1 & Ha1 & Ha). cbn [StreamEncoder.stream_frames].
  destruct e as [id model|t|t|t|i id name|i t|i|u|r|er]; try done.
  - cbn in Ha1. injection Ha1 as <-. cbn [StreamEncoder.stream_turn encode se_dialect encoder_new StreamEncoder.encode_anthropic].
    rewrite client_run_app.
    destruct (client_follows es (encoder_new Anthropic) [] (MkAssembly true "" "" [] false) None a) as (c & Hc & Hag); try done.
    { pose proof (in_step_new Anthropic) as [? ? ? ? ? ? ? ?]. by split. }
    exists c. split; [|done]. exact Hc.
  - cbn in Ha1. injection Ha1 as <-. apply assemble_over in Ha as [-> ->]; [|done].
    exists (MkAClient false [] true). done.
Qed.
End Main.

(** Thinking, then text, a call whose arguments come in pieces, more text
    with the call still open, and the end. *)
Definition demo_events : list ChatStreamEventV1 :=
  [EvResponseStart (Some "r1") "m"; EvReasoningDelta "hm"; EvTextDelta "so: "; EvToolCallStart 3 "c1" "ls";
   EvToolCallArgumentsDelta 3 "{a"; EvTextDelta "wait"; EvToolCallArgumentsDelta 3 "}"; EvFinish FrToolCalls].

Lemma anthropic_stream_is_well_formed_witness :
  exists c, client_run client_new (stream_frames (fun _ => JNull) (fun _ => None) 0 demo_events None (encoder_new Anthropic)) = Some c
    /\ said "text" (ac_blocks c) = "so: wait" /\ calls_of (ac_blocks c) = [("c1", "ls", "{a}")] /\ length (ac_blocks c) = 4%nat.
Proof.
  destruct (anthropic_stream_is_well_formed (fun _ => JNull) (fun _ => None) 0 demo_events
    (MkAssembly true "so: wait" "hm" [MkCallOf 3 ("c1", "ls", "{a}") false] true) eq_refl) as (c & Hc & H1 & H2 & H3 & _).
  exists c. split; [exact Hc|]. split; [exact H1|]. split; [exact H3|].
  vm_compute in Hc. injection Hc as <-. reflexivity.
Defined.
