(* ===== verification/ResponsesStream.v ===== *)
(** The Responses frames of the stream encoder: the index space of the
    frames is the one of the output of the terminal frame. *)

From S2P Require Import Prelude Json Usage Accounting StreamEncoder AnthropicStream.

Section Responses.
Context (error_json : ProviderErrorV1 -> Json) (from_str : string -> option Json) (unix_now : Z).

Notation stream_turn := (stream_turn error_json from_str unix_now).
Notation stream_frames := (stream_frames error_json from_str unix_now).

(** The state after some events. *)
Definition after (es : list ChatStreamEventV1) (st : option UsageV2 * StreamEventEncoder) : option UsageV2 * StreamEventEncoder :=
  fold_left (fun st e => let '(_, lu, s) := stream_turn e st.1 st.2 in (lu, s)) es st.
Definition frames_of (e : ChatStreamEventV1) (st : option UsageV2 * StreamEventEncoder) : Frames :=
  (stream_turn e st.1 st.2).1.1.

Lemma stream_frames_app es e : forall lu s,
  stream_frames (es ++ [e]) lu s = stream_frames es lu s ++ frames_of e (after es (lu, s)).
Proof.
  induction es as [|x es IH]; intros lu s; cbn.
  - unfold frames_of. cbn. destruct (stream_turn e lu s) as [[fs lu'] s']. by rewrite app_nil_r.
  - destruct (stream_turn x lu s) as [[fs lu'] s'] eqn:Hx. by rewrite IH, app_assoc.
Qed.

(** The calls started so far, by index. *)
Definition started (es : list ChatStreamEventV1) : list Z :=
  omap (fun e => match e with EvToolCallStart i _ _ => Some i | _ => None end) es.
Definition says_something (e : ChatStreamEventV1) : bool :=
  match e with EvTextDelta t | EvRefusalDelta t => negb (bool_decide (t = "")) | EvFinish _ => false | _ => true end.

(** The item of a slot, as the terminal frame will show it. *)
Definition text_item (t : string) : Json :=
  JObject [("type", JStr "message"); ("role", JStr "assistant");
           ("content", JArray [JObject [("type", JStr "output_text"); ("text", JStr t)]])].
Definition slot_item (s : StreamEventEncoder) (item : ResponsesOutputItem) : Json :=
  match item with
  | OutText => text_item (se_responses_text s)
  | OutCall i => function_call_item (default ("", "", "") (bt_get i (se_responses_calls s))) "completed"
  end.
(** The slot an event opens or extends. *)
Definition slot_of (e : ChatStreamEventV1) : option ResponsesOutputItem :=
  match e with
  | EvTextDelta _ | EvRefusalDelta _ => Some OutText
  | EvToolCallStart i _ _ | EvToolCallArgumentsDelta i _ | EvToolCallEnd i => Some (OutCall i)
  | _ => None
  end.

(** Every slot that was opened has its item, and no other. *)
Record slots_ok (s : StreamEventEncoder) : Prop := {
  so_text : OutText ∈ se_responses_order s <-> se_responses_text s <> "";
  so_calls : forall i, OutCall i ∈ se_responses_order s <-> is_Some (bt_get i (se_responses_calls s));
  so_once : NoDup (se_responses_order s) }.

Lemma output_is_slots s : slots_ok s -> responses_output s = slot_item s <$> se_responses_order s.
Proof.
  intros [Ht Hc _]. unfold responses_output.
  assert (Hsub : forall x, x ∈ se_responses_order s -> x ∈ se_responses_order s) by done. revert Hsub.
  generalize (se_responses_order s) at 1 3 4 as l. induction l as [|x l IH]; intros Hsub; [done|].
  rewrite fmap_cons. cbn. rewrite IH by (intros y Hy; apply Hsub; by right).
  assert (Hx : x ∈ se_responses_order s) by (apply Hsub; left). destruct x as [|i].
  - rewrite bool_decide_eq_false_2 by (by apply Ht). done.
  - apply Hc in Hx as [c Hg]. rewrite Hg. cbn. unfold slot_item. by rewrite Hg.
Qed.

Lemma position_spec item order : match StreamEncoder.position item order with
  | Some p => exists n, p = Z.of_nat n /\ order !! n = Some item
  | None => item ∉ order
  end.
Proof.
  induction order as [|x order IH]; cbn; [set_solver|]. case_bool_decide as Hx; [exists O; by subst|].
  destruct (StreamEncoder.position item order) as [p|]; cbn.
  - destruct IH as (n & -> & Hn). exists (S n). split; [lia|done].
  - set_solver.
Qed.

(** The parts of the call of an index. *)
Fixpoint find_call (i : Z) (cs : list Call) : option CallParts :=
  match cs with [] => None | c :: cs => if cl_index c =? i then Some (cl_parts c) else find_call i cs end.
Definition final_item (a : Assembly) (item : ResponsesOutputItem) : Json :=
  match item with
  | OutText => text_item (am_text a)
  | OutCall i => function_call_item (default ("", "", "") (find_call i (am_calls a))) "completed"
  end.

(** The encoder has what the events said. *)
Record holds_all (s : StreamEventEncoder) (a : Assembly) : Prop := {
  ha_dialect : se_dialect s = ResponsesDialect;
  ha_slots : slots_ok s;
  ha_text : se_responses_text s = am_text a;
  ha_calls : forall i, bt_get i (se_responses_calls s) = find_call i (am_calls a);
  ha_count : length (se_responses_order s) = ((if bool_decide (am_text a = "") then 0 else 1) + length (am_calls a))%nat;
  ha_nodup : NoDup (cl_index <$> am_calls a) }.

Lemma find_call_app i cs c : find_call i (cs ++ [c]) =
  match find_call i cs with Some p => Some p | None => if cl_index c =? i then Some (cl_parts c) else None end.
Proof. induction cs as [|x cs IH]; cbn; [done|]. by destruct (cl_index x =? i). Qed.
Lemma find_call_in i cs : is_Some (find_call i cs) <-> i ∈ cl_index <$> cs.
Proof.
  induction cs as [|x cs IH]; cbn; [split; [by intros []|set_solver]|]. destruct (cl_index x =? i) eqn:E.
  - apply Z.eqb_eq in E. split; [set_solver|done].
  - rewrite IH. apply Z.eqb_neq in E. set_solver.
Qed.
Lemma find_call_args i j t cs : NoDup (cl_index <$> cs) -> existsb (is_open j) cs = true ->
  find_call i (add_args j t <$> cs)
  = if i =? j then (fun '(id, name, args) => (id, name, args +:+ t)) <$> find_call i cs else find_call i cs.
Proof.
  induction cs as [|c cs IH]; [done|]. rewrite !fmap_cons. intros [Hc Hn]%NoDup_cons Ho. cbn [find_call].
  assert (Hix : forall c, cl_index (add_args j t c) = cl_index c).
  { intros c0. unfold add_args. destruct (is_open j c0); [|done]. by destruct (cl_parts c0) as [[] ]. }
  rewrite Hix. cbn [existsb] in Ho. destruct (is_open j c) eqn:Ej.
  - unfold add_args at 1. rewrite Ej. unfold is_open in Ej. apply andb_true_iff in Ej as [Ej _]. apply Z.eqb_eq in Ej.
    assert (Hrest : add_args j t <$> cs = cs).
    { rewrite <- (list_fmap_id cs) at 2. apply list_fmap_ext. intros k x Hx%list_elem_of_lookup_2. unfold add_args, is_open.
      destruct (cl_index x =? j) eqn:Ex; [|done]. apply Z.eqb_eq in Ex. exfalso. apply Hc. rewrite Ej, <- Ex.
      by apply list_elem_of_fmap_2. }
    rewrite Hrest, Ej, Z.eqb_sym. destruct (i =? j) eqn:Eij; [|done]. by destruct (cl_parts c) as [[] ].
  - cbn in Ho. destruct (cl_index c =? i) eqn:Ei; [|by apply IH]. unfold add_args. rewrite Ej.
    destruct (i =? j) eqn:Eij; [|done]. apply Z.eqb_eq in Ei, Eij. exfalso.
    apply existsb_exists in Ho as (x & Hx%list_elem_of_In & Hxo). unfold is_open in Hxo.
    apply andb_true_iff in Hxo as [Hxi%Z.eqb_eq _]. apply Hc. rewrite Ei, Eij, <- Hxi. by apply list_elem_of_fmap_2.
Qed.
Lemma find_call_same i (g : Call -> Call) cs :
  (forall c, cl_index (g c) = cl_index c /\ cl_parts (g c) = cl_parts c) -> find_call i (g <$> cs) = find_call i cs.
Proof. intros Hg. induction cs as [|c cs IH]; [done|]. rewrite fmap_cons. cbn [find_call]. destruct (Hg c) as [-> ->]. by rewrite IH. Qed.
Lemma index_fmap (g : Call -> Call) (cs : list Call) : (forall c, cl_index (g c) = cl_index c) -> cl_index <$> (g <$> cs) = cl_index <$> cs.
Proof. intros Hg. rewrite <- list_fmap_compose. apply list_fmap_ext. intros k c _. apply Hg. Qed.

Definition starts_new (s : StreamEventEncoder) (e : ChatStreamEventV1) : Prop :=
  match e with EvToolCallStart i _ _ => bt_get i (se_responses_calls s) = None | _ => True end.

(** Opening a slot: the index is the place of the slot, and slots keep theirs. *)
Lemma responses_open_spec item s : NoDup (se_responses_order s) ->
  let '(p, s') := responses_open item s in
  (exists n, p = Z.of_nat n /\ se_responses_order s' !! n = Some item)
  /\ se_responses_order s `prefix_of` se_responses_order s' /\ NoDup (se_responses_order s')
  /\ se_responses_text s' = se_responses_text s /\ se_responses_calls s' = se_responses_calls s /\ se_dialect s' = se_dialect s
  /\ (forall x, x ∈ se_responses_order s' <-> x = item \/ x ∈ se_responses_order s)
  /\ length (se_responses_order s') = (length (se_responses_order s) + if bool_decide (item ∈ se_responses_order s) then 0 else 1)%nat.
Proof.
  intros Hn. unfold responses_open. pose proof (position_spec item (se_responses_order s)) as Hp.
  destruct (StreamEncoder.position item (se_responses_order s)) as [p|].
  - destruct Hp as (n & -> & Hin). assert (item ∈ se_responses_order s) by (by eapply list_elem_of_lookup_2).
    rewrite bool_decide_eq_true_2 by done. split_and!; try done; try lia; [by exists n|]. intros x. naive_solver.
  - cbn. rewrite bool_decide_eq_false_2 by done. split_and!; try done.
    + eexists. split; [done|]. by apply list_lookup_middle.
    + by eexists.
    + apply NoDup_app. split_and!; [done|set_solver|apply NoDup_singleton].
    + intros x. set_solver.
    + by rewrite length_app.
Qed.

Lemma text_slot s a t : holds_all s a -> t <> "" ->
  let '(p, s') := responses_open OutText s in
  let s2 := set_responses (se_responses_text s' +:+ t) (se_responses_calls s') (se_responses_order s') s' in
  holds_all s2 (MkAssembly true (am_text a +:+ t) (am_thinking a) (am_calls a) false)
  /\ se_responses_order s `prefix_of` se_responses_order s2
  /\ exists n, p = Z.of_nat n /\ se_responses_order s2 !! n = Some OutText.
Proof.
  intros [Hd [Hst Hsc Hso] Ht Hc Hcount Hnd] Hne. pose proof (responses_open_spec OutText s Hso) as Hopen.
  destruct (responses_open OutText s) as [p s']. destruct Hopen as (Hp & Hpre & Hn & Ht' & Hc' & Hd' & Hmem & Hlen).
  cbn. split_and!; try done.
  assert (Happ : am_text a +:+ t <> "").
  { intros He. apply Hne. destruct (am_text a); [done|]. discriminate He. }
  split; cbn; try done.
  - by rewrite Hd'.
  - split; cbn; [|intros i|done].
    + rewrite Ht', Ht, Hmem. naive_solver.
    + rewrite Hc', Hmem, <- Hsc. naive_solver.
  - by rewrite Ht', Ht.
  - by rewrite Hc'.
  - rewrite Hlen, Hcount. rewrite (bool_decide_eq_false_2 (am_text a +:+ t = "")) by done.
    rewrite Ht in Hst. repeat case_bool_decide; try lia; naive_solver.
Qed.

Lemma set_calls_slots s calls : slots_ok s ->
  (forall i, is_Some (bt_get i calls) <-> is_Some (bt_get i (se_responses_calls s))) ->
  slots_ok (set_responses (se_responses_text s) calls (se_responses_order s) s).
Proof. intros [H1 H2 H3] Hc. split; cbn; [done| |done]. intros i. by rewrite Hc. Qed.


(** The frames of an event point at the slot of the event. *)
Definition points (e : ChatStreamEventV1) (fs : Frames) (order : list ResponsesOutputItem) : Prop :=
  forall x, slot_of e = Some x -> exists f n,
    fs = [f] /\ jget f.2 "output_index" = Some (JNumber (Z.of_nat n)) /\ order !! n = Some x.

Lemma call_position s i : slots_ok s -> is_Some (bt_get i (se_responses_calls s)) ->
  exists n, responses_index_of_call i s = Z.of_nat n /\ se_responses_order s !! n = Some (OutCall i).
Proof.
  intros [_ Hc _] Hi%Hc. unfold responses_index_of_call. pose proof (position_spec (OutCall i) (se_responses_order s)) as Hp.
  destruct (StreamEncoder.position _ _) as [p|]; [|done]. destruct Hp as (n & -> & Hn). by exists n.
Qed.

Lemma open_has_call a i : existsb (is_open i) (am_calls a) = true -> is_Some (find_call i (am_calls a)).
Proof.
  intros (c & Hc%list_elem_of_In & Ho)%existsb_exists. apply find_call_in. unfold is_open in Ho.
  apply andb_true_iff in Ho as [<-%Z.eqb_eq _]. by apply list_elem_of_fmap_2.
Qed.

Lemma args_event s a i t : holds_all s a -> existsb (is_open i) (am_calls a) = true ->
  let r := encode_responses (EvToolCallArgumentsDelta i t) None s in
  holds_all r.2 (MkAssembly true (am_text a) (am_thinking a) (add_args i t <$> am_calls a) false)
  /\ se_responses_order r.2 = se_responses_order s
  /\ points (EvToolCallArgumentsDelta i t) r.1 (se_responses_order s).
Proof.
  intros [Hd Hs Ht Hc Hcount Hnd] Ho. destruct (open_has_call a i Ho) as [[[id name] args] Hf]. cbn.
  assert (Hg : bt_get i (se_responses_calls s) = Some (id, name, args)) by (by rewrite Hc). rewrite Hg.
  set (calls := bt_insert i (id, name, args +:+ t) (se_responses_calls s)).
  assert (Hsl : slots_ok (set_responses (se_responses_text s) calls (se_responses_order s) s)).
  { apply set_calls_slots; [done|]. intros j. unfold calls. rewrite bt_get_insert. destruct (j =? i) eqn:E; [|done].
    apply Z.eqb_eq in E as ->. by rewrite Hg. }
  split_and!; [|done|].
  - split; cbn; try done.
    + intros j. unfold calls. rewrite bt_get_insert, find_call_args by done. destruct (j =? i) eqn:E; [|done].
      apply Z.eqb_eq in E as ->. by rewrite Hf.
    + by rewrite length_fmap.
    + rewrite index_fmap; [done|]. intros c. unfold add_args. destruct (is_open i c); [|done]. by destruct (cl_parts c) as [[] ].
  - intros x [= <-]. destruct (call_position _ i Hsl) as (n & Hn & Hin).
    { cbn. unfold calls. rewrite bt_get_insert, Z.eqb_refl. done. }
    eexists _, n. split; [done|]. split; [|done]. by rewrite <- Hn.
Qed.

Lemma call_start_event s a i id name : holds_all s a -> bt_get i (se_responses_calls s) = None ->
  let r := encode_responses (EvToolCallStart i id name) None s in
  holds_all r.2 (MkAssembly true (am_text a) (am_thinking a) (am_calls a ++ [MkCallOf i (id, name, "") true]) false)
  /\ se_responses_order s `prefix_of` se_responses_order r.2
  /\ points (EvToolCallStart i id name) r.1 (se_responses_order r.2).
Proof.
  intros [Hd [Hst Hsc Hso] Ht Hc Hcount Hnd] Hi. cbn. pose proof (responses_open_spec (OutCall i) s Hso) as Hopen.
  destruct (responses_open (OutCall i) s) as [p s']. destruct Hopen as (Hp & Hpre & Hn & Ht' & Hc' & Hd' & Hmem & Hlen).
  cbn. split_and!; try done.
  - split; cbn; try done.
    + by rewrite Hd'.
    + split; cbn; [|intros j|done].
      * rewrite Ht', Hmem, Hst. naive_solver.
      * rewrite Hmem, Hc', bt_get_insert. destruct (j =? i) eqn:E.
        { apply Z.eqb_eq in E as ->. naive_solver. }
        rewrite <- Hsc. apply Z.eqb_neq in E. naive_solver.
    + by rewrite Ht'.
    + intros j. rewrite Hc', bt_get_insert, find_call_app, <- Hc. cbn. destruct (j =? i) eqn:E.
      * apply Z.eqb_eq in E as ->. by rewrite Hi, Z.eqb_refl.
      * rewrite Z.eqb_sym, E. by destruct (bt_get j _).
    + rewrite Hlen, Hcount, length_app. cbn [length am_text am_calls].
      rewrite (bool_decide_eq_false_2 (OutCall i ∈ _)); [lia|]. rewrite Hsc, Hi. by intros [].
    + rewrite fmap_app. apply NoDup_app. split_and!; [done| |apply NoDup_singleton]. cbn.
      intros x Hx Hxi. apply list_elem_of_singleton in Hxi as ->. apply find_call_in in Hx. rewrite <- Hc, Hi in Hx. by destruct Hx.
  - intros x [= <-]. destruct Hp as (n & -> & Hin). by eexists _, n.
Qed.

Lemma end_event s a i : holds_all s a -> existsb (is_open i) (am_calls a) = true ->
  let r := encode_responses (EvToolCallEnd i) None s in
  holds_all r.2 (MkAssembly true (am_text a) (am_thinking a) (end_open i <$> am_calls a) false)
  /\ r.2 = s /\ points (EvToolCallEnd i) r.1 (se_responses_order s).
Proof.
  intros [Hd Hs Ht Hc Hcount Hnd] Ho. destruct (open_has_call a i Ho) as [call Hf]. cbn.
  assert (Hg : bt_get i (se_responses_calls s) = Some call) by (by rewrite Hc). rewrite Hg. cbn.
  assert (Hsame : forall c, cl_index (end_open i c) = cl_index c /\ cl_parts (end_open i c) = cl_parts c)
    by (intros c; unfold end_open; by destruct (is_open i c)).
  split_and!; [|done|].
  - split; cbn; try done.
    + intros j. by rewrite find_call_same.
    + by rewrite length_fmap.
    + rewrite index_fmap; [done|]. intros c. apply Hsame.
  - intros x [= <-]. destruct (call_position s i Hs) as (n & Hn & Hin); [by rewrite Hg|].
    eexists _, n. split; [done|]. split; [|done]. by rewrite <- Hn.
Qed.

Lemma responses_event s a e a' lu : holds_all s a -> assemble a e = Some a' -> am_over a' = false ->
  says_something e = true -> starts_new s e ->
  let '(fs, _, s') := stream_turn e lu s in
  holds_all s' a' /\ se_responses_order s `prefix_of` se_responses_order s' /\ points e fs (se_responses_order s').
Proof.
  intros Hs Ha Ho Hsay Hnew. pose proof (ha_dialect _ _ Hs) as Hd. unfold assemble in Ha.
  destruct (am_over a) eqn:Hov; [done|].
  assert (Hnone : forall e fs, slot_of e = None -> points e fs (se_responses_order s)) by (intros ? ? Hx ? ?; congruence).
  assert (Hsame : holds_all s (MkAssembly true (am_text a) (am_thinking a) (am_calls a) false)) by (by destruct Hs; split).
  unfold StreamEncoder.stream_turn, encode. rewrite Hd.
  destruct e as [id model|t|t|t|i id name|i t|i|u|r|er]; cbn [says_something] in Hsay.
  - destruct (am_begun a); [done|]. injection Ha as <-. cbn. split_and!; [done..|by apply Hnone].
  - destruct (am_begun a); [|done]. injection Ha as <-. apply negb_true_iff, bool_decide_eq_false in Hsay.
    pose proof (text_slot s a t Hs Hsay) as H. cbn. destruct (responses_open OutText s) as [p s']. destruct H as (H1 & H2 & n & -> & H3).
    split_and!; [done..|]. intros x [= <-]. by eexists _, n.
  - destruct (am_begun a); [|done]. injection Ha as <-. cbn. split_and!; [by destruct Hs; split|done|by apply Hnone].
  - destruct (am_begun a); [|done]. injection Ha as <-. apply negb_true_iff, bool_decide_eq_false in Hsay.
    pose proof (text_slot s a t Hs Hsay) as H. cbn. destruct (responses_open OutText s) as [p s']. destruct H as (H1 & H2 & n & -> & H3).
    split_and!; [done..|]. intros x [= <-]. by eexists _, n.
  - destruct (am_begun a); [|done]. cbn [negb] in Ha. destruct (existsb _ _); [done|]. injection Ha as <-.
    pose proof (call_start_event s a i id name Hs Hnew) as H.
    change (encode_responses (EvToolCallStart i id name) lu s) with (encode_responses (EvToolCallStart i id name) None s).
    by destruct (encode_responses _ None s).
  - destruct (am_begun a); [|done]. cbn [negb] in Ha. destruct (existsb _ _) eqn:Hop; [|done]. injection Ha as <-.
    pose proof (args_event s a i t Hs Hop) as H.
    change (encode_responses (EvToolCallArgumentsDelta i t) lu s) with (encode_responses (EvToolCallArgumentsDelta i t) None s).
    destruct (encode_responses _ None s). cbn in H. destruct H as (H1 & H2 & H3). rewrite H2. by split_and!.
  - destruct (am_begun a); [|done]. cbn [negb] in Ha. destruct (existsb _ _) eqn:Hop; [|done]. injection Ha as <-.
    pose proof (end_event s a i Hs Hop) as H.
    assert (Heq : encode_responses (EvToolCallEnd i) lu s = encode_responses (EvToolCallEnd i) None s) by done.
    rewrite Heq. destruct (encode_responses _ None s). cbn in H. destruct H as (H1 & -> & H3). by split_and!.
  - destruct (am_begun a); [|done]. injection Ha as <-. destruct (bool_decide _); cbn; split_and!; try done; by apply Hnone.
  - done.
  - by injection Ha as <-.
Qed.

Lemma assemble_all_snoc es e : forall a, assemble_all a (es ++ [e]) = assemble_all a es ≫= (fun a => assemble a e).
Proof.
  induction es as [|x es IH]; intros a; cbn; [by destruct (assemble a e)|]. destruct (assemble a x); cbn; [apply IH|done].
Qed.
Lemma assemble_live a e a' : assemble a e = Some a' -> am_over a = false.
Proof. unfold assemble. by destruct (am_over a). Qed.
Lemma started_snoc es e : started (es ++ [e]) = started es ++ started [e].
Proof. unfold started. apply omap_app. Qed.

Lemma assembled_indices es : forall a, assemble_all assembly_new es = Some a -> am_over a = false -> cl_index <$> am_calls a = started es.
Proof.
  induction es as [|e es IH] using rev_ind; intros a; [by intros [= <-]|].
  rewrite assemble_all_snoc, started_snoc. intros (a0 & H0 & He)%bind_Some Hov. pose proof (assemble_live _ _ _ He) as Hov0.
  rewrite <- (IH a0 H0 Hov0). unfold assemble in He. rewrite Hov0 in He.
  assert (Hargs : forall i t, cl_index <$> (add_args i t <$> am_calls a0) = cl_index <$> am_calls a0).
  { intros i t. apply index_fmap. intros c. unfold add_args. destruct (is_open i c); [|done]. by destruct (cl_parts c) as [[] ]. }
  assert (Hend : forall i, cl_index <$> (end_open i <$> am_calls a0) = cl_index <$> am_calls a0).
  { intros i. apply index_fmap. intros c. unfold end_open. by destruct (is_open i c). }
  destruct e; cbn [started omap list_omap]; destruct (am_begun a0); cbn [negb] in He; try done; repeat case_match; try done;
    injection He as <-; cbn [am_calls]; rewrite ?fmap_app, ?Hargs, ?Hend, ?app_nil_r; try done.
Qed.

Lemma after_snoc es e st : after (es ++ [e]) st = (fun st => let '(_, lu, s) := stream_turn e st.1 st.2 in (lu, s)) (after es st).
Proof. unfold after. by rewrite fold_left_app. Qed.

Definition new_stream : option UsageV2 * StreamEventEncoder := (None, encoder_new ResponsesDialect).

Lemma responses_prefix es : forall a, assemble_all assembly_new es = Some a -> am_over a = false ->
  forallb says_something es = true -> NoDup (started es) ->
  holds_all (after es new_stream).2 a
  /\ forall pre e post, es = pre ++ e :: post ->
     points e (frames_of e (after pre new_stream)) (se_responses_order (after es new_stream).2).
Proof.
  induction es as [|e es IH] using rev_ind; intros a Ha Hov Hsay Hnd.
  { injection Ha as <-. split; [|by intros []]. cbn. split; cbn; [done| |done|done|done|constructor].
    split; cbn; [set_solver|intros i; split; [set_solver|by intros []]|constructor]. }
  rewrite assemble_all_snoc in Ha. apply bind_Some in Ha as (a0 & H0 & He).
  rewrite forallb_app in Hsay. apply andb_true_iff in Hsay as [Hsay Hse]. cbn in Hse. rewrite andb_true_r in Hse.
  rewrite started_snoc in Hnd. apply NoDup_app in Hnd as (Hnd & Hdis & _).
  pose proof (assemble_live _ _ _ He) as Hov0. destruct (IH a0 H0 Hov0 Hsay Hnd) as [Hh Hpts].
  rewrite after_snoc. unfold frames_of in *. destruct (after es new_stream) as [lu s] eqn:Haf. cbn [fst snd] in *.
  assert (Hnew : starts_new s e).
  { destruct e; try done. cbn. rewrite (ha_calls _ _ Hh). apply eq_None_not_Some. rewrite find_call_in.
    rewrite (assembled_indices es a0 H0 Hov0). intros Hin. apply (Hdis _ Hin). cbn. by left. }
  pose proof (responses_event s a0 e a lu Hh He Hov Hse Hnew) as Hev.
  destruct (stream_turn e lu s) as [[fs lu'] s'] eqn:Ht. destruct Hev as (H1 & Hpre & Hp). cbn [snd]. split; [done|].
  intros pre x post Heq. destruct post as [|y post _] using rev_ind.
  - apply app_inj_tail in Heq as [<- <-]. rewrite Haf. cbn. by rewrite Ht.
  - rewrite app_comm_cons, app_assoc in Heq. apply app_inj_tail in Heq as [-> <-].
    intros item Hitem. destruct (Hpts pre x post eq_refl item Hitem) as (f & n & Hf & Hi & Hn).
    exists f, n. split_and!; try done. by eapply prefix_lookup_Some.
Qed.

(** A Responses client can rely on the output indices.  In every
    canonical stream whose text deltas say something and whose calls have
    indices of their own, each frame that carries an [output_index] points at
    the place its item has in the output of the terminal frame, and that
    output is complete: the message with all the text, and each call with its
    id, its name and all its arguments. *)
Theorem responses_output_is_coherent es a reason :
  assemble_all assembly_new es = Some a -> am_over a = false ->
  forallb says_something es = true -> NoDup (started es) ->
  exists response out,
    frames_of (EvFinish reason) (after es new_stream) = [event_frame "response.completed" [("response", response)]]
    /\ jget response "output" = Some (JArray out)
    /\ length out = ((if bool_decide (am_text a = "") then 0 else 1) + length (am_calls a))%nat
    /\ forall pre e post item, es = pre ++ e :: post -> slot_of e = Some item ->
       exists f n, frames_of e (after pre new_stream) = [f]
         /\ jget f.2 "output_index" = Some (JNumber (Z.of_nat n)) /\ out !! n = Some (final_item a item).
Proof.
  intros Ha Hov Hsay Hnd. destruct (responses_prefix es a Ha Hov Hsay Hnd) as [Hh Hpts].
  unfold frames_of at 1. destruct (after es new_stream) as [lu s] eqn:Haf. cbn [fst snd] in *.
  unfold StreamEncoder.stream_turn, encode. rewrite (ha_dialect _ _ Hh). cbn [encode_responses fst].
  eexists _, (responses_output s). split; [done|]. split; [done|].
  rewrite (output_is_slots s (ha_slots _ _ Hh)), length_fmap. split; [apply (ha_count _ _ Hh)|].
  intros pre e post item Heq Hitem. destruct (Hpts pre e post Heq item Hitem) as (f & n & Hf & Hi & Hn).
  exists f, n. split_and!; try done. rewrite list_lookup_fmap, Hn. cbn. f_equal.
  destruct item; cbn; [by rewrite (ha_text _ _ Hh)|by rewrite (ha_calls _ _ Hh)].
Qed.
End Responses.

(** Text, then a call, then more text. *)
Definition demo_answer : list ChatStreamEventV1 :=
  [EvResponseStart (Some "r1") "m"; EvTextDelta "so: "; EvToolCallStart 3 "c1" "ls"; EvToolCallArgumentsDelta 3 "{}";
   EvTextDelta "wait"; EvToolCallEnd 3].

Lemma responses_output_is_coherent_witness :
  exists out, jget (default JNull (jget (default (None, JNull)
      (head (frames_of (fun _ => JNull) (fun _ => None) 0 (EvFinish FrStop)
         (after (fun _ => JNull) (fun _ => None) 0 demo_answer new_stream)))).2 "response")) "output" = Some (JArray out)
    /\ out = [text_item "so: wait"; function_call_item ("c1", "ls", "{}") "completed"].
Proof.
  destruct (responses_output_is_coherent (fun _ => JNull) (fun _ => None) 0 demo_answer
    (MkAssembly true "so: wait" "" [MkCallOf 3 ("c1", "ls", "{}") false] false) FrStop eq_refl eq_refl eq_refl)
    as (response & out & Hf & Ho & _ & _).
  { apply NoDup_singleton. }
  exists out. rewrite Hf. split; [exact Ho|]. vm_compute in Hf. injection Hf as <-. vm_compute in Ho. by injection Ho as <-.
Defined.

(** An empty first delta, which OpenAI-compatible upstreams send, opens a
    slot that the terminal frame leaves out: the call is announced at index
    one and ends up at index zero. *)
Lemma empty_text_shifts_the_output :
  let st := after (fun _ => JNull) (fun _ => None) 0 [EvResponseStart None "m"; EvTextDelta ""] new_stream in
  let start := EvToolCallStart 0 "c1" "ls" in
  (exists f, frames_of (fun _ => JNull) (fun _ => None) 0 start st = [f] /\ jget f.2 "output_index" = Some (JNumber 1))
  /\ responses_output (after (fun _ => JNull) (fun _ => None) 0 [start] st).2
     = [function_call_item ("c1", "ls", "") "completed"].
Proof. split; [eexists; by split|done]. Qed.
