(* ===== verification/OpenAiStream.v ===== *)
(** The stream decoder of OpenAI-compatible upstreams
    ([providers/typed.rs]): bytes to lines to canonical events, and the
    round trip with the frames the encoder writes for OpenAI callers. *)

From S2P Require Import Prelude Text Usage Json UsageParse LineSplit StreamUsage Attempt Passthrough Accounting.
From S2P Require Import StreamEncoder AnthropicStream ResponsesStream.

(** [Value::pointer("/choices/0/<key>")]. *)
Definition first_choice (value : Json) (key : string) : option Json :=
  choices ← jget value "choices";
  first ← match choices with JArray (x :: _) => Some x | JObject l => assoc "0" l | _ => None end;
  jget first key.
Definition pointer2 (value : Json) (k1 k2 : string) : option Json := v ← jget value k1; jget v k2.

Definition decode_finish_reason (reason : string) : FinishReasonV1 :=
  if bool_decide (reason = "stop") then FrStop
  else if bool_decide (reason = "length") then FrLength
  else if bool_decide (reason = "tool_calls") then FrToolCalls
  else if bool_decide (reason = "content_filter") then FrContentFilter
  else if bool_decide (reason = "function_call") then FrFunctionCall
  else FrUnknown.

Definition u64_opt (value : Json) (key : string) : option Z := jget value key ≫= jas_u64.

Definition usage_v2_from_openai (body : Json) (parsed : ParsedUsage) (completeness : UsageCompleteness) : UsageV2 :=
  let usage := default JNull (jget body "usage") in
  let prompt_details := default JNull (jget usage "prompt_tokens_details") in
  let completion_details := default JNull (jget usage "completion_tokens_details") in
  let u := parsed_usage parsed in
  MkUsage (u_tokens_in u) (u_tokens_out u) (u_cache_creation u) (u_cache_read u) (u_cache_obs u)
    (u64_opt prompt_details "audio_tokens") (u64_opt completion_details "audio_tokens")
    (u64_opt completion_details "reasoning_tokens") (u_reasoning_included u)
    (u64_opt completion_details "accepted_prediction_tokens") (u64_opt completion_details "rejected_prediction_tokens")
    completeness (u_basis u) (u_attempts u) (u_outcome u) (u_upstream_request_id u) (u_duration_ms u)
    (u_duration_source u) (u_ttft_ms u) (u_ttft_source u).
Definition terminal_usage (attempts : Z) (u : UsageV2) : UsageV2 :=
  MkUsage (u_tokens_in u) (u_tokens_out u) (u_cache_creation u) (u_cache_read u) (u_cache_obs u)
    (u_audio_in u) (u_audio_out u) (u_reasoning u) (u_reasoning_included u) (u_accepted_prediction u)
    (u_rejected_prediction u) Final (u_basis u) attempts (Some "success"%string) (u_upstream_request_id u)
    (u_duration_ms u) (u_duration_source u) (u_ttft_ms u) (u_ttft_source u).

(** ** Values to events *)

Record OpenAiDecoder := MkDecoder { od_started : bool; od_open_tools : list (Z * unit); od_emitted_usage : bool }.
Definition decoder_new : OpenAiDecoder := MkDecoder false [] false.

Definition str_event (v : option Json) (f : string -> ChatStreamEventV1) : list ChatStreamEventV1 :=
  match v ≫= jas_str with Some t => [f t] | None => [] end.

Definition u32_of (n : Z) : Z := n mod 4294967296.

(** One entry of [tool_calls]. *)
Definition decode_call (call : Json) (open : list (Z * unit)) : list ChatStreamEventV1 * list (Z * unit) :=
  let index := u32_of (default 0 (jget call "index" ≫= jas_u64)) in
  let '(start, open) :=
    match bt_get index open with
    | Some _ => ([], open)
    | None =>
        match jget call "id" ≫= jas_str, pointer2 call "function" "name" ≫= jas_str with
        | Some id, Some name => ([EvToolCallStart index id name], bt_insert index tt open)
        | _, _ => ([], open)
        end
    end in
  (start ++ match pointer2 call "function" "arguments" ≫= jas_str with
            | Some arguments => if bool_decide (arguments = "") then [] else [EvToolCallArgumentsDelta index arguments]
            | None => []
            end, open).
Fixpoint decode_calls (calls : list Json) (open : list (Z * unit)) : list ChatStreamEventV1 * list (Z * unit) :=
  match calls with
  | [] => ([], open)
  | call :: calls =>
      let '(es, open) := decode_call call open in
      let '(es', open) := decode_calls calls open in (es ++ es', open)
  end.

Definition decode_delta (delta : Json) (open : list (Z * unit)) : list ChatStreamEventV1 * list (Z * unit) :=
  let reasoning := match jget delta "reasoning_content" with Some v => Some v | None => jget delta "reasoning" end in
  let '(calls, open) :=
    match jget delta "tool_calls" ≫= jas_array with Some calls => decode_calls calls open | None => ([], open) end in
  (str_event (jget delta "content") EvTextDelta ++ str_event reasoning EvReasoningDelta
   ++ str_event (jget delta "refusal") EvRefusalDelta ++ calls, open).

Definition decode_value (requested_model : string) (attempts : Z) (value : Json) (d : OpenAiDecoder)
    : list ChatStreamEventV1 * OpenAiDecoder :=
  let start :=
    if od_started d then []
    else [EvResponseStart (jget value "id" ≫= jas_str) (default requested_model (jget value "model" ≫= jas_str))] in
  let '(deltas, open) :=
    match first_choice value "delta" with Some delta => decode_delta delta (od_open_tools d) | None => ([], od_open_tools d) end in
  let has_usage := match jget value "usage" with Some u => negb (jis_null u) | None => false end in
  let usage :=
    if has_usage
    then [EvUsage (terminal_usage attempts
            (usage_v2_from_openai value (default ParsedUsage_default (parse_openai_usage value)) Final))]
    else [] in
  let '(finish, open) :=
    match first_choice value "finish_reason" ≫= jas_str with
    | Some reason => ((EvToolCallEnd <$> open.*1) ++ [EvFinish (decode_finish_reason reason)], [])
    | None => ([], open)
    end in
  (start ++ deltas ++ usage ++ finish, MkDecoder true open (od_emitted_usage d || has_usage)).

Fixpoint decode_values (requested_model : string) (attempts : Z) (values : list Json) (d : OpenAiDecoder)
    : list ChatStreamEventV1 * OpenAiDecoder :=
  match values with
  | [] => ([], d)
  | v :: values =>
      let '(es, d) := decode_value requested_model attempts v d in
      let '(es', d) := decode_values requested_model attempts values d in (es ++ es', d)
  end.

(** ** Bytes to events *)

Section Bytes.
Context (from_str : list Z -> option Json) (requested_model over_budget_detail : string).

(** One chunk: its lines, the bound on a pending line, its usage. *)
Definition decode_chunk (c : StreamChunk) (st : LineSplitter * OpenAiDecoder)
    : list ChatStreamEventV1 * option ProviderError * (LineSplitter * OpenAiDecoder) :=
  let '(lines, l) := drain (splitter_push st.1 (ck_data c)) in
  let '(es, d) := decode_values requested_model (ck_attempts c) (omap (sse_data_json from_str) lines) st.2 in
  if over_budget l then (es, Some (Transport over_budget_detail), (l, d))
  else match ck_usage c with
  | Some u =>
      if od_emitted_usage d then (es, None, (l, d))
      else (es ++ [EvUsage (terminal_usage (ck_attempts c) (parsed_usage u))], None,
            (l, MkDecoder (od_started d) (od_open_tools d) true))
  | None => (es, None, (l, d))
  end.
Definition tail_chunk : StreamChunk := MkChunk [] None None None 1 false.

(** The stream: an error ends it, its own or the upstream's; a line without
    its newline is flushed at the end. *)
Fixpoint decode_items (items : list (result ProviderError StreamChunk)) (st : LineSplitter * OpenAiDecoder)
    : list ChatStreamEventV1 * option ProviderError :=
  match items with
  | [] =>
      let '(pending, l) := flush_newline st.1 in
      if pending then let '(es, err, _) := decode_chunk tail_chunk (l, st.2) in (es, err) else ([], None)
  | Err e :: _ => ([], Some e)
  | Ok c :: items =>
      match decode_chunk c st with
      | (es, Some e, _) => (es, Some e)
      | (es, None, st) => let '(es', err) := decode_items items st in (es ++ es', err)
      end
  end.
Definition decode_openai_stream (items : list (result ProviderError StreamChunk)) : list ChatStreamEventV1 * option ProviderError :=
  decode_items items (splitter_new MAX_STREAM_LINE_BYTES, decoder_new).
End Bytes.

(** ** Round trip with the encoder *)

Definition reopen (c : Call) : Call := MkCallOf (cl_index c) (cl_parts c) true.
(** The frames do not say that a call ended before the answer does. *)
Definition reopened (a : Assembly) : Assembly :=
  if am_over a then a else MkAssembly (am_begun a) (am_text a) (am_thinking a) (reopen <$> am_calls a) false.
Definition is_u32 (i : Z) : Prop := 0 <= i < 4294967296.
Definition finishes (es : list ChatStreamEventV1) : list FinishReasonV1 :=
  omap (fun e => match e with EvFinish r => Some r | _ => None end) es.
Definition is_error (e : ChatStreamEventV1) : bool := match e with EvError _ => true | _ => false end.

Lemma assemble_all_app es es' a : assemble_all a (es ++ es') = assemble_all a es ≫= (fun a => assemble_all a es').
Proof. revert a. induction es as [|e es IH]; intros a; [done|]. cbn. destruct (assemble a e); [apply IH|done]. Qed.

Section RoundTrip.
Context (error_json : ProviderErrorV1 -> Json) (from_str : string -> option Json) (unix_now : Z).
Context (requested_model : string) (attempts : Z).
Notation stream_turn := (stream_turn error_json from_str unix_now).
Notation stream_frames := (stream_frames error_json from_str unix_now).
Notation decode_values := (decode_values requested_model attempts).

(** What the decoder hears of an event. *)
Definition heard (e : ChatStreamEventV1) (open : list (Z * unit)) : list ChatStreamEventV1 * list (Z * unit) :=
  match e with
  | EvToolCallStart i _ _ => ([e], bt_insert i tt open)
  | EvToolCallArgumentsDelta i t => (if bool_decide (t = "") then [] else [e], open)
  | EvToolCallEnd _ => ([], open)
  | EvFinish _ => ((EvToolCallEnd <$> open.*1) ++ [e], [])
  | _ => ([e], open)
  end.
Definition hearable (e : ChatStreamEventV1) (d : OpenAiDecoder) : Prop :=
  match e with
  | EvResponseStart _ _ => od_started d = false
  | EvToolCallStart i _ _ => od_started d = true /\ is_u32 i /\ bt_get i (od_open_tools d) = None
  | EvToolCallArgumentsDelta i _ => od_started d = true /\ is_u32 i /\ bt_get i (od_open_tools d) = Some tt
  | EvUsage _ | EvError _ => False
  | _ => od_started d = true
  end.

Lemma u32_as_u64 i : is_u32 i -> jas_u64 (JNumber i) = Some i.
Proof. unfold is_u32. intros Hi. cbn. rewrite (proj2 (Z.leb_le 0 i)), (proj2 (Z.leb_le i u64_max)) by (unfold u64_max in *; lia). done. Qed.
Lemma u32_of_small i : is_u32 i -> u32_of i = i.
Proof. intros Hi. by apply Z.mod_small. Qed.

(** The identity stamped on a chunk is not what the deltas are read from. *)
Lemma assoc_field_set k k' v l : k <> k' -> assoc k (field_set k' v l) = assoc k l.
Proof.
  intros Hne. induction l as [|[k0 v0] l IH]; cbn; [by rewrite bool_decide_eq_false_2|].
  case_bool_decide; cbn; [subst; by rewrite !bool_decide_eq_false_2 by done|]. by rewrite IH.
Qed.
Lemma stamped_get s fields k : k ∉ ["id"; "model"; "object"; "created"] ->
  jget (stamp_identity s (chunk unix_now fields)) k = jget (JObject fields) k.
Proof.
  rewrite !not_elem_of_cons. intros (Hid & Hmodel & Hobject & Hcreated & _).
  assert (Hkeep : forall l, jget (stamp_identity s (JObject l)) k = assoc k l).
  { intros l. unfold stamp_identity. destruct (jget (JObject l) "object"); [|done].
    destruct (se_openai_id s), (se_openai_model s); cbn [jset jget demo_json]; by rewrite ?assoc_field_set. }
  unfold chunk. rewrite Hkeep. cbn [assoc app].
  by rewrite (bool_decide_eq_false_2 _ Hobject), (bool_decide_eq_false_2 _ Hcreated).
Qed.
Lemma heard_chunk s fields d : od_started d = true -> jget (JObject fields) "usage" = None ->
  decode_value requested_model attempts (stamp_identity s (chunk unix_now fields)) d
  = decode_value requested_model attempts (JObject fields) d.
Proof.
  intros Hst Hu. unfold decode_value, first_choice. rewrite Hst.
  rewrite (stamped_get s fields "choices"), (stamped_get s fields "usage"), Hu by set_solver. done.
Qed.

Lemma index_is_heard i rest : is_u32 i -> u32_of (default 0 (jget (JObject (("index", JNumber i) :: rest)) "index" ≫= jas_u64)) = i.
Proof.
  intros Hi. change (u32_of (default 0 (jas_u64 (JNumber i))) = i). rewrite (u32_as_u64 _ Hi). by apply u32_of_small.
Qed.
Lemma call_is_heard call d : od_started d = true ->
  decode_value requested_model attempts (JObject [("choices", choice (JObject [("tool_calls", JArray [call])]) JNull)]) d
  = let '(es, open) := decode_call call (od_open_tools d) in (es ++ [], MkDecoder true open (od_emitted_usage d || false)).
Proof.
  intros Hst. unfold decode_value. rewrite Hst. set (v := JObject [("choices", _)]).
  replace (first_choice v "delta") with (Some (JObject [("tool_calls", JArray [call])])) by reflexivity.
  replace (jget v "usage") with (@None Json) by reflexivity.
  replace (first_choice v "finish_reason" ≫= jas_str) with (@None string) by reflexivity.
  unfold decode_delta. set (delta := JObject _).
  replace (jget delta "tool_calls" ≫= jas_array) with (Some [call]) by reflexivity.
  cbn [decode_calls]. destruct (decode_call call (od_open_tools d)) as [es open]. cbn. by rewrite !app_nil_r.
Qed.

Lemma event_is_heard e lu s d : se_dialect s = OpenAi -> hearable e d ->
  let '(fs, _, s') := stream_turn e lu s in
  se_dialect s' = OpenAi
  /\ exists used, decode_values fs.*2 d
     = ((heard e (od_open_tools d)).1, MkDecoder true (heard e (od_open_tools d)).2 used).
Proof.
  intros Hd Hh. unfold StreamEncoder.stream_turn, encode. rewrite Hd. destruct d as [st open used].
  destruct e as [id model|t|t|t|i id name|i t|i|u|r|er]; cbn in Hh; try done; (split; [done|]); exists (used || false);
    cbn [encode_openai encode_openai_stream_event fmap list_fmap fst snd OpenAiStream.decode_values];
    unfold openai_delta; rewrite ?heard_chunk by (done || tauto).
  - subst st. by destruct id.
  - by subst st.
  - by subst st.
  - by subst st.
  - destruct Hh as (-> & Hi & Hg). cbn in Hg. rewrite call_is_heard by done. unfold decode_call. rewrite (index_is_heard _ _ Hi).
    cbn [od_open_tools]. rewrite Hg. done.
  - destruct Hh as (-> & Hi & Hg). cbn in Hg. rewrite call_is_heard by done. unfold decode_call. rewrite (index_is_heard _ _ Hi).
    cbn [od_open_tools]. rewrite Hg. set (call := JObject _).
    replace (pointer2 call "function" "arguments" ≫= jas_str) with (Some t) by reflexivity.
    cbn [heard fst snd app]. by destruct (bool_decide (t = "")).
  - cbn. by rewrite Hh, orb_false_r.
  - subst st. set (v := JObject _).
    assert (Hv : decode_value requested_model attempts v (MkDecoder true open used)
                 = ((EvToolCallEnd <$> open.*1) ++ [EvFinish r], MkDecoder true [] (used || false))) by (by destruct r).
    rewrite Hv. by rewrite app_nil_r.
Qed.

Lemma usage_is_heard u lu s d : se_dialect s = OpenAi -> od_started d = true ->
  let '(fs, _, s') := stream_turn (EvUsage u) lu s in
  se_dialect s' = OpenAi
  /\ exists us used, decode_values fs.*2 d = (EvUsage <$> us, MkDecoder true (od_open_tools d) used).
Proof.
  intros Hd Hst. unfold StreamEncoder.stream_turn, encode. rewrite Hd. destruct d as [st open used]. cbn in Hst. subst st.
  destruct (bool_decide (u_completeness u = Final)); (split; [done|]); [|by exists [], used].
  cbn [encode_openai encode_openai_stream_event fmap list_fmap fst snd OpenAiStream.decode_values].
  unfold decode_value, first_choice. cbn [od_started].
  rewrite (stamped_get s _ "choices"), (stamped_get s _ "usage") by set_solver. cbn. by eexists [_], _.
Qed.

(** The decoder's open calls are the calls of the answer so far. *)
Record echoes (d : OpenAiDecoder) (a : Assembly) : Prop := {
  ec_started : od_started d = am_begun a;
  ec_open : forall i, bt_get i (od_open_tools d) = Some tt <-> i ∈ cl_index <$> am_calls a;
  ec_ordered : ordered (od_open_tools d);
  ec_nodup : NoDup (cl_index <$> am_calls a);
  ec_u32 : Forall is_u32 (cl_index <$> am_calls a) }.

Lemma existsb_open i cs : existsb (is_open i) (reopen <$> cs) = true <-> i ∈ cl_index <$> cs.
Proof.
  induction cs as [|c cs IH]; cbn; [set_solver|]. rewrite orb_true_iff. unfold is_open at 1. cbn. rewrite andb_true_r, Z.eqb_eq.
  rewrite IH. set_solver.
Qed.
Lemma open_index i cs : existsb (is_open i) cs = true -> i ∈ cl_index <$> cs.
Proof.
  intros (c & Hin%list_elem_of_In & Ho)%existsb_exists. unfold is_open in Ho. apply andb_true_iff in Ho as [<-%Z.eqb_eq _].
  by apply list_elem_of_fmap_2.
Qed.
Lemma open_call_unique i cs c : NoDup (cl_index <$> cs) -> existsb (is_open i) cs = true -> c ∈ cs ->
  is_open i (reopen c) = is_open i c.
Proof.
  intros Hn (x & Hx%list_elem_of_In & Ho)%existsb_exists Hc. unfold is_open in *. cbn. rewrite andb_true_r.
  apply andb_true_iff in Ho as [Hxi Hxo]. destruct (cl_index c =? i) eqn:E; [cbn|done].
  apply Z.eqb_eq in E, Hxi. apply list_elem_of_lookup in Hx as [n Hx], Hc as [m Hc].
  assert (n = m) as ->.
  { eapply (NoDup_lookup (cl_index <$> cs)); [done|rewrite list_lookup_fmap, Hx; done|]. rewrite list_lookup_fmap, Hc. cbn. congruence. }
  rewrite Hx in Hc. injection Hc as ->. by symmetry.
Qed.
Lemma reopen_args i t (cs : list Call) : NoDup (cl_index <$> cs) -> existsb (is_open i) cs = true ->
  add_args i t <$> (reopen <$> cs) = reopen <$> (add_args i t <$> cs).
Proof.
  intros Hn Ho. rewrite <- !list_fmap_compose. apply list_fmap_ext. intros k c Hc%list_elem_of_lookup_2. cbn.
  unfold add_args. rewrite (open_call_unique i cs c) by done. destruct (is_open i c); [|done]. cbn.
  by destruct (cl_parts c) as [[] ].
Qed.
Lemma reopen_end i (cs : list Call) : reopen <$> (end_open i <$> cs) = reopen <$> cs.
Proof.
  rewrite <- list_fmap_compose. apply list_fmap_ext. intros k c _. cbn. unfold end_open. by destruct (is_open i c).
Qed.
Lemma add_nothing i (cs : list Call) : add_args i "" <$> cs = cs.
Proof.
  rewrite <- (list_fmap_id cs) at 2. apply list_fmap_ext. intros k c _. unfold add_args. destruct (is_open i c); [|done].
  destruct c as [j [[id name] args] o]. cbn. by rewrite app_empty.
Qed.
Lemma add_args_index i t (cs : list Call) : cl_index <$> (add_args i t <$> cs) = cl_index <$> cs.
Proof. apply index_fmap. intros c. unfold add_args. destruct (is_open i c); [|done]. by destruct (cl_parts c) as [[] ]. Qed.
Lemma end_open_index i (cs : list Call) : cl_index <$> (end_open i <$> cs) = cl_index <$> cs.
Proof. apply index_fmap. intros c. unfold end_open. by destruct (is_open i c). Qed.

(** The calls the decoder still has open are ended before the answer. *)
Lemma ends_close js : forall a cs, am_begun a = true -> am_over a = false -> NoDup js -> am_calls a = cs ->
  (forall i, i ∈ js -> existsb (is_open i) cs = true) ->
  exists cs', end_call <$> cs' = end_call <$> cs
    /\ assemble_all a (EvToolCallEnd <$> js) = Some (MkAssembly true (am_text a) (am_thinking a) cs' false).
Proof.
  induction js as [|i js IH]; intros a cs Hb Ho Hn Hcs Hopen.
  { exists cs. split; [done|]. destruct a. cbn in *. by subst. }
  apply NoDup_cons in Hn as [Hi Hn]. rewrite fmap_cons. cbn [assemble_all]. unfold assemble at 1. rewrite Ho, Hb. cbn [negb].
  rewrite Hcs, (Hopen i) by left. cbn.
  edestruct (IH (MkAssembly true (am_text a) (am_thinking a) (end_open i <$> cs) false)) as (cs' & Hcs' & Hall); [done..| |].
  { intros j Hj. assert (i <> j) by set_solver. apply existsb_exists.
    destruct (proj1 (existsb_exists _ _) (Hopen j ltac:(by right))) as (c & Hc%list_elem_of_In & Hjo).
    exists c. split; [|done]. apply list_elem_of_In, list_elem_of_fmap. exists c. split; [|done].
    unfold end_open. destruct (is_open i c) eqn:Ei; [|done]. unfold is_open in *. exfalso.
    apply andb_true_iff in Ei as [Ei%Z.eqb_eq _], Hjo as [Hjo%Z.eqb_eq _]. congruence. }
  exists cs'. split; [|done]. rewrite Hcs'. cbn [am_calls]. rewrite <- list_fmap_compose. apply list_fmap_ext. intros k c _. cbn.
  unfold end_open. by destruct (is_open i c).
Qed.

Lemma bt_tt i (m : list (Z * unit)) : bt_get i m = Some tt <-> bt_get i m <> None.
Proof. destruct (bt_get i m) as [[]|]; naive_solver. Qed.
Lemma ordered_nodup {V} (m : list (Z * V)) : ordered m -> NoDup m.*1.
Proof.
  unfold ordered. induction 1 as [|x l Hs IH Hx]; constructor; [|done]. intros Hin. rewrite Forall_forall in Hx.
  specialize (Hx x Hin). lia.
Qed.

Definition is_usage (e : ChatStreamEventV1) : bool := match e with EvUsage _ => true | _ => false end.
Definition fresh_calls (e : ChatStreamEventV1) (a : Assembly) : Prop :=
  forall i, i ∈ started [e] -> is_u32 i /\ i ∉ cl_index <$> am_calls a.

Lemma echoed_is_hearable e d a a' : echoes d a -> assemble a e = Some a' -> is_error e = false -> is_usage e = false ->
  fresh_calls e a -> hearable e d.
Proof.
  intros [Hs Ho _ _ Hu] Ha He Hus Hf. unfold assemble in Ha. destruct (am_over a); [done|].
  destruct e as [id model|t|t|t|i id name|i t|i|u|r|er]; cbn; try done; rewrite Hs; destruct (am_begun a); try done.
  - destruct (Hf i) as [Hi Hn]; [by left|]. split_and!; try done. rewrite <- Ho, bt_tt in Hn.
    destruct (bt_get i (od_open_tools d)); [|done]. exfalso. by apply Hn.
  - cbn in Ha. destruct (existsb _ _) eqn:Hop; [|done]. apply open_index in Hop. split_and!; [done| |by apply Ho].
    rewrite Forall_forall in Hu. by apply Hu.
Qed.

Lemma heard_assembles e d a a' : echoes d a -> am_over a = false -> assemble a e = Some a' ->
  is_error e = false -> is_usage e = false -> fresh_calls e a ->
  let '(out, open) := heard e (od_open_tools d) in
  assemble_all (reopened a) out = Some (reopened a')
  /\ (am_over a' = false -> forall used, echoes (MkDecoder true open used) a').
Proof.
  intros [Hs Ho Hord Hn Hu] Hov Ha He Hus Hf. unfold assemble in Ha. rewrite Hov in Ha. unfold reopened at 1. rewrite Hov.
  destruct e as [id model|t|t|t|i id name|i t|i|u|r|er]; cbn [heard]; try done; destruct (am_begun a) eqn:Hb; try done;
    cbn [negb] in Ha.
  - injection Ha as <-. split; [done|]. intros _ used. by split.
  - injection Ha as <-. split; [done|]. intros _ used. by split.
  - injection Ha as <-. split; [done|]. intros _ used. by split.
  - injection Ha as <-. split; [done|]. intros _ used. by split.
  - destruct (existsb _ _) eqn:Hop; [done|]. injection Ha as <-. destruct (Hf i) as [Hi Hni]; [by left|]. split.
    + cbn [assemble_all]. unfold assemble. cbn [am_over am_begun negb am_calls].
      destruct (existsb (is_open i) (reopen <$> am_calls a)) eqn:Hex; [by apply existsb_open in Hex|]. cbn. by rewrite fmap_app.
    + intros _ used. split; cbn [od_started od_open_tools am_begun am_calls]; rewrite ?fmap_app; [done| | | |].
      * intros j. rewrite bt_get_insert. destruct (j =? i) eqn:E.
        { apply Z.eqb_eq in E as ->. split; [|done]. intros _. apply elem_of_app. right. by left. }
        rewrite Ho, elem_of_app. apply Z.eqb_neq in E. cbn. set_solver.
      * by apply bt_insert_ordered.
      * apply NoDup_app. split_and!; [done| |apply NoDup_singleton]. cbn. set_solver.
      * apply Forall_app. split; [done|]. by constructor.
  - destruct (existsb _ _) eqn:Hop; [|done]. injection Ha as <-. split.
    + unfold reopened. cbn [am_over am_begun am_text am_thinking am_calls]. rewrite <- reopen_args by done. case_bool_decide as Ht.
      * subst t. cbn [assemble_all]. by rewrite add_nothing.
      * cbn [assemble_all]. unfold assemble. cbn [am_over am_begun negb am_calls].
        by rewrite (proj2 (existsb_open i (am_calls a)) (open_index _ _ Hop)).
    + intros _ used. split; cbn [od_started od_open_tools am_begun am_calls]; rewrite ?add_args_index; done.
  - destruct (existsb _ _) eqn:Hop; [|done]. injection Ha as <-. split.
    + cbn. unfold reopened. cbn. by rewrite reopen_end.
    + intros _ used. split; cbn [od_started od_open_tools am_begun am_calls]; rewrite ?end_open_index; done.
  - injection Ha as <-. split; [|done]. rewrite assemble_all_app.
    edestruct (ends_close (od_open_tools d).*1 (MkAssembly true (am_text a) (am_thinking a) (reopen <$> am_calls a) false))
      as (cs & Hcs & ->); [done|done|by apply ordered_nodup|done| |].
    { intros j Hj. apply existsb_open, Ho, bt_tt. intros Hnone. cbn in *.
      apply list_elem_of_fmap in Hj as ([j' []] & -> & Hj%bt_in_get); [|done]. simpl in Hnone. congruence. }
    cbn in Hcs |- *. rewrite Hcs. unfold reopened. cbn. do 2 f_equal. rewrite <- list_fmap_compose. apply list_fmap_ext. by intros.
Qed.

Lemma heard_finishes e open : is_error e = false -> is_usage e = false -> finishes (heard e open).1 = finishes [e].
Proof.
  intros He Hu. destruct e; try done; cbn [heard fst]; [by destruct (bool_decide _)|].
  unfold finishes. rewrite omap_app.
  assert (Hnil : omap (fun e => match e with EvFinish r => Some r | _ => None end) (EvToolCallEnd <$> open.*1) = []).
  { induction open.*1; [done|]. by rewrite fmap_cons. }
  by rewrite Hnil.
Qed.

Lemma echo_event e lu s d a a' : se_dialect s = OpenAi -> echoes d a -> am_over a = false -> assemble a e = Some a' ->
  is_error e = false -> fresh_calls e a ->
  let '(fs, _, s') := stream_turn e lu s in
  let '(out, d') := decode_values fs.*2 d in
  se_dialect s' = OpenAi /\ finishes out = finishes [e]
  /\ assemble_all (reopened a) out = Some (reopened a') /\ (am_over a' = false -> echoes d' a').
Proof.
  intros Hd Hec Hov Ha He Hf. destruct (is_usage e) eqn:Hus.
  - destruct e as [| | | | | | |u| |]; try done. unfold assemble in Ha. rewrite Hov in Ha.
    destruct (am_begun a) eqn:Hb; [|done]. injection Ha as <-.
    pose proof (usage_is_heard u lu s d Hd) as H. rewrite (ec_started _ _ Hec) in H. specialize (H Hb).
    destruct (stream_turn _ lu s) as [[fs lu'] s']. destruct H as [Hd' (us & used & ->)]. split_and!; [done| | |].
    + by induction us.
    + unfold reopened. rewrite Hov, Hb. induction us as [|x us IH]; [done|]. rewrite fmap_cons. exact IH.
    + intros _. destruct Hec. by split.
  - pose proof (event_is_heard e lu s d Hd (echoed_is_hearable _ _ _ _ Hec Ha He Hus Hf)) as H.
    destruct (stream_turn e lu s) as [[fs lu'] s']. destruct H as [Hd' (used & ->)]. split; [done|].
    pose proof (heard_assembles e d a a' Hec Hov Ha He Hus Hf) as Hh. rewrite (surjective_pairing (heard e _)) in Hh.
    destruct Hh as [Hall Hnext]. split_and!; [by apply heard_finishes|done|by intros; apply Hnext].
Qed.

Lemma decode_values_app vs ws d : decode_values (vs ++ ws) d =
  let '(es, d) := decode_values vs d in let '(es', d) := decode_values ws d in (es ++ es', d).
Proof.
  revert d. induction vs as [|v vs IH]; intros d; cbn; [by destruct (decode_values ws d)|].
  destruct (decode_value _ _ v d) as [es d1]. rewrite IH. destruct (decode_values vs d1) as [es1 d2].
  destruct (decode_values ws d2). by rewrite app_assoc.
Qed.
Lemma finishes_app es es' : finishes (es ++ es') = finishes es ++ finishes es'.
Proof. apply omap_app. Qed.
Lemma assembled_step e a a' : am_over a = false -> am_over a' = false -> assemble a e = Some a' ->
  cl_index <$> am_calls a' = (cl_index <$> am_calls a) ++ started [e].
Proof.
  intros Hov Hov' Ha. unfold assemble in Ha. rewrite Hov in Ha.
  destruct e; destruct (am_begun a); cbn [negb] in Ha; try done; repeat case_match; try done; injection Ha as <-; try done;
    cbn [am_calls]; rewrite ?fmap_app, ?add_args_index, ?end_open_index; cbn; by rewrite ?app_nil_r.
Qed.

Lemma echo_stream es : forall lu s d a a', se_dialect s = OpenAi -> echoes d a -> am_over a = false ->
  assemble_all a es = Some a' -> existsb is_error es = false -> Forall is_u32 (started es) ->
  NoDup ((cl_index <$> am_calls a) ++ started es) ->
  let '(out, _) := decode_values (stream_frames es lu s).*2 d in
  assemble_all (reopened a) out = Some (reopened a') /\ finishes out = finishes es.
Proof.
  induction es as [|e es IH]; intros lu s d a a' Hd Hec Hov Ha Herr Hu Hn; cbn [StreamEncoder.stream_frames].
  { injection Ha as <-. done. }
  cbn [assemble_all] in Ha. apply bind_Some in Ha as (a1 & Ha1 & Ha). cbn [existsb] in Herr.
  apply orb_false_iff in Herr as [He Herr].
  assert (Hst : started (e :: es) = started [e] ++ started es) by (change (e :: es) with ([e] ++ es); apply omap_app). rewrite Hst in Hu, Hn.
  apply Forall_app in Hu as [Hue Hu].
  assert (Hf : fresh_calls e a).
  { intros i Hi. rewrite Forall_forall in Hue. split; [by apply Hue|]. intros Hin.
    apply NoDup_app in Hn as (_ & Hdis & _). apply (Hdis i Hin). apply elem_of_app. by left. }
  pose proof (echo_event e lu s d a a1 Hd Hec Hov Ha1 He Hf) as H.
  destruct (stream_turn e lu s) as [[fs lu1] s1]. rewrite fmap_app, decode_values_app.
  destruct (decode_values fs.*2 d) as [out1 d1]. destruct H as (Hd1 & Hfin & Hall & Hnext).
  change (e :: es) with ([e] ++ es). rewrite finishes_app.
  destruct (am_over a1) eqn:Hov1.
  - destruct (assemble_over _ _ _ Hov1 Ha) as [-> ->]. cbn [StreamEncoder.stream_frames fmap list_fmap OpenAiStream.decode_values].
    rewrite app_nil_r. split; [done|]. by rewrite Hfin, app_nil_r.
  - rewrite app_assoc, <- (assembled_step e a a1 Hov Hov1 Ha1) in Hn.
    specialize (IH lu1 s1 d1 a1 a' Hd1 (Hnext eq_refl) Hov1 Ha Herr Hu Hn).
    destruct (decode_values (stream_frames es lu1 s1).*2 d1) as [out2 d2]. destruct IH as [Hall2 Hfin2].
    rewrite assemble_all_app, Hall. cbn [mbind option_bind]. split; [done|]. by rewrite finishes_app, Hfin, Hfin2.
Qed.

Lemma echoes_new : echoes decoder_new assembly_new.
Proof. split; cbn; try done; try constructor; set_solver. Qed.

(** C33: What the proxy writes to an OpenAI caller, its own decoder of
    OpenAI-compatible upstreams reads back.  For every canonical answer that
    ends without an error and whose calls have 32-bit indices of their own,
    decoding the chunks the encoder writes gives a well-formed stream that
    says the same: the text, the reasoning, every call with its id, name and
    arguments, and the finish reason, although the chunks do not say when a
    call ends and repeat the identity of the answer.  Two proxies in a row
    lose nothing of an answer. *)
Theorem openai_stream_round_trips es a :
  assemble_all assembly_new es = Some a -> am_over a = true -> existsb is_error es = false ->
  Forall is_u32 (started es) -> NoDup (started es) ->
  exists out d, decode_values (stream_frames es None (encoder_new OpenAi)).*2 decoder_new = (out, d)
    /\ assemble_all assembly_new out = Some a /\ finishes out = finishes es.
Proof.
  intros Ha Hov Herr Hu Hn.
  pose proof (echo_stream es None (encoder_new OpenAi) decoder_new assembly_new a eq_refl echoes_new eq_refl Ha Herr Hu Hn) as H.
  destruct (decode_values _ decoder_new) as [out d]. exists out, d. split; [done|]. destruct H as [Hall Hfin]. split; [|done].
  change assembly_new with (reopened assembly_new). rewrite Hall. unfold reopened. by rewrite Hov.
Qed.
End RoundTrip.

Lemma openai_stream_round_trips_witness :
  exists out d, decode_values "m" 1 (stream_frames (fun _ => JNull) (fun _ => None) 0 demo_events None (encoder_new OpenAi)).*2 decoder_new
      = (out, d)
    /\ finishes out = [FrToolCalls]
    /\ last out = Some (EvFinish FrToolCalls) /\ EvToolCallEnd 3 ∈ out.
Proof.
  destruct (openai_stream_round_trips (fun _ => JNull) (fun _ => None) 0 "m" 1 demo_events
    (MkAssembly true "so: wait" "hm" [MkCallOf 3 ("c1", "ls", "{a}") false] true) eq_refl eq_refl eq_refl)
    as (out & d & Ho & _ & Hf).
  { repeat constructor; vm_compute; congruence. }
  { apply NoDup_singleton. }
  exists out, d. split; [exact Ho|]. split; [exact Hf|]. vm_compute in Ho. injection Ho as <- _. split; [reflexivity|].
  set_solver.
Defined.

(** Upstreams send the usage in a chunk of its own after the finish reason.
    The decoder then reports it after the end of the answer, where the
    terminal frames of the other dialects have been written. *)
Definition late_usage_values : list Json :=
  [JObject [("choices", choice (JObject [("content", JStr "hi")]) JNull)];
   JObject [("choices", choice (JObject []) (JStr "stop"))];
   JObject [("choices", JArray []); ("usage", JObject [("prompt_tokens", JNumber 7); ("completion_tokens", JNumber 2)])]].

Lemma late_usage_misses_the_terminal_frame :
  let events := (decode_values "m" 1 late_usage_values decoder_new).1 in
  let frames d := stream_frames (fun _ => JNull) (fun _ => None) 0 events None (encoder_new d) in
  (exists u, events = [EvResponseStart None "m"; EvTextDelta "hi"; EvFinish FrStop; EvUsage u] /\ u_tokens_in u = 7)
  /\ (fun f => response ← jget f.2 "response"; usage ← jget response "usage"; jget usage "input_tokens") <$> last (frames ResponsesDialect)
     = Some (Some (JNumber 0))
  /\ (fun f => jget f.2 "usageMetadata") <$> last (frames GeminiDialect) = Some None
  /\ (fun f : option string * Json => f.1) <$> frames Anthropic
     = [Some "message_start"; Some "ping"; Some "content_block_start"; Some "content_block_delta"; Some "content_block_stop";
        Some "message_delta"; Some "message_stop"; Some "message_delta"].
Proof. split_and!; [eexists; split; vm_compute; reflexivity|vm_compute; reflexivity..]. Qed.
