(* ===== verification/Headers.v ===== *)
(** Request headers as the proxy reads them: the credential of a dialect
    ([proxy/codec.rs]), and the strict single-valued headers and cookies of
    [proxy/auth.rs].

    A header is its lower-case name and its value, [None] when the value is
    not visible ASCII. *)

From S2P Require Import Prelude Text.

Notation HeaderMap := (list (string * option string)).

(** [HeaderMap::get_all] and [HeaderMap::get]. *)
Definition get_all (h : HeaderMap) (name : string) : list (option string) :=
  snd <$> List.filter (fun e => bool_decide (e.1 = name)) h.
Definition header_get (h : HeaderMap) (name : string) : option (option string) := head (get_all h name).
(** [.get(name).and_then(|v| v.to_str().ok())]. *)
Definition header_text (h : HeaderMap) (name : string) : option string := mjoin (header_get h name).

Definition str_strip_prefix (p s : string) : option string := string_of <$> strip_prefix (bytes p) (bytes s).
Definition str_trim (s : string) : string := string_of (trim (bytes s)).

(** ** Credentials *)

Inductive CredentialScheme := AuthorizationBearer | RawHeader (name : string).

Definition extract (scheme : CredentialScheme) (h : HeaderMap) : option string :=
  raw ← match scheme with
        | AuthorizationBearer => header_text h "authorization" ≫= str_strip_prefix "Bearer "
        | RawHeader name => header_text h name
        end;
  let token := str_trim raw in
  if bool_decide (token = "") then None else Some token.
Definition find_scheme (schemes : list CredentialScheme) (h : HeaderMap) : option string :=
  head (omap (fun s => extract s h) schemes).

(** ** Strict headers *)

(** Several values, or one that is not text, are refused. *)
Definition unique_header (h : HeaderMap) (name : string) : result unit (option string) :=
  match get_all h name with
  | [] => Ok None
  | [Some v] => Ok (Some v)
  | _ => Err tt
  end.

(** [split_once('=')]. *)
Fixpoint split_eq (s : list Z) : option (list Z * list Z) :=
  match s with
  | [] => None
  | c :: s => if c =? 61 then Some ([], s) else (fun '(k, v) => (c :: k, v)) <$> split_eq s
  end.
(** One pair of a cookie header. *)
Definition cookie_pair (name : string) (found : option string) (pair : list Z) : result unit (option string) :=
  match split_eq (trim pair) with
  | Some (key, value) =>
      if bool_decide (string_of key = name) then
        if bool_decide (is_Some found) || bool_decide (value = []) || (128 <? Z.of_nat (length value)) then Err tt
        else Ok (Some (string_of value))
      else Ok found
  | None => Ok found
  end.
Fixpoint cookie_pairs (name : string) (found : option string) (pairs : list (list Z)) : result unit (option string) :=
  match pairs with [] => Ok found | p :: pairs => found ← cookie_pair name found p; cookie_pairs name found pairs end.
Fixpoint cookie_in (name : string) (found : option string) (headers : list (option string)) : result unit (option string) :=
  match headers with
  | [] => Ok found
  | Some h :: headers =>
      found ← cookie_pairs name found (split_on (fun c => c =? 59) (bytes h)); cookie_in name found headers
  | None :: _ => Err tt
  end.
Definition cookie (h : HeaderMap) (name : string) : result unit (option string) := cookie_in name None (get_all h "cookie").
(** [header_str]. *)
Definition header_str (h : HeaderMap) (name : string) : option string :=
  v ← header_text h name; let value := str_trim v in if bool_decide (value = "") then None else Some value.
