(* ===== verification/Keys.v ===== *)
(** Virtual keys ([core/keys.rs], [store/vkeys.rs], the key handlers of
    [proxy/operator.rs] and the resolution of [proxy/lib.rs]): what a caller
    may present, how a key is minted, resolved, revoked, and what survives a
    restart.

    SHA-256, the comparison of secrets and the reader of timestamps
    are arguments; randomness and the clock are part of an event. *)

From stdpp Require Import sorting.
From S2P Require Import Prelude Text Headers Sql Attempt Policy.

(** ** Keys *)

Record VirtualKey := MkKey {
  vk_id : string; vk_subject_id : option string; vk_group_id : option string; vk_upstream_ref : string;
  vk_models : option (list string); vk_budget_scope : option string; vk_expires_at : option string;
  vk_rate_limit_per_min : option Z }.

Section Expiry.
Context (parse_rfc3339 : string -> option Z).
Definition is_expired (now : string) (k : VirtualKey) : bool :=
  match vk_expires_at k with
  | None => false
  | Some exp =>
      match parse_rfc3339 exp, parse_rfc3339 now with
      | Some e, Some n => e <=? n
      | _, _ => String.leb exp now
      end
  end.
End Expiry.

Definition same_name (a b : string) : bool := eq_ignore_ascii_case (bytes a) (bytes b).
Definition permits_model (model : string) (k : VirtualKey) : bool :=
  match vk_models k with
  | None | Some [] => true
  | Some allowed => existsb (fun m => same_name m model) allowed
  end.
Definition echoes_binding (bound presented : option string) : bool :=
  match presented with None => true | Some p => bool_decide (bound = Some p) end.
Definition permits_attribution (subject group : option string) (k : VirtualKey) : bool :=
  echoes_binding (vk_subject_id k) subject && echoes_binding (vk_group_id k) group.

Definition budget_scope (k : VirtualKey) : string :=
  match vk_budget_scope k with
  | Some scope => scope
  | None => match vk_group_id k with Some g => "group:" +:+ g | None => "vk:" +:+ vk_id k end
  end.

(** [permitted_models], on the models of the catalog. *)
Definition permitted_models (catalog : list string) (k : VirtualKey) : list string :=
  match vk_models k with
  | None | Some [] => catalog
  | Some allowed =>
      foldl (fun out a => if existsb (fun id => same_name id a) out then out else out ++ [a])
        (List.filter (fun id => existsb (fun a => same_name a id) allowed) catalog) allowed
  end.

(** *** The live store *)

Notation KeyStore := (gmap string VirtualKey).
Definition ks_insert (k : VirtualKey) (s : KeyStore) : KeyStore := <[vk_id k := k]> s.
Definition ks_insert_keyed (lookup_key : string) (k : VirtualKey) (s : KeyStore) : KeyStore := <[lookup_key := k]> s.
Definition ks_resolve (lookup_key : string) (s : KeyStore) : option VirtualKey := s !! lookup_key.
Definition ks_revoke (lookup_key : string) (s : KeyStore) : bool * KeyStore :=
  (bool_decide (is_Some (s !! lookup_key)), delete lookup_key s).

(** ** The durable store *)

Record VirtualKeyRecord := MkRecord {
  vr_id : string; vr_subject_id : option string; vr_group_id : option string; vr_upstream_ref : string;
  vr_models : option string; vr_budget_scope : option string; vr_expires_at : option string;
  vr_rate_limit_per_min : option Z; vr_secret_hash : string; vr_created_at : string; vr_revoked_at : option string }.

(** [str::split(',')], with the pieces trimmed and the empty ones left out. *)
Definition split_models (s : string) : list string :=
  string_of <$> List.filter (fun m => negb (bool_decide (m = []))) (trim <$> split_on (fun c => c =? 44) (bytes s)).
Definition model_list (r : VirtualKeyRecord) : list string :=
  match vr_models r with
  | Some s => if bool_decide (trim (bytes s) = []) then [] else split_models s
  | None => []
  end.
Definition models_csv (models : list string) : option string :=
  match models with [] => None | _ => Some (String.concat "," models) end.

Record MintRequest := MkMint {
  mi_subject_id : option string; mi_group_id : option string; mi_upstream_ref : string; mi_models : list string;
  mi_budget_scope : option string; mi_expires_at : option string; mi_rate_limit_per_min : option Z }.

Record VirtualKeyStore := MkVkeys {
  vs_rows : gmap string VirtualKeyRecord; vs_delegations : gmap string string }.

(** What the randomness, the clock and the file do during one mint. *)
Record MintRun := MkMintRun {
  mr_secret : list Z; mr_id : list Z; mr_now : string;
  mr_begin_ok : bool; mr_insert_ok : bool; mr_delegation_ok : bool; mr_commit : fault }.

Section Keys.
Context (sha256 : list Z -> list Z).

Definition hash_secret (secret : string) : string := hex (sha256 (bytes secret)).
Definition generate_secret (random : list Z) : string := "vk_" +:+ hex random.
Definition generate_id (random : list Z) : string := "key_" +:+ hex random.

Definition minted_record (run : MintRun) (req : MintRequest) : VirtualKeyRecord :=
  MkRecord (generate_id (mr_id run)) (mi_subject_id req) (mi_group_id req) (mi_upstream_ref req)
    (models_csv (mi_models req)) (mi_budget_scope req) (mi_expires_at req) (mi_rate_limit_per_min req)
    (hash_secret (generate_secret (mr_secret run))) (mr_now run) None.

Definition hash_taken (h : string) (s : VirtualKeyStore) : bool :=
  existsb (fun r => bool_decide (vr_secret_hash r = h)) (map_to_list (vs_rows s)).*2.

(** The record and the secret, or an error; the tables after it. *)
Definition mint_inner (run : MintRun) (req : MintRequest) (delegation : option string) (s : VirtualKeyStore)
    : option (VirtualKeyRecord * string) * VirtualKeyStore :=
  let r := minted_record run req in
  if negb (mr_begin_ok run) then (None, s)
  else if negb (mr_insert_ok run) || bool_decide (is_Some (vs_rows s !! vr_id r)) || hash_taken (vr_secret_hash r) s
  then (None, s)
  else
    let s1 := MkVkeys (<[vr_id r := r]> (vs_rows s)) (vs_delegations s) in
    let s2 :=
      match delegation with
      | Some identity =>
          if negb (mr_delegation_ok run) || bool_decide (is_Some (vs_delegations s !! vr_id r)) then None
          else Some (MkVkeys (vs_rows s1) (<[vr_id r := identity]> (vs_delegations s)))
      | None => Some s1
      end in
    match s2 with
    | None => (None, s)
    | Some s2 =>
        match mr_commit run with
        | Fine => (Some (r, generate_secret (mr_secret run)), s2)
        | Fails => (None, s)
        | FailsLate => (None, s2)
        end
    end.
Definition mint (run : MintRun) (req : MintRequest) (s : VirtualKeyStore) := mint_inner run req None s.
Definition mint_delegated (run : MintRun) (req : MintRequest) (identity_json : string) (s : VirtualKeyStore) :=
  mint_inner run req (Some identity_json) s.

Definition active (r : VirtualKeyRecord) : bool := negb (bool_decide (is_Some (vr_revoked_at r))).

(** The queries, on a file that answers. *)
Definition delegation (id : string) (s : VirtualKeyStore) : option string :=
  d ← vs_delegations s !! id; k ← vs_rows s !! id; if active k then Some d else None.
Definition find_by_hash (hash : string) (s : VirtualKeyStore) : option VirtualKeyRecord :=
  head (List.filter (fun r => bool_decide (vr_secret_hash r = hash) && active r) (map_to_list (vs_rows s)).*2).
Definition find_by_secret (presented_secret : string) (s : VirtualKeyStore) : option VirtualKeyRecord :=
  find_by_hash (hash_secret presented_secret) s.
Definition find_by_id (id : string) (s : VirtualKeyStore) : option VirtualKeyRecord := vs_rows s !! id.
(** Newest first. *)
Definition newer (a b : VirtualKeyRecord) : Prop := String.le (vr_created_at b) (vr_created_at a).
#[export] Instance newer_dec : RelDecision newer.
Proof. intros a b. unfold newer. apply _. Defined.
Definition vs_list (s : VirtualKeyStore) : list VirtualKeyRecord := merge_sort newer (map_to_list (vs_rows s)).*2.

Definition revoked_record (now : string) (r : VirtualKeyRecord) : VirtualKeyRecord :=
  MkRecord (vr_id r) (vr_subject_id r) (vr_group_id r) (vr_upstream_ref r) (vr_models r) (vr_budget_scope r)
    (vr_expires_at r) (vr_rate_limit_per_min r) (vr_secret_hash r) (vr_created_at r) (Some now).
(** [UPDATE .. SET revoked_at WHERE id = ? AND revoked_at IS NULL]. *)
Definition vs_revoke (now : string) (id : string) (s : VirtualKeyStore) : bool * VirtualKeyStore :=
  match vs_rows s !! id with
  | Some r => if active r then (true, MkVkeys (<[id := revoked_record now r]> (vs_rows s)) (vs_delegations s)) else (false, s)
  | None => (false, s)
  end.

(** ** The key handlers *)

Definition live_key (r : VirtualKeyRecord) : VirtualKey :=
  MkKey (vr_id r) (vr_subject_id r) (vr_group_id r) (vr_upstream_ref r) (Some (model_list r)) (vr_budget_scope r)
    (vr_expires_at r) (vr_rate_limit_per_min r).
(** At startup; a listing that fails leaves the store as it is. *)
Definition rehydrate_live_keys (list_ok : bool) (vs : VirtualKeyStore) (keys : KeyStore) : KeyStore :=
  if list_ok
  then foldl (fun keys r => ks_insert_keyed (vr_secret_hash r) (live_key r) keys) keys (List.filter active (vs_list vs))
  else keys.

Context (ct_eq : list Z -> list Z -> bool).

(** [require_admin]: the status of a refusal. *)
Definition require_admin (admin_token : option string) (h : HeaderMap) : result Z unit :=
  match admin_token with
  | None => Err 403
  | Some expected =>
      match str_trim <$> (header_text h "authorization" ≫= str_strip_prefix "Bearer ") with
      | Some t => if ct_eq (bytes t) (bytes expected) then Ok tt else Err 401
      | None => Err 401
      end
  end.

(** What the handlers share: the admin token, whether the process still
    admits mutations, the stores, the upstreams that have a provider and the
    active credentials of the vault, [None] without a vault that lists. *)
Record KeyPlane := MkPlane {
  kp_admin_token : option string; kp_running : bool; kp_vkeys : option VirtualKeyStore; kp_keys : KeyStore;
  kp_upstreams : list string; kp_vault : option (list string) }.
Definition set_keys (vkeys : option VirtualKeyStore) (keys : KeyStore) (p : KeyPlane) : KeyPlane :=
  MkPlane (kp_admin_token p) (kp_running p) vkeys keys (kp_upstreams p) (kp_vault p).

Inductive KeyReply :=
| Status (code : Z)
| Shared (secret id : string)
| Revoked (revoked : bool)
| Done.

Definition knows_upstream (p : KeyPlane) (upstream : string) : bool :=
  bool_decide (upstream ∈ kp_upstreams p)
  || match kp_vault p with Some active => bool_decide (upstream ∈ active) | None => false end.

Definition share_key (h : HeaderMap) (req : MintRequest) (run : MintRun) (p : KeyPlane) : KeyReply * KeyPlane :=
  match require_admin (kp_admin_token p) h with
  | Err code => (Status code, p)
  | Ok _ =>
      if negb (kp_running p) then (Status 503, p)
      else match kp_vkeys p with
      | None => (Status 503, p)
      | Some vs =>
          if negb (knows_upstream p (mi_upstream_ref req)) then (Status 400, p)
          else match mint run req vs with
          | (None, vs) => (Status 500, set_keys (Some vs) (kp_keys p) p)
          | (Some (r, secret), vs) =>
              (Shared secret (vr_id r), set_keys (Some vs) (ks_insert_keyed (vr_secret_hash r) (live_key r) (kp_keys p)) p)
          end
      end
  end.

(** [read_ok] and [write_ok]: whether the file answers the lookup and takes
    the update. *)
Definition revoke_virtual_key (h : HeaderMap) (id : string) (now : string) (read_ok write_ok : bool) (p : KeyPlane)
    : KeyReply * KeyPlane :=
  match require_admin (kp_admin_token p) h with
  | Err code => (Status code, p)
  | Ok _ =>
      if negb (kp_running p) then (Status 503, p)
      else match kp_vkeys p with
      | None => (Status 503, p)
      | Some vs =>
          let record := if read_ok then find_by_id id vs else None in
          let '(revoked, vs) := if write_ok then vs_revoke now id vs else (false, vs) in
          let keys := match record with Some r => (ks_revoke (vr_secret_hash r) (kp_keys p)).2 | None => kp_keys p end in
          (Revoked revoked, set_keys (Some vs) keys p)
      end
  end.

(** A new process over the same file: the keys of the environment, then the
    stored ones. *)
Definition restart (demo : list VirtualKey) (list_ok : bool) (p : KeyPlane) : KeyPlane :=
  let keys := foldl (fun s k => ks_insert k s) ∅ demo in
  MkPlane (kp_admin_token p) true (kp_vkeys p)
    (match kp_vkeys p with Some vs => rehydrate_live_keys list_ok vs keys | None => keys end)
    (kp_upstreams p) (kp_vault p).

Inductive KeyEvent :=
| ShareKey (h : HeaderMap) (req : MintRequest) (run : MintRun)
| RevokeKey (h : HeaderMap) (id now : string) (read_ok write_ok : bool)
| Restarts (list_ok : bool)
| Cutoff.

Definition key_step (demo : list VirtualKey) (e : KeyEvent) (p : KeyPlane) : KeyReply * KeyPlane :=
  match e with
  | ShareKey h req run => share_key h req run p
  | RevokeKey h id now read_ok write_ok => revoke_virtual_key h id now read_ok write_ok p
  | Restarts list_ok => (Done, restart demo list_ok p)
  | Cutoff => (Done, MkPlane (kp_admin_token p) false (kp_vkeys p) (kp_keys p) (kp_upstreams p) (kp_vault p))
  end.
Definition key_run (demo : list VirtualKey) (es : list KeyEvent) (p : KeyPlane) : KeyPlane :=
  foldl (fun p e => (key_step demo e p).2) p es.

(** ** Resolution *)

Inductive VirtualKeyResolution :=
| Found (k : VirtualKey) (rate_identity : string) (identity : Identity)
| NotFound | Expired | Denied (status : Z).

(** [resolve_virtual_key] without OIDC: the token as it is, then its hash. *)
Definition resolve_virtual_key (parse_rfc3339 : string -> option Z) (now token : string) (keys : KeyStore)
    : VirtualKeyResolution :=
  match (match ks_resolve token keys with Some k => Some k | None => ks_resolve (hash_secret token) keys end) with
  | Some k => if is_expired parse_rfc3339 now k then Expired else Found k (vk_id k) (MkIdentity None (vk_subject_id k) [] [] false)
  | None => NotFound
  end.
End Keys.
