(* ===== verification/KeysProps.v ===== *)
(** What holds of virtual keys over every history of mints, revocations and
    restarts, with a file that may fail: a revoked key is never accepted
    again, and a shared key is accepted with exactly its grants until it is
    revoked or expires. *)

From stdpp Require Import sorting.
From S2P Require Import Prelude Text Headers Sql Attempt Policy Keys.

(** ** Model lists *)

Lemma fresh_comma rev a rest : a <> [] -> fresh_front rev a = true -> fresh_front rev (a ++ 44 :: rest) = true.
Proof.
  intros Hne. destruct (printable_ws 44 eq_refl) as (_ & H2 & H3).
  destruct a as [|b [|c [|d a]]]; [done|..]; cbn [fresh_front app]; intros Hf; bools.
  - rewrite H. destruct (H2 b) as [-> ->]. cbn. destruct rest as [|d rest]; [by destruct rev|].
    destruct (H3 b d) as (_ & -> & _), (H3 d b) as (_ & _ & Hd). unfold ws3 in *. destruct rev; lia.
  - rewrite H, H0. destruct (H3 c b) as (Hc & _ & _), (H3 b c) as (_ & _ & Hb). rewrite andb_true_l. destruct rev; [by rewrite Hc|by rewrite Hb].
  - by rewrite H, H0, H1.
Qed.

Definition clean_name (m : string) : Prop :=
  m <> "" /\ trim (bytes m) = bytes m /\ 44 ∉ bytes m.

Lemma bytes_nil m : bytes m = [] -> m = "".
Proof. intros H. apply bytes_inj. by rewrite H. Qed.

Lemma split_on_none p l : Forall (fun c => p c = false) l -> split_on p l = [l].
Proof. induction 1 as [|c l Hc _ IH]; [done|]. cbn. by rewrite IH, Hc. Qed.
Lemma split_on_piece p l c rest : Forall (fun c => p c = false) l -> p c = true ->
  split_on p (l ++ c :: rest) = l :: split_on p rest.
Proof.
  intros Hl Hc. induction Hl as [|x l Hx _ IH]; cbn.
  - rewrite Hc. destruct (split_on p rest) as [|w ws] eqn:E; [|done]. destruct rest; cbn in E; [done|].
    destruct (split_on p rest); [done|]. by destruct (p z).
  - by rewrite IH, Hx.
Qed.

Lemma clean_bytes m : clean_name m -> Forall (fun c => (c =? 44) = false) (bytes m).
Proof. intros (_ & _ & Hc). apply Forall_forall. intros c Hin. apply Z.eqb_neq. by intros ->. Qed.
Lemma csv_split ms : ms <> [] -> Forall clean_name ms ->
  split_on (fun c => c =? 44) (bytes (String.concat "," ms)) = bytes <$> ms.
Proof.
  induction ms as [|m ms IH]; [done|]. intros _ [Hm Hms]%Forall_cons. destruct ms as [|m' ms].
  - cbn [String.concat fmap list_fmap]. by apply split_on_none, clean_bytes.
  - change (String.concat "," (m :: m' :: ms)) with (m +:+ "," +:+ String.concat "," (m' :: ms)).
    rewrite !bytes_app. change (bytes ",") with [44]. cbn [app].
    rewrite split_on_piece by (done || by apply clean_bytes). rewrite IH by done. done.
Qed.

(** A comma is no white space. *)
Lemma white_space_44 b c d :
  (ws1 b = true -> b <> 44) /\ (ws2 b c = true -> b <> 44 /\ c <> 44) /\ (ws3 b c d = true -> b <> 44 /\ c <> 44 /\ d <> 44).
Proof. unfold ws1, ws2, ws3. split_and!; intros; lia. Qed.
Lemma trim_front_keeps rev s : 44 ∈ s -> 44 ∈ trim_front rev s.
Proof.
  induction s as [s IH] using bytes_ind. destruct s as [|b r]; [done|]. cbn [trim_front]. intros Hin.
  destruct (ws1 b) eqn:E1.
  { apply IH; [simpl; lia|]. apply (white_space_44 b 0 0) in E1. set_solver. }
  destruct r as [|c r1]; [done|]. destruct (if rev then ws2 c b else ws2 b c) eqn:E2.
  { apply IH; [simpl; lia|]. assert (b <> 44 /\ c <> 44) by (destruct rev; apply (white_space_44 _ _ 0) in E2; tauto). set_solver. }
  destruct r1 as [|d r2]; [done|]. destruct (if rev then ws3 d c b else ws3 b c d) eqn:E3; [|done].
  apply IH; [simpl; lia|]. assert (b <> 44 /\ c <> 44 /\ d <> 44) by (destruct rev; apply white_space_44 in E3; tauto). set_solver.
Qed.
Lemma trim_keeps_comma s : 44 ∈ s -> trim s <> [].
Proof.
  intros Hin. assert (H : 44 ∈ trim s); [|intros He; by rewrite He in H; apply not_elem_of_nil in H].
  unfold trim, trim_end. rewrite elem_of_reverse. apply trim_front_keeps. rewrite elem_of_reverse. by apply trim_front_keeps.
Qed.

Lemma csv_not_blank ms : ms <> [] -> Forall clean_name ms -> trim (bytes (String.concat "," ms)) <> [].
Proof.
  intros Hne Hms. destruct ms as [|m [|m' ms]]; [done|..].
  - apply Forall_cons in Hms as [(H1 & H2 & _) _]. cbn [String.concat]. rewrite H2. by intros ?%bytes_nil.
  - apply trim_keeps_comma. change (String.concat "," (m :: m' :: ms)) with (m +:+ "," +:+ String.concat "," (m' :: ms)).
    rewrite !bytes_app. change (bytes ",") with [44]. set_solver.
Qed.

(** A list of clean names is stored and read back. *)
Lemma model_list_round_trip ms r : Forall clean_name ms -> vr_models r = models_csv ms -> model_list r = ms.
Proof.
  intros Hms Hr. unfold model_list. rewrite Hr. destruct ms as [|m ms]; [done|]. cbn [models_csv].
  rewrite bool_decide_eq_false_2 by (by apply csv_not_blank). unfold split_models. rewrite csv_split by done.
  assert (Hid : forall l, Forall clean_name l ->
    string_of <$> List.filter (fun m => negb (bool_decide (m = []))) (trim <$> (bytes <$> l)) = l).
  { induction 1 as [|x l (H1 & H2 & _) _ IH]; [done|]. rewrite !fmap_cons. cbn [List.filter]. rewrite H2.
    rewrite bool_decide_eq_false_2 by (by intros ?%bytes_nil). cbn [negb]. by rewrite fmap_cons, IH, string_of_bytes. }
  by apply Hid.
Qed.

(** ** The durable store *)

Section Store.
Context (sha256 : list Z -> list Z).
Notation mint := (mint sha256).
Notation hash_secret := (hash_secret sha256).

(** What SQLite's constraints keep, and that hashes are hashes. *)
Record store_ok (s : VirtualKeyStore) : Prop := {
  so_id : forall id r, vs_rows s !! id = Some r -> vr_id r = id;
  so_unique : forall i j r q, vs_rows s !! i = Some r -> vs_rows s !! j = Some q -> vr_secret_hash r = vr_secret_hash q -> i = j;
  so_hash : forall id r, vs_rows s !! id = Some r -> exists secret, vr_secret_hash r = hash_secret secret }.

Lemma row_in s r : r ∈ (map_to_list (vs_rows s)).*2 <-> exists id, vs_rows s !! id = Some r.
Proof.
  rewrite list_elem_of_fmap. split.
  - intros ([id q] & -> & Hin%elem_of_map_to_list). by exists id.
  - intros (id & Hid). exists (id, r). split; [done|]. by apply elem_of_map_to_list.
Qed.
Lemma hash_taken_false h s : hash_taken h s = false -> forall id r, vs_rows s !! id = Some r -> vr_secret_hash r <> h.
Proof.
  intros Hf id r Hr Hh. assert (hash_taken h s = true); [|congruence]. apply existsb_exists. exists r. split.
  - apply list_elem_of_In, row_in. by exists id.
  - by apply bool_decide_eq_true.
Qed.

(** A mint that changed the table added its record. *)
Lemma mint_spec run req s o s' : mint run req s = (o, s') ->
  s' = s /\ o = None
  \/ let r := minted_record sha256 run req in
     vs_rows s !! vr_id r = None /\ (forall id q, vs_rows s !! id = Some q -> vr_secret_hash q <> vr_secret_hash r)
     /\ vs_rows s' = <[vr_id r := r]> (vs_rows s)
     /\ (o = None \/ o = Some (r, generate_secret (mr_secret run))).
Proof.
  unfold Keys.mint, mint_inner. destruct (mr_begin_ok run); cbn [negb]; [|intros [= <- <-]; by left].
  destruct (_ || hash_taken _ _) eqn:Hc; [intros [= <- <-]; by left|]. apply orb_false_iff in Hc as [Hc Hh].
  apply orb_false_iff in Hc as [_ Hid]. apply bool_decide_eq_false in Hid.
  pose proof (hash_taken_false _ _ Hh) as Hh'. apply eq_None_not_Some in Hid.
  destruct (mr_commit run); intros [= <- <-]; [right|by left|right]; cbn; split_and!; auto.
Qed.

Lemma minted_store_ok run req s o s' : store_ok s -> mint run req s = (o, s') -> store_ok s'.
Proof.
  intros [H1 H2 H3] [[-> _]|(Hid & Hh & Hrows & _)]%mint_spec; [by split|]. split; rewrite Hrows.
  - intros id r [[<- <-]|[_ Hr]]%lookup_insert_Some; [done|by apply H1].
  - intros i j r q [[<- <-]|[Hi Hr]]%lookup_insert_Some [[<- <-]|[Hj Hq]]%lookup_insert_Some He; [done| | |].
    + exfalso. symmetry in He. revert He. by eapply Hh.
    + exfalso. revert He. by eapply Hh.
    + by eapply H2.
  - intros id r [[<- <-]|[_ Hr]]%lookup_insert_Some; [by eexists|by eapply H3].
Qed.

Lemma revoke_spec now id s b s' : vs_revoke now id s = (b, s') ->
  s' = s /\ b = false \/
  exists r, vs_rows s !! id = Some r /\ active r = true /\ b = true /\ vs_rows s' = <[id := revoked_record now r]> (vs_rows s).
Proof.
  unfold vs_revoke. destruct (vs_rows s !! id) as [r|]; [|intros [= <- <-]; by left].
  destruct (active r) eqn:Ha; intros [= <- <-]; [right|by left]. by exists r.
Qed.
Lemma revoked_store_ok now id s b s' : store_ok s -> vs_revoke now id s = (b, s') -> store_ok s'.
Proof.
  intros [H1 H2 H3] [[-> _]|(r & Hr & _ & _ & Hrows)]%revoke_spec; [by split|]. split; rewrite Hrows.
  - intros i q [[<- <-]|[_ Hq]]%lookup_insert_Some; [exact (H1 _ _ Hr)|by apply H1].
  - intros i j p q [[<- <-]|[Hi Hp]]%lookup_insert_Some [[<- <-]|[Hj Hq]]%lookup_insert_Some He; try done; cbn in He; eauto.
  - intros i q [[<- <-]|[_ Hq]]%lookup_insert_Some; cbn; eauto.
Qed.

(** ** Rehydration *)

Notation filled l keys := (foldl (fun keys r => ks_insert_keyed (vr_secret_hash r) (live_key r) keys) keys l).

Lemma filled_inv (l : list VirtualKeyRecord) : forall keys h k, filled l keys !! h = Some k ->
  keys !! h = Some k \/ exists r, r ∈ l /\ vr_secret_hash r = h /\ k = live_key r.
Proof.
  induction l as [|r l IH]; intros keys h k; cbn [foldl]; [by left|]. intros [Hk|(q & Hq & Hh)]%IH; [|right; exists q; set_solver].
  unfold ks_insert_keyed in Hk. apply lookup_insert_Some in Hk as [[<- <-]|[_ Hk]]; [right; exists r; set_solver|by left].
Qed.
Lemma filled_other (l : list VirtualKeyRecord) : forall keys h, (forall r, r ∈ l -> vr_secret_hash r <> h) -> filled l keys !! h = keys !! h.
Proof.
  induction l as [|r l IH]; intros keys h Hl; cbn [foldl]; [done|]. rewrite IH by (intros q Hq; apply Hl; by right).
  unfold ks_insert_keyed. apply lookup_insert_ne, Hl. by left.
Qed.
Lemma filled_in (l : list VirtualKeyRecord) : forall keys r, r ∈ l -> (forall q, q ∈ l -> vr_secret_hash q = vr_secret_hash r -> q = r) ->
  filled l keys !! vr_secret_hash r = Some (live_key r).
Proof.
  induction l as [|x l IH]; intros keys r Hin Hu; [set_solver|]. cbn [foldl].
  destruct (decide (Exists (fun q => vr_secret_hash q = vr_secret_hash r) l)) as [He|He].
  - apply Exists_exists in He as (q & Hq & Hh). assert (q = r) as -> by (apply Hu; [by right|done]).
    apply IH; [done|]. intros p Hp. apply Hu. by right.
  - rewrite filled_other; [|intros q Hq Hh; apply He, Exists_exists; by exists q].
    assert (x = r) as ->; [|apply lookup_insert_eq]. apply elem_of_cons in Hin as [->|Hin]; [done|].
    exfalso. apply He, Exists_exists. by exists r.
Qed.

Lemma listed s r : r ∈ List.filter active (vs_list s) <-> active r = true /\ exists id, vs_rows s !! id = Some r.
Proof.
  rewrite list_elem_of_In, filter_In, <- list_elem_of_In. unfold vs_list. rewrite merge_sort_Permutation, row_in. tauto.
Qed.
Lemma rehydrate_inv b s keys h k : rehydrate_live_keys b s keys !! h = Some k ->
  keys !! h = Some k \/ exists id r, vs_rows s !! id = Some r /\ active r = true /\ vr_secret_hash r = h /\ k = live_key r.
Proof.
  unfold rehydrate_live_keys. destruct b; [|by left]. intros [Hk|(r & [Ha [id Hid]]%listed & Hh & ->)]%filled_inv; [by left|].
  right. by exists id, r.
Qed.
Lemma rehydrate_active s keys id r : store_ok s -> vs_rows s !! id = Some r -> active r = true ->
  rehydrate_live_keys true s keys !! vr_secret_hash r = Some (live_key r).
Proof.
  intros Hs Hr Ha. apply filled_in; [apply listed; eauto|]. intros q [_ [j Hq]]%listed Hh.
  assert (j = id) as -> by (by eapply so_unique). congruence.
Qed.
End Store.

(** ** Histories *)

Section Plane.
Context (sha256 : list Z -> list Z) (ct_eq : list Z -> list Z -> bool) (demo : list VirtualKey).
Notation key_step := (key_step sha256 ct_eq demo).
Notation key_run := (key_run sha256 ct_eq demo).
Notation store_ok := (store_ok sha256).

Definition is_demo (h : string) (k : VirtualKey) : Prop := k ∈ demo /\ vk_id k = h.
Definition is_stored (s : option VirtualKeyStore) (h : string) (k : VirtualKey) : Prop :=
  exists vs r, s = Some vs /\ vs_rows vs !! vk_id k = Some r /\ vr_secret_hash r = h /\ k = live_key r.

Record plane_ok (p : KeyPlane) : Prop := {
  pk_store : forall vs, kp_vkeys p = Some vs -> store_ok vs;
  pk_live : forall h k, kp_keys p !! h = Some k -> is_demo h k \/ is_stored (kp_vkeys p) h k }.

Lemma demo_keys h k : foldl (fun s k => ks_insert k s) ∅ demo !! h = Some k -> is_demo h k.
Proof.
  unfold is_demo. intros Hk. assert (Hg : forall l (s : KeyStore), foldl (fun s k => ks_insert k s) s l !! h = Some k ->
    s !! h = Some k \/ k ∈ l /\ vk_id k = h).
  { induction l as [|x l IH]; intros s; cbn [foldl]; [by left|]. intros [Hs|[Hl Hh]]%IH; [|right; set_solver].
    unfold ks_insert in Hs. apply lookup_insert_Some in Hs as [[<- <-]|[_ Hs]]; [right; set_solver|by left]. }
  apply Hg in Hk as [Hk|Hk]; [by rewrite lookup_empty in Hk|done].
Qed.

(** Rows are added and revoked, and keep what makes the live key. *)
Definition evolves (s s' : VirtualKeyStore) : Prop :=
  forall id r, vs_rows s !! id = Some r -> exists q, vs_rows s' !! id = Some q
    /\ live_key q = live_key r /\ vr_secret_hash q = vr_secret_hash r /\ (active q = true -> active r = true).
Lemma evolves_refl s : evolves s s.
Proof. intros id r Hr. by exists r. Qed.
Lemma mint_evolves run req s o s' : mint sha256 run req s = (o, s') -> evolves s s'.
Proof.
  intros [[-> _]|(Hid & _ & Hrows & _)]%mint_spec; [apply evolves_refl|]. intros id r Hr. exists r. split; [|done].
  rewrite Hrows. rewrite lookup_insert_ne; [done|]. intros He. rewrite <- He in Hr. cbn in Hid, Hr. congruence.
Qed.
Lemma revoke_evolves now id s b s' : vs_revoke now id s = (b, s') -> evolves s s'.
Proof.
  intros [[-> _]|(r & Hr & Ha & _ & Hrows)]%revoke_spec; [apply evolves_refl|]. intros i q Hq. rewrite Hrows.
  destruct (decide (i = id)) as [->|Hne].
  - exists (revoked_record now r). rewrite lookup_insert_eq. rewrite Hr in Hq. by injection Hq as <-.
  - exists q. by rewrite lookup_insert_ne.
Qed.
Lemma stored_evolves s s' h k : evolves s s' -> is_stored (Some s) h k -> is_stored (Some s') h k.
Proof.
  intros He (vs & r & [= <-] & Hr & Hh & Hk). destruct (He _ _ Hr) as (q & Hq & Hl & Hs & _).
  exists s', q. split_and!; [done|done|congruence|congruence].
Qed.

(** A step of a history: its parts. *)
Lemma share_cases h req run p : let '(o, p') := share_key sha256 ct_eq h req run p in
  (exists code, o = Status code) /\ p' = p
  \/ exists vs vs' m, kp_vkeys p = Some vs /\ mint sha256 run req vs = (m, vs')
     /\ match m with
        | None => o = Status 500 /\ p' = set_keys (Some vs') (kp_keys p) p
        | Some (r, secret) => o = Shared secret (vr_id r)
            /\ p' = set_keys (Some vs') (ks_insert_keyed (vr_secret_hash r) (live_key r) (kp_keys p)) p
        end.
Proof.
  unfold share_key. destruct (require_admin _ _ _); [|left; eauto]. destruct (kp_running p); cbn [negb]; [|left; eauto].
  destruct (kp_vkeys p) as [vs|]; [|left; eauto]. destruct (knows_upstream _ _); cbn [negb]; [|left; eauto].
  destruct (mint sha256 run req vs) as [[[r secret]|] vs'] eqn:Hm; right; exists vs, vs'; eexists; split_and!; try done.
Qed.
Lemma revoke_cases h id now read_ok write_ok p : let '(o, p') := revoke_virtual_key ct_eq h id now read_ok write_ok p in
  (exists code, o = Status code) /\ p' = p
  \/ exists vs vs' b, kp_vkeys p = Some vs /\ vs_revoke now id vs = (b, vs')
     /\ o = Revoked (write_ok && b)
     /\ p' = set_keys (Some (if write_ok then vs' else vs))
               (match (if read_ok then vs_rows vs !! id else None) with
                | Some r => delete (vr_secret_hash r) (kp_keys p) | None => kp_keys p end) p.
Proof.
  unfold revoke_virtual_key. destruct (require_admin _ _ _); [|left; eauto]. destruct (kp_running p); cbn [negb]; [|left; eauto].
  destruct (kp_vkeys p) as [vs|]; [|left; eauto]. destruct (vs_revoke now id vs) as [b vs'] eqn:Hr.
  unfold find_by_id. destruct write_ok, read_ok; cbn beta iota; right; exists vs, vs', b; split_and!; try done; by destruct (vs_rows vs !! id).
Qed.

Lemma plane_step e p : plane_ok p -> plane_ok (key_step e p).2.
Proof.
  intros [Hs Hl]. destruct e as [h req run|h id now read_ok write_ok|list_ok|]; cbn [Keys.key_step].
  - pose proof (share_cases h req run p) as Hc. destruct (share_key _ _ _ _ _ p) as [o p'].
    destruct Hc as [[_ ->]|(vs & vs' & m & Hvs & Hm & Hc)]; [by split|]. specialize (Hs _ Hvs). rewrite Hvs in Hl.
    assert (Hs' : store_ok vs') by (by eapply minted_store_ok). pose proof (mint_evolves _ _ _ _ _ Hm) as He.
    destruct m as [[r secret]|]; destruct Hc as [_ ->]; cbn; split; cbn; try (by intros ? [= <-]).
    + intros k x Hk. unfold ks_insert_keyed in Hk. apply lookup_insert_Some in Hk as [[<- <-]|[_ Hk]].
      * right. apply mint_spec in Hm as [[_ ?]|(_ & _ & Hrows & [?|Heq])]; [done|done|]. injection Heq as -> ->.
        exists vs'. eexists. rewrite Hrows. cbn. rewrite lookup_insert_eq. by split_and!.
      * destruct (Hl _ _ Hk); [by left|right; by eapply stored_evolves].
    + intros k x Hk. destruct (Hl _ _ Hk); [by left|right; by eapply stored_evolves].
  - pose proof (revoke_cases h id now read_ok write_ok p) as Hc. destruct (revoke_virtual_key _ _ _ _ _ _ p) as [o p'].
    destruct Hc as [[_ ->]|(vs & vs' & b & Hvs & Hr & _ & ->)]; [by split|]. specialize (Hs _ Hvs). rewrite Hvs in Hl.
    assert (He : evolves vs (if write_ok then vs' else vs)) by (destruct write_ok; [by eapply revoke_evolves|apply evolves_refl]).
    split; cbn.
    + intros ? [= <-]. destruct write_ok; [by eapply revoked_store_ok|done].
    + intros k x Hk. assert (Hk' : kp_keys p !! k = Some x).
      { destruct (if read_ok then _ else _); [|done]. by apply lookup_delete_Some in Hk as [_ Hk]. }
      destruct (Hl _ _ Hk'); [by left|right; by eapply stored_evolves].
  - unfold restart. split; cbn; [done|]. intros h k Hk. destruct (kp_vkeys p) as [vs|] eqn:Hvs.
    + apply rehydrate_inv in Hk as [Hk|(id & r & Hr & _ & Hh & ->)]; [left; by apply demo_keys|right].
      exists vs, r. cbn. by rewrite (so_id _ _ (Hs _ eq_refl) _ _ Hr).
    + left. by apply demo_keys.
  - by split.
Qed.
Lemma plane_run es p : plane_ok p -> plane_ok (key_run es p).
Proof. revert p. induction es as [|e es IH]; intros p Hp; [done|]. apply IH, plane_step, Hp. Qed.

(** *** Revoked *)

(** The key is revoked in the file, and no live entry carries it. *)
Record gone (id : string) (p : KeyPlane) : Prop := {
  gn_plane : plane_ok p;
  gn_row : exists vs r, kp_vkeys p = Some vs /\ vs_rows vs !! id = Some r /\ active r = false;
  gn_live : forall h k, kp_keys p !! h = Some k -> vk_id k = id -> is_demo h k }.

Lemma row_gone s s' id r : evolves s s' -> vs_rows s !! id = Some r -> active r = false ->
  exists q, vs_rows s' !! id = Some q /\ active q = false.
Proof.
  intros He Hr Ha. destruct (He _ _ Hr) as (q & Hq & _ & _ & Hact). exists q. split; [done|].
  destruct (active q); [|done]. rewrite Hact in Ha by done. done.
Qed.

Lemma restart_gone id list_ok p : plane_ok p -> (exists vs r, kp_vkeys p = Some vs /\ vs_rows vs !! id = Some r /\ active r = false) ->
  gone id (restart demo list_ok p).
Proof.
  intros Hp (vs & r0 & Hvs & Hr0 & Ha0). split; [exact (plane_step (Restarts list_ok) p Hp)|cbn; eauto|].
  intros h k Hk Hid. unfold restart in Hk. cbn in Hk. rewrite Hvs in Hk.
  apply rehydrate_inv in Hk as [Hk|(i & r & Hr & Ha & Hh & ->)]; [by apply demo_keys|]. exfalso. cbn in Hid.
  rewrite (so_id _ _ (pk_store _ Hp _ Hvs) _ _ Hr) in Hid. subst i. congruence.
Qed.
Lemma gone_step id e p : gone id p -> gone id (key_step e p).2.
Proof.
  intros [Hp (vs0 & r0 & Hvs0 & Hr0 & Ha0) Hl]. pose proof (plane_step e p Hp) as Hp'.
  destruct e as [h req run|h i now read_ok write_ok|list_ok|]; cbn [Keys.key_step] in *.
  - pose proof (share_cases h req run p) as Hc. destruct (share_key _ _ _ _ _ p) as [o p'].
    destruct Hc as [[_ ->]|(vs & vs' & m & Hvs & Hm & Hc)]; [split; eauto|].
    rewrite Hvs in Hvs0. injection Hvs0 as ->. pose proof (mint_evolves _ _ _ _ _ Hm) as He.
    destruct (row_gone _ _ _ _ He Hr0 Ha0) as (q & Hq & Haq).
    destruct m as [[r secret]|]; destruct Hc as [_ ->]; split; cbn; eauto 6.
    intros k x Hk Hx. unfold ks_insert_keyed in Hk. apply lookup_insert_Some in Hk as [[<- <-]|[_ Hk]]; [|by apply Hl].
    exfalso. apply mint_spec in Hm as [[_ ?]|(Hnew & _ & _ & [?|Heq])]; [done|done|]. injection Heq as -> ->.
    cbn in Hx, Hnew. rewrite Hx in Hnew. congruence.
  - pose proof (revoke_cases h i now read_ok write_ok p) as Hc. destruct (revoke_virtual_key _ _ _ _ _ _ p) as [o p'].
    destruct Hc as [[_ ->]|(vs & vs' & b & Hvs & Hr & _ & ->)]; [split; eauto|].
    rewrite Hvs in Hvs0. injection Hvs0 as ->.
    assert (He : evolves vs0 (if write_ok then vs' else vs0)) by (destruct write_ok; [by eapply revoke_evolves|apply evolves_refl]).
    destruct (row_gone _ _ _ _ He Hr0 Ha0) as (q & Hq & Haq). split; cbn; eauto 6.
    intros k x Hk Hx. apply Hl; [|done]. destruct (if read_ok then _ else _); [|done]. by apply lookup_delete_Some in Hk as [_ Hk].
  - apply restart_gone; [done|by eauto].
  - split; [done|cbn; eauto|done].
Qed.
Lemma gone_run id es p : gone id p -> gone id (key_run es p).
Proof. revert p. induction es as [|e es IH]; intros p Hp; [done|]. apply IH, gone_step, Hp. Qed.

(** The key is revoked in the file; a live entry may still carry it. *)
Record marked (id : string) (p : KeyPlane) : Prop := {
  mk_plane : plane_ok p;
  mk_row : exists vs r, kp_vkeys p = Some vs /\ vs_rows vs !! id = Some r /\ active r = false }.
Definition is_restart (e : KeyEvent) : bool := match e with Restarts _ => true | _ => false end.

Lemma marked_step id e p : marked id p -> marked id (key_step e p).2 /\ (is_restart e = true -> gone id (key_step e p).2).
Proof.
  intros [Hp (vs0 & r0 & Hvs0 & Hr0 & Ha0)]. pose proof (plane_step e p Hp) as Hp'.
  destruct e as [h req run|h i now read_ok write_ok|list_ok|]; cbn [Keys.key_step is_restart] in *; (split; [|done || intros _]).
  - pose proof (share_cases h req run p) as Hc. destruct (share_key _ _ _ _ _ p) as [o p'].
    destruct Hc as [[_ ->]|(vs & vs' & m & Hvs & Hm & Hc)]; [split; eauto|].
    rewrite Hvs in Hvs0. injection Hvs0 as ->. destruct (row_gone _ _ _ _ (mint_evolves _ _ _ _ _ Hm) Hr0 Ha0) as (q & Hq & Haq).
    destruct m as [[r secret]|]; destruct Hc as [_ ->]; split; cbn; eauto 6.
  - pose proof (revoke_cases h i now read_ok write_ok p) as Hc. destruct (revoke_virtual_key _ _ _ _ _ _ p) as [o p'].
    destruct Hc as [[_ ->]|(vs & vs' & b & Hvs & Hr & _ & ->)]; [split; eauto|]. rewrite Hvs in Hvs0. injection Hvs0 as ->.
    assert (He : evolves vs0 (if write_ok then vs' else vs0)) by (destruct write_ok; [by eapply revoke_evolves|apply evolves_refl]).
    destruct (row_gone _ _ _ _ He Hr0 Ha0) as (q & Hq & Haq). split; cbn; eauto 6.
  - split; [done|cbn; eauto].
  - apply restart_gone; [done|by eauto].
  - split; [done|cbn; eauto].
Qed.
Lemma marked_run id es : forall p, marked id p -> existsb is_restart es = true -> gone id (key_run es p).
Proof.
  induction es as [|e es IH]; intros p Hp He; [done|]. cbn in He. destruct (marked_step id e p Hp) as [Hm Hg].
  change (key_run (e :: es) p) with (key_run es (key_step e p).2). destruct (is_restart e); [by apply gone_run, Hg|by apply IH].
Qed.

(** *** Shared *)

Record in_force (r : VirtualKeyRecord) (p : KeyPlane) : Prop := {
  fo_plane : plane_ok p;
  fo_row : exists vs, kp_vkeys p = Some vs /\ vs_rows vs !! vr_id r = Some r;
  fo_active : active r = true;
  fo_live : kp_keys p !! vr_secret_hash r = Some (live_key r) }.

(** Everything but a revocation of this key, or a listing that fails. *)
Definition keeps_key (id : string) (e : KeyEvent) : Prop :=
  match e with RevokeKey _ i _ _ _ => i <> id | Restarts list_ok => list_ok = true | _ => True end.

Lemma in_force_step r e p : in_force r p -> keeps_key (vr_id r) e -> in_force r (key_step e p).2.
Proof.
  intros [Hp (vs0 & Hvs0 & Hr0) Ha Hl] He. pose proof (plane_step e p Hp) as Hp'. pose proof (pk_store _ Hp _ Hvs0) as Hok.
  destruct e as [h req run|h i now read_ok write_ok|list_ok|]; cbn [Keys.key_step] in *.
  - pose proof (share_cases h req run p) as Hc. destruct (share_key _ _ _ _ _ p) as [o p'].
    destruct Hc as [[_ ->]|(vs & vs' & m & Hvs & Hm & Hc)]; [split; eauto|].
    rewrite Hvs in Hvs0. injection Hvs0 as ->.
    apply mint_spec in Hm as [[-> ->]|(Hnew & Hh & Hrows & Hm)]; [destruct Hc as [_ ->]; split; cbn; eauto|].
    assert (Hrow : vs_rows vs' !! vr_id r = Some r).
    { rewrite Hrows. rewrite lookup_insert_ne; [done|]. intros Heq. rewrite Heq in Hnew. congruence. }
    destruct m as [[q secret]|]; destruct Hc as [_ ->]; split; cbn; eauto.
    destruct Hm as [?|Heq]; [done|]. injection Heq as -> ->. unfold ks_insert_keyed. rewrite lookup_insert_ne; [done|].
    intros Heq. by apply (Hh _ _ Hr0).
  - pose proof (revoke_cases h i now read_ok write_ok p) as Hc. destruct (revoke_virtual_key _ _ _ _ _ _ p) as [o p'].
    destruct Hc as [[_ ->]|(vs & vs' & b & Hvs & Hr & _ & ->)]; [split; eauto|].
    rewrite Hvs in Hvs0. injection Hvs0 as ->. split; cbn; [done| |done|].
    + eexists. split; [done|]. destruct write_ok; [|done].
      apply revoke_spec in Hr as [[-> _]|(q & Hq & _ & _ & ->)]; [done|]. by rewrite lookup_insert_ne.
    + destruct read_ok; [|done]. destruct (vs_rows vs0 !! i) as [q|] eqn:Hq; [|done]. rewrite lookup_delete_ne; [done|].
      intros Heq. apply He. by eapply (so_unique _ _ Hok).
  - cbn in He. subst list_ok. split; [done|cbn; eauto|done|]. unfold restart. cbn. rewrite Hvs0. by eapply rehydrate_active.
  - split; [done|cbn; eauto|done|done].
Qed.
Lemma in_force_run r es p : in_force r p -> Forall (keeps_key (vr_id r)) es -> in_force r (key_run es p).
Proof. intros Hf Hes. revert p Hf. induction Hes as [|e es He _ IH]; intros p Hf; [done|]. by apply IH, in_force_step. Qed.
End Plane.

(** ** Properties *)

(** The first process over an empty file. *)
Definition first_process (demo : list VirtualKey) (admin_token : option string) (upstreams : list string)
    (vault : option (list string)) : KeyPlane :=
  restart demo true (MkPlane admin_token true (Some (MkVkeys ∅ ∅)) ∅ upstreams vault).

Lemma first_process_ok sha256 demo tok ups vault : plane_ok sha256 demo (first_process demo tok ups vault).
Proof.
  unfold first_process, restart. split; cbn.
  - intros vs [= <-]. split; intros *; cbn; by rewrite lookup_empty.
  - intros h k Hk. left. unfold rehydrate_live_keys, vs_list in Hk. cbn in Hk. rewrite map_to_list_empty in Hk. cbn in Hk.
    by apply demo_keys.
Qed.

(** A hash in hexadecimal is no secret: those start with a [v]. *)
Lemma hash_is_no_secret l random : Forall is_byte l -> hex l <> generate_secret random.
Proof.
  intros Hl. destruct l as [|b l]; [done|]. apply Forall_cons in Hl as [Hb _]. unfold generate_secret.
  cbn [hex String.append]. intros [= He _]. unfold hex_digit in He. unfold is_byte in Hb.
  assert (Hd : 0 <= Z.shiftr b 4 < 16) by (rewrite Z.shiftr_div_pow2 by lia; change (2 ^ 4) with 16; split; [apply Z.div_pos; lia|apply Z.div_lt_upper_bound; lia]).
  apply (f_equal nat_of_ascii) in He. destruct (Z.ltb_spec (Z.shiftr b 4) 10); rewrite nat_ascii_embedding in He by lia;
    change (nat_of_ascii "v"%char) with 118%nat in He; lia.
Qed.

Lemma resolve_gone sha256 demo parse now token id p : gone sha256 demo id p -> id ∉ vk_id <$> demo ->
  match resolve_virtual_key sha256 parse now token (kp_keys p) with Found k _ _ => vk_id k <> id | _ => True end.
Proof.
  intros [_ _ Hl] Hid. assert (Hn : forall h k, kp_keys p !! h = Some k -> vk_id k <> id).
  { intros h k Hk Hi. destruct (Hl _ _ Hk Hi) as [Hd <-]. apply Hid. rewrite <- Hi, list_elem_of_fmap. by exists k. }
  unfold resolve_virtual_key, ks_resolve. destruct (kp_keys p !! token) as [k|] eqn:Ht; cbn beta iota;
    [|destruct (kp_keys p !! hash_secret sha256 token) as [k|] eqn:Hh; [|exact I]];
    (destruct (is_expired parse now k); [exact I|]); [exact (Hn _ _ Ht)|exact (Hn _ _ Hh)].
Qed.

(** A revocation that is answered leaves the key revoked in the file, and
    gone if its record was read. *)
Lemma revocation_marks sha256 ct_eq demo h id now read_ok write_ok p p' : plane_ok sha256 demo p ->
  revoke_virtual_key ct_eq h id now read_ok write_ok p = (Revoked true, p') ->
  marked sha256 demo id p' /\ (read_ok = true -> gone sha256 demo id p') /\ (read_ok = false -> kp_keys p' = kp_keys p).
Proof.
  intros Hp He. pose proof (plane_step sha256 ct_eq demo (RevokeKey h id now read_ok write_ok) p Hp) as Hp'.
  cbn [key_step] in Hp'. rewrite He in Hp'. cbn in Hp'.
  pose proof (revoke_cases ct_eq h id now read_ok write_ok p) as Hc. rewrite He in Hc.
  destruct Hc as [[[code ?] _]|(vs & vs' & b & Hvs & Hr & Ho & ->)]; [done|]. injection Ho as Ho. symmetry in Ho. apply andb_true_iff in Ho as [-> ->].
  apply revoke_spec in Hr as [[_ ?]|(r & Hr & Ha & _ & Hrows)]; [done|].
  assert (Hrow : exists vs r, Some vs' = Some vs /\ vs_rows vs !! id = Some r /\ active r = false).
  { exists vs', (revoked_record now r). by rewrite Hrows, lookup_insert_eq. }
  split; [by split|]. split; [|by intros ->]. intros ->. split; [done|done|].
  cbn. rewrite Hr. intros k x [Hne Hk]%lookup_delete_Some Hx. destruct (pk_live _ _ _ Hp _ _ Hk) as [Hd|Hs]; [done|].
  destruct Hs as (vs0 & q & Hvs0 & Hq & Hh & ->). rewrite Hvs in Hvs0. injection Hvs0 as <-. rewrite Hx in Hq. congruence.
Qed.

(** C36: A key whose revocation was answered is not accepted again: whatever
    was shared, revoked or restarted before, and whatever is shared, revoked,
    restarted or failed after, no token a caller may present resolves to it.
    This holds at once if the revocation could read the key's record.  If it
    could not, it is answered all the same, the live keys stay as they were,
    and it holds from the next restart on, however the reads and writes of
    the file went. *)
Theorem revoked_key_stays_refused sha256 ct_eq demo tok ups vault parse before after h id now read_ok write_ok p token later :
  let p0 := key_run sha256 ct_eq demo before (first_process demo tok ups vault) in
  revoke_virtual_key ct_eq h id now read_ok write_ok p0 = (Revoked true, p) ->
  id ∉ vk_id <$> demo ->
  (read_ok || existsb is_restart after = true ->
   match resolve_virtual_key sha256 parse later token (kp_keys (key_run sha256 ct_eq demo after p)) with
   | Found k _ _ => vk_id k <> id
   | _ => True
   end)
  /\ (read_ok = false -> kp_keys p = kp_keys p0).
Proof.
  intros p0 Hr Hid. destruct (revocation_marks sha256 ct_eq demo h id now read_ok write_ok p0 p) as (Hm & Hg & Hk);
    [apply plane_run, first_process_ok|exact Hr|]. split; [|exact Hk].
  intros Ha. eapply resolve_gone; [|exact Hid]. destruct read_ok; [by apply gone_run, Hg|by apply marked_run].
Qed.

(** The key a share grants. *)
Definition granted (id : string) (req : MintRequest) : VirtualKey :=
  MkKey id (mi_subject_id req) (mi_group_id req) (mi_upstream_ref req) (Some (mi_models req)) (mi_budget_scope req)
    (mi_expires_at req) (mi_rate_limit_per_min req).

Lemma share_in_force sha256 ct_eq demo h req run p p' secret id : plane_ok sha256 demo p ->
  share_key sha256 ct_eq h req run p = (Shared secret id, p') ->
  let r := minted_record sha256 run req in
  in_force sha256 demo r p' /\ id = vr_id r /\ secret = generate_secret (mr_secret run).
Proof.
  intros Hp He. pose proof (plane_step sha256 ct_eq demo (ShareKey h req run) p Hp) as Hp'.
  cbn [key_step] in Hp'. rewrite He in Hp'. cbn in Hp'.
  pose proof (share_cases sha256 ct_eq h req run p) as Hc. rewrite He in Hc.
  destruct Hc as [[[code ?] _]|(vs & vs' & [[r s]|] & Hvs & Hm & Ho & ->)]; [done| |done]. injection Ho as -> ->.
  apply mint_spec in Hm as [[_ ?]|(Hnew & _ & Hrows & [?|Heq])]; [done|done|]. injection Heq as -> ->.
  split_and!; [|done|done]. split; [done| |done|].
  - exists vs'. cbn [kp_vkeys set_keys]. by rewrite Hrows, lookup_insert_eq.
  - cbn [kp_keys set_keys]. unfold ks_insert_keyed. by rewrite lookup_insert_eq.
Qed.

(** A shared key is accepted with exactly the grants that were asked for,
    over every later history that does not revoke it, restarts included,
    until it expires. *)
Theorem shared_key_works_until_revoked sha256 ct_eq demo tok ups vault parse before after h req run secret id p now :
  (forall m, Forall is_byte (sha256 m)) ->
  share_key sha256 ct_eq h req run (key_run sha256 ct_eq demo before (first_process demo tok ups vault))
    = (Shared secret id, p) ->
  secret ∉ vk_id <$> demo ->
  Forall clean_name (mi_models req) ->
  Forall (keeps_key id) after ->
  resolve_virtual_key sha256 parse now secret (kp_keys (key_run sha256 ct_eq demo after p)) =
    if is_expired parse now (granted id req) then Expired
    else Found (granted id req) id (MkIdentity None (mi_subject_id req) [] [] false).
Proof.
  intros Hsha Hs Hdemo Hclean Hafter.
  destruct (share_in_force _ _ _ _ _ _ _ _ _ _ (plane_run sha256 ct_eq demo before _ (first_process_ok sha256 demo tok ups vault)) Hs)
    as (Hf & -> & ->). destruct (in_force_run sha256 ct_eq demo _ after _ Hf Hafter) as [Hp (vs & Hvs & Hr) Ha Hl].
  assert (Hlive : live_key (minted_record sha256 run req) = granted (vr_id (minted_record sha256 run req)) req).
  { unfold live_key, granted. cbn [vr_id vr_subject_id vr_group_id vr_upstream_ref vr_budget_scope vr_expires_at vr_rate_limit_per_min minted_record].
    do 2 f_equal. by apply model_list_round_trip. }
  unfold resolve_virtual_key, ks_resolve.
  assert (Hnone : kp_keys (key_run sha256 ct_eq demo after p) !! generate_secret (mr_secret run) = None).
  { destruct (kp_keys _ !! generate_secret _) as [k|] eqn:Hk; [exfalso|done].
    destruct (pk_live _ _ _ Hp _ _ Hk) as [[Hd Hi]|(vs0 & q & Hvs0 & Hq & Hh & _)].
    - apply Hdemo. rewrite <- Hi, list_elem_of_fmap. by exists k.
    - destruct (so_hash _ _ (pk_store _ _ _ Hp _ Hvs0) _ _ Hq) as [s Hs']. rewrite Hs' in Hh.
      by apply hash_is_no_secret in Hh. }
  rewrite Hnone. change (hash_secret sha256 (generate_secret (mr_secret run))) with (vr_secret_hash (minted_record sha256 run req)).
  rewrite Hl, Hlive. done.
Qed.

(** ** What the code does besides *)

(** The stored hash of a key in force is itself accepted as a token. *)
Lemma stored_hash_is_a_credential sha256 demo parse now r p :
  in_force sha256 demo r p -> is_expired parse now (live_key r) = false ->
  resolve_virtual_key sha256 parse now (vr_secret_hash r) (kp_keys p) =
    Found (live_key r) (vr_id r) (MkIdentity None (vr_subject_id r) [] [] false).
Proof. intros [_ _ _ Hl] He. unfold resolve_virtual_key, ks_resolve. rewrite Hl, He. done. Qed.

(** A revocation whose lookup fails says it revoked the key, and leaves the
    live entry. *)
Lemma unread_revocation_keeps_live_key ct_eq h id now p p' o :
  revoke_virtual_key ct_eq h id now false true p = (o, p') -> kp_keys p' = kp_keys p.
Proof.
  intros He. pose proof (revoke_cases ct_eq h id now false true p) as Hc. rewrite He in Hc.
  by destruct Hc as [[_ ->]|(vs & vs' & b & _ & _ & _ & ->)].
Qed.

(** An allowlist of blank names is stored as no allowlist, and one name with
    a comma as two names. *)
Lemma blank_allowlist_is_unscoped r : vr_models r = models_csv [" "] -> forall m, permits_model m (live_key r) = true.
Proof. intros Hr m. unfold permits_model, live_key, model_list. rewrite Hr. done. Qed.
Lemma comma_name_is_split r : vr_models r = models_csv ["gpt,large"] -> model_list r = ["gpt"; "large"].
Proof. intros Hr. unfold model_list. by rewrite Hr. Qed.

(** ** Witnesses *)

Module KeyExample.

Definition digest (m : list Z) : list Z := (fun b => b mod 256) <$> m.
Definition same (a b : list Z) : bool := bool_decide (a = b).
Definition demo : list VirtualKey := [MkKey "vk-demo" None None "openai" None None None None].
Definition admin : HeaderMap := [("authorization", Some "Bearer root")].
Definition request : MintRequest := MkMint (Some "alice") (Some "research") "openai" ["gpt-a"; "gpt-b"] None None (Some 60).
Definition mint_run : MintRun := MkMintRun [1; 2] [3; 4] "2026-01-01T00:00:00Z" true true true Fine.
Definition start : KeyPlane := first_process demo (Some "root") ["openai"] None.
Definition shared : KeyPlane := (share_key digest same admin request mint_run start).2.
Definition revoked : KeyPlane := (revoke_virtual_key same admin "key_0304" "2026-01-02T00:00:00Z" true true shared).2.
Definition unread : KeyPlane := (revoke_virtual_key same admin "key_0304" "2026-01-02T00:00:00Z" false true shared).2.

End KeyExample.

(** Read and written at once; and unread, with a restart. *)
Lemma revoked_key_stays_refused_witness :
  match resolve_virtual_key KeyExample.digest (fun _ => None) "2026-01-03T00:00:00Z" "vk_0102"
      (kp_keys (key_run KeyExample.digest KeyExample.same KeyExample.demo [] KeyExample.revoked)) with
  | Found k _ _ => vk_id k <> "key_0304"
  | _ => True
  end
  /\ match resolve_virtual_key KeyExample.digest (fun _ => None) "2026-01-03T00:00:00Z" "vk_0102"
      (kp_keys (key_run KeyExample.digest KeyExample.same KeyExample.demo [Restarts true] KeyExample.unread)) with
  | Found k _ _ => vk_id k <> "key_0304"
  | _ => True
  end.
Proof.
  split.
  - refine (proj1 (revoked_key_stays_refused KeyExample.digest KeyExample.same KeyExample.demo (Some "root") ["openai"] None (fun _ => None)
      [ShareKey KeyExample.admin KeyExample.request KeyExample.mint_run] [] KeyExample.admin
      "key_0304" "2026-01-02T00:00:00Z" true true KeyExample.revoked "vk_0102" "2026-01-03T00:00:00Z" _ _) eq_refl).
    + vm_compute. reflexivity.
    + by apply (bool_decide_eq_true_1 _).
  - refine (proj1 (revoked_key_stays_refused KeyExample.digest KeyExample.same KeyExample.demo (Some "root") ["openai"] None (fun _ => None)
      [ShareKey KeyExample.admin KeyExample.request KeyExample.mint_run] [Restarts true] KeyExample.admin
      "key_0304" "2026-01-02T00:00:00Z" false true KeyExample.unread "vk_0102" "2026-01-03T00:00:00Z" _ _) eq_refl).
    + vm_compute. reflexivity.
    + by apply (bool_decide_eq_true_1 _).
Defined.

Lemma shared_key_works_until_revoked_witness :
  resolve_virtual_key KeyExample.digest (fun _ => None) "2026-01-03T00:00:00Z" "vk_0102"
    (kp_keys (key_run KeyExample.digest KeyExample.same KeyExample.demo [Restarts true] KeyExample.shared))
  = Found (granted "key_0304" KeyExample.request) "key_0304" (MkIdentity None (Some "alice") [] [] false).
Proof.
  refine (shared_key_works_until_revoked KeyExample.digest KeyExample.same KeyExample.demo (Some "root") ["openai"] None
    (fun _ => None) [] [Restarts true] KeyExample.admin KeyExample.request KeyExample.mint_run "vk_0102" "key_0304"
    KeyExample.shared "2026-01-03T00:00:00Z" _ _ _ _ _).
  - intros m. unfold KeyExample.digest. apply Forall_fmap, Forall_true. intros b. cbn. unfold is_byte. pose proof (Z.mod_pos_bound b 256). lia.
  - vm_compute. reflexivity.
  - by apply (bool_decide_eq_true_1 _).
  - repeat constructor; try done; by apply (bool_decide_eq_true_1 _).
  - repeat constructor.
Defined.
