(* ===== verification/Auth.v ===== *)
(** Single sign-on ([proxy/auth.rs]): roles and grants of subjects and
    groups, the identity behind a bearer token or a session, and the keys an
    agent is delegated.

    URLs, the JSON of a delegation, SHA-256 and the comparison of secrets are
    arguments; the answers of the authority, the clock and the randomness
    are part of a request.  A refusal is its HTTP status. *)

From S2P Require Import Prelude Text Headers Json Sql Attempt Policy Keys.

Definition SESSION_COOKIE : string := "__Host-sandhi-session".
Definition LOGIN_COOKIE : string := "__Host-sandhi-login".
Definition MAX_LOGINS : nat := 1024.
Definition MAX_SESSIONS : nat := 4096.
Definition MAX_TOKEN_BYTES : Z := 16384.
Definition MAX_RESPONSE_BYTES : Z := 262144.
(** In nanoseconds and in seconds. *)
Definition LOGIN_TTL : Z := seconds 300.
Definition SESSION_TTL : Z := 3600.

(** ** Roles and grants *)

Inductive Permission := PRead | POperate | PAdmin | PDiagnostics.
Inductive Role := RViewer | ROperator | RAdmin.
#[export] Instance Permission_eq_dec : EqDecision Permission.
Proof. solve_decision. Defined.
#[export] Instance Role_eq_dec : EqDecision Role.
Proof. solve_decision. Defined.

Definition permits (r : Role) (p : Permission) : bool :=
  match r with
  | RAdmin => true
  | ROperator => match p with PRead | POperate => true | _ => false end
  | RViewer => bool_decide (p = PRead)
  end.
Definition role_rank (r : Role) : Z := match r with RViewer => 1 | ROperator => 2 | RAdmin => 3 end.

Record Grant := MkGrant {
  gr_upstream : string; gr_models : list string; gr_group : option string; gr_budget_scope : option string;
  gr_rate_limit_per_min : option Z }.
#[export] Instance Grant_eq_dec : EqDecision Grant.
Proof. solve_decision. Defined.

Record Binding := MkBinding {
  bd_role : option Role; bd_allow_diagnostics : bool; bd_grants : gmap string Grant }.
Definition binding_default : Binding := MkBinding None false ∅.

Inductive GroupSource := Introspection | Userinfo.

Record Config := MkConfig {
  cf_issuer : string; cf_client_id : string; cf_redirect_url : string; cf_scopes : list string;
  cf_subjects : gmap string Binding; cf_groups : gmap string Binding; cf_group_claim : option string;
  cf_group_source : GroupSource; cf_allow_delegated_keys : bool; cf_max_subject_key_ttl_seconds : Z }.

(** A parsed URL; the origin is its ASCII serialisation. *)
Record Url := MkUrl {
  ur_scheme : string; ur_host : option string; ur_username : string; ur_password : option string; ur_path : string;
  ur_query : option string; ur_fragment : option string; ur_origin : string }.

Section Urls.
Context (parse_url : string -> option Url).

Definition secure_url (raw : string) : result unit Url :=
  match parse_url raw with
  | None => Err tt
  | Some u =>
      if negb (bool_decide (ur_scheme u = "https")) || negb (bool_decide (is_Some (ur_host u)))
         || negb (bool_decide (ur_username u = "")) || bool_decide (is_Some (ur_password u))
      then Err tt else Ok u
  end.

Definition grant_name_byte (b : Z) : bool :=
  ((48 <=? b) && (b <=? 57)) || ((65 <=? b) && (b <=? 90)) || ((97 <=? b) && (b <=? 122)) || (b =? 95) || (b =? 45).
Definition grant_ok (name : string) (g : Grant) : bool :=
  negb (bool_decide (name = "") || (128 <? Z.of_nat (String.length name)) || negb (forallb grant_name_byte (bytes name))
        || bool_decide (gr_upstream g = "") || bool_decide (gr_models g = [])
        || existsb (fun m => bool_decide (trim (bytes m) = [])) (gr_models g)).
Definition binding_ok (subject : string) (b : Binding) : bool :=
  negb (bool_decide (subject = "")
        || (bool_decide (bd_role b = None) && bool_decide (bd_grants b = ∅) && negb (bd_allow_diagnostics b)))
  && forallb (fun '(name, g) => grant_ok name g) (map_to_list (bd_grants b)).
Definition reserved_claims : list string := ["sub"; "iss"; "aud"; "exp"; "active"].

(** Which of its messages an invalid configuration gets is left out. *)
Definition validate (c : Config) : bool :=
  if 31536000 <? cf_max_subject_key_ttl_seconds c then false
  else match secure_url (cf_issuer c), secure_url (cf_redirect_url c) with
  | Ok issuer, Ok redirect =>
      negb (bool_decide (is_Some (ur_query issuer)) || bool_decide (is_Some (ur_fragment issuer))
            || bool_decide (trim (bytes (cf_client_id c)) = []) || negb (bool_decide (ur_path redirect = "/auth/callback"))
            || bool_decide (is_Some (ur_query redirect)) || bool_decide (is_Some (ur_fragment redirect)))
      && (bool_decide (cf_groups c = ∅)
          || match cf_group_claim c with
             | None => false
             | Some v => negb (bool_decide (v = "") || (128 <? Z.of_nat (String.length v)) || bool_decide (v ∈ reserved_claims))
             end)
      && forallb (fun '(subject, b) => binding_ok subject b) (map_to_list (cf_subjects c) ++ map_to_list (cf_groups c))
  | _, _ => false
  end.
End Urls.

(** *** What a subject with groups may do *)

Definition grants_agree (old new : gmap string Grant) : Prop :=
  map_Forall (fun name g => match old !! name with Some o => o = g | None => True end) new.
#[export] Instance grants_agree_dec old new : base.Decision (grants_agree old new).
Proof. apply map_Forall_dec. intros name g. destruct (old !! name); apply _. Defined.

Definition higher_role (old new : option Role) : option Role :=
  match new with
  | Some role => match old with
                 | Some o => if role_rank o <? role_rank role then Some role else old
                 | None => Some role
                 end
  | None => old
  end.
(** One group; grants of one name that differ refuse the whole binding. *)
Definition merge_binding (acc b : Binding) : option Binding :=
  if bool_decide (grants_agree (bd_grants acc) (bd_grants b))
  then Some (MkBinding (higher_role (bd_role acc) (bd_role b)) (bd_allow_diagnostics acc || bd_allow_diagnostics b)
               (bd_grants b ∪ bd_grants acc))
  else None.
Fixpoint merge_groups (c : Config) (groups : list string) (acc : Binding) : option Binding :=
  match groups with
  | [] => Some acc
  | name :: groups =>
      match cf_groups c !! name with
      | Some b => acc ← merge_binding acc b; merge_groups c groups acc
      | None => merge_groups c groups acc
      end
  end.
Definition binding (c : Config) (subject : string) (groups : list string) : option Binding :=
  merge_groups c groups (default binding_default (cf_subjects c !! subject)).

Definition permits_groups (c : Config) (subject : string) (groups : list string) (p : Permission) : bool :=
  match binding c subject groups with
  | Some b => match bd_role b with Some r => permits r p | None => false end
              || (bool_decide (p = PDiagnostics) && bd_allow_diagnostics b)
  | None => false
  end.
Definition config_permits (c : Config) (subject : string) (p : Permission) : bool := permits_groups c subject [] p.

Section Auth.
Context (parse_url : string -> option Url) (sha256 : list Z -> list Z) (ct_eq : list Z -> list Z -> bool).
(** [serde_json::to_string] of the issuer, the subject and the grant. *)
Context (identity_json : string -> string -> string -> string).

Definition granted_key (c : Config) (subject name : string) (g : Grant) : VirtualKey :=
  MkKey ("oidc_" +:+ hash_secret sha256 (identity_json (cf_issuer c) subject name)) (Some subject) (gr_group g) (gr_upstream g)
    (Some (gr_models g)) (gr_budget_scope g) None (gr_rate_limit_per_min g).
Definition grant_groups (c : Config) (subject : string) (groups : list string) (selector : option string) : option VirtualKey :=
  b ← binding c subject groups;
  match selector with
  | Some name => granted_key c subject name <$> bd_grants b !! name
  | None => match map_to_list (bd_grants b) with [(name, g)] => Some (granted_key c subject name g) | _ => None end
  end.

(** ** Identities *)

Record Identity := MkAuthIdentity {
  ai_groups_known : bool; ai_subject : string; ai_groups : list string; ai_expires_at : Z }.

Definition claim_str (v : Json) (k : string) : option string := jget v k ≫= jas_str.
Definition claim_i64 (v : Json) (k : string) : option Z := jget v k ≫= jas_i64.
Definition is_string (v : Json) : bool := match v with JString _ => true | _ => false end.

Definition audience_ok (c : Config) (v : Json) : bool :=
  bool_decide (claim_str v "aud" = Some (cf_client_id c))
  || match jget v "aud" ≫= jas_array with
     | Some a => forallb is_string a && existsb (fun x => bool_decide (jas_str x = Some (cf_client_id c))) a
     | None => false
     end.
Definition introspection_subject (c : Config) (now : Z) (v : Json) : option string :=
  sub ← claim_str v "sub";
  if negb (match jget v "active" with Some (JBool true) => true | _ => false end)
     || negb (bool_decide (claim_str v "iss" = Some (cf_issuer c)))
     || negb (audience_ok c v) || bool_decide (sub = "")
  then None
  else exp ← claim_i64 v "exp";
    if exp <=? now then None
    else kind ← claim_str v "token_type";
      if negb (eq_ignore_ascii_case (bytes kind) (bytes "bearer"))
         || match jget v "nbf" with
            | Some n => match jas_i64 n with Some n => now <? n | None => true end
            | None => false
            end
      then None else Some sub.

Fixpoint claimed_groups (values : list Json) (groups : list string) : option (list string) :=
  match values with
  | [] => Some groups
  | v :: values =>
      group ← jas_str v;
      if bool_decide (group = "") || (256 <? Z.of_nat (String.length group)) then None
      else claimed_groups values (if bool_decide (group ∈ groups) then groups else groups ++ [group])
  end.
Definition introspection_identity (c : Config) (now : Z) (v : Json) : option Identity :=
  subject ← introspection_subject c now v;
  groups ← match cf_group_claim c ≫= jget v with
           | Some values =>
               values ← jas_array values;
               if 128 <? Z.of_nat (length values) then None else claimed_groups values []
           | None => Some []
           end;
  expires_at ← claim_i64 v "exp";
  Some (MkAuthIdentity (bool_decide (is_Some (cf_group_claim c ≫= jget v))) subject groups expires_at).

(** A reply of the authority: its status, its size and its body as JSON. *)
Record HttpReply := MkReply { hr_status : Z; hr_size : Z; hr_body : option Json }.
(** [fetch]: an endpoint outside the origin of the issuer, a failed exchange,
    an unavailable authority and an oversized body are errors. *)
Definition fetch (c : Config) (endpoint : string) (reply : option HttpReply) : option HttpReply :=
  match secure_url parse_url endpoint, secure_url parse_url (cf_issuer c) with
  | Ok url, Ok issuer =>
      if negb (bool_decide (ur_origin url = ur_origin issuer)) then None
      else r ← reply;
        if (500 <=? hr_status r) || (hr_status r =? 429) then None
        else if MAX_RESPONSE_BYTES <? hr_size r then None else Some r
  | _, _ => None
  end.
Definition is_success (status : Z) : bool := (200 <=? status) && (status <? 300).

Record Oidc := MkOidc {
  oc_config : Config; oc_introspection_url : string; oc_userinfo_url : option string; oc_has_secret : bool;
  oc_introspection_client_auth : bool }.
(** What the authority does during one call: whether a permit is free, and
    its replies to the introspection and to the userinfo request. *)
Record Authority := MkAuthority {
  an_permit : bool; an_introspection : option HttpReply; an_userinfo : option HttpReply }.

(** The claims with the group claim of the userinfo endpoint. *)
Definition with_claim (claim : string) (info v : Json) : result Z Json :=
  match v with
  | JObject l =>
      let l := List.filter (fun e => negb (bool_decide (e.1 = claim))) l in
      Ok (JObject match jget info claim with Some groups => l ++ [(claim, groups)] | None => l end)
  | _ => Err 401
  end.
Definition userinfo_groups (o : Oidc) (an : Authority) (subject : string) (v : Json) : result Z Json :=
  match cf_group_source (oc_config o) with
  | Introspection => Ok v
  | Userinfo =>
      endpoint ← ok_or (oc_userinfo_url o) 503;
      response ← ok_or (fetch (oc_config o) endpoint (an_userinfo an)) 503;
      if negb (is_success (hr_status response)) then Err 503
      else info ← ok_or (hr_body response) 503;
        if negb (bool_decide (claim_str info "sub" = Some subject)) then Err 401
        else claim ← ok_or (cf_group_claim (oc_config o)) 503; with_claim claim info v
  end.
Definition bearer_identity (o : Oidc) (now : Z) (an : Authority) (token : string) : result Z Identity :=
  if bool_decide (token = "") || (MAX_TOKEN_BYTES <? Z.of_nat (String.length token)) then Err 401
  else if negb (an_permit an) then Err 503
  else if oc_introspection_client_auth o && negb (oc_has_secret o) then Err 503
  else
    response ← ok_or (fetch (oc_config o) (oc_introspection_url o) (an_introspection an)) 503;
    if negb (is_success (hr_status response)) then
      Err (if negb (oc_introspection_client_auth o) && ((hr_status response =? 400) || (hr_status response =? 401)) then 401 else 503)
    else
      v ← ok_or (hr_body response) 503;
      subject ← ok_or (introspection_subject (oc_config o) now v) 401;
      v ← userinfo_groups o an subject v;
      ok_or (introspection_identity (oc_config o) now v) 401.

(** ** Sessions *)

Record Pending := MkPending { pe_state : string; pe_nonce : string; pe_created : Z }.
Record Session := MkSession { ss_subject : string; ss_groups : list string; ss_csrf : string; ss_expires : Z }.
Record Sessions := MkSessions { sn_pending : gmap string Pending; sn_active : gmap string Session }.
(** The monotonic clock in nanoseconds, and the time of day in seconds. *)
Record Clock := MkClock { ck_instant : Z; ck_unix : Z }.

Definition prune (k : Clock) (s : Sessions) : Sessions :=
  MkSessions (filter (fun e => ck_instant k - pe_created e.2 < LOGIN_TTL) (sn_pending s))
    (filter (fun e => ck_unix k < ss_expires e.2) (sn_active s)).
Definition digest (v : string) : string := hash_secret sha256 v.

Definition reject {A} (r : result unit A) : result Z A := map_err (fun _ => 401) r.

Definition session (k : Clock) (h : HeaderMap) (s : Sessions) : result Z (option Session) * Sessions :=
  match cookie h SESSION_COOKIE with
  | Err _ => (Err 401, s)
  | Ok None => (Ok None, s)
  | Ok (Some c) => let s := prune k s in (Ok (sn_active s !! digest c), s)
  end.

(** The proof a mutation needs besides the cookie. *)
Definition csrf_proof (o : Oidc) (h : HeaderMap) (s : Session) : result Z unit :=
  match secure_url parse_url (cf_redirect_url (oc_config o)) with
  | Err _ => Err 503
  | Ok redirect =>
      origin ← reject (unique_header h "origin");
      if negb (bool_decide (origin = Some (ur_origin redirect))) then Err 403
      else
        presented ← reject (unique_header h "x-sandhi-csrf");
        match presented with
        | Some v => if ct_eq (bytes v) (bytes (ss_csrf s)) then Ok tt else Err 403
        | None => Err 403
        end
  end.
Definition identity_of (o : Oidc) (k : Clock) (an : Authority) (h : HeaderMap) (mutation : bool) (found : result Z (option Session))
    : result Z Identity :=
  bearer ← reject (unique_header h "authorization");
  session ← found;
  presented ← reject (cookie h SESSION_COOKIE);
  if bool_decide (is_Some bearer) && bool_decide (is_Some presented) then Err 401
  else match bearer with
  | Some value =>
      token ← ok_or (str_strip_prefix "Bearer " value) 401;
      bearer_identity o (ck_unix k) an token
  | None =>
      s ← ok_or session 401;
      _ ← (if mutation then csrf_proof o h s else Ok tt);
      Ok (MkAuthIdentity false (ss_subject s) (ss_groups s) (ss_expires s))
  end.
Definition identity (o : Oidc) (k : Clock) (an : Authority) (h : HeaderMap) (mutation : bool) (s : Sessions)
    : result Z Identity * Sessions :=
  match unique_header h "authorization" with
  | Err _ => (Err 401, s)
  | Ok _ => let '(found, s) := session k h s in (identity_of o k an h mutation found, s)
  end.
Definition authorize (o : Oidc) (k : Clock) (an : Authority) (h : HeaderMap) (p : Permission) (mutation : bool) (s : Sessions)
    : result Z unit * Sessions :=
  let '(who, s) := identity o k an h mutation s in
  (subject ← who;
   if permits_groups (oc_config o) (ai_subject subject) (ai_groups subject) p then Ok tt else Err 403, s).

(** [login]: what the library drew, and whether the authority was discovered. *)
Record LoginRun := MkLoginRun {
  lr_permit : bool; lr_discovered : bool; lr_binding : string; lr_state : string; lr_nonce : string }.
Definition login (k : Clock) (run : LoginRun) (s : Sessions) : result Z string * Sessions :=
  if negb (lr_permit run) then (Err 503, s)
  else if negb (lr_discovered run) then (Err 503, s)
  else
    let s := prune k s in
    if (MAX_LOGINS <=? size (sn_pending s))%nat then (Err 503, s)
    else (Ok (lr_binding run),
          MkSessions (<[digest (lr_binding run) := MkPending (lr_state run) (lr_nonce run) (ck_instant k)]> (sn_pending s)) (sn_active s)).

(** What the exchange of the code ends in: the claims of an ID token the
    library verified under the nonce of the login, with its expiration and
    the identity of the access token, or the status of a refusal. *)
Record Exchange := MkExchange { ex_subject : string; ex_expiration : Z; ex_identity : result Z Identity }.
Record CallbackRun := MkCallbackRun {
  cr_permit : bool; cr_discovered : bool; cr_exchange : string -> result Z Exchange; cr_session : string; cr_csrf : string;
  cr_later : Clock }.

Definition callback_groups (c : Config) (x : Exchange) : result Z (list string * Z) :=
  if bool_decide (cf_groups c = ∅) then Ok ([], i64_max)
  else match ex_identity x with
  | Ok who => if bool_decide (ai_subject who = ex_subject x) then Ok (ai_groups who, ai_expires_at who) else Err 401
  | Err _ => Err 401
  end.
(** The session of a verified exchange. *)
Definition callback_session (c : Config) (now : Z) (csrf : string) (x : Exchange) : result Z Session :=
  '(groups, groups_expire) ← callback_groups c x;
  if negb (permits_groups c (ex_subject x) groups PRead) then Err 403
  else
    let expires := Z.min (Z.min (ex_expiration x) groups_expire)
                     (now + if bool_decide (cf_groups c = ∅) then SESSION_TTL else 120) in
    if expires <=? now then Err 401 else Ok (MkSession (ex_subject x) groups csrf expires).
(** The pending login is removed before anything about it is verified. *)
Definition take_pending (k : Clock) (h : HeaderMap) (code state : string) (s : Sessions) : result Z Pending * Sessions :=
  match cookie h LOGIN_COOKIE with
  | Ok (Some b) =>
      if (MAX_TOKEN_BYTES <? Z.of_nat (String.length code)) || (256 <? Z.of_nat (String.length state)) then (Err 401, s)
      else
        let s := prune k s in
        let taken := MkSessions (delete (digest b) (sn_pending s)) (sn_active s) in
        match sn_pending s !! digest b with
        | Some p => if ct_eq (bytes state) (bytes (pe_state p)) then (Ok p, taken) else (Err 401, taken)
        | None => (Err 401, taken)
        end
  | _ => (Err 401, s)
  end.
(** The whole callback is one step.  The code awaits the provider between
    redeeming the login and opening the session; what others do meanwhile does
    not touch the login that was taken out. *)
Definition callback (o : Oidc) (k : Clock) (h : HeaderMap) (code state : string) (run : CallbackRun) (s : Sessions)
    : result Z Session * Sessions :=
  let '(p, s) := take_pending k h code state s in
  let made :=
    p ← p;
    _ ← bail (negb (cr_permit run && cr_discovered run)) 503;
    x ← cr_exchange run (pe_nonce p);
    callback_session (oc_config o) (ck_unix (cr_later run)) (cr_csrf run) x in
  match made with
  | Err status => (Err status, s)
  | Ok made =>
      let s := prune (cr_later run) s in
      if (MAX_SESSIONS <=? size (sn_active s))%nat then (Err 503, s)
      else
        let active := match cookie h SESSION_COOKIE with Ok (Some old) => delete (digest old) (sn_active s) | _ => sn_active s end in
        (Ok made, MkSessions (sn_pending s) (<[digest (cr_session run) := made]> active))
  end.

Definition logout (o : Oidc) (k : Clock) (an : Authority) (h : HeaderMap) (s : Sessions) : result Z unit * Sessions :=
  match unique_header h "authorization" with
  | Ok (Some _) => (Err 401, s)
  | _ =>
      let '(who, s) := identity o k an h true s in
      match who with
      | Err status => (Err status, s)
      | Ok _ =>
          match cookie h SESSION_COOKIE with
          | Ok (Some v) => (Ok tt, MkSessions (sn_pending s) (delete (digest v) (sn_active s)))
          | _ => (Ok tt, s)
          end
      end
  end.

Record SessionView := MkSessionView {
  sv_subject : string; sv_role : option Role; sv_permissions : list Permission; sv_csrf : string; sv_expires_at : Z }.
Definition session_view (c : Config) (s : Session) : SessionView :=
  let b := binding c (ss_subject s) (ss_groups s) in
  MkSessionView (ss_subject s) (b ≫= bd_role)
    (List.filter (permits_groups c (ss_subject s) (ss_groups s)) [PRead; POperate; PAdmin]
     ++ match b with Some b => if bd_allow_diagnostics b then [PDiagnostics] else [] | None => [] end)
    (ss_csrf s) (ss_expires s).
Definition session_status (o : Oidc) (k : Clock) (h : HeaderMap) (s : Sessions) : result Z (option SessionView) * Sessions :=
  let '(found, s) := session k h s in
  (match found with Ok v => Ok (session_view (oc_config o) <$> v) | Err status => Err status end, s).

(** ** Inference *)

Definition role_name (r : Role) : string := match r with RViewer => "viewer" | ROperator => "operator" | RAdmin => "admin" end.
(** The names in the order of a [BTreeSet]. *)
Definition directory_roles (c : Config) (who : Identity) : list string :=
  let bindings := option_list (cf_subjects c !! ai_subject who) ++ omap (fun g => cf_groups c !! g) (ai_groups who) in
  role_name <$> List.filter (fun r => existsb (fun b => bool_decide (bd_role b = Some r)) bindings) [RAdmin; ROperator; RViewer].
Definition policy_identity (o : Oidc) (who : Identity) (directory : bool) : Policy.Identity :=
  MkIdentity (Some (cf_issuer (oc_config o))) (Some (ai_subject who)) (if directory then ai_groups who else [])
    (if directory then directory_roles (oc_config o) who else []) (directory && ai_groups_known who).

Definition credential_headers : list string := ["authorization"; "x-api-key"; "x-goog-api-key"].
Fixpoint count_credentials (names : list string) (h : HeaderMap) : result unit Z :=
  match names with
  | [] => Ok 0
  | name :: names =>
      v ← unique_header h name; n ← count_credentials names h; Ok (n + if bool_decide (is_Some v) then 1 else 0)
  end.

Definition inference_with_identity (o : Oidc) (now : Z) (an : Authority) (token : string) (h : HeaderMap)
    : result Z (VirtualKey * Policy.Identity) :=
  credentials ← reject (count_credentials credential_headers h);
  _ ← bail (1 <? credentials) 401;
  c ← reject (cookie h SESSION_COOKIE);
  _ ← bail (bool_decide (is_Some c)) 401;
  subject ← bearer_identity o now an token;
  selector ← reject (unique_header h "x-sandhi-grant");
  grant ← ok_or (grant_groups (oc_config o) (ai_subject subject) (ai_groups subject) selector) 403;
  Ok (grant, policy_identity o subject true).

(** ** Delegated keys *)

Record Delegation := MkDelegation {
  de_issuer : string; de_identity : Identity; de_grant : string; de_subject_key : bool }.
Record DelegateRequest := MkDelegateRequest { dr_grant : string; dr_models : list string; dr_ttl_seconds : Z }.

(** [serde_json] on a delegation, and the formatting of an instant. *)
Context (delegation_text : Delegation -> string) (parse_delegation : string -> option Delegation)
  (format_rfc3339 : Z -> option string).

Definition absent {A} (r : result unit (option A)) : bool := match r with Ok None => true | _ => false end.
(** The token of a caller who presents nothing else. *)
Definition delegation_token (h : HeaderMap) : option string :=
  if negb (absent (cookie h SESSION_COOKIE) && absent (unique_header h "x-api-key") && absent (unique_header h "x-goog-api-key"))
  then None
  else match unique_header h "authorization" with
  | Ok (Some bearer) =>
      token ← str_strip_prefix "Bearer " bearer;
      if starts_with (bytes "vk_") (bytes token) then None else Some token
  | _ => None
  end.
Definition model_refused (grant : VirtualKey) (m : string) : bool :=
  bool_decide (m = "") || (256 <? Z.of_nat (String.length m)) || bool_decide (44 ∈ bytes m) || negb (permits_model m grant).

(** The mint request of a delegation with its metadata; [now] is when the
    caller is verified, [later] when the lifetime is computed. *)
Definition plan_delegation (o : Oidc) (now later : Z) (an : Authority) (token : string) (body : DelegateRequest)
    : result Z (VirtualKey * Identity * bool) :=
  who ← bearer_identity o now an token;
  _ ← bail (dr_ttl_seconds body =? 0) 400;
  let subject_key := 120 <? dr_ttl_seconds body in
  _ ← bail (subject_key && (cf_max_subject_key_ttl_seconds (oc_config o) <? dr_ttl_seconds body)) 403;
  let groups := if subject_key then [] else ai_groups who in
  grant ← ok_or (grant_groups (oc_config o) (ai_subject who) groups (Some (dr_grant body))) 403;
  _ ← bail ((128 <? Z.of_nat (length (dr_models body))) || existsb (model_refused grant) (dr_models body)) 403;
  let requested := later + dr_ttl_seconds body in
  Ok (grant, MkAuthIdentity (ai_groups_known who) (ai_subject who) groups
               (if subject_key then requested else Z.min (ai_expires_at who) requested), subject_key).

(** [writer_free]: whether the single writer of the vault is free. *)
Definition delegate_key (o : Oidc) (now later : Z) (an : Authority) (h : HeaderMap) (body : DelegateRequest) (writer_free : bool)
    (run : MintRun) (p : KeyPlane) : result Z (VirtualKeyRecord * string) * KeyPlane :=
  if negb (cf_allow_delegated_keys (oc_config o)) then (Err 403, p)
  else match delegation_token h with
  | None => (Err 401, p)
  | Some token =>
      if negb (kp_running p) then (Err 503, p)
      else match plan_delegation o now later an token body with
      | Err status => (Err status, p)
      | Ok (grant, who, subject_key) =>
          match kp_vkeys p with
          | None => (Err 503, p)
          | Some vs =>
              if ai_expires_at who <=? later then (Err 401, p)
              else match format_rfc3339 (ai_expires_at who) with
              | None => (Err 503, p)
              | Some expires =>
                  let metadata := delegation_text (MkDelegation (cf_issuer (oc_config o)) who (dr_grant body) subject_key) in
                  let req := MkMint (vk_subject_id grant) (vk_group_id grant) (vk_upstream_ref grant)
                               (match dr_models body with [] => default [] (vk_models grant) | models => models end)
                               (vk_budget_scope grant) (Some expires) (vk_rate_limit_per_min grant) in
                  if negb writer_free then (Err 503, p)
                  else match mint_delegated sha256 run req metadata vs with
                  | (Some minted, vs) => (Ok minted, set_keys (Some vs) (kp_keys p) p)
                  | (None, vs) => (Err 503, set_keys (Some vs) (kp_keys p) p)
                  end
              end
          end
      end
  end.

Definition min_rate (a b : option Z) : option Z :=
  match a, b with Some a, Some b => Some (Z.min a b) | Some a, None => Some a | None, b => b end.

(** The stored key and its metadata; [read_ok]: whether the file answers. *)
Definition find_delegation (token : string) (read_ok : bool) (file : option VirtualKeyStore)
    : result Z (VirtualKeyRecord * string) :=
  vs ← ok_or file 503;
  _ ← bail (negb read_ok) 503;
  record ← ok_or (find_by_secret sha256 token vs) 401;
  metadata ← ok_or (delegation (vr_id record) vs) 401;
  Ok (record, metadata).

Definition attenuated (record : VirtualKeyRecord) (grant : VirtualKey) (models : list string) : VirtualKey :=
  MkKey (vr_id record) (vk_subject_id grant) (vk_group_id grant) (vk_upstream_ref grant) (Some models)
    (Some (budget_scope grant)) (vr_expires_at record)
    (min_rate (vk_rate_limit_per_min grant) (vr_rate_limit_per_min record)).

Definition delegated_key_with_identity (o : Oidc) (now : Z) (h : HeaderMap) (token : string) (read_ok : bool)
    (file : option VirtualKeyStore) : result Z (VirtualKey * string * Policy.Identity) :=
  let c := oc_config o in
  _ ← bail (negb (cf_allow_delegated_keys c)) 401;
  presented ← reject (cookie h SESSION_COOKIE);
  _ ← bail (bool_decide (is_Some presented)) 401;
  credentials ← reject (count_credentials credential_headers h);
  _ ← bail (negb (credentials =? 1)) 401;
  '(record, metadata) ← find_delegation token read_ok file;
  d ← ok_or (parse_delegation metadata) 401;
  let who := de_identity d in
  _ ← bail (negb (bool_decide (de_issuer d = cf_issuer c)) || (ai_expires_at who <=? now)
            || negb (bool_decide (vr_subject_id record = Some (ai_subject who)))) 401;
  _ ← bail (de_subject_key d && ((cf_max_subject_key_ttl_seconds c =? 0) || negb (bool_decide (ai_groups who = [])))) 403;
  grant ← ok_or (grant_groups c (ai_subject who) (ai_groups who) (Some (de_grant d))) 403;
  _ ← bail (negb (bool_decide (vk_upstream_ref grant = vr_upstream_ref record)) || negb (bool_decide (vk_group_id grant = vr_group_id record))
            || negb (bool_decide (vk_budget_scope grant = vr_budget_scope record))) 403;
  let models := List.filter (fun m => permits_model m grant) (model_list record) in
  _ ← bail (bool_decide (models = [])) 403;
  Ok (attenuated record grant models, vk_id grant, policy_identity o who (negb (de_subject_key d))).

(** [resolve_virtual_key] under single sign-on. *)
Definition resolve_with_oidc (o : Oidc) (now : Z) (an : Authority) (token : string) (h : HeaderMap) (read_ok : bool)
    (file : option VirtualKeyStore) : VirtualKeyResolution :=
  if starts_with (bytes "vk_") (bytes token) then
    match delegated_key_with_identity o now h token read_ok file with
    | Ok (grant, rate_identity, identity) => Found grant rate_identity identity
    | Err status => Denied status
    end
  else match inference_with_identity o now an token h with
  | Ok (grant, identity) => Found grant (vk_id grant) identity
  | Err status => Denied status
  end.
End Auth.
