(* ===== verification/AuthProps.v ===== *)
(** What single sign-on grants: the authority of a subject is the union of
    what it and its groups were given, a delegated key never exceeds the
    current grant, and a session comes from one verified login. *)

From S2P Require Import Prelude Text Headers Json Sql Attempt Policy Keys KeysProps Auth.

(** ** Subjects and groups *)

Section Bindings.
Context (c : Config).
Implicit Types (acc a b src : Binding) (gs : list string).

Definition source (subject : string) gs src : Prop :=
  src = default binding_default (cf_subjects c !! subject) \/ src ∈ omap (fun n => cf_groups c !! n) gs.
Definition binding_permits src (p : Permission) : Prop :=
  (exists r, bd_role src = Some r /\ permits r p = true) \/ (p = PDiagnostics /\ bd_allow_diagnostics src = true).
Definition conflict (x y : Binding) : Prop :=
  exists name g h, bd_grants x !! name = Some g /\ bd_grants y !! name = Some h /\ g <> h.

Lemma agree_spec x y : grants_agree (bd_grants x) (bd_grants y) <-> ~ conflict x y.
Proof.
  unfold grants_agree, map_Forall. split.
  - intros H (name & g & h & Hx & Hy & Hne). specialize (H _ _ Hy). by rewrite Hx in H.
  - intros H name h Hy. destruct (bd_grants x !! name) as [g|] eqn:Hx; [|done].
    destruct (decide (g = h)) as [|Hne]; [done|]. exfalso. apply H. by exists name, g, h.
Qed.

Lemma permits_higher old new p :
  match higher_role old new with Some r => permits r p | None => false end
  = match old with Some r => permits r p | None => false end || match new with Some r => permits r p | None => false end.
Proof. by destruct old as [[]|], new as [[]|], p. Qed.

Lemma binding_permits_iff src p :
  binding_permits src p <->
  match bd_role src with Some r => permits r p | None => false end || (bool_decide (p = PDiagnostics) && bd_allow_diagnostics src) = true.
Proof.
  unfold binding_permits. rewrite orb_true_iff, andb_true_iff, bool_decide_eq_true. split.
  - intros [(r & -> & Hp)|H]; [by left|by right].
  - intros [H|H]; [|by right]. left. destruct (bd_role src) as [r|]; [by exists r|done].
Qed.

(** One merge: the union of both, or a conflict. *)
Lemma merge_binding_spec acc b :
  match merge_binding acc b with
  | Some m =>
      ~ conflict acc b
      /\ (forall p, binding_permits m p <-> binding_permits acc p \/ binding_permits b p)
      /\ (forall name g, bd_grants m !! name = Some g <-> bd_grants acc !! name = Some g \/ bd_grants b !! name = Some g)
  | None => conflict acc b
  end.
Proof.
  unfold merge_binding. case_bool_decide as Ha.
  - apply agree_spec in Ha as Hc. split_and!; [done| |].
    + intros p. rewrite !binding_permits_iff. cbn [bd_role bd_allow_diagnostics]. rewrite permits_higher, !orb_true_iff, !andb_true_iff, orb_true_iff. tauto.
    + intros name g. cbn [bd_grants]. rewrite lookup_union_Some_raw. split; [naive_solver|]. intros [Hg|Hg]; [|by left].
      destruct (bd_grants b !! name) as [h|] eqn:Hb; [left|by right]. specialize (Ha _ _ Hb). cbn in Ha. rewrite Hg in Ha. by subst.
  - rewrite agree_spec in Ha. unfold conflict in *. destruct (decide (map_Forall (fun name g => match bd_grants acc !! name with Some o => o = g | None => True end) (bd_grants b))) as [Hd|Hd].
    + exfalso. apply Ha. by apply agree_spec.
    + apply map_not_Forall in Hd as (name & h & Hb & Hn); [|intros n x; destruct (bd_grants acc !! n); apply _].
      destruct (bd_grants acc !! name) as [g|] eqn:Hacc; [|done]. by exists name, g, h.
Qed.

Lemma merged_source {Q : Binding -> Prop} m x y l : (Q m <-> Q x \/ Q y) ->
  (exists z, (z = m \/ z ∈ l) /\ Q z) <-> (exists z, (z = x \/ z ∈ y :: l) /\ Q z).
Proof.
  intros Hm. split.
  - intros (z & [->|Hz] & Hq); [apply Hm in Hq as [Hq|Hq]; eexists; (split; [|exact Hq]); set_solver|exists z; set_solver].
  - intros (z & [->|[->|Hz]%elem_of_cons] & Hq); [exists m; tauto..|exists z; set_solver].
Qed.

Lemma merge_groups_spec gs : forall acc, let src x := x = acc \/ x ∈ omap (fun n => cf_groups c !! n) gs in
  match merge_groups c gs acc with
  | Some m =>
      (forall p, binding_permits m p <-> exists x, src x /\ binding_permits x p)
      /\ (forall name g, bd_grants m !! name = Some g <-> exists x, src x /\ bd_grants x !! name = Some g)
  | None => exists x y, src x /\ src y /\ conflict x y
  end.
Proof.
  induction gs as [|n gs IH]; intros acc; cbn [merge_groups omap list_omap].
  - split; intros *; (split; [intros H; exists acc; split; [by left|done]|]); by intros (x & [->|Hx] & H); [|apply not_elem_of_nil in Hx].
  - destruct (cf_groups c !! n) as [b|] eqn:Hb; [|exact (IH acc)].
    pose proof (merge_binding_spec acc b) as Hm. destruct (merge_binding acc b) as [m|]; cbn [mbind option_bind];
      [|exists acc, b; split_and!; [by left|right; by left|done]].
    specialize (IH m). cbv zeta in IH. destruct Hm as (_ & Hperm & Hgr). destruct (merge_groups c gs m) as [r|].
    + destruct IH as [IH1 IH2]. split; intros *; [rewrite IH1|rewrite IH2]; by apply merged_source.
    + destruct IH as (x & y & Hx & Hy & name & g & h & Hg & Hh & Hne).
      assert (Hlift : forall k, (exists z, (z = m \/ z ∈ omap (fun n => cf_groups c !! n) gs) /\ bd_grants z !! name = Some k) ->
        exists z, (z = acc \/ z ∈ b :: omap (fun n => cf_groups c !! n) gs) /\ bd_grants z !! name = Some k).
      { intros k. by apply merged_source. }
      destruct (Hlift g) as (x' & Hx' & Hg'); [by exists x|]. destruct (Hlift h) as (y' & Hy' & Hh'); [by exists y|].
      exists x', y'. split_and!; [done|done|]. by exists name, g, h.
Qed.

Lemma binding_spec subject gs :
  match binding c subject gs with
  | Some m =>
      (forall p, binding_permits m p <-> exists x, source subject gs x /\ binding_permits x p)
      /\ (forall name g, bd_grants m !! name = Some g <-> exists x, source subject gs x /\ bd_grants x !! name = Some g)
  | None => exists x y, source subject gs x /\ source subject gs y /\ conflict x y
  end.
Proof. apply merge_groups_spec. Qed.

Lemma binding_conflict_free subject gs m x y : binding c subject gs = Some m ->
  source subject gs x -> source subject gs y -> ~ conflict x y.
Proof.
  intros Hb Hx Hy (name & g & h & Hg & Hh & Hne). pose proof (binding_spec subject gs) as Hs. rewrite Hb in Hs.
  destruct Hs as [_ Hs]. assert (H1 : bd_grants m !! name = Some g) by (apply Hs; by exists x).
  assert (H2 : bd_grants m !! name = Some h) by (apply Hs; by exists y). congruence.
Qed.

(** A subject may do what it or one of its groups may do and nothing else,
    and holds exactly the grants they were given; when two of them give
    different grants the same name, everything is refused.  So neither the
    order nor the repetition of groups ever matters. *)
Theorem authority_is_the_union_of_groups subject gs :
  (forall p, permits_groups c subject gs p = true <->
     (exists x, source subject gs x /\ binding_permits x p)
     /\ (forall x y, source subject gs x -> source subject gs y -> ~ conflict x y))
  /\ (forall sha256 identity_json name k, grant_groups sha256 identity_json c subject gs (Some name) = Some k <->
       (exists x g, source subject gs x /\ bd_grants x !! name = Some g /\ k = granted_key sha256 identity_json c subject name g)
       /\ (forall x y, source subject gs x -> source subject gs y -> ~ conflict x y)).
Proof.
  pose proof (binding_spec subject gs) as Hs. unfold permits_groups, grant_groups.
  destruct (binding c subject gs) as [m|] eqn:Hb.
  - pose proof (fun x y => binding_conflict_free subject gs m x y Hb) as Hc. destruct Hs as [Hp Hg]. split.
    + intros p. rewrite <- binding_permits_iff, Hp. tauto.
    + intros sha js name k. cbn [mbind option_bind]. rewrite fmap_Some. setoid_rewrite Hg. naive_solver.
  - destruct Hs as (x & y & Hx & Hy & Hc). split; intros *; (split; [done|]); intros [_ H]; by destruct (H x y).
Qed.
(** Under a validated configuration every grant restricts its key: the key
    names an upstream and permits only listed models. *)
Lemma validated_grants_are_restricted parse_url sha256 identity_json subject gs name k : validate parse_url c = true ->
  grant_groups sha256 identity_json c subject gs (Some name) = Some k ->
  vk_upstream_ref k <> "" /\ exists m l, vk_models k = Some (m :: l).
Proof.
  intros Hv Hk. apply authority_is_the_union_of_groups in Hk as ((x & g & Hx & Hg & ->) & _).
  assert (Hok : exists s, binding_ok s x = true \/ x = binding_default).
  { unfold validate in Hv. destruct (31536000 <? _); [done|]. destruct (secure_url _ _); [|done]. destruct (secure_url _ _); [|done].
    apply andb_true_iff in Hv as [_ Hv]. rewrite forallb_forall in Hv.
    assert (Hin : forall s b, cf_subjects c !! s = Some b \/ cf_groups c !! s = Some b -> binding_ok s b = true).
    { intros s b Hb. apply (Hv (s, b)), list_elem_of_In, elem_of_app. rewrite !elem_of_map_to_list. tauto. }
    destruct Hx as [->|(n & Hn & Hx)%list_elem_of_omap]; [|exists n; left; by apply Hin; right].
    destruct (cf_subjects c !! subject) as [b|] eqn:Hs; [exists subject; left; by apply Hin; left|exists ""; by right]. }
  destruct Hok as [s [Hok| ->]]; [|unfold binding_default in Hg; cbn in Hg; by apply lookup_empty_Some in Hg]. apply andb_true_iff in Hok as [_ Hok].
  rewrite forallb_forall in Hok. assert (Hgr : grant_ok name g = true).
  { by apply (Hok (name, g)), list_elem_of_In, elem_of_map_to_list. }
  unfold grant_ok in Hgr. apply negb_true_iff in Hgr. rewrite !orb_false_iff in Hgr.
  destruct Hgr as (((_ & Hu%bool_decide_eq_false) & Hm%bool_decide_eq_false) & _). split; [done|]. cbn.
  destruct (gr_models g) as [|m l]; [done|]. by exists m, l.
Qed.
End Bindings.

(** ** Delegated keys *)

Section Delegated.
Context (parse_url : string -> option Url) (sha256 : list Z -> list Z) (ct_eq : list Z -> list Z -> bool).
Context (identity_json : string -> string -> string -> string).
Context (delegation_text : Delegation -> string) (parse_delegation : string -> option Delegation)
  (format_rfc3339 : Z -> option string).
Context (demo : list VirtualKey).

(** The configuration may change between processes, so it is part of an
    event. *)
Inductive AuthEvent :=
| OfKeys (e : KeyEvent)
| Delegate (o : Oidc) (now later : Z) (an : Authority) (h : HeaderMap) (body : DelegateRequest) (writer_free : bool) (run : MintRun).

Definition auth_step (e : AuthEvent) (p : KeyPlane) : KeyPlane :=
  match e with
  | OfKeys e => (key_step sha256 ct_eq demo e p).2
  | Delegate o now later an h body writer_free run =>
      (delegate_key parse_url sha256 identity_json delegation_text format_rfc3339 o now later an h body writer_free run p).2
  end.
Definition auth_run (es : list AuthEvent) (p : KeyPlane) : KeyPlane := foldl (fun p e => auth_step e p) p es.

Notation plan := (plan_delegation parse_url sha256 identity_json).

(** Metadata in the file was planned by a delegation of the history. *)
Definition planned (es : list AuthEvent) (text : string) : Prop :=
  exists o now later an h body writer_free run token grant who subject_key,
    Delegate o now later an h body writer_free run ∈ es
    /\ plan o now later an token body = Ok (grant, who, subject_key)
    /\ text = delegation_text (MkDelegation (cf_issuer (oc_config o)) who (dr_grant body) subject_key).
Definition delegations_planned (es : list AuthEvent) (file : option VirtualKeyStore) : Prop :=
  forall vs id text, file = Some vs -> vs_delegations vs !! id = Some text -> planned es text.

Lemma planned_mono es es' text : es ⊆ es' -> planned es text -> planned es' text.
Proof.
  intros Hsub (o & now & later & an & h & body & wf & run & tok & grant & who & sk & Hin & Hp).
  exists o, now, later, an, h, body, wf, run, tok, grant, who, sk. split; [by apply Hsub|done].
Qed.

Lemma mint_keeps_delegations run req vs : vs_delegations (mint sha256 run req vs).2 = vs_delegations vs.
Proof. unfold mint, mint_inner. destruct (negb _); [done|]. destruct (_ || _); [done|]. by destruct (mr_commit run). Qed.
Lemma mint_delegated_adds run req text vs id t : vs_delegations (mint_delegated sha256 run req text vs).2 !! id = Some t ->
  vs_delegations vs !! id = Some t \/ t = text.
Proof.
  unfold mint_delegated, mint_inner. destruct (negb (mr_begin_ok run)); [by left|]. destruct (_ || hash_taken _ _); [by left|].
  destruct (negb _ || _); [by left|]. destruct (mr_commit run); cbn; [|by left|];
    intros [[_ <-]|[_ H]]%lookup_insert_Some; auto.
Qed.
Lemma revoke_keeps_delegations now id vs : vs_delegations (vs_revoke now id vs).2 = vs_delegations vs.
Proof. unfold vs_revoke. destruct (vs_rows vs !! id) as [r|]; [|done]. by destruct (active r). Qed.

Lemma key_step_keeps_delegations e p vs' :
  kp_vkeys (key_step sha256 ct_eq demo e p).2 = Some vs' -> exists vs, kp_vkeys p = Some vs /\ vs_delegations vs = vs_delegations vs'.
Proof.
  destruct e as [h req run|h id now read_ok write_ok|list_ok|]; cbn [key_step].
  - pose proof (share_cases sha256 ct_eq h req run p) as Hc. destruct (share_key _ _ _ _ _ p) as [o p'].
    destruct Hc as [[_ ->]|(vs & vs1 & m & Hvs & Hm & Hc)]; cbn; [eauto|]. intros H. exists vs. split; [done|].
    pose proof (mint_keeps_delegations run req vs) as Hd. rewrite Hm in Hd. cbn in Hd.
    destruct m as [[r s]|]; destruct Hc as [_ ->]; cbn in H; injection H as <-; done.
  - pose proof (revoke_cases ct_eq h id now read_ok write_ok p) as Hc. destruct (revoke_virtual_key _ _ _ _ _ _ p) as [o p'].
    destruct Hc as [[_ ->]|(vs & vs1 & b & Hvs & Hr & _ & ->)]; cbn; [eauto|]. intros [= <-]. exists vs. split; [done|].
    pose proof (revoke_keeps_delegations now id vs) as Hd. rewrite Hr in Hd. cbn in Hd. by destruct write_ok.
  - cbn. eauto.
  - cbn. eauto.
Qed.

Lemma delegate_cases o now later an h body wf run p :
  let '(r, p') := delegate_key parse_url sha256 identity_json delegation_text format_rfc3339 o now later an h body wf run p in
  p' = p \/ exists vs token grant who sk req, kp_vkeys p = Some vs /\ plan o now later an token body = Ok (grant, who, sk)
    /\ kp_vkeys p' = Some (mint_delegated sha256 run req
         (delegation_text (MkDelegation (cf_issuer (oc_config o)) who (dr_grant body) sk)) vs).2.
Proof.
  unfold delegate_key. destruct (negb (cf_allow_delegated_keys _)); [by left|]. destruct (delegation_token h) as [token|]; [|by left].
  destruct (negb (kp_running p)); [by left|]. destruct (plan_delegation _ _ _ _ _ _ _ _ _) as [[[grant who] sk]|] eqn:Hp; [|by left].
  destruct (kp_vkeys p) as [vs|]; [|by left]. destruct (ai_expires_at who <=? later); [by left|]. destruct (format_rfc3339 (ai_expires_at who)) as [expires|]; [|by left].
  destruct wf; cbn [negb]; [|by left].
  match goal with |- context [mint_delegated _ _ ?r _ _] => set (req := r) end.
  destruct (mint_delegated _ _ _ _ _) as [[minted|] vs'] eqn:Hm; right; exists vs, token, grant, who, sk, req; split_and!; try done; by rewrite Hm.
Qed.

Lemma run_delegations_planned es p : delegations_planned [] (kp_vkeys p) -> delegations_planned es (kp_vkeys (auth_run es p)).
Proof.
  intros Hp. induction es as [|e es IH] using rev_ind; [done|]. unfold auth_run. rewrite foldl_app. cbn [foldl]. fold (auth_run es p).
  intros vs' id text Hvs' Ht. destruct e as [e|o now later an h body wf run]; cbn [auth_step] in Hvs'.
  - apply key_step_keeps_delegations in Hvs' as (vs & Hvs & Hd). rewrite <- Hd in Ht.
    eapply planned_mono; [|by eapply IH]. set_solver.
  - pose proof (delegate_cases o now later an h body wf run (auth_run es p)) as Hc.
    destruct (delegate_key _ _ _ _ _ _ _ _ _ _ _ _ _ _) as [r p']. cbn in Hvs'.
    destruct Hc as [->|(vs & token & grant & who & sk & req & Hvs & Hplan & Hk)].
    + eapply planned_mono; [|by eapply IH]. set_solver.
    + rewrite Hk in Hvs'. injection Hvs' as <-. apply mint_delegated_adds in Ht as [Ht| ->].
      * eapply planned_mono; [|by eapply IH]. set_solver.
      * exists o, now, later, an, h, body, wf, run, token, grant, who, sk. split_and!; [set_solver|done|done].
Qed.

(** A key that may do no more than another: the same principal, upstream and
    budget, fewer models and no higher rate. *)
Record within (k g : VirtualKey) : Prop := {
  wi_subject : vk_subject_id k = vk_subject_id g;
  wi_group : vk_group_id k = vk_group_id g;
  wi_upstream : vk_upstream_ref k = vk_upstream_ref g;
  wi_budget : budget_scope k = budget_scope g;
  wi_models : forall m, permits_model m k = true -> permits_model m g = true;
  wi_rate : forall r, vk_rate_limit_per_min g = Some r -> exists r', vk_rate_limit_per_min k = Some r' /\ r' <= r }.

Lemma same_name_trans a b c : same_name a b = true -> same_name b c = true -> same_name a c = true.
Proof. unfold same_name, eq_ignore_ascii_case. rewrite !bool_decide_eq_true. congruence. Qed.
Lemma permits_same_name m n k : same_name m n = true -> permits_model m k = true -> permits_model n k = true.
Proof.
  unfold permits_model. destruct (vk_models k) as [[|x l]|]; [done| |done]. intros Hmn [y [Hy Hym]]%existsb_exists.
  apply existsb_exists. exists y. split; [done|]. by eapply same_name_trans.
Qed.

Lemma attenuated_within record grant :
  let models := List.filter (fun m => permits_model m grant) (model_list record) in
  models <> [] -> within (attenuated record grant models) grant.
Proof.
  intros models Hne. split; cbn; try done.
  - intros m. unfold permits_model at 1. cbn. destruct models as [|x l] eqn:Hm; [done|]. rewrite <- Hm.
    intros (y & Hy & Hym)%existsb_exists. apply filter_In in Hy as [_ Hy]. by eapply permits_same_name.
  - intros r Hr. rewrite Hr. destruct (vr_rate_limit_per_min record) as [q|]; cbn; eexists; (split; [done|]); lia.
Qed.

Lemma find_delegation_spec token read_ok file record text :
  find_delegation sha256 token read_ok file = Ok (record, text) ->
  exists vs, file = Some vs /\ active record = true /\ vr_secret_hash record = hash_secret sha256 token
    /\ (exists id, vs_rows vs !! id = Some record) /\ vs_delegations vs !! vr_id record = Some text.
Proof.
  unfold find_delegation. intros H. destruct file as [vs|]; [|done]. cbn in H. destruct read_ok; cbn in H; [|done].
  destruct (find_by_secret sha256 token vs) as [r|] eqn:Hr; [|done]. cbn in H.
  destruct (delegation (vr_id r) vs) as [d|] eqn:Hd; [|done]. injection H as <- <-. exists vs. split; [done|].
  unfold find_by_secret, find_by_hash in Hr. apply head_Some_elem_of, list_elem_of_In, filter_In in Hr as [Hin Hc].
  apply list_elem_of_In, row_in in Hin. apply andb_true_iff in Hc as [Hh Ha]. apply bool_decide_eq_true in Hh.
  unfold delegation in Hd. destruct (vs_delegations vs !! vr_id r); [|done]. cbn in Hd.
  destruct (vs_rows vs !! vr_id r) as [q|]; [|done]. cbn in Hd. destruct (active q); [|done]. injection Hd as ->. done.
Qed.

(** What a plan says of the identity it stores. *)
Lemma plan_spec o now later an token body grant who subject_key : plan o now later an token body = Ok (grant, who, subject_key) ->
  exists verified, bearer_identity parse_url o now an token = Ok verified /\ ai_subject who = ai_subject verified
    /\ (subject_key = true -> ai_groups who = [] /\ dr_ttl_seconds body <= cf_max_subject_key_ttl_seconds (oc_config o)
          /\ ai_expires_at who = later + dr_ttl_seconds body)
    /\ (subject_key = false -> ai_groups who = ai_groups verified /\ ai_expires_at who <= ai_expires_at verified
          /\ ai_expires_at who <= later + 120).
Proof.
  unfold plan_delegation. intros (v & Hv & (? & _ & (? & Hmax & (g & _ & (? & _ & H)%result_bind_ok)%result_bind_ok)%result_bind_ok)%result_bind_ok)%result_bind_ok.
  injection H as <- <- <-. exists v. cbn. destruct (Z.ltb_spec 120 (dr_ttl_seconds body)); cbn in Hmax |- *.
  - split_and!; [done|done| |done]. intros _. destruct (Z.ltb_spec (cf_max_subject_key_ttl_seconds (oc_config o)) (dr_ttl_seconds body)); [done|].
    done.
  - split_and!; [done|done|done|]. intros _. split; [done|lia].
Qed.
Notation delegated_key := (delegated_key_with_identity sha256 identity_json parse_delegation).

(** What an accepted delegated key passed. *)
Lemma delegated_key_spec o now h token read_ok file k rate who :
  delegated_key o now h token read_ok file = Ok (k, rate, who) ->
  exists record text d grant,
    find_delegation sha256 token read_ok file = Ok (record, text) /\ parse_delegation text = Some d
    /\ de_issuer d = cf_issuer (oc_config o) /\ now < ai_expires_at (de_identity d)
    /\ grant_groups sha256 identity_json (oc_config o) (ai_subject (de_identity d)) (ai_groups (de_identity d)) (Some (de_grant d)) = Some grant
    /\ within k grant /\ rate = vk_id grant /\ vk_id k = vr_id record.
Proof.
  unfold delegated_key_with_identity.
  intros (? & _ & (? & _ & (? & _ & (? & _ & (? & _ & ([record text] & Hf & H)%result_bind_ok)%result_bind_ok)%result_bind_ok)%result_bind_ok)%result_bind_ok)%result_bind_ok.
  apply result_bind_ok in H as (d & Hd & (? & Hb & (? & _ & (grant & Hg & (? & _ & (? & Hm & H)%result_bind_ok)%result_bind_ok)%result_bind_ok)%result_bind_ok)%result_bind_ok).
  apply ok_or_ok in Hd, Hg. exists record, text, d, grant. unfold bail in Hb, Hm.
  destruct (bool_decide (de_issuer d = _)) eqn:Hi; [|done]. apply bool_decide_eq_true in Hi. cbn [negb orb] in Hb.
  destruct (Z.leb_spec (ai_expires_at (de_identity d)) now); [done|]. case_bool_decide as Hne; [done|]. injection H as <- <- _.
  split_and!; try done. by apply attenuated_within.
Qed.

Lemma first_process_planned tok ups vault : delegations_planned [] (kp_vkeys (first_process demo tok ups vault)).
Proof. intros vs id text [= <-]. cbn. by rewrite lookup_empty. Qed.

(** C12: A delegated key never outgrows its owner.  After any history of
    delegations, shares, revocations and restarts, under whatever
    configurations, a key that is accepted now was delegated to a caller the
    authority verified; it does no more than what the configuration in
    force now grants that subject under the delegated name, its limits are
    accounted to that grant, and group membership counts for two minutes
    and no longer than the token it was read from. *)
Theorem delegated_keys_stay_within_grants o now h token read_ok k rate who es tok ups vault :
  (forall d, parse_delegation (delegation_text d) = Some d) ->
  delegated_key o now h token read_ok (kp_vkeys (auth_run es (first_process demo tok ups vault))) = Ok (k, rate, who) ->
  exists o' n later an h' body writer_free run caller verified groups grant,
    Delegate o' n later an h' body writer_free run ∈ es
    /\ bearer_identity parse_url o' n an caller = Ok verified /\ cf_issuer (oc_config o') = cf_issuer (oc_config o)
    /\ grant_groups sha256 identity_json (oc_config o) (ai_subject verified) groups (Some (dr_grant body)) = Some grant
    /\ within k grant /\ rate = vk_id grant
    /\ (groups = [] /\ now < later + dr_ttl_seconds body /\ dr_ttl_seconds body <= cf_max_subject_key_ttl_seconds (oc_config o')
        \/ groups = ai_groups verified /\ now < later + 120 /\ now < ai_expires_at verified).
Proof.
  intros Hcodec (record & text & d & grant & Hf & Hd & Hi & Hnow & Hg & Hw & Hr & _)%delegated_key_spec.
  apply find_delegation_spec in Hf as (vs & Hvs & _ & _ & _ & Ht).
  destruct (run_delegations_planned es _ (first_process_planned tok ups vault) _ _ _ Hvs Ht)
    as (o' & n & later & an & h' & body & wf & run & caller & g & w & sk & Hin & Hplan & ->).
  rewrite Hcodec in Hd. injection Hd as <-. cbn in Hi, Hnow, Hg. apply plan_spec in Hplan as (v & Hv & Hs & Hsk & Hgr).
  rewrite Hs in Hg. exists o', n, later, an, h', body, wf, run, caller, v, (ai_groups w), grant. split_and!; try done.
  destruct sk.
  - left. destruct (Hsk eq_refl) as (Hnil & Hle & He). split_and!; [done|lia|done].
  - right. destruct (Hgr eq_refl) as (Hnil & Hle & He). split_and!; [done|lia|lia].
Qed.
End Delegated.

(** ** Sessions *)

Section SessionHistories.
Context (parse_url : string -> option Url) (sha256 : list Z -> list Z) (ct_eq : list Z -> list Z -> bool).
Notation digest := (digest sha256).

Inductive SessionEvent :=
| Login (k : Clock) (run : LoginRun)
| Callback (o : Oidc) (k : Clock) (h : HeaderMap) (code state : string) (run : CallbackRun)
| Logout (o : Oidc) (k : Clock) (an : Authority) (h : HeaderMap)
| Lookup (k : Clock) (h : HeaderMap).

Definition session_step (e : SessionEvent) (s : Sessions) : Sessions :=
  match e with
  | Login k run => (login sha256 k run s).2
  | Callback o k h code state run => (callback sha256 ct_eq o k h code state run s).2
  | Logout o k an h => (logout parse_url sha256 ct_eq o k an h s).2
  | Lookup k h => (session sha256 k h s).2
  end.
Definition session_run (es : list SessionEvent) : Sessions := foldl (fun s e => session_step e s) (MkSessions ∅ ∅) es.

(** The event takes the pending login of that cookie. *)
Definition takes (d : string) (e : SessionEvent) : Prop :=
  match e with
  | Callback _ _ h code state _ =>
      (exists b, cookie h LOGIN_COOKIE = Ok (Some b) /\ digest b = d)
      /\ Z.of_nat (String.length code) <= MAX_TOKEN_BYTES /\ Z.of_nat (String.length state) <= 256
  | _ => False
  end.

(** A pending login was started by a login that nobody has taken since. *)
Definition started (es : list SessionEvent) (d : string) (p : Pending) : Prop :=
  exists before k run after, es = before ++ Login k run :: after /\ digest (lr_binding run) = d
    /\ p = MkPending (lr_state run) (lr_nonce run) (ck_instant k) /\ Forall (fun e => ~ takes d e) after.

(** A session was made by a callback that took a started login. *)
Definition made_by_login (es : list SessionEvent) (s : Session) : Prop :=
  exists before o k h code state run after p b x,
    es = before ++ Callback o k h code state run :: after
    /\ cookie h LOGIN_COOKIE = Ok (Some b) /\ started before (digest b) p
    /\ ck_instant k - pe_created p < LOGIN_TTL /\ ct_eq (bytes state) (bytes (pe_state p)) = true
    /\ cr_exchange run (pe_nonce p) = Ok x
    /\ callback_session (oc_config o) (ck_unix (cr_later run)) (cr_csrf run) x = Ok s.

Record sessions_ok (es : list SessionEvent) (s : Sessions) : Prop := {
  sk_pending : forall d p, sn_pending s !! d = Some p -> started es d p;
  sk_active : forall d a, sn_active s !! d = Some a -> made_by_login es a;
  sk_logins : (size (sn_pending s) <= MAX_LOGINS)%nat;
  sk_sessions : (size (sn_active s) <= MAX_SESSIONS)%nat }.

(** *** Steps that only remove *)

Definition shrinks (s s' : Sessions) : Prop :=
  sn_pending s' ⊆ sn_pending s /\ sn_active s' ⊆ sn_active s.
Lemma prune_shrinks k s : shrinks s (prune k s).
Proof. split; cbn; apply map_filter_subseteq. Qed.
Lemma shrinks_refl s : shrinks s s.
Proof. by split. Qed.
Lemma shrinks_trans s t u : shrinks s t -> shrinks t u -> shrinks s u.
Proof. intros [] []. split; by etrans. Qed.

Lemma made_mono es e a : made_by_login es a -> made_by_login (es ++ [e]) a.
Proof.
  intros (before & o & k & h & code & state & run & after & p & b & x & -> & H).
  exists before, o, k, h, code, state, run, (after ++ [e]), p, b, x. by rewrite <- app_assoc.
Qed.
Lemma started_mono es e d p : started es d p -> ~ takes d e -> started (es ++ [e]) d p.
Proof.
  intros (before & k & run & after & -> & Hd & Hp & Hf) He. exists before, k, run, (after ++ [e]).
  rewrite <- app_assoc. split_and!; [done|done|done|]. apply Forall_app. by split; [|constructor].
Qed.
Lemma shrunk_ok es e s s' : sessions_ok es s -> shrinks s s' -> (forall d, takes d e -> sn_pending s' !! d = None) ->
  sessions_ok (es ++ [e]) s'.
Proof.
  intros [H1 H2 H3 H4] [Hp Ha] He. split.
  - intros d p Hd. apply started_mono; [apply H1; by eapply lookup_weaken|]. intros Ht. rewrite (He d Ht) in Hd. done.
  - intros d a Hd. eapply made_mono, H2. by eapply lookup_weaken.
  - etrans; [|exact H3]. by apply map_subseteq_size.
  - etrans; [|exact H4]. by apply map_subseteq_size.
Qed.

Lemma session_shrinks k h s : shrinks s (session sha256 k h s).2.
Proof. unfold session. destruct (cookie h SESSION_COOKIE) as [[c|]|]; [apply prune_shrinks|apply shrinks_refl..]. Qed.
Lemma identity_shrinks o k an h m s : shrinks s (identity parse_url sha256 ct_eq o k an h m s).2.
Proof.
  unfold identity. destruct (unique_header h "authorization"); [|apply shrinks_refl].
  pose proof (session_shrinks k h s). by destruct (session sha256 k h s).
Qed.
Lemma logout_shrinks o k an h s : shrinks s (logout parse_url sha256 ct_eq o k an h s).2.
Proof.
  unfold logout. pose proof (identity_shrinks o k an h true s) as Hs. destruct (identity _ _ _ _ _ _ _ _ s) as [who s'].
  assert (Hd : shrinks s (match who with
    | Ok _ => match cookie h SESSION_COOKIE with
              | Ok (Some v) => (Ok tt, MkSessions (sn_pending s') (delete (digest v) (sn_active s'))) | _ => (Ok tt, s') end
    | Err status => (Err status, s') end : result Z unit * Sessions).2).
  { destruct who; [|done]. destruct (cookie h SESSION_COOKIE) as [[v|]|]; [|done..]. eapply shrinks_trans; [exact Hs|].
    split; cbn; [done|apply delete_subseteq]. }
  destruct (unique_header h "authorization") as [[v|]|]; [apply shrinks_refl|exact Hd..].
Qed.
(** *** Steps that add *)

Lemma login_ok es k run s : sessions_ok es s -> sessions_ok (es ++ [Login k run]) (login sha256 k run s).2.
Proof.
  intros Hs. assert (Hr : forall s', shrinks s s' -> sessions_ok (es ++ [Login k run]) s') by (intros s' Hs'; by eapply shrunk_ok).
  unfold login. destruct (negb (lr_permit run)); [apply Hr, shrinks_refl|]. destruct (negb (lr_discovered run)); [apply Hr, shrinks_refl|].
  destruct (Nat.leb_spec MAX_LOGINS (size (sn_pending (prune k s)))); cbn [snd]; [apply Hr, prune_shrinks|].
  destruct (Hr (prune k s) (prune_shrinks k s)) as [H1 H2 H3 H4]. split; cbn [sn_pending sn_active]; [|done| |done].
  - intros d p [[<- <-]|[Hne Hd]]%lookup_insert_Some; [|by apply H1].
    exists es, k, run, []. by split_and!.
  - rewrite map_size_insert. destruct (sn_pending (prune k s) !! _); unfold id; lia.
Qed.

Lemma take_pending_spec k h code state s : let '(r, s') := take_pending sha256 ct_eq k h code state s in
  shrinks s s'
  /\ (forall o run d, takes d (Callback o k h code state run) -> sn_pending s' !! d = None)
  /\ match r with
     | Ok p => exists b, cookie h LOGIN_COOKIE = Ok (Some b) /\ sn_pending s !! digest b = Some p
                 /\ ck_instant k - pe_created p < LOGIN_TTL /\ ct_eq (bytes state) (bytes (pe_state p)) = true
     | Err _ => True
     end.
Proof.
  unfold take_pending. destruct (cookie h LOGIN_COOKIE) as [[b|]|] eqn:Hc;
    [|split_and!; [apply shrinks_refl|intros o run d ((b & ? & _) & _); congruence|done]..].
  destruct (_ || _) eqn:Hlen.
  { split_and!; [apply shrinks_refl| |done]. intros o run d (_ & H1 & H2). apply orb_true_iff in Hlen as [?%Z.ltb_lt|?%Z.ltb_lt]; lia. }
  assert (Ht : shrinks s (MkSessions (delete (digest b) (sn_pending (prune k s))) (sn_active (prune k s)))).
  { eapply shrinks_trans; [apply prune_shrinks|]. split; cbn; [apply delete_subseteq|done]. }
  assert (Hg : forall o run d, takes d (Callback o k h code state run) ->
    delete (digest b) (sn_pending (prune k s)) !! d = None).
  { intros o run d ((b' & Hb' & <-) & _). rewrite Hc in Hb'. injection Hb' as <-. apply lookup_delete_eq. }
  destruct (sn_pending (prune k s) !! digest b) as [p|] eqn:Hp; [|split_and!; done].
  destruct (ct_eq _ _) eqn:Hct; (split_and!; [done|exact Hg|try done]).
  exists b. cbn in Hp. apply map_lookup_filter_Some in Hp as [Hp Hage]. by split_and!.
Qed.

Lemma callback_ok es o k h code state run s : sessions_ok es s ->
  sessions_ok (es ++ [Callback o k h code state run]) (callback sha256 ct_eq o k h code state run s).2.
Proof.
  intros Hs. unfold callback. pose proof (take_pending_spec k h code state s) as Ht.
  destruct (take_pending _ _ _ _ _ _ s) as [r s1]. destruct Ht as (Hsh & Htk & Hr).
  assert (Hred : forall s2, shrinks s1 s2 -> sessions_ok (es ++ [Callback o k h code state run]) s2).
  { intros s2 H2. eapply shrunk_ok; [exact Hs|by eapply shrinks_trans|]. intros d Hd. specialize (Htk _ _ _ Hd).
    destruct (sn_pending s2 !! d) as [p|] eqn:Hp; [|done]. destruct H2 as [H2 _]. by rewrite (lookup_weaken _ _ _ _ Hp H2) in Htk. }
  destruct (r ≫= _) as [made|status] eqn:Hm; [|apply Hred, shrinks_refl].
  destruct (Nat.leb_spec MAX_SESSIONS (size (sn_active (prune (cr_later run) s1)))); cbn [snd]; [apply Hred, prune_shrinks|].
  set (active := match cookie h SESSION_COOKIE with Ok (Some old) => _ | _ => _ end).
  assert (Hact : active ⊆ sn_active (prune (cr_later run) s1)).
  { unfold active. destruct (cookie h SESSION_COOKIE) as [[old|]|]; [apply delete_subseteq|done..]. }
  destruct (Hred (MkSessions (sn_pending (prune (cr_later run) s1)) active)) as [H1 H2 H3 H4].
  { eapply shrinks_trans; [apply (prune_shrinks (cr_later run))|]. by split. }
  cbn [sn_pending sn_active] in H1, H2, H3, H4. split; cbn [sn_pending sn_active]; [done| |done|].
  - intros d a [[<- <-]|[_ Ha]]%lookup_insert_Some; [|by apply (H2 d)].
    apply result_bind_ok in Hm as (p & -> & (? & _ & (x & Hx & Hmade)%result_bind_ok)%result_bind_ok).
    destruct Hr as (b & Hc & Hp & Hage & Hct).
    exists es, o, k, h, code, state, run, [], p, b, x. split_and!; try done. by apply (sk_pending _ _ Hs).
  - rewrite map_size_insert. pose proof (map_subseteq_size _ _ Hact). destruct (active !! _); unfold id; lia.
Qed.

Lemma session_run_ok es : sessions_ok es (session_run es).
Proof.
  induction es as [|e es IH] using rev_ind.
  - split; [intros d p; cbn; by rewrite lookup_empty..| |]; cbn; rewrite map_size_empty; lia.
  - unfold session_run. rewrite foldl_app. cbn [foldl]. fold (session_run es).
    destruct e as [k run|o k h code state run|o k an h|k h]; cbn [session_step].
    + by apply login_ok.
    + by apply callback_ok.
    + eapply shrunk_ok; [exact IH|apply logout_shrinks|done].
    + eapply shrunk_ok; [exact IH|apply session_shrinks|done].
Qed.

Lemma callback_session_spec c now csrf x a : callback_session c now csrf x = Ok a ->
  ss_subject a = ex_subject x /\ ss_expires a <= ex_expiration x
  /\ ss_expires a <= now + (if bool_decide (cf_groups c = ∅) then SESSION_TTL else 120)
  /\ permits_groups c (ss_subject a) (ss_groups a) PRead = true
  /\ (ss_groups a = [] \/ exists w, ex_identity x = Ok w /\ ai_subject w = ex_subject x /\ ss_groups a = ai_groups w
                           /\ ss_expires a <= ai_expires_at w).
Proof.
  unfold callback_session. intros ([groups ge] & Hg & H)%result_bind_ok.
  destruct (permits_groups c (ex_subject x) groups PRead) eqn:Hp; [|done]. cbn [negb] in H.
  destruct (_ <=? now); [done|]. injection H as <-. cbn [ss_subject ss_groups ss_expires]. split_and!; [done|lia|lia|done|].
  unfold callback_groups in Hg. case_bool_decide; [injection Hg as <- <-; by left|].
  destruct (ex_identity x) as [w|]; [|done]. case_bool_decide; [|done]. injection Hg as <- <-. right. exists w. split_and!; [done..|lia].
Qed.

End SessionHistories.

(** ** Witnesses *)

Module AuthExample.

(** A delegation as text: its code in binary. *)
Fixpoint pos_text (p : positive) : string :=
  match p with xH => "" | xO p => String "0" (pos_text p) | xI p => String "1" (pos_text p) end.
Fixpoint text_pos (s : string) : positive :=
  match s with
  | EmptyString => xH
  | String c s => if Ascii.eqb c "0"%char then xO (text_pos s) else xI (text_pos s)
  end.
Lemma text_pos_text p : text_pos (pos_text p) = p.
Proof. induction p as [p IH|p IH|]; cbn; by rewrite ?IH. Qed.

Definition fields (d : Delegation) : string * (bool * string * list string * Z) * string * bool :=
  (de_issuer d, (ai_groups_known (de_identity d), ai_subject (de_identity d), ai_groups (de_identity d), ai_expires_at (de_identity d)),
   de_grant d, de_subject_key d).
Definition of_fields (f : string * (bool * string * list string * Z) * string * bool) : Delegation :=
  let '(issuer, (known, subject, groups, expires), grant, sk) := f in MkDelegation issuer (MkAuthIdentity known subject groups expires) grant sk.
Definition text (d : Delegation) : string := pos_text (encode (fields d)).
Definition parse (s : string) : option Delegation := of_fields <$> decode (text_pos s).
Lemma parse_text d : parse (text d) = Some d.
Proof. unfold parse, text. rewrite text_pos_text, decode_encode. by destruct d as [? [] ? ?]. Qed.

Definition digest_of (m : list Z) : list Z := (fun b => b mod 256) <$> m.
Definition same (a b : list Z) : bool := bool_decide (a = b).
Definition url (s : string) : option Url :=
  if bool_decide (s = "https://id") then Some (MkUrl "https" (Some "id") "" None "/" None None "https://id")
  else if bool_decide (s = "https://gw/auth/callback") then Some (MkUrl "https" (Some "gw") "" None "/auth/callback" None None "https://gw")
  else None.
Definition ids (issuer subject name : string) : string := issuer +:+ "|" +:+ subject +:+ "|" +:+ name.

Definition grant : Grant := MkGrant "openai" ["gpt-a"] None None (Some 10).
Definition config : Config :=
  MkConfig "https://id" "gateway" "https://gw/auth/callback" [] {["alice" := MkBinding (Some RViewer) false ∅]}
    {["ml" := MkBinding (Some ROperator) false {["chat" := grant]}]} (Some "groups") Introspection true 0.
Definition oidc : Oidc := MkOidc config "https://id" None false false.
Definition claims : Json :=
  JObject [("active", JBool true); ("iss", JString "https://id"); ("aud", JString "gateway"); ("sub", JString "alice");
           ("exp", JNumber 5000); ("token_type", JString "Bearer"); ("groups", JArray [JString "ml"])].
Definition authority : Authority := MkAuthority true (Some (MkReply 200 300 (Some claims))) None.

Definition caller : HeaderMap := [("authorization", Some "Bearer tok")].
Definition agent : HeaderMap := [("authorization", Some "Bearer vk_0102")].
Definition request : DelegateRequest := MkDelegateRequest "chat" [] 60.
Definition run : MintRun := MkMintRun [1; 2] [3; 4] "2026-01-01T00:00:00Z" true true true Fine.
Definition event : AuthEvent := Delegate oidc 1000 1000 authority caller request true run.
Definition delegated : VirtualKey :=
  MkKey "key_0304" (Some "alice") None "openai" (Some ["gpt-a"]) (Some (budget_scope (granted_key digest_of ids config "alice" "chat" grant)))
    (Some "later") (Some 10).

(** A browser logs in. *)
Definition login_run : LoginRun := MkLoginRun true true "binding" "state" "nonce".
Definition exchange (nonce : string) : result Z Exchange :=
  Ok (MkExchange "alice" 5000 (Ok (MkAuthIdentity true "alice" ["ml"] 5000))).
Definition callback_run : CallbackRun := MkCallbackRun true true exchange "cookie" "csrf" (MkClock 2 1001).
Definition logs_in : list SessionEvent :=
  [Login (MkClock 0 1000) login_run;
   Callback oidc (MkClock 1 1001) [("cookie", Some "__Host-sandhi-login=binding")] "code" "state" callback_run].
Definition browser : HeaderMap :=
  [("cookie", Some "__Host-sandhi-session=cookie"); ("origin", Some "https://gw"); ("x-sandhi-csrf", Some "csrf")].

End AuthExample.

Lemma delegated_keys_stay_within_grants_witness :
  exists o' n later an h' body writer_free run caller verified groups g,
    Delegate o' n later an h' body writer_free run ∈ [AuthExample.event]
    /\ bearer_identity AuthExample.url o' n an caller = Ok verified
    /\ cf_issuer (oc_config o') = cf_issuer AuthExample.config
    /\ grant_groups AuthExample.digest_of AuthExample.ids AuthExample.config (ai_subject verified) groups (Some (dr_grant body)) = Some g
    /\ within AuthExample.delegated g
    /\ "oidc_" +:+ hash_secret AuthExample.digest_of "https://id|alice|chat" = vk_id g
    /\ (groups = [] /\ 1050 < later + dr_ttl_seconds body /\ dr_ttl_seconds body <= cf_max_subject_key_ttl_seconds (oc_config o')
        \/ groups = ai_groups verified /\ 1050 < later + 120 /\ 1050 < ai_expires_at verified).
Proof.
  refine (delegated_keys_stay_within_grants AuthExample.url AuthExample.digest_of AuthExample.same AuthExample.ids
    AuthExample.text AuthExample.parse (fun _ => Some "later") [] AuthExample.oidc 1050 AuthExample.agent "vk_0102" true
    AuthExample.delegated _ (MkIdentity (Some "https://id") (Some "alice") ["ml"] ["operator"; "viewer"] true)
    [AuthExample.event] None [] None AuthExample.parse_text _).
  vm_compute. reflexivity.
Defined.

