(* ===== verification/Clients.v ===== *)
(** The client-credentials grant ([proxy/client_credentials.rs]): the
    registry of clients, the limit on attempts, and the exchange of a client
    secret for a short-lived key. *)

From S2P Require Import Prelude Text Headers Sql Attempt Policy Keys KeysProps.

Definition DEFAULT_TTL_SECS : Z := 900.
Definition MAX_TTL_CEILING_SECS : Z := 3600.
Definition MAX_ATTEMPTS_PER_WINDOW : Z := 10.
(** In nanoseconds. *)
Definition ATTEMPT_WINDOW : Z := seconds 60.

Record ClientCredentialEntry := MkClient {
  ce_client_id : string; ce_secret_hash : string; ce_subject_id : string; ce_group_id : option string; ce_upstream_ref : string;
  ce_models : list string; ce_budget_scope : option string; ce_rate_limit_per_min : option Z; ce_max_ttl_seconds : Z;
  ce_enabled : bool }.

Record ClientTokenRequest := MkTokenRequest { tr_client_id : string; tr_client_secret : string; tr_ttl_seconds : option Z }.

(** ** The limit on attempts *)

Record AttemptLimiter := MkLimiter { li_window_start : option Z; li_counts : gmap string Z }.
Definition limiter_new : AttemptLimiter := MkLimiter None ∅.

Definition limiter_window (now : Z) (l : AttemptLimiter) : AttemptLimiter :=
  match li_window_start l with
  | Some start => if Z.max 0 (now - start) <? ATTEMPT_WINDOW then l else MkLimiter (Some now) ∅
  | None => MkLimiter (Some now) ∅
  end.
Definition limiter_allow (now : Z) (client_id : string) (l : AttemptLimiter) : bool * AttemptLimiter :=
  let l := limiter_window now l in
  let count := default 0 (li_counts l !! client_id) in
  if MAX_ATTEMPTS_PER_WINDOW <=? count then (false, MkLimiter (li_window_start l) (<[client_id := count]> (li_counts l)))
  else (true, MkLimiter (li_window_start l) (<[client_id := count + 1]> (li_counts l))).
Definition limiter_reset (client_id : string) (l : AttemptLimiter) : AttemptLimiter :=
  MkLimiter (li_window_start l) (delete client_id (li_counts l)).

(** ** The registry *)

Record ClientCredentialRegistry := MkRegistry { cg_clients : gmap string ClientCredentialEntry; cg_attempts : AttemptLimiter }.

Section Clients.
Context (to_lowercase : string -> string) (sha256 : list Z -> list Z) (ct_eq : list Z -> list Z -> bool).

Definition is_hex_digit (b : Z) : bool :=
  ((48 <=? b) && (b <=? 57)) || ((65 <=? b) && (b <=? 70)) || ((97 <=? b) && (b <=? 102)).
Definition lowered (e : ClientCredentialEntry) : ClientCredentialEntry :=
  MkClient (ce_client_id e) (to_lowercase (ce_secret_hash e)) (ce_subject_id e) (ce_group_id e) (ce_upstream_ref e) (ce_models e)
    (ce_budget_scope e) (ce_rate_limit_per_min e) (ce_max_ttl_seconds e) (ce_enabled e).
Definition entry_ok (e : ClientCredentialEntry) : bool :=
  negb (bool_decide (ce_models e = []) || existsb (fun m => bool_decide (trim (bytes m) = [])) (ce_models e)
        || bool_decide (ce_client_id e = "")
        || negb (Z.of_nat (String.length (ce_secret_hash e)) =? 64) || negb (forallb is_hex_digit (bytes (ce_secret_hash e)))
        || bool_decide (ce_upstream_ref e = "")
        || (ce_max_ttl_seconds e =? 0) || (MAX_TTL_CEILING_SECS <? ce_max_ttl_seconds e)).
Fixpoint load_entries (entries : list ClientCredentialEntry) (clients : gmap string ClientCredentialEntry)
    : result unit (gmap string ClientCredentialEntry) :=
  match entries with
  | [] => Ok clients
  | e :: entries =>
      let e := lowered e in
      if negb (entry_ok e) then Err tt
      else if bool_decide (is_Some (clients !! ce_client_id e)) then Err tt
      else load_entries entries (<[ce_client_id e := e]> clients)
  end.
(** The mode of the file and its entries, when they can be read. *)
Definition load (mode : option Z) (entries : option (list ClientCredentialEntry)) : result unit ClientCredentialRegistry :=
  mode ← ok_or mode tt;
  _ ← bail (negb (Z.land mode 63 =? 0)) tt;
  entries ← ok_or entries tt;
  clients ← load_entries entries ∅;
  Ok (MkRegistry clients limiter_new).

Definition lookup_client (client_id : string) (g : ClientCredentialRegistry) : option ClientCredentialEntry := cg_clients g !! client_id.
Definition admit_attempt (now : Z) (client_id : string) (g : ClientCredentialRegistry) : bool * ClientCredentialRegistry :=
  if bool_decide (is_Some (cg_clients g !! client_id)) then
    let '(ok, l) := limiter_allow now client_id (cg_attempts g) in (ok, MkRegistry (cg_clients g) l)
  else (false, g).
Definition secret_matches (e : ClientCredentialEntry) (presented : string) : bool :=
  ct_eq (bytes (hash_secret sha256 presented)) (bytes (ce_secret_hash e)).

(** ** The exchange *)

Inductive TokenReply :=
| TokenStatus (code : Z)
| Token (access_token : string) (expires_in : Z) (scope : string).

(** [format_expiry]: an instant that many seconds from the current time, in
    RFC 3339. *)
Context (format_expiry : Z -> option string).

Definition token_ttl (req : ClientTokenRequest) (e : ClientCredentialEntry) : Z :=
  Z.min (Z.min (default DEFAULT_TTL_SECS (tr_ttl_seconds req)) (ce_max_ttl_seconds e)) MAX_TTL_CEILING_SECS.
Definition token_mint (e : ClientCredentialEntry) (expires_at : string) : MintRequest :=
  MkMint (Some (ce_subject_id e)) (ce_group_id e) (ce_upstream_ref e) (ce_models e) (ce_budget_scope e) (Some expires_at)
    (ce_rate_limit_per_min e).

(** The client is known, within its attempts, and holds the secret. *)
Definition authenticate (now : Z) (req : ClientTokenRequest) (g : ClientCredentialRegistry)
    : option ClientCredentialEntry * ClientCredentialRegistry :=
  match lookup_client (tr_client_id req) g with
  | None => (None, g)
  | Some e =>
      match admit_attempt now (tr_client_id req) g with
      | (false, g) => (None, g)
      | (true, g) => if negb (ce_enabled e) || negb (secret_matches e (tr_client_secret req)) then (None, g) else (Some e, g)
      end
  end.
Definition issue (req : ClientTokenRequest) (e : ClientCredentialEntry) (run : MintRun) (p : KeyPlane) : TokenReply * KeyPlane :=
  if bool_decide (tr_ttl_seconds req = Some 0) then (TokenStatus 400, p)
  else if negb (kp_running p) then (TokenStatus 503, p)
  else match kp_vkeys p with
  | None => (TokenStatus 503, p)
  | Some vs =>
      if negb (knows_upstream p (ce_upstream_ref e)) then (TokenStatus 400, p)
      else match format_expiry (token_ttl req e) with
      | None => (TokenStatus 500, p)
      | Some expires_at =>
          if bool_decide (expires_at = "") then (TokenStatus 500, p)
          else match mint sha256 run (token_mint e expires_at) vs with
          | (None, vs) => (TokenStatus 500, set_keys (Some vs) (kp_keys p) p)
          | (Some (r, secret), vs) =>
              (Token secret (token_ttl req e) (String.concat " " (ce_models e)),
               set_keys (Some vs) (ks_insert_keyed (vr_secret_hash r) (live_key r) (kp_keys p)) p)
          end
      end
  end.
(** [registry] is [None] where the grant is not configured. *)
Definition client_token (now : Z) (req : ClientTokenRequest) (run : MintRun) (registry : option ClientCredentialRegistry) (p : KeyPlane)
    : TokenReply * option ClientCredentialRegistry * KeyPlane :=
  match registry with
  | None => (TokenStatus 404, None, p)
  | Some g =>
      match authenticate now req g with
      | (None, g) => (TokenStatus 401, Some g, p)
      | (Some e, g) =>
          let '(reply, p) := issue req e run p in
          let g := match reply with
                   | Token _ _ _ => MkRegistry (cg_clients g) (limiter_reset (tr_client_id req) (cg_attempts g))
                   | TokenStatus _ => g
                   end in
          (reply, Some g, p)
      end
  end.
End Clients.

(** ** Properties *)

Section Attempts.
Context (sha256 : list Z -> list Z) (ct_eq : list Z -> list Z -> bool) (format_expiry : Z -> option string).
Notation client_token := (client_token sha256 ct_eq format_expiry).

(** What a request was answered, and whether its secret was compared. *)
Record Outcome := MkOutcome { oc_client : string; oc_compared : bool; oc_reply : TokenReply }.
Fixpoint outcomes (es : list (Z * ClientTokenRequest * MintRun)) (g : ClientCredentialRegistry) (p : KeyPlane) : list Outcome :=
  match es with
  | [] => []
  | (now, req, run) :: es =>
      let '(reply, registry, p) := client_token now req run (Some g) p in
      MkOutcome (tr_client_id req) (admit_attempt now (tr_client_id req) g).1 reply :: outcomes es (default g registry) p
  end.
Definition client_run (es : list (Z * ClientTokenRequest * MintRun)) (g : ClientCredentialRegistry) (p : KeyPlane)
    : ClientCredentialRegistry * KeyPlane :=
  foldl (fun '(g, p) '(now, req, run) =>
    let '(_, registry, p) := client_token now req run (Some g) p in (default g registry, p)) (g, p) es.
Definition is_token (r : TokenReply) : bool := match r with Token _ _ _ => true | _ => false end.
Definition guesses (c : string) (l : list Outcome) : Z :=
  Z.of_nat (length (List.filter (fun o => bool_decide (oc_client o = c) && oc_compared o) l)).

(** A step on the limiter. *)
Definition limiter_step (now : Z) (req : ClientTokenRequest) (g : ClientCredentialRegistry) (issued : bool) : AttemptLimiter :=
  let l := (admit_attempt now (tr_client_id req) g).2 in
  if issued then limiter_reset (tr_client_id req) (cg_attempts l) else cg_attempts l.
Lemma client_token_step now req run g p : exists reply g' p',
  client_token now req run (Some g) p = (reply, Some g', p') /\ cg_clients g' = cg_clients g
  /\ cg_attempts g' = limiter_step now req g (is_token reply).
Proof.
  unfold Clients.client_token, authenticate, limiter_step, lookup_client, admit_attempt.
  destruct (cg_clients g !! tr_client_id req) as [e|] eqn:He.
  - rewrite bool_decide_eq_true_2 by eauto. destruct (limiter_allow _ _ _) as [[] l]; [|by repeat eexists].
    destruct (_ || _); [by repeat eexists|]. destruct (issue _ _ _ _ _ _) as [[] p']; by repeat eexists.
  - rewrite bool_decide_eq_false_2 by (by intros []). by repeat eexists.
Qed.

(** What is left of a stretch shorter than a window: the window that opened
    before it and the one that may open in it. *)
Definition opened_in (start : Z) (l : AttemptLimiter) : Prop := exists s, li_window_start l = Some s /\ start <= s < start + ATTEMPT_WINDOW.
Definition budget_left (start : Z) (c : string) (l : AttemptLimiter) (n : Z) : Prop :=
  let count := default 0 (li_counts l !! c) in
  0 <= count <= 10 /\ (opened_in start l /\ n = 10 - count \/ ~ opened_in start l /\ n = 20 - count).

Lemma opened_dec l start : {opened_in start l} + {~ opened_in start l}.
Proof.
  unfold opened_in. destruct (li_window_start l) as [s|]; [|right; by intros (? & ? & _)].
  destruct (decide (start <= s < start + ATTEMPT_WINDOW)) as [H|H]; [left; by exists s|right]. by intros (? & [= <-] & ?).
Defined.

Lemma window_in start now l : start <= now < start + ATTEMPT_WINDOW -> opened_in start l -> limiter_window now l = l.
Proof. intros Hn (s & Hs & Hr). unfold limiter_window. rewrite Hs. destruct (Z.ltb_spec (Z.max 0 (now - s)) ATTEMPT_WINDOW); [done|lia]. Qed.

Lemma allow_budget start now c d l ok l' n : start <= now < start + ATTEMPT_WINDOW -> budget_left start c l n ->
  limiter_allow now d l = (ok, l') ->
  exists n', budget_left start c l' n' /\ (if bool_decide (d = c) && ok then n' <= n - 1 else n' <= n).
Proof.
  intros Hnow (Hc & Hb) Ha. unfold limiter_allow in Ha.
  assert (Hw : exists m, budget_left start c (limiter_window now l) m /\ m <= n).
  { destruct Hb as [[Ho ->]|[Ho ->]]; [rewrite (window_in start) by done; exists (10 - default 0 (li_counts l !! c)); split; [split; auto|lia]|].
    unfold limiter_window. assert (Hnew : budget_left start c (MkLimiter (Some now) ∅) 10).
    { split; cbn; rewrite lookup_empty; cbn; [lia|]. left. split; [by exists now|done]. }
    destruct (li_window_start l) as [s|]; [|exists 10; split; [done|lia]]. destruct (_ <? _); [|exists 10; split; [done|lia]].
    exists (20 - default 0 (li_counts l !! c)). split; [split; auto|lia]. }
  destruct Hw as (m & (Hcm & Hbm) & Hle). set (w := limiter_window now l) in *.
  assert (Hop : forall counts, opened_in start (MkLimiter (li_window_start w) counts) <-> opened_in start w) by done.
  unfold MAX_ATTEMPTS_PER_WINDOW in Ha. destruct (Z.leb_spec 10 (default 0 (li_counts w !! d))) as [Hfull|Hfull]; injection Ha as <- <-; cbn [andb].
  - rewrite andb_false_r. exists m. split; [|done]. unfold budget_left. cbn [li_counts]. rewrite Hop.
    destruct (decide (d = c)) as [->|Hne]; [by rewrite lookup_insert_eq|by rewrite lookup_insert_ne].
  - rewrite andb_true_r. case_bool_decide as Hd.
    + exists (m - 1). split; [|lia]. unfold budget_left. cbn [li_counts]. rewrite Hop. subst d. rewrite lookup_insert_eq.
      cbn [default]. change (id ?x) with x. split; [lia|]. destruct Hbm as [[? ->]|[? ->]]; [left|right]; (split; [done|lia]).
    + exists m. unfold budget_left. cbn [li_counts]. rewrite Hop, lookup_insert_ne by done. by split.
Qed.

Lemma step_budget start now req c g n issued : start <= now < start + ATTEMPT_WINDOW -> budget_left start c (cg_attempts g) n ->
  (tr_client_id req = c -> issued = false) ->
  exists n', budget_left start c (limiter_step now req g issued) n'
    /\ (if bool_decide (tr_client_id req = c) && (admit_attempt now (tr_client_id req) g).1 then n' <= n - 1 else n' <= n).
Proof.
  intros Hnow Hb Hi. unfold limiter_step, admit_attempt.
  assert (Hreset : forall l m, budget_left start c l m -> issued = true -> budget_left start c (limiter_reset (tr_client_id req) l) m).
  { intros l m Hl Ht. unfold budget_left, limiter_reset in *. cbn [li_counts]. rewrite lookup_delete_ne; [exact Hl|].
    intros He. rewrite Hi in Ht; [done|done]. }
  case_bool_decide as Hk.
  - destruct (limiter_allow now (tr_client_id req) (cg_attempts g)) as [ok l] eqn:Ha. destruct (allow_budget _ _ _ _ _ _ _ _ Hnow Hb Ha) as (m & Hm & Hle).
    exists m. cbn [fst snd cg_attempts]. split; [|done]. destruct issued; [by apply Hreset|done].
  - exists n. cbn [fst snd]. rewrite andb_false_r. split; [|lia]. destruct issued; [by apply Hreset|done].
Qed.

Lemma outcomes_budget start c es : forall g p n, budget_left start c (cg_attempts g) n ->
  Forall (fun e => start <= e.1.1 < start + ATTEMPT_WINDOW) es ->
  Forall (fun o => oc_client o = c -> is_token (oc_reply o) = false) (outcomes es g p) ->
  guesses c (outcomes es g p) <= n.
Proof.
  induction es as [|[[now req] run] es IH]; intros g p n Hb Hes Hno.
  - unfold guesses. cbn. destruct Hb as [Hc [[_ ->]|[_ ->]]]; lia.
  - apply Forall_cons in Hes as [Hnow Hes]. cbn [outcomes] in Hno |- *.
    destruct (client_token_step now req run g p) as (reply & g' & p' & Hstep & _ & Hl). rewrite Hstep in Hno |- *.
    change (default g (Some g')) with g' in Hno |- *. apply Forall_cons in Hno as [Hr Hno]. cbn in Hr, Hnow.
    destruct (step_budget _ _ _ _ _ _ _ Hnow Hb Hr) as (m & Hm & Hle). rewrite <- Hl in Hm.
    specialize (IH _ _ _ Hm Hes Hno). unfold guesses in *. cbn [List.filter oc_client oc_compared].
    destruct (_ && _); cbn [length]; lia.
Qed.
(** No client ever has more attempts on its count than a window allows. *)
Definition counts_ok (l : AttemptLimiter) : Prop := forall d, 0 <= default 0 (li_counts l !! d) <= 10.
Lemma reset_counts_ok d l : counts_ok l -> counts_ok (limiter_reset d l).
Proof.
  intros Hl x. unfold limiter_reset. cbn [li_counts]. destruct (decide (d = x)) as [->|Hne].
  - rewrite lookup_delete_eq. cbn. lia.
  - rewrite lookup_delete_ne by done. apply Hl.
Qed.
Lemma step_counts_ok now req g issued : counts_ok (cg_attempts g) -> counts_ok (limiter_step now req g issued).
Proof.
  intros Hg. assert (Ha : counts_ok (cg_attempts (admit_attempt now (tr_client_id req) g).2)).
  { unfold admit_attempt. case_bool_decide; [|done]. destruct (limiter_allow _ _ _) as [ok l] eqn:Hl. cbn. intros d.
    assert (Hb : exists n, budget_left now d (cg_attempts g) n).
    { specialize (Hg d). unfold budget_left. destruct (opened_dec (cg_attempts g) now); eexists; (split; [done|]); [left|right]; by split. }
    destruct Hb as [n Hb]. assert (Hw : now <= now < now + ATTEMPT_WINDOW) by (unfold ATTEMPT_WINDOW, seconds, nanos; lia).
    by destruct (allow_budget _ _ _ _ _ _ _ _ Hw Hb Hl) as (m & [Hm _] & _). }
  unfold limiter_step. destruct issued; [by apply reset_counts_ok|done].
Qed.
Lemma client_run_counts_ok es : forall g p, counts_ok (cg_attempts g) -> counts_ok (cg_attempts (client_run es g p).1).
Proof.
  induction es as [|[[now req] run] es IH]; intros g p Hg; [done|]. unfold client_run. cbn [foldl].
  destruct (client_token_step now req run g p) as (reply & g' & p' & Hs & _ & Hl). rewrite Hs. apply IH. cbn. rewrite Hl. by apply step_counts_ok.
Qed.

(** A secret cannot be guessed quickly, and refusals tell nothing.  In any
    minute, as long as a client is issued no token, its secret is compared at
    most twenty times, whatever other clients do; and an unknown client, a
    disabled one, an exhausted one and a wrong secret get the same answer and
    change no key. *)
Theorem secret_guesses_are_bounded clients before p0 c start es :
  let '(g, p) := client_run before (MkRegistry clients limiter_new) p0 in
  Forall (fun e => start <= e.1.1 < start + ATTEMPT_WINDOW) es ->
  Forall (fun o => oc_client o = c -> is_token (oc_reply o) = false) (outcomes es g p) ->
  guesses c (outcomes es g p) <= 20
  /\ forall now req run,
       (forall e, cg_clients g !! tr_client_id req = Some e ->
          ce_enabled e = false \/ secret_matches sha256 ct_eq e (tr_client_secret req) = false
          \/ (admit_attempt now (tr_client_id req) g).1 = false) ->
       exists g', client_token now req run (Some g) p = (TokenStatus 401, Some g', p).
Proof.
  pose proof (client_run_counts_ok before (MkRegistry clients limiter_new) p0) as Hg.
  destruct (client_run before (MkRegistry clients limiter_new) p0) as [g p]. cbn [fst] in Hg.
  assert (Hg' : counts_ok (cg_attempts g)) by (apply Hg; intros d; cbn; rewrite lookup_empty; cbn; lia).
  clear Hg. rename Hg' into Hg. intros Hes Hno. split.
  - assert (Hb : exists n, budget_left start c (cg_attempts g) n /\ n <= 20).
    { unfold budget_left. specialize (Hg c).
      destruct (opened_dec (cg_attempts g) start) as [Ho|Ho]; eexists; (split; [split; [done|]|]); [left|..|right|]; try (split; [done|reflexivity]); lia. }
    destruct Hb as (n & Hb & Hn). etrans; [by eapply outcomes_budget|done].
  - intros now req run He. unfold Clients.client_token, authenticate, lookup_client.
    destruct (cg_clients g !! tr_client_id req) as [e|]; [|eauto].
    destruct (admit_attempt now (tr_client_id req) g) as [[] g']; [|eauto].
    destruct (He _ eq_refl) as [->|[->|?]]; [|rewrite orb_true_r|done]; cbn; eauto.
Qed.

(** A token is issued to an enabled registered client that presented its
    secret; it lives no longer than the client may ask for, and the key
    behind it is in force with the grants of the registry. *)
Lemma issued_token_is_registered demo now req run g g' p p' secret ttl scope :
  plane_ok sha256 demo p ->
  client_token now req run (Some g) p = (Token secret ttl scope, Some g', p') ->
  exists e expires_at, cg_clients g !! tr_client_id req = Some e /\ ce_enabled e = true
    /\ secret_matches sha256 ct_eq e (tr_client_secret req) = true
    /\ ttl = token_ttl req e /\ ttl <= ce_max_ttl_seconds e /\ ttl <= MAX_TTL_CEILING_SECS
    /\ format_expiry ttl = Some expires_at /\ secret = generate_secret (mr_secret run)
    /\ kp_keys p' !! hash_secret sha256 secret = Some (live_key (minted_record sha256 run (token_mint e expires_at))).
Proof.
  intros Hp. unfold Clients.client_token, authenticate, lookup_client. destruct (cg_clients g !! tr_client_id req) as [e|] eqn:He; [|done].
  destruct (admit_attempt _ _ _) as [[] g1]; [|done]. destruct (ce_enabled e) eqn:Hen; [|done].
  destruct (secret_matches _ _ e _) eqn:Hsec; [|done]. cbn [negb orb]. unfold issue.
  destruct (bool_decide _); [done|]. destruct (kp_running p); [|done]. cbn [negb]. destruct (kp_vkeys p) as [vs|]; [|done].
  destruct (knows_upstream _ _); [|done]. cbn [negb]. destruct (format_expiry _) as [x|] eqn:Hx; [|done].
  destruct (bool_decide _); [done|]. destruct (mint _ _ _ _) as [[[r s]|] vs'] eqn:Hm; [|done].
  intros [= <- <- _ _ <-]. apply mint_spec in Hm as [[_ ?]|(_ & _ & _ & [?|Heq])]; [done|done|]. injection Heq as -> ->.
  exists e, x. unfold token_ttl in *. split_and!; try done; try lia. cbn. unfold ks_insert_keyed. by rewrite lookup_insert_eq.
Qed.
End Attempts.

(** ** Witnesses *)

Module ClientExample.

Definition digest (m : list Z) : list Z := (fun b => b mod 256) <$> m.
Definition same (a b : list Z) : bool := bool_decide (a = b).
Definition clients : gmap string ClientCredentialEntry :=
  {["ci" := MkClient "ci" "736573616d65" "robot" None "openai" ["gpt-a"] None None 600 true]}.
Definition plane : KeyPlane := first_process [] None ["openai"] None.
Definition guess : Z * ClientTokenRequest * MintRun :=
  (5, MkTokenRequest "ci" "wrong" None, MkMintRun [1] [2] "now" true true true Fine).

End ClientExample.

Lemma secret_guesses_are_bounded_witness :
  guesses "ci" (outcomes ClientExample.digest ClientExample.same (fun _ => Some "later") (replicate 12 ClientExample.guess)
    (MkRegistry ClientExample.clients limiter_new) ClientExample.plane) <= 20.
Proof.
  refine (proj1 (secret_guesses_are_bounded ClientExample.digest ClientExample.same (fun _ => Some "later") ClientExample.clients []
    ClientExample.plane "ci" 0 (replicate 12 ClientExample.guess) _ _)).
  - apply Forall_replicate. vm_compute. by split.
  - by apply (bool_decide_eq_true_1 (Forall (fun o => oc_client o = "ci" -> is_token (oc_reply o) = false) _)).
Defined.
