(* ===== verification/Deadlines.v ===== *)
(** The deadlines of routes ([proxy/deadlines.rs]): what a policy file may
    say, which limit a route gets, and that the limit leaves a lease the time
    it needs to settle. *)

From S2P Require Import Prelude Text Ledger ProxyLedger Attempt Resilience Accounting.

(** [deserialize_with = "unique_map"]: the entries of an object, in order. *)
Fixpoint unique_map {T} (entries : list (string * T)) (result : gmap string T) : option (gmap string T) :=
  match entries with
  | [] => Some result
  | (k, v) :: entries => if bool_decide (is_Some (result !! k)) then None else unique_map entries (<[k := v]> result)
  end.

Inductive Source := BuiltIn | Global | OfEndpoint | OfModel.

(** One route table for both policies. *)
Record Endpoint (T : Type) := MkEndpoint { ep_default : option T; ep_models : gmap string T }.
Arguments MkEndpoint {T}.
Arguments ep_default {T}.
Arguments ep_models {T}.

Definition resolve_route {T} (fallback : T) (global : option T) (endpoint : option (Endpoint T)) (model : string) : T * Source :=
  match endpoint ≫= (fun e => ep_models e !! model) with
  | Some value => (value, OfModel)
  | None =>
      match endpoint ≫= ep_default with
      | Some value => (value, OfEndpoint)
      | None => match global with Some value => (value, Global) | None => (fallback, BuiltIn) end
      end
  end.

(** [split_once(':')], with both sides not blank. *)
Fixpoint split_colon (s : list Z) : option (list Z * list Z) :=
  match s with
  | [] => None
  | c :: s => if c =? 58 then Some ([], s) else (fun '(a, b) => (c :: a, b)) <$> split_colon s
  end.
Definition reference_ok (reference : string) : bool :=
  match split_colon (bytes reference) with
  | Some (provider, label) => negb (bool_decide (trim provider = [])) && negb (bool_decide (trim label = []))
  | None => false
  end.
Definition model_ok (model : string) : bool := negb (bool_decide (trim (bytes model) = [])) && forallb (fun c => negb (c =? 42)) (bytes model).
Definition endpoint_ok {T} (check : T -> bool) (e : string * Endpoint T) : bool :=
  reference_ok e.1 && match ep_default e.2 with Some v => check v | None => true end
  && forallb (fun '(model, v) => model_ok model && check v) (map_to_list (ep_models e.2)).
Definition validate_routes {T} (check : T -> bool) (endpoints : gmap string (Endpoint T)) : bool :=
  forallb (endpoint_ok check) (map_to_list endpoints).

(** An endpoint as the file has it. *)
Record RawEndpoint (T : Type) := MkRawEndpoint { re_default : option T; re_models : list (string * T) }.
Arguments MkRawEndpoint {T}.
Arguments re_default {T}.
Arguments re_models {T}.
Definition read_endpoint {T} (e : string * RawEndpoint T) : option (string * Endpoint T) :=
  models ← unique_map (re_models e.2) ∅; Some (e.1, MkEndpoint (re_default e.2) models).
Definition read_endpoints {T} (l : list (string * RawEndpoint T)) : option (gmap string (Endpoint T)) :=
  l ← mapM read_endpoint l; unique_map l ∅.

(** The longest a validated policy may wait, in milliseconds. *)
Definition deadline_maximum : Z := RESERVATION_TTL_SECS * 1000 - SETTLEMENT_HEADROOM_MS.

(** ** Buffered requests *)

Definition default_ms : Z := to_complete timeouts_default / 1000000.

Record PolicyFile := MkPolicyFile { pf_ceiling_ms : Z; pf_default_ms : option Z; pf_endpoints : list (string * RawEndpoint Z) }.
Record BufferedDeadlines := MkBuffered { bf_ceiling_ms : Z; bf_default_ms : option Z; bf_endpoints : gmap string (Endpoint Z) }.
Record EffectiveDeadline := MkEffective { ed_milliseconds : Z; ed_source : Source }.

Definition buffered_check (ceiling value : Z) : bool := negb ((value =? 0) || (ceiling <? value)).
Definition buffered_try_from (file : PolicyFile) : option BufferedDeadlines :=
  endpoints ← read_endpoints (pf_endpoints file);
  let ceiling := pf_ceiling_ms file in
  if (ceiling =? 0) || (deadline_maximum <? ceiling) then None
  else if negb (buffered_check ceiling (default default_ms (pf_default_ms file))) then None
  else if negb (validate_routes (buffered_check ceiling) endpoints) then None
  else Some (MkBuffered ceiling (pf_default_ms file) endpoints).
Definition buffered_validate_endpoints (known : string -> bool) (p : BufferedDeadlines) : bool :=
  forallb (fun '(reference, _) => known reference) (map_to_list (bf_endpoints p)).
Definition buffered_resolve (p : BufferedDeadlines) (reference model : string) : EffectiveDeadline :=
  let '(ms, source) := resolve_route default_ms (bf_default_ms p) (bf_endpoints p !! reference) model in MkEffective ms source.
(** [Duration::from_millis], in nanoseconds. *)
Definition from_millis (ms : Z) : Z := ms * 1000000.
Definition effective_fits_lease (d : EffectiveDeadline) (expires_at now : Z) : bool :=
  fits_lease (from_millis (ed_milliseconds d)) expires_at now.

(** ** Streams *)

Record StreamLimits := MkLimits { sl_setup_ms : Z; sl_idle_ms : Z; sl_body_ms : Z }.
Definition limits_validate (ceiling : Z) (l : StreamLimits) : bool :=
  negb ((sl_setup_ms l =? 0) || (sl_idle_ms l =? 0) || (sl_body_ms l =? 0) || (ceiling <? sl_idle_ms l)
        || match checked_add (sl_setup_ms l) (sl_body_ms l) with Some total => ceiling <? total | None => true end).
Definition limits_try_from (l : StreamLimits) : option StreamLimits := if limits_validate deadline_maximum l then Some l else None.
Definition dispatch_duration (l : StreamLimits) : Z := from_millis (sl_setup_ms l + sl_body_ms l).

Record StreamingFile := MkStreamingFile {
  sf_ceiling_ms : Z; sf_default : StreamLimits; sf_endpoints : list (string * RawEndpoint StreamLimits) }.
Record StreamingDeadlines := MkStreaming {
  sd_ceiling_ms : Z; sd_default : StreamLimits; sd_endpoints : gmap string (Endpoint StreamLimits) }.

(** Each limit of the file is validated when it is read, and again under
    the ceiling. *)
Definition read_limits (file : StreamingFile) : bool :=
  forallb (limits_validate deadline_maximum)
    (sf_default file
     :: flat_map (fun '(_, e) => option_list (re_default e) ++ (re_models e).*2) (sf_endpoints file)).
Definition streaming_try_from (file : StreamingFile) : option StreamingDeadlines :=
  if negb (read_limits file) then None
  else
    endpoints ← read_endpoints (sf_endpoints file);
    let ceiling := sf_ceiling_ms file in
    if (ceiling =? 0) || (deadline_maximum <? ceiling) then None
    else if negb (limits_validate ceiling (sf_default file)) then None
    else if negb (validate_routes (limits_validate ceiling) endpoints) then None
    else Some (MkStreaming ceiling (sf_default file) endpoints).
Definition streaming_validate_endpoints (known : string -> bool) (p : StreamingDeadlines) : bool :=
  forallb (fun '(reference, _) => known reference) (map_to_list (sd_endpoints p)).
Definition streaming_resolve (p : StreamingDeadlines) (reference model : string) : StreamLimits * Source :=
  resolve_route (sd_default p) (Some (sd_default p)) (sd_endpoints p !! reference) model.

(** ** Properties *)

Lemma resolved_checked {T} (check : T -> bool) fallback global endpoints reference model :
  validate_routes check endpoints = true -> check (default fallback global) = true ->
  check (resolve_route fallback global (endpoints !! reference) model).1 = true.
Proof.
  intros Hv Hd. unfold validate_routes in Hv. rewrite forallb_forall in Hv. unfold resolve_route.
  destruct (endpoints !! reference) as [e|] eqn:He; cbn [mbind option_bind].
  - assert (Hok : endpoint_ok check (reference, e) = true) by (by apply Hv, list_elem_of_In, elem_of_map_to_list).
    unfold endpoint_ok in Hok. cbn [fst snd] in Hok. apply andb_true_iff in Hok as [Hok Hm]. apply andb_true_iff in Hok as [_ He'].
    rewrite forallb_forall in Hm. destruct (ep_models e !! model) as [v|] eqn:Hmod.
    + assert (Hin : model_ok model && check v = true) by (by apply (Hm (model, v)), list_elem_of_In, elem_of_map_to_list).
      by apply andb_true_iff in Hin as [_ ?].
    + destruct (ep_default e); [done|]. by destruct global.
  - by destruct global.
Qed.

(** What a duration needs of a fresh lease: the rounding of the expiry to
    seconds costs up to one of them. *)
Lemma fresh_lease_fits duration reserved now :
  (now - reserved) + duration + SETTLEMENT_HEADROOM_MS * 1000000 + nanos <= ttl + 1 ->
  fits_lease duration (reserved + ttl) now = true.
Proof.
  unfold fits_lease, seconds, nanos. rewrite Z.mul_1_l. intros H. apply Z.leb_le. pose proof (Z.mod_pos_bound (reserved + ttl) 1000000000).
  pose proof (Z.div_mod (reserved + ttl) 1000000000). lia.
Qed.

(** A validated policy gives every route a positive limit under its ceiling,
    and the limit fits the lease of a reservation made a moment ago: the
    deadline, the time since the reservation, the headroom to settle and one
    second of rounding fit the life of a reservation. *)
Theorem validated_deadlines_fit_leases :
  (forall file p reference model reserved now, buffered_try_from file = Some p ->
     let d := buffered_resolve p reference model in
     ed_milliseconds d <> 0 /\ ed_milliseconds d <= bf_ceiling_ms p <= deadline_maximum
     /\ (now - reserved <= from_millis (deadline_maximum - ed_milliseconds d) - nanos ->
         effective_fits_lease d (reserved + ttl) now = true))
  /\ (forall file p reference model reserved now, streaming_try_from file = Some p ->
     let l := (streaming_resolve p reference model).1 in
     sl_idle_ms l <= sd_ceiling_ms p /\ sl_setup_ms l + sl_body_ms l <= sd_ceiling_ms p <= deadline_maximum
     /\ (now - reserved <= from_millis (deadline_maximum - (sl_setup_ms l + sl_body_ms l)) - nanos ->
         fits_lease (dispatch_duration l) (reserved + ttl) now = true)).
Proof.
  split.
  - intros file p reference model reserved now Hp d. unfold buffered_try_from in Hp.
    destruct (read_endpoints (pf_endpoints file)) as [endpoints|]; [|done]. cbn [mbind option_bind] in Hp.
    destruct (_ || _) eqn:Hc; [done|]. apply orb_false_iff in Hc as [_ Hc]. apply Z.ltb_ge in Hc.
    destruct (buffered_check _ _) eqn:Hd; [|done]. destruct (validate_routes _ _) eqn:Hr; [|done]. injection Hp as <-.
    pose proof (resolved_checked _ default_ms (pf_default_ms file) endpoints reference model Hr Hd) as Hv.
    assert (Hms : ed_milliseconds d = (resolve_route default_ms (pf_default_ms file) (endpoints !! reference) model).1).
    { subst d. unfold buffered_resolve. cbn. by destruct (resolve_route _ _ _ _). }
    rewrite <- Hms in Hv. unfold buffered_check in Hv. apply negb_true_iff, orb_false_iff in Hv as [H0 H1].
    apply Z.eqb_neq in H0. apply Z.ltb_ge in H1. cbn [bf_ceiling_ms]. split_and!; [done|done|done|].
    intros Hn. apply fresh_lease_fits. unfold ttl, from_millis, deadline_maximum, RESERVATION_TTL_SECS, SETTLEMENT_HEADROOM_MS, seconds, nanos in *. lia.
  - intros file p reference model reserved now Hp l. unfold streaming_try_from in Hp.
    destruct (negb (read_limits file)); [done|]. destruct (read_endpoints (sf_endpoints file)) as [endpoints|]; [|done].
    cbn [mbind option_bind] in Hp. destruct (_ || _) eqn:Hc; [done|]. apply orb_false_iff in Hc as [_ Hc]. apply Z.ltb_ge in Hc.
    destruct (limits_validate _ (sf_default file)) eqn:Hd; [|done]. destruct (validate_routes _ _) eqn:Hr; [|done]. injection Hp as <-.
    pose proof (resolved_checked _ (sf_default file) (Some (sf_default file)) endpoints reference model Hr Hd) as Hv.
    change (resolve_route _ _ _ _).1 with l in Hv. clearbody l. unfold limits_validate in Hv. apply negb_true_iff in Hv. rewrite !orb_false_iff in Hv.
    destruct Hv as [[_ H1%Z.ltb_ge] H2]. unfold checked_add in H2. destruct (_ <=? u64_max); [|done]. apply Z.ltb_ge in H2.
    cbn [sd_ceiling_ms]. split_and!; [done|done|done|].
    intros Hn. apply fresh_lease_fits. unfold ttl, dispatch_duration, from_millis, deadline_maximum, RESERVATION_TTL_SECS, SETTLEMENT_HEADROOM_MS, seconds, nanos in *. lia.
Qed.

(** The longest deadline that validates fits only a lease reserved on a whole
    second and asked about at once. *)
Lemma longest_deadline_hardly_fits reserved now : reserved <= now ->
  fits_lease (from_millis deadline_maximum) (reserved + ttl) now = true -> reserved mod nanos = 0 /\ now = reserved.
Proof.
  unfold fits_lease, from_millis, deadline_maximum, SETTLEMENT_HEADROOM_MS, ttl, seconds, RESERVATION_TTL_SECS, nanos. rewrite Z.mul_1_l. intros Hle H%Z.leb_le.
  pose proof (Z.div_mod (reserved + 900 * 1000000000) 1000000000). pose proof (Z.mod_pos_bound (reserved + 900 * 1000000000) 1000000000).
  assert (Hr : (reserved + 900 * 1000000000) mod 1000000000 = reserved mod 1000000000) by (by rewrite Z.mod_add).
  lia.
Qed.

(** ** Witnesses *)

Definition example_limits : StreamLimits := MkLimits 30000 60000 300000.
Lemma validated_deadlines_fit_leases_witness :
  (forall p, buffered_try_from (MkPolicyFile 600000 (Some 90000) [("openai:main", MkRawEndpoint None [("gpt-a", 300000)])]) = Some p ->
     effective_fits_lease (buffered_resolve p "openai:main" "gpt-a") (5 + ttl) 7 = true)
  /\ ed_milliseconds (buffered_resolve (MkBuffered 600000 None {["openai:main" := MkEndpoint None {["gpt-a" := 300000]}]}) "openai:main" "gpt-a") = 300000.
Proof.
  split; [|reflexivity]. intros p Hp. destruct validated_deadlines_fit_leases as [Hb _].
  destruct (Hb _ p "openai:main" "gpt-a" 5 7 Hp) as (_ & _ & Hf). apply Hf.
  vm_compute in Hp. injection Hp as <-. vm_compute. done.
Defined.
