(* ===== verification/RateLimit.v ===== *)
(** Request rates ([proxy/ratelimit.rs]): token buckets of binary64 numbers,
    on a monotonic clock in nanoseconds. *)

From S2P Require Import Prelude Text Json Stats.

Definition IDLE_EVICTION : Z := seconds 600.
Definition SWEEP_EVERY : Z := 512.

Inductive Decision := Allowed | Limited (retry_after_secs : Z).
Record Bucket := MkBucket { bk_tokens : spec_float; bk_last : Z }.
Record RateLimiter := MkLimiter { rl_buckets : gmap string Bucket; rl_checks : Z }.
Definition limiter_new : RateLimiter := MkLimiter ∅ 0.

(** [Duration::as_secs_f64], [f64::min] and a division. *)
Definition as_secs_f64 (d : Z) : spec_float :=
  SFadd 53 1024 (f64_of (d / nanos)) (SFdiv 53 1024 (f64_of (d mod nanos)) (f64_of nanos)).
Definition f64_min (x y : spec_float) : spec_float := if SFltb y x then y else x.
Definition per_second (limit : Z) : spec_float := SFdiv 53 1024 (f64_of limit) (f64_of 60).

Definition sweep (now : Z) (l : RateLimiter) : RateLimiter :=
  let checks := wadd (rl_checks l) 1 in
  MkLimiter (if checks mod SWEEP_EVERY =? 0 then filter (fun e => Z.max 0 (now - bk_last e.2) < IDLE_EVICTION) (rl_buckets l) else rl_buckets l)
    checks.
(** Refilled for the time since it was last used, up to its capacity. *)
Definition refill (now limit : Z) (b : Bucket) : Bucket :=
  let elapsed := as_secs_f64 (Z.max 0 (now - bk_last b)) in
  MkBucket (f64_min (SFadd 53 1024 (bk_tokens b) (SFmul 53 1024 elapsed (per_second limit))) (f64_of limit)) now.
Definition take (limit : Z) (b : Bucket) : Decision * Bucket :=
  if SFleb (f64_of 1) (bk_tokens b) then (Allowed, MkBucket (SFsub 53 1024 (bk_tokens b) (f64_of 1)) (bk_last b))
  else
    let deficit := SFsub 53 1024 (f64_of 1) (bk_tokens b) in
    (Limited (Z.max (ceil_usize (SFdiv 53 1024 deficit (per_second limit))) 1), b).

(** [lock_ok]: the mutex is not poisoned. *)
Definition check_at (lock_ok : bool) (key : string) (limit_per_min : option Z) (now : Z) (l : RateLimiter) : Decision * RateLimiter :=
  match limit_per_min with
  | None => (Allowed, l)
  | Some limit =>
      if limit <=? 0 then (Allowed, l)
      else if negb lock_ok then (Allowed, l)
      else
        let l := sweep now l in
        let b := default (MkBucket (f64_of limit) now) (rl_buckets l !! key) in
        let '(decision, b) := take limit (refill now limit b) in
        (decision, MkLimiter (<[key := b]> (rl_buckets l)) (rl_checks l))
  end.
Definition forget (lock_ok : bool) (key : string) (l : RateLimiter) : RateLimiter :=
  if lock_ok then MkLimiter (delete key (rl_buckets l)) (rl_checks l) else l.

(** ** Properties *)

(** A check under one key leaves the bucket of another as it is, unless that
    one was idle for ten minutes. *)
Lemma keys_are_independent lock_ok key limit now l k : k <> key ->
  let l' := (check_at lock_ok key limit now l).2 in
  rl_buckets l' !! k = rl_buckets l !! k
  \/ exists b, rl_buckets l !! k = Some b /\ IDLE_EVICTION <= now - bk_last b /\ rl_buckets l' !! k = None.
Proof.
  intros Hk l'. subst l'. unfold check_at. destruct limit as [limit|]; [|by left]. destruct (limit <=? 0); [by left|].
  destruct lock_ok; [|by left]. cbn [negb]. destruct (take _ _) as [d b]. cbn [snd rl_buckets].
  rewrite lookup_insert_ne by done. unfold sweep. cbn [rl_buckets]. destruct (_ =? 0); [|by left].
  rewrite map_lookup_filter. destruct (rl_buckets l !! k) as [c|] eqn:Hc; [|by left]. cbn.
  destruct (decide (Z.max 0 (now - bk_last c) < IDLE_EVICTION)) as [Hi|Hi].
  - left. by rewrite option_guard_True.
  - right. exists c. rewrite option_guard_False by done. split_and!; [done| |done]. unfold IDLE_EVICTION, seconds, nanos in *. lia.
Qed.

(** No limit and a limit of zero admit everything and keep no state, and a
    refusal names at least one second. *)
Lemma unlimited_is_admitted lock_ok key limit now l : default 0 limit <= 0 -> check_at lock_ok key limit now l = (Allowed, l).
Proof. intros H. unfold check_at. destruct limit as [limit|]; [|done]. cbn in H. by destruct (Z.leb_spec limit 0); [|lia]. Qed.
Lemma refusal_waits lock_ok key limit now l n : (check_at lock_ok key limit now l).1 = Limited n -> 1 <= n.
Proof.
  unfold check_at. destruct limit as [limit|]; [|done]. destruct (limit <=? 0); [done|]. destruct lock_ok; [|done].
  unfold take. destruct (SFleb _ _); cbn; [done|]. intros [= <-]. lia.
Qed.

(** A minute's burst at one instant, and the wait after it. *)
Fixpoint checks (n : nat) (key : string) (limit now : Z) (l : RateLimiter) : list Decision :=
  match n with
  | O => []
  | S n => let '(d, l) := check_at true key (Some limit) now l in d :: checks n key limit now l
  end.
Example burst_of_a_minute : checks 61 "key" 60 5 limiter_new = replicate 60 Allowed ++ [Limited 1].
Proof. vm_compute. reflexivity. Qed.
