(* ===== verification/ChatRequest.v ===== *)
(** The canonical chat request ([core/chat.rs]) and the accessors the
    request codecs share.  An error is its absence; messages are left
    out. *)

From S2P Require Import Prelude Text Usage Json UsageParse Inspect Attempt Accounting StreamEncoder.

(** ** JSON accessors *)

Definition str_at (v : Json) (k : string) : option string := jget v k ≫= jas_str.
Definition arr_at (v : Json) (k : string) : option (list Json) := jget v k ≫= jas_array.
Definition obj_at (v : Json) (k : string) : option Json := o ← jget v k; if jis_object o then Some o else None.
(** [Value::pointer("/a/b")], of keys that are no array index. *)
Definition pointer (v : Json) (k1 k2 : string) : option Json := x ← jget v k1; jget x k2.
Definition jnull_or (v : Json) (k : string) : Json := default JNull (jget v k).

(** [required_string] and [optional_string]. *)
Definition required_string (v : Json) (k : string) : option string := str_at v k.
Definition optional_string (v : Json) (k : string) : option (option string) :=
  match jget v k with
  | None | Some JNull => Some None
  | Some (JString s) => Some (Some s)
  | Some _ => None
  end.
Definition remove_key (k : string) (v : Json) : Json :=
  match v with JObject l => JObject (List.filter (fun e => negb (bool_decide (e.1 = k))) l) | v => v end.
(** [serde_json::to_value] of an [f64]: a number that is not finite is null. *)
Definition jfloat (f : spec_float) : Json := if f64_is_finite f then JFloat f else JNull.

(** A line feed. *)
Definition nl : string := String (ascii_of_nat 10) EmptyString.

(** ** The request *)

Inductive ContentPart :=
| PartText (text : string)
| PartImageUrl (image_url : string) (detail : option string)
| PartInputAudio (data format : string)
| PartFile (file_id file_data filename : option string).
Inductive MessageContent := ContentText (text : string) | ContentParts (parts : list ContentPart).
Record ToolCallV1 := MkToolCall { tc_id : string; tc_name : string; tc_arguments : string }.

Inductive ChatMessageV1 :=
| Developer (content : MessageContent) (name : option string)
| System (content : MessageContent) (name : option string)
| User (content : MessageContent) (name : option string)
| Assistant (content : option MessageContent) (name : option string) (tool_calls : list ToolCallV1) (refusal : option string)
| Tool (content : MessageContent) (tool_call_id : string)
| Function_ (content : MessageContent) (name : string).

Record ToolDefinitionV1 := MkToolDef { td_name : string; td_description : option string; td_parameters : Json; td_strict : option bool }.
Inductive ToolChoiceMode := ModeNone | ModeAuto | ModeRequired.
Inductive ToolChoiceV1 := ChoiceMode (m : ToolChoiceMode) | ChoiceFunction (name : string).
Record ThinkingV1 := MkThinking { th_enabled : bool; th_budget_tokens : option Z }.

(** The metadata is that of [Accounting].  The schema version is the constant every decoder writes, and the native
    response is always included.  [rq_extensions] is a sorted map. *)
Record ChatRequestV1 := MkRequest {
  rq_model : string; rq_messages : list ChatMessageV1; rq_tools : list ToolDefinitionV1; rq_tool_choice : option ToolChoiceV1;
  rq_temperature : option spec_float; rq_max_output_tokens : option Z; rq_stop : option (list string);
  rq_response_format : option Json; rq_seed : option Z; rq_metadata : RequestMetadataV1; rq_reasoning_effort : option string;
  rq_thinking : option ThinkingV1; rq_extensions : gmap string Json }.

(** The request with other extensions. *)
Definition with_extensions (e : gmap string Json) (r : ChatRequestV1) : ChatRequestV1 :=
  MkRequest (rq_model r) (rq_messages r) (rq_tools r) (rq_tool_choice r) (rq_temperature r) (rq_max_output_tokens r) (rq_stop r)
    (rq_response_format r) (rq_seed r) (rq_metadata r) (rq_reasoning_effort r) (rq_thinking r) e.

Definition blank (s : string) : bool := bool_decide (trim (bytes s) = []).
Definition message_valid (m : ChatMessageV1) : bool :=
  match m with
  | Tool _ tool_call_id => negb (blank tool_call_id)
  | Function_ _ name => negb (blank name)
  | _ => true
  end.
Definition validate (r : ChatRequestV1) : bool := negb (blank (rq_model r)) && forallb message_valid (rq_messages r).
Definition validated (r : ChatRequestV1) : option ChatRequestV1 := if validate r then Some r else None.

Definition content_text (c : MessageContent) : string :=
  match c with
  | ContentText t => t
  | ContentParts parts => String.concat "" (omap (fun p => match p with PartText t => Some t | _ => None end) parts)
  end.
Definition content_from_parts (parts : list ContentPart) : option MessageContent :=
  match parts with
  | [] => None
  | [PartText t] => Some (ContentText t)
  | _ => Some (ContentParts parts)
  end.

(** [mapM] over the entries of an optional array, absent being empty. *)
Definition each {A} (f : Json -> option A) (l : option (list Json)) : option (list A) := mapM f (default [] l).
(** [get(k).map(f).transpose()]. *)
Definition optionally {A} (f : Json -> option A) (v : option Json) : option (option A) :=
  match v with None => Some None | Some v => Some <$> f v end.
