(* ===== verification/RequestDecode.v ===== *)
(** The request decoders of the gateway ([proxy/codec.rs]): the body of each
    dialect to the canonical request.  The text of a JSON value is an
    argument. *)

From S2P Require Import Prelude Text Usage Json UsageParse Attempt Accounting StreamEncoder ChatRequest.

Definition default_parameters : Json := JObject [("type", JStr "object")].

(** ** Thinking *)

Definition lift_openai_thinking (object : Json) : option ThinkingV1 :=
  thinking ← obj_at object "thinking";
  Some (MkThinking (negb (bool_decide (str_at thinking "type" = Some "disabled"))) (jget thinking "budget_tokens" ≫= jas_u64)).
Definition lift_gemini_thinking (object : Json) : option ThinkingV1 :=
  budget ← (generation ← jget object "generationConfig"; thinking ← jget generation "thinkingConfig";
            jget thinking "thinkingBudget") ≫= jas_u64;
  Some (MkThinking (negb (budget =? 0)) (if budget =? 0 then None else Some budget)).

(** ** OpenAI *)

Definition family_slug (key : string) : bool :=
  negb (bool_decide (key = ""))
  && forallb (fun c => ((97 <=? c) && (c <=? 122)) || ((48 <=? c) && (c <=? 57)) || (c =? 45) || (c =? 95)) (bytes key).
Definition passthrough_entry (e : string * Json) : option (string * Json) :=
  if bool_decide (e.1 = "openai") then None
  else if negb (family_slug e.1) then None
  else if jis_object e.2 then Some e else None.
(** The buckets of the reserved field, and the body without it. *)
Definition decode_sandhi_extensions (body : Json) : option (list (string * Json) * Json) :=
  match jget body "sandhi_extensions" with
  | None => Some ([], body)
  | Some (JObject map) => entries ← mapM passthrough_entry map; Some (entries, remove_key "sandhi_extensions" body)
  | Some _ => None
  end.

Definition decode_openai_part (part : Json) : option ContentPart :=
  let kind := default "" (str_at part "type") in
  if bool_decide (kind = "text") || bool_decide (kind = "input_text") then Some (PartText (default "" (str_at part "text")))
  else if bool_decide (kind = "image_url") then
    let image := jnull_or part "image_url" in
    url ← (match jas_str image with Some s => Some s | None => str_at image "url" end);
    Some (PartImageUrl url (str_at image "detail"))
  else if bool_decide (kind = "input_audio") then
    let audio := jnull_or part "input_audio" in
    data ← str_at audio "data"; format ← str_at audio "format"; Some (PartInputAudio data format)
  else if bool_decide (kind = "file") || bool_decide (kind = "input_file") then
    let file := default part (jget part "file") in
    Some (PartFile (str_at file "file_id") (str_at file "file_data") (str_at file "filename"))
  else None.
Definition decode_openai_content (value : Json) : option MessageContent :=
  match jas_str value with
  | Some text => Some (ContentText text)
  | None => parts ← jas_array value; ContentParts <$> mapM decode_openai_part parts
  end.
Definition decode_openai_tool_call (value : Json) : option ToolCallV1 :=
  id ← str_at value "id";
  name ← pointer value "function" "name" ≫= jas_str;
  Some (MkToolCall id name (default "" (pointer value "function" "arguments" ≫= jas_str))).
Definition not_null (v : option Json) : option Json := match v with Some JNull => None | v => v end.
Definition decode_openai_message (object : Json) : option ChatMessageV1 :=
  if negb (jis_object object) then None
  else
    role ← required_string object "role";
    name ← optional_string object "name";
    let content := jget object "content" ≫= decode_openai_content in
    if bool_decide (role = "developer") then c ← content; Some (Developer c name)
    else if bool_decide (role = "system") then c ← content; Some (System c name)
    else if bool_decide (role = "user") then c ← content; Some (User c name)
    else if bool_decide (role = "assistant") then
      c ← optionally decode_openai_content (not_null (jget object "content"));
      calls ← each decode_openai_tool_call (arr_at object "tool_calls");
      refusal ← optional_string object "refusal";
      Some (Assistant c name calls refusal)
    else if bool_decide (role = "tool") then c ← content; id ← required_string object "tool_call_id"; Some (Tool c id)
    else if bool_decide (role = "function") then c ← content; n ← name; Some (Function_ c n)
    else None.
Definition decode_openai_tool (value : Json) : option ToolDefinitionV1 :=
  function ← obj_at value "function";
  name ← required_string function "name";
  description ← optional_string function "description";
  Some (MkToolDef name description (default default_parameters (jget function "parameters")) (jget function "strict" ≫= jas_bool)).
Definition decode_mode (mode : string) : option ToolChoiceV1 :=
  if bool_decide (mode = "none") then Some (ChoiceMode ModeNone)
  else if bool_decide (mode = "auto") then Some (ChoiceMode ModeAuto)
  else if bool_decide (mode = "required") then Some (ChoiceMode ModeRequired)
  else None.
Definition decode_openai_tool_choice (value : Json) : option ToolChoiceV1 :=
  match jas_str value with
  | Some mode => decode_mode mode
  | None => ChoiceFunction <$> (pointer value "function" "name" ≫= jas_str)
  end.
Definition decode_stop (value : option Json) : option (option (list string)) :=
  match value with
  | None | Some JNull => Some None
  | Some (JString stop) => Some (Some [stop])
  | Some (JArray stops) => Some <$> mapM jas_str stops
  | Some _ => None
  end.
Definition wants_stream (object : Json) : bool := default false (jget object "stream" ≫= jas_bool).

Definition decode_openai_request (body : Json) (metadata : RequestMetadataV1) : option (ChatRequestV1 * bool) :=
  '(passthrough, object) ← decode_sandhi_extensions body;
  if negb (jis_object object) then None
  else
    model ← required_string object "model";
    messages ← (values ← arr_at object "messages"; mapM decode_openai_message values);
    tools ← each decode_openai_tool (arr_at object "tools");
    tool_choice ← optionally decode_openai_tool_choice (jget object "tool_choice");
    stop ← decode_stop (jget object "stop");
    reasoning_effort ← optional_string object "reasoning_effort";
    let max := match jget object "max_completion_tokens" with Some v => Some v | None => jget object "max_tokens" end in
    request ← validated
      (MkRequest model messages tools tool_choice (jget object "temperature" ≫= jas_f64) (max ≫= jas_u64) stop
         (jget object "response_format") (jget object "seed" ≫= jas_i64) metadata reasoning_effort (lift_openai_thinking object)
         (foldl (fun m '(family, bucket) => <[family := bucket]> m) {["openai" := object]} passthrough));
    Some (request, wants_stream object).

(** ** Anthropic *)

(** One block's text, or the block itself when it is a string. *)
Definition text_block (block : Json) : option string :=
  match str_at block "text" with Some t => Some t | None => jas_str block end.
(** The pieces joined by newlines; empty pieces before the first text add
    none. *)
Definition join_lines (pieces : list string) : string :=
  foldl (fun text piece => (if bool_decide (text = "") then text else text +:+ nl) +:+ piece) "" pieces.
Definition decode_anthropic_text_content (value : Json) : option MessageContent :=
  match jas_str value with
  | Some text => Some (ContentText text)
  | None => blocks ← jas_array value; pieces ← mapM text_block blocks; Some (ContentText (join_lines pieces))
  end.
Definition decode_anthropic_part (block : Json) : option ContentPart :=
  kind ← str_at block "type";
  if bool_decide (kind = "text") then Some (PartText (default "" (str_at block "text")))
  else if bool_decide (kind = "image") then
    let source := jnull_or block "source" in
    source_kind ← str_at source "type";
    if bool_decide (source_kind = "url") then Some (PartImageUrl (default "" (str_at source "url")) None)
    else if bool_decide (source_kind = "base64") then
      Some (PartImageUrl ("data:" +:+ default "application/octet-stream" (str_at source "media_type") +:+ ";base64,"
                          +:+ default "" (str_at source "data")) None)
    else None
  else None.
Definition decode_anthropic_tool (tool : Json) : option ToolDefinitionV1 :=
  name ← str_at tool "name";
  Some (MkToolDef name (str_at tool "description") (default default_parameters (jget tool "input_schema")) None).
Definition decode_anthropic_tool_choice (value : Json) : option ToolChoiceV1 :=
  kind ← str_at value "type";
  if bool_decide (kind = "auto") then Some (ChoiceMode ModeAuto)
  else if bool_decide (kind = "any") then Some (ChoiceMode ModeRequired)
  else if bool_decide (kind = "none") then Some (ChoiceMode ModeNone)
  else if bool_decide (kind = "tool") then ChoiceFunction <$> str_at value "name"
  else None.

Section Decode.
Context (to_string : Json -> string).

(** The blocks of an assistant turn: its texts and its calls. *)
Definition anthropic_assistant_block (acc : list ContentPart * list ToolCallV1) (block : Json)
    : option (list ContentPart * list ToolCallV1) :=
  let '(parts, calls) := acc in
  kind ← str_at block "type";
  if bool_decide (kind = "text") then Some (parts ++ [PartText (default "" (str_at block "text"))], calls)
  else if bool_decide (kind = "tool_use") then
    Some (parts, calls ++ [MkToolCall (default "" (str_at block "id")) (default "" (str_at block "name"))
                             (to_string (jnull_or block "input"))])
  else if bool_decide (kind = "thinking") || bool_decide (kind = "redacted_thinking") then Some (parts, calls)
  else None.
Fixpoint foldM {A B} (f : A -> B -> option A) (acc : A) (l : list B) : option A :=
  match l with [] => Some acc | x :: l => acc ← f acc x; foldM f acc l end.

(** The blocks of a user turn: pending parts and the messages so far. *)
Definition flush_parts (parts : list ContentPart) : list ChatMessageV1 :=
  match parts with [] => [] | _ => [User (ContentParts parts) None] end.
Definition anthropic_user_block (acc : list ContentPart * list ChatMessageV1) (block : Json)
    : option (list ContentPart * list ChatMessageV1) :=
  let '(parts, messages) := acc in
  if bool_decide (str_at block "type" = Some "tool_result") then
    content ← decode_anthropic_text_content (default (JStr "") (jget block "content"));
    id ← str_at block "tool_use_id";
    Some ([], messages ++ flush_parts parts ++ [Tool content id])
  else part ← decode_anthropic_part block; Some (parts ++ [part], messages).
Definition anthropic_blocks (content : Json) : option (list Json) :=
  match jas_str content with
  | Some text => Some [JObject [("type", JStr "text"); ("text", JStr text)]]
  | None => jas_array content
  end.
Definition decode_anthropic_message (value : Json) : option (list ChatMessageV1) :=
  role ← str_at value "role";
  content ← jget value "content";
  blocks ← anthropic_blocks content;
  if bool_decide (role = "assistant") then
    '(parts, calls) ← foldM anthropic_assistant_block ([], []) blocks;
    Some [Assistant (content_from_parts parts) None calls None]
  else if bool_decide (role = "user") then
    '(parts, messages) ← foldM anthropic_user_block ([], []) blocks; Some (messages ++ flush_parts parts)
  else None.

Definition decode_anthropic_request (body : Json) (metadata : RequestMetadataV1) : option (ChatRequestV1 * bool) :=
  let object := remove_key "sandhi_extensions" body in
  if negb (jis_object object) then None
  else
    system ← optionally decode_anthropic_text_content (jget object "system");
    messages ← (values ← arr_at object "messages"; mapM decode_anthropic_message values);
    tools ← each decode_anthropic_tool (arr_at object "tools");
    model ← required_string object "model";
    tool_choice ← optionally decode_anthropic_tool_choice (jget object "tool_choice");
    stop ← decode_stop (jget object "stop_sequences");
    request ← validated
      (MkRequest model (option_list ((fun c => System c None) <$> system) ++ concat messages) tools tool_choice
         (jget object "temperature" ≫= jas_f64) (jget object "max_tokens" ≫= jas_u64) stop None None metadata None
         (lift_openai_thinking object) {["anthropic" := object]});
    Some (request, wants_stream object).
(** ** Responses *)

Definition responses_message_text (parts : list Json) : string :=
  foldl (fun text part =>
    if bool_decide (str_at part "type" ∈ [Some "input_text"; Some "output_text"; Some "text"]) then text +:+ default "" (str_at part "text")
    else text) "" parts.
Definition responses_message_refusal (parts : list Json) : string :=
  foldl (fun refusal part =>
    if bool_decide (str_at part "type" = Some "refusal") then refusal +:+ default "" (str_at part "refusal") else refusal) "" parts.
Definition nonempty (s : string) : option string := if bool_decide (s = "") then None else Some s.
Definition decode_responses_message_item (item : Json) : option ChatMessageV1 :=
  if negb (jis_object item) then None
  else
    role ← required_string item "role";
    let raw := jnull_or item "content" in
    parts ← (match jas_str raw with
             | Some text => Some [JObject [("type", JStr "input_text"); ("text", JStr text)]]
             | None => jas_array raw
             end);
    let text := responses_message_text parts in
    if bool_decide (role = "developer") then Some (Developer (ContentText text) None)
    else if bool_decide (role = "system") then Some (System (ContentText text) None)
    else if bool_decide (role = "user") then Some (User (ContentText text) None)
    else if bool_decide (role = "assistant") then
      Some (Assistant (ContentText <$> nonempty text) None [] (nonempty (responses_message_refusal parts)))
    else None.
Definition decode_responses_input_item (item : Json) : option (list ChatMessageV1) :=
  let kind := default "" (str_at item "type") in
  if bool_decide (kind = "message") then m ← decode_responses_message_item item; Some [m]
  else if bool_decide (kind = "function_call") then
    id ← (match str_at item "call_id" with Some id => Some id | None => str_at item "id" end);
    name ← required_string item "name";
    Some [Assistant None None [MkToolCall id name (default "" (str_at item "arguments"))] None]
  else if bool_decide (kind = "function_call_output") then
    id ← str_at item "call_id";
    let output := jnull_or item "output" in
    Some [Tool (ContentText match output with JString text => text | other => to_string other end) id]
  else Some [].
Definition decode_responses_input (input : option Json) : option (list ChatMessageV1) :=
  match input with
  | None => Some []
  | Some (JString text) => Some [User (ContentText text) None]
  | Some (JArray items) => (fun l => concat l) <$> mapM decode_responses_input_item items
  | Some _ => None
  end.
Definition decode_responses_tool (value : Json) : option ToolDefinitionV1 :=
  name ← (match str_at value "name" with Some n => Some n | None => pointer value "function" "name" ≫= jas_str end);
  let parameters := match jget value "parameters" with Some p => Some p | None => pointer value "function" "parameters" end in
  Some (MkToolDef name (str_at value "description") (default default_parameters parameters) (jget value "strict" ≫= jas_bool)).
Definition decode_responses_tool_choice (value : Json) : option ToolChoiceV1 :=
  match jas_str value with
  | Some mode => decode_mode mode
  | None => ChoiceFunction <$> str_at value "name"
  end.
Definition responses_response_format (format : Json) : Json :=
  if bool_decide (str_at format "type" = Some "json_schema") then
    JObject [("type", JStr "json_schema");
             ("json_schema", JObject [("name", jnull_or format "name"); ("schema", jnull_or format "schema");
                                      ("strict", default (JBool false) (jget format "strict"))])]
  else format.

Definition decode_responses_request (body : Json) (metadata : RequestMetadataV1) : option (ChatRequestV1 * bool) :=
  let object := remove_key "sandhi_extensions" body in
  if negb (jis_object object) then None
  else
    instructions ← optional_string object "instructions";
    input ← decode_responses_input (jget object "input");
    tools ← each decode_responses_tool (arr_at object "tools");
    model ← required_string object "model";
    tool_choice ← optionally decode_responses_tool_choice (jget object "tool_choice");
    request ← validated
      (MkRequest model (option_list ((fun t => System (ContentText t) None) <$> instructions) ++ input) tools tool_choice
         (jget object "temperature" ≫= jas_f64) (jget object "max_output_tokens" ≫= jas_u64) None
         (responses_response_format <$> pointer object "text" "format") None metadata
         (pointer object "reasoning" "effort" ≫= jas_str) None {["openai_responses" := object]});
    Some (request, wants_stream object).

(** ** Gemini *)

Definition texts_of (parts : list Json) : string := String.concat "" (omap (fun p => str_at p "text") parts).
Definition gemini_parts_text (parts : option Json) : option string :=
  parts ← parts; parts ← jas_array parts; nonempty (texts_of parts).
Definition gemini_part (part : Json) : option ContentPart :=
  match str_at part "text" with
  | Some text => Some (PartText text)
  | None =>
      inline ← jget part "inlineData";
      Some (PartImageUrl ("data:" +:+ default "application/octet-stream" (str_at inline "mimeType") +:+ ";base64,"
                          +:+ default "" (str_at inline "data")) None)
  end.
Definition is_text (p : ContentPart) : bool := match p with PartText _ => true | _ => false end.
Definition gemini_content (parts : list Json) : option MessageContent :=
  match omap gemini_part parts with
  | [] => None
  | collected =>
      if forallb is_text collected then Some (ContentText (content_text (ContentParts collected)))
      else Some (ContentParts collected)
  end.
(** A result of a tool, nested in a turn of the user. *)
Definition gemini_tool_result (fr : Json) : ChatMessageV1 :=
  let id := match jget fr "id" with Some id => Some id | None => jget fr "name" end in
  let output := default JNull (pointer fr "response" "output") in
  Tool (ContentText match output with JString text => text | other => to_string other end) (default "" (id ≫= jas_str)).
Definition gemini_tool_call (fc : Json) : ToolCallV1 :=
  let name := default "" (str_at fc "name") in
  MkToolCall (default name (str_at fc "id")) name (match jget fc "args" with Some args => to_string args | None => "{}" end).
Definition decode_gemini_turn (content : Json) : list ChatMessageV1 :=
  let parts := default [] (arr_at content "parts") in
  match omap (fun part => jget part "functionResponse") parts with
  | [] =>
      let calls := gemini_tool_call <$> omap (fun part => jget part "functionCall") parts in
      let decoded := gemini_content parts in
      if bool_decide (str_at content "role" = Some "model") then [Assistant decoded None calls None]
      else [User (default (ContentText "") decoded) None]
  | results => gemini_tool_result <$> results
  end.
(** [serde_json::from_value::<ToolDefinitionV1>]. *)
Definition parse_tool_definition (d : Json) : option ToolDefinitionV1 :=
  if negb (jis_object d) then None
  else
    name ← str_at d "name";
    description ← optional_string d "description";
    parameters ← jget d "parameters";
    strict ← (match jget d "strict" with
              | None | Some JNull => Some None
              | Some (JBool b) => Some (Some b)
              | Some _ => None
              end);
    Some (MkToolDef name description parameters strict).
Definition gemini_tools (object : Json) : list ToolDefinitionV1 :=
  omap parse_tool_definition (concat (omap (fun entry => arr_at entry "functionDeclarations") (default [] (arr_at object "tools")))).
Definition gemini_tool_choice (object : Json) : option ToolChoiceV1 :=
  config ← pointer object "toolConfig" "functionCallingConfig";
  mode ← str_at config "mode";
  Some (if bool_decide (mode = "NONE") then ChoiceMode ModeNone
        else if bool_decide (mode = "ANY") then
          match (names ← arr_at config "allowedFunctionNames"; first ← head names; jas_str first) with
          | Some name => ChoiceFunction name
          | None => ChoiceMode ModeRequired
          end
        else ChoiceMode ModeAuto).
Definition modelled_keys : list string :=
  ["contents"; "systemInstruction"; "tools"; "toolConfig"; "generationConfig"; "model"; "sandhi_extensions"].
Definition modelled_generation : list string := ["temperature"; "maxOutputTokens"; "stopSequences"].
Definition without (keys : list string) (l : list (string * Json)) : list (string * Json) :=
  List.filter (fun e => negb (bool_decide (e.1 ∈ keys))) l.
Definition fields_of (v : Json) : list (string * Json) := match v with JObject l => l | _ => [] end.
(** What the codec does not model, kept for a Gemini upstream. *)
Definition gemini_leftovers (object : Json) : list (string * Json) :=
  without modelled_keys (fields_of object)
  ++ match without modelled_generation (default [] (fields_of <$> obj_at object "generationConfig")) with
     | [] => []
     | leftovers => [("generationConfig", JObject leftovers)]
     end.

Definition decode_gemini_request (object : Json) (metadata : RequestMetadataV1) : option (ChatRequestV1 * bool) :=
  if negb (jis_object object) then None
  else
    contents ← arr_at object "contents";
    let system := jget object "systemInstruction" ≫= (fun s => gemini_parts_text (jget s "parts")) in
    let generation := default JNull (obj_at object "generationConfig") in
    Some (MkRequest "" (option_list ((fun t => System (ContentText t) None) <$> system) ++ flat_map decode_gemini_turn contents)
            (gemini_tools object) (gemini_tool_choice object) (jget generation "temperature" ≫= jas_f64)
            (jget generation "maxOutputTokens" ≫= jas_u64) ((fun l : list Json => omap jas_str l) <$> arr_at generation "stopSequences") None None metadata None
            (lift_gemini_thinking object)
            (match gemini_leftovers object with [] => ∅ | l => {["gemini" := JObject l]} end),
          false).
End Decode.
