(* ===== verification/RequestEncode.v ===== *)
(** The request encoders of the providers ([providers/typed.rs],
    [anthropic_typed.rs], [gemini_typed.rs], [openai_responses_typed.rs]):
    the canonical request to the body an upstream is sent.  The parser of a
    JSON text is an argument. *)

From S2P Require Import Prelude Text Usage Json UsageParse Inspect Attempt Accounting StreamEncoder ChatRequest RequestDecode.

(** [body.insert] and [insert_optional]. *)
Definition insert_opt (k : string) (v : option Json) (l : list (string * Json)) : list (string * Json) :=
  match v with Some v => field_set k v l | None => l end.
Definition bucket (r : ChatRequestV1) (family : string) : list (string * Json) :=
  match rq_extensions r !! family with Some (JObject l) => l | _ => [] end.
Definition strings (l : list string) : Json := JArray (JStr <$> l).
Definition jopt_bool (o : option bool) : Json := match o with Some b => JBool b | None => JNull end.
Definition lookup_key (k : string) (l : list (string * Json)) : option Json := assoc k l.
Definition drop_key (k : string) (l : list (string * Json)) : list (string * Json) :=
  List.filter (fun e => negb (bool_decide (e.1 = k))) l.

(** ** OpenAI-compatible upstreams *)

Definition encode_content_part (p : ContentPart) : Json :=
  match p with
  | PartText text => JObject [("type", JStr "text"); ("text", JStr text)]
  | PartImageUrl url detail =>
      JObject [("type", JStr "image_url"); ("image_url", JObject [("url", JStr url); ("detail", jopt detail)])]
  | PartInputAudio data format =>
      JObject [("type", JStr "input_audio"); ("input_audio", JObject [("data", JStr data); ("format", JStr format)])]
  | PartFile file_id file_data filename =>
      JObject [("type", JStr "file");
               ("file", JObject [("file_id", jopt file_id); ("file_data", jopt file_data); ("filename", jopt filename)])]
  end.
Definition encode_content (c : MessageContent) : Json :=
  match c with ContentText text => JStr text | ContentParts parts => JArray (encode_content_part <$> parts) end.
Definition encode_tool_call (c : ToolCallV1) : Json :=
  JObject [("id", JStr (tc_id c)); ("type", JStr "function");
           ("function", JObject [("name", JStr (tc_name c)); ("arguments", JStr (tc_arguments c))])].
Definition opt_field (k : string) (v : option Json) : list (string * Json) := match v with Some v => [(k, v)] | None => [] end.
Definition message_with_content (role : string) (c : MessageContent) (name : option string) : Json :=
  JObject ([("role", JStr role); ("content", encode_content c)] ++ opt_field "name" (JStr <$> name)).
Definition encode_message (m : ChatMessageV1) : Json :=
  match m with
  | Developer c name => message_with_content "developer" c name
  | System c name => message_with_content "system" c name
  | User c name => message_with_content "user" c name
  | Assistant c name calls refusal =>
      JObject ([("role", JStr "assistant")] ++ opt_field "content" (encode_content <$> c) ++ opt_field "name" (JStr <$> name)
               ++ opt_field "tool_calls" (match calls with [] => None | _ => Some (JArray (encode_tool_call <$> calls)) end)
               ++ opt_field "refusal" (JStr <$> refusal))
  | Tool c id => JObject [("role", JStr "tool"); ("content", encode_content c); ("tool_call_id", JStr id)]
  | Function_ c name => JObject [("role", JStr "function"); ("content", encode_content c); ("name", JStr name)]
  end.
Definition encode_tool (t : ToolDefinitionV1) : Json :=
  JObject [("type", JStr "function");
           ("function", JObject [("name", JStr (td_name t)); ("description", jopt (td_description t)); ("parameters", td_parameters t);
                                 ("strict", jopt_bool (td_strict t))])].
Definition mode_name (m : ToolChoiceMode) : string :=
  match m with ModeNone => "none" | ModeAuto => "auto" | ModeRequired => "required" end.
Definition encode_tool_choice (c : ToolChoiceV1) : Json :=
  match c with
  | ChoiceMode m => JStr (mode_name m)
  | ChoiceFunction name => JObject [("type", JStr "function"); ("function", JObject [("name", JStr name)])]
  end.
Definition encode_openai_thinking (t : ThinkingV1) : Json :=
  JObject ([("type", JStr (if th_enabled t then "enabled" else "disabled"))] ++ opt_field "budget_tokens" (JNumber <$> th_budget_tokens t)).
Definition tools_field {A} (encode : A -> Json) (tools : list A) : option Json :=
  match tools with [] => None | _ => Some (JArray (encode <$> tools)) end.

Definition openai_fields (r : ChatRequestV1) : list (string * Json) :=
  insert_opt "thinking" (encode_openai_thinking <$> rq_thinking r)
  (insert_opt "reasoning_effort" (JStr <$> rq_reasoning_effort r)
  (insert_opt "response_format" (rq_response_format r)
  (insert_opt "stop" (strings <$> rq_stop r)
  (insert_opt "seed" (JNumber <$> rq_seed r)
  (insert_opt "max_tokens" (JNumber <$> rq_max_output_tokens r)
  (insert_opt "temperature" (jfloat <$> rq_temperature r)
  (insert_opt "tool_choice" (encode_tool_choice <$> rq_tool_choice r)
  (insert_opt "tools" (tools_field encode_tool (rq_tools r))
  (insert_opt "messages" (Some (JArray (encode_message <$> rq_messages r)))
  (insert_opt "model" (Some (JStr (rq_model r))) (bucket r "openai"))))))))))).
Definition encode_openai_request (r : ChatRequestV1) : option Json := if validate r then Some (JObject (openai_fields r)) else None.

(** ** Data URLs *)

(** [split_once(";base64,")]. *)
Definition base64_marker : list Z := bytes ";base64,".
Fixpoint split_base64 (s : list Z) : option (list Z * list Z) :=
  match strip_prefix base64_marker s with
  | Some rest => Some ([], rest)
  | None => match s with [] => None | c :: s => (fun '(a, b) => (c :: a, b)) <$> split_base64 s end
  end.
(** The media type and the data of a data URL; [None] when it has no
    marker. *)
Definition data_url (url : string) : option (option (string * string)) :=
  match strip_prefix (bytes "data:") (bytes url) with
  | Some data => Some ((fun '(m, d) => (string_of m, string_of d)) <$> split_base64 data)
  | None => None
  end.

Section Encode.
Context (from_str : string -> option Json).

(** ** Anthropic *)

Definition text_json (text : string) : Json := JObject [("type", JStr "text"); ("text", JStr text)].
Definition text_only (c : MessageContent) : option string :=
  match c with
  | ContentText text => Some text
  | ContentParts parts => String.concat nl <$> mapM (fun p => match p with PartText t => Some t | _ => None end) parts
  end.
Definition anthropic_part (p : ContentPart) : option Json :=
  match p with
  | PartText text => Some (text_json text)
  | PartImageUrl url _ =>
      match data_url url with
      | Some (Some (media_type, data)) =>
          Some (JObject [("type", JStr "image");
                         ("source", JObject [("type", JStr "base64"); ("media_type", JStr media_type); ("data", JStr data)])])
      | Some None => None
      | None => Some (JObject [("type", JStr "image"); ("source", JObject [("type", JStr "url"); ("url", JStr url)])])
      end
  | PartInputAudio _ _ | PartFile _ _ _ => None
  end.
Definition anthropic_content (c : MessageContent) : option (list Json) :=
  match c with ContentText text => Some [text_json text] | ContentParts parts => mapM anthropic_part parts end.
Definition anthropic_call (c : ToolCallV1) : option Json :=
  input ← from_str (tc_arguments c);
  Some (JObject [("type", JStr "tool_use"); ("id", JStr (tc_id c)); ("name", JStr (tc_name c)); ("input", input)]).
(** A message is a block of the system prompt or a turn. *)
Definition anthropic_message (m : ChatMessageV1) : option (list Json * list Json) :=
  match m with
  | Developer c _ | System c _ => text ← text_only c; Some ([text_json text], [])
  | User c _ => content ← anthropic_content c; Some ([], [JObject [("role", JStr "user"); ("content", JArray content)]])
  | Assistant c _ calls refusal =>
      blocks ← (match c with Some c => anthropic_content c | None => Some [] end);
      calls ← mapM anthropic_call calls;
      Some ([], [JObject [("role", JStr "assistant"); ("content", JArray (blocks ++ option_list (text_json <$> refusal) ++ calls))]])
  | Tool c id =>
      content ← anthropic_content c;
      Some ([], [JObject [("role", JStr "user");
                          ("content", JArray [JObject [("type", JStr "tool_result"); ("tool_use_id", JStr id); ("content", JArray content)]])]])
  | Function_ _ _ => None
  end.
Definition ephemeral : Json := JObject [("type", JStr "ephemeral")].
(** The markers of the native system blocks, by position. *)
Fixpoint mark_system (system native : list Json) : list Json :=
  match system, native with
  | b :: system, n :: native =>
      match jget n "cache_control" with Some c => jset "cache_control" c b | None => b end :: mark_system system native
  | system, _ => system
  end.
Definition native_marker (native : list Json) (name : option string) : option Json :=
  head (omap (fun n => if bool_decide (str_at n "name" = name) then jget n "cache_control" else None) native).
Definition mark_tools (native : list Json) (tools : list Json) : list Json :=
  (fun t => match native_marker native (str_at t "name") with Some c => jset "cache_control" c t | None => t end) <$> tools.
Fixpoint mark_last (l : list Json) : list Json :=
  match l with [] => [] | [x] => [jset "cache_control" ephemeral x] | x :: l => x :: mark_last l end.
Definition anthropic_tool (t : ToolDefinitionV1) : Json :=
  JObject [("name", JStr (td_name t)); ("description", jopt (td_description t)); ("input_schema", td_parameters t)].
Definition thinking_enabled (r : ChatRequestV1) : bool := match rq_thinking r with Some t => th_enabled t | None => false end.
Definition anthropic_choice (choice : option ToolChoiceV1) (l : list (string * Json)) : list (string * Json) :=
  match choice with
  | None => l
  | Some (ChoiceMode ModeNone) => drop_key "tools" l
  | Some (ChoiceMode ModeAuto) => field_set "tool_choice" (JObject [("type", JStr "auto")]) l
  | Some (ChoiceMode ModeRequired) => field_set "tool_choice" (JObject [("type", JStr "any")]) l
  | Some (ChoiceFunction name) => field_set "tool_choice" (JObject [("type", JStr "tool"); ("name", JStr name)]) l
  end.
Definition anthropic_thinking (t : option ThinkingV1) (l : list (string * Json)) : list (string * Json) :=
  match t with
  | None => l
  | Some t =>
      if th_enabled t
      then field_set "thinking" (JObject ([("type", JStr "enabled")] ++ opt_field "budget_tokens" (JNumber <$> th_budget_tokens t))) l
      else drop_key "thinking" l
  end.

Definition encode_anthropic_request (r : ChatRequestV1) : option Json :=
  if negb (validate r) then None
  else
    let body := bucket r "anthropic" in
    let auto := negb (bool_decide (is_Some (rq_extensions r !! "anthropic"))) in
    messages ← mapM anthropic_message (rq_messages r);
    max_tokens ← rq_max_output_tokens r;
    let system := mark_system (concat messages.*1) (default [] (lookup_key "system" body ≫= jas_array)) in
    let system := if auto then mark_last system else system in
    let tools := mark_tools (default [] (lookup_key "tools" body ≫= jas_array)) (anthropic_tool <$> rq_tools r) in
    let tools := if auto then mark_last tools else tools in
    Some (JObject
      (anthropic_thinking (rq_thinking r)
      (anthropic_choice (rq_tool_choice r)
      (insert_opt "tools" (match rq_tools r with [] => None | _ => Some (JArray tools) end)
      (insert_opt "stop_sequences" (strings <$> rq_stop r)
      (insert_opt "temperature" (if thinking_enabled r then None else jfloat <$> rq_temperature r)
      (insert_opt "max_tokens" (Some (JNumber max_tokens))
      (insert_opt "system" (match system with [] => None | _ => Some (JArray system) end)
      (insert_opt "messages" (Some (JArray (concat messages.*2)))
      (insert_opt "model" (Some (JStr (rq_model r))) body)))))))))).

(** ** Gemini *)

Definition gemini_part_json (p : ContentPart) : option Json :=
  match p with
  | PartText text => Some (JObject [("text", JStr text)])
  | PartImageUrl url _ =>
      match data_url url with
      | Some (Some (mime, data)) => Some (JObject [("inlineData", JObject [("mimeType", JStr mime); ("data", JStr data)])])
      | Some None => None
      | None => Some (JObject [("fileData", JObject [("fileUri", JStr url)])])
      end
  | PartInputAudio data format => Some (JObject [("inlineData", JObject [("mimeType", JStr ("audio/" +:+ format)); ("data", JStr data)])])
  | PartFile (Some id) _ _ => Some (JObject [("fileData", JObject [("fileUri", JStr id)])])
  | PartFile None _ _ => None
  end.
Definition gemini_parts (c : MessageContent) : option (list Json) :=
  match c with ContentText text => Some [JObject [("text", JStr text)]] | ContentParts parts => mapM gemini_part_json parts end.
(** [json!] of content parts, by their derived serialisation. *)
Definition part_value (p : ContentPart) : Json :=
  match p with
  | PartText text => text_json text
  | PartImageUrl url detail =>
      JObject ([("type", JStr "image_url"); ("image_url", JStr url)] ++ opt_field "detail" (JStr <$> detail))
  | PartInputAudio data format => JObject [("type", JStr "input_audio"); ("data", JStr data); ("format", JStr format)]
  | PartFile file_id file_data filename =>
      JObject ([("type", JStr "file")] ++ opt_field "file_id" (JStr <$> file_id) ++ opt_field "file_data" (JStr <$> file_data)
               ++ opt_field "filename" (JStr <$> filename))
  end.
Definition content_as_value (c : MessageContent) : Json :=
  match c with ContentText text => JStr text | ContentParts parts => JArray (part_value <$> parts) end.
Definition gemini_call (c : ToolCallV1) : option Json :=
  args ← from_str (tc_arguments c);
  Some (JObject [("functionCall", JObject [("name", JStr (tc_name c)); ("args", args); ("id", JStr (tc_id c))])]).
(** The names of the calls by id; the last call of an id wins. *)
Definition tool_names (messages : list ChatMessageV1) : gmap string string :=
  foldl (fun m c => <[tc_id c := tc_name c]> m) ∅
    (flat_map (fun m => match m with Assistant _ _ calls _ => calls | _ => [] end) messages).
Definition gemini_turn (role : string) (parts : list Json) : Json := JObject [("role", JStr role); ("parts", JArray parts)].
Definition gemini_message (names : gmap string string) (m : ChatMessageV1) : option (list Json * list Json) :=
  match m with
  | Developer c _ | System c _ => parts ← gemini_parts c; Some (parts, [])
  | User c _ => parts ← gemini_parts c; Some ([], [gemini_turn "user" parts])
  | Assistant c _ calls refusal =>
      parts ← (match c with Some c => gemini_parts c | None => Some [] end);
      calls ← mapM gemini_call calls;
      Some ([], [gemini_turn "model" (parts ++ option_list ((fun t => JObject [("text", JStr t)]) <$> refusal) ++ calls)])
  | Tool c id =>
      name ← names !! id;
      Some ([], [gemini_turn "user" [JObject [("functionResponse",
        JObject [("name", JStr name); ("id", JStr id); ("response", JObject [("output", content_as_value c)])])]]])
  | Function_ _ _ => None
  end.
Definition gemini_choice (c : ToolChoiceV1) : Json :=
  JObject [("functionCallingConfig",
    JObject match c with
            | ChoiceMode ModeNone => [("mode", JStr "NONE")]
            | ChoiceMode ModeAuto => [("mode", JStr "AUTO")]
            | ChoiceMode ModeRequired => [("mode", JStr "ANY")]
            | ChoiceFunction name => [("mode", JStr "ANY"); ("allowedFunctionNames", JArray [JStr name])]
            end)].
(** [ToolDefinitionV1] as it is serialised. *)
Definition tool_value (t : ToolDefinitionV1) : Json :=
  JObject ([("name", JStr (td_name t))] ++ opt_field "description" (JStr <$> td_description t)
           ++ [("parameters", td_parameters t)] ++ opt_field "strict" (JBool <$> td_strict t)).
Definition gemini_thinking (t : ThinkingV1) : Json :=
  JObject (if negb (th_enabled t) then [("thinkingBudget", JNumber 0)] else opt_field "thinkingBudget" (JNumber <$> th_budget_tokens t)).

Definition encode_gemini_request (r : ChatRequestV1) : option Json :=
  if negb (validate r) then None
  else
    let body := bucket r "gemini" in
    messages ← mapM (gemini_message (tool_names (rq_messages r))) (rq_messages r);
    let generation :=
      insert_opt "thinkingConfig" (gemini_thinking <$> rq_thinking r)
      (insert_opt "stopSequences" (strings <$> rq_stop r)
      (insert_opt "maxOutputTokens" (JNumber <$> rq_max_output_tokens r)
      (insert_opt "temperature" (jfloat <$> rq_temperature r)
        (default [] (fields_of <$> lookup_key "generationConfig" body))))) in
    Some (JObject
      (insert_opt "generationConfig" (match generation with [] => None | _ => Some (JObject generation) end)
      (drop_key "generationConfig"
      (insert_opt "toolConfig" (gemini_choice <$> rq_tool_choice r)
      (insert_opt "tools" (match rq_tools r with [] => None
                           | tools => Some (JArray [JObject [("functionDeclarations", JArray (tool_value <$> tools))]]) end)
      (insert_opt "systemInstruction" (match concat messages.*1 with [] => None | parts => Some (JObject [("parts", JArray parts)]) end)
      (insert_opt "contents" (Some (JArray (concat messages.*2))) body))))))).
End Encode.

(** ** Responses *)

Inductive OpenAiResponsesProfile := Standard | ChatGptCodex.
#[export] Instance OpenAiResponsesProfile_eq_dec : EqDecision OpenAiResponsesProfile.
Proof. solve_decision. Defined.

Definition encode_response_content_part (assistant : bool) (p : ContentPart) : option Json :=
  match p with
  | PartText text => Some (JObject [("type", JStr (if assistant then "output_text" else "input_text")); ("text", JStr text)])
  | PartImageUrl url detail =>
      if assistant then None
      else Some (JObject [("type", JStr "input_image"); ("image_url", JStr url); ("detail", jopt detail)])
  | PartFile file_id file_data filename =>
      if assistant then None
      else Some (JObject [("type", JStr "input_file"); ("file_id", jopt file_id); ("file_data", jopt file_data); ("filename", jopt filename)])
  | PartInputAudio _ _ => None
  end.
Definition message_item (role : string) (parts : list Json) : Json :=
  JObject [("type", JStr "message"); ("role", JStr role); ("content", JArray parts)].
Definition response_message (role : string) (assistant : bool) (c : MessageContent) : option Json :=
  parts ← mapM (encode_response_content_part assistant) (match c with ContentText t => [PartText t] | ContentParts parts => parts end);
  Some (message_item role parts).
Definition call_item (c : ToolCallV1) : Json :=
  JObject [("type", JStr "function_call"); ("call_id", JStr (tc_id c)); ("name", JStr (tc_name c)); ("arguments", JStr (tc_arguments c))].
Definition encode_input_message (m : ChatMessageV1) : option (list Json) :=
  match m with
  | Developer c _ => x ← response_message "developer" false c; Some [x]
  | System c _ => x ← response_message "system" false c; Some [x]
  | User c _ => x ← response_message "user" false c; Some [x]
  | Assistant c _ calls refusal =>
      items ← (match c with Some c => x ← response_message "assistant" true c; Some [x] | None => Some [] end);
      Some (items
            ++ option_list ((fun t => message_item "assistant" [JObject [("type", JStr "refusal"); ("refusal", JStr t)]]) <$> refusal)
            ++ (call_item <$> calls))
  | Tool c id =>
      Some [JObject [("type", JStr "function_call_output"); ("call_id", JStr id); ("output", content_as_value c)]]
  | Function_ _ _ => None
  end.
Definition responses_tool (t : ToolDefinitionV1) : Json :=
  JObject [("type", JStr "function"); ("name", JStr (td_name t)); ("description", jopt (td_description t));
           ("parameters", td_parameters t); ("strict", jopt_bool (td_strict t))].
Definition responses_choice (c : ToolChoiceV1) : Json :=
  match c with
  | ChoiceMode m => JStr (mode_name m)
  | ChoiceFunction name => JObject [("type", JStr "function"); ("name", JStr name)]
  end.
Definition responses_text_format (format : Json) : Json :=
  if bool_decide (str_at format "type" = Some "json_schema") then
    let schema := jnull_or format "json_schema" in
    JObject [("type", JStr "json_schema"); ("name", jnull_or schema "name"); ("schema", jnull_or schema "schema");
             ("strict", default (JBool false) (jget schema "strict"))]
  else format.
(** [entry("reasoning")], an object to merge the effort into. *)
Definition merge_effort (effort : option string) (l : list (string * Json)) : list (string * Json) :=
  match effort with
  | None => l
  | Some e =>
      match lookup_key "reasoning" l with
      | None => field_set "reasoning" (JObject [("effort", JStr e)]) l
      | Some (JObject o) => field_set "reasoning" (JObject (field_set "effort" (JStr e) o)) l
      | Some _ => l
      end
  end.

(** The text of the instructions of a Codex request. *)
Definition instruction_text (c : MessageContent) : option string :=
  match c with
  | ContentText text => Some text
  | ContentParts parts => String.concat "" <$> mapM (fun p => match p with PartText t => Some t | _ => None end) parts
  end.
Definition is_instruction (m : ChatMessageV1) : bool := match m with Developer _ _ | System _ _ => true | _ => false end.
Definition instruction_content (m : ChatMessageV1) : option MessageContent :=
  match m with Developer c _ | System c _ => Some c | _ => None end.
Definition codex_instructions (messages : list ChatMessageV1) : option (option string) :=
  blocks ← mapM instruction_text (omap instruction_content messages);
  let joined := String.concat (nl +:+ nl) blocks in Some (if blank joined then None else Some joined).
Definition codex_fields (messages : list ChatMessageV1) (l : list (string * Json)) : option (list (string * Json)) :=
  let native := match lookup_key "instructions" l ≫= jas_str with Some t => if blank t then None else Some t | None => None end in
  written ← codex_instructions messages;
  instructions ← (match native with Some t => Some t | None => written end);
  let l := field_set "stream" (JBool true) (field_set "store" (JBool false) (field_set "instructions" (JStr instructions) l)) in
  let l := drop_key "max_output_tokens" (drop_key "temperature" l) in
  Some (match lookup_key "include" l with Some _ => l | None => field_set "include" (strings ["reasoning.encrypted_content"]) l end).

Definition encode_responses_request_for_profile (profile : OpenAiResponsesProfile) (r : ChatRequestV1) : option Json :=
  if negb (validate r) || bool_decide (is_Some (rq_stop r)) || bool_decide (is_Some (rq_seed r)) then None
  else
    let body := bucket r "openai_responses" in
    input ← mapM encode_input_message
      (List.filter (fun m => negb (bool_decide (profile = ChatGptCodex) && is_instruction m)) (rq_messages r));
    let input := concat input ++ default [] (lookup_key "input_items" body ≫= jas_array) in
    let fields :=
      merge_effort (rq_reasoning_effort r)
      (insert_opt "text" ((fun f => JObject [("format", responses_text_format f)]) <$> rq_response_format r)
      (insert_opt "max_output_tokens" (JNumber <$> rq_max_output_tokens r)
      (insert_opt "temperature" (jfloat <$> rq_temperature r)
      (insert_opt "tool_choice" (responses_choice <$> rq_tool_choice r)
      (insert_opt "tools" (tools_field responses_tool (rq_tools r))
      (insert_opt "input" (Some (JArray input))
      (insert_opt "model" (Some (JStr (rq_model r))) (drop_key "input_items" body)))))))) in
    match profile with
    | Standard => Some (JObject fields)
    | ChatGptCodex => JObject <$> codex_fields (rq_messages r) fields
    end.
