(* ===== verification/RequestProps.v ===== *)
(** What translation keeps of a request: a request re-encoded for an
    OpenAI-compatible upstream is read back as it was, and the conversation
    of any request survives the encoding for Anthropic. *)

From S2P Require Import Prelude Text Usage Json UsageParse Inspect Attempt Accounting StreamEncoder ChatRequest RequestDecode RequestEncode.

(** ** Lookups in built bodies *)

Lemma assoc_set k k' v l : assoc k (field_set k' v l) = if bool_decide (k = k') then Some v else assoc k l.
Proof.
  induction l as [|[k1 v1] l IH]; cbn [field_set assoc]; [done|].
  destruct (decide (k' = k1)) as [->|Hne]; [rewrite (bool_decide_eq_true_2 (k1 = k1)) by done|rewrite (bool_decide_eq_false_2 (k' = k1)) by done];
    cbn [assoc]; rewrite ?IH; repeat case_bool_decide; congruence.
Qed.
Lemma assoc_insert k k' v l : assoc k (insert_opt k' v l) =
  if bool_decide (k = k') then (match v with Some v => Some v | None => assoc k l end) else assoc k l.
Proof. destruct v; cbn [insert_opt]; [apply assoc_set|by case_bool_decide]. Qed.
Lemma assoc_drop k k' l : assoc k (drop_key k' l) = if bool_decide (k = k') then None else assoc k l.
Proof.
  induction l as [|[k1 v1] l IH]; [by case_bool_decide|]. cbn [drop_key List.filter assoc fst]. fold (drop_key k' l).
  destruct (decide (k1 = k')) as [->|Hne]; [rewrite (bool_decide_eq_true_2 (k' = k')) by done|rewrite (bool_decide_eq_false_2 (k1 = k')) by done];
    cbn [negb assoc]; rewrite ?IH; repeat case_bool_decide; congruence.
Qed.
Lemma jget_remove k k' v : jget (remove_key k' v) k = if bool_decide (k = k') then None else jget v k.
Proof. destruct v; cbn; try (by case_bool_decide). apply assoc_drop. Qed.

(** Comparisons of closed keys, decided. *)
Ltac keys := repeat (match goal with
  | |- context [@bool_decide ?P ?d] =>
      let b := eval vm_compute in (@bool_decide P d) in
      match b with true => change (@bool_decide P d) with true | false => change (@bool_decide P d) with false end
  end; cbn beta iota).

Ltac lookups := repeat progress (cbn in *; keys).

(** Past the fields of other keys, to the field of the key. *)
Lemma assoc_insert_ne k k' v l x : k <> k' -> assoc k l = x -> assoc k (insert_opt k' v l) = x.
Proof. intros. rewrite assoc_insert. by rewrite bool_decide_eq_false_2 by done. Qed.
Lemma assoc_insert_eq k v l : assoc k (insert_opt k v l) = match v with Some v => Some v | None => assoc k l end.
Proof. rewrite assoc_insert. by rewrite bool_decide_eq_true_2. Qed.
Ltac past_others := repeat (apply assoc_insert_ne; [done|]).

Lemma jas_str_strings l : mapM jas_str (JStr <$> l) = Some l.
Proof. by apply mapM_id. Qed.

(** ** OpenAI-compatible upstreams *)

Lemma part_round_trip p : decode_openai_part (encode_content_part p) = Some p.
Proof. by destruct p as [t|u [d|]|d f|[a|] [b|] [c|]]. Qed.
Lemma content_round_trip c : decode_openai_content (encode_content c) = Some c.
Proof.
  destruct c as [t|parts]; [done|]. unfold decode_openai_content. cbn. rewrite mapM_id; [done|]. intros p _. apply part_round_trip.
Qed.
Lemma call_round_trip c : decode_openai_tool_call (encode_tool_call c) = Some c.
Proof. by destruct c. Qed.
#[local] Arguments not_null : simpl never.
#[local] Arguments each : simpl never.
#[local] Arguments encode_content : simpl never.
Lemma present_content c : optionally decode_openai_content (not_null (Some (encode_content c))) = Some (Some c).
Proof. replace (not_null _) with (Some (encode_content c)) by (by destruct c). cbn. by rewrite content_round_trip. Qed.
Lemma calls_round_trip calls : each decode_openai_tool_call (Some (encode_tool_call <$> calls)) = Some calls.
Proof. unfold each. cbn. apply mapM_id. intros x _. apply call_round_trip. Qed.
Lemma message_round_trip m : decode_openai_message (encode_message m) = Some m.
Proof.
  destruct m as [c [n|]|c [n|]|c [n|]|c n calls refusal|c id|c n]; unfold decode_openai_message, message_with_content, optional_string; cbn; keys; cbn; keys;
    rewrite ?content_round_trip; try done.
  pose proof (calls_round_trip calls) as Hcalls.
  destruct calls as [|x calls]; [|remember (encode_tool_call <$> x :: calls) as l eqn:Hl];
    destruct c as [c|], n as [n|], refusal as [t|]; cbn; keys; cbn; keys; rewrite ?present_content; cbn; rewrite ?Hcalls; done.
Qed.

Lemma tool_round_trip t : decode_openai_tool (encode_tool t) = Some t.
Proof. by destruct t as [n [d|] p [[]|]]. Qed.
Lemma tool_choice_round_trip c : decode_openai_tool_choice (encode_tool_choice c) = Some c.
Proof. by destruct c as [[]|n]. Qed.
Lemma stop_round_trip l : decode_stop (Some (strings l)) = Some (Some l).
Proof. unfold decode_stop, strings. by rewrite jas_str_strings. Qed.

(** What a decoded request keeps within the widths of its integers. *)
Record widths (r : ChatRequestV1) : Prop := {
  w_temperature : forall f, rq_temperature r = Some f -> f64_is_finite f = true;
  w_max : forall z, rq_max_output_tokens r = Some z -> jas_u64 (JNumber z) = Some z;
  w_seed : forall z, rq_seed r = Some z -> jas_i64 (JNumber z) = Some z;
  w_thinking : forall t z, rq_thinking r = Some t -> th_budget_tokens t = Some z -> jas_u64 (JNumber z) = Some z }.

Lemma jas_u64_number (v : Json) z : jas_u64 v = Some z -> jas_u64 (JNumber z) = Some z.
Proof. destruct v; cbn; try done. intros H. match type of H with (if ?b then _ else _) = _ => destruct b eqn:Hb end; simplify_eq. by rewrite Hb. Qed.
Lemma jas_i64_number (v : Json) z : jas_i64 v = Some z -> jas_i64 (JNumber z) = Some z.
Proof. destruct v; cbn; try done. intros H. match type of H with (if ?b then _ else _) = _ => destruct b eqn:Hb end; simplify_eq. by rewrite Hb. Qed.

Lemma passthrough_keeps_openai l m : Forall (fun e : string * Json => e.1 <> "openai") l ->
  foldl (fun m '(family, bucket) => <[family := bucket]> m) m l !! "openai" = (m : gmap string Json) !! "openai".
Proof.
  revert m. induction l as [|[k v] l IH]; intros m Hl; [done|]. inversion Hl; subst. cbn. rewrite IH by done. by apply lookup_insert_ne.
Qed.
Lemma passthrough_entries l entries : mapM passthrough_entry l = Some entries -> Forall (fun e => e.1 <> "openai") entries.
Proof.
  intros H. apply mapM_Some in H. induction H as [|x y l k Hxy _ IH]; constructor; [|done].
  unfold passthrough_entry in Hxy. repeat case_match; simplify_eq. by apply bool_decide_eq_false in H.
Qed.
Lemma sandhi_extensions_spec body p o : decode_sandhi_extensions body = Some (p, o) ->
  Forall (fun e => e.1 <> "openai") p /\ jget o "sandhi_extensions" = None.
Proof.
  unfold decode_sandhi_extensions. intros H. destruct (jget body _) as [v|] eqn:Hb; simplify_eq; [|done].
  destruct v; simplify_eq. apply bind_Some in H as (entries & He & ?). simplify_eq. split; [by eapply passthrough_entries|].
  by rewrite jget_remove.
Qed.

(** A field that is written when it is set, and read back; one that is not
    set leaves what the client sent. *)
Definition written {A} (encode : A -> Json) (a : option A) (sent : option Json) : option Json :=
  match encode <$> a with Some v => Some v | None => sent end.
Lemma written_read {A} (encode : A -> Json) (decode : option Json -> option (option A)) a sent :
  (forall x, a = Some x -> decode (Some (encode x)) = Some (Some x)) -> decode sent = Some a -> decode (written encode a sent) = Some a.
Proof. destruct a; cbn; auto. Qed.
Lemma written_opt {A} (encode : A -> Json) (decode : option Json -> option A) a sent :
  (forall x, a = Some x -> decode (Some (encode x)) = Some x) -> decode sent = a -> decode (written encode a sent) = a.
Proof. destruct a; cbn; auto. Qed.

Lemma thinking_round_trip t : (forall z, th_budget_tokens t = Some z -> jas_u64 (JNumber z) = Some z) ->
  lift_openai_thinking (JObject [("thinking", encode_openai_thinking t)]) = Some t.
Proof.
  destruct t as [[] [z|]]; intros H; try pose proof (H z eq_refl) as Hz; lookups; rewrite ?Hz; done.
Qed.

Section OpenAiRoundTrip.
Context (r : ChatRequestV1).
Let sent k := assoc k (bucket r "openai").
Let B := JObject (openai_fields r).

Ltac field x := past_others; (etransitivity; [apply assoc_insert_eq|]); unfold written; destruct x; [done|by past_others].
Lemma field_model : jget B "model" = Some (JStr (rq_model r)).
Proof. past_others. apply assoc_insert_eq. Qed.
Lemma field_messages : jget B "messages" = Some (JArray (encode_message <$> rq_messages r)).
Proof. past_others. apply assoc_insert_eq. Qed.
Lemma field_tools : jget B "tools" = match rq_tools r with [] => sent "tools" | l => Some (JArray (encode_tool <$> l)) end.
Proof. past_others. rewrite assoc_insert_eq. unfold tools_field. destruct (rq_tools r); [by past_others|done]. Qed.
Lemma field_tool_choice : jget B "tool_choice" = written encode_tool_choice (rq_tool_choice r) (sent "tool_choice").
Proof. field (rq_tool_choice r). Qed.
Lemma field_temperature : jget B "temperature" = written jfloat (rq_temperature r) (sent "temperature").
Proof. field (rq_temperature r). Qed.
Lemma field_max_tokens : jget B "max_tokens" = written JNumber (rq_max_output_tokens r) (sent "max_tokens").
Proof. field (rq_max_output_tokens r). Qed.
Lemma field_seed : jget B "seed" = written JNumber (rq_seed r) (sent "seed").
Proof. field (rq_seed r). Qed.
Lemma field_stop : jget B "stop" = written strings (rq_stop r) (sent "stop").
Proof. field (rq_stop r). Qed.
Lemma field_response_format : jget B "response_format" = written id (rq_response_format r) (sent "response_format").
Proof. field (rq_response_format r). Qed.
Lemma field_reasoning_effort : jget B "reasoning_effort" = written JStr (rq_reasoning_effort r) (sent "reasoning_effort").
Proof. field (rq_reasoning_effort r). Qed.
Lemma field_thinking : jget B "thinking" = written encode_openai_thinking (rq_thinking r) (sent "thinking").
Proof. field (rq_thinking r). Qed.
Lemma field_other k : k ∈ ["stream"; "max_completion_tokens"; "sandhi_extensions"] -> jget B k = sent k.
Proof. intros Hk. repeat (apply elem_of_cons in Hk as [->|Hk]; [by past_others|]). by apply elem_of_nil in Hk. Qed.
End OpenAiRoundTrip.

(** What reading a body's fields gives; [decode_openai_request] is this of
    the body without the reserved field. *)
Definition reads (object : Json) (r : ChatRequestV1) : Prop :=
  required_string object "model" = Some (rq_model r)
  /\ (values ← arr_at object "messages"; mapM decode_openai_message values) = Some (rq_messages r)
  /\ each decode_openai_tool (arr_at object "tools") = Some (rq_tools r)
  /\ optionally decode_openai_tool_choice (jget object "tool_choice") = Some (rq_tool_choice r)
  /\ decode_stop (jget object "stop") = Some (rq_stop r)
  /\ optional_string object "reasoning_effort" = Some (rq_reasoning_effort r)
  /\ jget object "temperature" ≫= jas_f64 = rq_temperature r
  /\ match jget object "max_completion_tokens" with Some v => Some v | None => jget object "max_tokens" end ≫= jas_u64
     = rq_max_output_tokens r
  /\ jget object "response_format" = rq_response_format r
  /\ jget object "seed" ≫= jas_i64 = rq_seed r
  /\ lift_openai_thinking object = rq_thinking r.

Lemma optional_string_get v w k : jget v k = jget w k -> optional_string v k = optional_string w k.
Proof. unfold optional_string. by intros ->. Qed.
Lemma thinking_get v w : jget v "thinking" = jget w "thinking" -> lift_openai_thinking v = lift_openai_thinking w.
Proof. unfold lift_openai_thinking, obj_at. by intros ->. Qed.

Lemma reads_again r : reads (JObject (bucket r "openai")) r -> widths r -> reads (JObject (openai_fields r)) r.
Proof.
  intros (Hmodel & Hmsg & Htools & Hchoice & Hstop & Heff & Htemp & Hmax & Hfmt & Hseed & Hth) [Wt Wm Ws Wth].
  unfold reads, required_string, str_at, arr_at in *.
  rewrite field_model, field_messages, field_tools, field_tool_choice, field_stop, field_temperature, field_response_format, field_seed,
    (field_other r "max_completion_tokens") by set_solver.
  split_and!.
  - done.
  - cbn. apply mapM_id. intros m _. apply message_round_trip.
  - destruct (rq_tools r) as [|t l] eqn:Hl; [done|]. unfold each. cbn [mbind option_bind jas_array demo_json default].
    apply mapM_id. intros t' _. apply tool_round_trip.
  - apply (written_read encode_tool_choice (optionally decode_openai_tool_choice)); [|done]. intros x _. cbn. by rewrite tool_choice_round_trip.
  - apply (written_read strings decode_stop); [|done]. intros x _. apply stop_round_trip.
  - unfold optional_string in *. rewrite field_reasoning_effort. destruct (rq_reasoning_effort r); done.
  - apply (written_opt jfloat (fun v => v ≫= jas_f64)); [|done]. intros f Hf. unfold jfloat. by rewrite (Wt f Hf).
  - destruct (jget (JObject (bucket r "openai")) "max_completion_tokens") eqn:Hc; cbn in Hc; rewrite Hc; [done|].
    rewrite field_max_tokens. apply (written_opt JNumber (fun v => v ≫= jas_u64)); [|done]. intros z Hz. by apply Wm.
  - apply (written_opt id id); [|done]. by intros x Hx.
  - apply (written_opt JNumber (fun v => v ≫= jas_i64)); [|done]. intros z Hz. by apply Ws.
  - unfold lift_openai_thinking, obj_at in *. rewrite field_thinking. destruct (rq_thinking r) as [t|] eqn:Ht; [|done].
    etransitivity; [|apply (thinking_round_trip t); intros z; by apply Wth]. done.
Qed.

Lemma decode_reads object md : jis_object object = true -> jget object "sandhi_extensions" = None ->
  forall r s, reads object r -> rq_metadata r = md -> rq_extensions r = {["openai" := object]} -> validate r = true -> wants_stream object = s ->
  decode_openai_request object md = Some (r, s).
Proof.
  intros Hobj Hext [] s (Hmodel & Hmsg & Htools & Hchoice & Hstop & Heff & Htemp & Hmax & Hfmt & Hseed & Hth) Hmd He Hv Hs.
  unfold decode_openai_request, decode_sandhi_extensions. cbn in *. rewrite Hext. cbn. rewrite Hobj. cbn.
  rewrite Hmodel. cbn. rewrite Hmsg. cbn. rewrite Htools. cbn. rewrite Hchoice. cbn. rewrite Hstop. cbn. rewrite Heff. cbn.
  rewrite Htemp, Hmax, Hfmt, Hseed, Hth, <- Hmd, <- He. unfold validated. rewrite Hv. cbn. by rewrite Hs.
Qed.

(** C28: A chat request is not changed by its translation for an
    OpenAI-compatible upstream: the body the gateway sends decodes to the
    request the client's body decoded to, every message, tool and setting and
    the wish to stream included; only the reserved field is gone from the body
    the upstream sees. *)
Theorem openai_request_round_trips body md r s :
  decode_openai_request body md = Some (r, s) ->
  (forall f, rq_temperature r = Some f -> f64_is_finite f = true) ->
  exists body', encode_openai_request r = Some body' /\ jget body' "sandhi_extensions" = None
    /\ decode_openai_request body' md = Some (with_extensions {["openai" := body']} r, s).
Proof.
  intros H Hfinite. unfold decode_openai_request in H.
  apply bind_Some in H as ((passthrough & object) & He & H). apply sandhi_extensions_spec in He as [Hp Ho].
  destruct (negb (jis_object object)) eqn:Hobj; [done|]. destruct object as [| | | | | |fields]; try done.
  apply bind_Some in H as (model & Hmodel & H). apply bind_Some in H as (messages & Hmessages & H).
  apply bind_Some in H as (tools & Htools & H). apply bind_Some in H as (choice & Hchoice & H).
  apply bind_Some in H as (stop & Hstop & H). apply bind_Some in H as (effort & Heffort & H).
  apply bind_Some in H as (r' & Hr & H). simplify_eq.
  unfold validated in Hr. destruct (validate _) eqn:Hv; [|done]. simplify_eq.
  set (r := MkRequest _ _ _ _ _ _ _ _ _ _ _ _ _) in *.
  assert (Hb : bucket r "openai" = fields).
  { unfold bucket. cbn [rq_extensions r]. rewrite passthrough_keeps_openai by done. by rewrite lookup_singleton_eq. }
  assert (Hreads : reads (JObject (bucket r "openai")) r) by (rewrite Hb; done).
  assert (Hw : widths r).
  { split; [done|intros z Hz; apply bind_Some in Hz as (v & _ & Hz); by eapply jas_u64_number
           |intros z Hz; apply bind_Some in Hz as (v & _ & Hz); by eapply jas_i64_number|].
    intros t z Ht Hz. apply bind_Some in Ht as (v & _ & Ht). simplify_eq. apply bind_Some in Hz as (w & _ & Hz). by eapply jas_u64_number. }
  exists (JObject (openai_fields r)). split; [|split].
  - unfold encode_openai_request. by rewrite Hv.
  - rewrite field_other by set_solver. by rewrite Hb.
  - apply decode_reads; [done|rewrite field_other by set_solver; by rewrite Hb| |done..| |].
    + apply (reads_again r Hreads Hw).
    + done.
    + unfold wants_stream. rewrite field_other by set_solver. by rewrite Hb.
Qed.

(** A turn with a picture and a finished tool call, settings at their widths
    and a body for another family. *)
Definition sample_metadata : RequestMetadataV1 := MkMetadata None None None None None None None None None None.
Definition sample_openai : Json :=
  JObject [("model", JStr "gpt-4o"); ("stream", JBool true); ("user", JStr "u1");
    ("messages", JArray [
      JObject [("role", JStr "system"); ("content", JStr "Answer briefly.")];
      JObject [("role", JStr "user"); ("content", JArray [
        JObject [("type", JStr "text"); ("text", JStr "What is this?")];
        JObject [("type", JStr "image_url"); ("image_url", JObject [("url", JStr "data:image/png;base64,AAAA")])]])];
      JObject [("role", JStr "assistant"); ("content", JNull); ("tool_calls", JArray [
        JObject [("id", JStr "c1"); ("type", JStr "function"); ("function", JObject [("name", JStr "look"); ("arguments", JStr "{}")])]])];
      JObject [("role", JStr "tool"); ("tool_call_id", JStr "c1"); ("content", JStr "a cat")]]);
    ("tools", JArray [JObject [("type", JStr "function"); ("function", JObject [("name", JStr "look")])]]);
    ("tool_choice", JStr "required"); ("max_tokens", JNumber u64_max); ("seed", JNumber (-1)); ("stop", JStr "END");
    ("sandhi_extensions", JObject [("anthropic", JObject [("top_k", JNumber 5)])])].
Lemma openai_request_round_trips_witness :
  exists r body', decode_openai_request sample_openai sample_metadata = Some (r, true) /\ length (rq_messages r) = 4%nat
    /\ encode_openai_request r = Some body'
    /\ decode_openai_request body' sample_metadata = Some (with_extensions {["openai" := body']} r, true).
Proof.
  destruct (decode_openai_request sample_openai sample_metadata) as [[r s]|] eqn:H; [|vm_compute in H; discriminate].
  assert (Hs : s = true) by (vm_compute in H; by simplify_eq). subst s.
  destruct (openai_request_round_trips sample_openai sample_metadata r true H) as (b & He & _ & Hd).
  { intros f Hf. vm_compute in H. simplify_eq. }
  exists r, b. split; [done|]. split; [vm_compute in H; by simplify_eq|]. by split.
Defined.

(** ** What the codecs lose *)

(** A limit that is null hides the older field. *)
Example null_limit_hides_max_tokens :
  rq_max_output_tokens ∘ fst <$> decode_openai_request
    (JObject [("model", JStr "m"); ("messages", JArray []); ("max_completion_tokens", JNull); ("max_tokens", JNumber 5)]) sample_metadata
  = Some None.
Proof. reflexivity. Qed.

(** The instructions of a Responses request, encoded for a Responses
    upstream, are both a system message and the field they came in. *)
Definition sample_responses : Json :=
  JObject [("model", JStr "m"); ("instructions", JStr "Be brief.");
    ("input", JArray [JObject [("type", JStr "message"); ("role", JStr "user");
      ("content", JArray [JObject [("type", JStr "input_text"); ("text", JStr "Look")];
                          JObject [("type", JStr "input_image"); ("image_url", JStr "https://x/cat.png")]])]])].
Example instructions_are_sent_twice :
  ('(r, _) ← decode_responses_request (fun _ => "") sample_responses sample_metadata;
   b ← encode_responses_request_for_profile Standard r; Some (jget b "instructions", jget b "input"))
  = Some (Some (JStr "Be brief."), Some (JArray [
      message_item "system" [JObject [("type", JStr "input_text"); ("text", JStr "Be brief.")]];
      message_item "user" [JObject [("type", JStr "input_text"); ("text", JStr "Look")]]])).
Proof. reflexivity. Qed.

(** The picture of the sample is gone. *)
Example pictures_of_responses_are_dropped :
  rq_messages ∘ fst <$> decode_responses_request (fun _ => "") sample_responses sample_metadata
  = Some [System (ContentText "Be brief.") None; User (ContentText "Look") None].
Proof. reflexivity. Qed.
