(* ===== verification/TranslateProps.v ===== *)
(** What an Anthropic upstream reads of a request that another family's
    client sent: the conversation in order, every text, picture, tool call
    and tool result. *)

From S2P Require Import Prelude Text Usage Json UsageParse Inspect Attempt Accounting StreamEncoder ChatRequest RequestDecode.
From S2P Require Import RequestEncode RequestProps.

(** ** Data URLs *)

Lemma strip_prefix_some p s r : strip_prefix p s = Some r -> s = p ++ r.
Proof.
  revert s. induction p as [|a p IH]; intros [|b s] H; simplify_eq/=; try done.
  destruct (a =? b) eqn:Hab; [|done]. apply Z.eqb_eq in Hab as ->. f_equal. by apply IH.
Qed.
Lemma split_base64_some s a b : split_base64 s = Some (a, b) -> s = a ++ base64_marker ++ b.
Proof.
  revert a. induction s as [|c s IH]; intros a H; cbn [split_base64] in H; destruct (strip_prefix _ _) as [r|] eqn:Hp; simplify_eq;
    try (by apply strip_prefix_some in Hp).
  destruct (split_base64 s) as [[x y]|] eqn:Hs; [|done]. simplify_eq/=. by rewrite (IH x).
Qed.
Lemma string_of_app a b : string_of (a ++ b) = string_of a +:+ string_of b.
Proof. unfold string_of. rewrite fmap_app. induction a as [|x a IH]; [done|]. rewrite fmap_cons. cbn. by rewrite IH. Qed.
Lemma data_url_some url m d : data_url url = Some (Some (m, d)) -> "data:" +:+ m +:+ ";base64," +:+ d = url.
Proof.
  unfold data_url. destruct (strip_prefix _ _) as [data|] eqn:Hp; [|done]. destruct (split_base64 data) as [[a b]|] eqn:Hs; [|done].
  intros H. injection H as <- <-. apply strip_prefix_some in Hp. apply split_base64_some in Hs as ->.
  rewrite <- (string_of_bytes url), Hp, !string_of_app. unfold base64_marker. by rewrite !string_of_bytes.
Qed.

(** ** The view of an Anthropic upstream *)

Definition parts_of (c : MessageContent) : list ContentPart := match c with ContentText t => [PartText t] | ContentParts l => l end.
(** The dialect has no detail level. *)
Definition seen_part (p : ContentPart) : ContentPart := match p with PartImageUrl url _ => PartImageUrl url None | p => p end.
Definition texts (c : MessageContent) : list string := omap (fun p => match p with PartText t => Some t | _ => None end) (parts_of c).
Definition is_plain (c : MessageContent) : bool := forallb is_text (parts_of c).

Section Anthropic.
Context (to_string : Json -> string) (from_str : string -> option Json).

Definition seen_call (c : ToolCallV1) : ToolCallV1 := MkToolCall (tc_id c) (tc_name c) (to_string (default JNull (from_str (tc_arguments c)))).
Definition seen_message (m : ChatMessageV1) : list ChatMessageV1 :=
  match m with
  | Developer _ _ | System _ _ | Function_ _ _ => []
  | User c _ => flush_parts (seen_part <$> parts_of c)
  | Assistant c _ calls refusal =>
      [Assistant (content_from_parts (default [] (parts_of <$> c) ++ option_list (PartText <$> refusal))) None (seen_call <$> calls) None]
  | Tool c id => [Tool (ContentText (join_lines (texts c))) id]
  end.
Definition seen_system (messages : list ChatMessageV1) : list ChatMessageV1 :=
  match omap instruction_content messages with
  | [] => []
  | blocks => [System (ContentText (join_lines (String.concat nl ∘ texts <$> blocks))) None]
  end.
Definition no_strict (t : ToolDefinitionV1) : ToolDefinitionV1 := MkToolDef (td_name t) (td_description t) (td_parameters t) None.
Definition forbidden (r : ChatRequestV1) : bool := match rq_tool_choice r with Some (ChoiceMode ModeNone) => true | _ => false end.
(** The request as the upstream reads it: the settings the dialect has, with
    the tools withheld when the client forbids them and no temperature while
    the model thinks. *)
Definition anthropic_view (r : ChatRequestV1) (md : RequestMetadataV1) (body : Json) : ChatRequestV1 :=
  MkRequest (rq_model r) (seen_system (rq_messages r) ++ flat_map seen_message (rq_messages r))
    (if forbidden r then [] else no_strict <$> rq_tools r) (if forbidden r then None else rq_tool_choice r)
    (if thinking_enabled r then None else rq_temperature r) (rq_max_output_tokens r) (rq_stop r) None None md None
    (if thinking_enabled r then rq_thinking r else None) {["anthropic" := remove_key "sandhi_extensions" body]}.

(** ** Turns *)

Lemma part_seen p block : anthropic_part p = Some block ->
  decode_anthropic_part block = Some (seen_part p) /\ str_at block "type" <> Some "tool_result".
Proof.
  destruct p as [t|u d|d f|a b c]; cbn [anthropic_part]; intros H; simplify_eq; [done|].
  destruct (data_url u) as [[[m x]|]|] eqn:Hu; simplify_eq; [|done]. split; [|done].
  apply data_url_some in Hu as <-. done.
Qed.
Lemma user_seen l blocks parts messages : mapM anthropic_part l = Some blocks ->
  foldM anthropic_user_block (parts, messages) blocks = Some (parts ++ (seen_part <$> l), messages).
Proof.
  revert parts blocks. induction l as [|p l IH]; intros parts blocks H; cbn in H; [injection H as <-; cbn; by rewrite app_nil_r|].
  apply bind_Some in H as (b & Hb & H). apply bind_Some in H as (bs & Hbs & H). injection H as <-. apply part_seen in Hb as [Hd Ht].
  assert (Hs : anthropic_user_block (parts, messages) b = Some (parts ++ [seen_part p], messages)).
  { unfold anthropic_user_block. rewrite bool_decide_eq_false_2 by done. by rewrite Hd. }
  cbn [foldM]. rewrite Hs. cbn [mbind option_bind].
  rewrite (IH (parts ++ [seen_part p])) by done. by rewrite <- app_assoc.
Qed.
Lemma content_blocks c blocks : anthropic_content c = Some blocks -> mapM anthropic_part (parts_of c) = Some blocks.
Proof. by destruct c. Qed.

Lemma foldM_app {A B} (f : A -> B -> option A) a l k : foldM f a (l ++ k) = foldM f a l ≫= (fun a => foldM f a k).
Proof. revert a. induction l as [|x l IH]; intros a; cbn; [done|]. destruct (f a x); cbn; [apply IH|done]. Qed.
Lemma plain_blocks c blocks : is_plain c = true -> anthropic_content c = Some blocks -> blocks = text_json <$> texts c.
Proof.
  intros Hp H. apply content_blocks in H. unfold is_plain, texts in *. revert blocks H. induction (parts_of c) as [|p l IH]; intros bs H.
  { by injection H as <-. }
  cbn in H. apply bind_Some in H as (b & Hb & H). apply bind_Some in H as (bs' & Hbs & H). injection H as <-.
  destruct p; cbn in *; try done. simplify_eq. cbn. f_equal. by apply IH.
Qed.
Lemma plain_parts c : is_plain c = true -> PartText <$> texts c = parts_of c.
Proof. unfold is_plain, texts. induction (parts_of c) as [|[] l IH]; intros H; cbn in *; try done. f_equal. by apply IH. Qed.
Lemma assistant_texts l parts calls :
  foldM (anthropic_assistant_block to_string) (parts, calls) (text_json <$> l) = Some (parts ++ (PartText <$> l), calls).
Proof.
  revert parts. induction l as [|t l IH]; intros parts; cbn [foldM fmap list_fmap]; [cbn; by rewrite app_nil_r|].
  etransitivity; [apply (IH (parts ++ [PartText t]))|]. by rewrite <- app_assoc.
Qed.
Lemma assistant_calls l blocks parts calls : mapM (anthropic_call from_str) l = Some blocks ->
  foldM (anthropic_assistant_block to_string) (parts, calls) blocks = Some (parts, calls ++ (seen_call <$> l)).
Proof.
  revert calls blocks. induction l as [|c l IH]; intros calls blocks H; cbn in H; [injection H as <-; cbn; by rewrite app_nil_r|].
  apply bind_Some in H as (b & Hb & H). apply bind_Some in H as (bs & Hbs & H). injection H as <-.
  unfold anthropic_call in Hb. apply bind_Some in Hb as (i & Hi & Hb). simplify_eq.
  assert (Hs : seen_call c = MkToolCall (tc_id c) (tc_name c) (to_string i)) by (unfold seen_call; by rewrite Hi).
  rewrite fmap_cons, Hs. etransitivity; [apply (IH (calls ++ [MkToolCall (tc_id c) (tc_name c) (to_string i)]) _ Hbs)|]. by rewrite <- app_assoc.
Qed.

Definition plain_message (m : ChatMessageV1) : bool :=
  match m with Assistant (Some c) _ _ _ | Tool c _ => is_plain c | _ => true end.
Definition instruction_line (c : MessageContent) : string := String.concat nl (texts c).

Lemma text_only_texts c t : text_only c = Some t -> t = instruction_line c.
Proof.
  destruct c as [u|l]; cbn [text_only]; [by intros [= ->]|]. intros H. apply fmap_Some in H as (ts & Ht & ->).
  unfold instruction_line, texts. f_equal. cbn [parts_of]. revert ts Ht. induction l as [|p l IH]; intros ts Ht; cbn in Ht; [by injection Ht as <-|].
  apply bind_Some in Ht as (x & Hx & Ht). apply bind_Some in Ht as (xs & Hxs & Ht). injection Ht as <-.
  destruct p; simplify_eq/=. f_equal. by apply IH.
Qed.
Lemma text_blocks l : mapM text_block (text_json <$> l) = Some l.
Proof. by apply mapM_id. Qed.
Lemma turn_seen m system turns : anthropic_message from_str m = Some (system, turns) -> plain_message m = true ->
  ((fun l => concat l) <$> mapM (decode_anthropic_message to_string) turns) = Some (seen_message m)
  /\ system = text_json ∘ instruction_line <$> option_list (instruction_content m).
Proof.
  destruct m as [c n|c n|c n|c n calls refusal|c id|c n]; cbn [anthropic_message plain_message]; intros H Hp; try done.
  - apply bind_Some in H as (t & Ht & H). simplify_eq. by apply text_only_texts in Ht as ->.
  - apply bind_Some in H as (t & Ht & H). simplify_eq. by apply text_only_texts in Ht as ->.
  - apply bind_Some in H as (bs & Hb & H). simplify_eq. split; [|done]. apply content_blocks in Hb.
    apply (user_seen _ _ [] []) in Hb. cbn [app] in Hb. unfold mapM, decode_anthropic_message. lookups. rewrite Hb. cbn. by rewrite app_nil_r.
  - apply bind_Some in H as (bs & Hb & H). apply bind_Some in H as (cs & Hc & H). simplify_eq. split; [|done].
    assert (Hbs : bs = text_json <$> default [] (texts <$> c)).
    { destruct c as [c|]; [by apply plain_blocks in Hb|by injection Hb as <-]. }
    assert (Hparts : default [] (parts_of <$> c) = PartText <$> default [] (texts <$> c)).
    { destruct c as [c|]; [cbn; by rewrite plain_parts|done]. }
    assert (Hf : foldM (anthropic_assistant_block to_string) ([], []) (bs ++ option_list (text_json <$> refusal) ++ cs)
      = Some (default [] (parts_of <$> c) ++ option_list (PartText <$> refusal), seen_call <$> calls)).
    { rewrite foldM_app, Hbs, assistant_texts. cbn [mbind option_bind app]. rewrite foldM_app.
      replace (option_list (text_json <$> refusal)) with (text_json <$> option_list refusal) by (by destruct refusal).
      rewrite assistant_texts. cbn [mbind option_bind]. rewrite (assistant_calls _ _ _ _ Hc), Hparts. by destruct refusal. }
    unfold mapM, decode_anthropic_message. lookups. rewrite Hf. done.
  - apply bind_Some in H as (bs & Hb & H). simplify_eq. split; [|done]. apply plain_blocks in Hb as ->; [|done].
    unfold mapM, decode_anthropic_message. lookups. unfold decode_anthropic_text_content. cbn. rewrite text_blocks. done.
Qed.

(** ** The conversation *)

Lemma conversation_seen l ml : mapM (anthropic_message from_str) l = Some ml -> forallb plain_message l = true ->
  ((fun l => concat l) <$> mapM (decode_anthropic_message to_string) (concat ml.*2)) = Some (flat_map seen_message l)
  /\ concat ml.*1 = text_json ∘ instruction_line <$> omap instruction_content l.
Proof.
  revert ml. induction l as [|m l IH]; intros ml H Hp; cbn in H; [by injection H as <-|].
  apply bind_Some in H as ([sys turns] & Hm & H). apply bind_Some in H as (ml' & Hml & H). injection H as <-.
  cbn in Hp. apply andb_true_iff in Hp as [Hp1 Hp2]. destruct (IH ml' Hml Hp2) as [IH1 IH2]. destruct (turn_seen m sys turns Hm Hp1) as [Ht Hs].
  cbn [fmap list_fmap concat fst snd flat_map]. split.
  - rewrite mapM_app. destruct (mapM _ turns) as [a|]; [|done]. destruct (mapM _ (concat _)) as [b|]; [|done]. cbn in *. simplify_eq.
    by rewrite concat_app, Ht, IH1.
  - rewrite Hs, IH2. change (omap instruction_content (m :: l)) with (match instruction_content m with Some y => y :: omap instruction_content l | None => omap instruction_content l end).
    by destruct (instruction_content m).
Qed.

(** ** What the turns carry

    A turn as an upstream may read it, without the limits of the gateway's own
    reader: its role, its texts and pictures in order, those of a tool result
    included, its calls and the call it answers. *)
Definition Carried : Type := option string * list ContentPart * list ToolCallV1 * list string.
Definition kind_is_ (kind : string) (b : Json) : bool := bool_decide (str_at b "type" = Some kind).
Definition carried_parts (blocks : list Json) : list ContentPart :=
  omap decode_anthropic_part (blocks ≫= fun b => if kind_is_ "tool_result" b then default [] (arr_at b "content") else [b]).
Definition carried_call (b : Json) : option ToolCallV1 :=
  if kind_is_ "tool_use" b then Some (MkToolCall (default "" (str_at b "id")) (default "" (str_at b "name")) (to_string (jnull_or b "input"))) else None.
Definition carried (turn : Json) : Carried :=
  let blocks := default [] (arr_at turn "content") in
  (str_at turn "role", carried_parts blocks, omap carried_call blocks,
   omap (fun b => if kind_is_ "tool_result" b then str_at b "tool_use_id" else None) blocks).
(** What a message says to such a reader. *)
Definition said (m : ChatMessageV1) : option Carried :=
  match m with
  | Developer _ _ | System _ _ | Function_ _ _ => None
  | User c _ => Some (Some "user", seen_part <$> parts_of c, [], [])
  | Assistant c _ calls refusal =>
      Some (Some "assistant", (seen_part <$> default [] (parts_of <$> c)) ++ option_list (PartText <$> refusal), seen_call <$> calls, [])
  | Tool c id => Some (Some "user", seen_part <$> parts_of c, [], [id])
  end.

Lemma carried_turn role blocks : carried (JObject [("role", JStr role); ("content", JArray blocks)]) =
  (Some role, carried_parts blocks, omap carried_call blocks,
   omap (fun b => if kind_is_ "tool_result" b then str_at b "tool_use_id" else None) blocks).
Proof. done. Qed.
(** Blocks of texts and pictures. *)
Lemma part_kind p block : anthropic_part p = Some block -> kind_is_ "tool_result" block = false /\ kind_is_ "tool_use" block = false.
Proof.
  destruct p as [t|u d|d f|a b c]; cbn [anthropic_part]; intros H; simplify_eq; [done|]. by destruct (data_url u) as [[[m x]|]|]; simplify_eq.
Qed.
Lemma parts_carried l blocks rest : mapM anthropic_part l = Some blocks ->
  carried_parts (blocks ++ rest) = (seen_part <$> l) ++ carried_parts rest
  /\ omap carried_call (blocks ++ rest) = omap carried_call rest
  /\ omap (fun b => if kind_is_ "tool_result" b then str_at b "tool_use_id" else None) (blocks ++ rest)
     = omap (fun b => if kind_is_ "tool_result" b then str_at b "tool_use_id" else None) rest
  /\ omap decode_anthropic_part blocks = seen_part <$> l.
Proof.
  revert blocks. induction l as [|p l IH]; intros blocks H; cbn in H; [by injection H as <-|].
  apply bind_Some in H as (b & Hb & H). apply bind_Some in H as (bs & Hbs & H). injection H as <-.
  destruct (part_seen _ _ Hb) as [Hd _], (part_kind _ _ Hb) as [Hr Hu]. destruct (IH bs Hbs) as (H1 & H2 & H3 & H4).
  assert (Hcc : carried_call b = None) by (unfold carried_call; by rewrite Hu).
  cbn [app]. unfold carried_parts in *. rewrite bind_cons, Hr. cbn [app omap list_omap fmap list_fmap]. rewrite Hr, Hcc, Hd.
  split; [by f_equal|]. split; [done|]. split; [done|]. by f_equal.
Qed.
Lemma calls_carried l blocks : mapM (anthropic_call from_str) l = Some blocks ->
  carried_parts blocks = [] /\ omap carried_call blocks = seen_call <$> l
  /\ omap (fun b => if kind_is_ "tool_result" b then str_at b "tool_use_id" else None) blocks = [].
Proof.
  revert blocks. induction l as [|c l IH]; intros blocks H; cbn in H; [by injection H as <-|].
  apply bind_Some in H as (b & Hb & H). apply bind_Some in H as (bs & Hbs & H). injection H as <-. destruct (IH bs Hbs) as (H1 & H2 & H3).
  unfold anthropic_call in Hb. apply bind_Some in Hb as (i & Hi & Hb). simplify_eq. unfold carried_parts in *. rewrite bind_cons. cbn [app].
  split; [exact H1|]. split; [|exact H3]. rewrite fmap_cons, <- H2. unfold seen_call. by rewrite Hi.
Qed.
Lemma turn_carried m system turns : anthropic_message from_str m = Some (system, turns) -> carried <$> turns = option_list (said m).
Proof.
  destruct m as [c n|c n|c n|c n calls refusal|c id|c n]; cbn [anthropic_message said]; intros H; try done.
  - apply bind_Some in H as (t & Ht & H). by simplify_eq.
  - apply bind_Some in H as (t & Ht & H). by simplify_eq.
  - apply bind_Some in H as (bs & Hb & H). simplify_eq. apply content_blocks in Hb. destruct (parts_carried _ _ [] Hb) as (H1 & H2 & H3 & _).
    rewrite !app_nil_r in *. cbn [fmap list_fmap option_list]. by rewrite carried_turn, H1, H2, H3.
  - apply bind_Some in H as (bs & Hb & H). apply bind_Some in H as (cs & Hc & H). simplify_eq. destruct (calls_carried _ _ Hc) as (K1 & K2 & K3).
    assert (Hp : mapM anthropic_part (default [] (parts_of <$> c) ++ option_list (PartText <$> refusal)) = Some (bs ++ option_list (text_json <$> refusal))).
    { rewrite mapM_app. destruct c as [c|]; [apply content_blocks in Hb; cbn [fmap option_fmap option_map default from_option id]; rewrite Hb|injection Hb as <-]; by destruct refusal. }
    destruct (parts_carried _ _ cs Hp) as (H1 & H2 & H3 & _). rewrite <- app_assoc in H1, H2, H3.
    cbn [fmap list_fmap option_list]. rewrite carried_turn, H1, H2, H3, K1, K2, K3, app_nil_r, fmap_app.
    by destruct refusal.
  - apply bind_Some in H as (bs & Hb & H). simplify_eq. apply content_blocks in Hb. destruct (parts_carried _ _ [] Hb) as (_ & _ & _ & H4).
    cbn [fmap list_fmap option_list]. rewrite carried_turn, <- H4. unfold carried_parts. rewrite bind_cons.
    change ([] ≫= _) with (@nil Json). rewrite app_nil_r. done.
Qed.
Lemma conversation_carried l ml : mapM (anthropic_message from_str) l = Some ml -> carried <$> concat ml.*2 = omap said l.
Proof.
  revert ml. induction l as [|m l IH]; intros ml H; cbn in H; [by injection H as <-|].
  apply bind_Some in H as ([sys turns] & Hm & H). apply bind_Some in H as (ml' & Hml & H). injection H as <-.
  cbn [fmap list_fmap concat snd]. rewrite fmap_app, (turn_carried _ _ _ Hm), IH by done. cbn. by destruct (said m).
Qed.

(** ** The settings *)

Lemma assoc_set_ne k k' v l : k <> k' -> assoc k (field_set k' v l) = assoc k l.
Proof. intros. rewrite assoc_set. by rewrite bool_decide_eq_false_2. Qed.
Lemma assoc_drop_ne k k' l : k <> k' -> assoc k (drop_key k' l) = assoc k l.
Proof. intros. rewrite assoc_drop. by rewrite bool_decide_eq_false_2. Qed.
Lemma thinking_others k t l x : k <> "thinking" -> assoc k l = x -> assoc k (anthropic_thinking t l) = x.
Proof. intros. destruct t as [[[] b]|]; cbn; rewrite ?assoc_set_ne, ?assoc_drop_ne by done; done. Qed.
Lemma choice_others k c l x : k ∉ ["tool_choice"; "tools"] -> assoc k l = x -> assoc k (anthropic_choice c l) = x.
Proof. intros. assert (k <> "tool_choice" /\ k <> "tools") as [? ?] by set_solver.
  destruct c as [[[]|n]|]; cbn; rewrite ?assoc_set_ne, ?assoc_drop_ne by done; done. Qed.
Lemma mark_system_nil l : mark_system l [] = l.
Proof. by destruct l. Qed.
Lemma mark_tools_nil l : mark_tools [] l = l.
Proof. unfold mark_tools. induction l as [|x l IH]; [done|]. rewrite fmap_cons. by f_equal. Qed.
Lemma mapM_mark_last {A} (f : Json -> option A) l : Forall (fun x => f (jset "cache_control" ephemeral x) = f x) l -> mapM f (mark_last l) = mapM f l.
Proof.
  induction 1 as [|x l Hx _ IH]; [done|]. destruct l as [|y l].
  - cbn [mark_last]. unfold mapM. by rewrite Hx.
  - change (match mapM f (mark_last (y :: l)) with m => z ← f x; k ← m; mret (z :: k) end = mapM f (x :: y :: l)).
    by rewrite IH.
Qed.
Lemma mark_last_nil l : mark_last l = [] -> l = [].
Proof. by destruct l as [|x [|y l]]. Qed.

(** ** The body *)

Section Body.
Context (r : ChatRequestV1).
Definition system_blocks := mark_last (text_json ∘ instruction_line <$> omap instruction_content (rq_messages r)).
Definition tool_blocks := mark_last (anthropic_tool <$> rq_tools r).
Definition settings turns max := insert_opt "tools" (match rq_tools r with [] => None | _ => Some (JArray tool_blocks) end)
  (insert_opt "stop_sequences" (strings <$> rq_stop r)
  (insert_opt "temperature" (if thinking_enabled r then None else jfloat <$> rq_temperature r)
  (insert_opt "max_tokens" (Some (JNumber max))
  (insert_opt "system" (match system_blocks with [] => None | _ => Some (JArray system_blocks) end)
  (insert_opt "messages" (Some (JArray turns))
  (insert_opt "model" (Some (JStr (rq_model r))) ([] : list (string * Json)))))))).
Definition body_fields turns max := anthropic_thinking (rq_thinking r) (anthropic_choice (rq_tool_choice r) (settings turns max)).

Lemma encoded_fields body : rq_extensions r !! "anthropic" = None -> encode_anthropic_request from_str r = Some body -> forallb plain_message (rq_messages r) = true ->
  exists turns max, body = JObject (body_fields turns max) /\ rq_max_output_tokens r = Some max /\ validate r = true
    /\ ((fun l => concat l) <$> mapM (decode_anthropic_message to_string) turns) = Some (flat_map seen_message (rq_messages r)).
Proof.
  unfold encode_anthropic_request. intros Hnative H Hp. destruct (validate r) eqn:Hv; [|done]. cbn [negb] in H.
  apply bind_Some in H as (ml & Hml & H). apply bind_Some in H as (max & Hmax & H).
  destruct (conversation_seen _ _ Hml Hp) as [Ht Hs]. exists (concat ml.*2), max. split; [|done].
  injection H as <-. unfold bucket, body_fields, settings, system_blocks, tool_blocks. rewrite Hnative, bool_decide_eq_false_2 by (by intros []). cbn [negb lookup_key assoc mbind option_bind default].
  by rewrite mark_system_nil, mark_tools_nil, Hs.
Qed.

Ltac seek := apply thinking_others; [done|]; apply choice_others; [set_solver|]; past_others; (etransitivity; [apply assoc_insert_eq|]).
Lemma body_model turns max : assoc "model" (body_fields turns max) = Some (JStr (rq_model r)).
Proof. by seek. Qed.
Lemma body_messages turns max : assoc "messages" (body_fields turns max) = Some (JArray turns).
Proof. by seek. Qed.
Lemma body_system turns max : assoc "system" (body_fields turns max) = match system_blocks with [] => None | _ => Some (JArray system_blocks) end.
Proof. seek. by destruct system_blocks. Qed.
Lemma body_max turns max : assoc "max_tokens" (body_fields turns max) = Some (JNumber max).
Proof. by seek. Qed.
Lemma body_temperature turns max :
  assoc "temperature" (body_fields turns max) = if thinking_enabled r then None else jfloat <$> rq_temperature r.
Proof. seek. destruct (thinking_enabled r), (rq_temperature r); try done; by past_others. Qed.
Lemma body_stop turns max : assoc "stop_sequences" (body_fields turns max) = strings <$> rq_stop r.
Proof. seek. destruct (rq_stop r); [done|by past_others]. Qed.
Lemma body_stream turns max : assoc "stream" (body_fields turns max) = None.
Proof. apply thinking_others; [done|]. apply choice_others; [set_solver|]. by past_others. Qed.
Lemma body_tools turns max : assoc "tools" (body_fields turns max) =
  if forbidden r then None else match rq_tools r with [] => None | _ => Some (JArray tool_blocks) end.
Proof.
  apply thinking_others; [done|]. unfold forbidden, settings. destruct (rq_tool_choice r) as [[[]|n]|]; cbn [anthropic_choice];
    rewrite ?assoc_set_ne by done; try (rewrite assoc_insert_eq; destruct (rq_tools r); [by past_others|done]).
  rewrite assoc_drop. by rewrite bool_decide_eq_true_2.
Qed.
Lemma body_choice turns max : optionally decode_anthropic_tool_choice (assoc "tool_choice" (body_fields turns max)) =
  Some (if forbidden r then None else rq_tool_choice r).
Proof.
  assert (Hnone : assoc "tool_choice" (settings turns max) = None) by (by past_others).
  unfold body_fields. rewrite (thinking_others "tool_choice" _ _ _ ltac:(done) eq_refl). unfold forbidden.
  destruct (rq_tool_choice r) as [[[]|n]|]; cbn [anthropic_choice]; rewrite ?assoc_drop_ne, ?assoc_set by done;
    rewrite ?(bool_decide_eq_true_2 ("tool_choice" = "tool_choice")) by done; rewrite ?Hnone; done.
Qed.
Lemma body_thinking turns max : widths r -> lift_openai_thinking (JObject (body_fields turns max)) = if thinking_enabled r then rq_thinking r else None.
Proof.
  intros [_ _ _ Hw]. unfold lift_openai_thinking, obj_at, thinking_enabled, body_fields. cbn [jget demo_json].
  destruct (rq_thinking r) as [[[] b]|] eqn:Ht; cbn [anthropic_thinking th_enabled].
  - rewrite assoc_set, bool_decide_eq_true_2 by done. rewrite <- (thinking_round_trip (MkThinking true b)); [done|]. intros z. by apply (Hw _ z eq_refl).
  - rewrite assoc_drop. by rewrite bool_decide_eq_true_2.
  - rewrite (choice_others "thinking" _ _ None); [done|set_solver|]. by past_others.
Qed.
End Body.

Lemma instruction_lines l : decode_anthropic_text_content (JArray (mark_last (text_json <$> l))) = Some (ContentText (join_lines l)).
Proof.
  unfold decode_anthropic_text_content. cbn [jas_str jas_array demo_json mbind option_bind].
  rewrite mapM_mark_last by (apply Forall_fmap, Forall_true; done). by rewrite text_blocks.
Qed.
Lemma tools_seen l : mapM decode_anthropic_tool (mark_last (anthropic_tool <$> l)) = Some (no_strict <$> l).
Proof.
  rewrite mapM_mark_last by (apply Forall_fmap, Forall_true; by intros [n [d|] p s]).
  apply mapM_each. by intros [n [d|] p s].
Qed.
Lemma view_valid r md body : validate r = true -> validate (anthropic_view r md body) = true.
Proof.
  unfold validate. intros [Hm Hl]%andb_true_iff. apply andb_true_iff. split; [done|]. cbn [rq_messages anthropic_view].
  rewrite forallb_app. apply andb_true_iff. split; [unfold seen_system; by destruct (omap _ _)|].
  rewrite forallb_forall in *. intros x (m & Hin & Hx)%in_flat_map. apply Hl in Hin.
  destruct m; cbn in Hx; try done; [|by destruct Hx as [<-|[]]..].
  unfold flush_parts in Hx. destruct (seen_part <$> parts_of content); [done|by destruct Hx as [<-|[]]].
Qed.

Lemma view_thinking r turns max : widths r ->
  lift_openai_thinking (remove_key "sandhi_extensions" (JObject (body_fields r turns max))) = if thinking_enabled r then rq_thinking r else None.
Proof. intros Hw. rewrite <- (body_thinking r turns max) by done. apply thinking_get. rewrite jget_remove. by keys. Qed.
Lemma view_system r : optionally decode_anthropic_text_content match system_blocks r with [] => None | _ => Some (JArray (system_blocks r)) end
  = Some (match omap instruction_content (rq_messages r) with [] => None | l => Some (ContentText (join_lines (instruction_line <$> l))) end).
Proof.
  unfold system_blocks. destruct (omap _ _) as [|c l]; [done|]. rewrite list_fmap_compose.
  pose proof (instruction_lines (instruction_line <$> c :: l)) as Hi.
  destruct (mark_last _) eqn:Hm; [by apply mark_last_nil in Hm|]. unfold optionally. by rewrite Hi.
Qed.
Lemma view_tools r : each decode_anthropic_tool
    ((if forbidden r then None else match rq_tools r with [] => None | _ => Some (JArray (tool_blocks r)) end) ≫= jas_array)
  = Some (if forbidden r then [] else no_strict <$> rq_tools r).
Proof.
  destruct (forbidden r); [done|]. destruct (rq_tools r) as [|t l] eqn:Hl; [done|]. rewrite <- Hl. unfold each, tool_blocks. cbn. apply tools_seen.
Qed.
Lemma view_temperature r : widths r ->
  (if thinking_enabled r then None else jfloat <$> rq_temperature r) ≫= jas_f64 = if thinking_enabled r then None else rq_temperature r.
Proof.
  intros [Hw _ _ _]. destruct (thinking_enabled r); [done|]. destruct (rq_temperature r) as [f|]; [|done]. cbn. unfold jfloat. by rewrite (Hw f).
Qed.
Lemma view_stop (o : option (list string)) : decode_stop (strings <$> o) = Some o.
Proof. destruct o; [apply stop_round_trip|done]. Qed.

(** The turns are sent whatever the body kept of the client's own dialect. *)
Lemma turns_are_sent r body : encode_anthropic_request from_str r = Some body ->
  exists turns, arr_at body "messages" = Some turns /\ carried <$> turns = omap said (rq_messages r).
Proof.
  unfold encode_anthropic_request. intros H. destruct (validate r); [|done]. cbn [negb] in H.
  apply bind_Some in H as (ml & Hml & H). apply bind_Some in H as (max & _ & H). exists (concat ml.*2). split; [|by apply conversation_carried].
  apply (inj Some) in H as <-. unfold arr_at. cbn [jget demo_json].
  match goal with |- context [assoc "messages" ?l] => assert (Hm : assoc "messages" l = Some (JArray (concat ml.*2))) end; [|by rewrite Hm].
  apply thinking_others; [done|]. apply choice_others; [set_solver|]. past_others. apply assoc_insert_eq.
Qed.

(** C25: A client that is served by an Anthropic upstream has its conversation
    delivered.  Whatever the request, the body the gateway sends carries a
    turn for each message of a user, an assistant or a tool, in order, with
    every text and picture of the message, every call and the call that a
    tool result answers.  And the gateway's own reader of the dialect reads
    the body back as the client's request: the same messages in order, the
    instructions as the system prompt, the tools, the output ceiling, the
    stop sequences and the other settings the dialect has.  That reader takes
    pictures of users only, so the second part asks that no turn of an
    assistant or a tool has one; and it asks that the client did not send
    fields of the Anthropic dialect along, which would be sent as well. *)
Theorem anthropic_upstream_reads_the_conversation r md body :
  encode_anthropic_request from_str r = Some body ->
  (exists turns, arr_at body "messages" = Some turns /\ carried <$> turns = omap said (rq_messages r))
  /\ (rq_extensions r !! "anthropic" = None -> forallb plain_message (rq_messages r) = true -> widths r ->
      decode_anthropic_request to_string body md = Some (anthropic_view r md body, false)).
Proof.
  intros He. split; [by apply turns_are_sent|]. intros Hn Hp Hw. destruct (encoded_fields r body Hn He Hp) as (turns & max & -> & Hmax & Hv & Ht).
  unfold decode_anthropic_request, required_string, str_at, arr_at, wants_stream. rewrite !jget_remove. cbn [jis_object remove_key demo_json negb].
  keys. cbn [jget demo_json]. rewrite (body_system r), (body_messages r), (body_tools r), (body_model r), (body_stop r), (body_temperature r), (body_max r), (body_stream r), (body_choice r).
  rewrite view_system, view_tools, view_stop, view_temperature by done. cbn [mbind option_bind jas_array jas_str demo_json].
  apply fmap_Some in Ht as (lls & -> & Ht). cbn [mbind option_bind].
  set (filtered := JObject (List.filter _ _)).
  assert (lift_openai_thinking filtered = if thinking_enabled r then rq_thinking r else None) as -> by apply (view_thinking r turns max Hw).
  pose proof (view_valid r md (JObject (body_fields r turns max)) Hv) as Hvalid.
  rewrite (w_max r Hw max Hmax), <- Hmax.
  replace (option_list _) with (seen_system (rq_messages r)) by (unfold seen_system; by destruct (omap instruction_content _)).
  rewrite <- Ht. transitivity (r' ← validated (anthropic_view r md (JObject (body_fields r turns max))); Some (r', false)); [done|].
  unfold validated. by rewrite Hvalid.
Qed.
End Anthropic.

(** The sample request of an OpenAI client, with a ceiling, for Anthropic. *)
Definition sample_request : option ChatRequestV1 := fst <$> decode_openai_request (remove_key "sandhi_extensions" sample_openai) sample_metadata.
Lemma anthropic_upstream_reads_the_conversation_witness :
  exists r body, sample_request = Some r /\ encode_anthropic_request (fun _ => Some (JObject [])) r = Some body
    /\ decode_anthropic_request (fun _ => "{}") body sample_metadata
       = Some (anthropic_view (fun _ => "{}") (fun _ => Some (JObject [])) r sample_metadata body, false)
    /\ rq_messages (anthropic_view (fun _ => "{}") (fun _ => Some (JObject [])) r sample_metadata body)
       = [System (ContentText "Answer briefly.") None;
          User (ContentParts [PartText "What is this?"; PartImageUrl "data:image/png;base64,AAAA" None]) None;
          Assistant None None [MkToolCall "c1" "look" "{}"] None; Tool (ContentText "a cat") "c1"].
Proof.
  destruct sample_request as [r|] eqn:Hr; [|vm_compute in Hr; discriminate].
  destruct (encode_anthropic_request (fun _ => Some (JObject [])) r) as [body|] eqn:Hb; [|vm_compute in Hr; simplify_eq].
  exists r, body. split; [done|]. split; [done|]. split.
  - apply (proj2 (anthropic_upstream_reads_the_conversation _ _ _ _ _ Hb)); vm_compute in Hr; simplify_eq; [done|done|].
    split; [done|intros z [= <-]; done|intros z [= <-]; done|done].
  - vm_compute in Hr. simplify_eq. reflexivity.
Defined.

(** A tool result with a picture, which the reader refuses, is carried. *)
Example tool_picture_is_sent :
  let r := MkRequest "m" [Tool (ContentParts [PartText "see"; PartImageUrl "https://x/y.png" None]) "c1"] [] None None (Some 5) None None None
             sample_metadata None None ∅ in
  exists body turns, encode_anthropic_request (fun _ => None) r = Some body /\ arr_at body "messages" = Some turns
    /\ carried (fun _ => "{}") <$> turns = [(Some "user", [PartText "see"; PartImageUrl "https://x/y.png" None], [], ["c1"])]
    /\ decode_anthropic_request (fun _ => "{}") body sample_metadata = None.
Proof. eexists _, _. split; [vm_compute; reflexivity|]. split; [reflexivity|]. split; vm_compute; reflexivity. Qed.
