(* ===== verification/Session.v ===== *)
(** Session identities ([core/chat.rs]): the key that groups the calls of a
    conversation, taken from what the caller declares or from a hash of the
    cacheable prefix, and the model names that may enter a URL path.  The
    text of a JSON value is an argument. *)

From S2P Require Import Prelude Text Usage Json UsageParse Attempt Accounting StreamEncoder ChatRequest.

(** ** Safe values *)

(** [char::is_control] on the bytes of a text: C0, DEL, and C1 in two
    bytes. *)
Definition control1 (b : Z) : bool := (b <? 32) || (b =? 127).
Definition control2 (b c : Z) : bool := (b =? 194) && (128 <=? c) && (c <=? 159).
Definition DASH : Z := 45.
Fixpoint sanitize_bytes (s : list Z) : list Z :=
  match s with
  | [] => []
  | b :: s =>
      if control1 b then DASH :: sanitize_bytes s
      else match s with
           | c :: s' => if control2 b c then DASH :: sanitize_bytes s' else b :: sanitize_bytes s
           | [] => [b]
           end
  end.
Definition sanitize_affinity_value (value : string) : string := string_of (sanitize_bytes (bytes value)).

(** [contains("..")]. *)
Fixpoint has_dots (s : list Z) : bool :=
  match s with
  | b :: ((c :: _) as s') => ((b =? 46) && (c =? 46)) || has_dots s'
  | _ => false
  end.
Definition ascii_alphanumeric (b : Z) : bool :=
  ((48 <=? b) && (b <=? 57)) || ((65 <=? b) && (b <=? 90)) || ((97 <=? b) && (b <=? 122)).
Definition path_char (b : Z) : bool :=
  ascii_alphanumeric b || (b =? 46) || (b =? 95) || (b =? 45) || (b =? 58) || (b =? 64).
Definition model_id_is_path_safe (model : string) : bool :=
  let m := bytes model in
  negb (bool_decide (m = []) || (256 <? Z.of_nat (length m)) || has_dots m) && forallb path_char m.

(** ** The derivation *)

Definition fnv_step (hash byte : Z) : Z := Z.lxor hash byte * 1099511628211 mod 2 ^ 64.
Definition fnv1a_64 (bs : list Z) : Z := foldl fnv_step 14695981039346656037 bs.

(** A declared value, unless it is blank. *)
Definition declared (v : option string) : option string :=
  v ← v; let v := string_of (trim (bytes v)) in if bool_decide (v = "") then None else Some v.
(** The leading system messages. *)
Definition is_prefix_role (message : Json) : bool :=
  bool_decide (str_at message "role" = Some "system") || bool_decide (str_at message "role" = Some "developer").
Fixpoint take_prefix (messages : list Json) : list Json :=
  match messages with
  | [] => []
  | m :: messages => if is_prefix_role m then m :: take_prefix messages else []
  end.
Definition cacheable_prefix (body : Json) : list Json :=
  omap (jget body) ["system"; "systemInstruction"; "instructions"]
  ++ take_prefix (default [] (arr_at body "messages")) ++ option_list (jget body "tools").

Section Derive.
Context (to_string : Json -> string).

Definition prefix_hash (prefix : list Json) (scope : option string) : Z :=
  let hash := fnv1a_64 (bytes (to_string (JArray prefix))) in
  match declared scope with Some scope => Z.lxor hash (fnv1a_64 (bytes scope)) | None => hash end.
Definition derive_session_id_scoped (explicit : option string) (body : Json) (scope : option string) : option string :=
  match declared explicit with
  | Some session => Some (sanitize_affinity_value session)
  | None =>
      match declared (str_at body "user") with
      | Some user => Some (sanitize_affinity_value user)
      | None =>
          match declared (pointer body "metadata" "user_id" ≫= jas_str) with
          | Some user_id => Some (sanitize_affinity_value user_id)
          | None =>
              match cacheable_prefix body with
              | [] => None
              | prefix => Some ("prefix-" +:+ hex_digits 16 (prefix_hash prefix scope))
              end
          end
      end
  end.
Definition derive_session_id (explicit : option string) (body : Json) : option string := derive_session_id_scoped explicit body None.
End Derive.

(** ** Properties *)

(** No control character: the value is fit for a header. *)
Fixpoint header_safe (s : list Z) : bool :=
  match s with
  | [] => true
  | b :: s => negb (control1 b) && match s with c :: _ => negb (control2 b c) | [] => true end && header_safe s
  end.
Lemma sanitize_head s c s' : sanitize_bytes s = c :: s' -> c = DASH \/ head s = Some c.
Proof.
  destruct s as [|b s]; [done|]. cbn [sanitize_bytes]. destruct (control1 b); [intros [= <- _]; by left|].
  destruct s as [|d s]; [intros [= <- _]; by right|]. destruct (control2 b d); intros [= <- _]; [by left|by right].
Qed.
Lemma sanitize_header_safe n s : (length s < n)%nat -> header_safe (sanitize_bytes s) = true.
Proof.
  assert (Hdash : forall l, header_safe l = true -> header_safe (DASH :: l) = true) by (intros l Hl; cbn [header_safe]; rewrite Hl; by destruct l).
  revert s. induction n as [|n IH]; intros s Hn; [lia|]. destruct s as [|b s]; [done|]. cbn [length] in Hn. cbn [sanitize_bytes].
  destruct (control1 b) eqn:H1; [apply Hdash, IH; lia|]. destruct s as [|c s]; [cbn; by rewrite H1|]. cbn [length] in Hn.
  destruct (control2 b c) eqn:H2; [apply Hdash, IH; lia|].
  cbn [header_safe]. rewrite H1, IH by (cbn; lia). rewrite andb_true_r. cbn [negb andb].
  destruct (sanitize_bytes (c :: s)) as [|d l] eqn:Hs; [done|]. apply sanitize_head in Hs as [->|Hd]; [|by simplify_eq/=; rewrite H2].
  apply negb_true_iff. unfold control2, DASH. by rewrite andb_false_r.
Qed.

(** The bytes of a derived identity. *)
Lemma sanitize_bytes_are_bytes n s : (length s < n)%nat -> Forall is_byte s -> Forall is_byte (sanitize_bytes s).
Proof.
  assert (is_byte DASH) by (unfold is_byte, DASH; lia).
  revert s. induction n as [|n IH]; intros s Hn Hs; [lia|]. destruct s as [|b s]; [done|]. cbn [length] in Hn. inversion Hs as [|? ? Hb Hs']; subst.
  cbn [sanitize_bytes]. destruct (control1 b); [constructor; [done|apply IH; [lia|done]]|].
  destruct s as [|c s]; [done|]. cbn [length] in Hn. destruct (control2 b c).
  - constructor; [done|]. inversion Hs'; subst. apply IH; [lia|done].
  - constructor; [done|]. apply IH; [cbn; lia|done].
Qed.
Lemma sanitized_header_safe v : header_safe (bytes (sanitize_affinity_value v)) = true.
Proof.
  unfold sanitize_affinity_value. rewrite bytes_string_of.
  - apply (sanitize_header_safe (S (length (bytes v)))). lia.
  - apply (sanitize_bytes_are_bytes (S (length (bytes v)))); [lia|apply bytes_are_bytes].
Qed.
Lemma plain_header_safe s : Forall (fun b => 32 <= b < 127) s -> header_safe s = true.
Proof.
  induction 1 as [|b s Hb Hs IH]; [done|]. cbn [header_safe]. rewrite IH, andb_true_r.
  assert (control1 b = false) as -> by (unfold control1; lia). cbn [negb andb].
  destruct s as [|c s]; [done|]. apply negb_true_iff. unfold control2. lia.
Qed.
Lemma bytes_cons c s : bytes (String c s) = Z.of_nat (nat_of_ascii c) :: bytes s.
Proof. done. Qed.
Lemma hex_digits_plain n z : Forall (fun b => 32 <= b < 127) (bytes (hex_digits n z)).
Proof.
  induction n as [|n IH]; [constructor|]. cbn [hex_digits]. rewrite bytes_cons. constructor; [|done].
  pose proof (Z.mod_pos_bound (Z.shiftr z (4 * Z.of_nat n)) 16 ltac:(lia)) as Hd. rewrite <- (Z.land_ones _ 4) in Hd by lia. change (Z.ones 4) with 15 in Hd.
  set (d := Z.land _ 15) in *. unfold hex_digit. rewrite nat_ascii_embedding by (destruct (d <? 10) eqn:?; lia). destruct (d <? 10) eqn:?; lia.
Qed.
Lemma fnv_in_u64 s : in_u64 (fnv1a_64 s).
Proof.
  unfold fnv1a_64. assert (H : in_u64 14695981039346656037) by (unfold_ints; lia). revert H. generalize 14695981039346656037.
  induction s as [|b s IH]; intros h Hh; [done|]. cbn [foldl]. apply IH. unfold fnv_step.
  pose proof (Z.mod_pos_bound (Z.lxor h b * 1099511628211) (2 ^ 64) ltac:(lia)). unfold_ints. unfold u64_max. lia.
Qed.

Section Properties.
Context (to_string : Json -> string).

Lemma lxor_in_u64 a b : in_u64 a -> in_u64 b -> in_u64 (Z.lxor a b).
Proof.
  intros Ha Hb. assert (Hbits : forall x n, in_u64 x -> 64 <= n -> Z.testbit x n = false).
  { intros x n Hx Hn. rewrite <- (Z.mod_small x (2 ^ 64)) by (unfold in_u64, u64_max in Hx; lia). by apply Z.mod_pow2_bits_high. }
  assert (Hm : Z.lxor a b = Z.lxor a b mod 2 ^ 64).
  { apply Z.bits_inj'. intros n Hn. destruct (Z.lt_ge_cases n 64).
    - by rewrite Z.mod_pow2_bits_low.
    - rewrite Z.mod_pow2_bits_high, Z.lxor_spec, !Hbits by done. done. }
  pose proof (Z.mod_pos_bound (Z.lxor a b) (2 ^ 64) ltac:(lia)). unfold in_u64, u64_max. lia.
Qed.
Lemma prefix_hash_in_u64 prefix scope : in_u64 (prefix_hash to_string prefix scope).
Proof. unfold prefix_hash. destruct (declared scope); [apply lxor_in_u64|]; apply fnv_in_u64. Qed.

(** A session identity can always be sent as a header value; one that the
    caller declared does not depend on the virtual key; and two virtual keys
    share the identity of a prompt only if the hashes of their ids are
    equal. *)
Theorem session_ids_are_safe_and_scoped body :
  (forall explicit scope id, derive_session_id_scoped to_string explicit body scope = Some id -> header_safe (bytes id) = true)
  /\ (forall explicit v scope scope', declared explicit = Some v \/ declared (str_at body "user") = Some v ->
      derive_session_id_scoped to_string explicit body scope = derive_session_id_scoped to_string explicit body scope')
  /\ (forall key key' k k', declared (str_at body "user") = None -> declared (pointer body "metadata" "user_id" ≫= jas_str) = None ->
      cacheable_prefix body <> [] -> declared key = Some k -> declared key' = Some k' ->
      derive_session_id_scoped to_string None body key = derive_session_id_scoped to_string None body key' ->
      fnv1a_64 (bytes k) = fnv1a_64 (bytes k')).
Proof.
  unfold derive_session_id_scoped. split_and!.
  - intros explicit scope id. repeat case_match; intros; simplify_eq; try apply sanitized_header_safe.
    rewrite bytes_app. apply plain_header_safe, Forall_app. split; [|apply hex_digits_plain]. by apply (bool_decide_unpack _).
  - intros explicit v scope scope' [->| ->]; [done|]. by destruct (declared explicit).
  - intros key key' k k' -> -> Hp Hk Hk' He. change (declared None) with (@None string) in He. cbv iota beta in He.
    destruct (cacheable_prefix body) as [|x prefix]; [done|]. apply (inj Some), (inj (String.append "prefix-")), hex_digits_inj in He.
    change (16 ^ Z.of_nat 16) with (2 ^ 64) in He.
    rewrite !Z.mod_small in He by (pose proof (prefix_hash_in_u64 (x :: prefix) key); pose proof (prefix_hash_in_u64 (x :: prefix) key'); unfold in_u64, u64_max in *; lia).
    unfold prefix_hash in He. rewrite Hk, Hk' in He. apply (f_equal (Z.lxor (fnv1a_64 (bytes (to_string (JArray (x :: prefix))))))) in He.
    by rewrite <- !Z.lxor_assoc, Z.lxor_nilpotent, !Z.lxor_0_l in He.
Qed.
End Properties.

Lemma path_char_spec b : path_char b = true -> 45 <= b <= 122 /\ b <> 47 /\ b <> 92 /\ b <> 63.
Proof. unfold path_char, ascii_alphanumeric. intros H. lia. Qed.
(** A model name that may enter a path has no separator, query, fragment,
    escape or parent step, and at most 256 bytes. *)
Lemma path_safe_models model : model_id_is_path_safe model = true ->
  0 < Z.of_nat (length (bytes model)) <= 256 /\ has_dots (bytes model) = false /\ Forall (fun b => b ∉ [47; 92; 63; 35; 37; 32]) (bytes model).
Proof.
  unfold model_id_is_path_safe. intros [H Hc]%andb_true_iff. apply negb_true_iff in H. rewrite !orb_false_iff in H. destruct H as [[Hn Hl%Z.ltb_ge] Hd].
  apply bool_decide_eq_false in Hn. split; [|split; [done|]].
  - destruct (bytes model); [done|]. cbn [length] in *. lia.
  - apply Forall_forall. intros b Hb. rewrite forallb_forall in Hc. apply list_elem_of_In in Hb. apply Hc, path_char_spec in Hb. set_solver by lia.
Qed.
