(* ===== verification/TextEndpoints.v ===== *)
(** The plaintext endpoints ([proxy/text_endpoints.rs]): embeddings and
    completions are decoded for admission and accounting only, and their
    bytes are forwarded as they came.  An error is its absence; messages are
    left out. *)

From S2P Require Import Prelude Text Usage Json UsageParse Stats Inspect Attempt Accounting StreamEncoder ChatRequest RequestDecode.

(** ** Fields *)

Definition integer (object : Json) (key : string) (def min max : Z) : option Z :=
  value ← (match jget object key with None => Some def | Some value => jas_u64 value end);
  if (min <=? value) && (value <=? max) then Some value else None.
Definition optional_bool (object : Json) (key : string) : option bool :=
  match jget object key with None => Some false | Some value => jas_bool value end.
(** A check of a field that is present. *)
Definition when_present (object : Json) (key : string) (ok : Json -> bool) : bool :=
  match jget object key with None => true | Some value => ok value end.
Definition jis_string (v : Json) : bool := match v with JString _ => true | _ => false end.
Definition within (min max : Z) (v : Json) : bool :=
  match jas_f64 v with Some f => SFleb (f64_of min) f && SFleb f (f64_of max) | None => false end.

(** [str::parse::<u32>]: digits after an optional plus sign. *)
Definition is_digit (b : Z) : bool := (48 <=? b) && (b <=? 57).
Definition digits_value (s : list Z) : Z := foldl (fun n b => n * 10 + (b - 48)) 0 s.
Definition parse_u32 (key : string) : option Z :=
  let digits := match bytes key with 43 :: rest => rest | s => s end in
  if negb (bool_decide (digits = [])) && forallb is_digit digits && (digits_value digits <=? 4294967295)
  then Some (digits_value digits) else None.

(** [u64::checked_mul]. *)
Definition checked_mul (a b : Z) : option Z := if a * b <=? u64_max then Some (a * b) else None.

(** ** The two endpoints *)

Definition allowed_fields (embeddings : bool) : list string :=
  if embeddings then ["model"; "input"; "encoding_format"; "dimensions"; "user"]
  else ["model"; "prompt"; "suffix"; "max_tokens"; "temperature"; "top_p"; "n"; "stream"; "stream_options"; "logprobs"; "echo"; "stop";
        "presence_penalty"; "frequency_penalty"; "best_of"; "logit_bias"; "user"; "seed"].
Definition known_fields (allowed : list string) (object : Json) : bool := forallb (fun e => bool_decide (e.1 ∈ allowed)) (fields_of object).
(** The text or the batch of texts. *)
Definition texts_of_field (value : option Json) : option (list string) :=
  match value with
  | Some (JString text) => Some [text]
  | Some (JArray values) => if bool_decide (values = []) || (2048 <? Z.of_nat (length values)) then None else mapM jas_str values
  | _ => None
  end.
Definition stop_ok (v : Json) : bool :=
  jis_string v || match jas_array v with Some l => (Z.of_nat (length l) <=? 4) && forallb jis_string l | None => false end.
Definition stream_options_ok (stream : bool) (v : Json) : bool :=
  jis_object v && known_fields ["include_usage"] v && bool_decide (is_Some (optional_bool v "include_usage")) && stream.
Definition logit_bias_ok (v : Json) : bool :=
  jis_object v && (Z.of_nat (length (fields_of v)) <=? 4096)
  && forallb (fun e => bool_decide (is_Some (parse_u32 e.1)) && within (-100) 100 e.2) (fields_of v).
Definition embedding_ok (object : Json) : bool :=
  when_present object "encoding_format" (fun v => bool_decide (jas_str v = Some "float") || bool_decide (jas_str v = Some "base64"))
  && when_present object "dimensions" (fun _ => bool_decide (is_Some (integer object "dimensions" 1 1 65536))).
Definition completion_ok (object : Json) (stream : bool) : bool :=
  when_present object "temperature" (within 0 2) && when_present object "top_p" (within 0 1)
  && when_present object "presence_penalty" (within (-2) 2) && when_present object "frequency_penalty" (within (-2) 2)
  && when_present object "logprobs" (fun _ => bool_decide (is_Some (integer object "logprobs" 0 0 100)))
  && when_present object "seed" (fun v => bool_decide (is_Some (jas_i64 v)))
  && when_present object "stop" stop_ok && when_present object "stream_options" (stream_options_ok stream)
  && when_present object "logit_bias" logit_bias_ok.

(** The stream flag, the alternatives and the output of a completion. *)
Definition completion_exposure (object : Json) (texts : list string) : option (bool * Z * Z) :=
  stream ← optional_bool object "stream";
  _ ← optional_bool object "echo";
  n ← integer object "n" 1 1 128;
  alternatives ← integer object "best_of" n 1 128;
  if alternatives <? n then None
  else
    max_tokens ← integer object "max_tokens" 16 0 1048576;
    output ← (product ← checked_mul max_tokens (Z.of_nat (length texts)); checked_mul product alternatives);
    if completion_ok object stream then Some (stream, alternatives, output) else None.
(** The request that admission sees. *)
Definition accounting_view (model : string) (texts : list string) (output : Z) : Json :=
  JObject [("model", JStr model); ("messages", JArray ((fun t => JObject [("role", JStr "user"); ("content", JStr t)]) <$> texts));
           ("max_tokens", JNumber output)].

Definition decode (dialect : IngressDialect) (body : Json) (metadata : RequestMetadataV1) : option (ChatRequestV1 * bool) :=
  if negb (jis_object body) then None
  else
    let embeddings := match dialect with EmbeddingsDialect => true | _ => false end in
    if negb (known_fields (allowed_fields embeddings) body) then None
    else
      model ← str_at body "model";
      if blank model then None
      else
        texts ← texts_of_field (jget body (if embeddings then "input" else "prompt"));
        if embeddings && existsb (fun t => bool_decide (t = "")) texts then None
        else if negb (when_present body "user" jis_string && when_present body "suffix" jis_string) then None
        else
          '(stream, alternatives, output) ←
            (if embeddings then if embedding_ok body then Some (false, 1, 0) else None else completion_exposure body texts);
          '(request, _) ← decode_openai_request (accounting_view model texts output) metadata;
          let suffix_bytes := match str_at body "suffix" with Some s => Z.of_nat (length (bytes s)) | None => 0 end in
          Some (with_extensions
                  {["sandhi.input_multiplier" := JNumber alternatives;
                    "sandhi.repeated_suffix_bytes" := JNumber (sat_mul suffix_bytes (Z.of_nat (length texts) - 1))]} request, stream).

(** The bytes the estimate of the input is made of. *)
Definition input_bytes (request : ChatRequestV1) (wire_bytes : Z) : Z :=
  let read key def := default def (rq_extensions request !! key ≫= jas_u64) in
  sat_mul (sat_add wire_bytes (read "sandhi.repeated_suffix_bytes" 0)) (read "sandhi.input_multiplier" 1).

(** ** Properties *)

Lemma integer_bounds object key def min max n : integer object key def min max = Some n -> min <= n <= max.
Proof.
  unfold integer. intros (v & _ & H)%bind_Some. destruct (_ && _) eqn:Hb; simplify_eq. bools. lia.
Qed.
Lemma mapM_texts values texts : mapM jas_str values = Some texts -> length texts = length values.
Proof. intros H%mapM_Some. symmetry. by eapply Forall2_length. Qed.
Lemma texts_bounds v texts : texts_of_field v = Some texts -> 1 <= Z.of_nat (length texts) <= 2048.
Proof.
  unfold texts_of_field. destruct v as [[]|]; try done; [intros; by simplify_eq|].
  case_bool_decide as Hn; [done|]. cbn [orb]. destruct (2048 <? _) eqn:Hl; [done|]. intros H%mapM_texts. rewrite H.
  apply Z.ltb_ge in Hl. destruct l as [|j l]; [done|]. cbn [length] in *. lia.
Qed.

Lemma view_messages texts :
  mapM decode_openai_message ((fun t => JObject [("role", JStr "user"); ("content", JStr t)]) <$> texts) = Some ((fun t => User (ContentText t) None) <$> texts).
Proof. by apply mapM_each. Qed.
Lemma decode_view model texts output md r s : decode_openai_request (accounting_view model texts output) md = Some (r, s) -> in_u64 output ->
  rq_messages r = (fun t => User (ContentText t) None) <$> texts /\ rq_max_output_tokens r = Some output /\ rq_model r = model /\ rq_metadata r = md.
Proof.
  intros H Ho. assert (He : decode_openai_request (accounting_view model texts output) md =
    (messages ← mapM decode_openai_message ((fun t => JObject [("role", JStr "user"); ("content", JStr t)]) <$> texts);
     request ← validated (MkRequest model messages [] None None (jas_u64 (JNumber output)) None None None md None None
                            {["openai" := accounting_view model texts output]});
     Some (request, false))) by reflexivity.
  rewrite He, view_messages in H. cbn [mbind option_bind] in H. unfold validated in H. destruct (validate _); [|done].
  cbn [mbind option_bind] in H. injection H as <- _. cbn [rq_messages rq_max_output_tokens rq_model rq_metadata]. split_and!; try done.
  cbn [jas_u64 demo_json]. unfold in_u64 in Ho. by rewrite (proj2 (Z.leb_le 0 output)), (proj2 (Z.leb_le output u64_max)) by lia.
Qed.

Lemma exposure_spec body texts stream alternatives output : Z.of_nat (length texts) <= 2048 ->
  completion_exposure body texts = Some (stream, alternatives, output) ->
  exists max_tokens, integer body "max_tokens" 16 0 1048576 = Some max_tokens /\ 1 <= alternatives <= 128
    /\ output = max_tokens * Z.of_nat (length texts) * alternatives /\ 0 <= output <= 2 ^ 38.
Proof.
  unfold completion_exposure. intros Hl H. apply bind_Some in H as (str & _ & H). apply bind_Some in H as (echo & _ & H).
  apply bind_Some in H as (n & _ & H). apply bind_Some in H as (alt & Halt & H). destruct (alt <? n); [done|].
  apply bind_Some in H as (max & Hmax & H). apply bind_Some in H as (out & Hout & H). apply bind_Some in Hout as (product & Hp & Hout).
  destruct (completion_ok body str); [|done]. injection H as <- <- <-. apply integer_bounds in Halt. exists max. pose proof (integer_bounds _ _ _ _ _ _ Hmax).
  unfold checked_mul in *. repeat case_match; simplify_eq. split_and!; try done; try lia; nia.
Qed.
(** The product never leaves 64 bits: the refusal of an overflow is dead
    code behind the limits of the fields. *)
Lemma exposure_never_overflows max_tokens texts alternatives : 0 <= max_tokens <= 1048576 -> Z.of_nat (length (texts : list string)) <= 2048 ->
  1 <= alternatives <= 128 -> (product ← checked_mul max_tokens (Z.of_nat (length texts)); checked_mul product alternatives)
  = Some (max_tokens * Z.of_nat (length texts) * alternatives).
Proof.
  intros Hm Ht Ha. assert (Hp : 0 <= max_tokens * Z.of_nat (length texts) <= 2 ^ 31) by nia. unfold checked_mul.
  rewrite (proj2 (Z.leb_le _ _)) by (unfold u64_max; lia). cbn [mbind option_bind].
  revert Hp. generalize (max_tokens * Z.of_nat (length texts)). intros p Hp.
  by rewrite (proj2 (Z.leb_le _ _)) by (unfold u64_max; nia).
Qed.

Lemma jas_u64_of n : in_u64 n -> jas_u64 (JNumber n) = Some n.
Proof. intros [H1 H2]. cbn. by rewrite (proj2 (Z.leb_le 0 n)), (proj2 (Z.leb_le n u64_max)). Qed.
Lemma unknown_field_absent allowed v k : known_fields allowed v = true -> k ∉ allowed -> jget v k = None.
Proof.
  unfold known_fields. destruct v as [| | | | | |l]; try done. cbn [fields_of jget demo_json]. intros H Hk. induction l as [|[k' v] l IH]; [done|].
  cbn [forallb fst] in H. apply andb_true_iff in H as [Hin H]. apply bool_decide_eq_true in Hin. cbn [assoc].
  rewrite bool_decide_eq_false_2 by congruence. by apply IH.
Qed.
Lemma sat_mul_in_u64 a b : 0 <= a -> 0 <= b -> in_u64 (sat_mul a b).
Proof. unfold in_u64, sat_mul, u64_max. nia. Qed.
Lemma multiplied_input req alt suffix wire : in_u64 alt -> in_u64 suffix ->
  input_bytes (with_extensions {["sandhi.input_multiplier" := JNumber alt; "sandhi.repeated_suffix_bytes" := JNumber suffix]} req) wire
  = sat_mul (sat_add wire suffix) alt.
Proof.
  intros Ha Hs. unfold input_bytes. cbn [rq_extensions with_extensions]. rewrite lookup_insert_ne by done. rewrite lookup_singleton_eq, lookup_insert_eq.
  cbn [mbind option_bind]. by rewrite !jas_u64_of by done.
Qed.

(** A decoded request names only fields of its endpoint and has a limit. *)
Lemma decoded_is_limited dialect body md r stream : decode dialect body md = Some (r, stream) ->
  known_fields (allowed_fields (match dialect with EmbeddingsDialect => true | _ => false end)) body = true /\ is_Some (rq_max_output_tokens r).
Proof.
  intros H. unfold decode in H. destruct (negb (jis_object body)); [done|]. cbv zeta in H. destruct (known_fields _ body) eqn:Hk; [|done]. split; [done|].
  cbn [negb] in H. apply bind_Some in H as (model & _ & H). destruct (blank model); [done|].
  apply bind_Some in H as (texts & Ht & H). pose proof (texts_bounds _ _ Ht) as Hb. destruct (_ && existsb _ _); [done|].
  destruct (negb (when_present _ _ _ && _)); [done|]. apply bind_Some in H as ([[str alt] out] & He & H).
  apply bind_Some in H as ([req s'] & Hd & H). injection H as <- <-. cbn [with_extensions rq_max_output_tokens]. eapply decode_view in Hd as (_ & -> & _); [by eexists|].
  destruct dialect; try (apply exposure_spec in He as (? & ? & ? & ? & ?); [|lia]; unfold in_u64, u64_max; lia).
  destruct (embedding_ok body); simplify_eq. unfold in_u64, u64_max. lia.
Qed.

(** What is reserved for a plaintext request covers everything it can
    produce: nothing for embeddings, and for completions the output limit of
    each prompt and each alternative, without overflow; every prompt is in the
    view of admission, and the input is counted once per alternative with the
    repeated suffix of each further prompt. *)
Theorem text_exposure_is_covered dialect body md r stream wire :
  decode dialect body md = Some (r, stream) -> 0 <= wire ->
  exists texts, rq_messages r = (fun t => User (ContentText t) None) <$> texts /\ 1 <= Z.of_nat (length texts) <= 2048
    /\ (dialect = EmbeddingsDialect -> texts_of_field (jget body "input") = Some texts /\ rq_max_output_tokens r = Some 0
        /\ stream = false /\ (in_u64 wire -> input_bytes r wire = wire))
    /\ (dialect = CompletionsDialect -> texts_of_field (jget body "prompt") = Some texts
        /\ exists max_tokens alternatives, integer body "max_tokens" 16 0 1048576 = Some max_tokens /\ 1 <= alternatives <= 128
           /\ rq_max_output_tokens r = Some (max_tokens * Z.of_nat (length texts) * alternatives)
           /\ max_tokens * Z.of_nat (length texts) * alternatives <= 2 ^ 38
           /\ input_bytes r wire
              = sat_mul (sat_add wire (sat_mul (match str_at body "suffix" with Some s => Z.of_nat (length (bytes s)) | None => 0 end)
                                         (Z.of_nat (length texts) - 1))) alternatives).
Proof.
  intros H Hw. unfold decode in H. destruct (negb (jis_object body)); [done|]. cbv zeta in H.
  destruct (known_fields _ body) eqn:Hk; [|done]. cbn [negb] in H. apply bind_Some in H as (model & _ & H). destruct (blank model); [done|].
  apply bind_Some in H as (texts & Ht & H). pose proof (texts_bounds _ _ Ht) as Hb. destruct (_ && existsb _ _); [done|].
  destruct (negb (when_present _ _ _ && _)); [done|]. apply bind_Some in H as ([[str alt] out] & He & H).
  apply bind_Some in H as ([req s'] & Hd & H). injection H as <- <-.
  assert (Hout : in_u64 out /\ 1 <= alt <= 128).
  { destruct dialect; try (apply exposure_spec in He as (? & ? & ? & ? & ?); [|lia]; split; [unfold in_u64, u64_max; lia|lia]).
    destruct (embedding_ok body); simplify_eq. split; [unfold in_u64, u64_max; lia|lia]. }
  destruct Hout as [Hout Ha]. destruct (decode_view _ _ _ _ _ _ Hd Hout) as (Hm & Hmax & _). exists texts. cbn [with_extensions rq_messages rq_max_output_tokens].
  split; [done|]. split; [lia|]. split.
  - intros ->. destruct (embedding_ok body); simplify_eq. split_and!; try done. intros Hwire.
    assert (str_at body "suffix" = None) as ->.
    { unfold str_at. rewrite (unknown_field_absent (allowed_fields true)); [done|done|]. set_solver. }
    rewrite multiplied_input by (unfold in_u64, sat_mul, u64_max; lia). unfold in_u64, sat_mul, sat_add in *. lia.
  - intros ->. apply exposure_spec in He as (max & Hm' & Ha' & -> & Ho); [|lia]. split; [done|]. exists max, alt. split_and!; try done; try lia.
    apply multiplied_input; [unfold in_u64, u64_max; lia|]. apply sat_mul_in_u64; [by destruct (str_at body "suffix"); lia|lia].
Qed.

Definition sample_completion : Json :=
  JObject [("model", JStr "m"); ("prompt", JArray [JStr "a"; JStr "b"; JStr "c"]); ("n", JNumber 2); ("best_of", JNumber 4);
           ("max_tokens", JNumber 100); ("suffix", JStr "xyz"); ("stream", JBool true)].
Lemma text_exposure_is_covered_witness :
  exists r, decode CompletionsDialect sample_completion (MkMetadata None None None None None None None None None None) = Some (r, true)
    /\ rq_max_output_tokens r = Some 1200 /\ input_bytes r 80 = 344.
Proof.
  destruct (decode CompletionsDialect sample_completion (MkMetadata None None None None None None None None None None)) as [[r s]|] eqn:H;
    [|vm_compute in H; discriminate].
  destruct (text_exposure_is_covered _ _ _ _ _ 80 H ltac:(lia)) as (texts & _ & _ & _ & Hc).
  destruct (Hc eq_refl) as (Ht & max & alt & Hmax & _ & Ho & _ & Hi). exists r.
  vm_compute in H. injection H as <- <-. split; [reflexivity|]. split; reflexivity.
Defined.
