(* ===== verification/FrontDoor.v ===== *)
(** The front door of the gateway: preparation ([proxy/preparation.rs]) and
    the handler around it ([proxy/lib.rs]), from the credential to the
    dispatch.  Each check is made in the order of the code; the accounting of
    the request is [Accounting]'s, the answer of the policy gate is that of
    [PolicyGate], the key is resolved by [Keys] or [Auth].

    The readers of JSON ([parse_document] keeps repeated keys, [from_slice]
    does not) and its writer, the resolution of a token and the
    answer of the gate are arguments. *)

From S2P Require Import Prelude Text Headers Usage Json UsageParse Stats TokenEstimate Ledger SqlLedger ProxyLedger Attempt Resilience Accounting Passthrough Inspect.
From S2P Require Import Policy PolicyGate Keys StreamEncoder Deadlines RateLimit ChatRequest RequestDecode Session TextEndpoints.

(** ** Dialects *)

Definition credential_schemes (d : IngressDialect) : list CredentialScheme :=
  match d with
  | OpenAi | EmbeddingsDialect | CompletionsDialect | ResponsesDialect => [AuthorizationBearer]
  | StreamEncoder.Anthropic => [RawHeader "x-api-key"; AuthorizationBearer]
  | GeminiDialect => [RawHeader "x-goog-api-key"; AuthorizationBearer]
  end.
Definition extract_credential (d : IngressDialect) (h : HeaderMap) : option string := find_scheme (credential_schemes d) h.
Definition ingress_family (d : IngressDialect) : ProviderFamily :=
  match d with
  | OpenAi | EmbeddingsDialect | CompletionsDialect => FOpenAiCompat
  | StreamEncoder.Anthropic => FAnthropic
  | ResponsesDialect => FOpenAiResponses
  | GeminiDialect => FGemini
  end.
#[export] Instance ProviderFamily_eq_dec : EqDecision ProviderFamily.
Proof. solve_decision. Defined.
Definition is_text_route (d : IngressDialect) : bool := match d with EmbeddingsDialect | CompletionsDialect => true | _ => false end.
Definition route_name (d : IngressDialect) : string :=
  match d with
  | OpenAi => "/v1/chat/completions"
  | EmbeddingsDialect => "/v1/embeddings"
  | CompletionsDialect => "/v1/completions"
  | StreamEncoder.Anthropic => "/v1/messages"
  | ResponsesDialect => "/v1/responses"
  | GeminiDialect => "/v1beta/models/:generateContent"
  end.
Definition input_format (d : IngressDialect) : option InputFormat :=
  match d with
  | OpenAi => Some Chat
  | StreamEncoder.Anthropic => Some Messages
  | EmbeddingsDialect => Some Embeddings
  | CompletionsDialect => Some Completions
  | _ => None
  end.

(** What a Gemini request carries in its path. *)
Record GeminiRoute := MkRoute { gr_model : string; gr_stream : bool }.
(** The path of a transparent forward. *)
Definition upstream_path (family : ProviderFamily) (gemini : option GeminiRoute) (d : IngressDialect) : string :=
  match d with
  | EmbeddingsDialect => "/embeddings"
  | CompletionsDialect => "/completions"
  | _ =>
      match family with
      | FOpenAiCompat => "/chat/completions"
      | FOpenAiResponses => "/responses"
      | FAnthropic => "/v1/messages"
      | FGemini =>
          match gemini with
          | Some route =>
              "/v1beta/models/" +:+ gr_model route +:+ (if gr_stream route then ":streamGenerateContent?alt=sse" else ":generateContent")
          | None => "/"
          end
      | _ => "/"
      end
  end.

(** [rsplit_once(':')]. *)
Definition rsplit_colon (s : string) : option (string * string) :=
  match split_colon (reverse (bytes s)) with Some (b, a) => Some (string_of (reverse a), string_of (reverse b)) | None => None end.
(** The methods of [POST /v1beta/models/{model}:{method}]: a route, the
    count of tokens, or the status of a refusal. *)
Inductive GeminiCall := Generate (route : GeminiRoute) | CountTokens (route : GeminiRoute) | GeminiStatus (status : Z).
Definition gemini_call_of (model_method : string) : GeminiCall :=
  match rsplit_colon model_method with
  | None => GeminiStatus 404
  | Some (model, method) =>
      if bool_decide (model = "") then GeminiStatus 400
      else if bool_decide (method = "countTokens") then CountTokens (MkRoute model false)
      else if bool_decide (method = "generateContent") then Generate (MkRoute model false)
      else if bool_decide (method = "streamGenerateContent") then Generate (MkRoute model true)
      else GeminiStatus 501
  end.

(** ** The request, decoded *)

(** What the handler reads of a provider handle. *)
Record ProviderHandle := MkHandle { ph_slug : string; ph_family : ProviderFamily; ph_raw : bool; ph_streaming_deadlines : bool }.

Fixpoint contains (p s : list Z) : bool := starts_with p s || match s with [] => false | _ :: s => contains p s end.
Definition RESERVED : string := "sandhi_extensions".
(** The literal key, or an escape that may spell it. *)
Definition mentions_reserved (body : list Z) : bool := contains (bytes RESERVED) body || contains [92; 117] body.

Section FrontDoor.
Context (parse_document from_slice : list Z -> option Json) (to_vec : Json -> list Z) (to_string : Json -> string).

Definition strip_reserved_passthrough (body : list Z) : list Z :=
  if (Z.of_nat (length body) <? Z.of_nat (length (bytes RESERVED))) || negb (mentions_reserved body) then body
  else match from_slice body with
  | Some (JObject l) =>
      if bool_decide (is_Some (assoc RESERVED l)) then to_vec (remove_key RESERVED (JObject l)) else body
  | _ => body
  end.
Definition decode_request (d : IngressDialect) (body : Json) (md : RequestMetadataV1) : option (ChatRequestV1 * bool) :=
  match d with
  | OpenAi => decode_openai_request body md
  | EmbeddingsDialect | CompletionsDialect => decode d body md
  | StreamEncoder.Anthropic => decode_anthropic_request to_string body md
  | ResponsesDialect => decode_responses_request to_string body md
  | GeminiDialect => decode_gemini_request to_string body md
  end.
(** The body as it is read; text routes are read strictly, and a completion
    without a limit gets one, in the bytes too. *)
Definition read_body (d : IngressDialect) (body : list Z) : option (Json * list Z) :=
  v ← (if is_text_route d then match strict_json parse_document body with Ok v => Some v | Err _ => None end else from_slice body);
  match d, v with
  | CompletionsDialect, JObject _ =>
      match jget v "max_tokens" with
      | None => let v := jset "max_tokens" (JNumber 16) v in Some (v, to_vec v)
      | Some _ => Some (v, body)
      end
  | _, _ => Some (v, body)
  end.
Definition request_metadata (d : IngressDialect) (h : HeaderMap) (vk : VirtualKey) (body : Json) : RequestMetadataV1 :=
  MkMetadata (derive_session_id_scoped to_string (header_text h "x-sandhi-session") body (Some (vk_id vk)))
    (Some (vk_id vk)) (vk_subject_id vk) (vk_group_id vk) (Some (route_name d))
    (header_str h "idempotency-key") (header_str h "x-sandhi-run-id") (header_str h "x-sandhi-step-id")
    (header_str h "x-sandhi-parent-id") (header_str h "traceparent").
Definition with_model (model : string) (r : ChatRequestV1) : ChatRequestV1 :=
  MkRequest model (rq_messages r) (rq_tools r) (rq_tool_choice r) (rq_temperature r) (rq_max_output_tokens r) (rq_stop r)
    (rq_response_format r) (rq_seed r) (rq_metadata r) (rq_reasoning_effort r) (rq_thinking r) (rq_extensions r).
Definition with_max (max : option Z) (r : ChatRequestV1) : ChatRequestV1 :=
  MkRequest (rq_model r) (rq_messages r) (rq_tools r) (rq_tool_choice r) (rq_temperature r) max (rq_stop r)
    (rq_response_format r) (rq_seed r) (rq_metadata r) (rq_reasoning_effort r) (rq_thinking r) (rq_extensions r).
(** The path of a Gemini request names the model and the verb. *)
Definition stamp (gemini : option GeminiRoute) (decoded : ChatRequestV1 * bool) : ChatRequestV1 * bool :=
  match gemini with Some route => (with_model (gr_model route) decoded.1, gr_stream route) | None => decoded end.

(** ** Preparation *)

(** The refusals of the front door, by status. *)
Inductive Rejection :=
| Reject (status : Z)
| RejectLimited (retry_after_secs : Z)
| RejectPolicy (status : Z) (code : string) (receipt : option string).

(** The arguments of [check_input]. *)
Record PolicyQuery := MkQuery {
  pq_body : list Z; pq_identity : Identity; pq_key : string; pq_upstream : string; pq_model : string; pq_format : option InputFormat }.
Record PreparationContext := MkContext {
  pc_buffered : option BufferedDeadlines; pc_streaming : option StreamingDeadlines; pc_body_lifetime : option Z;
  pc_policy : option (PolicyQuery -> result PolicyGate.Unavailable PolicyGate.Admission) }.
Record PreparedRequest := MkPrepared {
  pr_vk : VirtualKey; pr_provider : ProviderHandle; pr_request : ChatRequestV1; pr_body : list Z; pr_wants_stream : bool;
  pr_raw_text_route : bool; pr_transparent_eligible : bool; pr_buffered : option EffectiveDeadline;
  pr_streaming : option StreamLimits; pr_body_lifetime : option Z }.

(** The limits of the route; a status when the transport cannot keep them. *)
Definition route_deadlines (c : PreparationContext) (vk : VirtualKey) (provider : ProviderHandle) (model : string) (wants_stream : bool)
    : result Z (option EffectiveDeadline * option StreamLimits * option Z) :=
  let buffered := if wants_stream then None else (fun p => buffered_resolve p (vk_upstream_ref vk) model) <$> pc_buffered c in
  if bool_decide (is_Some buffered) && negb (ph_raw provider) then Err 502
  else
    let streaming := if wants_stream then (fun p => (streaming_resolve p (vk_upstream_ref vk) model).1) <$> pc_streaming c else None in
    let lifetime := match streaming with Some l => Some (from_millis (sl_body_ms l)) | None => pc_body_lifetime c end in
    if wants_stream && bool_decide (is_Some lifetime) && negb (ph_streaming_deadlines provider) then Err 502
    else Ok (buffered, streaming, lifetime).
Definition refusal_code (d : Disposition) : string * Z :=
  match d with
  | DBlock => ("policy_blocked", 403)
  | DQuarantine => ("policy_quarantined", 403)
  | _ => ("policy_unavailable", 503)
  end.
(** The receipt that is noted, and the refusal if the gate does not let the
    request through. *)
Definition ask_policy (c : PreparationContext) (q : PolicyQuery) : option string * option Rejection :=
  match pc_policy c with
  | None => (None, None)
  | Some gate =>
      match gate q with
      | Err _ => (None, Some (RejectPolicy 503 "policy_unavailable" None))
      | Ok a =>
          let disposition := de_disposition (ad_decision a) in
          (Some (ad_receipt a),
           match disposition with
           | DForward => None
           | _ => let '(code, status) := refusal_code disposition in Some (RejectPolicy status code (Some (ad_receipt a)))
           end)
      end
  end.

(** A request that resolved to a key and an upstream. *)
Record ResolvedRoute := MkResolved { rr_vk : VirtualKey; rr_provider : ProviderHandle; rr_rate_identity : string; rr_identity : Identity }.
Record Arrival := MkArrival { ar_headers : HeaderMap; ar_body : list Z; ar_dialect : IngressDialect; ar_route : option GeminiRoute }.

(** The checks on the decoded request, up to the rate limit. *)
Definition prepare_request (c : PreparationContext) (route : ResolvedRoute) (a : Arrival) : result Z PreparedRequest :=
  let vk := rr_vk route in
  let provider := rr_provider route in
  let d := ar_dialect a in
  if is_text_route d && (negb (bool_decide (ph_family provider = FOpenAiCompat)) || negb (ph_raw provider)) then Err 400
  else
    '(v, body) ← ok_or (read_body d (ar_body a)) 400;
    decoded ← ok_or (decode_request d v (request_metadata d (ar_headers a) vk v)) 400;
    let '(request, wants_stream) := stamp (ar_route a) decoded in
    if negb (permits_model (rq_model request) vk) then Err 403
    else if negb (permits_attribution (header_str (ar_headers a) "x-sandhi-subject-id") (header_str (ar_headers a) "x-sandhi-group-id") vk) then Err 403
    else
      '(buffered, streaming, lifetime) ← route_deadlines c vk provider (rq_model request) wants_stream;
      Ok (MkPrepared vk provider request body wants_stream (is_text_route d)
            (bool_decide (ingress_family d = ph_family provider) && ph_raw provider) buffered streaming lifetime).

Definition with_body (body : list Z) (p : PreparedRequest) : PreparedRequest :=
  MkPrepared (pr_vk p) (pr_provider p) (pr_request p) body (pr_wants_stream p) (pr_raw_text_route p) (pr_transparent_eligible p)
    (pr_buffered p) (pr_streaming p) (pr_body_lifetime p).
(** What the gate is asked about: the bytes before the reserved field is
    taken out. *)
Definition policy_query (route : ResolvedRoute) (a : Arrival) (p : PreparedRequest) : PolicyQuery :=
  MkQuery (pr_body p) (rr_identity route) (vk_id (pr_vk p)) (vk_upstream_ref (pr_vk p)) (rq_model (pr_request p)) (input_format (ar_dialect a)).
Definition prepare (c : PreparationContext) (route : ResolvedRoute) (a : Arrival) (lock_ok : bool) (now : Z) (limiter : RateLimiter)
    : result Rejection PreparedRequest * option string * RateLimiter :=
  match prepare_request c route a with
  | Err status => (Err (Reject status), None, limiter)
  | Ok p =>
      let '(decision, limiter) := check_at lock_ok (rr_rate_identity route) (vk_rate_limit_per_min (pr_vk p)) now limiter in
      match decision with
      | Limited retry_after_secs => (Err (RejectLimited retry_after_secs), None, limiter)
      | Allowed =>
          match ask_policy c (policy_query route a p) with
          | (receipt, Some refusal) => (Err refusal, receipt, limiter)
          | (receipt, None) => (Ok (with_body (strip_reserved_passthrough (pr_body p)) p), receipt, limiter)
          end
      end
  end.

(** ** The handler *)

(** What is sent upstream: the client's bytes or an encoded request. *)
Inductive Sent := Forwarded (path : string) (body : list Z) | Translated (request : ChatRequestV1).
Inductive Outcome :=
| Rejected (r : Rejection)
| DrainingReply
| AccountingRefused (r : Refusal)
| Dispatch (p : PreparedRequest) (sent : Sent) (d : Dispatched).

(** The lifecycle's answers, and when the clock is read. *)
Record Moments := MkMoments {
  mo_running : bool; mo_limiter_ok : bool; mo_now : Z; mo_request_id : string;
  mo_admitted : bool; mo_still_running : bool; mo_cancelled : bool; mo_operation : bool;
  mo_reserve_at : Z; mo_check_at : Z; mo_stream_check_at : Z; mo_drop_at : Z }.

(** The key and its upstream; [resolve] is the resolution of a token. *)
Definition resolve_route_of (resolve : string -> HeaderMap -> VirtualKeyResolution) (providers : gmap string ProviderHandle) (a : Arrival)
    : result Z ResolvedRoute :=
  token ← ok_or (extract_credential (ar_dialect a) (ar_headers a)) 401;
  match resolve token (ar_headers a) with
  | Denied status => Err status
  | Keys.Expired | NotFound => Err 401
  | Found vk rate_identity identity =>
      provider ← ok_or (providers !! vk_upstream_ref vk) 502; Ok (MkResolved vk provider rate_identity identity)
  end.
(** The input that the estimate is made of, and the estimate. *)
Definition input_len (p : PreparedRequest) : Z :=
  let wire := Z.of_nat (length (pr_body p)) in if pr_raw_text_route p then input_bytes (pr_request p) wire else wire.
Definition estimated_input (s : ProxyState) (slug model : string) (len : Z) : Z :=
  match ps_estimator s with Some e => estimate e slug model len | None => baseline_estimate len end.
(** The tail of the handler as [Accounting] has it. *)
Definition accounting_call (m : Moments) (s : ProxyState) (p : PreparedRequest) : Call :=
  let scope := budget_scope (pr_vk p) in
  let '(ceiling, effective_max) :=
    reservation_ceiling (rq_max_output_tokens (pr_request p))
      (estimated_input s (ph_slug (pr_provider p)) (rq_model (pr_request p)) (input_len p)) in
  MkCallEnv scope (scope_policy s scope) ceiling effective_max (rq_max_output_tokens (pr_request p))
    (ph_slug (pr_provider p)) (rq_model (pr_request p)) (mo_request_id m) (rq_metadata (pr_request p)) (input_len p)
    (pr_transparent_eligible p)
    ((fun d => from_millis (ed_milliseconds d)) <$> pr_buffered p)
    (if pr_wants_stream p then (fun lifetime => default lifetime (dispatch_duration <$> pr_streaming p)) <$> pr_body_lifetime p else None)
    (mo_admitted m) (mo_still_running m) (mo_cancelled m) (mo_operation m) (mo_reserve_at m) (mo_check_at m) (mo_stream_check_at m)
    (mo_drop_at m).
Definition sent_of (a : Arrival) (p : PreparedRequest) (d : Dispatched) : Sent :=
  if di_transparent d then Forwarded (upstream_path (ph_family (pr_provider p)) (ar_route a) (ar_dialect a)) (pr_body p)
  else Translated (with_max (di_max_output d) (pr_request p)).

Context `{Calendar}.
Definition handle_request (c : PreparationContext) (resolve : string -> HeaderMap -> VirtualKeyResolution)
    (providers : gmap string ProviderHandle) (m : Moments) (a : Arrival) (limiter : RateLimiter) (s : ProxyState)
    : Outcome * option string * RateLimiter * ProxyState :=
  if negb (mo_running m) then (DrainingReply, None, limiter, s)
  else match resolve_route_of resolve providers a with
  | Err status => (Rejected (Reject status), None, limiter, s)
  | Ok route =>
      match prepare c route a (mo_limiter_ok m) (mo_now m) limiter with
      | (Err r, receipt, limiter) => (Rejected r, receipt, limiter, s)
      | (Ok p, receipt, limiter) =>
          match admit_request (accounting_call m s p) s with
          | (Ok d, s) => (Dispatch p (sent_of a p d) d, receipt, limiter, s)
          | (Err r, s) => (AccountingRefused r, receipt, limiter, s)
          end
      end
  end.

(** [handle_count_tokens]: everything but the reservation. *)
Inductive CountReply := Tokens (n : Z) | CountRejected (r : Rejection) | CountDraining.
Definition handle_count_tokens (c : PreparationContext) (resolve : string -> HeaderMap -> VirtualKeyResolution)
    (providers : gmap string ProviderHandle) (m : Moments) (a : Arrival) (limiter : RateLimiter) (s : ProxyState) : CountReply * RateLimiter :=
  if negb (mo_running m) then (CountDraining, limiter)
  else match resolve_route_of resolve providers a with
  | Err status => (CountRejected (Reject status), limiter)
  | Ok route =>
      match prepare c route a (mo_limiter_ok m) (mo_now m) limiter with
      | (Err r, _, limiter) => (CountRejected r, limiter)
      | (Ok p, _, limiter) =>
          (Tokens (estimated_input s (ph_slug (pr_provider p)) (rq_model (pr_request p)) (Z.of_nat (length (pr_body p)))), limiter)
      end
  end.

(** [list_models] and its Gemini form: what a key may call. *)
Definition discovery_dialect (h : HeaderMap) : IngressDialect :=
  match get_all h "x-api-key" with [] => OpenAi | _ => StreamEncoder.Anthropic end.
Definition list_models (catalog : string -> list string) (resolve : string -> HeaderMap -> VirtualKeyResolution)
    (providers : gmap string ProviderHandle) (h : HeaderMap) (gemini : bool) : result Z Json :=
  let d := if gemini then GeminiDialect else discovery_dialect h in
  route ← resolve_route_of resolve providers (MkArrival h [] d None);
  let slug := ph_slug (rr_provider route) in
  let models := permitted_models (catalog slug) (rr_vk route) in
  Ok match d with
     | GeminiDialect =>
         JObject [("models", JArray ((fun id =>
           JObject [("name", JStr ("models/" +:+ id)); ("displayName", JStr id);
                    ("supportedGenerationMethods", JArray [JStr "generateContent"; JStr "streamGenerateContent"])]) <$> models))]
     | StreamEncoder.Anthropic =>
         JObject [("data", JArray ((fun id => JObject [("type", JStr "model"); ("id", JStr id); ("display_name", JStr id)]) <$> models));
                  ("has_more", JBool false)]
     | _ =>
         JObject [("object", JStr "list");
                  ("data", JArray ((fun id => JObject [("id", JStr id); ("object", JStr "model"); ("owned_by", JStr slug)]) <$> models))]
     end.
End FrontDoor.
