(* ===== verification/FrontDoorProps.v ===== *)
(** What gets through the front door: nothing is sent upstream before every
    check passed, a refusal holds no lease, the reserved field never leaves,
    and a capped call is bounded. *)

From S2P Require Import Prelude Text Headers Usage Json UsageParse Stats TokenEstimate Ledger SqlLedger ProxyLedger Attempt Resilience Accounting Passthrough Inspect.
From S2P Require Import Policy PolicyGate Keys StreamEncoder Deadlines RateLimit ChatRequest RequestDecode Session TextEndpoints SqlContract FrontDoor AccountingProps RequestEncode RequestProps.

Section FrontDoor.
Context (parse_document from_slice : list Z -> option Json) (to_vec : Json -> list Z) (to_string : Json -> string).

(** ** Preparation *)

(** What a prepared request passed. *)
Record passed (route : ResolvedRoute) (a : Arrival) (p : PreparedRequest) : Prop := {
  pd_vk : pr_vk p = rr_vk route;
  pd_provider : pr_provider p = rr_provider route;
  pd_model : permits_model (rq_model (pr_request p)) (rr_vk route) = true;
  pd_attribution : permits_attribution (header_str (ar_headers a) "x-sandhi-subject-id") (header_str (ar_headers a) "x-sandhi-group-id") (rr_vk route) = true;
  pd_eligible : pr_transparent_eligible p = true -> ingress_family (ar_dialect a) = ph_family (pr_provider p) /\ ph_raw (pr_provider p) = true;
  pd_text : pr_raw_text_route p = is_text_route (ar_dialect a);
  pd_text_eligible : is_text_route (ar_dialect a) = true -> pr_transparent_eligible p = true }.

Lemma prepare_request_passed c route a p : prepare_request parse_document from_slice to_vec to_string c route a = Ok p -> passed route a p.
Proof.
  unfold prepare_request. destruct (_ && _) eqn:Hraw; [done|]. intros H.
  apply result_bind_ok in H as ([v body] & _ & H). apply result_bind_ok in H as (decoded & _ & H).
  destruct (stamp (ar_route a) decoded) as [request stream].
  destruct (permits_model _ _) eqn:Hm; [|done]. destruct (permits_attribution _ _ _) eqn:Ha; [|done]. cbn [negb] in H.
  apply result_bind_ok in H as ([[buffered streaming] lifetime] & _ & H). injection H as <-.
  split; cbn; try done.
  - intros [He Hr]%andb_true_iff. by apply bool_decide_eq_true in He.
  - intros Ht. rewrite Ht in Hraw. cbn [andb] in Hraw. apply orb_false_iff in Hraw as [H1 H2]. apply negb_false_iff in H1, H2.
    apply bool_decide_eq_true in H1. rewrite H1, H2. by destruct (ar_dialect a).
Qed.

Lemma resolved resolve providers a route : resolve_route_of resolve providers a = Ok route ->
  exists token, extract_credential (ar_dialect a) (ar_headers a) = Some token
    /\ resolve token (ar_headers a) = Found (rr_vk route) (rr_rate_identity route) (rr_identity route)
    /\ providers !! vk_upstream_ref (rr_vk route) = Some (rr_provider route).
Proof.
  unfold resolve_route_of. intros H. apply result_bind_ok in H as (token & Ht%ok_or_ok & H). exists token. split; [done|].
  destruct (resolve token _) as [vk rid ident| | |]; try done. apply result_bind_ok in H as (provider & Hp%ok_or_ok & H). by injection H as <-.
Qed.

(** The gate let the request through, under a receipt. *)
Definition gate_admits (c : PreparationContext) (q : PolicyQuery) (receipt : option string) : Prop :=
  match pc_policy c with
  | None => receipt = None
  | Some gate => exists adm, gate q = Ok adm /\ de_disposition (ad_decision adm) = DForward /\ receipt = Some (ad_receipt adm)
  end.
Lemma asked c q receipt : ask_policy c q = (receipt, None) -> gate_admits c q receipt.
Proof.
  unfold ask_policy, gate_admits. destruct (pc_policy c) as [gate|]; [|by intros [= <-]]. destruct (gate q) as [adm|]; [|done].
  intros [= <- H]. exists adm. split; [done|]. destruct (de_disposition _) eqn:Hd; done.
Qed.

Lemma prepared c route a lock_ok now limiter p receipt limiter' :
  prepare parse_document from_slice to_vec to_string c route a lock_ok now limiter = (Ok p, receipt, limiter') ->
  exists p0, prepare_request parse_document from_slice to_vec to_string c route a = Ok p0 /\ p = with_body (strip_reserved_passthrough from_slice to_vec (pr_body p0)) p0
    /\ check_at lock_ok (rr_rate_identity route) (vk_rate_limit_per_min (rr_vk route)) now limiter = (Allowed, limiter')
    /\ gate_admits c (policy_query route a p0) receipt.
Proof.
  unfold prepare. destruct (prepare_request _ _ _ _ c route a) as [p0|] eqn:Hp; [|done]. pose proof (prepare_request_passed _ _ _ _ Hp) as Hd.
  rewrite (pd_vk _ _ _ Hd). destruct (check_at _ _ _ _ _) as [[|n] l] eqn:Hc; [|done].
  destruct (ask_policy c _) as [r [refusal|]] eqn:Hq; [done|]. intros [= <- <- <-]. exists p0. split; [done|]. split; [done|]. split; [done|]. by apply asked.
Qed.

Lemma rejected_early c route a lock_ok now limiter status receipt limiter' :
  prepare parse_document from_slice to_vec to_string c route a lock_ok now limiter = (Err (Reject status), receipt, limiter') -> limiter' = limiter /\ receipt = None.
Proof.
  unfold prepare. destruct (prepare_request _ _ _ _ c route a) as [p|]; [|by intros [= _ <- <-]]. destruct (check_at _ _ _ _ _) as [[|n] l]; [|done].
  unfold ask_policy. destruct (pc_policy c) as [gate|]; [|done]. destruct (gate _) as [adm|]; [|done].
  destruct (de_disposition _); try done; by destruct (refusal_code _).
Qed.

(** ** Dispatch *)

Context `{Calendar}.

Lemma dispatched c resolve providers m a limiter s p sent d receipt limiter' s' :
  handle_request parse_document from_slice to_vec to_string c resolve providers m a limiter s = (Dispatch p sent d, receipt, limiter', s') ->
  mo_running m = true /\ exists route, resolve_route_of resolve providers a = Ok route
    /\ prepare parse_document from_slice to_vec to_string c route a (mo_limiter_ok m) (mo_now m) limiter = (Ok p, receipt, limiter')
    /\ admit_request (accounting_call m s p) s = (Ok d, s') /\ sent = sent_of a p d.
Proof.
  unfold handle_request. destruct (mo_running m); [|done]. cbn [negb]. destruct (resolve_route_of _ _ _) as [route|]; [|done].
  destruct (prepare _ _ _ _ _ _ _ _ _ _) as [[[p'|] r] l] eqn:Hp; [|done]. destruct (admit_request _ _) as [[d'|] s1] eqn:Ha; [|done].
  intros [= <- <- <- <- <- <-]. split; [done|]. by exists route.
Qed.

(** How a dispatched call is bounded. *)
Lemma admitted_bound q s d s' : admit_request q s = (Ok d, s') ->
  exists pending s1, reserve_budget (rq_admitted q) (rq_running q) (rq_cancelled q) (rq_scope q) (rq_ceiling q) (rq_reserve_at q) (rq_drop_at q)
      (rq_policy q) s = (Some pending, s1)
    /\ let inject := pa_capped pending && bool_decide (rq_max_output q = None) in
       di_max_output d = (if inject then Some (rq_effective_max q) else rq_max_output q) /\ di_transparent d = rq_transparent_eligible q && negb inject.
Proof.
  unfold admit_request. destruct (reserve_budget _ _ _ _ _ _ _ _ s) as [[pending|] s1]; [|done].
  destruct (_ || _); [done|]. destruct (rq_operation q); [|done]. cbn [negb]. intros Hd. exists pending, s1. split; [done|].
  unfold dispatch in Hd. destruct (pa_admission pending) as [[r| |]|]; try done; by injection Hd as <- _.
Qed.

(** C14: A request reaches an upstream only after every check: the gateway was
    running, the credential of its dialect resolved to a key, the key permits
    the model of the request and its attribution, its rate limit allowed it,
    the policy gate let the client's bytes through under the receipt that is
    returned, and its tokens were reserved.  The client's bytes are forwarded
    only within their own family and with nothing injected; a call under a cap
    that named no output limit is translated with the limit that was
    reserved. *)
Theorem dispatch_is_authorized c resolve providers m a limiter s p sent d receipt limiter' s' :
  handle_request parse_document from_slice to_vec to_string c resolve providers m a limiter s = (Dispatch p sent d, receipt, limiter', s') ->
  mo_running m = true
  /\ (exists token rate_identity identity p0,
       extract_credential (ar_dialect a) (ar_headers a) = Some token
       /\ resolve token (ar_headers a) = Found (pr_vk p) rate_identity identity
       /\ providers !! vk_upstream_ref (pr_vk p) = Some (pr_provider p)
       /\ permits_model (rq_model (pr_request p)) (pr_vk p) = true
       /\ permits_attribution (header_str (ar_headers a) "x-sandhi-subject-id") (header_str (ar_headers a) "x-sandhi-group-id") (pr_vk p) = true
       /\ check_at (mo_limiter_ok m) rate_identity (vk_rate_limit_per_min (pr_vk p)) (mo_now m) limiter = (Allowed, limiter')
       /\ gate_admits c (MkQuery p0 identity (vk_id (pr_vk p)) (vk_upstream_ref (pr_vk p)) (rq_model (pr_request p)) (input_format (ar_dialect a))) receipt
       /\ pr_body p = strip_reserved_passthrough from_slice to_vec p0)
  /\ admit_request (accounting_call m s p) s = (Ok d, s')
  /\ match sent with
     | Forwarded path body =>
         ingress_family (ar_dialect a) = ph_family (pr_provider p) /\ ph_raw (pr_provider p) = true
         /\ path = upstream_path (ph_family (pr_provider p)) (ar_route a) (ar_dialect a) /\ body = pr_body p
         /\ di_max_output d = rq_max_output_tokens (pr_request p)
     | Translated r => r = with_max (di_max_output d) (pr_request p)
     end
  /\ (forall pending s1, reserve_budget (mo_admitted m) (mo_still_running m) (mo_cancelled m) (budget_scope (pr_vk p))
          (rq_ceiling (accounting_call m s p)) (mo_reserve_at m) (mo_drop_at m) (scope_policy s (budget_scope (pr_vk p))) s = (Some pending, s1) ->
        pa_capped pending = true -> rq_max_output_tokens (pr_request p) = None ->
        sent = Translated (with_max (Some (rq_effective_max (accounting_call m s p))) (pr_request p))).
Proof.
  intros Hh. destruct (dispatched _ _ _ _ _ _ _ _ _ _ _ _ _ Hh) as (Hr & route & Hroute & Hp & Hadm & ->).
  destruct (prepared _ _ _ _ _ _ _ _ _ Hp) as (p0 & Hp0 & -> & Hc & Hg). pose proof (prepare_request_passed _ _ _ _ Hp0) as Hd.
  destruct (resolved _ _ _ _ Hroute) as (token & Ht & Hf & Hpr). destruct (admitted_bound _ _ _ _ Hadm) as (pending & s1 & Hres & Hmax & Htr).
  split; [done|]. split; [|split; [done|split]].
  - exists token, (rr_rate_identity route), (rr_identity route), (pr_body p0). cbn [with_body pr_vk pr_provider pr_request pr_body].
    rewrite (pd_vk _ _ _ Hd), (pd_provider _ _ _ Hd). destruct Hd as [Hvk _ Hm Ha _ _ _]. split_and!; try done.
    unfold policy_query in Hg. by rewrite Hvk in Hg.
  - unfold sent_of. destruct (di_transparent d) eqn:Ht'; [|done]. symmetry in Htr. apply andb_true_iff in Htr as [He Hi]. apply negb_true_iff in Hi.
    unfold accounting_call in He, Hi, Hmax. destruct (reservation_ceiling _ _) as [ceiling eff]. cbn in He, Hi, Hmax. cbn [with_body pr_provider pr_body pr_request].
    destruct (pd_eligible _ _ _ Hd He) as [Hfam Hraw]. rewrite Hi in Hmax. by split_and!.
  - intros pending' s1' Hres' Hcap Hnone. unfold sent_of, accounting_call in *. destruct (reservation_ceiling _ _) as [ceiling eff]. cbn in *.
    rewrite Hres' in Hres. simplify_eq. rewrite Hcap, Hnone in Hmax, Htr. cbn in Hmax, Htr. rewrite andb_false_r in Htr.
    by rewrite Htr, Hmax.
Qed.

(** ** Refusals *)

(** C24: A refused request costs nothing.  Before the reservation the state of
    the proxy is as it was, and a request that is refused for its credential,
    its body, its model or its attribution leaves the rate limiter as it was
    too, and the policy gate unasked; after the reservation, the lease that
    was taken is settled with zero.  No usage is reported either way. *)
Theorem refusals_cost_nothing c resolve providers m a limiter s o receipt limiter' s' :
  handle_request parse_document from_slice to_vec to_string c resolve providers m a limiter s = (o, receipt, limiter', s') ->
  mx_poisoned (ps_ledger s) = false -> mx_poisoned (ps_ledger s') = false ->
  match o with
  | Rejected r => s' = s /\ (forall status, r = Reject status -> limiter' = limiter /\ receipt = None)
  | DrainingReply => s' = s /\ limiter' = limiter /\ receipt = None
  | AccountingRefused _ =>
      exists route p ops, resolve_route_of resolve providers a = Ok route
        /\ prepare parse_document from_slice to_vec to_string c route a (mo_limiter_ok m) (mo_now m) limiter = (Ok p, receipt, limiter')
        /\ ps_sink s' = ps_sink s
        /\ prun (mx_value (ps_ledger s)) ops = Some (mx_value (ps_ledger s'))
        /\ settles ops = lease_settles (leased (answered_admission (accounting_call m s p) s)) 0
  | Dispatch _ _ _ => True
  end.
Proof.
  unfold handle_request. intros Hh Hp Hp'. destruct (mo_running m); [|by injection Hh as <- <- <- <-]. cbn [negb] in Hh.
  destruct (resolve_route_of _ _ _) as [route|st]; [|by injection Hh as <- <- <- <-].
  destruct (prepare _ _ _ _ _ _ _ _ _ _) as [[[p|r] rc] l] eqn:Hpr.
  - pose proof (admit_effect (accounting_call m s p) s Hp) as He. destruct (admit_request _ _) as [[d|e] s1] eqn:Ha; injection Hh as <- <- <- <-; [done|].
    destruct (He Hp') as (Hsink & _ & _ & ops & Hrun & Hset). by exists route, p, ops.
  - injection Hh as <- <- <- <-. split; [done|]. intros status ->. by apply rejected_early in Hpr.
Qed.
(** ** The bytes *)

(** What is relied on of the reader and the writer of JSON: an object is read
    back with no other keys, and the reserved key of a text is there literally
    or behind an escape. *)
Record lawful_json : Prop := {
  reads_back l v : from_slice (to_vec (JObject l)) = Some v -> forall k, is_Some (jget v k) -> k ∈ l.*1;
  spells_keys b l : from_slice b = Some (JObject l) -> is_Some (assoc RESERVED l) ->
    Z.of_nat (length (bytes RESERVED)) <= Z.of_nat (length b) /\ (contains (bytes RESERVED) b = true \/ contains [92; 117] b = true) }.

Definition reserved_free (b : list Z) : Prop := forall v, from_slice b = Some v -> jget v RESERVED = None.

Lemma assoc_keys k l : is_Some (assoc k l) <-> k ∈ l.*1.
Proof.
  induction l as [|[k' v] l IH]; cbn [assoc fmap list_fmap fst]; [split; [by intros []|set_solver]|].
  case_bool_decide as E; [subst; split; [set_solver|by eexists]|]. rewrite IH. set_solver.
Qed.
Lemma remove_key_gone k l : k ∉ (List.filter (fun e : string * Json => negb (bool_decide (e.1 = k))) l).*1.
Proof.
  intros ([k' v] & -> & Hin)%list_elem_of_fmap. apply list_elem_of_In, filter_In in Hin as [_ Hin]. cbn in Hin. by rewrite bool_decide_eq_true_2 in Hin.
Qed.
(** A body without the reserved field: an object that has it is written
    again with its other entries, in their order; any other body is as it
    was. *)
Definition without_reserved (b : list Z) : list Z :=
  match from_slice b with
  | Some (JObject l) =>
      if bool_decide (is_Some (assoc RESERVED l)) then to_vec (JObject (List.filter (fun e => negb (bool_decide (e.1 = RESERVED))) l)) else b
  | _ => b
  end.
(** Looking for the spelling first changes nothing. *)
Lemma strip_is_without b : lawful_json -> strip_reserved_passthrough from_slice to_vec b = without_reserved b.
Proof.
  intros [_ Hs]. unfold strip_reserved_passthrough, without_reserved. destruct (_ || _) eqn:Hf; [|by destruct (from_slice b) as [[]|]].
  destruct (from_slice b) as [[| | | | | |l]|] eqn:Hv; try done. case_bool_decide as Ha; [|done].
  destruct (Hs _ _ Hv Ha) as [H1 H2]. exfalso. apply orb_true_iff in Hf as [Hf|Hf]; [apply Z.ltb_lt in Hf; lia|].
  apply negb_true_iff in Hf. unfold mentions_reserved in Hf. apply orb_false_iff in Hf. destruct H2; naive_solver congruence.
Qed.
Lemma without_reserved_free b : lawful_json -> reserved_free (without_reserved b).
Proof.
  intros [Hr _] v. unfold without_reserved. destruct (from_slice b) as [[| | | | | |l]|] eqn:Hv; try (rewrite Hv; by intros [= <-]).
  case_bool_decide as Ha; [|rewrite Hv; intros [= <-]; cbn; destruct (assoc RESERVED l); [destruct Ha; by eexists|done]].
  intros Hv'. destruct (jget v RESERVED) eqn:Hg; [|done]. exfalso. eapply remove_key_gone, Hr; [exact Hv'|by eexists].
Qed.
Lemma without_reserved_same b : reserved_free b -> without_reserved b = b.
Proof.
  intros Hf. unfold without_reserved. destruct (from_slice b) as [[| | | | | |l]|] eqn:Hv; try done.
  specialize (Hf _ Hv). cbn in Hf. by rewrite Hf, bool_decide_eq_false_2 by (by intros []).
Qed.

Lemma field_set_keys k v (l : list (string * Json)) x : x ∈ (field_set k v l).*1 -> x = k \/ x ∈ l.*1.
Proof.
  induction l as [|[k' v'] l IH]; cbn; [set_solver|]. case_bool_decide; cbn; [subst; set_solver|].
  intros [->|Hx]%elem_of_cons; [set_solver|]. destruct (IH Hx); set_solver.
Qed.

(** The bytes of a prepared request: the client's, but for a completion
    without a limit, which gets the default one. *)
Definition defaulted (a : Arrival) (body : list Z) : Prop :=
  ar_dialect a = CompletionsDialect /\ exists v, strict_json parse_document (ar_body a) = Ok v /\ jget v "max_tokens" = None
    /\ body = to_vec (jset "max_tokens" (JNumber 16) v).
Lemma prepared_body c route a p : lawful_json -> prepare_request parse_document from_slice to_vec to_string c route a = Ok p ->
  pr_body p = ar_body a \/ defaulted a (pr_body p) /\ reserved_free (pr_body p).
Proof.
  intros [Hb _] Hp. unfold prepare_request in Hp. destruct (_ && _) eqn:Hraw; [done|].
  apply result_bind_ok in Hp as ([v body] & Hread%ok_or_ok & Hp). apply result_bind_ok in Hp as ([decoded st] & Hd%ok_or_ok & Hp).
  destruct (stamp (ar_route a) _) as [request stream]. destruct (permits_model _ _); [|done]. destruct (permits_attribution _ _ _); [|done]. cbn [negb] in Hp.
  apply result_bind_ok in Hp as ([[buffered streaming] lifetime] & _ & Hp). injection Hp as <-. cbn [pr_body].
  unfold read_body in Hread. apply bind_Some in Hread as (v0 & Hv & Hread). unfold defaulted.
  destruct (ar_dialect a) eqn:Hdial; try (injection Hread as <- <-; by left). cbn [is_text_route] in Hv.
  destruct v0 as [| | | | | |l]; try (injection Hread as <- <-; by left).
  destruct (jget (JObject l) "max_tokens") eqn:Hm; [injection Hread as <- <-; by left|]. injection Hread as <- <-. right.
  destruct (strict_json parse_document (ar_body a)) as [w|] eqn:Hs; [|done]. injection Hv as ->. split.
  - split; [done|]. by exists (JObject l).
  - intros w Hw. destruct (jget w RESERVED) eqn:Hg; [|done]. exfalso. cbn [jset] in Hw.
    assert (Hin : RESERVED ∈ (field_set "max_tokens" (JNumber 16) l).*1) by (eapply Hb; [exact Hw|by eexists]).
    apply decoded_is_limited in Hd as [Hk _]. cbn [jset] in Hk.
    assert (Hn : jget (JObject (field_set "max_tokens" (JNumber 16) l)) RESERVED = None).
    { apply (unknown_field_absent (allowed_fields false)); [exact Hk|]. unfold allowed_fields, RESERVED. set_solver. }
    apply assoc_keys in Hin as [? Hin]. change (assoc RESERVED (field_set "max_tokens" (JNumber 16) l) = None) in Hn. congruence.
Qed.

Lemma prepared_text_is_limited c route a p : prepare_request parse_document from_slice to_vec to_string c route a = Ok p ->
  is_text_route (ar_dialect a) = true -> is_Some (rq_max_output_tokens (pr_request p)).
Proof.
  intros Hp Ht. unfold prepare_request in Hp. destruct (is_text_route _ && _); [done|].
  apply result_bind_ok in Hp as ([v body] & _ & Hp). apply result_bind_ok in Hp as ([decoded st] & Hd%ok_or_ok & Hp).
  assert (Hl : is_Some (rq_max_output_tokens decoded)) by (destruct (ar_dialect a); try done; by apply decoded_is_limited in Hd as [_ Hd]).
  destruct (ar_route a) as [r|]; cbn [stamp] in Hp; (destruct (permits_model _ _); [|done]); (destruct (permits_attribution _ _ _); [|done]); cbn [negb] in Hp;
    apply result_bind_ok in Hp as ([[buffered streaming] lifetime] & _ & Hp); injection Hp as <-; exact Hl.
Qed.

End FrontDoor.

(** ** A concrete gateway *)

#[local] Existing Instance utc_days.
Definition door_body : list Z := bytes "{'model':'m','messages':[{'role':'user','content':'hi'}]}".
Definition door_json : Json :=
  JObject [("model", JStr "m"); ("messages", JArray [JObject [("role", JStr "user"); ("content", JStr "hi")]])].
Definition prompt_body : list Z := bytes "{'model':'m','prompt':'hi'}".
Definition prompt_json : Json := JObject [("model", JStr "m"); ("prompt", JStr "hi")].
Definition prompt_limited : list Z := bytes "{'max_tokens':16,'model':'m','prompt':'hi'}".
Definition marked_body : list Z := bytes "{'model':'m','max_tokens':9,'sandhi_extensions':{},'messages':[{'role':'user','content':'hi'}]}".
Definition marked_rest : list (string * Json) :=
  [("model", JStr "m"); ("max_tokens", JNumber 9); ("messages", JArray [JObject [("role", JStr "user"); ("content", JStr "hi")]])].
Definition marked_json : Json :=
  JObject [("model", JStr "m"); ("max_tokens", JNumber 9); (RESERVED, JObject []);
           ("messages", JArray [JObject [("role", JStr "user"); ("content", JStr "hi")]])].
Definition unmarked_body : list Z := bytes "{'model':'m','max_tokens':9,'messages':[{'role':'user','content':'hi'}]}".
Definition door_read (b : list Z) : option Json :=
  if bool_decide (b = door_body) then Some door_json else if bool_decide (b = prompt_body) then Some prompt_json
  else if bool_decide (b = marked_body) then Some marked_json else None.
Definition door_write (j : Json) : list Z :=
  match jget j "max_tokens" with Some (JNumber n) => if n =? 9 then unmarked_body else prompt_limited | _ => prompt_limited end.
Lemma door_lawful : lawful_json door_read door_write.
Proof.
  split.
  { intros l v. unfold door_write. destruct (jget _ _) as [[| |n| | | |]|]; try done. by destruct (n =? 9). }
  intros b l. unfold door_read. case_bool_decide; [intros [= <-] H'; by destruct H'|].
  case_bool_decide; [intros [= <-] H'; by destruct H'|]. case_bool_decide as Hb; [|done]. intros _ _. subst b. split; [by vm_compute|left; by vm_compute].
Qed.
Definition door_key : VirtualKey := MkKey "key_1" None None "openai" (Some ["m"]) None None (Some 60).
Definition door_identity : Identity := MkIdentity None None [] [] false.
Definition door_resolve (token : string) (_ : HeaderMap) : VirtualKeyResolution :=
  if bool_decide (token = "sk-1") then Found door_key "key_1" door_identity else NotFound.
Definition door_providers (raw : bool) : gmap string ProviderHandle := {["openai" := MkHandle "openai" FOpenAiCompat raw true]}.
Definition door_context : PreparationContext :=
  MkContext None None None (Some (fun _ => Ok (PolicyGate.MkAdmission (MkDecision 1 DForward [] "" 0) "receipt_1"))).
Definition door_moments : Moments :=
  MkMoments true true 0 "req_1" true true false true (seconds 1000) (seconds 1000) (seconds 1000) (seconds 1000).
Definition door_arrival (d : IngressDialect) (b : list Z) : Arrival := MkArrival [("authorization", Some "Bearer sk-1")] b d None.
(** A gateway whose ledger caps the key's scope. *)
Definition capped_ledger (cap : Z) : ProxyLedger := default in_memory (prun in_memory [PSetBudget "vk:key_1" (Some cap) Budget.Total Budget.Block]).
Definition door_state (cap : Z) : ProxyState :=
  MkState (MkMutex false false (capped_ledger cap)) (Some ∅) None false None 10000 [] [] [] [] [] 0 0.
Definition door (cap : Z) (raw : bool) (body : list Z) (d : IngressDialect) :=
  handle_request door_read door_read door_write (fun _ => "") door_context door_resolve (door_providers raw) door_moments
    (door_arrival d body) limiter_new (door_state cap).

(** The cap covers the reservation: the request is translated with the limit
    that was reserved, as it named none. *)
Lemma dispatch_is_authorized_witness :
  match door 10000 true door_body OpenAi with
  | (Dispatch p sent d, receipt, _, _) =>
      receipt = Some "receipt_1" /\ sent = Translated (with_max (Some 4096) (pr_request p)) /\ pr_provider p = MkHandle "openai" FOpenAiCompat true true
  | _ => False
  end.
Proof.
  destruct (door 10000 true door_body OpenAi) as [[[o receipt] limiter'] s'] eqn:E. unfold door in E.
  assert (Hd : exists p sent d, o = Dispatch p sent d) by (vm_compute in E; injection E as <- _ _ _; by do 3 eexists).
  destruct Hd as (p & sent & d & ->). pose proof (dispatch_is_authorized _ _ _ _ _ _ _ _ _ _ _ _ _ _ _ _ _ E) as (_ & (t & rid & ident & p0 & _ & Hf & Hpr & _ & _ & _ & Hg & _) & _ & _ & Hcap).
  unfold gate_admits, door_context in Hg. cbn in Hg. destruct Hg as (adm & [= <-] & _ & ->).
  assert (Hp : pr_vk p = door_key) by (clear - E; vm_compute in E; by injection E as <- _ _ _).
  rewrite Hp in Hpr. vm_compute in Hpr. injection Hpr as Hpr. split; [done|]. split; [|done].
  clear - E. vm_compute in E. injection E as <- <- _ _ _. reflexivity.
Defined.

(** The cap does not: nothing is sent, and nothing is settled, as no lease
    was taken. *)
Lemma refusals_cost_nothing_witness :
  match door 100 true door_body OpenAi with
  | (AccountingRefused _, _, _, s') => ps_sink s' = [] /\ exists ops, prun (capped_ledger 100) ops = Some (mx_value (ps_ledger s')) /\ settles ops = []
  | _ => False
  end.
Proof.
  destruct (door 100 true door_body OpenAi) as [[[o receipt] limiter'] s'] eqn:E. unfold door in E.
  assert (Hd : exists r, o = AccountingRefused r) by (vm_compute in E; injection E as <- _ _ _; by eexists).
  destruct Hd as (r & ->). assert (Hp : mx_poisoned (ps_ledger s') = false) by (clear - E; vm_compute in E; by injection E as _ _ _ <-).
  pose proof (refusals_cost_nothing _ _ _ _ _ _ _ _ _ _ _ _ _ _ _ E eq_refl Hp) as (route & p & ops & Hr & Hprep & Hs & Hrun & Hset).
  split; [exact Hs|]. exists ops. split; [exact Hrun|]. rewrite Hset. clear - Hr Hprep. vm_compute in Hr. injection Hr as <-. vm_compute in Hprep.
  injection Hprep as <- _ _. reflexivity.
Defined.

(** A completion without a limit is forwarded with the default one. *)
Example completion_gets_its_limit :
  match door 10000 true prompt_body CompletionsDialect with
  | (Dispatch _ (Forwarded path body) _, _, _, _) => path = "/completions" /\ body = prompt_limited
  | _ => False
  end.
Proof. vm_compute. by split. Qed.

(** The model of a Gemini path is forwarded as it came: [..] and all. *)
Example gemini_path_is_not_checked :
  match gemini_call_of "../../v1/files:generateContent" with
  | Generate route => upstream_path FGemini (Some route) GeminiDialect = "/v1beta/models/../../v1/files:generateContent"
      /\ model_id_is_path_safe (gr_model route) = false
  | _ => False
  end.
Proof. split; reflexivity. Qed.
