(* ===== verification/ResponseCodec.v ===== *)
(** Buffered responses: the decoders of the provider families
    ([providers/typed.rs], [anthropic_typed.rs], [gemini_typed.rs],
    [openai_responses_typed.rs], [cohere_typed.rs], [ollama_typed.rs]) and the
    encoders of the dialects ([proxy/codec.rs]).

    An error is its absence.  The schema version, which is constant, and the
    raw item that the Responses decoder keeps beside a call are left out. *)

From stdpp Require Import pretty.
From S2P Require Import Prelude Text Usage Json UsageParse Stats Attempt Accounting StreamEncoder ChatRequest OpenAiStream.

(** ** The canonical response *)

Record AssistantOutputV1 := MkOutput { ao_content : option MessageContent; ao_tool_calls : list ToolCallV1; ao_refusal : option string }.
Record ChatResponseV1 := MkResponse {
  rp_id : option string; rp_model : string; rp_output : AssistantOutputV1; rp_finish_reason : option FinishReasonV1;
  rp_usage : UsageV2; rp_extensions : gmap string Json }.

(** [(!text.is_empty()).then_some(text)]. *)
Definition filled (s : string) : option string := if bool_decide (s = "") then None else Some s.
(** [Value::pointer("/<key>/0")]. *)
Definition first_of (value : Json) (key : string) : option Json :=
  v ← jget value key; match v with JArray (x :: _) => Some x | JObject l => assoc "0" l | _ => None end.
Definition with_reasoning (family : string) (body : Json) (reasoning : string) : gmap string Json :=
  match filled reasoning with
  | Some r => <["reasoning" := JStr r]> {[family := body]}
  | None => {[family := body]}
  end.
(** The texts of the blocks of a kind, one after the other. *)
Definition block_text (kind field : string) (blocks : list Json) : string :=
  String.concat "" (omap (fun b => if bool_decide (str_at b "type" = Some kind) then Some (default "" (str_at b field)) else None) blocks).

(** ** Decoders *)

Definition decode_tool_call (value : Json) : option ToolCallV1 :=
  id ← str_at value "id";
  name ← pointer value "function" "name" ≫= jas_str;
  Some (MkToolCall id name (default "" (pointer value "function" "arguments" ≫= jas_str))).
Definition decode_openai_response (body : Json) (parsed : ParsedUsage) (requested_model : string) : option ChatResponseV1 :=
  message ← (m ← first_choice body "message"; if jis_object m then Some m else None);
  Some (MkResponse (str_at body "id") (default requested_model (str_at body "model"))
    (MkOutput (ContentText <$> str_at message "content") (omap decode_tool_call (default [] (arr_at message "tool_calls"))) (str_at message "refusal"))
    (decode_finish_reason <$> (first_choice body "finish_reason" ≫= jas_str))
    (usage_v2_from_openai body parsed Final) {["openai" := body]}).

Definition decode_stop_reason (reason : string) : FinishReasonV1 :=
  if bool_decide (reason ∈ ["end_turn"; "stop_sequence"; "pause_turn"]) then FrStop
  else if bool_decide (reason ∈ ["max_tokens"; "model_context_window_exceeded"]) then FrLength
  else if bool_decide (reason = "tool_use") then FrToolCalls
  else FrUnknown.
Definition gemini_decode_finish (reason : string) : FinishReasonV1 :=
  if bool_decide (reason = "STOP") then FrStop
  else if bool_decide (reason = "MAX_TOKENS") then FrLength
  else if bool_decide (reason ∈ ["SAFETY"; "RECITATION"; "BLOCKLIST"; "PROHIBITED_CONTENT"]) then FrContentFilter
  else FrUnknown.

(** The Responses family: the calls of the output, and how a run ended. *)
Definition responses_call (item : Json) : option ToolCallV1 :=
  if bool_decide (str_at item "type" = Some "function_call") then
    id ← str_at item "call_id"; name ← str_at item "name"; Some (MkToolCall id name (default "" (str_at item "arguments")))
  else None.
Definition message_parts (output : list Json) : list Json :=
  concat ((fun item => if bool_decide (str_at item "type" = Some "message") then default [] (arr_at item "content") else []) <$> output).
Definition response_finish_reason (body : Json) (has_tools : bool) : FinishReasonV1 :=
  if has_tools then FrToolCalls
  else
    let status := str_at body "status" in
    let reason := pointer body "incomplete_details" "reason" ≫= jas_str in
    if bool_decide (status = Some "completed") then FrStop
    else if bool_decide (status = Some "incomplete") then
      if bool_decide (reason = Some "max_output_tokens") then FrLength
      else if bool_decide (reason = Some "content_filter") then FrContentFilter
      else FrUnknown
    else FrUnknown.
Definition responses_outcome (status : option string) : string :=
  if bool_decide (status = Some "completed") then "success"
  else if bool_decide (status = Some "incomplete") then "incomplete"
  else if bool_decide (status = Some "failed") then "error"
  else "unknown".
Definition usage_v2 (body : Json) (parsed : ParsedUsage) : UsageV2 :=
  let u := parsed_usage parsed in
  MkUsage (u_tokens_in u) (u_tokens_out u) (u_cache_creation u) (u_cache_read u) (u_cache_obs u) (u_audio_in u) (u_audio_out u)
    (details ← pointer body "usage" "output_tokens_details"; u64_opt details "reasoning_tokens") (u_reasoning_included u)
    (u_accepted_prediction u) (u_rejected_prediction u) Final (u_basis u) (u_attempts u)
    (Some (responses_outcome (str_at body "status"))) (u_upstream_request_id u) (u_duration_ms u) (u_duration_source u) (u_ttft_ms u) (u_ttft_source u).
Definition decode_responses_response (body : Json) (parsed : ParsedUsage) (requested_model : string) : option ChatResponseV1 :=
  output ← arr_at body "output";
  let parts := message_parts output in
  let calls := omap responses_call output in
  Some (MkResponse (str_at body "id") (default requested_model (str_at body "model"))
    (MkOutput (ContentText <$> filled (block_text "output_text" "text" parts)) calls (filled (block_text "refusal" "refusal" parts)))
    (Some (response_finish_reason body (negb (bool_decide (calls = []))))) (usage_v2 body parsed) {["openai_responses" := body]}).

Definition cohere_call (call : Json) : option ToolCallV1 :=
  id ← str_at call "id";
  name ← pointer call "function" "name" ≫= jas_str;
  arguments ← pointer call "function" "arguments" ≫= jas_str;
  Some (MkToolCall id name arguments).
Definition cohere_decode_finish (reason : string) : FinishReasonV1 :=
  if bool_decide (reason ∈ ["COMPLETE"; "STOP_SEQUENCE"]) then FrStop
  else if bool_decide (reason = "MAX_TOKENS") then FrLength
  else if bool_decide (reason = "TOOL_CALL") then FrToolCalls
  else FrUnknown.
Definition decode_cohere_response (body : Json) (parsed : ParsedUsage) (requested_model : string) : option ChatResponseV1 :=
  message ← jget body "message";
  let text := String.concat "" (omap (fun part => str_at part "text") (default [] (arr_at message "content"))) in
  Some (MkResponse (str_at body "id") requested_model
    (MkOutput (ContentText <$> filled text) (omap cohere_call (default [] (arr_at message "tool_calls"))) None)
    (cohere_decode_finish <$> str_at body "finish_reason") (parsed_usage parsed) {["cohere" := body]}).
Definition decode_done_reason (reason : string) : FinishReasonV1 :=
  if bool_decide (reason = "stop") then FrStop else if bool_decide (reason = "length") then FrLength else FrUnknown.

Section Decode.
Context (to_string : Json -> string).

Definition anthropic_tool_use (block : Json) : option ToolCallV1 :=
  if bool_decide (str_at block "type" = Some "tool_use")
  then Some (MkToolCall (default "" (str_at block "id")) (default "" (str_at block "name")) (to_string (jnull_or block "input")))
  else None.
Definition decode_anthropic_response (body : Json) (parsed : ParsedUsage) (requested_model : string) : option ChatResponseV1 :=
  blocks ← arr_at body "content";
  let text := block_text "text" "text" blocks in
  Some (MkResponse (str_at body "id") (default requested_model (str_at body "model"))
    (MkOutput (ContentText <$> filled text) (omap anthropic_tool_use blocks) None)
    (decode_stop_reason <$> str_at body "stop_reason") (parsed_usage parsed)
    (with_reasoning "anthropic" body (block_text "thinking" "thinking" blocks))).

(** The part at [index] of a Gemini candidate: its text, whether it is a
    thought, and its call. *)
Definition gemini_thought (part : Json) : bool := bool_decide ((jget part "thought" ≫= jas_bool) = Some true).
Definition gemini_texts (thought : bool) (parts : list Json) : string :=
  String.concat "" (omap (fun p => if bool_decide (gemini_thought p = thought) then str_at p "text" else None) parts).
Definition gemini_function_call (index : nat) (part : Json) : option ToolCallV1 :=
  call ← jget part "functionCall";
  Some (MkToolCall (default ("gemini_call_" +:+ pretty (N.of_nat index)) (str_at call "id")) (default "" (str_at call "name"))
          (to_string (jnull_or call "args"))).
Fixpoint gemini_calls_from (index : nat) (parts : list Json) : list ToolCallV1 :=
  match parts with
  | [] => []
  | part :: parts => option_list (gemini_function_call index part) ++ gemini_calls_from (S index) parts
  end.
Definition decode_gemini_response (body : Json) (parsed : ParsedUsage) (requested_model : string) : option ChatResponseV1 :=
  candidate ← first_of body "candidates";
  parts ← (pointer candidate "content" "parts" ≫= jas_array);
  Some (MkResponse (str_at body "responseId") (default requested_model (str_at body "modelVersion"))
    (MkOutput (ContentText <$> filled (gemini_texts false parts)) (gemini_calls_from 0 parts) None)
    (gemini_decode_finish <$> str_at candidate "finishReason") (parsed_usage parsed)
    (with_reasoning "gemini" body (gemini_texts true parts))).

Definition ollama_call (index : nat) (call : Json) : option ToolCallV1 :=
  function ← jget call "function";
  name ← str_at function "name";
  Some (MkToolCall (default ("ollama_call_" +:+ pretty (N.of_nat index)) (str_at call "id")) name (to_string (jnull_or function "arguments"))).
Fixpoint ollama_calls_from (index : nat) (calls : list Json) : list ToolCallV1 :=
  match calls with
  | [] => []
  | call :: calls => option_list (ollama_call index call) ++ ollama_calls_from (S index) calls
  end.
Definition ollama_calls (value : option Json) : list ToolCallV1 := ollama_calls_from 0 (default [] (value ≫= jas_array)).
Definition decode_ollama_response (body : Json) (parsed : ParsedUsage) (requested_model : string) : option ChatResponseV1 :=
  message ← obj_at body "message";
  Some (MkResponse (str_at body "created_at") (default requested_model (str_at body "model"))
    (MkOutput (ContentText <$> (str_at message "content" ≫= filled)) (ollama_calls (jget message "tool_calls")) None)
    (decode_done_reason <$> str_at body "done_reason") (parsed_usage parsed) {["ollama" := body]}).
End Decode.

(** ** Encoders *)

Section Encode.
Context (from_str : string -> option Json) (unix_now : Z).

Definition output_text (o : AssistantOutputV1) : option string := content_text <$> ao_content o.
Definition openai_call_json (call : ToolCallV1) : Json :=
  JObject [("id", JStr (tc_id call)); ("type", JStr "function");
           ("function", JObject [("name", JStr (tc_name call)); ("arguments", JStr (tc_arguments call))])].
Definition openai_message (o : AssistantOutputV1) : Json :=
  JObject ([("role", JStr "assistant"); ("content", jopt (output_text o))]
           ++ (if bool_decide (ao_tool_calls o = []) then [] else [("tool_calls", JArray (openai_call_json <$> ao_tool_calls o))])
           ++ match ao_refusal o with Some refusal => [("refusal", JStr refusal)] | None => [] end).
Definition encode_openai_response (r : ChatResponseV1) : Json :=
  JObject [("id", jopt (rp_id r)); ("object", JStr "chat.completion"); ("created", JNumber unix_now); ("model", JStr (rp_model r));
           ("choices", JArray [JObject [("index", JNumber 0); ("message", openai_message (rp_output r));
                                        ("finish_reason", openai_finish (rp_finish_reason r))]]);
           ("usage", openai_usage (rp_usage r))].

Definition text_pieces (text : option string) (f : string -> Json) : list Json :=
  match text ≫= filled with Some text => [f text] | None => [] end.
Definition tool_use_block (call : ToolCallV1) : Json :=
  JObject [("type", JStr "tool_use"); ("id", JStr (tc_id call)); ("name", JStr (tc_name call));
           ("input", default JNull (from_str (tc_arguments call)))].
Definition encode_anthropic_response (r : ChatResponseV1) : Json :=
  JObject [("id", jopt (rp_id r)); ("type", JStr "message"); ("role", JStr "assistant"); ("model", JStr (rp_model r));
           ("content", JArray (text_pieces (output_text (rp_output r)) (fun t => JObject [("type", JStr "text"); ("text", JStr t)])
                               ++ (tool_use_block <$> ao_tool_calls (rp_output r))));
           ("stop_reason", anthropic_finish (rp_finish_reason r)); ("stop_sequence", JNull); ("usage", anthropic_usage (rp_usage r))].

Definition responses_content (o : AssistantOutputV1) : list Json :=
  text_pieces (output_text o) (fun t => JObject [("type", JStr "output_text"); ("text", JStr t)])
  ++ text_pieces (ao_refusal o) (fun t => JObject [("type", JStr "refusal"); ("refusal", JStr t)]).
Definition responses_call_item (call : ToolCallV1) : Json :=
  JObject [("type", JStr "function_call"); ("call_id", JStr (tc_id call)); ("name", JStr (tc_name call)); ("arguments", JStr (tc_arguments call))].
Definition encode_responses_response (r : ChatResponseV1) : Json :=
  let content := responses_content (rp_output r) in
  JObject ([("id", jopt (rp_id r)); ("object", JStr "response"); ("model", JStr (rp_model r)); ("status", JStr (responses_status (rp_finish_reason r)));
            ("output", JArray ((if bool_decide (content = []) then []
                                else [JObject [("type", JStr "message"); ("role", JStr "assistant"); ("content", JArray content)]])
                               ++ (responses_call_item <$> ao_tool_calls (rp_output r))));
            ("usage", responses_usage (rp_usage r))]
           ++ match rp_finish_reason r with Some reason => incomplete_details reason | None => [] end).

Definition gemini_output_parts (content : option MessageContent) : list Json :=
  match content with
  | Some (ContentText text) => text_pieces (Some text) (fun t => JObject [("text", JStr t)])
  | Some (ContentParts items) => omap (fun i => match i with PartText t => Some (JObject [("text", JStr t)]) | _ => None end) items
  | None => []
  end.
Definition gemini_call_part (call : ToolCallV1) : Json :=
  JObject [("functionCall", JObject [("name", JStr (tc_name call)); ("id", JStr (tc_id call)); ("args", default JNull (from_str (tc_arguments call)))])].
Definition encode_gemini_response (r : ChatResponseV1) : Json :=
  let parts := gemini_output_parts (ao_content (rp_output r)) ++ (gemini_call_part <$> ao_tool_calls (rp_output r)) in
  JObject [("candidates", JArray [JObject ([("content", JObject [("role", JStr "model"); ("parts", JArray parts)]); ("index", JNumber 0)]
              ++ match rp_finish_reason r with Some reason => [("finishReason", JStr (gemini_finish_reason reason))] | None => [] end)]);
           ("usageMetadata", gemini_usage (rp_usage r)); ("modelVersion", JStr (rp_model r))].
Definition encode_response (dialect : IngressDialect) (r : ChatResponseV1) : Json :=
  match dialect with
  | OpenAi | EmbeddingsDialect | CompletionsDialect => encode_openai_response r
  | StreamEncoder.Anthropic => encode_anthropic_response r
  | ResponsesDialect => encode_responses_response r
  | GeminiDialect => encode_gemini_response r
  end.
End Encode.
