(* ===== verification/ResponseProps.v ===== *)
(** What a client reads in a buffered answer: the output and the usage that
    were metered, in the dialect it speaks. *)

From stdpp Require Import pretty.
From S2P Require Import Prelude Text Usage Json UsageParse Stats Passthrough Attempt Accounting StreamEncoder ChatRequest OpenAiStream ResponseCodec.

(** ** Usage *)

(** The counts are in range together, and reasoning that is part of the
    output does not exceed it. *)
Record usage_in_range (u : UsageV2) : Prop := {
  ur_in : 0 <= u_tokens_in u; ur_out : 0 <= u_tokens_out u; ur_creation : 0 <= u_cache_creation u; ur_read : 0 <= u_cache_read u;
  ur_reasoning : 0 <= default 0 (u_reasoning u);
  ur_total : u_tokens_in u + u_cache_creation u + u_cache_read u + u_tokens_out u + default 0 (u_reasoning u) <= MAX_PLAUSIBLE_TOKENS;
  ur_included : u_reasoning_included u = Some true -> default 0 (u_reasoning u) <= u_tokens_out u }.

Lemma shown_output u : usage_in_range u ->
  0 <= default 0 (u_reasoning u) <= output_including_reasoning u
  /\ prompt_tokens u = u_tokens_in u + u_cache_creation u + u_cache_read u
  /\ billable u = prompt_tokens u + output_including_reasoning u
  /\ prompt_tokens u + output_including_reasoning u <= MAX_PLAUSIBLE_TOKENS.
Proof.
  intros []. unfold billable, output_including_reasoning, prompt_tokens, billable_parts_with_reasoning, unfolded_reasoning, sat_add, MAX_PLAUSIBLE_TOKENS, u64_max in *.
  destruct (u_reasoning_included u) as [[]|]; [specialize (ur_included0 eq_refl)| |]; try lia. case_match; bools; lia.
Qed.

Lemma u64_at_number v k n : jget v k = Some (JNumber n) -> 0 <= n <= MAX_PLAUSIBLE_TOKENS -> u64_at v k = n.
Proof.
  intros Hg Hn. unfold u64_at. rewrite Hg. cbn [mbind option_bind jas_u64 demo_json]. unfold u64_max, MAX_PLAUSIBLE_TOKENS in *.
  rewrite (proj2 (Z.leb_le 0 n)), (proj2 (Z.leb_le n _)) by lia. cbn [andb]. by rewrite (proj2 (Z.leb_le n _)) by lia.
Qed.

Section Usage.
Context (from_str : string -> option Json) (unix_now : Z) (from_value : Json -> option AnthropicMessageUsage).

(** What a client is told it used. *)
Definition told (o : option ParsedUsage) (u : UsageV2) : Prop :=
  exists p, o = Some p /\ billable (parsed_usage p) = billable u /\ pu_cache_read p = u_cache_read u.

(** The generated model of Anthropic's usage reads the integers that are
    there. *)
Definition reads_integers : Prop := forall l a b c d,
  assoc "input_tokens" l = Some (JNumber a) -> assoc "output_tokens" l = Some (JNumber b) ->
  assoc "cache_creation_input_tokens" l = Some (JNumber c) -> assoc "cache_read_input_tokens" l = Some (JNumber d) ->
  0 <= a <= i64_max -> 0 <= b <= i64_max -> 0 <= c <= i64_max -> 0 <= d <= i64_max ->
  from_value (JObject l) = Some (MkAnthropic (Some c) (Some d) (Some a) (Some b)).

Lemma nested_number usage k counter v n : jget usage k = Some v -> jget v counter = Some (JNumber n) -> 0 <= n <= MAX_PLAUSIBLE_TOKENS ->
  nested_u64 usage k counter = n.
Proof. intros H1 H2 Hn. unfold nested_u64. rewrite H1. by apply u64_at_number. Qed.
Lemma split_within prompt cached : cached <= prompt -> split_prompt prompt cached = (prompt - cached, false).
Proof. intros. unfold split_prompt. by rewrite (proj2 (Z.ltb_ge prompt cached)). Qed.

(** What a parser that folds reasoning into the output answers. *)
Lemma told_folded p u obs c d t : usage_in_range u -> p = MkParsed (u_tokens_in u + u_cache_creation u - c) (output_including_reasoning u) c (u_cache_read u) obs d (Some true) None t ->
  0 <= c <= u_cache_creation u -> told (Some p) u.
Proof.
  intros Hu -> Hc. destruct (shown_output _ Hu) as (Ho & Hp & Hb & Ht). destruct Hu. eexists. split; [reflexivity|]. split; [|done]. rewrite Hb, Hp.
  unfold billable, parsed_usage, billable_parts_with_reasoning, unfolded_reasoning, sat_add. cbn [u_tokens_in u_tokens_out u_cache_creation u_cache_read u_reasoning u_reasoning_included pu_tokens_in pu_tokens_out pu_cache_creation pu_cache_read pu_reasoning_included].
  unfold MAX_PLAUSIBLE_TOKENS, u64_max in *. lia.
Qed.

Lemma openai_told r : usage_in_range (rp_usage r) -> told (parse_openai_usage (encode_openai_response unix_now r)) (rp_usage r).
Proof.
  intros Hu. destruct (shown_output _ Hu) as (Ho & Hp & Hb & Ht). pose proof Hu as [].
  unfold parse_openai_usage. change (jget (encode_openai_response unix_now r) "usage") with (Some (openai_usage (rp_usage r))). cbn [mbind option_bind].
  change (jget (openai_usage (rp_usage r)) "prompt_cache_hit_tokens") with (@None Json). cbv iota zeta.
  rewrite (u64_at_number _ "completion_tokens" (output_including_reasoning (rp_usage r))) by (reflexivity || lia).
  rewrite (u64_at_number _ "prompt_tokens" (prompt_tokens (rp_usage r))) by (reflexivity || lia).
  erewrite (nested_number _ "prompt_tokens_details" "cached_tokens" _ (u_cache_read (rp_usage r))) by (reflexivity || lia).
  rewrite split_within by lia. eapply (told_folded _ _ _ 0); [done| |lia]. f_equal; lia.
Qed.
Lemma responses_told r : usage_in_range (rp_usage r) -> told (parse_openai_responses_usage (encode_responses_response r)) (rp_usage r).
Proof.
  intros Hu. destruct (shown_output _ Hu) as (Ho & Hp & Hb & Ht). pose proof Hu as [].
  unfold parse_openai_responses_usage. change (jget (encode_responses_response r) "usage") with (Some (responses_usage (rp_usage r))). cbn [mbind option_bind].
  rewrite (u64_at_number _ "input_tokens" (prompt_tokens (rp_usage r))) by (reflexivity || lia).
  rewrite (u64_at_number _ "output_tokens" (output_including_reasoning (rp_usage r))) by (reflexivity || lia).
  erewrite (nested_number _ "input_tokens_details" "cached_tokens" _ (u_cache_read (rp_usage r))) by (reflexivity || lia).
  cbv zeta. rewrite split_within by lia. eapply (told_folded _ _ _ 0); [done| |lia]. f_equal; lia.
Qed.
Lemma anthropic_told r : reads_integers -> usage_in_range (rp_usage r) -> told (parse_anthropic_usage from_value (encode_anthropic_response from_str r)) (rp_usage r).
Proof.
  intros Hfrom Hu. destruct (shown_output _ Hu) as (Ho & Hp & Hb & Ht). pose proof Hu as [].
  unfold parse_anthropic_usage. change (jget (encode_anthropic_response from_str r) "usage") with (Some (anthropic_usage (rp_usage r))). cbn [mbind option_bind].
  unfold anthropic_usage at 1. unfold MAX_PLAUSIBLE_TOKENS in *.
  erewrite Hfrom by (reflexivity || (unfold i64_max; lia)). cbn [mbind option_bind count_of default am_input am_output am_cache_creation am_cache_read].
  unfold count_of. cbn [default from_option id]. rewrite !Z.max_l by lia. eapply (told_folded _ _ _ (u_cache_creation (rp_usage r))); [done| |lia]. f_equal; lia.
Qed.
Lemma gemini_told r : usage_in_range (rp_usage r) -> told (parse_gemini_usage (encode_gemini_response from_str r)) (rp_usage r).
Proof.
  intros Hu. destruct (shown_output _ Hu) as (Ho & Hp & Hb & Ht). pose proof Hu as [].
  unfold parse_gemini_usage. change (jget (encode_gemini_response from_str r) "usageMetadata") with (Some (gemini_usage (rp_usage r))). cbn [mbind option_bind].
  set (g := gemini_usage (rp_usage r)).
  assert (Hc : u64_at g "cachedContentTokenCount" = u_cache_read (rp_usage r)).
  { destruct (0 <? u_cache_read (rp_usage r)) eqn:Hc.
    - apply u64_at_number; [|lia]. unfold g, gemini_usage. by rewrite Hc.
    - apply Z.ltb_ge in Hc. unfold u64_at. replace (jget g "cachedContentTokenCount") with (@None Json); [cbn; lia|].
      unfold g, gemini_usage. rewrite (proj2 (Z.ltb_ge _ _) Hc). by destruct (u_reasoning _). }
  assert (Hr : u64_at g "thoughtsTokenCount" = default 0 (u_reasoning (rp_usage r))).
  { unfold g, gemini_usage. destruct (u_reasoning (rp_usage r)) as [n|]; cbn [default from_option id] in *.
    - apply u64_at_number; [|lia]. by destruct (0 <? _).
    - unfold u64_at. by destruct (0 <? _). }
  rewrite Hc, Hr, (u64_at_number g "promptTokenCount" (prompt_tokens (rp_usage r))) by (reflexivity || lia).
  rewrite (u64_at_number g "candidatesTokenCount" (sat_sub (output_including_reasoning (rp_usage r)) (default 0 (u_reasoning (rp_usage r)))))
    by (reflexivity || (unfold sat_sub; lia)).
  cbv zeta. rewrite split_within by lia. eexists. split; [reflexivity|]. split; [|done]. rewrite Hb, Hp.
  unfold billable, parsed_usage, billable_parts_with_reasoning, unfolded_reasoning, sat_add, sat_sub.
  cbn [u_tokens_in u_tokens_out u_cache_creation u_cache_read u_reasoning u_reasoning_included pu_tokens_in pu_tokens_out pu_cache_creation pu_cache_read pu_reasoning_included pu_reasoning].
  unfold nonzero. unfold MAX_PLAUSIBLE_TOKENS, u64_max in *. destruct (0 <? default 0 (u_reasoning (rp_usage r))) eqn:Hz; cbn [default from_option id]; bools; lia.
Qed.

(** C20: Whatever the upstream was, a client that reads the usage of an answer in
    its own dialect finds the tokens that were charged, and the tokens that
    were read from a cache. *)
Theorem clients_see_the_metered_usage r : usage_in_range (rp_usage r) -> reads_integers ->
  told (parse_openai_usage (encode_openai_response unix_now r)) (rp_usage r)
  /\ told (parse_openai_responses_usage (encode_responses_response r)) (rp_usage r)
  /\ told (parse_anthropic_usage from_value (encode_anthropic_response from_str r)) (rp_usage r)
  /\ told (parse_gemini_usage (encode_gemini_response from_str r)) (rp_usage r).
Proof. intros Hu Hfrom. split_and!; [by apply openai_told|by apply responses_told|by apply anthropic_told|by apply gemini_told]. Qed.
End Usage.

(** ** Output *)

(** The output as text: what an encoder keeps of it. *)
Definition flat (o : AssistantOutputV1) : AssistantOutputV1 := MkOutput (ContentText <$> output_text o) (ao_tool_calls o) (ao_refusal o).
Definition spoken (o : AssistantOutputV1) : string := default "" (output_text o).
(** A call whose arguments were carried as a value instead of a text: the
    value is written out again, and an argument text that is no JSON is
    [null]. *)
Definition restated (from_str : string -> option Json) (to_string : Json -> string) (c : ToolCallV1) : ToolCallV1 :=
  MkToolCall (tc_id c) (tc_name c) (to_string (default JNull (from_str (tc_arguments c)))).
(** The arguments of a call are the text of a value. *)
Definition canonical (from_str : string -> option Json) (to_string : Json -> string) (c : ToolCallV1) : Prop :=
  exists v, from_str (tc_arguments c) = Some v /\ to_string v = tc_arguments c.
Lemma restated_canonical from_str to_string c : canonical from_str to_string c -> restated from_str to_string c = c.
Proof. intros (v & Hv & Hs). unfold restated. rewrite Hv. cbn. rewrite Hs. by destruct c. Qed.

Lemma omap_all {A B C} (f : A -> B) (g : B -> option C) (h : A -> C) (l : list A) : (forall x, x ∈ l -> g (f x) = Some (h x)) -> omap g (f <$> l) = h <$> l.
Proof.
  induction l as [|x l IH]; intros H; [done|]. rewrite fmap_cons. cbn. rewrite H by set_solver. f_equal. apply IH. set_solver.
Qed.
Lemma omap_none {A B C} (f : A -> B) (g : B -> option C) (l : list A) : (forall x, g (f x) = None) -> omap g (f <$> l) = [].
Proof. intros H. induction l as [|x l IH]; [done|]. rewrite fmap_cons. cbn. by rewrite H. Qed.
Lemma text_pieces_read g (f : string -> Json) text : (forall t, g (f t) = Some t) -> String.concat "" (omap g (text_pieces text f)) = default "" text.
Proof.
  intros H. unfold text_pieces, filled. destruct text as [t|]; [|done]. cbn [mbind option_bind]. case_bool_decide as Ht; [by subst|].
  cbn. by rewrite H.
Qed.
Lemma text_pieces_skip {C} (g : Json -> option C) (f : string -> Json) text : (forall t, g (f t) = None) -> omap g (text_pieces text f) = [].
Proof. intros H. unfold text_pieces. destruct (text ≫= filled); [|done]. cbn. by rewrite H. Qed.
Lemma openai_finish_reads r : decode_finish_reason <$> (jas_str (openai_finish r)) = r.
Proof. by destruct r as [[]|]. Qed.

Section Output.
Context (from_str : string -> option Json) (to_string : Json -> string) (unix_now : Z).

Lemma openai_reads_back r p model :
  exists r', decode_openai_response (encode_openai_response unix_now r) p model = Some r'
    /\ rp_id r' = rp_id r /\ rp_model r' = rp_model r /\ rp_output r' = flat (rp_output r) /\ rp_finish_reason r' = rp_finish_reason r.
Proof.
  unfold decode_openai_response. set (body := encode_openai_response unix_now r).
  change (first_choice body "message") with (Some (openai_message (rp_output r))). cbn [mbind option_bind]. change (jis_object (openai_message (rp_output r))) with true. cbn iota.
  eexists. split; [reflexivity|]. cbn [rp_id rp_model rp_output rp_finish_reason]. split_and!.
  - change (jas_str (jopt (rp_id r)) = rp_id r). by destruct (rp_id r).
  - done.
  - unfold flat. f_equal.
    + change (ContentText <$> jas_str (jopt (output_text (rp_output r))) = ContentText <$> output_text (rp_output r)). by destruct (output_text _).
    + unfold openai_message. destruct (bool_decide (ao_tool_calls (rp_output r) = [])) eqn:Hc.
      * apply bool_decide_eq_true in Hc. rewrite Hc. by destruct (ao_refusal _).
      * change (omap decode_tool_call (openai_call_json <$> ao_tool_calls (rp_output r)) = ao_tool_calls (rp_output r)).
        rewrite (omap_all _ _ id); [apply list_fmap_id|]. by intros [] _.
    + unfold openai_message, str_at. destruct (bool_decide _), (ao_refusal (rp_output r)); reflexivity.
  - change (decode_finish_reason <$> (jas_str (openai_finish (rp_finish_reason r))) = rp_finish_reason r). apply openai_finish_reads.
Qed.

Lemma anthropic_reads_back r p model :
  exists r', decode_anthropic_response to_string (encode_anthropic_response from_str r) p model = Some r'
    /\ rp_id r' = rp_id r /\ rp_model r' = rp_model r /\ spoken (rp_output r') = spoken (rp_output r)
    /\ ao_tool_calls (rp_output r') = restated from_str to_string <$> ao_tool_calls (rp_output r).
Proof.
  unfold decode_anthropic_response. set (body := encode_anthropic_response from_str r).
  set (blocks := text_pieces (output_text (rp_output r)) (fun t => JObject [("type", JStr "text"); ("text", JStr t)]) ++ (tool_use_block from_str <$> ao_tool_calls (rp_output r))).
  change (arr_at body "content") with (Some blocks). cbn [mbind option_bind]. eexists. split; [reflexivity|].
  cbn [rp_id rp_model rp_output ao_tool_calls]. split_and!.
  - change (jas_str (jopt (rp_id r)) = rp_id r). by destruct (rp_id r).
  - done.
  - assert (Ht : block_text "text" "text" blocks = default "" (output_text (rp_output r))).
    { unfold block_text, blocks. rewrite omap_app, (omap_none (tool_use_block from_str)) by done. rewrite app_nil_r. by apply text_pieces_read. }
    rewrite Ht. unfold spoken, output_text at 1, filled. cbn [ao_content]. by case_bool_decide as He.
  - unfold blocks. rewrite omap_app, text_pieces_skip by done. cbn [app]. by rewrite (omap_all _ _ (restated from_str to_string)).
Qed.

Lemma responses_reads_back r p model :
  exists r', decode_responses_response (encode_responses_response r) p model = Some r'
    /\ rp_id r' = rp_id r /\ rp_model r' = rp_model r /\ spoken (rp_output r') = spoken (rp_output r)
    /\ ao_tool_calls (rp_output r') = ao_tool_calls (rp_output r) /\ default "" (ao_refusal (rp_output r')) = default "" (ao_refusal (rp_output r)).
Proof.
  unfold decode_responses_response. set (body := encode_responses_response r). set (content := responses_content (rp_output r)).
  set (output := (if bool_decide (content = []) then [] else [JObject [("type", JStr "message"); ("role", JStr "assistant"); ("content", JArray content)]])
                 ++ (responses_call_item <$> ao_tool_calls (rp_output r))).
  change (arr_at body "output") with (Some output). cbn [mbind option_bind].
  assert (Hparts : message_parts output = content).
  { unfold message_parts, output. rewrite fmap_app, concat_app. replace (concat (_ <$> (responses_call_item <$> _))) with (@nil Json);
      [|by induction (ao_tool_calls (rp_output r))]. rewrite app_nil_r. case_bool_decide as Hn; [by rewrite Hn|]. cbn. by rewrite app_nil_r. }
  rewrite Hparts. eexists. split; [reflexivity|]. cbn [rp_id rp_model rp_output ao_tool_calls ao_refusal]. split_and!.
  - change (jas_str (jopt (rp_id r)) = rp_id r). by destruct (rp_id r).
  - done.
  - assert (Ht : block_text "output_text" "text" content = default "" (output_text (rp_output r))).
    { unfold block_text, content, responses_content. rewrite omap_app, (text_pieces_skip _ (fun t => JObject [("type", JStr "refusal"); ("refusal", JStr t)])) by done.
      rewrite app_nil_r. by apply text_pieces_read. }
    rewrite Ht. unfold spoken, output_text at 1, filled. cbn [ao_content]. by case_bool_decide as He.
  - unfold output. rewrite omap_app. replace (omap responses_call (if bool_decide _ then _ else _)) with (@nil ToolCallV1) by (by case_bool_decide).
    cbn [app]. rewrite (omap_all _ _ id); [apply list_fmap_id|]. by intros [] _.
  - assert (Ht : block_text "refusal" "refusal" content = default "" (ao_refusal (rp_output r))).
    { unfold block_text, content, responses_content. rewrite omap_app, (text_pieces_skip _ (fun t => JObject [("type", JStr "output_text"); ("text", JStr t)])) by done.
      cbn [app]. by apply text_pieces_read. }
    rewrite Ht. unfold filled. by case_bool_decide as He.
Qed.

Lemma gemini_calls_read k calls :
  gemini_calls_from to_string k (gemini_call_part from_str <$> calls) = restated from_str to_string <$> calls.
Proof.
  revert k. induction calls as [|c calls IH]; intros k; [done|]. rewrite !fmap_cons. cbn [gemini_calls_from]. by rewrite IH.
Qed.
Lemma gemini_calls_skip k texts parts : Forall (fun p => jget p "functionCall" = None) texts ->
  gemini_calls_from to_string k (texts ++ parts) = gemini_calls_from to_string (length texts + k) parts.
Proof.
  intros H. revert k. induction H as [|x texts Hx _ IH]; intros k; [done|]. cbn [app gemini_calls_from]. unfold gemini_function_call. rewrite Hx. cbn. rewrite IH.
  f_equal. lia.
Qed.
Lemma gemini_parts_plain content : Forall (fun p => jget p "functionCall" = None) (gemini_output_parts content)
  /\ String.concat "" (omap (fun p => if bool_decide (gemini_thought p = false) then str_at p "text" else None) (gemini_output_parts content))
     = default "" (content_text <$> content).
Proof.
  destruct content as [[text|items]|]; cbn [gemini_output_parts]; [| |done].
  - split; [|by apply (text_pieces_read _ _ (Some text))]. unfold text_pieces, filled. cbn [mbind option_bind]. case_bool_decide; by repeat constructor.
  - cbn [content_text fmap option_fmap option_map default from_option id]. split; [|f_equal]; induction items as [|[] items IH]; try exact IH; try done.
    + by constructor.
    + change (text :: omap (fun p => if bool_decide (gemini_thought p = false) then str_at p "text" else None)
                         (omap (fun i => match i with PartText t => Some (JObject [("text", JStr t)]) | _ => None end) items)
        = text :: omap (fun p => match p with PartText t => Some t | _ => None end) items). by rewrite IH.
Qed.
Lemma gemini_reads_back r p model :
  exists r', decode_gemini_response to_string (encode_gemini_response from_str r) p model = Some r'
    /\ rp_model r' = rp_model r /\ spoken (rp_output r') = spoken (rp_output r)
    /\ ao_tool_calls (rp_output r') = restated from_str to_string <$> ao_tool_calls (rp_output r).
Proof.
  unfold decode_gemini_response. set (body := encode_gemini_response from_str r).
  set (parts := gemini_output_parts (ao_content (rp_output r)) ++ (gemini_call_part from_str <$> ao_tool_calls (rp_output r))).
  set (candidate := JObject ([("content", JObject [("role", JStr "model"); ("parts", JArray parts)]); ("index", JNumber 0)]
              ++ match rp_finish_reason r with Some reason => [("finishReason", JStr (gemini_finish_reason reason))] | None => [] end)).
  change (first_of body "candidates") with (Some candidate). cbn [mbind option_bind].
  change (pointer candidate "content" "parts") with (Some (JArray parts)). cbn [mbind option_bind jas_array demo_json]. eexists. split; [reflexivity|].
  cbn [rp_model rp_output ao_tool_calls]. destruct (gemini_parts_plain (ao_content (rp_output r))) as [Hp Ht]. split_and!.
  - done.
  - assert (Hx : gemini_texts false parts = default "" (output_text (rp_output r))).
    { unfold gemini_texts, parts. rewrite omap_app, (omap_none (gemini_call_part from_str)) by done. by rewrite app_nil_r. }
    rewrite Hx. unfold spoken, output_text at 1, filled. cbn [ao_content]. by case_bool_decide as He.
  - unfold parts. rewrite gemini_calls_skip by done. by apply gemini_calls_read.
Qed.

(** C11: A buffered answer that is encoded for a client says what the upstream
    said: the decoder of the dialect reads the same text and the same calls
    back, the OpenAI one the whole output and the finish reason as well, and
    the Responses one the refusal.  These two carry the arguments of a call as
    the text they are.  Anthropic and Gemini carry a value: their clients read
    the same call with the value written out again, which is the same text if
    that was written by [serde_json], a text of the same value if it was any
    other JSON, and [null] if it was none. *)
Theorem answers_read_back r p model :
  (exists r', decode_openai_response (encode_openai_response unix_now r) p model = Some r'
     /\ rp_id r' = rp_id r /\ rp_model r' = rp_model r /\ rp_output r' = flat (rp_output r) /\ rp_finish_reason r' = rp_finish_reason r)
  /\ (exists r', decode_anthropic_response to_string (encode_anthropic_response from_str r) p model = Some r'
     /\ rp_id r' = rp_id r /\ rp_model r' = rp_model r /\ spoken (rp_output r') = spoken (rp_output r)
     /\ ao_tool_calls (rp_output r') = restated from_str to_string <$> ao_tool_calls (rp_output r))
  /\ (exists r', decode_responses_response (encode_responses_response r) p model = Some r'
     /\ rp_id r' = rp_id r /\ rp_model r' = rp_model r /\ spoken (rp_output r') = spoken (rp_output r)
     /\ ao_tool_calls (rp_output r') = ao_tool_calls (rp_output r) /\ default "" (ao_refusal (rp_output r')) = default "" (ao_refusal (rp_output r)))
  /\ (exists r', decode_gemini_response to_string (encode_gemini_response from_str r) p model = Some r'
     /\ rp_model r' = rp_model r /\ spoken (rp_output r') = spoken (rp_output r)
     /\ ao_tool_calls (rp_output r') = restated from_str to_string <$> ao_tool_calls (rp_output r))
  /\ (forall c, canonical from_str to_string c -> restated from_str to_string c = c)
  /\ (forall c v, (forall v, from_str (to_string v) = Some v) -> from_str (tc_arguments c) = Some v ->
        from_str (tc_arguments (restated from_str to_string c)) = Some v)
  /\ (forall c, from_str (tc_arguments c) = None -> tc_arguments (restated from_str to_string c) = to_string JNull).
Proof.
  split; [by apply openai_reads_back|]. split; [by apply anthropic_reads_back|]. split; [by apply responses_reads_back|].
  split; [by apply gemini_reads_back|]. split; [apply restated_canonical|]. unfold restated. split; intros c; cbn.
  - intros v Hl ->. apply Hl.
  - by intros ->.
Qed.
End Output.

(** ** Instances *)

Definition sample_answer : ChatResponseV1 :=
  MkResponse (Some "r1") "m" (MkOutput (Some (ContentParts [PartText "It is "; PartText "sunny."])) [MkToolCall "c1" "weather" "[]"] (Some "no"))
    (Some FrToolCalls)
    (MkUsage 100 40 7 60 None None None (Some 25) (Some true) None None Final (u_basis UsageV2_default) 1 None None None None None None) ∅.
Definition integer_fields (v : Json) : option AnthropicMessageUsage :=
  Some (MkAnthropic (jget v "cache_creation_input_tokens" ≫= jas_i64) (jget v "cache_read_input_tokens" ≫= jas_i64)
          (jget v "input_tokens" ≫= jas_i64) (jget v "output_tokens" ≫= jas_i64)).
Lemma jas_i64_in n : 0 <= n <= i64_max -> jas_i64 (JNumber n) = Some n.
Proof. intros H. unfold jas_i64. rewrite (proj2 (Z.leb_le (- i64_max - 1) n)), (proj2 (Z.leb_le n i64_max)) by (unfold i64_max in *; lia). done. Qed.
Lemma integer_fields_read : reads_integers integer_fields.
Proof.
  intros l a b c d Ha Hb Hc Hd **. unfold integer_fields. cbn [jget demo_json]. rewrite Ha, Hb, Hc, Hd. cbn [mbind option_bind].
  by rewrite !jas_i64_in.
Qed.

Lemma clients_see_the_metered_usage_witness :
  exists p, parse_gemini_usage (encode_gemini_response (fun _ => None) sample_answer) = Some p
    /\ billable (parsed_usage p) = 207 /\ pu_cache_read p = 60.
Proof.
  destruct (clients_see_the_metered_usage (fun _ => None) 0 integer_fields sample_answer) as (_ & _ & _ & H).
  - split; vm_compute; congruence.
  - exact integer_fields_read.
  - exact H.
Defined.

Definition read_empty (s : string) : option Json := if bool_decide (s = "[]") then Some (JArray []) else None.
Definition write_empty (v : Json) : string := match v with JArray [] => "[]" | _ => "null" end.
Lemma answers_read_back_witness :
  exists r', decode_gemini_response write_empty (encode_gemini_response read_empty sample_answer) ParsedUsage_default "g" = Some r'
    /\ rp_model r' = "m" /\ spoken (rp_output r') = "It is sunny." /\ ao_tool_calls (rp_output r') = [MkToolCall "c1" "weather" "[]"].
Proof.
  destruct (answers_read_back read_empty write_empty 0 sample_answer ParsedUsage_default "g") as (_ & _ & _ & H & Hc & _).
  destruct H as (r' & Hr & Hm & Ht & Hcalls). exists r'. split; [exact Hr|]. split; [exact Hm|]. split; [exact Ht|].
  rewrite Hcalls. cbn [sample_answer rp_output ao_tool_calls fmap list_fmap]. rewrite Hc; [reflexivity|]. by exists (JArray []).
Defined.

(** An answer that was cut at the limit in the middle of a call reads as one
    that ends with a call: the reason of a Responses answer that has calls is
    never its status. *)
Example truncated_call_reads_as_complete :
  exists r, decode_responses_response
      (JObject [("status", JStr "incomplete"); ("incomplete_details", JObject [("reason", JStr "max_output_tokens")]);
                ("output", JArray [JObject [("type", JStr "function_call"); ("call_id", JStr "c"); ("name", JStr "f"); ("arguments", JStr "{")]])])
      ParsedUsage_default "m" = Some r
    /\ rp_finish_reason r = Some FrToolCalls /\ (tc_arguments <$> ao_tool_calls (rp_output r)) = ["{"].
Proof. eexists. split; [reflexivity|]. split; reflexivity. Qed.
