(* ===== verification/StreamDecode.v ===== *)
(** The stream decoders of the provider families ([providers/typed.rs],
    [anthropic_typed.rs], [gemini_typed.rs], [openai_responses_typed.rs],
    [cohere_typed.rs], [ollama_typed.rs]) and the decorator that carries cache
    observations ([cache_read.rs]).

    The families share one loop: the bytes of a chunk go through the line
    splitter, each line that is an event takes a step, a pending line is
    bounded, and the usage of the chunk is published; at the end a line
    without its newline is flushed.  The loop is written once here, and a
    decoder is the record of what differs. *)

From stdpp Require Import pretty.
From S2P Require Import Prelude Text Headers Usage Json UsageParse LineSplit StreamUsage Passthrough Attempt Accounting StreamEncoder ChatRequest OpenAiStream ResponseCodec.

Notation Events := (list ChatStreamEventV1).

(** ** The loop *)

Record StreamDecoder := MkStreamDecoder {
  sd_state : Type; sd_new : sd_state; sd_read : list Z -> option Json;
  sd_step : Z -> Json -> sd_state -> Events * option ProviderError * sd_state;
  sd_meter : StreamChunk -> sd_state -> Events * sd_state;
  sd_finish : sd_state -> Events }.

(** What was produced since a chunk was pulled: its events, and the error
    that ended the stream. *)
Record Turn := MkTurn { tn_chunk : option StreamChunk; tn_events : Events; tn_error : option ProviderError }.

Section Loop.
Context (over_budget_detail : string) (dec : StreamDecoder).

Fixpoint run_values (attempts : Z) (values : list Json) (d : sd_state dec) : Events * option ProviderError * sd_state dec :=
  match values with
  | [] => ([], None, d)
  | v :: values =>
      match sd_step dec attempts v d with
      | (es, Some e, d) => (es, Some e, d)
      | (es, None, d) => let '(es', err, d) := run_values attempts values d in (es ++ es', err, d)
      end
  end.
Definition run_chunk (c : StreamChunk) (st : LineSplitter * sd_state dec) : Events * option ProviderError * (LineSplitter * sd_state dec) :=
  let '(lines, l) := drain (splitter_push st.1 (ck_data c)) in
  match run_values (ck_attempts c) (omap (sd_read dec) lines) st.2 with
  | (es, Some e, d) => (es, Some e, (l, d))
  | (es, None, d) =>
      if over_budget l then (es, Some (Transport over_budget_detail), (l, d))
      else let '(ms, d) := sd_meter dec c d in (es ++ ms, None, (l, d))
  end.
(** The end of the stream. *)
Definition run_end (st : LineSplitter * sd_state dec) : Turn :=
  let '(pending, l) := flush_newline st.1 in
  if pending then
    match run_chunk tail_chunk (l, st.2) with
    | (es, Some e, _) => MkTurn None es (Some e)
    | (es, None, (_, d)) => MkTurn None (es ++ sd_finish dec d) None
    end
  else MkTurn None (sd_finish dec st.2) None.
Fixpoint run_items (items : list (result ProviderError StreamChunk)) (st : LineSplitter * sd_state dec) : list Turn :=
  match items with
  | [] => [run_end st]
  | Err e :: _ => [MkTurn None [] (Some e)]
  | Ok c :: items =>
      match run_chunk c st with
      | (es, Some e, _) => [MkTurn (Some c) es (Some e)]
      | (es, None, st) => MkTurn (Some c) es None :: run_items items st
      end
  end.
Definition turns_of (items : list (result ProviderError StreamChunk)) : list Turn :=
  run_items items (splitter_new MAX_STREAM_LINE_BYTES, sd_new dec).
End Loop.

(** The events of the turns, and the error that ended them. *)
Fixpoint flatten_turns (turns : list Turn) : Events * option ProviderError :=
  match turns with
  | [] => ([], None)
  | t :: turns =>
      match tn_error t with
      | Some e => (tn_events t, Some e)
      | None => let '(es, err) := flatten_turns turns in (tn_events t ++ es, err)
      end
  end.

(** ** The usage of a chunk *)

Record Meter := MkMeter { mt_emitted : bool; mt_running : option ParsedUsage }.
Definition meter_new : Meter := MkMeter false None.
Definition with_obs (o : option CacheReadObservation) (u : UsageV2) : UsageV2 :=
  MkUsage (u_tokens_in u) (u_tokens_out u) (u_cache_creation u) (u_cache_read u) o (u_audio_in u) (u_audio_out u) (u_reasoning u)
    (u_reasoning_included u) (u_accepted_prediction u) (u_rejected_prediction u) (u_completeness u) (u_basis u) (u_attempts u) (u_outcome u)
    (u_upstream_request_id u) (u_duration_ms u) (u_duration_source u) (u_ttft_ms u) (u_ttft_source u).
Definition with_verdict (c : UsageCompleteness) (attempts : Z) (u : UsageV2) : UsageV2 :=
  MkUsage (u_tokens_in u) (u_tokens_out u) (u_cache_creation u) (u_cache_read u) (u_cache_obs u) (u_audio_in u) (u_audio_out u) (u_reasoning u)
    (u_reasoning_included u) (u_accepted_prediction u) (u_rejected_prediction u) c (u_basis u) attempts (u_outcome u)
    (u_upstream_request_id u) (u_duration_ms u) (u_duration_source u) (u_ttft_ms u) (u_ttft_source u).
Definition with_outcome (outcome : string) (u : UsageV2) : UsageV2 :=
  MkUsage (u_tokens_in u) (u_tokens_out u) (u_cache_creation u) (u_cache_read u) (u_cache_obs u) (u_audio_in u) (u_audio_out u) (u_reasoning u)
    (u_reasoning_included u) (u_accepted_prediction u) (u_rejected_prediction u) (u_completeness u) (u_basis u) (u_attempts u) (Some outcome)
    (u_upstream_request_id u) (u_duration_ms u) (u_duration_source u) (u_ttft_ms u) (u_ttft_source u).

Definition meter_final (c : StreamChunk) (m : Meter) : Events * Meter :=
  match ck_usage c with
  | Some u =>
      if mt_emitted m then ([], m)
      else ([EvUsage (terminal_usage (ck_attempts c) (parsed_usage u))], MkMeter true (mt_running m))
  | None => ([], m)
  end.
(** The incremental families publish the running totals when they move. *)
Definition meter_running (c : StreamChunk) (m : Meter) : Events * Meter :=
  match ck_usage c, ck_usage_running c with
  | Some _, _ => meter_final c m
  | None, Some running =>
      if bool_decide (Some running = mt_running m) then ([], m)
      else ([EvUsage (with_verdict Partial (ck_attempts c) (parsed_usage running))], MkMeter (mt_emitted m) (Some running))
  | None, None => ([], m)
  end.
Definition metered {S} (meter : StreamChunk -> Meter -> Events * Meter) (c : StreamChunk) (d : S * Meter) : Events * (S * Meter) :=
  let '(es, m) := meter c d.2 in (es, (d.1, m)).
Definition silent {S} (_ : S) : Events := [].

(** A step that cannot fail. *)
Definition total_step {S} (step : Json -> S -> Events * S) (_ : Z) (v : Json) (d : S * Meter) : Events * option ProviderError * (S * Meter) :=
  let '(es, s) := step v d.1 in (es, None, (s, d.2)).

(** [value.get(key).and_then(as_u64).unwrap_or(0) as u32]. *)
Definition u32_at (v : Json) (key : string) : Z := u32_of (default 0 (jget v key ≫= jas_u64)).
Definition pointer_path (v : Json) (keys : list string) : option Json := foldl (fun o k => o ≫= fun v => jget v k) (Some v) keys.
Definition str_path (v : Json) (keys : list string) : option string := pointer_path v keys ≫= jas_str.
Definition kind_is (v : Json) (kind : string) : bool := bool_decide (str_at v "type" = Some kind).

Record Opened := MkOpened { op_started : bool; op_tools : list (Z * unit) }.
Definition opened_new : Opened := MkOpened false [].
(** A call that ends, if it is open. *)
Definition close_tool (index : Z) (s : Opened) : Events * Opened :=
  match bt_get index (op_tools s) with
  | Some _ => ([EvToolCallEnd index], MkOpened (op_started s) (bt_remove index (op_tools s)))
  | None => ([], s)
  end.

Section Families.
Context (from_slice : list Z -> option Json) (to_string : Json -> string) (requested_model : string).

(** ** OpenAI-compatible *)

Definition openai_decoder : StreamDecoder :=
  {| sd_state := OpenAiDecoder; sd_new := decoder_new; sd_read := sse_data_json from_slice;
     sd_step attempts v d := let '(es, d) := decode_value requested_model attempts v d in (es, None, d);
     sd_meter c d :=
       match ck_usage c with
       | Some u =>
           if od_emitted_usage d then ([], d)
           else ([EvUsage (terminal_usage (ck_attempts c) (parsed_usage u))], MkDecoder (od_started d) (od_open_tools d) true)
       | None => ([], d)
       end;
     sd_finish := silent |}.

(** ** Anthropic *)

Definition anthropic_block_delta (index : Z) (delta : Json) : Events :=
  if kind_is delta "text_delta" then [EvTextDelta (default "" (str_at delta "text"))]
  else if kind_is delta "thinking_delta" then [EvReasoningDelta (default "" (str_at delta "thinking"))]
  else if kind_is delta "input_json_delta" then [EvToolCallArgumentsDelta index (default "" (str_at delta "partial_json"))]
  else [].
Definition anthropic_step (value : Json) (s : Opened) : Events * Opened :=
  let index := u32_at value "index" in
  if kind_is value "message_start" then
    if op_started s then ([], s)
    else
      let message := jnull_or value "message" in
      ([EvResponseStart (str_at message "id") (default requested_model (str_at message "model"))], MkOpened true (op_tools s))
  else if kind_is value "content_block_start" then
    let block := jnull_or value "content_block" in
    if kind_is block "tool_use" then
      ([EvToolCallStart index (default "" (str_at block "id")) (default "" (str_at block "name"))],
       MkOpened (op_started s) (bt_insert index tt (op_tools s)))
    else ([], s)
  else if kind_is value "content_block_delta" then (anthropic_block_delta index (jnull_or value "delta"), s)
  else if kind_is value "content_block_stop" then close_tool index s
  else if kind_is value "message_delta" then
    (match str_path value ["delta"; "stop_reason"] with Some reason => [EvFinish (decode_stop_reason reason)] | None => [] end, s)
  else ([], s).
Definition anthropic_decoder : StreamDecoder :=
  {| sd_state := Opened * Meter; sd_new := (opened_new, meter_new); sd_read := sse_data_json from_slice;
     sd_step := total_step anthropic_step; sd_meter := metered meter_running; sd_finish := silent |}.

(** ** Gemini *)

Record GeminiState := MkGemini { gs_started : bool; gs_finish : option FinishReasonV1 }.
Definition gemini_part_events (index : nat) (part : Json) : Events :=
  match str_at part "text" with
  | Some text => if gemini_thought part then [EvReasoningDelta text] else [EvTextDelta text]
  | None => []
  end
  ++ match gemini_function_call to_string index part with
     | Some call =>
         let i := u32_of (Z.of_nat index) in
         [EvToolCallStart i (tc_id call) (tc_name call); EvToolCallArgumentsDelta i (tc_arguments call); EvToolCallEnd i]
     | None => []
     end.
Fixpoint gemini_parts_events (index : nat) (parts : list Json) : Events :=
  match parts with [] => [] | part :: parts => gemini_part_events index part ++ gemini_parts_events (S index) parts end.
Definition gemini_step (value : Json) (s : GeminiState) : Events * GeminiState :=
  let start :=
    if gs_started s then []
    else [EvResponseStart (str_at value "responseId") (default requested_model (str_at value "modelVersion"))] in
  let candidate := first_of value "candidates" in
  let parts := default [] (candidate ≫= fun c => pointer c "content" "parts" ≫= jas_array) in
  (start ++ gemini_parts_events 0 parts,
   MkGemini true (match candidate ≫= fun c => str_at c "finishReason" with Some reason => Some (gemini_decode_finish reason) | None => gs_finish s end)).
Definition gemini_decoder : StreamDecoder :=
  {| sd_state := GeminiState * Meter; sd_new := (MkGemini false None, meter_new); sd_read := sse_data_json from_slice;
     sd_step := total_step gemini_step; sd_meter := metered meter_running;
     sd_finish d := match gs_finish d.1 with Some reason => [EvFinish reason] | None => [] end |}.

(** ** Cohere *)

Definition cohere_step (value : Json) (s : Opened) : Events * Opened :=
  let index := u32_at value "index" in
  if kind_is value "message-start" then
    if op_started s then ([], s) else ([EvResponseStart (str_at value "id") requested_model], MkOpened true (op_tools s))
  else if kind_is value "content-delta" then
    (match str_path value ["delta"; "message"; "content"; "text"] with Some text => [EvTextDelta text] | None => [] end, s)
  else if kind_is value "tool-call-start" then
    let call := default JNull (pointer_path value ["delta"; "message"; "tool_calls"]) in
    ([EvToolCallStart index (default "" (str_at call "id")) (default "" (str_path call ["function"; "name"]))],
     MkOpened (op_started s) (bt_insert index tt (op_tools s)))
  else if kind_is value "tool-call-delta" then
    (match filled (default "" (str_path value ["delta"; "message"; "tool_calls"; "function"; "arguments"])) with
     | Some delta => [EvToolCallArgumentsDelta index delta]
     | None => []
     end, s)
  else if kind_is value "tool-call-end" then close_tool index s
  else if kind_is value "message-end" then
    (match str_path value ["delta"; "finish_reason"] with Some reason => [EvFinish (cohere_decode_finish reason)] | None => [] end, s)
  else ([], s).
Definition cohere_decoder : StreamDecoder :=
  {| sd_state := Opened * Meter; sd_new := (opened_new, meter_new); sd_read := sse_data_json from_slice;
     sd_step := total_step cohere_step; sd_meter := metered meter_final; sd_finish := silent |}.

(** ** Ollama: lines of JSON, without the framing of server-sent events *)

Fixpoint whole_calls (index : nat) (calls : list ToolCallV1) : Events :=
  match calls with
  | [] => []
  | call :: calls =>
      let i := u32_of (Z.of_nat index) in
      [EvToolCallStart i (tc_id call) (tc_name call); EvToolCallArgumentsDelta i (tc_arguments call); EvToolCallEnd i] ++ whole_calls (S index) calls
  end.
Definition ollama_step (value : Json) (started : bool) : Events * bool :=
  let start := if started then [] else [EvResponseStart (str_at value "created_at") (default requested_model (str_at value "model"))] in
  let text := match str_path value ["message"; "content"] ≫= filled with Some text => [EvTextDelta text] | None => [] end in
  let finish :=
    if bool_decide (jget value "done" ≫= jas_bool = Some true)
    then [EvFinish (decode_done_reason (default "stop" (str_at value "done_reason")))] else [] in
  (start ++ text ++ whole_calls 0 (ollama_calls to_string (pointer_path value ["message"; "tool_calls"])) ++ finish, true).
Definition ollama_decoder : StreamDecoder :=
  {| sd_state := bool * Meter; sd_new := (false, meter_new); sd_read := from_slice;
     sd_step := total_step ollama_step; sd_meter := metered meter_final; sd_finish := silent |}.

(** ** Responses *)

(** The arguments of a call that were sent so far. *)
Record StreamedToolArguments := MkArgs { ta_emitted : string; ta_finalized : bool }.
Definition args_new : StreamedToolArguments := MkArgs "" false.
Definition args_delta (delta : string) (a : StreamedToolArguments) : option StreamedToolArguments :=
  if ta_finalized a && negb (bool_decide (delta = "")) then None else Some (MkArgs (ta_emitted a +:+ delta) (ta_finalized a)).
(** A terminal snapshot repeats what was sent or adds the missing suffix. *)
Definition args_complete (arguments : string) (a : StreamedToolArguments) : option (string * StreamedToolArguments) :=
  if ta_finalized a && negb (bool_decide (arguments = ta_emitted a)) then None
  else suffix ← str_strip_prefix (ta_emitted a) arguments; Some (suffix, MkArgs arguments true).

Record ResponsesState := MkResponses { rs_started : bool; rs_tools : list (Z * StreamedToolArguments); rs_usage : bool; rs_finish : bool }.
Definition responses_new : ResponsesState := MkResponses false [] false false.
Definition set_tools (tools : list (Z * StreamedToolArguments)) (s : ResponsesState) : ResponsesState :=
  MkResponses (rs_started s) tools (rs_usage s) (rs_finish s).
Definition filled_delta (index : Z) (delta : string) : Events :=
  match filled delta with Some delta => [EvToolCallArgumentsDelta index delta] | None => [] end.

Definition responses_start (kind : string) (event : Json) (s : ResponsesState) : Events * ResponsesState :=
  let started := MkResponses true (rs_tools s) (rs_usage s) (rs_finish s) in
  if bool_decide (kind = "response.created") then
    let response := jnull_or event "response" in
    ([EvResponseStart (str_at response "id") (default requested_model (str_at response "model"))], started)
  else if negb (rs_started s) && bool_decide (kind ∈ ["response.output_text.delta"; "response.refusal.delta";
            "response.function_call_arguments.delta"; "response.output_item.added"])
  then ([EvResponseStart None requested_model], started)
  else ([], s).
Definition item_added (event : Json) (s : ResponsesState) : Events * option string * ResponsesState :=
  let item := jnull_or event "item" in
  if negb (kind_is item "function_call") then ([], None, s)
  else
    let index := u32_at event "output_index" in
    match str_at item "call_id", str_at item "name" with
    | Some id, Some name =>
        match str_at item "arguments" with
        | Some arguments =>
            match args_delta arguments args_new with
            | Some a => (EvToolCallStart index id name :: filled_delta index arguments, None, set_tools (bt_insert index a (rs_tools s)) s)
            | None => ([EvToolCallStart index id name], Some "tool arguments delta after completion", set_tools (bt_insert index args_new (rs_tools s)) s)
            end
        | None => ([EvToolCallStart index id name], None, set_tools (bt_insert index args_new (rs_tools s)) s)
        end
    | _, _ => ([], None, s)
    end.
Definition arguments_delta (event : Json) (s : ResponsesState) : Events * option string * ResponsesState :=
  let index := u32_at event "output_index" in
  match str_at event "delta" with
  | None => ([], None, s)
  | Some delta =>
      match bt_get index (rs_tools s) with
      | None => ([], Some "tool arguments delta without an open call", s)
      | Some a =>
          match args_delta delta a with
          | None => ([], Some "tool arguments delta after completion", s)
          | Some a => ([EvToolCallArgumentsDelta index delta], None, set_tools (bt_insert index a (rs_tools s)) s)
          end
      end
  end.
Definition arguments_done (event : Json) (s : ResponsesState) : Events * option string * ResponsesState :=
  let index := u32_at event "output_index" in
  match str_at event "arguments" with
  | None => ([], None, s)
  | Some arguments =>
      match bt_get index (rs_tools s) with
      | None => ([], Some "completed tool arguments without an open call", s)
      | Some a =>
          match args_complete arguments a with
          | None => ([], Some "conflicting completed tool arguments", s)
          | Some (suffix, a) => (filled_delta index suffix, None, set_tools (bt_insert index a (rs_tools s)) s)
          end
      end
  end.
Definition item_done (event : Json) (s : ResponsesState) : Events * option string * ResponsesState :=
  let index := u32_at event "output_index" in
  match bt_get index (rs_tools s) with
  | None => ([], None, s)
  | Some a =>
      let s := set_tools (bt_remove index (rs_tools s)) s in
      match str_path event ["item"; "arguments"] with
      | None => ([EvToolCallEnd index], None, s)
      | Some arguments =>
          match args_complete arguments a with
          | None => ([], Some "conflicting completed tool arguments", s)
          | Some (suffix, _) => (filled_delta index suffix ++ [EvToolCallEnd index], None, s)
          end
      end
  end.
Definition run_ended (attempts : Z) (outcome : string) (event : Json) (s : ResponsesState) : Events * ResponsesState :=
  let response := jnull_or event "response" in
  let usage :=
    match parse_openai_responses_usage response with
    | Some parsed => [EvUsage (with_outcome outcome (with_verdict Final attempts (usage_v2 response parsed)))]
    | None => []
    end in
  let has_tools := negb (bool_decide (rs_tools s = []))
                   || existsb (fun item => kind_is item "function_call") (default [] (arr_at response "output")) in
  (usage ++ (EvToolCallEnd <$> (rs_tools s).*1) ++ [EvFinish (response_finish_reason response has_tools)],
   MkResponses (rs_started s) [] (rs_usage s || negb (bool_decide (usage = []))) true).
Definition stream_error_message (event : Json) : string :=
  let message := match pointer_path event ["error"; "message"] with Some m => Some m | None => jget event "message" end in
  default "OpenAI Responses stream error" (message ≫= jas_str).

Definition text_delta (event : Json) (f : string -> ChatStreamEventV1) : Events :=
  match str_at event "delta" with Some delta => [f delta] | None => [] end.
Definition responses_event (attempts : Z) (kind : string) (event : Json) (s : ResponsesState) : Events * option string * ResponsesState :=
  if bool_decide (kind = "response.output_text.delta") then (text_delta event EvTextDelta, None, s)
  else if bool_decide (kind = "response.refusal.delta") then (text_delta event EvRefusalDelta, None, s)
  else if bool_decide (kind = "response.reasoning_summary_text.delta") then (text_delta event EvReasoningDelta, None, s)
  else if bool_decide (kind = "response.output_item.added") then item_added event s
  else if bool_decide (kind = "response.function_call_arguments.delta") then arguments_delta event s
  else if bool_decide (kind = "response.function_call_arguments.done") then arguments_done event s
  else if bool_decide (kind = "response.output_item.done") then item_done event s
  else if bool_decide (kind = "response.completed") then let '(es, s) := run_ended attempts "success" event s in (es, None, s)
  else if bool_decide (kind = "response.incomplete") then let '(es, s) := run_ended attempts "incomplete" event s in (es, None, s)
  else if bool_decide (kind = "response.failed") then let '(es, s) := run_ended attempts "error" event s in (es, None, s)
  else if bool_decide (kind = "error") then ([], Some (stream_error_message event), s)
  else ([], None, s).
Definition responses_step (attempts : Z) (event : Json) (s : ResponsesState) : Events * option ProviderError * ResponsesState :=
  let kind := default "" (str_at event "type") in
  let '(start, s) := responses_start kind event s in
  let '(es, err, s) := responses_event attempts kind event s in
  (start ++ es, Transport <$> err, s).
Definition responses_decoder : StreamDecoder :=
  {| sd_state := ResponsesState; sd_new := responses_new; sd_read := sse_data_json from_slice; sd_step := responses_step;
     sd_meter c s :=
       let '(es, m) := meter_final c (MkMeter (rs_usage s) None) in (es, MkResponses (rs_started s) (rs_tools s) (mt_emitted m) (rs_finish s));
     sd_finish s := if rs_finish s then [] else [EvFinish FrUnknown] |}.
End Families.

(** ** Cache observations *)

(** What the decorator knows: the observation merged so far, the attempts of
    the last chunk, the last usage, and the observation last published. *)
Record Observer := MkObserver {
  ob_cache : option CacheReadObservation; ob_attempts : Z; ob_last : option UsageV2; ob_published : option CacheReadObservation }.
Definition observer_new : Observer := MkObserver None 0 None None.
Definition see_chunk (c : StreamChunk) (o : Observer) : Observer :=
  let cache := merge_cache_read_observation (ob_cache o) (ck_usage_running c ≫= pu_cache_obs) in
  let cache := merge_cache_read_observation cache (ck_usage c ≫= pu_cache_obs) in
  MkObserver (merge_cache_read_observation cache (ck_cache_obs c)) (ck_attempts c) (ob_last o) (ob_published o).
(** The correction that precedes content, an error or the end. *)
Definition correction (o : Observer) : Events * Observer :=
  if bool_decide (is_Some (ob_cache o)) && negb (bool_decide (ob_published o = ob_cache o)) then
    ([EvUsage (with_verdict Unavailable (ob_attempts o) (with_obs (ob_cache o) (default UsageV2_default (ob_last o))))],
     MkObserver (ob_cache o) (ob_attempts o) (ob_last o) (ob_cache o))
  else ([], o).
Definition observe_event (e : ChatStreamEventV1) (o : Observer) : Events * Observer :=
  match e with
  | EvUsage u =>
      let u := match ob_cache o with Some c => with_obs (Some c) u | None => u end in
      ([EvUsage u], MkObserver (ob_cache o) (ob_attempts o) (Some u) (u_cache_obs u))
  | EvResponseStart _ _ => ([e], o)
  | _ => let '(es, o) := correction o in (es ++ [e], o)
  end.
Fixpoint observe_events (events : Events) (o : Observer) : Events * Observer :=
  match events with
  | [] => ([], o)
  | e :: events => let '(es, o) := observe_event e o in let '(es', o) := observe_events events o in (es ++ es', o)
  end.
Definition tell_observer (chunk : option StreamChunk) (o : Observer) : Observer := match chunk with Some c => see_chunk c o | None => o end.
Fixpoint observe_turns (turns : list Turn) (o : Observer) : Events * option ProviderError :=
  match turns with
  | [] => ((correction o).1, None)
  | t :: turns =>
      let '(es, o) := observe_events (tn_events t) (tell_observer (tn_chunk t) o) in
      match tn_error t with
      | Some e => (es ++ (correction o).1, Some e)
      | None => let '(es', err) := observe_turns turns o in (es ++ es', err)
      end
  end.
Definition decode_with_observation (over_budget_detail : string) (dec : StreamDecoder) (items : list (result ProviderError StreamChunk))
    : Events * option ProviderError := observe_turns (turns_of over_budget_detail dec items) observer_new.

(** ** A stream collected into a response *)

Record Collected := MkCollected {
  cd_id : option string; cd_model : string; cd_text : string; cd_refusal : string; cd_tools : list (Z * ToolCallV1);
  cd_usage : UsageV2; cd_finish : option FinishReasonV1 }.
Definition collected_new : Collected := MkCollected None "" "" "" [] UsageV2_default None.
Definition set_calls (tools : list (Z * ToolCallV1)) (c : Collected) : Collected :=
  MkCollected (cd_id c) (cd_model c) (cd_text c) (cd_refusal c) tools (cd_usage c) (cd_finish c).
Definition collect_event (e : ChatStreamEventV1) (c : Collected) : result ProviderError Collected :=
  match e with
  | EvResponseStart id model => Ok (MkCollected id model (cd_text c) (cd_refusal c) (cd_tools c) (cd_usage c) (cd_finish c))
  | EvTextDelta delta => Ok (MkCollected (cd_id c) (cd_model c) (cd_text c +:+ delta) (cd_refusal c) (cd_tools c) (cd_usage c) (cd_finish c))
  | EvRefusalDelta delta => Ok (MkCollected (cd_id c) (cd_model c) (cd_text c) (cd_refusal c +:+ delta) (cd_tools c) (cd_usage c) (cd_finish c))
  | EvReasoningDelta _ | EvToolCallEnd _ => Ok c
  | EvToolCallStart index id name => Ok (set_calls (bt_insert index (MkToolCall id name "") (cd_tools c)) c)
  | EvToolCallArgumentsDelta index delta =>
      match bt_get index (cd_tools c) with
      | Some call => Ok (set_calls (bt_insert index (MkToolCall (tc_id call) (tc_name call) (tc_arguments call +:+ delta)) (cd_tools c)) c)
      | None => Ok c
      end
  | EvUsage update =>
      let observation := merge_cache_read_observation (u_cache_obs (cd_usage c)) (u_cache_obs update) in
      let usage := if bool_decide (u_completeness update = Unavailable) then cd_usage c else update in
      Ok (MkCollected (cd_id c) (cd_model c) (cd_text c) (cd_refusal c) (cd_tools c) (with_obs observation usage) (cd_finish c))
  | EvFinish reason => Ok (MkCollected (cd_id c) (cd_model c) (cd_text c) (cd_refusal c) (cd_tools c) (cd_usage c) (Some reason))
  | EvError error => Err (Transport (pv_message error))
  end.
Fixpoint collect_events (es : Events) (c : Collected) : result ProviderError Collected :=
  match es with [] => Ok c | e :: es => c ← collect_event e c; collect_events es c end.
Definition aggregate_stream (stream : Events * option ProviderError) : result ProviderError ChatResponseV1 :=
  c ← collect_events stream.1 collected_new;
  match stream.2 with
  | Some e => Err e
  | None =>
      Ok (MkResponse (cd_id c) (cd_model c)
            (MkOutput (ContentText <$> filled (cd_text c)) ((cd_tools c).*2) (filled (cd_refusal c))) (cd_finish c) (cd_usage c)
            {["openai_responses" := JObject [("transport", JStr "chatgpt_codex_stream_aggregate")]]})
  end.
