(* ===== verification/StreamDecodeProps.v ===== *)
(** What the stream decoders guarantee: the events do not depend on how the
    bytes were cut, completed arguments are delivered exactly, and the
    decorator adds observations and changes nothing else. *)

From stdpp Require Import pretty.
From S2P Require Import Prelude Text Headers Usage Json UsageParse LineSplit StreamUsage Passthrough Attempt Accounting StreamEncoder ChatRequest OpenAiStream AnthropicStream ResponsesStream ResponseCodec StreamDecode.

(** ** The splitter, one chunk at a time *)

(** The splitter has taken every line out and holds [rest]. *)
Record holds (l : LineSplitter) (rest : list Z) : Prop := {
  ho_inv : exists n, splitter_inv l n;
  ho_sse : ls_sse l = false;
  ho_skip : ls_skip_lf l = false;
  ho_rest : remainder l = rest;
  ho_plain : plain false rest;
  ho_budget : ls_budget l = MAX_STREAM_LINE_BYTES;
  ho_searched : (length (ls_buf l) <= ls_searched_to l)%nat }.

Lemma holds_new : holds (splitter_new MAX_STREAM_LINE_BYTES) [].
Proof. split; try done; [|constructor]. exists 0%nat. split; try done; [constructor|]. by exists 0%nat. Qed.

Lemma next_line_searched l l' : next_line l = (None, l') -> (length (ls_buf l') <= ls_searched_to l')%nat.
Proof.
  unfold next_line. case_bool_decide as Hl; [by intros [= <-]|]. destruct (LineSplit.position _ _); [done|]. by intros [= <-].
Qed.
Lemma drain_searched k : forall l n, splitter_inv l n -> (length (remainder l) < k)%nat ->
  (length (ls_buf (drain_fuel k l).2) <= ls_searched_to (drain_fuel k l).2)%nat.
Proof.
  induction k as [|k IH]; intros l n Hi Hk; [lia|]. cbn [drain_fuel]. pose proof (next_line_spec l n Hi) as Hn.
  destruct (next_line l) as [[line|] l1] eqn:E.
  - destruct Hn as (Hi1 & _ & _ & _ & Hlen). specialize (IH l1 n Hi1 ltac:(lia)). by destruct (drain_fuel k l1).
  - by apply next_line_searched in E.
Qed.

(** Pushing a chunk and taking the lines out is the reference. *)
Lemma drain_pushed l rest c : holds l rest ->
  exists lines rest' l', drain (splitter_push l c) = (lines, l') /\ holds l' rest' /\ split_ref false false rest c = (lines, (rest', false)).
Proof.
  intros [[n Hi] Hs Hk Hr Hp Hb _]. pose proof (push_inv l n c Hi) as Hpi.
  pose proof (drain_fuel_spec _ (splitter_push l c) _ Hpi (Nat.lt_succ_diag_r _)) as Hd.
  pose proof (drain_searched _ (splitter_push l c) _ Hpi (Nat.lt_succ_diag_r _)) as Hse. unfold drain.
  destruct (drain_fuel _ _) as [lines l1]. destruct Hd as (Hi1 & Hs1 & Hb1 & Hr1 & Hp1 & Hk1). cbn [splitter_push ls_sse ls_budget snd] in *.
  rewrite Hs in Hs1. rewrite Hs1 in Hp1. rewrite Hb in Hb1.
  unfold pending_ref in Hr1. rewrite (push_remainder l n) in Hr1 by done. cbn [splitter_push ls_sse ls_skip_lf] in Hr1. rewrite Hs, Hk, Hr in Hr1.
  rewrite <- split_ref_pending in Hr1 by done.
  assert (Hk' : ls_skip_lf l1 = false).
  { pose proof (f_equal (fun x => x.2.2) Hr1) as H. cbn in H. rewrite <- H. clear. generalize rest. induction c as [|b c IH]; intros acc; cbn; [done|].
    destruct (terminator false b); [|apply IH]. specialize (IH []). by destruct (split_ref false false [] c) as [? []]. }
  rewrite Hk' in Hr1. exists lines, (remainder l1), l1. split; [done|]. split; [|done]. by split; [eexists| | | | | |].
Qed.
Lemma over_budget_holds l rest : holds l rest -> over_budget l = (MAX_STREAM_LINE_BYTES <? Z.of_nat (length rest)).
Proof. intros [_ _ _ <- _ Hb _]. unfold over_budget, remainder. by rewrite Hb, length_drop. Qed.

(** The flush makes a line of what is left. *)
Lemma flush_holds l rest : holds l rest ->
  match flush_newline l with
  | (false, _) => rest = []
  | (true, l1) => rest <> [] /\ exists l', drain (splitter_push l1 []) = ([rest ++ [LF]], l') /\ holds l' []
  end.
Proof.
  intros [[n Hi] Hs Hk Hr Hp Hb Hse]. unfold flush_newline. rewrite bool_decide_eq_false_2 by lia.
  case_bool_decide as Hlen.
  { unfold remainder in Hr. by rewrite drop_ge in Hr by lia. }
  destruct Hi as [Hc Hs' Hpl Hsk (r & Hn & Hsc & Hco)]. unfold remainder in Hr.
  split. { intros ->. apply (f_equal length) in Hr. rewrite length_drop in Hr. cbn in Hr. lia. }
  set (l1 := MkSplitter _ _ _ _ _ _ _ _).
  assert (Hi1 : splitter_inv (splitter_push l1 []) (n + 1)).
  { unfold l1, splitter_push. split; cbn; rewrite ?app_nil_r, ?length_app; cbn; try lia; [| |exists r; lia].
    - unfold remainder. cbn. rewrite drop_app_le, take_app_le by (rewrite ?length_drop; lia). rewrite Hr, Hs. by apply Forall_take.
    - by rewrite Hk. }
  assert (Hrem : remainder (splitter_push l1 []) = rest ++ [LF]).
  { unfold remainder, l1. cbn. rewrite app_nil_r, drop_app_le by lia. by rewrite Hr. }
  pose proof (drain_fuel_spec _ (splitter_push l1 []) _ Hi1 (Nat.lt_succ_diag_r _)) as Hd.
  pose proof (drain_searched _ (splitter_push l1 []) _ Hi1 (Nat.lt_succ_diag_r _)) as Hse1. unfold drain.
  destruct (drain_fuel _ _) as [lines l2]. destruct Hd as (Hi2 & Hs2 & Hb2 & Hr2 & Hp2 & Hk2). cbn [snd] in *.
  unfold pending_ref in Hr2. rewrite Hrem in Hr2. cbn [splitter_push l1 ls_sse ls_skip_lf] in Hr2. rewrite Hs, Hk, split_ref_plain in Hr2 by done.
  cbn in Hr2. injection Hr2 as <- Hrest Hskip. exists l2. split; [done|]. cbn [splitter_push l1 ls_sse ls_budget] in *.
  split; try done; try congruence. by eexists.
Qed.

(** ** One pass over the bytes *)

(** A chunk of usage alone. *)
Definition usage_chunk (attempts : Z) (usage : option ParsedUsage) : StreamChunk := MkChunk [] usage None None attempts true.

(** Every line, when it is not complete yet, is within the bound. *)
Definition within_from (rest bs : list Z) : Prop :=
  forall k, Z.of_nat (length (split_ref false false rest (take k bs)).2.1) <= MAX_STREAM_LINE_BYTES.
Definition lines_within (bs : list Z) : Prop := within_from [] bs.
Lemma within_now rest bs : within_from rest bs -> Z.of_nat (length rest) <= MAX_STREAM_LINE_BYTES.
Proof. intros H. exact (H 0%nat). Qed.
Lemma within_pushed rest c bs lines rest1 : within_from rest (c ++ bs) -> split_ref false false rest c = (lines, (rest1, false)) -> within_from rest1 bs.
Proof.
  intros Hw Href k. specialize (Hw (length c + k)%nat). rewrite take_app_add, split_ref_app, Href in Hw.
  by destruct (split_ref false false rest1 _) as [? []].
Qed.

(** A note of a running total, which the incremental families publish between
    the events of the stream. *)
Definition is_note (e : ChatStreamEventV1) : bool := match e with EvUsage u => bool_decide (u_completeness u = Partial) | _ => false end.
Definition notes (es : Events) : Events := List.filter is_note es.
Definition content (es : Events) : Events := List.filter (fun e => negb (is_note e)) es.
Definition no_notes (es : Events) : Prop := Forall (fun e => is_note e = false) es.

Lemma notes_app a b : notes (a ++ b) = notes a ++ notes b.
Proof. apply List.filter_app. Qed.
Lemma content_app a b : content (a ++ b) = content a ++ content b.
Proof. apply List.filter_app. Qed.
Lemma no_notes_split es : no_notes es -> notes es = [] /\ content es = es.
Proof.
  unfold notes, content. induction 1 as [|e es He _ [IH1 IH2]]; [done|]. cbn. rewrite He. cbn. by rewrite IH1, IH2.
Qed.

(** The total that a chunk makes known, if it moved since the last one. *)
Definition fresh (incremental : bool) (p : option ParsedUsage) (c : StreamChunk) : list UsageV2 :=
  match incremental, ck_usage c, ck_usage_running c with
  | true, None, Some r => if bool_decide (Some r = p) then [] else [with_verdict Partial (ck_attempts c) (parsed_usage r)]
  | _, _, _ => []
  end.
Definition latest (incremental : bool) (p : option ParsedUsage) (c : StreamChunk) : option ParsedUsage :=
  match incremental, ck_usage c, ck_usage_running c with true, None, Some r => Some r | _, _, _ => p end.
Fixpoint running_totals (incremental : bool) (p : option ParsedUsage) (chunks : list StreamChunk) : list UsageV2 :=
  match chunks with
  | [] => []
  | c :: chunks => fresh incremental p c ++ running_totals incremental (latest incremental p c) chunks
  end.
Lemma fresh_notes incremental p c : notes (EvUsage <$> fresh incremental p c) = EvUsage <$> fresh incremental p c
  /\ content (EvUsage <$> fresh incremental p c) = [].
Proof.
  unfold fresh. destruct incremental, (ck_usage c), (ck_usage_running c); try done. by case_bool_decide.
Qed.

(** A decoder keeps its metering apart: its steps do not depend on the totals
    that were published, and only a running total is a note. *)
Record keeps_apart (dec : StreamDecoder) (incremental : bool) (R : option ParsedUsage -> sd_state dec -> sd_state dec -> Prop) : Prop := {
  ka_new : R None (sd_new dec) (sd_new dec);
  ka_step p n v d d' : R p d d' -> (sd_step dec n v d).1 = (sd_step dec n v d').1 /\ R p (sd_step dec n v d).2 (sd_step dec n v d').2;
  ka_running p c d d' : R p d d' -> ck_usage c = None ->
    (sd_meter dec c d).1 = EvUsage <$> fresh incremental p c /\ R (latest incremental p c) (sd_meter dec c d).2 d';
  ka_final p c u d d' : R p d d' -> ck_usage c = Some u ->
    (sd_meter dec c d).1 = (sd_meter dec (usage_chunk (ck_attempts c) (Some u)) d').1
    /\ R p (sd_meter dec c d).2 (sd_meter dec (usage_chunk (ck_attempts c) (Some u)) d').2;
  ka_quiet n d : sd_meter dec (usage_chunk n None) d = ([], d);
  ka_finish p d d' : R p d d' -> sd_finish dec d = sd_finish dec d';
  ka_step_plain n v d : no_notes (sd_step dec n v d).1.1;
  ka_final_plain c u d : ck_usage c = Some u -> no_notes (sd_meter dec c d).1;
  ka_finish_plain d : no_notes (sd_finish dec d) }.

Section Whole.
Context (detail : string) (dec : StreamDecoder) (attempts : Z) (incremental : bool).
Context (R : option ParsedUsage -> sd_state dec -> sd_state dec -> Prop) (Hka : keeps_apart dec incremental R).
Notation run := (run_values dec).

Lemma run_values_app n vs ws d : run n (vs ++ ws) d =
  match run n vs d with
  | (es, Some e, d) => (es, Some e, d)
  | (es, None, d) => let '(es', err, d) := run n ws d in (es ++ es', err, d)
  end.
Proof.
  revert d. induction vs as [|v vs IH]; intros d; cbn; [by destruct (run n ws d) as [[]]|].
  destruct (sd_step dec n v d) as [[es [e|]] d1]; [done|]. rewrite IH. destruct (run n vs d1) as [[es1 [e|]] d2]; [done|].
  destruct (run n ws d2) as [[es2 err] d3]. by rewrite app_assoc.
Qed.
Lemma run_values_apart p n vs : forall d d', R p d d' ->
  (run n vs d).1 = (run n vs d').1 /\ R p (run n vs d).2 (run n vs d').2 /\ no_notes (run n vs d').1.1.
Proof.
  induction vs as [|v vs IH]; intros d d' Hr; cbn; [by repeat constructor|].
  destruct (ka_step _ _ _ Hka p n v d d' Hr) as [He Hr1]. pose proof (ka_step_plain _ _ _ Hka n v d') as Hp.
  destruct (sd_step dec n v d) as [[es [e|]] d1], (sd_step dec n v d') as [[es' [e'|]] d1']; cbn in *; simplify_eq; [done|].
  destruct (IH d1 d1' Hr1) as (He2 & Hr2 & Hp2). destruct (run n vs d1) as [[es2 err] d2], (run n vs d1') as [[es2' err'] d2']; cbn in *; simplify_eq.
  split; [done|]. split; [done|]. by apply Forall_app.
Qed.

(** What follows the data: a line without its newline, and the end. *)
Definition last_events (rest : list Z) (d : sd_state dec) : Events * option ProviderError :=
  let tail := if bool_decide (rest = []) then [] else option_list (sd_read dec (rest ++ [LF])) in
  match run 1 tail d with
  | (ts, Some e, _) => (ts, Some e)
  | (ts, None, d) => (ts ++ sd_finish dec d, None)
  end.
(** Bytes after [rest] are read in one pass, and then [k] goes on. *)
Definition reading (rest bs : list Z) (d : sd_state dec) (k : list Z -> sd_state dec -> Events * option ProviderError)
    : Events * option ProviderError :=
  let '(lines, (rest, _)) := split_ref false false rest bs in
  match run attempts (omap (sd_read dec) lines) d with
  | (es, Some e, _) => (es, Some e)
  | (es, None, d) => let '(es', err) := k rest d in (es ++ es', err)
  end.
Definition ended (failure : option ProviderError) (rest : list Z) (d : sd_state dec) : Events * option ProviderError :=
  match failure with Some e => ([], Some e) | None => last_events rest d end.
(** A stream in one pass: the bytes up to the chunk that carries the final
    usage, that usage, and the bytes after it. *)
Definition whole_stream (before : list Z) (usage : option ParsedUsage) (after : list Z) (failure : option ProviderError) : Events * option ProviderError :=
  reading [] before (sd_new dec) (fun rest d =>
    let '(ms, d) := sd_meter dec (usage_chunk attempts usage) d in
    let '(es, err) := reading rest after d (ended failure) in (ms ++ es, err)).

(** The events of the loop are those of one pass, with notes in between. *)
Definition tells (p : option ParsedUsage) (chunks : list StreamChunk) (got want : Events * option ProviderError) : Prop :=
  content got.1 = want.1 /\ got.2 = want.2 /\ notes got.1 `prefix_of` EvUsage <$> running_totals incremental p chunks
  /\ (got.2 = None -> notes got.1 = EvUsage <$> running_totals incremental p chunks).

Lemma reference_skips_nothing bs : forall acc, (split_ref false false acc bs).2.2 = false.
Proof.
  induction bs as [|b bs IH]; intros acc; cbn; [done|]. destruct (terminator false b); [|apply IH].
  specialize (IH []). by destruct (split_ref false false [] bs) as [? []].
Qed.
Lemma reading_app rest a b d k : reading rest (a ++ b) d k = reading rest a d (fun rest d => reading rest b d k).
Proof.
  unfold reading. rewrite split_ref_app. pose proof (reference_skips_nothing a rest) as Hs. destruct (split_ref false false rest a) as [l1 [r1 s1]]. cbn in Hs. subst s1.
  destruct (split_ref false false r1 b) as [l2 [r2 s2]]. rewrite omap_app, run_values_app.
  destruct (run attempts (omap (sd_read dec) l1) d) as [[es [e|]] d1]; [done|].
  destruct (run attempts (omap (sd_read dec) l2) d1) as [[es2 [e|]] d2]; [done|]. destruct (k r2 d2). by rewrite app_assoc.
Qed.
Lemma reading_nothing rest d k : reading rest [] d k = k rest d.
Proof. unfold reading. cbn. by destruct (k rest d). Qed.

Lemma tells_after es p c chunks got want : no_notes es -> tells (latest incremental p c) chunks got want ->
  tells p (c :: chunks) (es ++ (EvUsage <$> fresh incremental p c) ++ got.1, got.2) (es ++ want.1, want.2).
Proof.
  intros [Hn Hc]%no_notes_split (H1 & H2 & H3 & H4). destruct (fresh_notes incremental p c) as [Hf1 Hf2].
  unfold tells. cbn [fst snd running_totals]. rewrite !content_app, !notes_app, Hn, Hc, Hf1, Hf2, H1, fmap_app. cbn [app].
  split; [done|]. split; [done|]. split; [by apply prefix_app|]. intros H. by rewrite H4.
Qed.
Lemma tells_stop es e p chunks : no_notes es -> tells p chunks (es, Some e) (es, Some e).
Proof. intros [Hn Hc]%no_notes_split. unfold tells. cbn [fst snd running_totals]. rewrite Hn, Hc. split; [done|]. split; [done|]. split; [apply prefix_nil|done]. Qed.
Lemma tells_plain es p chunks got want : no_notes es -> tells p chunks got want -> tells p chunks (es ++ got.1, got.2) (es ++ want.1, want.2).
Proof. intros [Hn Hc]%no_notes_split (H1 & H2 & H3 & H4). unfold tells. cbn [fst snd running_totals]. by rewrite !content_app, !notes_app, Hn, Hc, H1. Qed.

(** The end, with its flush. *)
Lemma end_tells failure l rest p d d' : holds l rest -> R p d d' ->
  tells p [] (flatten_turns (run_items detail dec (Err <$> option_list failure) (l, d))) (ended failure rest d').
Proof.
  intros Hl Hr. destruct failure as [e|]; cbn [ended]; [apply tells_stop; constructor|].
  change (run_items detail dec (Err <$> option_list None) (l, d)) with [run_end detail dec (l, d)]. cbn [flatten_turns].
  unfold run_end, last_events. cbn [fst snd]. pose proof (flush_holds l rest Hl) as Hf. destruct (flush_newline l) as [[] l2].
  - destruct Hf as (Hne & l3 & Hd & Hl3). rewrite bool_decide_eq_false_2 by done. unfold run_chunk. cbn [tail_chunk ck_data ck_attempts fst snd].
    rewrite Hd. cbn [omap list_omap].
    replace (match sd_read dec (rest ++ [LF]) with Some y => [y] | None => [] end) with (option_list (sd_read dec (rest ++ [LF]))) by (by destruct (sd_read _ _)).
    destruct (run_values_apart p 1 (option_list (sd_read dec (rest ++ [LF]))) d d' Hr) as (He & Hr1 & Hp).
    destruct (run 1 _ d) as [[ts err] d1], (run 1 _ d') as [[ts' err'] d1']. cbn [fst snd] in *. simplify_eq.
    destruct err' as [e|]; [cbn; by apply tells_stop|]. rewrite (over_budget_holds _ _ Hl3). change (MAX_STREAM_LINE_BYTES <? Z.of_nat (length [])) with false. cbn iota.
    destruct (ka_running _ _ _ Hka p tail_chunk d1 d1' Hr1 eq_refl) as [Hm Hr2].
    replace (fresh incremental p tail_chunk) with (@nil UsageV2) in Hm by (unfold fresh; by destruct incremental).
    replace (latest incremental p tail_chunk) with p in Hr2 by (unfold latest; by destruct incremental).
    destruct (sd_meter dec tail_chunk d1) as [ms d2]. cbn [fst snd] in *. rewrite Hm. cbn. rewrite (ka_finish _ _ _ Hka p d2 d1' Hr2), !app_nil_r.
    pose proof (proj2 (Forall_app _ _ _) (conj Hp (ka_finish_plain _ _ _ Hka d1'))) as [Hn Hc]%no_notes_split.
    unfold tells. cbn [fst snd running_totals]. by rewrite Hn, Hc.
  - rewrite Hf, bool_decide_eq_true_2 by done. cbn. rewrite (ka_finish _ _ _ Hka p d d' Hr), !app_nil_r.
    destruct (no_notes_split _ (ka_finish_plain _ _ _ Hka d')) as [Hn Hc]. unfold tells. cbn [fst snd running_totals]. by rewrite Hn, Hc.
Qed.

(** Chunks without final usage, whatever running totals and observations they
    carry. *)
Lemma chunks_tell chunks items more k : Forall (fun c => ck_usage c = None /\ ck_attempts c = attempts) chunks -> forall l rest p d d',
  holds l rest -> R p d d' -> within_from rest (concat (ck_data <$> chunks) ++ more) ->
  (forall l rest p d d', holds l rest -> R p d d' -> within_from rest more ->
     tells p items.1 (flatten_turns (run_items detail dec items.2 (l, d))) (k rest d')) ->
  tells p (chunks ++ items.1) (flatten_turns (run_items detail dec ((Ok <$> chunks) ++ items.2) (l, d)))
    (reading rest (concat (ck_data <$> chunks)) d' k).
Proof.
  intros Hch. induction Hch as [|c chunks [Hu Ha] Hch IH]; intros l rest p d d' Hl Hr Hw Hk.
  - cbn [fmap list_fmap app concat] in *. unfold reading. cbn [split_ref omap list_omap run_values]. specialize (Hk l rest p d d' Hl Hr Hw).
    by destruct (k rest d').
  - rewrite !fmap_cons. rewrite fmap_cons in Hw. cbn [app run_items concat] in *. rewrite <- app_assoc in Hw. unfold run_chunk. cbn [fst snd].
    destruct (drain_pushed l rest (ck_data c) Hl) as (lines & rest1 & l1 & -> & Hl1 & Href). pose proof (within_pushed _ _ _ _ _ Hw Href) as Hw1.
    unfold reading. rewrite split_ref_app, Href, Ha.
    destruct (split_ref false false rest1 (concat (ck_data <$> chunks))) as [lines2 [rest2 k2]] eqn:E2. rewrite omap_app, run_values_app.
    destruct (run_values_apart p attempts (omap (sd_read dec) lines) d d' Hr) as (He & Hr1 & Hp).
    destruct (run attempts (omap (sd_read dec) lines) d) as [[es err] d1], (run attempts (omap (sd_read dec) lines) d') as [[es' err'] d1'].
    cbn [fst snd] in *. simplify_eq. destruct err' as [e|]; [cbn; by apply tells_stop|].
    rewrite (over_budget_holds _ _ Hl1), (proj2 (Z.ltb_ge _ _)) by (by eapply within_now).
    destruct (ka_running _ _ _ Hka p c d1 d1' Hr1 Hu) as [Hm Hr2]. destruct (sd_meter dec c d1) as [ms d2]. cbn [fst snd] in *. subst ms.
    cbn [flatten_turns tn_error tn_events]. specialize (IH l1 rest1 _ d2 d1' Hl1 Hr2 Hw1 Hk). unfold reading in IH. rewrite E2 in IH.
    apply (tells_after es' p c) in IH; [|done]. destruct (flatten_turns _) as [ges gerr]. cbn [fst snd] in *. rewrite <- app_assoc.
    destruct (run attempts (omap (sd_read dec) lines2) d1') as [[es2 [e|]] d2']; [exact IH|]. destruct (k rest2 d2'). cbn [fst snd] in *. by rewrite <- app_assoc.
Qed.

(** The chunk that carries the final usage. *)
Lemma final_tells c u items more k l rest p d d' : ck_usage c = Some u -> ck_attempts c = attempts ->
  holds l rest -> R p d d' -> within_from rest (ck_data c ++ more) ->
  (forall l rest p d d', holds l rest -> R p d d' -> within_from rest more ->
     tells p items.1 (flatten_turns (run_items detail dec items.2 (l, d))) (k rest d')) ->
  tells p (c :: items.1) (flatten_turns (run_items detail dec (Ok c :: items.2) (l, d)))
    (reading rest (ck_data c) d' (fun rest d => let '(ms, d) := sd_meter dec (usage_chunk attempts (Some u)) d in
                                                 let '(es, err) := k rest d in (ms ++ es, err))).
Proof.
  intros Hu Ha Hl Hr Hw Hk. cbn [run_items]. unfold run_chunk, reading. cbn [fst snd].
  destruct (drain_pushed l rest (ck_data c) Hl) as (lines & rest1 & l1 & -> & Hl1 & Href). pose proof (within_pushed _ _ _ _ _ Hw Href) as Hw1.
  rewrite Href, Ha. destruct (run_values_apart p attempts (omap (sd_read dec) lines) d d' Hr) as (He & Hr1 & Hp).
  destruct (run attempts _ d) as [[es err] d1], (run attempts _ d') as [[es' err'] d1'].
  cbn [fst snd] in *. simplify_eq. destruct err' as [e|]; [cbn; by apply tells_stop|].
  rewrite (over_budget_holds _ _ Hl1), (proj2 (Z.ltb_ge _ _)) by (by eapply within_now).
  pose proof (ka_final_plain _ _ _ Hka c u d1 Hu) as Hfp. destruct (ka_final _ _ _ Hka p c u d1 d1' Hr1 Hu) as [Hm Hr2].
  destruct (sd_meter dec c d1) as [ms d2], (sd_meter dec (usage_chunk (ck_attempts c) (Some u)) d1') as [ms' d2']. cbn [fst snd] in *. subst ms'.
  cbn [flatten_turns tn_error tn_events]. specialize (Hk l1 rest1 p d2 d2' Hl1 Hr2 Hw1).
  pose proof (tells_plain (es' ++ ms) p _ _ _ (proj2 (Forall_app _ _ _) (conj Hp Hfp)) Hk) as Ht.
  assert (Hlast : running_totals incremental p (c :: items.1) = running_totals incremental p items.1).
  { cbn. unfold fresh, latest. rewrite Hu. by destruct incremental. }
  unfold tells in *. rewrite Hlast. destruct (flatten_turns _), (k rest1 d2'). cbn [fst snd] in *. by rewrite app_assoc.
Qed.
End Whole.

Section Families.
Context (from_slice : list Z -> option Json) (to_string : Json -> string) (model detail : string).

(** The six decoders, and whether they publish running totals. *)
Definition decoders : list (StreamDecoder * bool) :=
  [(openai_decoder from_slice model, false); (anthropic_decoder from_slice model, true); (gemini_decoder from_slice to_string model, true);
   (responses_decoder from_slice model, false); (cohere_decoder from_slice model, false); (ollama_decoder from_slice to_string model, false)].

Definition by_running {S} (p : option ParsedUsage) (d d' : S * Meter) : Prop :=
  d.1 = d'.1 /\ mt_emitted d.2 = mt_emitted d'.2 /\ mt_running d.2 = p.
Definition by_equality {S} (p : option ParsedUsage) (d d' : S) : Prop := d = d' /\ p = None.

(** The events of a step are no notes. *)
Ltac plainly := repeat first [done | apply Forall_nil; exact I | apply Forall_cons; split | apply Forall_app; split | case_match | case_bool_decide].
Lemma anthropic_plain v s : no_notes (anthropic_step model v s).1.
Proof. unfold anthropic_step, anthropic_block_delta, close_tool, no_notes. by plainly. Qed.
Lemma cohere_plain v s : no_notes (cohere_step model v s).1.
Proof. unfold cohere_step, close_tool, no_notes. by plainly. Qed.
Lemma whole_calls_plain calls : forall i, no_notes (whole_calls i calls).
Proof. induction calls as [|c calls IH]; intros i; [constructor|]. cbn [whole_calls]. apply Forall_app. split; [by repeat constructor|apply IH]. Qed.
Lemma ollama_plain v s : no_notes (ollama_step to_string model v s).1.
Proof.
  unfold ollama_step. cbn [fst]. unfold no_notes. rewrite !Forall_app. split; [by plainly|]. split; [by plainly|]. split; [apply whole_calls_plain|by plainly].
Qed.
Lemma gemini_part_events_plain parts : forall i, no_notes (gemini_parts_events to_string i parts).
Proof.
  induction parts as [|part parts IH]; intros i; [constructor|]. cbn [gemini_parts_events]. apply Forall_app. split; [|apply IH].
  unfold gemini_part_events. by plainly.
Qed.
Lemma gemini_plain v s : no_notes (gemini_step to_string model v s).1.
Proof. unfold gemini_step. cbn [fst]. apply Forall_app. split; [by plainly|apply gemini_part_events_plain]. Qed.
Lemma calls_plain calls : forall open, no_notes (decode_calls calls open).1.
Proof.
  induction calls as [|call calls IH]; intros open; [constructor|]. cbn [decode_calls]. destruct (decode_call call open) as [es o] eqn:E.
  specialize (IH o). destruct (decode_calls calls o) as [es' o']. cbn [fst] in *. apply Forall_app. split; [|done].
  unfold decode_call in E. repeat case_match; simplify_eq; by plainly.
Qed.
Lemma openai_plain n v d : no_notes (decode_value model n v d).1.
Proof.
  unfold decode_value. assert (Hd : no_notes (match first_choice v "delta" with Some delta => decode_delta delta (od_open_tools d) | None => ([], od_open_tools d) end).1).
  { destruct (first_choice v "delta") as [delta|]; [|constructor]. unfold decode_delta.
    assert (Hc : no_notes (match jget delta "tool_calls" ≫= jas_array with Some calls => decode_calls calls (od_open_tools d) | None => ([], od_open_tools d) end).1)
      by (destruct (_ ≫= _); [apply calls_plain|constructor]).
    destruct (match jget delta "tool_calls" ≫= jas_array with Some calls => decode_calls calls (od_open_tools d) | None => ([], od_open_tools d) end) as [calls open].
    cbn [fst] in *. unfold str_event, no_notes. rewrite !Forall_app. split; [by plainly|]. split; [by plainly|]. split; [by plainly|done]. }
  destruct (match first_choice v "delta" with Some delta => decode_delta delta (od_open_tools d) | None => ([], od_open_tools d) end) as [deltas open]. cbn [fst] in Hd.
  assert (He : forall l : list (Z * unit), no_notes (EvToolCallEnd <$> l.*1)) by (intros l; induction l; by constructor).
  destruct (first_choice v "finish_reason" ≫= jas_str) as [reason|]; cbn [fst]; unfold no_notes; rewrite !Forall_app; (split; [by plainly|]; split; [done|]; split; [by plainly|]);
    [split; [apply He|by plainly]|constructor].
Qed.
Lemma run_ended_plain n outcome event s : no_notes (run_ended n outcome event s).1.
Proof.
  assert (He : forall l : list (Z * StreamedToolArguments), no_notes (EvToolCallEnd <$> l.*1)) by (intros l; induction l; by constructor).
  unfold run_ended. cbn [fst]. unfold no_notes. rewrite !Forall_app. split; [by plainly|]. split; [apply He|by plainly].
Qed.
Lemma responses_plain n v s : no_notes (responses_step model n v s).1.1.
Proof.
  unfold responses_step. destruct (responses_start model (default "" (str_at v "type")) v s) as [start s1] eqn:E1.
  assert (H1 : no_notes start) by (unfold responses_start in E1; repeat case_match; simplify_eq; by plainly).
  destruct (responses_event n _ v s1) as [[es err] s2] eqn:E2. cbn [fst]. apply Forall_app. split; [done|].
  unfold responses_event in E2.
  repeat (case_bool_decide; [try (pose proof (run_ended_plain n "success" v s1); pose proof (run_ended_plain n "incomplete" v s1); pose proof (run_ended_plain n "error" v s1);
     unfold text_delta, item_added, arguments_delta, arguments_done, item_done, filled_delta in E2; repeat case_match; simplify_eq; by plainly)|]).
  by simplify_eq.
Qed.

(** A decoder whose steps do not see the meter. *)
Lemma total_apart {S} (step : Json -> S -> Events * S) p n v (d d' : S * Meter) : by_running p d d' ->
  (total_step step n v d).1 = (total_step step n v d').1 /\ by_running p (total_step step n v d).2 (total_step step n v d').2.
Proof. intros (H1 & H2 & H3). unfold total_step. rewrite H1. by destruct (step v d'.1). Qed.
Lemma total_plain {S} (step : Json -> S -> Events * S) n v (d : S * Meter) : (forall v s, no_notes (step v s).1) -> no_notes (total_step step n v d).1.1.
Proof. intros H. unfold total_step. specialize (H v d.1). by destruct (step v d.1). Qed.
Lemma running_meter {S} p c (d d' : S * Meter) : by_running p d d' -> ck_usage c = None ->
  (metered meter_running c d).1 = EvUsage <$> fresh true p c /\ by_running (latest true p c) (metered meter_running c d).2 d'.
Proof.
  intros (H1 & H2 & H3) Hu. unfold metered, meter_running, fresh, latest. rewrite Hu. destruct (ck_usage_running c) as [r|]; [|done].
  rewrite H3. case_bool_decide; (split; [done|]; split; [done|]; split; [done|]); cbn; congruence.
Qed.
Lemma running_final {S} p c u (d d' : S * Meter) : by_running p d d' -> ck_usage c = Some u ->
  (metered meter_running c d).1 = (metered meter_running (usage_chunk (ck_attempts c) (Some u)) d').1
  /\ by_running p (metered meter_running c d).2 (metered meter_running (usage_chunk (ck_attempts c) (Some u)) d').2.
Proof.
  intros (H1 & H2 & H3) Hu. unfold metered, meter_running, meter_final. rewrite Hu. cbn. rewrite H2.
  destruct (mt_emitted d'.2) eqn:E; (split; [done|]; split; [done|]; split; [|done]); cbn; congruence.
Qed.
Lemma final_plain {S} c u (d : S * Meter) : ck_usage c = Some u -> no_notes (metered meter_running c d).1 /\ no_notes (metered meter_final c d).1.
Proof. intros Hu. unfold metered, meter_running, meter_final. rewrite Hu. destruct (mt_emitted d.2); by repeat constructor. Qed.
Lemma keeps_running {S} read (step : Json -> S -> Events * S) s0 finish : (forall v s, no_notes (step v s).1) ->
  (forall s m m', finish (s, m) = finish (s, m')) -> (forall d, no_notes (finish d)) ->
  keeps_apart (MkStreamDecoder (S * Meter) (s0, meter_new) read (total_step step) (metered meter_running) finish) true by_running.
Proof.
  intros Hs Hf Hp. split; cbn.
  - done.
  - intros p n v d d'. apply total_apart.
  - intros p c d d'. apply running_meter.
  - intros p c u d d'. apply running_final.
  - intros n [s m]. done.
  - intros p [s m] [s' m'] (H & _). cbn in H. subst. apply Hf.
  - intros n v d. by apply total_plain.
  - intros c u d Hu. by eapply final_plain.
  - done.
Qed.
Lemma keeps_equal dec : (forall c d, ck_usage c = None -> sd_meter dec c d = ([], d)) ->
  (forall c u d, ck_usage c = Some u -> sd_meter dec c d = sd_meter dec (usage_chunk (ck_attempts c) (Some u)) d /\ no_notes (sd_meter dec c d).1) ->
  (forall n v d, no_notes (sd_step dec n v d).1.1) -> (forall d, no_notes (sd_finish dec d)) -> keeps_apart dec false by_equality.
Proof.
  intros Hq Hm Hs Hf. split.
  - done.
  - by intros p n v d d' [-> ->].
  - intros p c d d' [-> ->] Hu. by rewrite Hq.
  - intros p c u d d' [-> ->] Hu. by rewrite (proj1 (Hm c u d' Hu)).
  - intros n d. by apply Hq.
  - by intros p d d' [-> ->].
  - done.
  - intros c u d Hu. by apply (Hm c u d).
  - done.
Qed.

Lemma decoders_keep_apart dec inc : (dec, inc) ∈ decoders -> exists R, keeps_apart dec inc R.
Proof.
  unfold decoders. rewrite !elem_of_cons, elem_of_nil. intros [H|[H|[H|[H|[H|[H|[]]]]]]]; injection H as -> ->.
  - exists by_equality. apply keeps_equal.
    + intros c d Hu. cbn. by rewrite Hu.
    + intros c u d Hu. cbn. rewrite Hu. destruct (od_emitted_usage d); by repeat constructor.
    + intros n v d. cbn. pose proof (openai_plain n v d). by destruct (decode_value model n v d).
    + constructor.
  - exists by_running. apply keeps_running; [apply anthropic_plain|done|constructor].
  - exists by_running. apply keeps_running; [apply gemini_plain|done|]. intros [s m]. cbn. destruct (gs_finish s); by repeat constructor.
  - exists by_equality. apply keeps_equal.
    + intros c [] Hu. cbn. unfold meter_final. by rewrite Hu.
    + intros c u [st t us f] Hu. cbn. unfold meter_final. rewrite Hu. cbn. destruct us; by repeat constructor.
    + intros n v d. apply responses_plain.
    + intros d. cbn. destruct (rs_finish d); by repeat constructor.
  - exists by_equality. apply keeps_equal.
    + intros c [s m] Hu. cbn. unfold metered, meter_final. by rewrite Hu.
    + intros c u [s m] Hu. split; [|by eapply final_plain]. cbn. unfold metered, meter_final. by rewrite Hu.
    + intros n v d. apply total_plain, cohere_plain.
    + constructor.
  - exists by_equality. apply keeps_equal.
    + intros c [s m] Hu. cbn. unfold metered, meter_final. by rewrite Hu.
    + intros c u [s m] Hu. split; [|by eapply final_plain]. cbn. unfold metered, meter_final. by rewrite Hu.
    + intros n v d. apply total_plain, ollama_plain.
    + constructor.
Qed.

(** The bytes up to the chunk that carries the final usage, that usage, and
    the bytes after it. *)
Fixpoint cut_at_usage (chunks : list StreamChunk) : list Z * option ParsedUsage * list Z :=
  match chunks with
  | [] => ([], None, [])
  | c :: chunks =>
      match ck_usage c with
      | Some u => (ck_data c, Some u, concat (ck_data <$> chunks))
      | None => let '(before, u, after) := cut_at_usage chunks in (ck_data c ++ before, u, after)
      end
  end.
Lemma cut_without chunks : omap ck_usage chunks = [] -> cut_at_usage chunks = (concat (ck_data <$> chunks), None, [])
  /\ Forall (fun c => ck_usage c = None) chunks.
Proof.
  induction chunks as [|c chunks IH]; [by repeat constructor|]. cbn. destruct (ck_usage c) eqn:Hu; [done|]. intros [-> Hf]%IH.
  split; [done|by constructor].
Qed.
Lemma cut_with chunks : (length (omap ck_usage chunks) <= 1)%nat -> omap ck_usage chunks <> [] ->
  exists before c u after, chunks = before ++ c :: after /\ ck_usage c = Some u
    /\ cut_at_usage chunks = (concat (ck_data <$> before) ++ ck_data c, Some u, concat (ck_data <$> after))
    /\ Forall (fun c => ck_usage c = None) before /\ Forall (fun c => ck_usage c = None) after.
Proof.
  induction chunks as [|c chunks IH]; [done|]. cbn [omap list_omap cut_at_usage]. destruct (ck_usage c) as [u|] eqn:Hu.
  - cbn. intros Hl _. destruct (cut_without chunks) as [_ Hf]; [by apply nil_length_inv; lia|]. exists [], c, u, chunks. by repeat (split; [done|]).
  - intros Hl Hne. destruct (IH Hl Hne) as (before & c' & u & after & -> & Hc & -> & Hb & Ha). exists (c :: before), c', u, after.
    split; [done|]. split; [done|]. split; [by rewrite fmap_cons; cbn; rewrite app_assoc|]. split; [by constructor|done].
Qed.

Lemma stream_tells dec incremental R attempts chunks failure : keeps_apart dec incremental R ->
  Forall (fun c => ck_attempts c = attempts) chunks -> (length (omap ck_usage chunks) <= 1)%nat -> lines_within (concat (ck_data <$> chunks)) ->
  tells incremental None chunks (flatten_turns (turns_of detail dec ((Ok <$> chunks) ++ (Err <$> option_list failure))))
    (let '(before, usage, after) := cut_at_usage chunks in whole_stream dec attempts before usage after failure).
Proof.
  intros Hka Hatt Hone Hw. unfold turns_of.
  assert (Hboth : forall l, Forall (fun c => ck_usage c = None) l -> l ⊆ chunks -> Forall (fun c => ck_usage c = None /\ ck_attempts c = attempts) l).
  { intros l Hl Hs. rewrite Forall_forall in Hatt. rewrite Forall_forall in Hl. apply Forall_forall. intros c Hc. split; [by apply Hl|by apply Hatt, Hs]. }
  assert (Hend : forall l rest p d d', holds l rest -> R p d d' -> within_from rest [] ->
    tells incremental p [] (flatten_turns (run_items detail dec (Err <$> option_list failure) (l, d))) (ended dec failure rest d'))
    by (intros; by eapply (end_tells detail dec incremental R Hka)).
  destruct (decide (omap ck_usage chunks = [])) as [Hno|Hyes].
  - destruct (cut_without chunks Hno) as [-> Hf]. rewrite <- (app_nil_r chunks) at 1. unfold whole_stream.
    eapply (chunks_tell detail dec attempts incremental R Hka chunks ([], _) []); [by apply Hboth|apply holds_new|exact (ka_new _ _ _ Hka)|by rewrite app_nil_r|].
    intros l rest p d d' Hl Hr Hw'. rewrite (ka_quiet _ _ _ Hka), reading_nothing. specialize (Hend l rest p d d' Hl Hr Hw'). cbn [fst snd].
    by destruct (ended dec failure rest d').
  - destruct (cut_with chunks Hone Hyes) as (before & c & u & after & -> & Hu & -> & Hb & Ha).
    assert (Hca : ck_attempts c = attempts) by (rewrite Forall_forall in Hatt; apply Hatt; set_solver).
    unfold whole_stream. rewrite reading_app. rewrite fmap_app, fmap_cons, <- app_assoc. cbn [app].
    eapply (chunks_tell detail dec attempts incremental R Hka before (c :: after, Ok c :: (Ok <$> after) ++ (Err <$> option_list failure))
              (ck_data c ++ concat (ck_data <$> after))); [apply Hboth; [done|set_solver]|apply holds_new|exact (ka_new _ _ _ Hka)| |].
    { revert Hw. unfold lines_within. rewrite fmap_app, fmap_cons, concat_app. by cbn [concat]. }
    intros l rest p d d' Hl Hr Hw'. cbn [fst snd].
    eapply (final_tells detail dec attempts incremental R Hka c u (after, (Ok <$> after) ++ (Err <$> option_list failure))
              (concat (ck_data <$> after)) (fun rest d => reading dec attempts rest (concat (ck_data <$> after)) d (ended dec failure))); try done.
    intros l1 rest1 p1 d1 d1' Hl1 Hr1 Hw1. cbn [fst snd]. rewrite <- (app_nil_r after) at 1.
    eapply (chunks_tell detail dec attempts incremental R Hka after ([], _) []); [apply Hboth; [done|set_solver]|done|done|by rewrite app_nil_r|].
    done.
Qed.

(** C32: However the network cuts a stream, every decoder yields the events of
    one pass over its bytes, the last line with or without its newline: no
    event is lost, doubled or moved at a boundary, as long as no line is
    beyond the bound.  The final usage comes where the chunk that carries it
    ends, an error of the transport after the events of the bytes before it.
    The running totals and cache observations that the chunks carry change
    nothing of this: what the incremental families, Anthropic and Gemini,
    publish in addition are the totals that moved, each once and in order, as
    notes of partial usage between the events, all of them unless the stream
    fails; the other families publish none.  The chunks may carry what the
    pass-through gives them: running totals and observations on any of them
    and the final usage on one at most. *)
Theorem streams_are_read_in_one_pass dec incremental attempts chunks failure :
  (dec, incremental) ∈ decoders -> Forall (fun c => ck_attempts c = attempts) chunks ->
  (length (omap ck_usage chunks) <= 1)%nat -> lines_within (concat (ck_data <$> chunks)) ->
  let got := flatten_turns (turns_of detail dec ((Ok <$> chunks) ++ (Err <$> option_list failure))) in
  let want := let '(before, usage, after) := cut_at_usage chunks in whole_stream dec attempts before usage after failure in
  content got.1 = want.1 /\ got.2 = want.2
  /\ notes got.1 `prefix_of` EvUsage <$> running_totals incremental None chunks
  /\ (got.2 = None -> notes got.1 = EvUsage <$> running_totals incremental None chunks).
Proof. intros Hdec Hatt Hone Hw. destruct (decoders_keep_apart dec incremental Hdec) as [R Hka]. by eapply stream_tells. Qed.

(** The chunks of the pass-through are such chunks. *)
Lemma pass_attempts sniff openai_done upstream : forall st c, Ok c ∈ pass_stream sniff openai_done st upstream -> ck_attempts c = 1.
Proof.
  induction upstream as [|[chunk|e] upstream IH]; intros [l p] c; cbn [pass_stream].
  - unfold pass_end. destruct (ps_finalized p); [by intros ?%not_elem_of_nil|]. cbn [fmap list_fmap]. intros Hc%list_elem_of_singleton. by simplify_eq.
  - destruct (pass_chunk sniff openai_done chunk (l, p)) as [item st] eqn:E. intros [H|H]%elem_of_cons; [|by eapply IH]. simplify_eq.
    unfold pass_chunk in E. destruct (pass_lines _ _ _ _ _) as [terminal [l1 p1]]. by destruct (over_budget l1); simplify_eq.
  - by intros H%list_elem_of_singleton.
Qed.
Lemma terminal_usages items : Forall usage_is_terminal items -> (length (omap ck_usage items) <= terminals items)%nat.
Proof.
  unfold terminals. induction 1 as [|c items Hc _ IH]; [done|]. cbn. destruct (ck_terminal c) eqn:Ht.
  - destruct (ck_usage c); cbn; lia.
  - by rewrite (Hc Ht).
Qed.
Lemma forwarded_chunks_fit object family chunks failure :
  exists items k, forward_stream from_slice object family (upstream_of chunks failure) = (Ok <$> items) ++ (Err <$> option_list (Transport <$> failure))
    /\ concat (ck_data <$> items) = concat chunks /\ (k <= 1)%nat
    /\ Forall (fun c => ck_attempts c = 1) items /\ (length (omap ck_usage items) <= 1)%nat.
Proof.
  destruct (pass_stream_shape (sniff_for_family from_slice object family) (match family with FOpenAiCompat => true | _ => false end) chunks failure _ _ pass_ok_new)
    as (items & k & Ho & Hd & Hk & Hu & Ht & _). exists items, k.
  assert (Hi : forward_stream from_slice object family (upstream_of chunks failure) = (Ok <$> items) ++ (Err <$> option_list (Transport <$> failure))).
  { unfold forward_stream, metered_passthrough_inner. rewrite Ho. unfold items_of. by destruct failure. }
  split; [exact Hi|]. split; [rewrite Hd, concat_app; destruct k as [|[]]; [..|lia]; cbn; by rewrite app_nil_r|]. split; [done|]. split.
  - apply Forall_forall. intros c Hc. eapply pass_attempts. unfold forward_stream, metered_passthrough_inner in Hi. rewrite Hi. apply elem_of_app. left.
    by apply list_elem_of_fmap_2.
  - pose proof (terminal_usages items Hu). cbn in Ht. lia.
Qed.

(** The loop of the OpenAI decoder is the one of [OpenAiStream]. *)
Lemma openai_values attempts values d : run_values (openai_decoder from_slice model) attempts values d =
  let '(es, d) := decode_values model attempts values d in (es, None, d).
Proof.
  revert d. induction values as [|v values IH]; intros d; cbn; [done|]. destruct (decode_value model attempts v d) as [es d1]. rewrite IH.
  by destruct (decode_values model attempts values d1).
Qed.
Lemma openai_chunk c l d : run_chunk detail (openai_decoder from_slice model) c (l, d) = decode_chunk from_slice model detail c (l, d).
Proof.
  unfold run_chunk, decode_chunk. cbn [fst snd]. destruct (drain _) as [lines l1]. rewrite openai_values.
  destruct (decode_values _ _ _ d) as [es d1]. destruct (over_budget l1); [done|]. cbn. destruct (ck_usage c), (od_emitted_usage d1); cbn; by rewrite ?app_nil_r.
Qed.
Lemma openai_stream_is_the_loop items :
  flatten_turns (turns_of detail (openai_decoder from_slice model) items) = decode_openai_stream from_slice model detail items.
Proof.
  unfold turns_of, decode_openai_stream. cbn [sd_new openai_decoder]. generalize (splitter_new MAX_STREAM_LINE_BYTES), decoder_new.
  induction items as [|[c|e] items IH]; intros l d; cbn [run_items decode_items]; [| |done].
  - unfold run_end. cbn [fst snd]. destruct (flush_newline l) as [[] l1]; [|done]. rewrite openai_chunk.
    destruct (decode_chunk _ _ _ tail_chunk _) as [[es [e|]] [l2 d2]]; cbn; by rewrite ?app_nil_r.
  - destruct (decode_chunk _ _ _ c (l, d)) as [[es [e|]] [l1 d1]] eqn:E; pose proof (eq_trans (openai_chunk c l d) E) as Hc; rewrite Hc; [done|].
    cbn [flatten_turns tn_error tn_events]. by rewrite IH.
Qed.
End Families.

(** ** Arguments of a call *)

(** What a client has collected of the arguments of call [i] since it last
    started. *)
Definition args_after (i : Z) (acc : string) (e : ChatStreamEventV1) : string :=
  match e with
  | EvToolCallStart j _ _ => if i =? j then "" else acc
  | EvToolCallArgumentsDelta j delta => if i =? j then acc +:+ delta else acc
  | _ => acc
  end.
Definition delivered (i : Z) (es : Events) : string := foldl (args_after i) "" es.

Lemma delivered_app i es es' : delivered i (es ++ es') = foldl (args_after i) (delivered i es) es'.
Proof. apply foldl_app. Qed.
Lemma string_app_nil (s : string) : s +:+ "" = s.
Proof. apply bytes_inj. by rewrite bytes_app, app_nil_r. Qed.
Lemma strip_prefix_spec p : forall s r, strip_prefix p s = Some r -> s = p ++ r.
Proof.
  induction p as [|a p IH]; intros [|b s] r; cbn; try done; try (intros [= <-]; done). destruct (a =? b) eqn:E; [|done].
  apply Z.eqb_eq in E as ->. intros Hr%IH. by subst.
Qed.
Lemma str_strip_prefix_spec p s r : str_strip_prefix p s = Some r -> s = p +:+ r.
Proof.
  unfold str_strip_prefix. intros (r' & Hr & ->)%fmap_Some. apply strip_prefix_spec in Hr. apply bytes_inj. rewrite bytes_app, Hr. f_equal.
  symmetry. apply bytes_string_of. pose proof (bytes_are_bytes s) as Hb. rewrite Hr in Hb. by apply Forall_app in Hb as [_ Hb].
Qed.
Lemma filled_delta_args i j acc delta : foldl (args_after i) acc (filled_delta j delta) = if i =? j then acc +:+ delta else acc.
Proof. unfold filled_delta, filled. case_bool_decide as H; [|done]. subst. cbn. rewrite string_app_nil. by destruct (i =? j). Qed.

(** The open calls have sent what was collected. *)
Record sent_is_collected (es : Events) (s : ResponsesState) : Prop := {
  sc_ordered : ordered (rs_tools s);
  sc_sent : forall i a, bt_get i (rs_tools s) = Some a -> delivered i es = ta_emitted a }.

Section Responses.
Context (from_slice : list Z -> option Json) (model : string).

Lemma text_delta_args i acc event f : (forall d acc, args_after i acc (f d) = acc) -> foldl (args_after i) acc (text_delta event f) = acc.
Proof. intros Hf. unfold text_delta. destruct (str_at event "delta"); [apply Hf|done]. Qed.
Lemma keeps_sent es s evs s' : sent_is_collected es s -> rs_tools s' = rs_tools s -> (forall i acc, foldl (args_after i) acc evs = acc) ->
  sent_is_collected (es ++ evs) s'.
Proof. intros [Ho Hs] Ht He. split; rewrite Ht; [done|]. intros i a Ha. rewrite delivered_app, He. by apply Hs. Qed.
Lemma start_keeps kind event s es : sent_is_collected es s ->
  let '(start, s') := responses_start model kind event s in
  rs_tools s' = rs_tools s /\ sent_is_collected (es ++ start) s' /\ (forall i acc, foldl (args_after i) acc start = acc).
Proof.
  intros Hi. unfold responses_start. case_bool_decide; [|destruct (_ && _)]; (split; [done|]; split; [|done]); by apply (keeps_sent es s).
Qed.

(** Sending [delta] for the open call [index], whose state becomes [a']. *)
Lemma sent_more es s index a a' delta evs : sent_is_collected es s -> bt_get index (rs_tools s) = Some a -> ta_emitted a' = ta_emitted a +:+ delta ->
  (forall i acc, foldl (args_after i) acc evs = if i =? index then acc +:+ delta else acc) ->
  sent_is_collected (es ++ evs) (set_tools (bt_insert index a' (rs_tools s)) s) /\ delivered index (es ++ evs) = ta_emitted a'.
Proof.
  intros [Ho Hs] Ha Hd He. assert (Hdel : delivered index (es ++ evs) = ta_emitted a') by (by rewrite delivered_app, He, Z.eqb_refl, (Hs _ _ Ha), Hd).
  split; [|done]. split; cbn [set_tools rs_tools]; [by apply bt_insert_ordered|]. intros i b. rewrite bt_get_insert. destruct (i =? index) eqn:E.
  - apply Z.eqb_eq in E as ->. by intros [= <-].
  - intros Hb. rewrite delivered_app, He, E. by apply Hs.
Qed.
Lemma args_complete_spec arguments a suffix a' : args_complete arguments a = Some (suffix, a') -> ta_emitted a' = ta_emitted a +:+ suffix /\ ta_emitted a' = arguments.
Proof.
  unfold args_complete. destruct (_ && _); [done|]. intros (r & Hr & [= <- <-])%bind_Some. apply str_strip_prefix_spec in Hr. by split.
Qed.
Lemma opened_call es s index id name arguments : sent_is_collected es s ->
  sent_is_collected (es ++ EvToolCallStart index id name :: filled_delta index arguments)
    (set_tools (bt_insert index (MkArgs arguments false) (rs_tools s)) s).
Proof.
  intros [Ho Hs]. split; cbn [set_tools rs_tools]; [by apply bt_insert_ordered|]. intros i b. rewrite bt_get_insert, delivered_app. cbn [foldl args_after].
  rewrite filled_delta_args. destruct (i =? index) eqn:E; [by intros [= <-]|apply Hs].
Qed.

Lemma event_keeps attempts kind event s es : sent_is_collected es s ->
  let '(es', err, s') := responses_event attempts kind event s in
  err = None -> sent_is_collected (es ++ es') s'.
Proof.
  intros Hi. pose proof Hi as [Ho Hs]. unfold responses_event.
  assert (Hkeep : forall evs, (forall i acc, foldl (args_after i) acc evs = acc) -> sent_is_collected (es ++ evs) s).
  { intros evs He. by apply (keeps_sent es s). }
  repeat case_bool_decide; try (intros _; apply Hkeep; intros; by apply text_delta_args).
  - unfold item_added. destruct (negb _); [intros _; by apply Hkeep|]. destruct (str_at (jnull_or event "item") "call_id"), (str_at (jnull_or event "item") "name"); try (intros _; by apply Hkeep).
    destruct (str_at (jnull_or event "item") "arguments") as [arguments|].
    + unfold args_delta. cbn. intros _. by apply opened_call.
    + intros _. by apply (opened_call _ _ _ _ _ "").
  - unfold arguments_delta. destruct (str_at event "delta") as [delta|]; [|intros _; by apply Hkeep].
    destruct (bt_get _ _) as [a|] eqn:Ha; [|done]. unfold args_delta. destruct (_ && _); [done|]. intros _. eapply sent_more; try done.
  - unfold arguments_done. destruct (str_at event "arguments") as [arguments|]; [|intros _; by apply Hkeep].
    destruct (bt_get _ _) as [a|] eqn:Ha; [|done]. destruct (args_complete arguments a) as [[suffix a']|] eqn:Hc; [|done]. intros _.
    apply args_complete_spec in Hc as [Hc _]. eapply sent_more; try done. intros. apply filled_delta_args.
  - unfold item_done. destruct (bt_get _ _) as [a|] eqn:Ha; [|intros _; by apply Hkeep]. set (index := u32_at event "output_index") in *.
    assert (Hclose : forall evs, (forall i acc, i <> index -> foldl (args_after i) acc evs = acc) ->
        sent_is_collected (es ++ evs) (set_tools (bt_remove index (rs_tools s)) s)).
    { intros evs He. split; cbn [set_tools rs_tools]; [by apply bt_remove_ordered|]. intros i b. rewrite bt_get_remove by done.
      destruct (i =? index) eqn:E; [done|]. apply Z.eqb_neq in E. intros Hb. rewrite delivered_app, He by done. by apply Hs. }
    destruct (str_path event _) as [arguments|]; [|intros _; by apply Hclose].
    destruct (args_complete arguments a) as [[suffix a']|]; [|done]. intros _. apply Hclose. intros i acc Hne. rewrite foldl_app, filled_delta_args.
    by rewrite (proj2 (Z.eqb_neq i index) Hne).
  - unfold run_ended. intros _. split; [constructor|done].
  - unfold run_ended. intros _. split; [constructor|done].
  - unfold run_ended. intros _. split; [constructor|done].
  - done.
  - intros _. by apply Hkeep.
Qed.

Lemma run_keeps attempts values : forall es s, sent_is_collected es s ->
  let '(es', err, s') := run_values (responses_decoder from_slice model) attempts values s in
  err = None -> sent_is_collected (es ++ es') s'.
Proof.
  induction values as [|v values IH]; intros es s Hi; cbn [run_values]; [intros _; by rewrite app_nil_r|].
  cbn [sd_step responses_decoder]. unfold responses_step. pose proof (start_keeps (default "" (str_at v "type")) v s es Hi) as Hst.
  destruct (responses_start _ _ _ _) as [start s1]. destruct Hst as (_ & Hi1 & _).
  pose proof (event_keeps attempts (default "" (str_at v "type")) v s1 _ Hi1) as He. destruct (responses_event _ _ _ _) as [[es1 [e|]] s2]; [done|].
  cbn [fmap option_fmap option_map]. specialize (He eq_refl). rewrite <- app_assoc in He. specialize (IH _ _ He).
  destruct (run_values (responses_decoder from_slice model) attempts values s2) as [[es2 err] s3]. intros Herr. rewrite app_assoc. by apply IH.
Qed.

(** What a completion of a call carries. *)
Definition completes (event : Json) (arguments : string) : Prop :=
  (str_at event "type" = Some "response.function_call_arguments.done" /\ str_at event "arguments" = Some arguments)
  \/ (str_at event "type" = Some "response.output_item.done" /\ str_path event ["item"; "arguments"] = Some arguments).

(** C13: A tool call of a Responses stream is never executed with arguments that
    the upstream did not send: when a snapshot completes the arguments of an
    open call, what the client collected from the deltas is the snapshot, or
    the stream fails and nothing of it is sent. *)
Theorem completed_arguments_are_exact attempts values es s event arguments :
  run_values (responses_decoder from_slice model) attempts values responses_new = (es, None, s) ->
  completes event arguments -> is_Some (bt_get (u32_at event "output_index") (rs_tools s)) ->
  let '(es', err, _) := responses_step model attempts event s in
  match err with
  | None => delivered (u32_at event "output_index") (es ++ es') = arguments
  | Some e => e = Transport "conflicting completed tool arguments" /\ es' = []
  end.
Proof.
  intros Hrun Hc [a Ha]. pose proof (run_keeps attempts values [] responses_new) as Hi. rewrite Hrun in Hi.
  specialize (Hi ltac:(by split; [constructor|]) eq_refl). cbn [app] in Hi. unfold responses_step. set (index := u32_at event "output_index") in *.
  destruct Hc as [[Hk Harg]|[Hk Harg]]; rewrite Hk; cbn [default from_option id].
  - change (responses_start model "response.function_call_arguments.done" event s) with
      (if negb (rs_started s) && false then ([EvResponseStart None model], MkResponses true (rs_tools s) (rs_usage s) (rs_finish s)) else ([] : Events, s)).
    rewrite andb_false_r. cbn iota beta.
    change (responses_event attempts "response.function_call_arguments.done" event s) with (arguments_done event s).
    unfold arguments_done. fold index. rewrite Harg, Ha.
    destruct (args_complete arguments a) as [[suffix a']|] eqn:Hc; [|done]. cbn. apply args_complete_spec in Hc as [Hc1 Hc2].
    rewrite <- Hc2. eapply sent_more; try done. intros. apply filled_delta_args.
  - change (responses_start model "response.output_item.done" event s) with
      (if negb (rs_started s) && false then ([EvResponseStart None model], MkResponses true (rs_tools s) (rs_usage s) (rs_finish s)) else ([] : Events, s)).
    rewrite andb_false_r. cbn iota beta.
    change (responses_event attempts "response.output_item.done" event s) with (item_done event s).
    unfold item_done. fold index. rewrite Ha, Harg.
    destruct (args_complete arguments a) as [[suffix a']|] eqn:Hc; [|done]. cbn. apply args_complete_spec in Hc as [Hc1 Hc2].
    rewrite delivered_app, foldl_app, filled_delta_args, Z.eqb_refl, (sc_sent _ _ Hi _ _ Ha), <- Hc1, Hc2. done.
Qed.
End Responses.

(** ** Observations *)

(** An event without its availability metadata. *)
Definition erase (e : ChatStreamEventV1) : option ChatStreamEventV1 :=
  match e with
  | EvUsage u => if bool_decide (u_completeness u = Unavailable) then None else Some (EvUsage (with_obs None u))
  | e => Some e
  end.
Definition usage_of (e : ChatStreamEventV1) : option UsageV2 := match e with EvUsage u => Some u | _ => None end.
(** The observation of the last usage that was published. *)
Definition last_obs (o : option CacheReadObservation) (es : Events) : option CacheReadObservation :=
  foldl (fun o e => match e with EvUsage u => u_cache_obs u | _ => o end) o es.
(** What the decorator has seen when the stream ends. *)
Fixpoint seen_by (turns : list Turn) (cache : Observer) : Observer :=
  match turns with
  | [] => cache
  | t :: turns => let cache := tell_observer (tn_chunk t) cache in match tn_error t with Some _ => cache | None => seen_by turns cache end
  end.

Lemma correction_spec o : let '(es, o') := correction o in
  omap erase es = [] /\ ob_cache o' = ob_cache o /\ ob_published o' = last_obs (ob_published o) es
  /\ (is_Some (ob_cache o) -> ob_published o' = ob_cache o).
Proof.
  unfold correction. destruct (_ && _) eqn:H; [done|]. split_and!; try done. intros Hc. rewrite bool_decide_eq_true_2 in H by done.
  by apply negb_false_iff, bool_decide_eq_true in H.
Qed.
Lemma observe_event_spec e o : let '(es, o') := observe_event e o in
  omap erase es = option_list (erase e) /\ ob_cache o' = ob_cache o /\ ob_published o' = last_obs (ob_published o) es.
Proof.
  assert (Hother : usage_of e = None -> (let '(es, o') := correction o in
    omap erase (es ++ [e]) = option_list (erase e) /\ ob_cache o' = ob_cache o /\ ob_published o' = last_obs (ob_published o) (es ++ [e]))).
  { intros Hu. pose proof (correction_spec o) as Hc. destruct (correction o) as [es o']. destruct Hc as (He & Hcache & Hp & _).
    rewrite omap_app, He. unfold last_obs. rewrite foldl_app. fold (last_obs (ob_published o) es). rewrite <- Hp. by destruct e. }
  destruct e as [| | | | | | |u| |]; cbn [observe_event]; try (specialize (Hother eq_refl); destruct (correction o) as [es o']; exact Hother); [done|].
  destruct (ob_cache o) as [c|] eqn:Hc; cbn; (split; [|by split]); by case_bool_decide.
Qed.
Lemma last_obs_app o es es' : last_obs o (es ++ es') = last_obs (last_obs o es) es'.
Proof. apply foldl_app. Qed.
Lemma observe_events_spec es : forall o, let '(out, o') := observe_events es o in
  omap erase out = omap erase es /\ ob_cache o' = ob_cache o /\ ob_published o' = last_obs (ob_published o) out.
Proof.
  induction es as [|e es IH]; intros o; cbn [observe_events]; [done|]. pose proof (observe_event_spec e o) as He.
  destruct (observe_event e o) as [es1 o1]. destruct He as (E1 & E2 & E3). specialize (IH o1). destruct (observe_events es o1) as [es2 o2].
  destruct IH as (I1 & I2 & I3). split_and!; [|congruence|by rewrite last_obs_app, <- E3].
  rewrite omap_app, E1, I1. change (e :: es) with ([e] ++ es). rewrite omap_app. f_equal.
Qed.
Lemma tell_published chunk o : ob_published (tell_observer chunk o) = ob_published o.
Proof. by destruct chunk. Qed.
Lemma tell_cache chunk o o' : ob_cache o = ob_cache o' -> ob_cache (tell_observer chunk o) = ob_cache (tell_observer chunk o').
Proof. intros H. destruct chunk; cbn; by rewrite H. Qed.
Lemma seen_cache turns : forall o o', ob_cache o = ob_cache o' -> ob_cache (seen_by turns o) = ob_cache (seen_by turns o').
Proof. induction turns as [|t turns IH]; intros o o' H; cbn; [done|]. destruct (tn_error t); [by apply tell_cache|]. by apply IH, tell_cache. Qed.

Lemma observe_turns_spec turns : forall o, let '(es, err) := observe_turns turns o in
  omap erase es = omap erase (flatten_turns turns).1 /\ err = (flatten_turns turns).2
  /\ (is_Some (ob_cache (seen_by turns o)) -> last_obs (ob_published o) es = ob_cache (seen_by turns o)).
Proof.
  induction turns as [|t turns IH]; intros o; cbn [observe_turns flatten_turns seen_by].
  { pose proof (correction_spec o) as Hc. destruct (correction o) as [es o']. destruct Hc as (He & _ & Hp & Hc). cbn [fst].
    split_and!; [done|done|]. intros H. rewrite <- Hp. by apply Hc. }
  pose proof (observe_events_spec (tn_events t) (tell_observer (tn_chunk t) o)) as He.
  destruct (observe_events _ _) as [es o1]. destruct He as (E1 & E2 & E3). rewrite tell_published in E3.
  destruct (tn_error t) as [e|] eqn:Herr.
  - pose proof (correction_spec o1) as Hc. destruct (correction o1) as [cs o2]. destruct Hc as (He & _ & Hp & Hc). cbn [fst snd].
    rewrite omap_app, He, app_nil_r. split_and!; [done|done|]. intros H. rewrite last_obs_app, <- E3, <- Hp, <- E2. apply Hc. by rewrite E2.
  - specialize (IH o1). destruct (observe_turns turns o1) as [es' err]. destruct IH as (I1 & I2 & I3). destruct (flatten_turns turns) as [fs ferr].
    cbn [fst snd] in *. rewrite !omap_app. split_and!; [congruence|done|]. rewrite last_obs_app, <- E3, <- (seen_cache turns o1) by done. exact I3.
Qed.

(** The decorator changes no event and no error of a decoder: it only fills
    in observations and adds updates that are marked as carrying no count; and
    when a stream ends, well or not, the last update published carries
    everything that was observed in it. *)
Theorem observations_are_delivered detail dec items :
  let turns := turns_of detail dec items in
  let '(es, err) := decode_with_observation detail dec items in
  omap erase es = omap erase (flatten_turns turns).1 /\ err = (flatten_turns turns).2
  /\ (forall cache, ob_cache (seen_by turns observer_new) = Some cache -> last_obs None es = Some cache).
Proof.
  cbv zeta. unfold decode_with_observation. pose proof (observe_turns_spec (turns_of detail dec items) observer_new) as H.
  destruct (observe_turns _ _) as [es err]. destruct H as (H1 & H2 & H3). split_and!; [done|done|]. intros cache Hc. rewrite <- Hc. apply H3. by rewrite Hc.
Qed.

(** ** A collected stream *)

Definition text_after (acc : string) (e : ChatStreamEventV1) : string := match e with EvTextDelta delta => acc +:+ delta | _ => acc end.
Definition text_of (es : Events) : string := foldl text_after "" es.
Definition finish_after (acc : option FinishReasonV1) (e : ChatStreamEventV1) : option FinishReasonV1 :=
  match e with EvFinish reason => Some reason | _ => acc end.

Record collects (es : Events) (c : Collected) : Prop := {
  cl_text : cd_text c = text_of es;
  cl_calls : forall i call, bt_get i (cd_tools c) = Some call -> tc_arguments call = delivered i es;
  cl_finish : cd_finish c = foldl finish_after None es;
  cl_keys : ordered (cd_tools c);
  cl_started : forall i, is_Some (bt_get i (cd_tools c)) <-> i ∈ started es }.

Lemma started_app es e : started (es ++ [e]) = started es ++ started [e].
Proof. apply omap_app. Qed.
Lemma collect_step es c e c' : collects es c -> collect_event e c = Ok c' -> collects (es ++ [e]) c'.
Proof.
  intros [Ht Hc Hf Hk Hs] He. assert (Hd : forall i, delivered i (es ++ [e]) = args_after i (delivered i es) e) by (intros; apply delivered_app).
  assert (Htx : text_of (es ++ [e]) = text_after (text_of es) e) by (unfold text_of; by rewrite foldl_app).
  assert (Hfi : foldl finish_after None (es ++ [e]) = finish_after (foldl finish_after None es) e) by (by rewrite foldl_app).
  destruct e; cbn [collect_event] in He; try (match type of He with context [bt_get ?i ?m] => destruct (bt_get i m) as [call|] eqn:Hg end); simplify_eq; split; rewrite ?Htx, ?Hfi;
    cbn [cd_text cd_tools cd_finish set_calls text_after finish_after]; try done; try congruence; try (intros i call' Hi; rewrite Hd; cbn [args_after]; by apply Hc);
    try (intros i; rewrite started_app; cbn; rewrite app_nil_r; apply Hs); try (by apply bt_insert_ordered).
  - intros i cl. rewrite bt_get_insert, Hd. cbn [args_after]. destruct (i =? index); [by intros [= <-]|apply Hc].
  - intros i. rewrite started_app, bt_get_insert. cbn. rewrite elem_of_app, list_elem_of_singleton, <- Hs. destruct (i =? index) eqn:E; [apply Z.eqb_eq in E; naive_solver|].
    apply Z.eqb_neq in E. naive_solver.
  - intros i call'. rewrite bt_get_insert, Hd. cbn [args_after]. destruct (i =? index) eqn:E; [|apply Hc]. apply Z.eqb_eq in E as ->.
    intros [= <-]. cbn. by rewrite (Hc _ _ Hg).
  - intros i. rewrite started_app, bt_get_insert. cbn. rewrite app_nil_r, <- Hs. destruct (i =? index) eqn:E; [apply Z.eqb_eq in E as ->; naive_solver|done].
  - intros i call' Hi. rewrite Hd. cbn [args_after]. destruct (i =? index) eqn:E; [|by apply Hc]. apply Z.eqb_eq in E as ->. congruence.
Qed.
Lemma collect_all es : forall done c c', collects done c -> collect_events es c = Ok c' -> collects (done ++ es) c'.
Proof.
  induction es as [|e es IH]; intros sofar c c' Hc H; cbn [collect_events] in H; [injection H as <-; by rewrite app_nil_r|].
  apply result_bind_ok in H as (c1 & H1 & H). change (e :: es) with ([e] ++ es). rewrite app_assoc. by eapply IH, H; [eapply collect_step].
Qed.

(** A stream that is collected into a response says what it said event by
    event: the text is that of its deltas, there is one call for each index
    that was started, with the arguments that were delivered for it, and the
    finish reason is the last one; an error in it, or one that ended it,
    fails the whole. *)
Theorem aggregate_says_what_was_streamed es err :
  match aggregate_stream (es, err) with
  | Ok r => err = None /\ existsb is_error es = false /\ ao_content (rp_output r) = ContentText <$> filled (text_of es)
      /\ rp_finish_reason r = foldl finish_after None es
      /\ exists indices, (forall i, i ∈ indices <-> i ∈ started es) /\ NoDup indices
           /\ tc_arguments <$> ao_tool_calls (rp_output r) = (fun i => delivered i es) <$> indices
  | Err _ => is_Some err \/ existsb is_error es = true
  end.
Proof.
  unfold aggregate_stream. cbn [fst snd].
  assert (Herr : forall es c, match collect_events es c with Ok _ => existsb is_error es = false | Err _ => existsb is_error es = true end).
  { clear. induction es as [|e es IH]; intros c; cbn; [done|]. destruct e; cbn; try apply IH; try done. destruct (bt_get _ _); apply IH. }
  specialize (Herr es collected_new). destruct (collect_events es collected_new) as [c|e] eqn:Hc; cbn [mbind result_bind]; [|by right].
  destruct err as [e|]; [by left; eexists|]. assert (Hi : collects ([] ++ es) c).
  { eapply collect_all, Hc. split; try done; [constructor|]. intros i. cbn. split; [by intros []|set_solver]. }
  destruct Hi as [Ht Hcalls Hf Hk Hs]. cbn [rp_output rp_finish_reason ao_content ao_tool_calls]. split_and!; try done; [by rewrite Ht|].
  exists (cd_tools c).*1. split_and!.
  - intros i. rewrite <- Hs. split; [|intros [v Hv%bt_get_in]; by apply (list_elem_of_fmap_2 fst) in Hv].
    intros ([j v] & -> & Hin)%list_elem_of_fmap. exists v. by apply bt_in_get.
  - by apply ordered_nodup.
  - rewrite <- !list_fmap_compose. apply list_fmap_ext. intros k [i call] Hk'. cbn. apply Hcalls. apply bt_in_get; [done|]. by eapply list_elem_of_lookup_2.
Qed.

(** ** Instances *)

Lemma short_streams_are_within bs : Z.of_nat (length bs) <= MAX_STREAM_LINE_BYTES -> lines_within bs.
Proof.
  intros Hl k. pose proof (split_ref_lossless (take k bs) []) as H. destruct (split_ref false false [] (take k bs)) as [lines [rest s]]. cbn [fst snd].
  apply (f_equal length) in H. rewrite length_app in H. cbn [app] in H. rewrite length_take in H. lia.
Qed.

(** Two frames of an Anthropic stream, cut in the middle of the second. *)
Definition frame_one : list Z := bytes "data: 1".
Definition frame_two : list Z := bytes "data: 2".
Definition read_frames (payload : list Z) : option Json :=
  if bool_decide (payload = bytes "1") then Some (JObject [("type", JStr "message_start"); ("message", JObject [("id", JStr "msg_1"); ("model", JStr "claude")])])
  else if bool_decide (payload = bytes "2") then
    Some (JObject [("type", JStr "content_block_delta"); ("index", JNumber 0); ("delta", JObject [("type", JStr "text_delta"); ("text", JStr "hi")])])
  else None.
(** The chunks as the pass-through makes them: the totals run, the last chunk
    of bytes repeats one, and the final usage comes alone. *)
Definition some_totals (output : Z) : ParsedUsage := MkParsed 5 output 0 0 None 0 None None None.
Definition cut_chunks : list StreamChunk :=
  [MkChunk (frame_one ++ [LF; LF] ++ take 3 frame_two) None (Some (some_totals 1)) (Some ABSENT) 1 false;
   MkChunk (drop 3 frame_two) None (Some (some_totals 1)) None 1 false;
   MkChunk [] (Some (some_totals 2)) (Some (some_totals 2)) None 1 true].
Lemma streams_are_read_in_one_pass_witness :
  let got := flatten_turns (turns_of "too long" (anthropic_decoder read_frames "m") (Ok <$> cut_chunks)) in
  content got.1 = [EvResponseStart (Some "msg_1") "claude"; EvUsage (terminal_usage 1 (parsed_usage (some_totals 2))); EvTextDelta "hi"]
  /\ notes got.1 = [EvUsage (with_verdict Partial 1 (parsed_usage (some_totals 1)))].
Proof.
  destruct (streams_are_read_in_one_pass read_frames (fun _ => "") "m" "too long" (anthropic_decoder read_frames "m") true 1 cut_chunks None)
    as (Hc & He & _ & Hn).
  - right. left.
  - by repeat constructor.
  - cbn. lia.
  - apply short_streams_are_within. vm_compute. discriminate.
  - cbn [option_list fmap list_fmap] in *. rewrite app_nil_r in *. split.
    + rewrite Hc. vm_compute. reflexivity.
    + rewrite Hn; [vm_compute; reflexivity|]. rewrite He. vm_compute. reflexivity.
Defined.

Definition call_added : Json :=
  JObject [("type", JStr "response.output_item.added"); ("output_index", JNumber 1);
           ("item", JObject [("type", JStr "function_call"); ("call_id", JStr "c1"); ("name", JStr "f"); ("arguments", JStr "")])].
Definition some_arguments : Json :=
  JObject [("type", JStr "response.function_call_arguments.delta"); ("output_index", JNumber 1); ("delta", JStr "[1,")].
Definition all_arguments (arguments : string) : Json :=
  JObject [("type", JStr "response.function_call_arguments.done"); ("output_index", JNumber 1); ("arguments", JStr arguments)].
Lemma completed_arguments_are_exact_witness :
  exists es s es' s', run_values (responses_decoder (fun _ => None) "m") 1 [call_added; some_arguments] responses_new = (es, None, s)
    /\ responses_step "m" 1 (all_arguments "[1,2]") s = (es', None, s') /\ delivered 1 (es ++ es') = "[1,2]".
Proof.
  destruct (run_values (responses_decoder (fun _ => None) "m") 1 [call_added; some_arguments] responses_new) as [[es err] s] eqn:E.
  assert (err = None) as -> by (vm_compute in E; by injection E).
  assert (Hopen : is_Some (bt_get (u32_at (all_arguments "[1,2]") "output_index") (rs_tools s))) by (vm_compute in E; injection E as _ <-; by eexists).
  pose proof (completed_arguments_are_exact _ _ _ _ _ _ (all_arguments "[1,2]") "[1,2]" E ltac:(left; split; reflexivity) Hopen) as H.
  destruct (responses_step "m" 1 (all_arguments "[1,2]") s) as [[es' [e|]] s'] eqn:E'.
  - exfalso. vm_compute in E. injection E as _ <-. vm_compute in E'. discriminate.
  - exists es, s, es', s'. split; [reflexivity|]. split; [exact E'|exact H].
Defined.

(** The calls that started, with their identities. *)
Definition started_ids (es : Events) : list (Z * string) := omap (fun e => match e with EvToolCallStart i id _ => Some (i, id) | _ => None end) es.

(** Calls of an Ollama stream that come in lines of their own share an index
    and an identity. *)
Definition ollama_line (name : string) : Json :=
  JObject [("message", JObject [("content", JStr ""); ("tool_calls", JArray [JObject [("function", JObject [("name", JStr name); ("arguments", JObject [])])]])])].
Example calls_of_lines_collide :
  let '(es, _, _) := run_values (ollama_decoder (fun _ => None) (fun _ => "{}") "m") 1 [ollama_line "first"; ollama_line "second"] (false, meter_new) in
  started_ids es = [(0, "ollama_call_0"); (0, "ollama_call_0")].
Proof. reflexivity. Qed.
(** So do those of a Gemini stream in chunks of their own. *)
Definition gemini_chunk (name : string) : Json :=
  JObject [("candidates", JArray [JObject [("content", JObject [("parts", JArray [JObject [("functionCall", JObject [("name", JStr name); ("args", JObject [])])]])])]])].
Example calls_of_chunks_collide :
  let '(es, _, _) := run_values (gemini_decoder (fun _ => None) (fun _ => "{}") "m") 1 [gemini_chunk "first"; gemini_chunk "second"] (MkGemini false None, meter_new) in
  started_ids es = [(0, "gemini_call_0"); (0, "gemini_call_0")].
Proof. reflexivity. Qed.
