(* ===== verification/NativeEncode.v ===== *)
(** The request encoders of Cohere and Ollama ([providers/cohere_typed.rs],
    [ollama_typed.rs]), in the style of [RequestEncode], and what they keep:
    they refuse what they cannot express, and every text is sent. *)

From S2P Require Import Prelude Text Usage Json UsageParse Inspect Attempt Accounting StreamEncoder ChatRequest RequestDecode RequestEncode.

(** ** Cohere *)

Definition text_part (text : string) : Json := JObject [("type", JStr "text"); ("text", JStr text)].
Definition cohere_part (p : ContentPart) : option Json :=
  match p with
  | PartText text => Some (text_part text)
  | PartImageUrl url detail => Some (JObject [("type", JStr "image_url"); ("image_url", JObject [("url", JStr url); ("detail", jopt detail)])])
  | PartInputAudio _ _ | PartFile _ _ _ => None
  end.
Definition cohere_content (c : MessageContent) : option (list Json) :=
  match c with ContentText text => Some [text_part text] | ContentParts parts => mapM cohere_part parts end.
Definition cohere_message (m : ChatMessageV1) : option Json :=
  match m with
  | Developer c _ | System c _ => content ← cohere_content c; Some (JObject [("role", JStr "system"); ("content", JArray content)])
  | User c _ => content ← cohere_content c; Some (JObject [("role", JStr "user"); ("content", JArray content)])
  | Assistant c _ calls refusal =>
      content ← (match c with Some c => cohere_content c | None => Some [] end);
      Some (JObject ([("role", JStr "assistant"); ("content", JArray (content ++ (text_part <$> option_list refusal)))]
                     ++ opt_field "tool_calls" (tools_field encode_tool_call calls)))
  | Tool c id => content ← cohere_content c; Some (JObject [("role", JStr "tool"); ("tool_call_id", JStr id); ("content", JArray content)])
  | Function_ _ _ => None
  end.
Definition cohere_choice (c : ToolChoiceV1) : Json :=
  match c with
  | ChoiceMode ModeNone => JStr "NONE"
  | ChoiceMode ModeAuto => JStr "AUTO"
  | ChoiceMode ModeRequired => JStr "REQUIRED"
  | ChoiceFunction name => JObject [("type", JStr "function"); ("function", JObject [("name", JStr name)])]
  end.
Definition cohere_fields (messages : list Json) (r : ChatRequestV1) : list (string * Json) :=
  insert_opt "response_format" (rq_response_format r)
  (insert_opt "seed" (JNumber <$> rq_seed r)
  (insert_opt "stop_sequences" (strings <$> rq_stop r)
  (insert_opt "max_tokens" (JNumber <$> rq_max_output_tokens r)
  (insert_opt "temperature" (jfloat <$> rq_temperature r)
  (insert_opt "tool_choice" (cohere_choice <$> rq_tool_choice r)
  (insert_opt "tools" (tools_field encode_tool (rq_tools r))
  (insert_opt "messages" (Some (JArray messages))
  (insert_opt "model" (Some (JStr (rq_model r))) (bucket r "cohere"))))))))).
Definition encode_cohere_request (r : ChatRequestV1) : option Json :=
  if validate r then messages ← mapM cohere_message (rq_messages r); Some (JObject (cohere_fields messages r)) else None.

(** ** Ollama *)

(** The texts of a content and its pictures, their data alone if it is
    inline. *)
Definition image_data (url : string) : string := match split_base64 (bytes url) with Some (_, encoded) => string_of encoded | None => url end.
Fixpoint parts_and_images (parts : list ContentPart) : option (string * list string) :=
  match parts with
  | [] => Some ("", [])
  | p :: parts =>
      '(text, images) ← parts_and_images parts;
      match p with
      | PartText t => Some (t +:+ text, images)
      | PartImageUrl url _ => Some (text, image_data url :: images)
      | PartInputAudio _ _ | PartFile _ _ _ => None
      end
  end.
Definition content_and_images (c : MessageContent) : option (string * list string) :=
  match c with ContentText text => Some (text, []) | ContentParts parts => parts_and_images parts end.
Definition message_value (role content : string) (images : list string) : list (string * Json) :=
  [("role", JStr role); ("content", JStr content)] ++ opt_field "images" (match images with [] => None | _ => Some (strings images) end).
Definition normalize_response_format (format : Json) : Json :=
  if bool_decide (str_at format "type" = Some "json_schema") then default format (pointer format "json_schema" "schema")
  else if bool_decide (str_at format "type" = Some "json_object") then JStr "json"
  else format.
Definition ollama_tool (t : ToolDefinitionV1) : Json :=
  JObject [("type", JStr "function");
           ("function", JObject [("name", JStr (td_name t)); ("description", jopt (td_description t)); ("parameters", td_parameters t)])].

Section Encode.
Context (from_str : string -> option Json).

Definition ollama_call_json (c : ToolCallV1) : option Json :=
  arguments ← from_str (tc_arguments c);
  Some (JObject [("function", JObject [("name", JStr (tc_name c)); ("arguments", arguments)])]).
Definition plain_message (role : string) (c : MessageContent) : option Json :=
  '(content, images) ← content_and_images c; Some (JObject (message_value role content images)).
Definition ollama_message (m : ChatMessageV1) : option Json :=
  match m with
  | Developer c _ | System c _ => plain_message "system" c
  | User c _ => plain_message "user" c
  | Assistant c _ calls refusal =>
      '(text, images) ← (match c with Some c => content_and_images c | None => Some ("", []) end);
      calls ← mapM ollama_call_json calls;
      Some (JObject (message_value "assistant" (text +:+ default "" refusal) images ++ opt_field "tool_calls" (tools_field id calls)))
  | Tool c _ => plain_message "tool" c
  | Function_ _ _ => None
  end.
(** The options of the bucket, with those of the request. *)
Definition ollama_options (r : ChatRequestV1) : list (string * Json) :=
  insert_opt "stop" (strings <$> rq_stop r)
  (insert_opt "num_predict" (JNumber <$> rq_max_output_tokens r)
  (insert_opt "temperature" (jfloat <$> rq_temperature r)
     (match lookup_key "options" (bucket r "ollama") with Some (JObject l) => l | _ => [] end))).
Definition ollama_fields (messages : list Json) (r : ChatRequestV1) : list (string * Json) :=
  insert_opt "format" (normalize_response_format <$> rq_response_format r)
  (insert_opt "options" (match ollama_options r with [] => None | l => Some (JObject l) end)
  (drop_key "options"
  (insert_opt "tools" (tools_field ollama_tool (rq_tools r))
  (insert_opt "messages" (Some (JArray messages))
  (insert_opt "model" (Some (JStr (rq_model r))) (bucket r "ollama")))))).
Definition encode_ollama_request (r : ChatRequestV1) : option Json :=
  if validate r then messages ← mapM ollama_message (rq_messages r); Some (JObject (ollama_fields messages r)) else None.
End Encode.
