(* ===== verification/NativeProps.v ===== *)
(** What Cohere and Ollama are told: every text of the conversation. *)

From S2P Require Import Prelude Text Usage Json UsageParse Inspect InspectProps Attempt Accounting StreamEncoder ChatRequest RequestDecode RequestEncode RequestProps NativeEncode.

(** The text of a message, its refusal included. *)
Definition said (m : ChatMessageV1) : string :=
  match m with
  | Developer c _ | System c _ | User c _ | Tool c _ | Function_ c _ => content_text c
  | Assistant c _ _ refusal => default "" (content_text <$> c) +:+ default "" refusal
  end.
(** What an upstream reads of a message. *)
Definition cohere_reads (v : Json) : string := String.concat "" (omap (fun p => str_at p "text") (default [] (arr_at v "content"))).
Definition ollama_reads (v : Json) : string := default "" (str_at v "content").

Lemma append_nil_r (s : string) : s +:+ "" = s.
Proof. apply bytes_inj. by rewrite bytes_app, app_nil_r. Qed.
Lemma append_assoc (a b c : string) : a +:+ (b +:+ c) = (a +:+ b) +:+ c.
Proof. apply bytes_inj. by rewrite !bytes_app, app_assoc. Qed.
Lemma concat_text a l : String.concat "" (a :: l) = a +:+ String.concat "" l.
Proof. rewrite concat_cons. by destruct l. Qed.
Lemma concat_texts l l' : String.concat "" (l ++ l') = String.concat "" l +:+ String.concat "" l'.
Proof. induction l as [|a l IH]; [done|]. cbn [app]. rewrite !concat_text, IH. apply append_assoc. Qed.

Lemma cohere_content_text c content : cohere_content c = Some content -> String.concat "" (omap (fun p => str_at p "text") content) = content_text c.
Proof.
  destruct c as [text|parts]; cbn [cohere_content content_text]; [by intros [= <-]|]. revert content.
  induction parts as [|p parts IH]; intros content H; [by injection H as <-|].
  cbn [mapM] in H. apply bind_Some in H as (j & Hj & H). apply bind_Some in H as (js & Hjs & H). injection H as <-.
  destruct p; cbn in Hj; try done; injection Hj as <-; [|exact (IH js Hjs)].
  change (String.concat "" (text :: omap (fun p => str_at p "text") js) = String.concat "" (text :: omap (fun p => match p with PartText t => Some t | _ => None end) parts)).
  rewrite !concat_text. f_equal. by apply IH.
Qed.
Lemma cohere_message_text m v : cohere_message m = Some v -> cohere_reads v = said m.
Proof.
  destruct m as [c n|c n|c n|content n calls refusal|c i|c n]; cbn [cohere_message]; try done.
  all: try (intros (js & Hc & H)%bind_Some; injection H as <-; exact (cohere_content_text _ _ Hc)).
  intros (js & Hc & H)%bind_Some. injection H as <-. unfold cohere_reads, said.
  change (arr_at _ "content") with (Some (js ++ (text_part <$> option_list refusal))). cbn [default from_option id].
  rewrite omap_app, concat_texts. f_equal; [|by destruct refusal]. destruct content as [c|]; [by apply cohere_content_text|by injection Hc as <-].
Qed.

Lemma parts_text parts text images : parts_and_images parts = Some (text, images) -> text = content_text (ContentParts parts).
Proof.
  revert text images. induction parts as [|p parts IH]; intros text images H; [by injection H as <- _|]. cbn [parts_and_images] in H.
  apply bind_Some in H as ([t imgs] & Ht & H). destruct p; simplify_eq; cbn [content_text omap list_omap] in *; [|by eapply IH].
  rewrite concat_text. f_equal. by eapply IH.
Qed.
Lemma content_and_text c text images : content_and_images c = Some (text, images) -> text = content_text c.
Proof. destruct c; [by intros [= <- _]|]. apply parts_text. Qed.
Lemma ollama_message_text from_str m v : ollama_message from_str m = Some v -> ollama_reads v = said m.
Proof.
  destruct m as [c n|c n|c n|content n calls refusal|c i|c n]; cbn [ollama_message]; try done.
  all: try (intros ([text images] & Hc & H)%bind_Some; injection H as <-; exact (content_and_text _ _ _ Hc)).
  intros ([text images] & Hc & H)%bind_Some. apply bind_Some in H as (js & _ & H). injection H as <-. unfold said.
  change (text +:+ default "" refusal = default "" (content_text <$> content) +:+ default "" refusal). f_equal.
  destruct content as [c|]; [by apply content_and_text in Hc|by injection Hc as <- _].
Qed.
Lemma mapM_reads {A} (f : A -> option Json) (g : Json -> string) (h : A -> string) l js :
  (forall a v, f a = Some v -> g v = h a) -> mapM f l = Some js -> g <$> js = h <$> l.
Proof. intros Hf H%mapM_Some. induction H as [|a v l js Ha _ IH]; [done|]. rewrite !fmap_cons, IH. f_equal. by apply Hf. Qed.

(** A request that is encoded for Cohere or Ollama carries every text of the
    conversation, message by message and in order; pictures aside, what
    cannot be expressed is refused instead of left out. *)
Theorem native_upstreams_hear_everything from_str r :
  (forall body, encode_cohere_request r = Some body ->
     exists messages, arr_at body "messages" = Some messages /\ cohere_reads <$> messages = said <$> rq_messages r)
  /\ (forall body, encode_ollama_request from_str r = Some body ->
     exists messages, arr_at body "messages" = Some messages /\ ollama_reads <$> messages = said <$> rq_messages r).
Proof.
  split; intros body H.
  - unfold encode_cohere_request in H. destruct (validate r); [|done]. apply bind_Some in H as (messages & Hm & H). injection H as <-. exists messages.
    split; [|by eapply mapM_reads, Hm; apply cohere_message_text]. unfold arr_at, cohere_fields. cbn [jget demo_json].
    assert (Ha : forall l, assoc "messages" l = Some (JArray messages) -> assoc "messages" l ≫= jas_array = Some messages) by (by intros l ->). apply Ha.
    past_others. by rewrite assoc_insert_eq.
  - unfold encode_ollama_request in H. destruct (validate r); [|done]. apply bind_Some in H as (messages & Hm & H). injection H as <-. exists messages.
    split; [|by eapply mapM_reads, Hm; apply ollama_message_text]. unfold arr_at, ollama_fields. cbn [jget demo_json].
    assert (Ha : forall l, assoc "messages" l = Some (JArray messages) -> assoc "messages" l ≫= jas_array = Some messages) by (by intros l ->). apply Ha.
    past_others. rewrite assoc_drop, bool_decide_eq_false_2 by done. past_others. by rewrite assoc_insert_eq.
Qed.
