(* ===== verification/Buffered.v ===== *)
(** [crates/sandhi-proxy/src/settlement/buffered.rs]: tracked accounting.
    The gate of a tracked request, the task that owns it from its admission
    to its settlement, the recovery of durable evidence in bounded slices,
    and the inventory that a shutdown makes.  The task acts through the
    registry of [Jobs]; a recovery interleaves with everything else, so what
    the rest of the process does between its critical sections is an
    argument.  Durations are in nanoseconds. *)

From S2P Require Import Prelude Ledger InMemory Budget Sql SqlLedger SqlContract Usage Allowance.
From S2P Require Import Evidence EvidenceOps Sharded ProxyLedger Lifecycle Settlement Jobs StreamEncoder Deadlines.

(** ** Configuration *)

Record Config := MkConfig { cf_capacity : Z; cf_accounting_wait : Z; cf_transport_timeout : Z }.
Definition Config_new (c : Config) : result string Config :=
  if (cf_capacity c =? 0) || (1024 <? cf_capacity c) || (cf_accounting_wait c =? 0) || (seconds 30 <? cf_accounting_wait c)
     || (cf_transport_timeout c =? 0) || (seconds 600 <? cf_transport_timeout c)
  then Err "invalid buffered accounting bounds" else Ok c.

Record Recovery := MkRecovery {
  rv_scopes : option ScopeCursor; rv_current : option string; rv_page : option RecoveryCursor;
  rv_retained_after : option Z; rv_complete : bool; rv_unresolved : Z }.
Definition Recovery_default : Recovery := MkRecovery None None None None false 0.

Record Buffered := MkBuffered { bf_config : Config; bf_jobs : Registry; bf_recovery : Mutex Recovery }.
(** The part of the proxy's state that tracked accounting uses. *)
Record State := MkState { st_owner : option Buffered; st_lifecycle : Lifecycle; st_ledger : Mutex ProxyLedger }.
Definition set_owner (o : Buffered) (s : State) : State := MkState (Some o) (st_lifecycle s) (st_ledger s).

Definition enable (config : Config) (s : State) : result string unit * State :=
  match Config_new config with
  | Err e => (Err e, s)
  | Ok config =>
      let '(r, ledger) := with_durable_ledger (st_ledger s) (fun d => (validate_tracked d, d)) in
      let s := MkState (st_owner s) (st_lifecycle s) ledger in
      match r with
      | Err _ => (Err "tracked accounting requires an available single file-backed ledger", s)
      | Ok _ =>
          match st_owner s with
          | Some _ => (Err "tracked accounting already enabled", s)
          | None => (Ok tt, set_owner (MkBuffered config (rg_new (cf_capacity config)) (MkMutex false false Recovery_default)) s)
          end
      end
  end.

Definition retained_owners (s : State) : Z := match st_owner s with Some o => retained (bf_jobs o) | None => 0 end.

(** ** The gate of a tracked request *)

Record TrackedCall := MkTrackedCall {
  tq_request_id : string; tq_scope : string; tq_ceiling : Z; tq_policy : Policy; tq_dialect : IngressDialect;
  tq_wants_stream : bool; tq_limits : option StreamLimits; tq_transparent_eligible : bool; tq_supports_owned : bool;
  tq_idempotency_key : option string; tq_max_output : option Z; tq_configured_deadline : option Z; tq_cache_read_bp : Z }.

Inductive GateReply := NotTrackable | DeadlineTooLong | CapacityUnavailable.

Definition refuses (q : TrackedCall) : bool :=
  (tq_wants_stream q && (bool_decide (tq_limits q = None) || negb (tq_transparent_eligible q)
                         || negb (bool_decide (tq_dialect q = OpenAi))))
  || negb (bool_decide (tq_dialect q = OpenAi) || bool_decide (tq_dialect q = StreamEncoder.Anthropic))
  || negb (tq_supports_owned q) || negb (bool_decide (tq_policy q = Block))
  || bool_decide (is_Some (tq_idempotency_key q)) || bool_decide (tq_max_output q = None).
Definition transport (cfg : Config) (q : TrackedCall) : Z :=
  if tq_wants_stream q then match tq_limits q with Some l => dispatch_duration l | None => 0 end
  else default (cf_transport_timeout cfg) (tq_configured_deadline q).
(** Up to the obligation: its slot, or the refusal. *)
Definition tracked_gate (cfg : Config) (q : TrackedCall) (g : Registry) (l : Lifecycle)
    : result GateReply Z * Registry * Lifecycle :=
  if refuses q then (Err NotTrackable, g, l)
  else if negb (tq_wants_stream q) && (seconds 600 <? transport cfg q) then (Err DeadlineTooLong, g, l)
  else let '(r, g, l) := obligation g l in (map_err (fun _ => CapacityUnavailable) r, g, l).

(** The lifetime asked for the lease: whole seconds, and a minute more. *)
Definition lease_ttl (cfg : Config) (q : TrackedCall) : Z :=
  seconds ((transport cfg q + cf_accounting_wait cfg * 3) / seconds 1 + 60).

(** ** The task that owns a tracked request *)

(** A reply, with the guard of the dispatch dropped. *)
Inductive TaskReply :=
| TrAccounting          (* accounting unresolved: 502, do not retry *)
| TrBudget              (* budget exhausted: 429 *)
| TrAnswer.             (* the provider's answer or error *)
Inductive TaskState :=
| TsStart
| TsAdmitting (epoch : Z)
| TsAuthorizing (epoch : Z)
| TsClosing (epoch : Z)
| TsDispatched (x : AuthorizedExecution)
| TsSettling (x : AuthorizedExecution) (epoch : Z)
| TsReplied (r : TaskReply).

(** What wakes the task: it is first polled, its ticket has an outcome, its
    wait times out, the provider answered and the answer was measured, or the
    task is aborted.  [runtime] and [now] are those of a submission. *)
Inductive TaskEvent :=
| EvStart (runtime : bool) (now : Z)
| EvReady (runtime : bool) (now : Z)
| EvTimeout
| EvAnswered (usage : UsageV2) (runtime : bool) (now : Z)
| EvAborted.

Definition with_registry (g : Registry) (s : JSys) : JSys :=
  MkJSys g (js_lc s) (js_ledger s) (js_tasks s) (js_obligations s) (js_accepted s) (js_published s).
Definition with_lifecycle (l : Lifecycle) (s : JSys) : JSys :=
  MkJSys (js_reg s) l (js_ledger s) (js_tasks s) (js_obligations s) (js_accepted s) (js_published s).
(** [Obligation::submit]: the epoch of the ticket, or the input back. *)
Definition submit (id : Z) (input : Input) (runtime : bool) (now : Z) (s : JSys) : result Input Z * JSys :=
  match obl_submit (js_reg s) (js_lc s) id input runtime now with
  | (Ok epoch, g) =>
      (Ok epoch, MkJSys g (js_lc s) (js_ledger s) (MkTask id epoch input :: js_tasks s) (js_obligations s)
                   ((id, input) :: js_accepted s) (js_published s))
  | (Err (input, _), g) => (Err input, with_registry g s)
  end.
Definition release (id : Z) (s : JSys) : JSys :=
  MkJSys (drop_obligation (js_reg s) id) (js_lc s) (js_ledger s) (js_tasks s)
    (filter (fun i => i <> id) (js_obligations s)) (js_accepted s) (js_published s).
Definition take_ticket (id epoch : Z) (k : Kind) (s : JSys) : option ResultValue * JSys :=
  let '(r, g) := take (js_reg s) id epoch k in (r, with_registry g s).
Definition reply (id : Z) (r : TaskReply) (s : JSys) : TaskState * JSys := (TsReplied r, release id s).

(** The terminal record of a dispatched execution. *)
Definition settlement_of_call (q : TrackedCall) (x : AuthorizedExecution) (usage : UsageV2) : PendingSettlement :=
  with_cache_read_weight (into_settlement x usage) (tq_cache_read_bp q).

Definition start_task (cfg : Config) (q : TrackedCall) (id : Z) (runtime : bool) (now : Z) (s : JSys) : TaskState * JSys :=
  match PreparedAdmission_new (tq_request_id q) (tq_scope q) (tq_ceiling q) (lease_ttl cfg q) 100000 with
  | Err _ => reply id TrAccounting s
  | Ok p =>
      match submit id (IAdmission (correlated p)) runtime now s with
      | (Ok epoch, s) => (TsAdmitting epoch, s)
      | (Err _, s) => reply id TrAccounting s
      end
  end.
(** A refusal to schedule the authorization closes the intent. *)
Definition authorize_or_close (id : Z) (pending : PendingDispatch) (runtime : bool) (now : Z) (s : JSys) : TaskState * JSys :=
  match submit id (IWork (WAuthorize pending)) runtime now s with
  | (Ok epoch, s) => (TsAuthorizing epoch, s)
  | (Err (IWork (WAuthorize pending)), s) =>
      match submit id (IWork (WClose pending)) runtime now s with
      | (Ok epoch, s) => (TsClosing epoch, s)
      | (Err _, s) => reply id TrAccounting s
      end
  | (Err _, s) => reply id TrAccounting s
  end.
Definition admitted (id epoch : Z) (runtime : bool) (now : Z) (s : JSys) : TaskState * JSys :=
  match take_ticket id epoch KAdmission s with
  | (Some (RAdmission (AdmissionPrepared pending)), s) => authorize_or_close id pending runtime now s
  | (Some (RAdmission (AdmissionDenied _ _)), s) => reply id TrBudget s
  | (_, s) => reply id TrAccounting s
  end.
(** A permit that crossed the cutoff is not used. *)
Definition authorized (id epoch : Z) (s : JSys) : TaskState * JSys :=
  match take_ticket id epoch KWork s with
  | (Some (RWork (ODispatch (DispatchAuthorized x))), s) =>
      match try_operation (js_lc s) with
      | (true, l) => (TsDispatched x, with_lifecycle l s)
      | (false, l) => reply id TrAccounting (with_lifecycle l s)
      end
  | (_, s) => reply id TrAccounting s
  end.
(** [finalize_owned], up to its wait. *)
Definition finalize_owned (q : TrackedCall) (id : Z) (x : AuthorizedExecution) (usage : UsageV2) (runtime : bool) (now : Z)
    (s : JSys) : TaskState * JSys :=
  match submit id (IWork (WSettle (settlement_of_call q x usage))) runtime now s with
  | (Ok epoch, s) => (TsSettling x epoch, s)
  | (Err _, s) => reply id TrAccounting s
  end.
Definition settled (id epoch : Z) (s : JSys) : TaskState * JSys :=
  match take_ticket id epoch KWork s with
  | (Some (RWork (OSettlement (AttemptCommitted _ _))), s) => reply id TrAnswer s
  | (_, s) => reply id TrAccounting s
  end.

(** The guard of a dispatched call lives as long as its accounting. *)
Definition end_operation (r : TaskState * JSys) : TaskState * JSys :=
  match r with
  | (TsReplied a, s) => (TsReplied a, with_lifecycle (drop_guard (js_lc s)) s)
  | r => r
  end.

Definition task_next (cfg : Config) (q : TrackedCall) (id : Z) (t : TaskState) (e : TaskEvent) (s : JSys)
    : option (TaskState * JSys) :=
  match t, e with
  | TsReplied _, _ => None
  | (TsDispatched _ | TsSettling _ _), EvAborted => Some (end_operation (reply id TrAccounting s))
  | _, EvAborted => Some (reply id TrAccounting s)
  | TsStart, EvStart runtime now => Some (start_task cfg q id runtime now s)
  | (TsAdmitting _ | TsAuthorizing _ | TsClosing _), EvTimeout => Some (reply id TrAccounting s)
  | TsSettling _ _, EvTimeout => Some (end_operation (reply id TrAccounting s))
  | TsAdmitting epoch, EvReady runtime now => Some (admitted id epoch runtime now s)
  | TsAuthorizing epoch, EvReady _ _ => Some (authorized id epoch s)
  | TsClosing epoch, EvReady _ _ => Some (reply id TrAccounting (take_ticket id epoch KWork s).2)
  | TsDispatched x, EvAnswered usage runtime now => Some (end_operation (finalize_owned q id x usage runtime now s))
  | TsSettling _ epoch, EvReady _ _ => Some (end_operation (settled id epoch s))
  | _, _ => None
  end.

(** ** Recovery *)

(** What recovery shares with the rest of the process. *)
Record World := MkWorld { wd_registry : Registry; wd_lifecycle : Lifecycle; wd_ledger : Mutex ProxyLedger }.

Definition set_inventory (p : ScopePage) (r : Recovery) : Recovery :=
  MkRecovery (scp_next p) (head (scp_scopes p)) (rv_page r) (rv_retained_after r) (rv_complete r) (rv_unresolved r).
Definition set_page (p : option RecoveryCursor) (r : Recovery) : Recovery :=
  MkRecovery (rv_scopes r) (match p with None => None | Some _ => rv_current r end) p (rv_retained_after r)
    (rv_complete r) (rv_unresolved r).
Definition set_retained_after (a : option Z) (r : Recovery) : Recovery :=
  MkRecovery (rv_scopes r) (rv_current r) (rv_page r) a (rv_complete r) (rv_unresolved r).
Definition set_complete (b : bool) (r : Recovery) : Recovery :=
  MkRecovery (rv_scopes r) (rv_current r) (rv_page r) (rv_retained_after r) b (rv_unresolved r).
Definition set_unresolved (n : Z) (r : Recovery) : Recovery :=
  MkRecovery (rv_scopes r) (rv_current r) (rv_page r) (rv_retained_after r) (rv_complete r) n.

Section Recovery.
Context `{Calendar} `{UsageCodec}.

(** The entries of a page; the [i]th settlement uses the entropy and the
    clock [reads i]. *)
Fixpoint settle_entries (scope : string) (entries : list RecoveryEntry) (reads : nat -> Entropy * Z) (i : nat) (count : Z)
    (c : Recovery) (d : ShardedLedger) : result EvidenceError Z * Recovery * ShardedLedger :=
  match entries with
  | [] => (Ok count, c, d)
  | e :: entries =>
      match re_state e with
      | RReadyToSettle =>
          match sh_settle_terminal d scope (re_execution_id e) (reads i).1 (reads i).2 with
          | (Ok _, d) => settle_entries scope entries reads (S i) (count + 1) c d
          | (Err er, d) => (Err er, c, d)
          end
      | RSettled _ | RClosedBeforeDispatch _ => settle_entries scope entries reads i count c d
      | _ => settle_entries scope entries reads i count (set_unresolved (rv_unresolved c + 1) c) d
      end
  end.

(** The section under the ledger lock. *)
Definition next_scope (c : Recovery) (d : ShardedLedger) : result EvidenceError Recovery * ShardedLedger :=
  match rv_current c with
  | Some _ => (Ok c, d)
  | None =>
      let '(r, d) := sh_recovery_scopes d (rv_scopes c) 1 in
      (p ← r; Ok (set_inventory p c), d)
  end.
Definition recovery_slice (reads : nat -> Entropy * Z) (c : Recovery) (d : ShardedLedger)
    : result EvidenceError Z * Recovery * ShardedLedger :=
  match next_scope c d with
  | (Err e, d) => (Err e, c, d)
  | (Ok c, d) =>
      match rv_current c with
      | None => (Ok 0, c, d)
      | Some scope =>
          match sh_recovery_page d scope (rv_page c) 32 with
          | (Err e, d) => (Err e, c, d)
          | (Ok page, d) =>
              match settle_entries scope (rp_entries page) reads 0 0 c d with
              | (Ok count, c, d) => (Ok count, set_page (rp_next page) c, d)
              | r => r
              end
          end
      end
  end.

(** [retry_terminal]: [worked] says whether the work ended without a panic
    and the ledger was still there. *)
Definition retry_terminal (worked : bool) (rd : Reads) (c : Recovery) (w : World) : Recovery * World :=
  match retry_begin (wd_registry w) (rv_retained_after c) with
  | (None, after, g) => (set_retained_after after c, MkWorld g (wd_lifecycle w) (wd_ledger w))
  | (Some (id, epoch, work), after, g) =>
      let '(o, m) := if worked then let '(o, m) := run_work work (wd_ledger w) rd in (Some (RWork o), m) else (None, wd_ledger w) in
      (set_retained_after after c, MkWorld (retry_end (finish g id epoch o) id) (wd_lifecycle w) m)
  end.

(** One turn of the loop: what happens before it and between its two
    critical sections, whether a second has passed, the clock, and what the
    retry and the settlements read. *)
Record Round := MkRound {
  ro_before : World -> World; ro_late : bool; ro_now : Z; ro_worked : bool; ro_reads : Reads;
  ro_between : World -> World; ro_settles : nat -> Entropy * Z }.

Definition out_of_time (shutdown : bool) (ro : Round) (w : World) : bool :=
  ro_late ro || (negb shutdown && negb (is_running (wd_lifecycle w)))
  || bool_decide (remaining (wd_lifecycle w) (ro_now ro) = Some 0).

Definition slice_under_lock (reads : nat -> Entropy * Z) (c : Recovery) (m : Mutex ProxyLedger)
    : result Failure Z * Recovery * Mutex ProxyLedger :=
  let '(r, m) := with_durable_ledger m (fun d => let '(r, c, d) := recovery_slice reads c d in (Ok (r, c), d)) in
  match r with
  | Ok (r, c) => (map_err EvidenceFailed r, c, m)
  | Err f => (Err f, c, m)
  end.

Fixpoint recover_rounds (shutdown : bool) (rounds : nat -> Round) (fuel i : nat) (c : Recovery) (w : World) (total : Z)
    : result string Z * Recovery * World :=
  match fuel with
  | O => (Ok total, c, w)
  | S fuel =>
      let ro := rounds i in
      let w := ro_before ro w in
      if out_of_time shutdown ro w then (Ok total, c, w)
      else
        let '(c, w) := retry_terminal (ro_worked ro) (ro_reads ro) c w in
        let w := ro_between ro w in
        let '(r, c, m) := slice_under_lock (ro_settles ro) c (wd_ledger w) in
        let w := MkWorld (wd_registry w) (wd_lifecycle w) m in
        match r with
        | Err _ => (Err "accounting recovery unresolved", c, w)
        | Ok n =>
            if bool_decide (rv_current c = None) && bool_decide (rv_scopes c = None)
            then (Ok (total + n), set_complete true c, w)
            else recover_rounds shutdown rounds fuel (S i) c w (total + n)
        end
  end.

Definition begin_sweep (shutdown : bool) (c : Recovery) : Recovery :=
  let c := if shutdown then Recovery_default else c in
  let c := if bool_decide (rv_current c = None) && bool_decide (rv_scopes c = None) then set_unresolved 0 c else c in
  set_complete false c.

(** The worker of [recover_inner]; a recovery that runs holds its lock. *)
Definition recover_worker (shutdown : bool) (rounds : nat -> Round) (o : Buffered) (s : State) : result string Z * State :=
  if mx_locked (bf_recovery o) || mx_poisoned (bf_recovery o) then (Err "recovery already running", s)
  else
    let '(r, c, w) := recover_rounds shutdown rounds 8 0 (begin_sweep shutdown (mx_value (bf_recovery o)))
                        (MkWorld (bf_jobs o) (st_lifecycle s) (st_ledger s)) 0 in
    (r, MkState (Some (MkBuffered (bf_config o) (wd_registry w) (MkMutex false false c))) (wd_lifecycle w) (wd_ledger w)).
Definition recover_inner (shutdown : bool) (rounds : nat -> Round) (s : State) : result string Z * State :=
  match st_owner s with
  | None => (Ok 0, s)
  | Some o =>
      if shutdown then recover_worker true rounds o s
      else
        match try_operation (st_lifecycle s) with
        | (false, _) => (Err "accounting closed", s)
        | (true, l) =>
            let '(r, s) := recover_worker false rounds o (MkState (st_owner s) l (st_ledger s)) in
            (r, MkState (st_owner s) (drop_guard (st_lifecycle s)) (st_ledger s))
        end
  end.
Definition recover (rounds : nat -> Round) (s : State) : result string Z * State := recover_inner false rounds s.

(** [late]: the wait for the worker met the deadline of the shutdown. *)
Definition finish_shutdown (rounds : nat -> Round) (late : bool) (s : State) : result string bool * State :=
  match st_owner s with
  | None => (Ok true, s)
  | Some _ =>
      if is_running (st_lifecycle s) || negb (active_operations (st_lifecycle s) =? 0)
      then (Err "accounting has not drained", s)
      else match lc_deadline (st_lifecycle s) with
      | None => (Err "shutdown not started", s)
      | Some _ =>
          let '(r, s) := recover_inner true rounds s in
          if late then (Err "accounting shutdown deadline exceeded", s)
          else match r with
          | Err e => (Err e, s)
          | Ok _ =>
              match st_owner s with
              | None => (Ok true, s)
              | Some o =>
                  if mx_locked (bf_recovery o) || mx_poisoned (bf_recovery o) then (Err "recovery still active", s)
                  else
                    let c := mx_value (bf_recovery o) in
                    (Ok (rv_complete c && (rv_unresolved c =? 0) && (retained (bf_jobs o) =? 0)), s)
              end
          end
      end
  end.
End Recovery.
