(* ===== verification/BufferedProps.v ===== *)
(** What [Buffered] promises: a clean shutdown leaves no lease of a tracked
    execution held, and how much it can inventory; a dispatched execution is
    the one that was admitted, its terminal usage is always retained, and a
    successful answer follows a committed settlement. *)

From stdpp Require Import relations.
From Stdlib Require Import OrdersEx.
From S2P Require Import Prelude Ledger InMemory Budget Sql SqlLedger SqlContract Usage Allowance.
From S2P Require Import Evidence EvidenceOps EvidenceInv EvidenceProps Sharded ProxyLedger Lifecycle Settlement Jobs JobsProps StreamEncoder Deadlines Buffered.
#[local] Open Scope Z_scope.

(** ** The order of scopes *)

Lemma string_compare_OT a : forall b, String.compare a b = String_as_OT.compare a b.
Proof. induction a as [|x a IH]; intros [|y b]; [done..|]. cbn [String.compare String_as_OT.compare]. rewrite IH. done. Qed.
Lemma ltb_lt a b : String.ltb a b = true <-> String_as_OT.lt a b.
Proof. unfold String.ltb, String_as_OT.lt. rewrite string_compare_OT. by destruct (String_as_OT.compare a b). Qed.
Lemma leb_cases a b : String.leb a b = true <-> String_as_OT.lt a b \/ a = b.
Proof.
  unfold String.leb, String_as_OT.lt. rewrite string_compare_OT. pose proof (String_as_OT.compare_spec a b) as Hs.
  destruct (String_as_OT.compare a b); inversion Hs as [He|Hl|Hl]; subst; split; try done; auto.
  intros [?| ->]; [done|]. by apply (StrictOrder_Irreflexive (R := String_as_OT.lt)) in Hl.
Qed.
Lemma not_after a b : String.ltb a b = false -> String.ltb b a = true \/ b = a.
Proof.
  intros Hn. pose proof (String_as_OT.compare_spec a b) as Hs. rewrite (ltb_lt b a).
  unfold String.ltb in Hn. rewrite string_compare_OT in Hn. destruct (String_as_OT.compare a b); inversion Hs; auto. done.
Qed.
Lemma not_before_empty s : s <> "" -> String.ltb "" s = true.
Proof. by destruct s. Qed.
#[export] Instance opt_scope_le_trans : Transitive opt_scope_le.
Proof.
  intros [a|] [b|] [c|]; cbn; try done. rewrite !leb_cases. intros [?| ->] [?| ->]; auto. left. by etransitivity.
Qed.
#[export] Instance opt_scope_le_total : base.Total opt_scope_le.
Proof. intros [a|] [b|]; cbn; auto. apply String.leb_total. Qed.
#[export] Instance intent_le_trans : Transitive intent_le.
Proof. unfold intent_le. intros ???. lia. Qed.
#[export] Instance intent_le_total : base.Total intent_le.
Proof. unfold intent_le. intros ??. lia. Qed.

(** ** Concluded executions *)

(** The lease is settled: by a closure, with nothing, or by a receipt, with
    its charge. *)
Definition concluded (d : Db) (e : string) (id : Z) : Prop :=
  exists row, budget_reservation d !! id = Some row /\ rr_settled row = 1 /\
    ((exists f, budget_dispatch_fence d !! e = Some f /\ fr_phase f = 2 /\ rr_actual row = 0) \/
     (exists k ob, budget_settlement_outbox d !! k = Some ob /\ ob_reservation_id ob = id /\ ob_charged_tokens ob = rr_actual row)).

Lemma concluded_stays d d' e id : evolves d d' -> concluded d e id -> concluded d' e id.
Proof.
  intros Hev (row & Hr & Hs & Hc). exists row. split; [apply (evo_settled _ _ Hev); [done|lia]|]. split; [done|].
  destruct Hc as [(f & Hf & Hp & Ha)|(k & ob & Ho & Hi & Hch)].
  - left. exists f. destruct (evo_fences _ _ Hev _ _ Hf) as (f' & Hf' & He). rewrite (He ltac:(lia)) in Hf'. done.
  - right. destruct (evo_outbox _ _ Hev _ _ Ho) as (ob' & Ho' & K1 & _ & K3 & _). exists k, ob'. split; [done|]. split; congruence.
Qed.

Section Entries.
Context `{Calendar} `{UsageCodec}.

Lemma receipt_concludes sc e id charge s r s' : checked_terminal_receipt sc id charge s = (Ok (Some r), s') -> concluded (st_db s) e id.
Proof.
  unfold checked_terminal_receipt, equery. intros Hc. apply M_bind_ok in Hc as (row & s1 & Hq & Hc). apply query_ok in Hq as [Hq E1].
  apply M_bind_ok in Hc as (stored & s2 & Hq2 & Hc). apply query_ok in Hq2 as [Hq2 E2]. rewrite E1 in Hq2.
  apply M_bind_ok in Hc as (? & ? & Hb & Hc). apply bail_if_ok in Hb as [_ ->]. apply ok_or_ok in Hq.
  destruct stored as [r'|].
  - destruct (_ && _) eqn:Hg in Hc; [|done]. bools.
    unfold optional in Hq2. destruct (outbox_of (st_db s) id) as [p|] eqn:Ho; [|done]. apply outbox_of_some in Ho as [Ho Hi].
    apply result_bind_ok in Hq2 as (rc0 & Hx & Hq2). injection Hq2 as ->. unfold guarded_receipt in Hx. destruct (_ && _); [|done].
    unfold receipt_row in Hx. inv_ok. exists row. split; [done|]. split; [lia|]. right. exists p.1, p.2. split; [done|]. split; [done|].
    unfold col_u64 in *. repeat case_match; simplify_eq/=; lia.
  - destruct (_ && _); [done|]. by destruct (_ =? _).
Qed.
Lemma fence_concludes sc e id s c s' : checked_fence sc e id s = (Ok (Some (FClosed c)), s') -> concluded (st_db s) e id.
Proof.
  unfold checked_fence, equery. intros Hc. apply M_bind_ok in Hc as (f & s1 & Hq & Hc). apply query_ok in Hq as [Hf E1]. injection Hf as Hf.
  destruct f as [f|]; [|done]. apply M_bind_ok in Hc as (? & ? & Hb & Hc). apply bail_if_ok in Hb as [_ ->].
  apply M_bind_ok in Hc as (lease & s2 & Hq & Hc). apply query_ok in Hq as [Hl E2]. injection Hl as Hl. rewrite E1 in Hl.
  apply M_bind_ok in Hc as (row & ? & Hr & Hc). apply lift_ok in Hr as [Hr%ok_or_ok ->]. subst lease.
  apply M_bind_ok in Hc as (? & ? & Hb & Hc). apply bail_if_ok in Hb as [_ ->].
  apply M_bind_ok in Hc as (? & ? & _ & Hc). apply M_bind_ok in Hc as (? & ? & _ & Hc).
  destruct (fr_transitioned_at f) as [t|].
  - destruct (fr_phase f =? 1); [by inv_m|]. destruct (_ && _) eqn:Hg in Hc; [|done]. bools.
    exists row. split; [done|]. split; [lia|]. left. exists f. split; [done|]. lia.
  - by destruct (_ && _).
Qed.

Lemma keeps_recovery_entry (R : Db -> Db -> Prop) `{!PreOrder R} sc p : keeps R (recovery_entry sc p).
Proof. unfold recovery_entry. keeps. Qed.

(** What an entry says of its execution, which reading it does not change. *)
Definition entry_done (en : RecoveryEntry) : bool :=
  match re_state en with RSettled _ | RClosedBeforeDispatch _ => true | _ => false end.
Lemma recovery_entry_ok sc p s en s' : recovery_entry sc p s = (Ok en, s') ->
  (re_execution_id en, re_reservation_id en) = p
  /\ (entry_done en = true -> concluded (st_db s) (re_execution_id en) (re_reservation_id en)).
Proof.
  unfold recovery_entry. destruct p as [e id]. intros Hr.
  apply M_bind_ok in Hr as (? & ? & Hl & Hr). apply lift_ok in Hl as [_ ->].
  apply M_bind_ok in Hr as (? & ? & Hl & Hr). apply lift_ok in Hl as [_ ->].
  apply M_bind_ok in Hr as (fence & s1 & Hf & Hr). pose proof (keeps_checked_fence eq _ _ _ _ _ _ Hf) as E1.
  assert (Hread : forall s s0, s0 = s -> (observed ← read_observation e id sc; charge ← lift (observed_charge observed);
      receipt ← checked_terminal_receipt sc id charge;
      mret (MkEntry e id (match receipt, observed, charge with
        | Some r, _, _ => RSettled r
        | None, None, _ => if bool_decide (is_Some fence) then RMayHaveDispatched else RMissingObservation
        | None, Some _, None => RUnresolvedObservation
        | None, Some _, Some _ => RReadyToSettle end))) s0 = (Ok en, s') ->
    (re_execution_id en, re_reservation_id en) = (e, id) /\ (entry_done en = true -> concluded (st_db s) (re_execution_id en) (re_reservation_id en))).
  { clear. intros s s0 -> Hr. apply M_bind_ok in Hr as (observed & s2 & Ho & Hr). pose proof (keeps_read_observation eq _ _ _ _ _ _ Ho) as E2.
    apply M_bind_ok in Hr as (charge & ? & Hl & Hr). apply lift_ok in Hl as [_ ->].
    apply M_bind_ok in Hr as (receipt & s3 & Hc & Hr). injection Hr as <- _. split; [done|]. cbn. unfold entry_done. cbn. intros Hd.
    destruct receipt as [r|]; [rewrite E2; by eapply receipt_concludes|]. by destruct observed, charge, fence. }
  rewrite E1. destruct fence as [[| |c]|].
  - injection Hr as <- _. done.
  - by apply (Hread s1 s1).
  - injection Hr as <- _. split; [done|]. intros _. rewrite <- E1. by eapply fence_concludes.
  - by apply (Hread s1 s1).
Qed.
Lemma recovery_entries_ok sc rows : forall s es s', recovery_entries sc rows s = (Ok es, s') ->
  st_db s' = st_db s /\ Forall2 (fun p en => (re_execution_id en, re_reservation_id en) = p
    /\ (entry_done en = true -> concluded (st_db s) (re_execution_id en) (re_reservation_id en))) rows es.
Proof.
  induction rows as [|p rows IH]; intros s es s' Hr; cbn in Hr; [injection Hr as <- <-; by split|].
  apply M_bind_ok in Hr as (en & s1 & He & Hr). apply M_bind_ok in Hr as (es' & s2 & Hes & Hr). injection Hr as <- <-.
  pose proof (keeps_recovery_entry eq _ _ _ _ _ He) as E1. apply IH in Hes as [E2 Hf]. rewrite <- E1 in Hf, E2. split; [done|].
  constructor; [by eapply recovery_entry_ok|done].
Qed.

(** The rows of a scope after an identity, up to another. *)
Definition page_rows (sc : string) (after through : Z) (d : Db) : list (string * Z) :=
  merge_sort intent_le (filter (fun p => after < p.2 <= through) (scoped_intents sc d)).
Definition page_bounds (sc : string) (cursor : option RecoveryCursor) (d : Db) : Z * Z :=
  match cursor with Some c => (rc_after_id c, rc_through_id c) | None => (0, zmax_list (scoped_intents sc d).*2) end.
Lemma recovery_page_ok sc cursor s page s' : recovery_page_durable sc cursor 32 s = (Ok page, s') ->
  let d := st_db s in
  let '(after, through) := page_bounds sc cursor d in
  let rows := page_rows sc after through d in
  st_db s' = d /\ orphaned d = false
  /\ Forall2 (fun p en => (re_execution_id en, re_reservation_id en) = p
       /\ (entry_done en = true -> concluded d (re_execution_id en) (re_reservation_id en))) (list.take 32 rows) (rp_entries page)
  /\ rp_next page = if (32 <? length rows)%nat then (fun en => MkCursor sc (re_reservation_id en) through) <$> last (rp_entries page) else None.
Proof.
  unfold recovery_page_durable. intros Hr.
  apply M_bind_ok in Hr as (? & ? & Hl & Hr). apply lift_ok in Hl as [_ ->].
  apply M_bind_ok in Hr as (? & ? & Hb & Hr). apply bail_if_ok in Hb as [_ ->].
  apply M_bind_ok in Hr as (? & s0 & Hc & Hr). assert (E0 : s0 = s).
  { destruct cursor as [c|]; [|by injection Hc]. apply M_bind_ok in Hc as (? & ? & Hb & Hc). apply bail_if_ok in Hb as [_ ->].
    by apply bail_if_ok in Hc as [_ ->]. }
  subst s0. apply transaction_ok in Hr as (s0 & s1 & cm & E0 & Hb & Es').
  apply M_bind_ok in Hb as (orphan & s2 & Hq & Hb). apply query_ok in Hq as [Hq E2]. injection Hq as <-. rewrite E0 in *.
  apply M_bind_ok in Hb as (? & ? & Hl & Hb). apply bail_if_ok in Hl as [Hor ->].
  apply M_bind_ok in Hb as ([after through] & s3 & Hab & Hb).
  assert (Hbounds : page_bounds sc cursor (st_db s) = (after, through) /\ st_db s3 = st_db s).
  { destruct cursor as [c|]; [injection Hab as <- <- <-; by split|].
    apply M_bind_ok in Hab as (m & s4 & Hq & Hab). apply query_ok in Hq as [Hq E4]. injection Hab as <- <- <-. injection Hq as <-.
    rewrite E2 in *. by split. }
  destruct Hbounds as [Hbounds E3]. cbv zeta. rewrite Hbounds. cbn beta iota in Hb.
  apply M_bind_ok in Hb as (rows & s4 & Hq & Hb). apply query_ok in Hq as [Hq E4]. injection Hq as Hrows. rewrite E3 in *.
  apply M_bind_ok in Hb as (entries & s5 & He & Hb). injection Hb as <- <- <-.
  apply recovery_entries_ok in He as [E5 He]. rewrite E4 in *.
  change (Z.to_nat (32 + 1)) with 33%nat in Hrows. change (Z.to_nat 32) with 32%nat in He.
  fold (page_rows sc after through (st_db s)) in Hrows. set (all := page_rows sc after through (st_db s)) in *.
  assert (Ht : list.take 32 rows = list.take 32 all) by (rewrite <- Hrows, take_take; done). rewrite Ht in He.
  split; [by rewrite Es', E5|]. split; [done|]. split; [done|]. cbn [rp_next rp_entries].
  assert (Hm : (32 <? Z.of_nat (length rows)) = (32 <? length all)%nat).
  { rewrite <- Hrows, length_take. apply eq_true_iff_eq. rewrite Z.ltb_lt, Nat.ltb_lt. lia. }
  rewrite <- Hm. done.
Qed.

(** A settlement that answers has concluded the execution. *)
Lemma receipt_none sc id charge s s' : checked_terminal_receipt sc id charge s = (Ok None, s') -> outbox_of (st_db s) id = None.
Proof.
  unfold checked_terminal_receipt, equery. intros Hc. apply M_bind_ok in Hc as (row & s1 & Hq & Hc). apply query_ok in Hq as [Hq E1].
  apply M_bind_ok in Hc as (stored & s2 & Hq2 & Hc). apply query_ok in Hq2 as [Hq2 E2]. rewrite E1 in Hq2.
  apply M_bind_ok in Hc as (? & ? & Hb & Hc). destruct stored as [r|]; [by destruct (_ && _)|].
  unfold optional in Hq2. destruct (outbox_of (st_db s) id) as [p|]; [|done]. apply result_bind_ok in Hq2 as (? & _ & Hq2). done.
Qed.
Lemma settle_concludes sc e ent clk s out s' : settle_terminal_durable sc e ent clk s = (Ok out, s') ->
  exists i, budget_execution_intent (st_db s) !! e = Some i /\ concluded (st_db s') e (ir_reservation_id i).
Proof.
  intros Hs. destruct out as [r|r].
  - apply settle_terminal_committed in Hs as (charge & i & row & o & Hso & _). exists i. split; [apply Hso|].
    rewrite (so_db _ _ _ _ _ _ _ _ _ _ Hso). exists (settle_row charge (unix_timestamp clk) row). cbn. split; [apply lookup_insert_eq|].
    split; [done|]. right. eexists _, _. split; [apply lookup_insert_eq|]. done.
  - unfold settle_terminal_durable in Hs.
    apply M_bind_ok in Hs as (? & ? & Hl & Hs). apply lift_ok in Hl as [_ ->].
    apply M_bind_ok in Hs as (? & ? & Hl & Hs). apply lift_ok in Hl as [_ ->].
    apply transaction_ok in Hs as (s0 & s1 & c & E0 & Hb & Es').
    apply M_bind_ok in Hb as (b & t1 & Hbind & Hb). pose proof (keeps_intent_binding eq _ _ _ _ Hbind) as E1.
    apply M_bind_ok in Hb as ([[rid sc'] st] & t2 & Hl & Hb). apply lift_ok in Hl as [Hl%ok_or_ok ->]. subst b.
    apply M_bind_ok in Hb as (? & ? & Hl & Hb). apply bail_if_ok in Hl as [_ ->].
    apply M_bind_ok in Hb as (? & t2 & Hobs & Hb). pose proof (keeps_require_observable eq _ _ _ _ _ _ Hobs) as E2.
    apply M_bind_ok in Hb as (oo & t3 & Hread & Hb). pose proof (keeps_read_observation eq _ _ _ _ _ _ Hread) as E3.
    apply M_bind_ok in Hb as (? & ? & Hl & Hb). apply lift_ok in Hl as [_ ->].
    apply M_bind_ok in Hb as (id & ? & Hl & Hb). apply lift_ok in Hl as [Hid%ok_or_ok ->].
    apply M_bind_ok in Hb as (charge & ? & Hl & Hb). apply lift_ok in Hl as [_ ->].
    apply M_bind_ok in Hb as (rc & t4 & Hrec & Hb). pose proof (keeps_checked_terminal_receipt eq _ _ _ _ _ _ Hrec) as E4.
    apply M_bind_ok in Hb as (out & t5 & Hset & Hb). injection Hb as -> <- <-.
    apply settle_receipt_ok in Hset. cbn in Hset. destruct Hset as [E5 (p & Ho & _)].
    unfold try_i64 in Hid. destruct (rid <=? i64_max); [|done]. injection Hid as <-.
    unfold intent_binding, equery in Hbind. apply M_bind_ok in Hbind as (b & u1 & Hq & Hbind). apply query_ok in Hq as [Hq Eu]. injection Hq as Hq.
    rewrite E0 in Hq. destruct (budget_execution_intent (st_db s) !! e) as [i|] eqn:Hi; cbn in Hq; subst b; [|by inv_m].
    destruct (budget_reservation (st_db s) !! ir_reservation_id i) as [row|]; [|done]. injection Hbind as <- _ _ _.
    exists i. split; [done|]. rewrite Es', E5, <- E4. destruct rc as [r'|]; [by eapply receipt_concludes|].
    apply receipt_none in Hrec. rewrite E4 in Hrec. congruence.
Qed.

(** ** The inventory of scopes *)

Lemma zmax_ge l x : x ∈ l -> x <= zmax_list l.
Proof. induction l as [|y l IH]; intros Hx; [by apply elem_of_nil in Hx|]. change (zmax_list (y :: l)) with (Z.max y (zmax_list l)). apply elem_of_cons in Hx as [->|Hx]; [lia|]. specialize (IH Hx). lia. Qed.
Lemma scoped_intents_spec sc d e id : (e, id) ∈ scoped_intents sc d <->
  exists i row, budget_execution_intent d !! e = Some i /\ id = ir_reservation_id i /\ budget_reservation d !! id = Some row /\ rr_scope row = sc.
Proof.
  unfold scoped_intents. rewrite list_elem_of_omap. split.
  - intros ([e' i] & Hin & Hx). apply elem_of_map_to_list in Hin. cbn in Hx.
    destruct (budget_reservation d !! ir_reservation_id i) as [row|] eqn:Hr; [|done]. cbn in Hx. destruct (decide _) as [Hsc|]; [|done].
    injection Hx as <- <-. by exists i, row.
  - intros (i & row & Hi & -> & Hr & Hsc). exists (e, i). split; [by apply elem_of_map_to_list|]. cbn. rewrite Hr. cbn.
    by rewrite decide_True.
Qed.
Lemma intent_scopes_spec through after d e i row : budget_execution_intent d !! e = Some i -> ir_reservation_id i <= through ->
  budget_reservation d !! ir_reservation_id i = Some row -> String.ltb after (rr_scope row) = true ->
  Some (rr_scope row) ∈ intent_scopes through after d.
Proof.
  intros Hi Ht Hr Hl. unfold intent_scopes. apply elem_of_remove_dups, list_elem_of_filter. split; [done|].
  apply list_elem_of_fmap. exists (e, i). split; [cbn; by rewrite Hr|]. apply list_elem_of_filter. split; [done|].
  by apply elem_of_map_to_list.
Qed.
Definition scope_bounds (cursor : option ScopeCursor) (d : Db) : Z * string :=
  match cursor with
  | Some c => (sc_through_id c, sc_after c)
  | None => (zmax_list ((fun p => ir_reservation_id p.2) <$> map_to_list (budget_execution_intent d)), "")
  end.
Definition intent_in (d : Db) (e : string) (i : IntentRow) (row : ReservationRow) : Prop :=
  budget_execution_intent d !! e = Some i /\ budget_reservation d !! ir_reservation_id i = Some row.
Lemma recovery_scopes_ok cursor s p s' : recovery_scopes_durable cursor 1 s = (Ok p, s') ->
  let d := st_db s in
  let '(through, after) := scope_bounds cursor d in
  st_db s' = d /\
  match scp_scopes p with
  | [] => scp_next p = None
      /\ forall e i row, intent_in d e i row -> ir_reservation_id i <= through -> String.ltb after (rr_scope row) = false
  | sc :: _ => scp_next p = Some (MkScopeCursor sc through)
      /\ forall e i row, intent_in d e i row -> ir_reservation_id i <= through -> String.ltb (rr_scope row) sc = true ->
           String.ltb after (rr_scope row) = false
  end.
Proof.
  unfold recovery_scopes_durable. intros Hr.
  apply M_bind_ok in Hr as (? & ? & Hb & Hr). apply bail_if_ok in Hb as [_ ->].
  apply transaction_ok in Hr as (s0 & s1 & cm & E0 & Hb & Es').
  apply M_bind_ok in Hb as (through & s2 & Hab & Hb).
  assert (Hbounds : scope_bounds cursor (st_db s) = (through, match cursor with Some c => sc_after c | None => "" end) /\ st_db s2 = st_db s).
  { destruct cursor as [c|]; [by injection Hab as <- <-|]. apply query_ok in Hab as [Hq E2]. injection Hq as <-. rewrite E0 in *. by split. }
  destruct Hbounds as [Hbounds E2]. cbv zeta. rewrite Hbounds. set (after := match cursor with Some c => sc_after c | None => "" end) in *.
  apply M_bind_ok in Hb as (rows & s3 & Hq & Hb). apply query_ok in Hq as [Hq E3]. injection Hq as Hrows. rewrite E2 in *.
  apply M_bind_ok in Hb as (scopes & ? & Hl & Hb). apply lift_ok in Hl as [Hl ->].
  apply M_bind_ok in Hb as (? & ? & Hv & Hb). apply lift_ok in Hv as [_ ->]. injection Hb as <- <- <-.
  split; [by rewrite Es'|]. cbn [scp_scopes scp_next]. change (Z.to_nat 1) with 1%nat in Hrows.
  assert (Hmem : forall x, x ∈ merge_sort opt_scope_le (intent_scopes through after (st_db s)) <-> x ∈ intent_scopes through after (st_db s)).
  { intros ?. by rewrite merge_sort_Permutation. }
  pose proof (StronglySorted_merge_sort opt_scope_le (intent_scopes through after (st_db s))) as Hsort.
  destruct (merge_sort opt_scope_le (intent_scopes through after (st_db s))) as [|first l]; cbn in Hrows; subst rows; cbn in Hl.
  - injection Hl as <-. cbn. split; [done|]. intros e i row [Hi Hr] Ht. apply not_true_iff_false. intros Hlt.
    pose proof (intent_scopes_spec _ _ _ _ _ _ Hi Ht Hr Hlt) as Hin. apply Hmem in Hin. by apply elem_of_nil in Hin.
  - destruct first as [sc|]; [|done]. cbn in Hl. injection Hl as <-. cbn. split; [done|]. intros e i row [Hi Hr] Ht Hlt.
    apply not_true_iff_false. intros Ha. pose proof (intent_scopes_spec _ _ _ _ _ _ Hi Ht Hr Ha) as Hin. apply Hmem in Hin.
    apply StronglySorted_cons in Hsort as [Hmin _]. apply ltb_lt in Hlt.
    assert (Hle : opt_scope_le (Some sc) (Some (rr_scope row))).
    { apply elem_of_cons in Hin as [Hin|Hin]; [rewrite Hin; cbn; apply leb_cases; by right|]. rewrite Forall_forall in Hmin. by apply Hmin. }
    apply leb_cases in Hle as [Hle|Hle].
    + apply (StrictOrder_Irreflexive (R := String_as_OT.lt) sc). by etransitivity.
    + subst sc. by apply (StrictOrder_Irreflexive (R := String_as_OT.lt) (rr_scope row)).
Qed.
End Entries.

(** ** The sweep *)

(** An execution that a tracked admission made. *)
Definition tracked_in (d : Db) (e : string) (i : IntentRow) (row : ReservationRow) : Prop :=
  intent_in d e i row /\ rr_scope row <> "" /\ 0 < ir_reservation_id i.

Lemma intent_in_evolves d d' e i row : evolves d d' -> intent_in d e i row -> exists row', intent_in d' e i row' /\ rr_scope row' = rr_scope row.
Proof.
  intros Hev [Hi Hr]. destruct (evo_tracked _ _ Hev _ _ Hr) as (row' & Hr' & Hk & _); [apply tracked_spec; by exists e, i|].
  exists row'. split; [|done]. split; [exact (lookup_weaken _ _ _ _ Hi (evo_intents _ _ Hev))|done].
Qed.

(** What the cursors of a sweep have left behind. *)
Definition left_behind (c : Recovery) (sc : string) (id : Z) : Prop :=
  match rv_scopes c with
  | None => False
  | Some k => String.ltb sc (sc_after k) = true
              \/ (sc = sc_after k /\ match rv_current c, rv_page c with None, _ => True | Some _, Some p => id <= rc_after_id p | Some _, None => False end)
  end.

(** A sweep over the executions of [d0], which has seen at most [ks] scopes
    and [kp] pages. *)
Record swept (d0 d : Db) (ks kp : nat) (c : Recovery) : Prop := {
  sw_evolves : evolves d0 d;
  sw_inv : db_inv d;
  sw_counted : 0 <= rv_unresolved c;
  sw_shape : match rv_current c with Some cur => exists t, rv_scopes c = Some (MkScopeCursor cur t) | None => rv_page c = None end;
  sw_through : forall k, rv_scopes c = Some k -> forall e i row, tracked_in d0 e i row -> ir_reservation_id i <= sc_through_id k;
  sw_page : forall p, rv_page c = Some p -> forall e i row, tracked_in d0 e i row -> Some (rr_scope row) = rv_current c -> ir_reservation_id i <= rc_through_id p;
  sw_done : forall e i row, tracked_in d0 e i row -> left_behind c (rr_scope row) (ir_reservation_id i) ->
    concluded d e (ir_reservation_id i) \/ 0 < rv_unresolved c;
  sw_seen : exists vs ve, (length vs <= ks)%nat /\ (length ve <= 32 * kp)%nat
    /\ (forall cur, rv_current c = Some cur -> cur ∈ vs)
    /\ forall e i row, tracked_in d0 e i row -> left_behind c (rr_scope row) (ir_reservation_id i) -> rr_scope row ∈ vs /\ e ∈ ve }.

Lemma swept_evolves d0 d d' ks kp c a : swept d0 d ks kp c -> steps_to d d' -> swept d0 d' ks kp (set_retained_after a c).
Proof.
  intros [He Hi Hc Hs Ht Hp Hd Hv] Hst. destruct (Hst Hi) as [Hi' He']. split; try done; [by etransitivity|].
  intros e i row Hin Hl. destruct (Hd e i row Hin Hl) as [Hx|Hx]; [left; by eapply concluded_stays|by right].
Qed.

(** An entry of a page, of which storage knows at least as much later. *)
Definition entry_of (d : Db) (en : RecoveryEntry) : Prop :=
  (exists i, budget_execution_intent d !! re_execution_id en = Some i /\ re_reservation_id en = ir_reservation_id i)
  /\ (entry_done en = true -> concluded d (re_execution_id en) (re_reservation_id en)).
Lemma entry_of_stays d d' en : evolves d d' -> entry_of d en -> entry_of d' en.
Proof.
  intros Hev [(i & Hi & Hid) Hc]. split; [exists i; split; [exact (lookup_weaken _ _ _ _ Hi (evo_intents _ _ Hev))|done]|].
  intros Hd. eapply concluded_stays; [done|by apply Hc].
Qed.

Section Sweep.
Context `{Calendar} `{UsageCodec}.

Lemma settle_entries_ok sc reads entries : forall i n c s p n' c' d',
  settle_entries sc entries reads i n c [MkShard s p] = (Ok n', c', d') -> db_inv (st_db s) -> 0 <= rv_unresolved c ->
  Forall (entry_of (st_db s)) entries ->
  exists s' p', d' = [MkShard s' p'] /\ db_inv (st_db s') /\ evolves (st_db s) (st_db s')
    /\ rv_unresolved c <= rv_unresolved c' /\ set_unresolved 0 c' = set_unresolved 0 c
    /\ Forall (fun en => concluded (st_db s') (re_execution_id en) (re_reservation_id en) \/ 0 < rv_unresolved c') entries.
Proof.
  induction entries as [|en entries IH]; intros i n c s p n' c' d' Hs Hi Hn Hf; cbn [settle_entries] in Hs.
  { injection Hs as <- <- <-. exists s, p. split_and!; try done. }
  apply Forall_cons in Hf as [Hen Hf].
  assert (Hrest : forall i n c1 s1 p1, settle_entries sc entries reads i n c1 [MkShard s1 p1] = (Ok n', c', d') -> db_inv (st_db s1) ->
      evolves (st_db s) (st_db s1) -> rv_unresolved c <= rv_unresolved c1 -> set_unresolved 0 c1 = set_unresolved 0 c ->
      concluded (st_db s1) (re_execution_id en) (re_reservation_id en) \/ 0 < rv_unresolved c1 ->
      exists s' p', d' = [MkShard s' p'] /\ db_inv (st_db s') /\ evolves (st_db s) (st_db s')
        /\ rv_unresolved c <= rv_unresolved c' /\ set_unresolved 0 c' = set_unresolved 0 c
        /\ Forall (fun en => concluded (st_db s') (re_execution_id en) (re_reservation_id en) \/ 0 < rv_unresolved c') (en :: entries)).
  { clear Hs. intros i1 n1 c1 s1 p1 Hs Hi1 He Hle Heq Hdone. eapply IH in Hs; [|done|lia|].
    - destruct Hs as (s' & p' & -> & Hi' & He' & Hle' & Heq' & Hall). exists s', p'. split_and!; try done; [by etransitivity|lia|congruence|].
      constructor; [|done]. destruct Hdone as [Hx|Hx]; [left; by eapply concluded_stays|right; lia].
    - eapply Forall_impl; [exact Hf|]. intros ?. by apply entry_of_stays. }
  destruct Hen as [(row & Hrow & Hid) Hc].
  destruct (re_state en) eqn:Hst; try (eapply Hrest; [exact Hs|done|done|cbn; lia|done|right; cbn; lia]).
  - eapply Hrest; [exact Hs|done|done|lia|done|]. left. apply Hc. unfold entry_done. by rewrite Hst.
  - destruct (sh_settle_terminal [MkShard s p] sc (re_execution_id en) (reads i).1 (reads i).2) as [[out|er] d1] eqn:Hset; [|done]. unfold sh_settle_terminal in Hset.
    apply with_tracked_ok in Hset as (s0 & s1 & Heq & _ & Hset & ->). injection Heq as -> ->.
    destruct (keeps_settle_terminal _ _ _ _ _ _ _ Hset Hi) as [Hi1 He1].
    eapply Hrest; [exact Hs|done|done|lia|done|]. left. apply settle_concludes in Hset as (i' & Hi' & Hx). rewrite Hrow in Hi'. injection Hi' as <-.
    by rewrite Hid.
  - eapply Hrest; [exact Hs|done|done|lia|done|]. left. apply Hc. unfold entry_done. by rewrite Hst.
Qed.

(** Choosing the next scope. *)
Lemma next_scope_ok d0 s p ks kp c c1 d1 : next_scope c [MkShard s p] = (Ok c1, d1) -> swept d0 (st_db s) ks kp c ->
  exists s' p', d1 = [MkShard s' p'] /\ st_db s' = st_db s /\ rv_unresolved c1 = rv_unresolved c /\
  match rv_current c1 with
  | Some _ => swept d0 (st_db s) (S ks) kp c1
  | None => rv_scopes c1 = None /\ forall e i row, tracked_in d0 e i row -> left_behind c (rr_scope row) (ir_reservation_id i)
  end.
Proof.
  unfold next_scope. intros Hn Hsw. destruct (rv_current c) as [cur|] eqn:Hcur.
  { injection Hn as <- <-. exists s, p. rewrite Hcur. split_and!; try done. destruct Hsw as [? ? ? ? ? ? ? (vs & ve & ? & ? & ?)].
    split; try done. exists vs, ve. split; [lia|done]. }
  destruct (sh_recovery_scopes _ _ _) as [r d2] eqn:Hq. unfold sh_recovery_scopes in Hq. destruct r as [page|er]; [|done].
  apply with_tracked_ok in Hq as (s0 & s1 & Heq & _ & Hq & ->). injection Heq as <- ->.
  injection Hn as <- <-. exists s1, false. apply recovery_scopes_ok in Hq. destruct (scope_bounds _ _) as [through after] eqn:Hb.
  destruct Hq as [Ed Hq]. split; [done|]. split; [done|]. split; [done|]. cbn [rv_current rv_scopes set_inventory].
  destruct Hsw as [He Hi Hc Hs Ht Hp Hd (vs & ve & Hvs & Hve & Hcv & Hv)].
  assert (Hthrough : forall e i row, tracked_in d0 e i row -> ir_reservation_id i <= through).
  { intros e i row Hin. destruct (rv_scopes c) as [k|] eqn:Hk.
    - cbn in Hb. injection Hb as <- _. by eapply Ht.
    - injection Hb as <- _. destruct Hin as [Hin _]. destruct (intent_in_evolves _ _ _ _ _ He Hin) as (row' & [Hi' _] & _).
      apply zmax_ge, list_elem_of_fmap. exists (e, i). split; [done|]. by apply elem_of_map_to_list. }
  assert (Hold : forall e i row, tracked_in d0 e i row -> String.ltb after (rr_scope row) = false -> left_behind c (rr_scope row) (ir_reservation_id i)).
  { intros e i row (_ & Hne & _) Hl. unfold left_behind. rewrite Hcur. destruct (rv_scopes c) as [k|] eqn:Hk.
    - cbn in Hb. injection Hb as _ <-. apply not_after in Hl as [Hl|Hl]; [by left|by right].
    - injection Hb as _ <-. by rewrite not_before_empty in Hl. }
  assert (Hnow : forall e i row, tracked_in d0 e i row -> exists row', intent_in (st_db s) e i row' /\ rr_scope row' = rr_scope row).
  { intros e i row [Hin _]. by eapply intent_in_evolves. }
  destruct (scp_scopes page) as [|sc rest] eqn:Hpage; destruct Hq as [Hnext Hmin].
  - unfold set_inventory. rewrite Hpage, Hnext. cbn. split; [done|]. intros e i row Hin. eapply Hold; [done|].
    destruct (Hnow _ _ _ Hin) as (row' & Hin' & <-). eapply Hmin; [done|]. by eapply Hthrough.
  - assert (Einv : set_inventory page c = MkRecovery (Some (MkScopeCursor sc through)) (Some sc) None (rv_retained_after c) (rv_complete c) (rv_unresolved c)).
    { rewrite Hcur in Hs. unfold set_inventory. by rewrite Hpage, Hnext, Hs. }
    rewrite Einv. cbn [rv_current]. set (c1 := MkRecovery _ _ _ _ _ _).
    assert (Hbehind : forall e i row, tracked_in d0 e i row -> left_behind c1 (rr_scope row) (ir_reservation_id i) ->
        left_behind c (rr_scope row) (ir_reservation_id i)).
    { intros e i row Hin [Hl|[_ Hl]]; [|done]. eapply Hold; [done|]. destruct (Hnow _ _ _ Hin) as (row' & Hin' & Hsc). rewrite <- Hsc in Hl |- *.
      eapply Hmin; [done|by eapply Hthrough|done]. }
    split; cbn; try done.
    + by exists through.
    + intros k Hk. injection Hk as <-. exact Hthrough.
    + intros e i row Hin Hl. eapply Hd; [done|]. by eapply Hbehind.
    + exists (sc :: vs), ve. cbn. split; [lia|]. split; [done|]. split; [intros cur Hx; injection Hx as <-; by left|].
      intros e i row Hin Hl. destruct (Hv e i row Hin) as [? ?]; [by eapply Hbehind|]. split; [by right|done].
Qed.

(** The rows of a page up to its last one are all on it. *)
Lemma page_prefix d sc after through (rows := page_rows sc after through d) n last_row x : db_inv d ->
  last (list.take n rows) = Some last_row -> x ∈ rows -> x.2 <= last_row.2 -> x ∈ list.take n rows.
Proof.
  intros Hi Hl Hx Hle. assert (Hmem : forall y, y ∈ rows -> y ∈ scoped_intents sc d).
  { intros y Hy. unfold rows, page_rows in Hy. rewrite merge_sort_Permutation in Hy. by apply list_elem_of_filter in Hy as [_ Hy]. }
  assert (Hlast : last_row ∈ list.take n rows) by (by apply last_Some_elem_of).
  assert (Hin : x ∈ list.take n rows ++ drop n rows) by (by rewrite take_drop). apply elem_of_app in Hin as [Hin|Hin]; [done|].
  assert (Hs : StronglySorted intent_le rows) by (apply StronglySorted_merge_sort; apply _).
  rewrite <- (take_drop n rows) in Hs. pose proof (StronglySorted_app_1_elem_of _ _ _ _ _ Hs Hlast Hin) as Hge. unfold intent_le in Hge.
  assert (Hlr : last_row ∈ rows) by (rewrite <- (take_drop n rows); apply elem_of_app; by left).
  apply Hmem in Hx, Hlr. destruct x as [e id], last_row as [e' id']. cbn in *. assert (id = id') as -> by lia.
  apply scoped_intents_spec in Hx as (i & row & He & -> & _), Hlr as (i' & row' & He' & Hid & _).
  assert (e = e') as -> by (by eapply (inv_intents _ Hi)). done.
Qed.

(** Reading a page and settling what is ready. *)
Lemma page_ok d0 s p ks kp c scope reads page d1 n c1 d2 : rv_current c = Some scope -> swept d0 (st_db s) ks kp c ->
  sh_recovery_page [MkShard s p] scope (rv_page c) 32 = (Ok page, d1) ->
  settle_entries scope (rp_entries page) reads 0 0 c d1 = (Ok n, c1, d2) ->
  exists s' p', d2 = [MkShard s' p'] /\ swept d0 (st_db s') ks (S kp) (set_page (rp_next page) c1) /\ rv_scopes c1 <> None
    /\ rv_complete c1 = rv_complete c.
Proof.
  intros Hcur Hsw Hq Hset. unfold sh_recovery_page in Hq. apply with_tracked_ok in Hq as (s0 & s1 & Heq & _ & Hq & ->). injection Heq as <- ->.
  apply recovery_page_ok in Hq. destruct (page_bounds _ _ _) as [after through] eqn:Hb. destruct Hq as (E1 & _ & Hf & Hnext).
  set (rows := page_rows scope after through (st_db s)) in *.
  destruct Hsw as [He Hi Hc Hs Ht Hp Hd (vs & ve & Hvs & Hve & Hcv & Hv)].
  assert (Hrows : forall e id, (e, id) ∈ rows <-> (e, id) ∈ scoped_intents scope (st_db s) /\ after < id <= through).
  { intros e id. unfold rows, page_rows. rewrite merge_sort_Permutation, list_elem_of_filter. naive_solver. }
  assert (Hentries : Forall (entry_of (st_db s)) (rp_entries page)).
  { apply Forall_forall. intros en Hen. apply list_elem_of_lookup in Hen as [j Hj]. destruct (Forall2_lookup_r _ _ _ _ _ Hf Hj) as (x & Hx & Hids & Hdone).
    split; [|done]. apply list_elem_of_lookup_2, (subseteq_take 32 rows) in Hx. rewrite <- Hids in Hx. apply Hrows in Hx as [Hx _].
    apply scoped_intents_spec in Hx as (i & row & Hi1 & Hid & _). by exists i. }
  rewrite <- E1 in Hentries. eapply settle_entries_ok in Hset; [|by rewrite E1|done|exact Hentries].
  destruct Hset as (s' & p' & -> & Hi' & He' & Hle & Heq & Hall). rewrite E1 in He'.
  destruct c as [scopes cur pg ra co un], c1 as [scopes1 cur1 pg1 ra1 co1 un1].
  cbn [rv_current rv_scopes rv_page rv_unresolved rv_retained_after rv_complete set_unresolved] in *. unfold set_unresolved in Heq. cbn in Heq. injection Heq as -> -> -> -> ->. subst cur.
  destruct Hs as [t ->]. exists s', p'. split; [done|]. split; [|done].
  (* what is behind the cursors now was, or is an entry of this page *)
  assert (Hpage : forall e i row, tracked_in d0 e i row -> rr_scope row = scope ->
      (match rp_next page with Some nx => ir_reservation_id i <= rc_after_id nx | None => True end) ->
      left_behind (MkRecovery (Some (MkScopeCursor scope t)) (Some scope) pg ra co un) (rr_scope row) (ir_reservation_id i)
      \/ exists en, en ∈ rp_entries page /\ re_execution_id en = e /\ re_reservation_id en = ir_reservation_id i).
  { intros e i row Hin Hsc Hnx. destruct (decide (ir_reservation_id i <= after)) as [Ha|Ha].
    - left. right. cbn. split; [done|]. destruct pg as [pc|]; cbn in Hb; injection Hb as <- <-; [done|]. destruct Hin as (_ & _ & ?). lia.
    - right. destruct (intent_in_evolves _ _ _ _ _ He (proj1 Hin)) as (row' & [Hi1 Hr1] & Hsc1).
      assert (Hsi : (e, ir_reservation_id i) ∈ scoped_intents scope (st_db s)) by (apply scoped_intents_spec; exists i, row'; split_and!; try done; congruence).
      assert (Hx : (e, ir_reservation_id i) ∈ rows).
      { apply Hrows. split; [done|]. split; [lia|]. destruct pg as [pc|]; cbn in Hb; injection Hb as <- <-.
        - eapply (Hp pc eq_refl); [done|]. by rewrite Hsc.
        - apply zmax_ge, list_elem_of_fmap. by exists (e, ir_reservation_id i). }
      assert (Htake : (e, ir_reservation_id i) ∈ list.take 32 rows).
      { rewrite Hnext in Hnx. destruct (32 <? length rows)%nat eqn:Hmore in Hnx.
        - pose proof (Forall2_last _ _ _ Hf) as Hlast. destruct (last (list.take 32 rows)) as [lr|] eqn:Hl.
          + inversion Hlast as [x1 en Hxy Ex Ey|]. destruct Hxy as [Hids _]. rewrite <- Ey in Hnx. cbn in Hnx.
            eapply page_prefix; [done|exact Hl|done|]. rewrite <- Hids. exact Hnx.
          + apply last_None in Hl. apply Nat.ltb_lt in Hmore. by destruct rows.
        - apply Nat.ltb_ge in Hmore. by rewrite take_ge. }
      apply list_elem_of_lookup in Htake as [j Hj]. destruct (Forall2_lookup_l _ _ _ _ _ Hf Hj) as (en & Hen & Hids & _).
      exists en. split; [by eapply list_elem_of_lookup_2|]. cbn in Hids. by injection Hids as -> ->. }
  assert (Hbehind : forall e i row, tracked_in d0 e i row ->
      left_behind (set_page (rp_next page) (MkRecovery (Some (MkScopeCursor scope t)) (Some scope) pg ra co un1)) (rr_scope row) (ir_reservation_id i) ->
      left_behind (MkRecovery (Some (MkScopeCursor scope t)) (Some scope) pg ra co un) (rr_scope row) (ir_reservation_id i)
      \/ exists en, en ∈ rp_entries page /\ re_execution_id en = e /\ re_reservation_id en = ir_reservation_id i /\ rr_scope row = scope).
  { intros e i row Hin [Hl|[Hsc Hl]]; [by left; left|]. cbn in Hsc. destruct (Hpage e i row Hin Hsc) as [Hx|(en & Hx & <- & ?)]; [|by left|right; by exists en].
    cbn in Hl. destruct (rp_next page); done. }
  rewrite Forall_forall in Hall. split; cbn.
  - by etransitivity.
  - done.
  - lia.
  - destruct (rp_next page); [by exists t|done].
  - exact Ht.
  - intros nx Hnx. rewrite Hnx in Hnext. cbn [set_page rv_current]. intros e i row Hin Hcur. destruct (rp_next page); [|done]. injection Hcur as Hsc.
    destruct (32 <? length rows)%nat; [|done]. destruct (last _) as [en|]; [|done]. injection Hnext as ->. cbn. destruct pg as [pc|]; cbn in Hb; injection Hb as <- <-.
    + eapply (Hp pc eq_refl); [done|]. by rewrite Hsc.
    + destruct (intent_in_evolves _ _ _ _ _ He (proj1 Hin)) as (row' & [Hi1 Hr1] & Hsc1). apply zmax_ge, list_elem_of_fmap.
      exists (e, ir_reservation_id i). split; [done|]. apply scoped_intents_spec. exists i, row'. split_and!; try done. congruence.
  - intros e i row Hin Hl. destruct (Hbehind e i row Hin Hl) as [Hx|(en & Hx & <- & Hid & _)].
    + destruct (Hd e i row Hin Hx) as [Hy|Hy]; [left; by eapply concluded_stays|right; lia].
    + rewrite <- Hid. by apply Hall.
  - exists vs, ((re_execution_id <$> rp_entries page) ++ ve). split; [done|]. split.
    { rewrite length_app, length_fmap. rewrite <- (Forall2_length _ _ _ Hf), length_take. lia. }
    split.
    { intros cur Hcur. apply Hcv. by destruct (rp_next page). }
    intros e i row Hin Hl. destruct (Hbehind e i row Hin Hl) as [Hx|(en & Hx & <- & _ & Hsc)].
    + destruct (Hv e i row Hin Hx) as [? ?]. split; [done|]. apply elem_of_app. by right.
    + split; [rewrite Hsc; by apply Hcv|]. apply elem_of_app. left. apply list_elem_of_fmap. by exists en.
Qed.

(** One slice: the inventory is over, or it went one page on. *)
Lemma slice_ok d0 reads s p ks kp c n c' d' : recovery_slice reads c [MkShard s p] = (Ok n, c', d') -> swept d0 (st_db s) ks kp c ->
  exists s' p', d' = [MkShard s' p'] /\ rv_complete c' = rv_complete c /\
  ((rv_current c' = None /\ rv_scopes c' = None /\ st_db s' = st_db s /\ rv_unresolved c' = rv_unresolved c
     /\ forall e i row, tracked_in d0 e i row -> left_behind c (rr_scope row) (ir_reservation_id i))
   \/ (rv_scopes c' <> None /\ swept d0 (st_db s') (S ks) (S kp) c')).
Proof.
  unfold recovery_slice. intros Hs Hsw. destruct (next_scope c [MkShard s p]) as [[c1|er] d1] eqn:Hn; [|done].
  assert (Hcomplete : rv_complete c1 = rv_complete c).
  { unfold next_scope in Hn. destruct (rv_current c); [by injection Hn as <- _|]. destruct (sh_recovery_scopes _ _ _) as [[page|] ?]; [|done].
    by injection Hn as <- _. }
  pose proof (next_scope_ok _ _ _ _ _ _ _ _ Hn Hsw) as (s1 & p1 & -> & E1 & Hu & Hcur). destruct (rv_current c1) as [scope|] eqn:Hc.
  - rewrite <- E1 in Hcur. destruct (sh_recovery_page [MkShard s1 p1] scope (rv_page c1) 32) as [[page|er] d2] eqn:Hp; [|done].
    destruct (settle_entries scope (rp_entries page) reads 0 0 c1 d2) as [[[m|er] c2] d3] eqn:He; [|done]. injection Hs as <- <- <-.
    destruct (page_ok _ _ _ _ _ _ _ _ _ _ _ _ _ Hc Hcur Hp He) as (s' & p' & -> & Hsw' & Hne & Hco). exists s', p'. split; [done|].
    split; [cbn; congruence|]. right. done.
  - injection Hs as <- <- <-. destruct Hcur as [Hsc Hall]. exists s1, p1. split; [done|]. split; [done|]. left. done.
Qed.

(** *** The other users of the ledger *)

Definition calm (m m' : Mutex ProxyLedger) : Prop :=
  forall sh, mx_value m = Durable [sh] -> exists sh', mx_value m' = Durable [sh'] /\ steps_to (st_db (sh_store sh)) (st_db (sh_store sh')).

Lemma with_durable_calm {T} m (op : ShardedLedger -> result EvidenceError T * ShardedLedger) :
  (forall sh, exists sh', (op [sh]).2 = [sh'] /\ steps_to (st_db (sh_store sh)) (st_db (sh_store sh'))) -> calm m (with_durable_ledger m op).2.
Proof.
  intros Hop sh Hm. unfold with_durable_ledger. destruct (mx_locked m); [by exists sh|]. destruct (mx_poisoned m); [by exists sh|]. rewrite Hm.
  destruct (Hop sh) as (sh' & E & Hst). destruct (op [sh]) as [r d]. cbn in E. subst d. by exists sh'.
Qed.
Lemma call_evidence_steps {A} (m : evM A) sh : keeps steps_to m -> steps_to (st_db (sh_store sh)) (st_db (sh_store (call_evidence m sh).2)).
Proof.
  intros Hk. unfold call_evidence. destruct (sh_poisoned sh); [done|]. destruct (m (sh_store sh)) as [r s'] eqn:Hm. by apply (Hk _ _ _ Hm).
Qed.
Lemma with_tracked_steps {A} (m : evM A) sh : keeps steps_to m ->
  exists sh', (with_tracked [sh] m).2 = [sh'] /\ steps_to (st_db (sh_store sh)) (st_db (sh_store sh')).
Proof.
  intros Hk. unfold with_tracked. destruct (sh_poisoned sh); [by exists sh|]. destruct (file_backed _); [|by exists sh].
  pose proof (call_evidence_steps m sh Hk) as Hst. destruct (call_evidence m sh) as [r sh']. by exists sh'.
Qed.
Lemma evidence_at_steps {A} (m : evM A) sh i : keeps steps_to m ->
  exists sh', (evidence_at [sh] i m).2 = [sh'] /\ steps_to (st_db (sh_store sh)) (st_db (sh_store sh')).
Proof.
  intros Hk. unfold evidence_at. destruct i as [|i]; [|by exists sh]. cbn. pose proof (call_evidence_steps m sh Hk) as Hst.
  destruct (call_evidence m sh) as [r sh']. by exists sh'.
Qed.
Lemma keeps_checked_intent intent : keeps steps_to (checked_intent intent).
Proof. unfold checked_intent, intent_durable. keeps. Qed.
Lemma keeps_for_intent {A} intent (f : ExecutionIntent -> evM A) : (forall o, keeps steps_to (f o)) -> keeps steps_to (o ← checked_intent intent; f o).
Proof. intros Hf. apply (keeps_bind _); [apply keeps_checked_intent|done]. Qed.

Lemma run_work_calm w m rd : calm m (run_work w m rd).2.
Proof.
  destruct w as [p|p|p]; cbn.
  - unfold try_authorize. pose proof (with_durable_calm m (fun d => authorize_dispatch_for_intent d (pd_intent p) (rd_clk1 rd))) as Hc.
    destruct (with_durable_ledger m _) as [r m']. cbn in *. apply Hc. intros sh. apply with_tracked_steps, keeps_for_intent. intros o. apply keeps_authorize.
  - unfold try_close. pose proof (with_durable_calm m (fun d => close_before_dispatch_for_intent d (pd_intent p) (rd_clk1 rd))) as Hc.
    destruct (with_durable_ledger m _) as [r m']. cbn in *. apply Hc. intros sh. apply with_tracked_steps, keeps_for_intent. intros o. apply keeps_close.
  - unfold try_commit. destruct (pe_tracked p) as [t|].
    + set (op := fun d : ShardedLedger => _). pose proof (with_durable_calm m op) as Hc. destruct (with_durable_ledger m op) as [r m'].
      assert (Hm : calm m m').
      { apply Hc. intros sh. unfold op, commit_tracked, record_terminal_for_intent, sh_settle_terminal.
        edestruct (with_tracked_steps (o ← checked_intent (tr_intent t);
          record_terminal_durable (rsv_scope (ei_reservation o)) (ei_execution_id o) (tr_usage t) (pe_cache_read_bp p) (rd_clk1 rd)) sh) as (sh1 & E1 & H1).
        { apply keeps_for_intent. intros o. apply keeps_record_terminal. }
        destruct (with_tracked [sh] _) as [[x|er] d1]; cbn in E1; subst d1; [|by exists sh1].
        edestruct (with_tracked_steps (settle_terminal_durable (rsv_scope (ei_reservation (tr_intent t))) (ei_execution_id (tr_intent t)) (rd_ent rd) (rd_clk2 rd)) sh1)
          as (sh2 & E2 & H2); [apply keeps_settle_terminal|].
        destruct (with_tracked [sh1] _) as [y d2]. cbn in E2. subst d2. exists sh2. split; [done|]. by etransitivity. }
      destruct r as [[r recorded]|f]; done.
    + destruct (pe_charge p) as [charge|]; [|intros sh Hm; by exists sh]. destruct (pe_reservation p) as [rsv|]; [|intros sh Hm; by exists sh].
      pose proof (with_durable_calm m (fun d => sh_settle_with_evidence d (rsv_scope rsv) (rsv_id rsv) charge (rd_ent rd) (rd_clk2 rd))) as Hc.
      destruct (with_durable_ledger m _) as [r m']. cbn in *. apply Hc. intros sh. apply evidence_at_steps, keeps_settle_evidence.
Qed.

(** A turn of the loop whose interference is what other operations do. *)
Definition calm_round (ro : Round) : Prop :=
  forall w, calm (wd_ledger w) (wd_ledger (ro_before ro w)) /\ calm (wd_ledger w) (wd_ledger (ro_between ro w)).
Lemma calm_trans m1 m2 m3 : calm m1 m2 -> calm m2 m3 -> calm m1 m3.
Proof. intros H12 H23 sh H1. destruct (H12 sh H1) as (sh2 & E2 & S2). destruct (H23 sh2 E2) as (sh3 & E3 & S3). exists sh3. split; [done|]. by etransitivity. Qed.
Lemma retry_terminal_calm worked rd c w : exists a, (retry_terminal worked rd c w).1 = set_retained_after a c /\ calm (wd_ledger w) (wd_ledger (retry_terminal worked rd c w).2).
Proof.
  unfold retry_terminal. destruct (retry_begin _ _) as [[[[[id epoch] work]|] after] g]; [|exists after; split; [done|intros sh Hm; by exists sh]].
  destruct worked; [|exists after; split; [done|intros sh Hm; by exists sh]].
  pose proof (run_work_calm work (wd_ledger w) rd) as Hc. destruct (run_work work (wd_ledger w) rd) as [o m]. by exists after.
Qed.

(** *** A complete sweep *)

(** What a complete sweep knows of the executions of [d0]. *)
Definition inventoried (d0 d : Db) (unresolved : Z) (n : nat) : Prop :=
  0 <= unresolved /\
  exists vs ve, (length vs <= n)%nat /\ (length ve <= 32 * n)%nat /\
    forall e i row, tracked_in d0 e i row ->
      (concluded d e (ir_reservation_id i) \/ 0 < unresolved) /\ rr_scope row ∈ vs /\ e ∈ ve.

Lemma recover_rounds_ok shutdown rounds d0 fuel : forall i c w total n c' w' sh k,
  (forall j, calm_round (rounds j)) -> recover_rounds shutdown rounds fuel i c w total = (Ok n, c', w') -> rv_complete c = false -> rv_complete c' = true ->
  mx_value (wd_ledger w) = Durable [sh] -> swept d0 (st_db (sh_store sh)) k k c ->
  exists sh' m, mx_value (wd_ledger w') = Durable [sh'] /\ (m < k + fuel)%nat /\ inventoried d0 (st_db (sh_store sh')) (rv_unresolved c') m.
Proof.
  induction fuel as [|fuel IH]; intros i c w total n c' w' sh k Hcalm Hr Hnc Hc Hm Hsw; cbn [recover_rounds] in Hr; [congruence|].
  destruct (Hcalm i (retry_terminal (ro_worked (rounds i)) (ro_reads (rounds i)) c (ro_before (rounds i) w)).2) as [_ Hbetween].
  destruct (Hcalm i w) as [Hbefore _]. set (w1 := ro_before (rounds i) w) in *.
  destruct (out_of_time shutdown (rounds i) w1); [congruence|].
  destruct (retry_terminal_calm (ro_worked (rounds i)) (ro_reads (rounds i)) c w1) as (a & Ea & Hretry).
  destruct (retry_terminal _ _ c w1) as [c1 w2]. cbn [fst snd] in *. subst c1. set (w3 := ro_between (rounds i) w2) in *.
  destruct (calm_trans _ _ _ (calm_trans _ _ _ Hbefore Hretry) Hbetween _ Hm) as (sh3 & Hm3 & Hst).
  pose proof (swept_evolves _ _ _ _ _ _ a Hsw Hst) as Hsw3.
  unfold slice_under_lock, with_durable_ledger in Hr. destruct (mx_locked _); [done|]. destruct (mx_poisoned _); [done|]. rewrite Hm3 in Hr.
  destruct sh3 as [s3 p3]. cbn [sh_store] in *.
  destruct (recovery_slice (ro_settles (rounds i)) (set_retained_after a c) [MkShard s3 p3]) as [[r c2] d2] eqn:Hs. destruct r as [m|er]; [|done].
  cbn [map_err wd_registry wd_lifecycle wd_ledger] in Hr.
  destruct (slice_ok _ _ _ _ _ _ _ _ _ _ Hs Hsw3) as (s' & p' & -> & Hco & [(Hcur & Hsc & Ed & Hu & Hall)|[Hsc Hsw']]).
  - rewrite Hcur, Hsc in Hr. cbn in Hr. injection Hr as <- <- <-. exists (MkShard s' p'), k. split; [done|]. split; [lia|]. cbn [rv_unresolved set_complete].
    rewrite Hu. destruct Hsw3 as [_ _ Hcount _ _ _ Hd (vs & ve & Hvs & Hve & _ & Hv)]. split; [done|]. exists vs, ve. split; [done|]. split; [done|].
    intros e i' row Hin. specialize (Hall _ _ _ Hin). cbn. rewrite Ed. split; [by eapply Hd|]. by eapply Hv.
  - rewrite (bool_decide_eq_false_2 (rv_scopes c2 = None)) in Hr by done. rewrite andb_false_r in Hr.
    eapply IH in Hr as (sh' & m' & Hm' & Hlt & Hinv); [|done|by rewrite Hco|done|done|exact Hsw']. exists sh', m'. split; [done|]. split; [lia|done].
Qed.
End Sweep.

(** ** The shutdown *)

Section Shutdown.
Context `{Calendar} `{UsageCodec}.

(** A shutdown that reports a clean inventory. *)
Lemma finish_shutdown_ok rounds late s s' sh : (forall j, calm_round (rounds j)) -> is_Some (st_owner s) ->
  mx_value (st_ledger s) = Durable [sh] -> db_inv (st_db (sh_store sh)) -> finish_shutdown rounds late s = (Ok true, s') ->
  is_running (st_lifecycle s) = false /\ active_operations (st_lifecycle s) = 0 /\ retained_owners s' = 0
  /\ exists sh' n, mx_value (st_ledger s') = Durable [sh'] /\ (n < 8)%nat /\ inventoried (st_db (sh_store sh)) (st_db (sh_store sh')) 0 n.
Proof.
  intros Hcalm [o Ho] Hm Hinv Hf. unfold finish_shutdown in Hf. rewrite Ho in Hf. destruct (_ || _) eqn:Hd in Hf; [done|].
  destruct (lc_deadline _); [|done]. unfold recover_inner, recover_worker in Hf. rewrite Ho in Hf.
  destruct (mx_locked (bf_recovery o) || mx_poisoned (bf_recovery o)); [by destruct late|].
  destruct (recover_rounds _ _ _ _ _ _ _) as [[r c] w] eqn:Hr. destruct late; [done|]. destruct r as [n|]; [|done]. cbn in Hf. injection Hf as Hclean <-.
  bools. apply (recover_rounds_ok true rounds (st_db (sh_store sh)) 8 _ _ _ _ _ _ _ sh 0) in Hr as (sh' & m & Hm' & Hlt & Hi); try done.
  - split; [done|]. split; [lia|]. split; [unfold retained_owners, retained in *; cbn in *; lia|]. exists sh', m. split; [done|].
    split; [lia|].
    replace 0 with (rv_unresolved c) by lia. done.
  - split; cbn; try done. exists [], []. cbn. split; [lia|]. split; [lia|]. split; [done|]. intros e i row _ [].
Qed.

(** C37: A clean shutdown leaves nothing held.  When the final inventory reports
    that it is complete, whatever the rest of the process did meanwhile, no
    operation is active, the registry retains no owner, and every execution
    that a tracked admission had made when it started is concluded: closed
    before dispatch with nothing charged, or settled with a receipt for its
    charge. *)
Theorem clean_shutdown_leaves_nothing_held rounds late s s' sh e i row :
  (forall j, calm_round (rounds j)) -> is_Some (st_owner s) -> mx_value (st_ledger s) = Durable [sh] -> db_inv (st_db (sh_store sh)) ->
  finish_shutdown rounds late s = (Ok true, s') -> tracked_in (st_db (sh_store sh)) e i row ->
  active_operations (st_lifecycle s) = 0 /\ retained_owners s' = 0
  /\ exists sh', mx_value (st_ledger s') = Durable [sh'] /\ concluded (st_db (sh_store sh')) e (ir_reservation_id i).
Proof.
  intros Hcalm Ho Hm Hi Hf Hin. destruct (finish_shutdown_ok _ _ _ _ _ Hcalm Ho Hm Hi Hf) as (_ & Ha & Hr & sh' & n & Hm' & _ & _ & vs & ve & _ & _ & Hall).
  split; [done|]. split; [done|]. exists sh'. split; [done|]. destruct (Hall e i row Hin) as [[Hc|Hc] _]; [done|lia].
Qed.

(** The final inventory is small: it can only be complete on a ledger with
    at most seven scopes and 224 executions, however long ago these were
    concluded. *)
Theorem shutdown_inventory_is_small rounds late s s' sh es scopes :
  (forall j, calm_round (rounds j)) -> is_Some (st_owner s) -> mx_value (st_ledger s) = Durable [sh] -> db_inv (st_db (sh_store sh)) ->
  NoDup es -> Forall (fun e => exists i row, tracked_in (st_db (sh_store sh)) e i row) es ->
  NoDup scopes -> Forall (fun sc => exists e i row, tracked_in (st_db (sh_store sh)) e i row /\ rr_scope row = sc) scopes ->
  finish_shutdown rounds late s = (Ok true, s') -> (length scopes <= 7)%nat /\ (length es <= 224)%nat.
Proof.
  intros Hcalm Ho Hm Hi Hne Hes Hns Hsc Hf.
  destruct (finish_shutdown_ok _ _ _ _ _ Hcalm Ho Hm Hi Hf) as (_ & _ & _ & sh' & n & _ & Hn & _ & vs & ve & Hvs & Hve & Hall).
  rewrite Forall_forall in Hes, Hsc. split.
  - transitivity (length vs); [|lia]. apply submseteq_length, NoDup_submseteq; [done|]. intros sc Hin.
    destruct (Hsc sc Hin) as (e & i & row & Ht & <-). by apply (Hall e i row).
  - transitivity (length ve); [|lia]. apply submseteq_length, NoDup_submseteq; [done|]. intros e Hin.
    destruct (Hes e Hin) as (i & row & Ht). by apply (Hall e i row).
Qed.
End Shutdown.

(** ** Instances *)

#[local] Existing Instances utc_days demo_codec.

(** A ledger on which an observed execution still has to be settled, past
    the cutoff and with no operation active. *)
Definition quiet_lifecycle : Lifecycle := MkLifecycle (MkLState Draining (Some 0) (Some (seconds 60)) None 0) Draining 3.
Definition calm_turn (i : nat) : Round :=
  MkRound (fun w => w) false (seconds 1) true (MkReads (seconds 4) (seconds 5) demo_ent2) (fun w => w) (fun _ => (demo_ent2, seconds 6)).
Definition closing_shard : Shard := MkShard demo_mid false.
Definition closing_state : State :=
  MkState (Some (MkBuffered (MkConfig 64 (seconds 2) (seconds 120)) (rg_new 64) (MkMutex false false Recovery_default)))
    quiet_lifecycle (MkMutex false false (Durable [closing_shard])).
Definition closed_state : State := Eval vm_compute in (finish_shutdown calm_turn false closing_state).2.
Definition closing_intent : IntentRow := Eval vm_compute in default (MkIntentRow 0 0) (budget_execution_intent (st_db demo_mid) !! demo_exec).
Definition closing_lease : ReservationRow :=
  Eval vm_compute in default (MkReservationRow "" 0 0 0 None 0) (budget_reservation (st_db demo_mid) !! 1).

Lemma demo_mid_inv : db_inv (st_db demo_mid).
Proof.
  destruct (drun_steps demo_before demo_store (drun demo_store demo_before).1 demo_mid) as [Hi _];
    [vm_compute; reflexivity|apply db_empty_inv|exact Hi].
Qed.
Lemma calm_turns j : calm_round (calm_turn j).
Proof. intros w. split; intros sh Hm; by exists sh. Qed.
Lemma closing_tracked : tracked_in (st_db demo_mid) demo_exec closing_intent closing_lease.
Proof. split; [split; vm_compute; reflexivity|]. split; [done|]. vm_compute. reflexivity. Qed.

Lemma clean_shutdown_leaves_nothing_held_witness :
  (finish_shutdown calm_turn false closing_state).1 = Ok true /\ retained_owners closed_state = 0
  /\ exists sh', mx_value (st_ledger closed_state) = Durable [sh'] /\ concluded (st_db (sh_store sh')) demo_exec 1.
Proof.
  split; [vm_compute; reflexivity|].
  apply (clean_shutdown_leaves_nothing_held calm_turn false closing_state closed_state closing_shard demo_exec closing_intent closing_lease).
  - exact calm_turns.
  - by eexists.
  - reflexivity.
  - exact demo_mid_inv.
  - vm_compute. reflexivity.
  - exact closing_tracked.
Defined.
Lemma shutdown_inventory_is_small_witness : (length ["team"] <= 7)%nat /\ (length [demo_exec] <= 224)%nat.
Proof.
  apply (shutdown_inventory_is_small calm_turn false closing_state closed_state closing_shard [demo_exec] ["team"]).
  - exact calm_turns.
  - by eexists.
  - reflexivity.
  - exact demo_mid_inv.
  - apply NoDup_singleton.
  - repeat constructor. exists closing_intent, closing_lease. exact closing_tracked.
  - apply NoDup_singleton.
  - repeat constructor. exists demo_exec, closing_intent, closing_lease. split; [exact closing_tracked|reflexivity].
  - vm_compute. reflexivity.
Defined.
