(* ===== verification/TrackedProps.v ===== *)
(** What the task of a tracked request promises ([Buffered]), interleaved
    with the rest of the registry's system ([Jobs]): it dispatches what was
    admitted and authorized for it, its terminal usage is always retained,
    and it answers with the provider's result only after a settlement of
    that usage was committed. *)

From stdpp Require Import relations.
From S2P Require Import Prelude Ledger InMemory Budget Sql SqlLedger SqlContract Usage Allowance.
From S2P Require Import Evidence EvidenceOps EvidenceInv EvidenceProps Sharded ProxyLedger Lifecycle Settlement Jobs JobsProps StreamEncoder Deadlines Buffered.
#[local] Open Scope Z_scope.

(** ** The task and the others *)

Section Task.
Context `{Calendar} `{UsageCodec}.
Context (cfg : Config) (q : TrackedCall) (id : Z).

Definition is_replied (t : TaskState) : bool := match t with TsReplied _ => true | _ => false end.
(** The task owns its obligation and its ticket: nobody else releases it,
    submits to it or takes from it, so that while its slot is not running
    the slot stays as it is. *)
Definition hands_off (t : TaskState) (s s' : JSys) : Prop :=
  is_replied t = false -> id ∈ js_obligations s' /\
  forall slot, rg_slots (js_reg s) !! id = Some slot -> sl_running slot = false -> rg_slots (js_reg s') !! id = Some slot.
Inductive tracked_step : TaskState * JSys -> TaskState * JSys -> Prop :=
| TOwn t s e t' s' : task_next cfg q id t e s = Some (t', s') -> tracked_step (t, s) (t', s')
| TOthers t s s' : jstep s s' -> hands_off t s s' -> tracked_step (t, s) (t, s').

(** *** What running an input can publish *)

Lemma prepared_outcome p o pd : outcome_of (IAdmission p) o -> o = Some (RAdmission (AdmissionPrepared pd)) ->
  pd_request_id pd = ae_request_id (pa_evidence p).
Proof.
  intros [->|(m & l & rd & r & m' & Hr & ->)] Ho; [done|]. injection Ho as ->. cbn in Hr. unfold run_admission in Hr.
  destruct (with_durable_ledger _ _) as [x m1]. injection Hr as Hr _. destruct x as [[[]|]|]; try done. by injection Hr as <-.
Qed.
Lemma authorized_outcome p o x : outcome_of (IWork (WAuthorize p)) o -> o = Some (RWork (ODispatch (DispatchAuthorized x))) ->
  ax_request_id x = pd_request_id p /\ ax_intent x = pd_intent p.
Proof.
  intros [->|(m & l & rd & r & m' & Hr & ->)] Ho; [done|]. injection Ho as ->. cbn in Hr. unfold try_authorize in Hr.
  destruct (with_durable_ledger _ _) as [y m1]. injection Hr as Hr _. destruct y as [[]|]; try done. by injection Hr as <-.
Qed.
Lemma committed_outcome p o rid out : outcome_of (IWork (WSettle p)) o -> o = Some (RWork (OSettlement (AttemptCommitted rid out))) -> rid = pe_request_id p.
Proof.
  intros [->|(m & l & rd & r & m' & Hr & ->)] Ho; [done|]. injection Ho as ->. cbn in Hr. unfold try_commit, resolve in Hr.
  destruct (pe_tracked p) as [t|].
  - set (op := fun d : ShardedLedger => _) in Hr. destruct (with_durable_ledger m op) as [[[r recorded]|f] m1]; cbn in Hr.
    + destruct r as [x|er]; cbn in Hr; [|done]. injection Hr as <- _ _. by destruct recorded.
    + done.
  - destruct (pe_charge p), (pe_reservation p); try done. destruct (with_durable_ledger m _) as [[x|f] m1]; cbn in Hr; [|done]. by injection Hr as <- _ _.
Qed.

(** *** The steps of the others *)

(** A held slot that runs stays, or its task publishes. *)
Lemma others_running s s' slot : sys_jinv s -> jstep s s' -> id ∈ js_obligations s' -> rg_slots (js_reg s) !! id = Some slot ->
  sl_held slot = true -> sl_running slot = true ->
  rg_slots (js_reg s') !! id = Some slot
  \/ exists i o, sl_snapshot slot = Some i /\ outcome_of i o /\ rg_slots (js_reg s') !! id = Some (finished slot o)
       /\ (id, sl_epoch slot, o) ∈ js_published s'.
Proof.
  intros Hinv Hst Hin Hs Hheld Hrun. destruct Hst; unfold sys_jinv in Hinv; cbn [js_reg js_tasks js_obligations js_accepted js_published] in *;
    pose proof (jv_reg _ _ _ _ Hinv) as Hreg; pose proof (jv_tasks _ _ _ _ Hinv) as Htasks.
  - unfold obligation in H1. destruct (_ || _); [done|]. destruct (_ <=? _); [done|]. destruct (checked_add _ _); [|done].
    destruct (try_operation l) as [[] ?]; [|done]. injection H1 as <- <- <-. left. cbn. rewrite lookup_insert_ne; [done|].
    intros Heq. apply (ri_ids _ _ Hreg) in Hs. lia.
  - destruct (decide (id0 = id)) as [->|Hne]; [unfold obl_submit in H2; by rewrite Hs, Hrun in H2|]. left.
    unfold obl_submit in H2. repeat case_match; simplify_eq; cbn; by rewrite lookup_insert_ne.
  - left. destruct (decide (id0 = id)) as [->|Hne]; [unfold obl_submit in H2; rewrite Hs, Hrun in H2; by injection H2 as <- <-|].
    unfold obl_submit in H2. repeat case_match; simplify_eq; cbn; by rewrite ?lookup_insert_ne.
  - assert (Hne : id0 <> id).
    { intros ->. pose proof (ri_nodup _ _ Hreg) as Hnd. apply NoDup_app in Hnd as (_ & Hd & Hnd). apply NoDup_cons in Hnd as [Hn _].
      apply elem_of_app in Hin as [Hin|Hin]; [|done]. apply (Hd id Hin). by left. }
    left. unfold drop_obligation. repeat case_match; cbn; rewrite ?lookup_insert_ne, ?lookup_delete_ne by done; done.
  - unfold jobs_submit in H1. repeat case_match; simplify_eq. left. cbn. rewrite lookup_insert_ne; [done|].
    intros Heq. apply (ri_ids _ _ Hreg) in Hs. lia.
  - unfold jobs_submit in H1. left. repeat case_match; simplify_eq; done.
  - destruct (ti_slots _ _ Htasks t) as (slot' & Hs' & Hep & Hrun' & Hsn & _); [apply elem_of_app; right; by left|].
    rewrite (finish_slot g (tk_id t) (tk_epoch t) (Some r) slot' Hs' Hep Hrun'). cbn. destruct (decide (tk_id t = id)) as [Ht|Hne].
    + right. subst id. rewrite Hs in Hs'. injection Hs' as <-. exists (tk_input t), (Some r). split; [done|]. split; [right; by exists m, l, rd, r, m'|].
      rewrite lookup_insert_eq. split; [done|]. rewrite Hep. by left.
    + left. by rewrite lookup_insert_ne.
  - destruct (ti_slots _ _ Htasks t) as (slot' & Hs' & Hep & Hrun' & Hsn & _); [apply elem_of_app; right; by left|].
    rewrite (finish_slot g (tk_id t) (tk_epoch t) None slot' Hs' Hep Hrun'). cbn. destruct (decide (tk_id t = id)) as [Ht|Hne].
    + right. subst id. rewrite Hs in Hs'. injection Hs' as <-. exists (tk_input t), None. split; [done|]. split; [by left|].
      rewrite lookup_insert_eq. split; [done|]. rewrite Hep. by left.
    + left. by rewrite lookup_insert_ne.
  - left. unfold take. destruct (decide (id0 = id)) as [->|Hne].
    + rewrite Hs. destruct (ri_slots _ _ Hreg _ _ Hs) as [Hno _]. by rewrite (Hno Hrun).
    + repeat case_match; cbn; rewrite ?lookup_insert_ne, ?lookup_delete_ne by done; done.
  - left. unfold take_ready. destruct (first_slot _ g) as [[id0 slot0]|] eqn:Hf; [|done]. apply first_slot_spec in Hf as [Hs0 Hp].
    unfold ready in Hp. cbn. rewrite lookup_delete_ne; [done|]. intros ->. rewrite Hs in Hs0. injection Hs0 as <-. by rewrite Hheld in Hp.
  - left. apply retry_begin_cases in H1 as [[? _]|(idb & ep & w0 & slot0 & Heq & Hs0 & Hh0 & _ & ->)]; [done|]. injection Heq as -> -> ->.
    cbn. rewrite lookup_insert_ne; [done|]. intros ->. congruence.
  - left. apply retry_begin_cases in H1 as [[_ [->|(idb & slot0 & Hs0 & Hh0 & _ & _ & ->)]]|(?&?&?&?&?&_)]; [done| |done].
    cbn. rewrite lookup_delete_ne; [done|]. intros ->. congruence.
  - left. unfold retry_end. destruct (rg_slots g !! id0) as [slot0|] eqn:Hs0; [|done]. destruct (_ && _) eqn:Hb; [|done].
    cbn. rewrite lookup_delete_ne; [done|]. intros ->. rewrite Hs in Hs0. injection Hs0 as <-. by rewrite Hheld in Hb.
  - by left.
Qed.

(** The histories only grow. *)
Lemma others_grow s s' : jstep s s' -> js_accepted s ⊆ js_accepted s' /\ js_published s ⊆ js_published s'.
Proof. destruct 1; cbn; split; set_solver. Qed.

(** *** The steps of the task are steps of the system *)

Lemma submit_step input runtime now s : id ∈ js_obligations s -> jstep s (submit id input runtime now s).2.
Proof.
  destruct s as [g l m ts os ac pb]. unfold submit, with_registry. cbn. intros Hin. destruct (obl_submit g l id input runtime now) as [[ep|[i e]] g'] eqn:Ho; cbn.
  - by eapply JSubmit.
  - by eapply JSubmitRefused.
Qed.
Lemma filter_keep (l : list Z) : id ∉ l -> filter (fun i => i <> id) l = l.
Proof. induction l as [|i l IH]; intros Hn; [done|]. rewrite filter_cons_True by set_solver. by rewrite IH by set_solver. Qed.
Lemma release_step s : sys_jinv s -> id ∈ js_obligations s -> jstep s (release id s).
Proof.
  destruct s as [g l m ts os ac pb]. unfold release, sys_jinv. cbn. intros Hinv Hin. pose proof (ri_nodup _ _ (jv_reg _ _ _ _ Hinv)) as Hnd.
  apply list_elem_of_split in Hin as (os1 & os2 & ->). apply NoDup_app in Hnd as (_ & Hd & Hnd). apply NoDup_cons in Hnd as [Hn _].
  rewrite filter_app, filter_cons_False by (intros Hx; by apply Hx). 
  rewrite !filter_keep; [apply JDropObligation|done|]. intros Hi. apply (Hd id Hi). by left.
Qed.
Lemma take_step epoch k s : jstep s (take_ticket id epoch k s).2.
Proof. destruct s as [g l m ts os ac pb]. unfold take_ticket, with_registry. cbn. pose proof (JTake g l m ts os ac pb id epoch k) as Hj. by destruct (take g id epoch k). Qed.
Lemma lifecycle_step l s : jstep s (with_lifecycle l s).
Proof.
  destruct s as [g l0 m ts os ac pb]. unfold with_lifecycle. cbn. pose proof (JOther g l0 m ts os ac pb l m false) as Hj.
  replace (set_closed false g) with g in Hj; [done|]. destruct g. unfold set_closed. cbn. by rewrite orb_false_r.
Qed.
Lemma obligations_kept input runtime now s : js_obligations (submit id input runtime now s).2 = js_obligations s.
Proof. unfold submit. by destruct (obl_submit _ _ _ _ _ _) as [[|[]] ?]. Qed.

(** *** What the task knows of its slot *)

Definition awaits (slot : Slot) (input : Input) (P : ResultValue -> Prop) : Prop :=
  (sl_running slot = true /\ sl_snapshot slot = Some input)
  \/ (sl_running slot = false /\ forall r, sl_outcome slot = Some r -> P r).
Definition committed_call (s : JSys) : Prop :=
  exists x usage epoch out, (id, IWork (WSettle (settlement_of_call q x usage))) ∈ js_accepted s
    /\ ax_request_id x = tq_request_id q
    /\ (id, epoch, Some (RWork (OSettlement (AttemptCommitted (tq_request_id q) out)))) ∈ js_published s.
Definition authorized_for (s : JSys) (pd : PendingDispatch) : Prop :=
  pd_request_id pd = tq_request_id q /\ (id, IWork (WAuthorize pd)) ∈ js_accepted s.

Definition task_slot_ok (t : TaskState) (s : JSys) (slot : Slot) : Prop :=
  match t with
  | TsStart => True
  | TsAdmitting _ => exists p, ae_request_id (pa_evidence p) = tq_request_id q
      /\ awaits slot (IAdmission p) (fun r => forall pd, r = RAdmission (AdmissionPrepared pd) -> pd_request_id pd = tq_request_id q)
  | TsAuthorizing _ => exists pd, authorized_for s pd
      /\ awaits slot (IWork (WAuthorize pd)) (fun r => forall x, r = RWork (ODispatch (DispatchAuthorized x)) ->
           ax_request_id x = tq_request_id q /\ ax_intent x = pd_intent pd /\ sl_phase slot = PAuthorized
           /\ sl_snapshot slot = Some (IWork (WAuthorize pd)))
  | TsClosing _ => True
  | TsDispatched x => exists pd, authorized_for s pd /\ ax_request_id x = tq_request_id q /\ ax_intent x = pd_intent pd
      /\ sl_phase slot = PAuthorized /\ sl_running slot = false /\ sl_outcome slot = None /\ sl_snapshot slot = Some (IWork (WAuthorize pd))
  | TsSettling x epoch => exists usage, ax_request_id x = tq_request_id q
      /\ (id, IWork (WSettle (settlement_of_call q x usage))) ∈ js_accepted s
      /\ awaits slot (IWork (WSettle (settlement_of_call q x usage)))
           (fun r => forall rid out, r = RWork (OSettlement (AttemptCommitted rid out)) -> rid = tq_request_id q /\ exists ep, (id, ep, Some r) ∈ js_published s)
  | TsReplied _ => True
  end.
Definition task_inv (t : TaskState) (s : JSys) : Prop :=
  sys_jinv s /\
  match t with
  | TsReplied TrAnswer => committed_call s
  | TsReplied _ => True
  | _ => id ∈ js_obligations s /\ exists slot, rg_slots (js_reg s) !! id = Some slot /\ sl_held slot = true /\ task_slot_ok t s slot
  end.

Lemma awaits_finished slot input o (P Q : ResultValue -> Prop) : sl_snapshot slot = Some input -> outcome_of input o ->
  (forall r, sl_outcome (finished slot o) = Some r -> Q r) -> awaits (finished slot o) input Q.
Proof. intros _ _ HQ. right. split; [done|exact HQ]. Qed.
Lemma finished_outcome slot input o r : sl_snapshot slot = Some input -> sl_outcome (finished slot o) = Some r ->
  o = Some r \/ (o = None /\ r = Input_interrupted input).
Proof. unfold finished. cbn. intros Hs. destruct o as [r'|]; [intros [= ->]; by left|]. rewrite Hs. cbn. intros [= <-]. by right. Qed.

Lemma awaits_others t s s' slot input P P' : hands_off t s s' -> is_replied t = false -> sys_jinv s -> jstep s s' ->
  rg_slots (js_reg s) !! id = Some slot -> sl_held slot = true -> awaits slot input P ->
  (forall r, P r -> P' slot r) ->
  (forall o r, outcome_of input o -> (o = Some r \/ (o = None /\ r = Input_interrupted input)) -> sl_snapshot slot = Some input ->
     (id, sl_epoch slot, o) ∈ js_published s' -> P' (finished slot o) r) ->
  exists slot', rg_slots (js_reg s') !! id = Some slot' /\ sl_held slot' = true /\ awaits slot' input (P' slot').
Proof.
  intros Hoff Hnr Hinv Hst Hs Hheld [[Hrun Hsn]|[Hrun HP]] Hold Hnew; destruct (Hoff Hnr) as [Hin Hkeep].
  - destruct (others_running s s' slot Hinv Hst Hin Hs Hheld Hrun) as [Hs'|(i & o & Hsn' & Ho & Hs' & Hpub)].
    + exists slot. split; [done|]. split; [done|]. by left.
    + rewrite Hsn in Hsn'. injection Hsn' as <-. exists (finished slot o). split; [done|]. split; [done|]. right. split; [done|].
      intros r Hr. eapply Hnew; try done. by eapply finished_outcome.
  - exists slot. split; [by apply Hkeep|]. split; [done|]. right. split; [done|]. intros r Hr. by apply Hold, HP.
Qed.

Lemma task_inv_others t s s' : hands_off t s s' -> jstep s s' -> task_inv t s -> task_inv t s'.
Proof.
  intros Hoff Hst [Hinv Ht]. pose proof (jstep_inv _ _ Hst Hinv) as Hinv'. destruct (others_grow _ _ Hst) as [Hac Hpb]. split; [done|].
  assert (Hauth : forall pd, authorized_for s pd -> authorized_for s' pd) by (intros pd [? ?]; split; [done|by apply Hac]).
  destruct (is_replied t) eqn:Hnr.
  { destruct t as [| | | | | |[]]; try done. destruct Ht as (x & usage & ep & out & H1 & H2 & H3). exists x, usage, ep, out. split_and!; [by apply Hac|done|by apply Hpb]. }
  destruct (Hoff Hnr) as [Hin Hkeep].
  assert (Hslot : id ∈ js_obligations s /\ exists slot, rg_slots (js_reg s) !! id = Some slot /\ sl_held slot = true /\ task_slot_ok t s slot) by (by destruct t).
  destruct Hslot as (_ & slot & Hs & Hheld & Hok).
  assert (Hgoal : exists slot', rg_slots (js_reg s') !! id = Some slot' /\ sl_held slot' = true /\ task_slot_ok t s' slot');
    [|destruct t as [| | | | | |]; try done; by split].
  assert (Hany : exists slot', rg_slots (js_reg s') !! id = Some slot' /\ sl_held slot' = true).
  { apply (ri_live _ _ (jv_reg _ _ _ _ Hinv')) in Hin as (slot' & ? & ?). by exists slot'. }
  destruct t as [|ep|ep|ep|x|x ep|]; cbn [task_slot_ok] in *; try done.
  - destruct Hany as (slot' & ? & ?). by exists slot'.
  - destruct Hok as (p & Hp & Haw).
    eapply (awaits_others _ _ _ _ _ _ (fun _ r => forall pd, r = RAdmission (AdmissionPrepared pd) -> pd_request_id pd = tq_request_id q)) in Haw
      as (slot' & Hs' & Hh' & Haw'); try done; [exists slot'; split_and!; try done; by exists p|].
    intros o r Ho Hr _ _ pd ->. destruct Hr as [->|[_ Hr]]; [|done]. rewrite <- Hp. by eapply prepared_outcome.
  - destruct Hok as (pd & Hpd & Haw).
    eapply (awaits_others _ _ _ _ _ _ (fun slot r => forall x, r = RWork (ODispatch (DispatchAuthorized x)) ->
           ax_request_id x = tq_request_id q /\ ax_intent x = pd_intent pd /\ sl_phase slot = PAuthorized
           /\ sl_snapshot slot = Some (IWork (WAuthorize pd)))) in Haw
      as (slot' & Hs' & Hh' & Haw'); try done; [exists slot'; split_and!; try done; exists pd; split; [by apply Hauth|done]|].
    intros o r Ho Hr Hsn _ x ->. destruct Hr as [->|[_ Hr]]; [|done]. destruct (authorized_outcome _ _ _ Ho eq_refl) as [E1 E2].
    destruct Hpd as [Hpd _]. rewrite E1, E2. unfold finished. cbn. by rewrite Hheld, Hsn.
  - destruct Hany as (slot' & ? & ?). by exists slot'.
  - destruct Hok as (pd & Hpd & E1 & E2 & Hph & Hrun & Ho & Hsn). exists slot. split; [by apply Hkeep|]. split; [done|]. exists pd. split; [by apply Hauth|done].
  - destruct Hok as (usage & Hx & Hacc & Haw).
    eapply (awaits_others _ _ _ _ _ _ (fun _ r => forall rid out, r = RWork (OSettlement (AttemptCommitted rid out)) ->
        rid = tq_request_id q /\ exists ep, (id, ep, Some r) ∈ js_published s')) in Haw
      as (slot' & Hs' & Hh' & Haw'); try done.
    + exists slot'. split_and!; try done. exists usage. split; [done|]. split; [by apply Hac|done].
    + intros r Hr rid out ->. destruct (Hr rid out eq_refl) as [? (ep' & ?)]. split; [done|]. exists ep'. by apply Hpb.
    + intros o r Ho Hr _ Hpub rid out ->. destruct Hr as [->|[_ Hr]]; [|done]. split; [|by eexists].
      rewrite (committed_outcome _ _ _ _ Ho eq_refl). done.
Qed.

Lemma live_slot s : sys_jinv s -> id ∈ js_obligations s -> exists slot, rg_slots (js_reg s) !! id = Some slot /\ sl_held slot = true.
Proof. intros Hinv Hin. by apply (ri_live _ _ (jv_reg _ _ _ _ Hinv)) in Hin. Qed.
Lemma reply_inv r s : sys_jinv s -> id ∈ js_obligations s -> (r = TrAnswer -> committed_call s) -> task_inv (reply id r s).1 (reply id r s).2.
Proof.
  intros Hinv Hin Hr. cbn. split; [by eapply jstep_inv, Hinv; apply release_step|]. destruct r; try done. destruct (Hr eq_refl) as (x & u & ep & out & ?).
  by exists x, u, ep, out.
Qed.
Lemma end_operation_inv t s : task_inv t s -> task_inv (end_operation (t, s)).1 (end_operation (t, s)).2.
Proof.
  intros Ht. by destruct t.
Qed.
Lemma end_operation_inv' (x : TaskState * JSys) : task_inv x.1 x.2 -> task_inv (end_operation x).1 (end_operation x).2.
Proof. destruct x. apply end_operation_inv. Qed.

Lemma submitted_inv input runtime now s : sys_jinv s -> id ∈ js_obligations s ->
  let '(r, s') := submit id input runtime now s in
  sys_jinv s' /\ id ∈ js_obligations s' /\
  match r with
  | Ok epoch => rg_slots (js_reg s') !! id = Some (submitted input epoch) /\ js_accepted s' = (id, input) :: js_accepted s
  | Err _ => True
  end.
Proof.
  intros Hinv Hin. pose proof (submit_step input runtime now s Hin) as Hst. pose proof (obligations_kept input runtime now s) as Hos.
  destruct (live_slot s Hinv Hin) as (slot & Hs & Hheld).
  destruct (submit id input runtime now s) as [r s'] eqn:Hsub. cbn [snd] in *. split; [by eapply jstep_inv|]. split; [by rewrite Hos|].
  unfold submit in Hsub. destruct (obl_submit _ _ _ _ _ _) as [[ep|[i e]] g] eqn:Ho; injection Hsub as <- <-; [|done]. cbn.
  destruct (submit_accepted _ _ _ _ _ _ _ _ _ Hs Hheld Ho) as (_ & _ & ->). cbn. by rewrite lookup_insert_eq.
Qed.
Lemma taken_inv epoch k s slot : sys_jinv s -> id ∈ js_obligations s -> rg_slots (js_reg s) !! id = Some slot -> sl_held slot = true ->
  let '(r, s') := take_ticket id epoch k s in
  sys_jinv s' /\ id ∈ js_obligations s' /\ js_accepted s' = js_accepted s /\ js_published s' = js_published s /\
  match r with
  | Some r => sl_outcome slot = Some r /\ sl_running slot = false
      /\ rg_slots (js_reg s') !! id = Some (MkSlot (sl_snapshot slot) None true false (sl_epoch slot) (sl_releasable slot) true (sl_phase slot))
  | None => True
  end.
Proof.
  intros Hinv Hin Hs Hheld. pose proof (take_step epoch k s) as Hst. destruct (take_ticket id epoch k s) as [r s'] eqn:Ht. cbn [snd] in Hst.
  split; [by eapply jstep_inv|]. unfold take_ticket in Ht. destruct (take (js_reg s) id epoch k) as [r0 g] eqn:Hk. injection Ht as <- <-. cbn.
  split_and!; try done. unfold take in Hk. rewrite Hs in Hk. destruct (sl_outcome slot) as [r1|] eqn:Ho; [|by injection Hk as <- _].
  assert (Hrun : sl_running slot = false).
  { destruct (sl_running slot) eqn:Hrun; [|done]. destruct (ri_slots _ _ (jv_reg _ _ _ _ Hinv) _ _ Hs) as [Hno _]. by rewrite (Hno Hrun) in Ho. }
  destruct (_ || _) in Hk; [by injection Hk as <- _|]. rewrite Hheld in Hk. injection Hk as <- <-. cbn. rewrite lookup_insert_eq, Hrun. done.
Qed.
Lemma awaited slot input P r : awaits slot input P -> sl_running slot = false -> sl_outcome slot = Some r -> P r.
Proof. intros [[Hr _]|[_ HP]] Hrun Ho; [congruence|by apply HP]. Qed.

Lemma task_inv_own t s e t' s' : task_next cfg q id t e s = Some (t', s') -> task_inv t s -> task_inv t' s'.
Proof.
  intros Hn [Hinv Ht]. destruct (is_replied t) eqn:Hnr; [by destruct t|].
  assert (Hslot : id ∈ js_obligations s /\ exists slot, rg_slots (js_reg s) !! id = Some slot /\ sl_held slot = true /\ task_slot_ok t s slot) by (by destruct t).
  destruct Hslot as (Hin & slot & Hs & Hheld & Hok). clear Ht.
  assert (Hreply : forall s1, sys_jinv s1 -> id ∈ js_obligations s1 -> task_inv (reply id TrAccounting s1).1 (reply id TrAccounting s1).2) by (intros; by apply reply_inv).
  assert (Hend : forall x : TaskState * JSys, task_inv x.1 x.2 -> Some (end_operation x) = Some (t', s') -> task_inv t' s').
  { intros x Hx Heq. injection Heq as Heq. apply end_operation_inv' in Hx. by rewrite Heq in Hx. }
  assert (Hsome : forall x : TaskState * JSys, task_inv x.1 x.2 -> Some x = Some (t', s') -> task_inv t' s') by (intros x Hx [= ->]; done).
  destruct t as [|ep|ep|ep|x|x ep|]; [..|done]; destruct e as [rt now|rt now| |usage rt now|]; cbn [task_next] in Hn; try done;
    try (eapply Hsome, Hn; by apply Hreply); try (eapply Hend, Hn; by apply Hreply).
  - eapply Hsome, Hn. unfold start_task. destruct (PreparedAdmission_new _ _ _ _ _) as [p|] eqn:Hp; [|by apply Hreply].
    pose proof (submitted_inv (IAdmission (correlated p)) rt now s Hinv Hin) as Hsub. destruct (submit _ _ _ _ _) as [[ep|i] s1]; destruct Hsub as (Hi1 & Hin1 & H1); [|by apply Hreply].
    cbn. split; [done|]. split; [done|]. destruct H1 as [H1 _]. eexists. split; [exact H1|]. split; [done|]. exists (correlated p).
    unfold PreparedAdmission_new in Hp. apply result_bind_ok in Hp as (? & _ & Hp). injection Hp as <-. split; [done|]. by left.
  - eapply Hsome, Hn. unfold admitted. pose proof (taken_inv ep KAdmission s slot Hinv Hin Hs Hheld) as Htk.
    destruct (take_ticket _ _ _ _) as [r s1]. destruct Htk as (Hi1 & Hin1 & Hac & Hpb & Hr). destruct Hok as (p & Hp & Haw).
    destruct r as [[o|[pd|ev dn|ev|ev f|ev]]|]; try (by apply Hreply).
    destruct Hr as (Ho & Hrun & Hs1). pose proof (awaited _ _ _ _ Haw Hrun Ho pd eq_refl) as Hpd.
    unfold authorize_or_close. pose proof (submitted_inv (IWork (WAuthorize pd)) rt now s1 Hi1 Hin1) as Hsub.
    destruct (submit id (IWork (WAuthorize pd)) rt now s1) as [[ep2|i] s2]; destruct Hsub as (Hi2 & Hin2 & H2).
    + cbn. split; [done|]. split; [done|]. destruct H2 as [H2 Hac2]. eexists. split; [exact H2|]. split; [done|]. exists pd. split; [|by left].
      split; [done|]. rewrite Hac2. by left.
    + destruct i as [[pd'|?|?]|?]; try (by apply Hreply). pose proof (submitted_inv (IWork (WClose pd')) rt now s2 Hi2 Hin2) as Hsub.
      destruct (submit id (IWork (WClose pd')) rt now s2) as [[ep3|i] s3]; destruct Hsub as (Hi3 & Hin3 & H3); [|by apply Hreply].
      cbn. split; [done|]. split; [done|]. destruct (live_slot s3 Hi3 Hin3) as (slot3 & ? & ?). by exists slot3.
  - eapply Hsome, Hn. unfold authorized. pose proof (taken_inv ep KWork s slot Hinv Hin Hs Hheld) as Htk.
    destruct (take_ticket _ _ _ _) as [r s1]. destruct Htk as (Hi1 & Hin1 & Hac & Hpb & Hr). destruct Hok as (pd & [Hpd Hacc] & Haw).
    destruct r as [[[a|a|w]|o]|]; try (by apply Hreply). destruct a as [?|x|? ?|? ?]; try (by apply Hreply).
    destruct Hr as (Ho & Hrun & Hs1). destruct (awaited _ _ _ _ Haw Hrun Ho x eq_refl) as (E1 & E2 & Hph & Hsn).
    destruct (try_operation (js_lc s1)) as [[] l].
    + cbn. split; [eapply jstep_inv, Hi1; apply lifecycle_step|]. split; [done|]. eexists. split; [exact Hs1|]. split; [done|]. exists pd.
      split; [split; [done|]; cbn; by rewrite Hac|]. cbn. done.
    + apply reply_inv; [eapply jstep_inv, Hi1; apply lifecycle_step|done|done].
  - eapply Hsome, Hn. pose proof (taken_inv ep KWork s slot Hinv Hin Hs Hheld) as Htk. destruct (take_ticket _ _ _ _) as [r s1]. destruct Htk as (Hi1 & Hin1 & _).
    by apply Hreply.
  - eapply Hend, Hn. destruct Hok as (pd & _ & Hx & _). unfold finalize_owned.
    pose proof (submitted_inv (IWork (WSettle (settlement_of_call q x usage))) rt now s Hinv Hin) as Hsub.
    destruct (submit _ _ _ _ _) as [[ep|i] s1]; destruct Hsub as (Hi1 & Hin1 & H1); [|by apply Hreply].
    cbn. split; [done|]. split; [done|]. destruct H1 as [H1 Hac]. eexists. split; [exact H1|]. split; [done|]. exists usage. split; [done|].
    rewrite Hac. split; [by left|]. by left.
  - eapply Hend, Hn. unfold settled. pose proof (taken_inv ep KWork s slot Hinv Hin Hs Hheld) as Htk.
    destruct (take_ticket _ _ _ _) as [r s1]. destruct Htk as (Hi1 & Hin1 & Hac & Hpb & Hr). destruct Hok as (usage & Hx & Hacc & Haw).
    destruct r as [[[a|a|w]|o]|]; try (by apply Hreply). destruct a as [rid out|? ?]; [|by apply Hreply].
    destruct Hr as (Ho & Hrun & _). destruct (awaited _ _ _ _ Haw Hrun Ho rid out eq_refl) as (-> & ep' & Hpub).
    apply reply_inv; [done|done|]. intros _. exists x, usage, ep', out. rewrite Hac, Hpb. done.
Qed.

Lemma tracked_step_inv x y : tracked_step x y -> task_inv x.1 x.2 -> task_inv y.1 y.2.
Proof. destruct 1; cbn; [by eapply task_inv_own|by eapply task_inv_others]. Qed.
Lemma tracked_run_inv x y : rtc tracked_step x y -> task_inv x.1 x.2 -> task_inv y.1 y.2.
Proof. induction 1; eauto using tracked_step_inv. Qed.

(** ** What is promised *)

(** The state in which the task starts: the registry just gave it the
    obligation [id]. *)
Definition task_start (capacity : Z) (l : Lifecycle) (m : Mutex ProxyLedger) (s1 : JSys) : Prop :=
  exists s0 g l', rtc jstep (js_new capacity l m) s0 /\ obligation (js_reg s0) (js_lc s0) = (Ok id, g, l')
    /\ s1 = MkJSys g l' (js_ledger s0) (js_tasks s0) (id :: js_obligations s0) (js_accepted s0) (js_published s0).
Lemma task_start_inv capacity l m s1 : task_start capacity l m s1 -> task_inv TsStart s1.
Proof.
  intros (s0 & g & l' & Hr & Ho & ->). pose proof (reach_jinv _ _ _ _ Hr) as Hinv.
  assert (Hinv1 : sys_jinv (MkJSys g l' (js_ledger s0) (js_tasks s0) (id :: js_obligations s0) (js_accepted s0) (js_published s0))) by (by eapply jinv_obligation).
  split; [done|]. assert (Hin : id ∈ id :: js_obligations s0) by (by left). split; [done|].
  destruct (live_slot _ Hinv1 Hin) as (slot & ? & ?). by exists slot.
Qed.

Lemma settle_phase slot x usage pd : ax_request_id x = tq_request_id q -> pd_request_id pd = tq_request_id q -> ax_intent x = pd_intent pd ->
  sl_phase slot = PAuthorized -> sl_snapshot slot = Some (IWork (WAuthorize pd)) ->
  next_phase slot (IWork (WSettle (settlement_of_call q x usage))) = Some PTerminal.
Proof.
  intros E1 E2 E3 Hph Hsn. unfold next_phase. rewrite Hph, Hsn. cbn. rewrite E1, E2, E3, !(bool_decide_eq_true_2 (_ = _)) by done. cbn. by rewrite !bool_decide_eq_true_2.
Qed.

(** Whatever happens around a tracked request, when it is dispatched the
    execution is the one admitted for this request and accepted for
    authorization by its obligation; and whatever usage its call ends with,
    at whatever time, the registry retains that terminal record: it either
    schedules the settlement or, once the request is gone, owes it to the
    recovery. *)
Theorem dispatched_call_is_owned capacity l m s1 s x : task_start capacity l m s1 -> rtc tracked_step (TsStart, s1) (TsDispatched x, s) ->
  ax_request_id x = tq_request_id q
  /\ (exists pd, (id, IWork (WAuthorize pd)) ∈ js_accepted s /\ pd_request_id pd = tq_request_id q /\ pd_intent pd = ax_intent x)
  /\ forall usage runtime now,
      let settle := WSettle (settlement_of_call q x usage) in
      match submit id (IWork settle) runtime now s with
      | (Ok epoch, s2) => MkTask id epoch (IWork settle) ∈ js_tasks s2
          /\ exists slot, rg_slots (js_reg s2) !! id = Some slot /\ sl_snapshot slot = Some (IWork settle)
      | (Err _, s2) => exists slot, rg_slots (js_reg (release id s2)) !! id = Some slot /\ sl_held slot = false /\ owed_work slot = Some settle
      end.
Proof.
  intros Hs Hr. apply task_start_inv in Hs. destruct (tracked_run_inv _ _ Hr Hs) as [Hinv (Hin & slot & Hslot & Hheld & pd & [Hpd Hacc] & E1 & E2 & Hph & Hrun & Ho & Hsn)].
  cbn [fst snd] in Hinv, Hin, Hslot, Hheld, Hacc. split; [done|]. split; [by exists pd|]. intros usage runtime now settle. unfold submit, release.
  assert (Hn : next_phase slot (IWork settle) = Some PTerminal) by (by eapply settle_phase).
  unfold obl_submit. rewrite Hslot, Hrun, Ho, Hn. cbn [orb]. rewrite (bool_decide_eq_false_2 (is_Some None)) by (by intros []).
  rewrite (bool_decide_eq_true_2 (PTerminal = PTerminal)) by done. cbn [sl_epoch sl_outcome sl_held].
  assert (Hkept : forall g : Registry, rg_slots g !! id = Some (MkSlot (Some (IWork settle)) None (sl_held slot) false (sl_epoch slot) false (sl_consumed slot) PTerminal) ->
      exists slot, rg_slots (drop_obligation g id) !! id = Some slot /\ sl_held slot = false /\ owed_work slot = Some settle).
  { intros g Hg. unfold drop_obligation. rewrite Hg. cbn. eexists. split; [apply lookup_insert_eq|]. done. }
  destruct (_ || _); [apply Hkept; cbn; by rewrite lookup_insert_eq, ?Ho, ?Hrun|].
  destruct runtime; cbn [negb]; [|apply Hkept; cbn; by rewrite lookup_insert_eq, ?Ho, ?Hrun].
  destruct (checked_add _ _) as [epoch|]; [|apply Hkept; cbn; by rewrite lookup_insert_eq, ?Ho, ?Hrun].
  cbn. split; [by left|]. eexists. split; [apply lookup_insert_eq|]. done.
Qed.

End Task.

(** The lease asked for a tracked request outlives everything its client
    waits for, by at least 59 seconds and at most a minute. *)
Theorem lease_outlives_the_wait c q :
  seconds 59 < lease_ttl c q - (transport c q + cf_accounting_wait c * 3) <= seconds 60.
Proof.
  unfold lease_ttl, seconds, nanos. set (w := transport c q + _). pose proof (Z.div_mod w (1 * 1000000000) ltac:(done)).
  pose proof (Z.mod_pos_bound w (1 * 1000000000) ltac:(done)). lia.
Qed.

(** ** Instances *)

#[local] Existing Instances utc_days demo_codec.

(** A schedule of the task and, while its slot runs, of the others. *)
Inductive tcmd := TcTask (e : TaskEvent) | TcOthers (c : jcmd).
Definition tdo (cfg : Config) (q : TrackedCall) (id : Z) (x : TaskState * JSys) (c : tcmd) : option (TaskState * JSys) :=
  match c with
  | TcTask e => task_next cfg q id x.1 e x.2
  | TcOthers c =>
      match jdo x.2 c, rg_slots (js_reg x.2) !! id with
      | Some s', Some slot => if sl_running slot && bool_decide (id ∈ js_obligations s') then Some (x.1, s') else None
      | _, _ => None
      end
  end.
Fixpoint tdos (cfg : Config) (q : TrackedCall) (id : Z) (x : TaskState * JSys) (cs : list tcmd) : option (TaskState * JSys) :=
  match cs with [] => Some x | c :: cs => x ← tdo cfg q id x c; tdos cfg q id x cs end.
Lemma tdo_step cfg q id x c y : tdo cfg q id x c = Some y -> tracked_step cfg q id x y.
Proof.
  destruct x as [t s]. destruct c as [e|c]; cbn.
  - intros Hn. destruct y. by eapply TOwn.
  - destruct (jdo s c) as [s'|] eqn:Hj; [|done]. destruct (rg_slots (js_reg s) !! id) as [slot|] eqn:Hs; [|done].
    destruct (_ && _) eqn:Hb; [|done]. intros [= <-]. apply andb_true_iff in Hb as [Hrun Hin].
    apply bool_decide_eq_true in Hin. apply TOthers; [by eapply jdo_step|]. intros _. split; [done|]. intros slot' Hs' Hr. congruence.
Qed.
Lemma tdos_steps cfg q id cs : forall x y, tdos cfg q id x cs = Some y -> rtc (tracked_step cfg q id) x y.
Proof.
  induction cs as [|c cs IH]; cbn; intros x y Hd; [by injection Hd as ->|]. apply bind_Some in Hd as (x1 & Hx & Hd).
  eapply rtc_l; [by eapply tdo_step|by apply IH].
Qed.

Definition sample_config : Config := MkConfig 64 (seconds 2) (seconds 120).
Definition sample_call : TrackedCall :=
  MkTrackedCall "req" "team" 1500 Block OpenAi false None true true None (Some 500) None 10000.
Definition sample_start : JSys :=
  Eval vm_compute in
  match obligation (rg_new 4) lc_new with
  | (_, g, l) => MkJSys g l jobs_ledger [] [0] [] []
  end.
Definition to_dispatch : list tcmd :=
  [TcTask (EvStart true 0); TcOthers (CmdRun (MkReads 0 0 demo_ent)); TcTask (EvReady true 0);
   TcOthers (CmdRun (MkReads (seconds 1) 0 None)); TcTask (EvReady true 0)].
Definition to_answer : list tcmd :=
  to_dispatch ++ [TcTask (EvAnswered usage_demo true 0); TcOthers (CmdRun (MkReads (seconds 4) (seconds 5) demo_ent2)); TcTask (EvReady true 0)].

Definition sample_dispatched : TaskState * JSys :=
  Eval vm_compute in default (TsStart, sample_start) (tdos sample_config sample_call 0 (TsStart, sample_start) to_dispatch).
Definition sample_answered : JSys :=
  Eval vm_compute in (default (TsStart, sample_start) (tdos sample_config sample_call 0 (TsStart, sample_start) to_answer)).2.
Definition sample_execution : AuthorizedExecution :=
  MkAuthorized "req" (MkIntent demo_exec (MkReservation 1 "team" 1500 (seconds 186))) demo_exec.

Lemma sample_starts : task_start 0 4 lc_new jobs_ledger sample_start.
Proof.
  exists (js_new 4 lc_new jobs_ledger), (js_reg sample_start), (js_lc sample_start). split; [apply rtc_refl|]. split; vm_compute; reflexivity.
Qed.

Lemma dispatched_call_is_owned_witness : exists s, rtc (tracked_step sample_config sample_call 0) (TsStart, sample_start) (TsDispatched sample_execution, s)
  /\ (exists pd, (0, IWork (WAuthorize pd)) ∈ js_accepted s /\ pd_request_id pd = "req" /\ pd_intent pd = ax_intent sample_execution).
Proof.
  assert (Hr : rtc (tracked_step sample_config sample_call 0) (TsStart, sample_start) (TsDispatched sample_execution, sample_dispatched.2)).
  { apply (tdos_steps _ _ _ to_dispatch). vm_compute. reflexivity. }
  exists sample_dispatched.2. split; [exact Hr|].
  exact (proj1 (proj2 (dispatched_call_is_owned sample_config sample_call 0 4 lc_new jobs_ledger sample_start _ sample_execution sample_starts Hr))).
Defined.
