(* ===== verification/StreamBody.v ===== *)
(** [crates/sandhi-proxy/src/streaming.rs]: the body of a streamed answer
    with a lifetime.  A worker reads the source and feeds a bounded queue of
    frames; a watch channel tells how it ended; the reader is the body that
    the HTTP server polls.  Both run at once, so the body is a step relation
    over what they share.  The source is what the plane's generator yields.
    Whether a deadline has passed, the shutdown grace is over, the source
    panics or a settlement commits is an event of the worker. *)

From S2P Require Import Prelude Ledger SqlLedger ProxyLedger TokenEstimate Accounting.

Definition QUEUE_FRAMES : nat := 4.
Definition FRAME_BYTES : nat := Z.to_nat (16 * 1024).

Definition lifetime_maximum : Z := RESERVATION_TTL_SECS * 1000000000 - SETTLEMENT_HEADROOM_MS * 1000000.
(** [StreamBodyLifetime::new], in nanoseconds. *)
Definition lifetime_new (duration : Z) : option Z :=
  if (duration =? 0) || (lifetime_maximum <? duration) then None else Some duration.

Inductive Failure := FDeadline | FDisconnected | FShutdown | FLease | FSource | FPanic | FAccounting.
Definition message (f : Failure) : string :=
  match f with
  | FDeadline => "stream body deadline exceeded"
  | FDisconnected => "stream receiver disconnected"
  | FShutdown => "shutdown grace expired"
  | FLease => "insufficient reservation lifetime after stream setup"
  | FSource => "stream body failed"
  | FPanic => "stream producer panicked"
  | FAccounting => "accounting unresolved; do not automatically retry"
  end.
Definition outcome (f : Failure) : string :=
  match f with FDeadline => "timeout" | FDisconnected => "cancelled" | _ => "error" end.

Inductive Terminal := TRunning | TComplete | TFailed (f : Failure).
#[export] Instance Failure_eq_dec : EqDecision Failure.
Proof. solve_decision. Defined.
#[export] Instance Terminal_eq_dec : EqDecision Terminal.
Proof. solve_decision. Defined.

(** [bytes.chunks(FRAME_BYTES)]. *)
Fixpoint chunks_of (fuel n : nat) (b : list Z) : list (list Z) :=
  match fuel, b with
  | S fuel, _ :: _ => take n b :: chunks_of fuel n (drop n b)
  | _, _ => []
  end.
Definition frames (b : list Z) : list (list Z) := chunks_of (length b) FRAME_BYTES b.

(** ** The worker and the reader *)

Inductive Item := IBytes (b : list Z) | IFault.
Inductive Worker :=
| WSource (items : list Item)                          (* polls the source *)
| WSend (pending : list (list Z)) (items : list Item)  (* in [send_bytes] *)
| WTail (pending : list (list Z))                      (* the source ended; the tail is sent *)
| WEnded (r : result Failure unit)                     (* the source was dropped *)
| WSettling (r : result Failure unit)                  (* in [finalize_owned] *)
| WPublished (r : result Failure unit)                 (* the queue is closed and the end told *)
| WGone.
Inductive Reader :=
| RCheck                       (* at the top of the loop *)
| RSelect (status : Terminal)  (* in the [select!], after reading the status *)
| RWait                        (* the queue is over and the status was running *)
| RClean                       (* ended: HTTP end of file *)
| RError (m : string)          (* ended with an error *)
| RDropped.                    (* the client went away *)

Record Body := MkBody {
  bd_worker : Worker; bd_queue : list (list Z); bd_tx : bool; bd_rx : bool; bd_terminal : Terminal; bd_owner : bool;
  bd_reader : Reader; bd_delivered : list Z; bd_ops : list AccOp; bd_committed : option bool }.

Definition set_worker (w : Worker) (b : Body) : Body :=
  MkBody w (bd_queue b) (bd_tx b) (bd_rx b) (bd_terminal b) (bd_owner b) (bd_reader b) (bd_delivered b) (bd_ops b) (bd_committed b).
Definition set_queue (l : list (list Z)) (b : Body) : Body :=
  MkBody (bd_worker b) l (bd_tx b) (bd_rx b) (bd_terminal b) (bd_owner b) (bd_reader b) (bd_delivered b) (bd_ops b) (bd_committed b).
Definition set_reader (r : Reader) (b : Body) : Body :=
  MkBody (bd_worker b) (bd_queue b) (bd_tx b) (bd_rx b) (bd_terminal b) (bd_owner b) r (bd_delivered b) (bd_ops b) (bd_committed b).
Definition set_terminal (t : Terminal) (b : Body) : Body :=
  MkBody (bd_worker b) (bd_queue b) (bd_tx b) (bd_rx b) t (bd_owner b) (bd_reader b) (bd_delivered b) (bd_ops b) (bd_committed b).
Definition close_tx (b : Body) : Body :=
  MkBody (bd_worker b) (bd_queue b) false (bd_rx b) (bd_terminal b) (bd_owner b) (bd_reader b) (bd_delivered b) (bd_ops b) (bd_committed b).
Definition close_rx (b : Body) : Body :=
  MkBody (bd_worker b) (bd_queue b) (bd_tx b) false (bd_terminal b) (bd_owner b) (bd_reader b) (bd_delivered b) (bd_ops b) (bd_committed b).
Definition drop_owner (b : Body) : Body :=
  MkBody (bd_worker b) (bd_queue b) false (bd_rx b) (bd_terminal b) false (bd_reader b) (bd_delivered b) (bd_ops b) (bd_committed b).
Definition deliver (frame : list Z) (b : Body) : Body :=
  MkBody (bd_worker b) (bd_queue b) (bd_tx b) (bd_rx b) (bd_terminal b) (bd_owner b) (bd_reader b) (bd_delivered b ++ frame) (bd_ops b) (bd_committed b).
Definition account (op : AccOp) (b : Body) : Body :=
  MkBody (bd_worker b) (bd_queue b) (bd_tx b) (bd_rx b) (bd_terminal b) (bd_owner b) (bd_reader b) (bd_delivered b) (bd_ops b ++ [op]) (bd_committed b).
Definition set_committed (c : bool) (b : Body) : Body :=
  MkBody (bd_worker b) (bd_queue b) (bd_tx b) (bd_rx b) (bd_terminal b) (bd_owner b) (bd_reader b) (bd_delivered b) (bd_ops b) (Some c).

Section Body.
(** Whether the registry owns the accounting, whether the lease outlives the
    body, and the last frame of the dialect. *)
Context (owned fits_lease : bool) (tail : option (list Z)) (items : list Item).

Definition body_new : Body := MkBody (WSource items) [] true true TRunning true RCheck [] [] None.

(** The end of the [select!]: the source is dropped, and a failure is noted
    on the accounting. *)
Definition ended (r : result Failure unit) (b : Body) : Body :=
  let b := set_worker (WEnded r) b in
  match r with Ok _ => b | Err f => account (AFailed (outcome f)) b end.
Definition terminal_of (r : result Failure unit) : Terminal := match r with Ok _ => TComplete | Err f => TFailed f end.
(** Dropping the sender and telling the terminal are one step: between them
    the reader could only find the queue closed and wait for the terminal. *)
Definition publish (r : result Failure unit) (b : Body) : Body :=
  set_worker (WPublished r) (set_terminal (terminal_of r) (close_tx b)).
Definition running (w : Worker) : bool := match w with WSource _ | WSend _ _ | WTail _ => true | _ => false end.

Inductive WorkerEvent :=
| WkPoll                     (* the select polls its last branch *)
| WkDeadline | WkShutdown | WkPanic
| WkClosed                   (* [tx.closed()] *)
| WkSettled (committed : bool) (ck : Clocks)
| WkVanish (ck : Clocks).    (* the runtime drops the task, and the accounting with it *)

(** One frame into the queue; a closed receiver fails the send, and a full
    queue waits. *)
Definition send_frame (frame : list Z) (next : Worker) (b : Body) : option Body :=
  if negb (bd_rx b) then Some (ended (Err FDisconnected) b)
  else if (length (bd_queue b) <? QUEUE_FRAMES)%nat then Some (set_worker next (set_queue (bd_queue b ++ [frame]) b))
  else None.
Definition poll_worker (b : Body) : option Body :=
  if negb fits_lease && running (bd_worker b) then Some (ended (Err FLease) b)
  else
    match bd_worker b with
    | WSource [] => Some (set_worker (WTail (match tail with Some t => frames t | None => [] end)) b)
    | WSource (IBytes bytes :: rest) => Some (set_worker (WSend (frames bytes) rest) b)
    | WSource (IFault :: _) => Some (ended (Err FSource) b)
    | WSend [] rest => Some (set_worker (WSource rest) b)
    | WSend (frame :: pending) rest => send_frame frame (WSend pending rest) b
    | WTail [] => Some (ended (Ok tt) b)
    | WTail (frame :: pending) => send_frame frame (WTail pending) b
    | WEnded r =>
        if owned
        then Some (set_worker (WSettling r) (match r with Err f => set_terminal (TFailed f) b | Ok _ => b end))
        else Some (publish r b)
    | _ => None
    end.
Definition worker_step (e : WorkerEvent) (b : Body) : option Body :=
  match e with
  | WkPoll => poll_worker b
  | WkDeadline => if fits_lease && running (bd_worker b) then Some (ended (Err FDeadline) b) else None
  | WkShutdown => if fits_lease && running (bd_worker b) then Some (ended (Err FShutdown) b) else None
  | WkPanic => if running (bd_worker b) then Some (ended (Err FPanic) b) else None
  | WkClosed => if fits_lease && running (bd_worker b) && negb (bd_rx b) then Some (ended (Err FDisconnected) b) else None
  | WkSettled committed ck =>
      match bd_worker b with
      | WSettling r =>
          let r := if negb committed && is_ok r then Err FAccounting else r in
          Some (publish r (set_committed committed (account (AFinalize ck) b)))
      | WPublished r => if owned then None else Some (set_worker WGone (account (AFinalize ck) b))
      | _ => None
      end
  | WkVanish ck => Some (set_worker WGone (drop_owner (account (AFinalize ck) b)))
  end.

(** The reader, between two of its awaits. *)
Inductive ReaderEvent :=
| RdTop        (* the status is read *)
| RdChanged    (* the watch told a change *)
| RdRecv       (* the queue answered *)
| RdDrop.      (* the client goes away *)
Definition is_failed (t : Terminal) : bool := match t with TFailed _ => true | _ => false end.
Definition reader_step (e : ReaderEvent) (b : Body) : option Body :=
  match bd_reader b, e with
  | (RClean | RError _ | RDropped), _ => None
  | _, RdDrop => Some (set_reader RDropped (close_rx b))
  | RCheck, RdTop =>
      match bd_terminal b with
      | TFailed f => Some (set_reader (RError (message f)) (close_rx b))
      | status => Some (set_reader (RSelect status) b)
      end
  | RSelect TRunning, RdChanged | RWait, RdChanged =>
      if negb (bool_decide (bd_terminal b = TRunning)) then Some (set_reader RCheck b)
      else if negb (bd_owner b) then Some (set_reader (RError "stream owner disappeared") b)
      else None
  | RSelect status, RdRecv =>
      match bd_queue b with
      | frame :: rest =>
          let b := set_reader RCheck (set_queue rest b) in
          Some (if is_failed (bd_terminal b) then b else deliver frame b)
      | [] =>
          if bd_tx b then None
          else if is_failed (bd_terminal b) then Some (set_reader RCheck b)
          else if bool_decide (status = TComplete) then Some (set_reader RClean b)
          else Some (set_reader RWait b)
      end
  | _, _ => None
  end.

Inductive body_step : Body -> Body -> Prop :=
| BWorker e b b' : worker_step e b = Some b' -> body_step b b'
| BReader e b b' : reader_step e b = Some b' -> body_step b b'.

(** Without a lifetime, the body is the generator itself. *)
Definition plain_body : list Item := items ++ match tail with Some t => [IBytes t] | None => [] end.
End Body.
