(* ===== verification/StreamBodyProps.v ===== *)
(** What the body of a streamed answer promises ([StreamBody]): a clean end
    means that everything was delivered and, when the registry owns the
    accounting, settled; a failure is never hidden by what was queued; the
    queue is bounded; and neither side waits for the other for ever. *)

From stdpp Require Import relations.
From S2P Require Import Prelude Ledger SqlLedger ProxyLedger TokenEstimate Accounting StreamBody.

(** ** Frames *)

Lemma chunks_spec n b : forall fuel, (0 < n)%nat -> (length b <= fuel)%nat ->
  concat (chunks_of fuel n b) = b /\ Forall (fun c => (0 < length c <= n)%nat) (chunks_of fuel n b).
Proof.
  intros fuel Hn. revert b. induction fuel as [|fuel IH]; intros b Hb; [by destruct b; [|cbn in Hb; lia]|].
  destruct b as [|x b]; [by split|]. cbn [chunks_of concat]. destruct (IH (drop n (x :: b))) as [Hc Hf]; [rewrite length_drop; cbn in *; lia|].
  split; [by rewrite Hc, take_drop|]. constructor; [|done]. rewrite length_take. cbn. lia.
Qed.
Lemma frames_spec b : concat (frames b) = b /\ Forall (fun c => (0 < length c <= FRAME_BYTES)%nat) (frames b).
Proof. apply chunks_spec; [|done]. unfold FRAME_BYTES. lia. Qed.

Definition is_fault (i : Item) : bool := match i with IFault => true | _ => false end.
Definition content (l : list Item) : list Z := concat ((fun i => match i with IBytes b => b | IFault => [] end) <$> l).

Section Props.
Context (owned fits_lease : bool) (tail : option (list Z)) (items : list Item).

Definition everything : list Z := content items ++ default [] tail.
(** What a worker still has to send. *)
Definition to_send (w : Worker) : list Z :=
  match w with
  | WSource l => content l ++ default [] tail
  | WSend pending l => concat pending ++ content l ++ default [] tail
  | WTail pending => concat pending
  | _ => []
  end.
Definition faults_left (w : Worker) : bool :=
  match w with WSource l | WSend _ l => existsb is_fault l | _ => false end.
Definition pending_of (w : Worker) : list (list Z) := match w with WSend p _ | WTail p => p | _ => [] end.
(** The worker has not failed and has not vanished. *)
Definition on_course (w : Worker) : bool :=
  match w with WEnded (Err _) | WSettling (Err _) | WPublished (Err _) | WGone => false | _ => true end.
Definition told (w : Worker) : bool := match w with WPublished _ | WGone => true | _ => false end.

Record body_inv (b : Body) : Prop := {
  bi_course : on_course (bd_worker b) = true -> is_failed (bd_terminal b) = false ->
    bd_delivered b ++ concat (bd_queue b) ++ to_send (bd_worker b) = everything
    /\ existsb is_fault items = faults_left (bd_worker b);
  bi_quiet : is_failed (bd_terminal b) = false -> exists rest, bd_delivered b ++ concat (bd_queue b) ++ rest = everything;
  bi_prefix : exists rest, bd_delivered b ++ rest = everything;
  bi_complete : bd_terminal b = TComplete ->
    bd_delivered b ++ concat (bd_queue b) = everything /\ existsb is_fault items = false /\ bd_tx b = false
    /\ told (bd_worker b) = true /\ (owned = true -> bd_committed b = Some true);
  bi_running : bd_terminal b = TRunning -> told (bd_worker b) = true -> bd_owner b = false;
  bi_closed : bd_tx b = false -> told (bd_worker b) = true;
  bi_gone : told (bd_worker b) = true -> bd_tx b = false;
  bi_early : is_failed (bd_terminal b) = true -> on_course (bd_worker b) = false;
  bi_bound : (length (bd_queue b) <= QUEUE_FRAMES)%nat
    /\ Forall (fun c => (length c <= FRAME_BYTES)%nat) (bd_queue b ++ pending_of (bd_worker b));
  bi_reader : match bd_reader b with
              | RSelect TComplete => bd_terminal b = TComplete
              | RSelect (TFailed _) => False
              | RWait => bd_tx b = false
              | RClean => bd_terminal b = TComplete /\ bd_queue b = []
              | _ => True
              end }.

Lemma body_new_inv : body_inv (body_new items).
Proof.
  split; cbn; try done.
  - exists everything. done.
  - exists everything. done.
  - split; [lia|done].
Qed.

(** Only the worker's place, its pending frames, the queue and the ends of
    the channels matter. *)
Lemma ended_inv f b : body_inv b -> running (bd_worker b) = true -> body_inv (ended (Err f) b).
Proof.
  intros [Hc Hq Hp Hcm Hr Hcl Hg He [Hb1 Hb2] Hrd] Hrun.
  assert (Hnot : told (bd_worker b) = false) by (by destruct (bd_worker b)).
  split; cbn; try done.
  - intros Ht. destruct (Hcm Ht) as (_ & _ & _ & Hx & _). congruence.
  - intros Ht. specialize (Hcl Ht). congruence.
  - split; [done|]. rewrite app_nil_r. by apply Forall_app in Hb2 as [? _].
Qed.

(** The end is told: cleanly only for a worker on course. *)
Lemma publish_inv r b : body_inv b -> told (bd_worker b) = false -> running (bd_worker b) = false ->
  (r = Ok tt -> on_course (bd_worker b) = true /\ (owned = true -> bd_committed b = Some true)) -> body_inv (publish r b).
Proof.
  intros [Hc Hq Hpr Hcm Hr Hcl Hg He [Hb1 Hb2] Hrd] Hnt Hnr Hok.
  assert (Hno : bd_terminal b = TComplete -> False) by (intros Ht; destruct (Hcm Ht) as (_ & _ & _ & Hx & _); congruence).
  assert (Hpend : pending_of (bd_worker b) = []) by (by destruct (bd_worker b)). rewrite Hpend in Hb2.
  assert (Hsend : to_send (bd_worker b) = []) by (by destruct (bd_worker b)). rewrite Hsend in Hc.
  assert (Hfl : faults_left (bd_worker b) = false) by (by destruct (bd_worker b)). rewrite Hfl in Hc.
  destruct r as [[]|f].
  - destruct (Hok eq_refl) as [Hon Hcommit].
    destruct (is_failed (bd_terminal b)) eqn:Hf; [rewrite (He eq_refl) in Hon; done|]. destruct (Hc Hon eq_refl) as [Hall Hff].
    split; cbn; try done.
    + intros _. rewrite app_nil_r in Hall. done.
    + destruct (bd_reader b) as [|[]| | | |]; try done. by destruct Hrd.
  - split; cbn; try done. destruct (bd_reader b) as [|[]| | | |]; try done. destruct Hrd as [Hrd _]. by destruct (Hno Hrd).
Qed.

Lemma poll_inv b b' : body_inv b -> poll_worker owned fits_lease tail b = Some b' -> body_inv b'.
Proof.
  intros Hi Hp. unfold poll_worker in Hp. destruct (negb fits_lease && running (bd_worker b)) eqn:Hl.
  { injection Hp as <-. apply andb_true_iff in Hl as [_ Hl]. by apply ended_inv. }
  clear Hl. pose proof Hi as [Hc Hq Hpr Hcm Hr Hcl Hg He [Hb1 Hb2] Hrd].
  assert (Hstay : forall w, running w = true -> running (bd_worker b) = true -> to_send w = to_send (bd_worker b) -> faults_left w = faults_left (bd_worker b) ->
      Forall (fun c => (length c <= FRAME_BYTES)%nat) (pending_of w) -> body_inv (set_worker w b)).
  { intros w Hw Hrun Hs Hf Hpend. assert (Hon : on_course (bd_worker b) = true) by (by destruct (bd_worker b)).
    assert (Hnt : told (bd_worker b) = false) by (by destruct (bd_worker b)). assert (Htw : told w = false) by (by destruct w).
    split; cbn; rewrite ?Hs, ?Hf, ?Htw; try done.
    - intros _ Hn. by apply Hc.
    - intros Ht. destruct (Hcm Ht) as (_ & _ & _ & Hx & _). congruence.
    - intros Ht. specialize (Hcl Ht). congruence.
    - intros Ht. rewrite (He Ht) in Hon. done.
    - split; [done|]. apply Forall_app in Hb2 as [? _]. by apply Forall_app. }
  assert (Hsend : forall frame next, (forall w, bd_worker b = w -> to_send w = frame ++ to_send next /\ faults_left w = faults_left next /\ pending_of w = frame :: pending_of next) ->
      running (bd_worker b) = true -> running next = true -> send_frame frame next b = Some b' -> body_inv b').
  { intros frame next Hw Hrun Hnext Hsf. destruct (Hw _ eq_refl) as (Es & Ef & Ep). unfold send_frame in Hsf.
    destruct (negb (bd_rx b)); [injection Hsf as <-; by apply ended_inv|]. destruct (_ <? _)%nat eqn:Hlt; [|done]. injection Hsf as <-.
    apply Nat.ltb_lt in Hlt. assert (Hon : on_course (bd_worker b) = true) by (by destruct (bd_worker b)).
    assert (Hnt : told (bd_worker b) = false) by (by destruct (bd_worker b)). assert (Htw : told next = false) by (by destruct next).
    assert (Hnf : is_failed (bd_terminal b) = false) by (destruct (is_failed (bd_terminal b)) eqn:Hx; [rewrite (He eq_refl) in Hon|]; done).
    destruct (Hc Hon Hnf) as [Hall Hfl]. rewrite Es in Hall. split; cbn; try done.
    - intros _ _. rewrite concat_app. cbn. rewrite app_nil_r, <- !app_assoc. by rewrite <- Ef.
    - intros _. exists (to_send next). rewrite concat_app. cbn. by rewrite app_nil_r, <- !app_assoc.
    - intros Ht. destruct (Hcm Ht) as (_ & _ & _ & Hx & _). congruence.
    - intros _ Ht. congruence.
    - intros Ht. specialize (Hcl Ht). congruence.
    - intros Ht. congruence.
    - intros Ht. congruence.
    - split; [rewrite length_app; cbn; lia|]. rewrite Ep in Hb2. by rewrite <- app_assoc.
    - destruct (bd_reader b) as [|[]| | | |]; try done. destruct Hrd as [Hx _]. destruct (Hcm Hx) as (_ & _ & _ & Hy & _). congruence. }
  destruct (bd_worker b) as [[|[bytes|] rest]|[|frame pending] rest|[|frame pending]|r|r|r|] eqn:Hw; try done.
  - injection Hp as <-. apply Hstay; try done.
    + cbn. destruct tail as [t|]; cbn; [by rewrite (proj1 (frames_spec t)), ?app_nil_r|done].
    + cbn. destruct tail as [t|]; [|done]. eapply Forall_impl; [apply frames_spec|]. cbn. lia.
  - injection Hp as <-. apply Hstay; try done.
    + cbn. rewrite (proj1 (frames_spec bytes)). unfold content. cbn. by rewrite <- app_assoc.
    + cbn. eapply Forall_impl; [apply frames_spec|]. cbn. lia.
  - injection Hp as <-. apply ended_inv; [done|by rewrite Hw].
  - injection Hp as <-. by apply Hstay.
  - eapply Hsend; [..|exact Hp]; try done. intros w <-. cbn. by rewrite <- app_assoc.
  - injection Hp as <-. assert (Hnf : is_failed (bd_terminal b) = false) by (destruct (is_failed (bd_terminal b)) eqn:Hx; [by specialize (He eq_refl)|done]).
    split; cbn; try done.
  - eapply Hsend; [..|exact Hp]; try done. by intros w <-.
  - destruct owned eqn:Ho; injection Hp as <-.
    + destruct r as [[]|f]; split; cbn; try done.
      * intros Ht. by destruct (Hcm Ht) as (_ & _ & _ & ? & _).
      * destruct (bd_reader b) as [|[]| | | |]; try done; [|destruct Hrd as [Hrd _]]; by destruct (Hcm Hrd) as (_ & _ & _ & ? & _).
    + apply publish_inv; [done|by rewrite Hw..|]. intros ->. split; [by rewrite Hw|congruence].
Qed.

Lemma worker_step_inv e b b' : body_inv b -> worker_step owned fits_lease tail e b = Some b' -> body_inv b'.
Proof.
  intros Hi Hs. assert (Hend : forall c f, (if c && running (bd_worker b) then Some (ended (Err f) b) else None) = Some b' -> body_inv b').
  { intros c f Hx. destruct (c && running (bd_worker b)) eqn:Hb; [|done]. injection Hx as <-. apply andb_true_iff in Hb as [_ Hb]. by apply ended_inv. }
  destruct e as [| | | | |committed ck|ck]; cbn in Hs.
  - by eapply poll_inv.
  - exact (Hend fits_lease FDeadline Hs).
  - exact (Hend fits_lease FShutdown Hs).
  - exact (Hend true FPanic Hs).
  - destruct (fits_lease && running (bd_worker b) && negb (bd_rx b)) eqn:Hb; [|done]. injection Hs as <-. bools. by apply ended_inv.
  - destruct (bd_worker b) as [| | | |r|r|] eqn:Hw; try done.
    + injection Hs as <-. set (b1 := set_committed committed (account (AFinalize ck) b)).
      assert (Hi1 : body_inv (set_worker (WSettling r) b1)).
      { destruct Hi as [Hc Hq Hp Hcm Hr Hcl Hg He Hb Hrd]. rewrite Hw in *. split; cbn; try done. intros Ht. by destruct (Hcm Ht) as (_ & _ & _ & ? & _). }
      change (body_inv (publish (if negb committed && is_ok r then Err FAccounting else r) (set_worker (WSettling r) b1))).
      apply publish_inv; [done|done|done|]. intros Hr. cbn. destruct r as [[]|f]; [|by destruct committed]. by destruct committed.
    + destruct owned; [done|]. injection Hs as <-. destruct Hi as [Hc Hq Hp Hcm Hr Hcl Hg He Hb Hrd]. rewrite Hw in *. by split.
  - injection Hs as <-. destruct Hi as [Hc Hq Hp Hcm Hr Hcl Hg He [Hb1 Hb2] Hrd]. split; cbn; try done.
    + intros Ht. destruct (Hcm Ht) as (? & ? & ? & ? & ?). done.
    + split; [done|]. rewrite app_nil_r. by apply Forall_app in Hb2 as [? _].
    + by destruct (bd_reader b) as [|[]| | | |].
Qed.
Lemma reader_step_inv e b b' : body_inv b -> reader_step e b = Some b' -> body_inv b'.
Proof.
  intros [Hc Hq Hp Hcm Hr Hcl Hg He [Hb1 Hb2] Hrd] Hs. unfold reader_step in Hs.
  assert (Hrecv : forall status, (status = TComplete -> bd_terminal b = TComplete) ->
      match bd_queue b with
      | frame :: rest => Some (if is_failed (bd_terminal b) then set_reader RCheck (set_queue rest b) else deliver frame (set_reader RCheck (set_queue rest b)))
      | [] => if bd_tx b then None else if is_failed (bd_terminal b) then Some (set_reader RCheck b)
              else if bool_decide (status = TComplete) then Some (set_reader RClean b) else Some (set_reader RWait b)
      end = Some b' -> body_inv b').
  { intros status Hst Hx. destruct (bd_queue b) as [|frame rest] eqn:Hqu.
    - destruct (bd_tx b) eqn:Htx; [done|]. destruct (is_failed (bd_terminal b)) eqn:Hf.
      + injection Hx as <-. split; cbn; rewrite ?Hqu, ?Htx, ?Hf; try done.
      + case_bool_decide as Hcp; injection Hx as <-; split; cbn; rewrite ?Hqu, ?Htx, ?Hf; try done. split; [by apply Hst|done].
    - injection Hx as <-. destruct (is_failed (bd_terminal b)) eqn:Hf.
      + split; cbn; rewrite ?Hf; try done.
        * intros Ht. by rewrite Ht in Hf.
        * cbn in Hb1. split; [lia|]. by inversion Hb2.
      + split; cbn; rewrite ?Hf; try done.
        * intros Hon _. destruct (Hc Hon eq_refl) as [<- ?]. cbn. by rewrite <- !app_assoc.
        * intros _. destruct (Hq eq_refl) as [more <-]. exists more. cbn. by rewrite <- !app_assoc.
        * destruct (Hq eq_refl) as [more <-]. exists (concat rest ++ more). cbn. by rewrite <- !app_assoc.
        * intros Ht. destruct (Hcm Ht) as (<- & ? & ? & ? & ?). split_and!; try done. cbn. by rewrite <- !app_assoc.
        * cbn in Hb1. split; [lia|]. by inversion Hb2. }
  assert (Hwake : (if negb (bool_decide (bd_terminal b = TRunning)) then Some (set_reader RCheck b)
                   else if negb (bd_owner b) then Some (set_reader (RError "stream owner disappeared") b) else None) = Some b' -> body_inv b').
  { intros Hx. destruct (negb (bool_decide _)); [|destruct (negb (bd_owner b)); [|done]]; injection Hx as <-; by split. }
  destruct (bd_reader b) as [|[| |f]| | | |] eqn:Hre; destruct e; try done; try (by apply Hwake); try (injection Hs as <-; by split).
  - destruct (bd_terminal b) as [| |f] eqn:Ht; injection Hs as <-; split; cbn; rewrite ?Ht; done.
  - by apply (Hrecv TRunning).
  - by apply (Hrecv TComplete).
Qed.
Lemma body_reach_inv b : rtc (body_step owned fits_lease tail) (body_new items) b -> body_inv b.
Proof.
  assert (Hgen : forall x y, rtc (body_step owned fits_lease tail) x y -> body_inv x -> body_inv y).
  { induction 1 as [|x y z Hxy _ IH]; [done|]. intros Hx. apply IH. destruct Hxy; [by eapply worker_step_inv|by eapply reader_step_inv]. }
  intros Hr. eapply Hgen; [exact Hr|apply body_new_inv].
Qed.

(** The reader has nothing more to say. *)
Definition reader_over (r : Reader) : bool := match r with RClean | RError _ | RDropped => true | _ => false end.

(** C34: A clean end tells the truth.  However the worker and the reader
    interleave and wherever a deadline, a shutdown, a panic, a disconnect or
    the loss of the task falls: what the client got is a prefix of the
    source's bytes and the tail, in order; the queue never holds more than
    four frames of 16 KiB; and if the body ended cleanly, the client got all
    of it, the source reported no fault, and an accounting that the registry
    owns was committed. *)
Theorem clean_end_is_complete b : rtc (body_step owned fits_lease tail) (body_new items) b ->
  (exists rest, bd_delivered b ++ rest = everything)
  /\ (length (bd_queue b) <= 4)%nat /\ Forall (fun c => (length c <= 16384)%nat) (bd_queue b)
  /\ (bd_reader b = RClean -> bd_delivered b = everything /\ existsb is_fault items = false /\ (owned = true -> bd_committed b = Some true)).
Proof.
  intros Hr%body_reach_inv. destruct Hr as [_ _ Hp Hcm _ _ _ _ [Hb1 Hb2] Hrd]. split; [done|]. split; [done|]. split; [by apply Forall_app in Hb2 as [? _]|].
  intros Hre. rewrite Hre in Hrd. destruct Hrd as [Ht Hq]. destruct (Hcm Ht) as (Hall & Hf & _ & _ & Hco). rewrite Hq, app_nil_r in Hall. done.
Qed.

(** Once a failure is told, nothing that was queued reaches the client any
    more, and the body does not end cleanly. *)
Lemma failed_step x y : body_step owned fits_lease tail x y -> body_inv x -> is_failed (bd_terminal x) = true ->
  is_failed (bd_terminal y) = true /\ bd_delivered y = bd_delivered x.
Proof.
  intros [e x1 y1 Hs|e x1 y1 Hs] Hi Hx; pose proof (bi_early _ Hi Hx) as Hoff.
  - destruct e; cbn in Hs; unfold poll_worker, send_frame in Hs; destruct (bd_worker x1) as [[|[]]|[]|[]|[[]|]|[[]|]|[[]|]|];
      cbn in Hoff, Hs; try done; repeat case_match; simplify_eq/=; done.
  - unfold reader_step in Hs. destruct (bd_reader x1) as [|[| |]| | | |], e, (bd_queue x1); try done; cbn in Hs; rewrite ?Hx in Hs;
      repeat case_match; simplify_eq/=; split; first [done | by match goal with Ht : bd_terminal _ = _ |- _ => rewrite Ht end].
Qed.
Theorem failure_is_not_hidden b b' : rtc (body_step owned fits_lease tail) (body_new items) b -> is_failed (bd_terminal b) = true ->
  rtc (body_step owned fits_lease tail) b b' -> bd_delivered b' = bd_delivered b /\ bd_reader b' <> RClean.
Proof.
  intros Hr0 Hf Hr. induction Hr as [x|x y z Hxy _ IH].
  - split; [done|]. intros Hre. pose proof (bi_reader _ (body_reach_inv _ Hr0)) as Hrd. rewrite Hre in Hrd. destruct Hrd as [Ht _]. by rewrite Ht in Hf.
  - destruct (failed_step x y Hxy (body_reach_inv _ Hr0) Hf) as [Hy Hd]. rewrite <- Hd. apply IH; [|done]. eapply rtc_r; [exact Hr0|exact Hxy].
Qed.

(** A reader that stopped has closed the queue, or the worker is through. *)
Definition over_inv (b : Body) : Prop :=
  (bd_owner b = false -> told (bd_worker b) = true)
  /\ match bd_reader b with RError _ | RDropped => bd_rx b = false \/ told (bd_worker b) = true | _ => True end.
Lemma step_over x y : body_step owned fits_lease tail x y -> over_inv x -> over_inv y.
Proof.
  intros [e x1 y1 Hs|e x1 y1 Hs] [Ho Hov].
  - assert (Hkeep : bd_reader y1 = bd_reader x1 /\ bd_rx y1 = bd_rx x1 /\ (told (bd_worker x1) = true -> told (bd_worker y1) = true)
                    /\ (bd_owner y1 = bd_owner x1 \/ told (bd_worker y1) = true)).
    { destruct e; cbn in Hs; unfold poll_worker, send_frame in Hs; destruct (bd_worker x1) as [[|[]]|[]|[]|[[]|]|[[]|]|[[]|]|];
        cbn in Hs; rewrite ?andb_false_r in Hs; try done; repeat case_match; simplify_eq/=; split_and!; auto. }
    destruct Hkeep as (E1 & E2 & Ht & Hw). split; [destruct Hw as [->|?]; auto|]. rewrite E1, E2. destruct (bd_reader x1); naive_solver.
  - unfold reader_step in Hs. destruct (bd_reader x1) as [|[| |]| | | |], e; try done; repeat case_match; simplify_eq/=; split; cbn; auto.
    all: right; apply Ho; by destruct (bd_owner x1).
Qed.
Lemma reach_over b : rtc (body_step owned fits_lease tail) (body_new items) b -> over_inv b.
Proof.
  assert (Hgen : forall x y, rtc (body_step owned fits_lease tail) x y -> over_inv x -> over_inv y).
  { induction 1 as [|x y z Hxy _ IH]; [done|]. intros Hx. apply IH. by eapply step_over. }
  intros Hr. eapply Hgen; [exact Hr|]. by split.
Qed.

(** C35: Neither side waits for the other for ever: until the body is over and
    its end told, the worker can go on or waits for its settlement, or the
    reader can go on. *)
Theorem body_never_deadlocks b : rtc (body_step owned fits_lease tail) (body_new items) b ->
  reader_over (bd_reader b) && told (bd_worker b) = false ->
  is_Some (poll_worker owned fits_lease tail b) \/ (exists r, bd_worker b = WSettling r)
  \/ exists e, e <> RdDrop /\ is_Some (reader_step e b).
Proof.
  intros Hr Hover. destruct (reach_over _ Hr) as [Howner Hov]. destruct (body_reach_inv _ Hr) as [_ _ _ Hcm Hrun Hcl Hg _ _ Hrd].
  assert (Hworker : bd_rx b = false \/ bd_queue b = [] -> told (bd_worker b) = false ->
      is_Some (poll_worker owned fits_lease tail b) \/ exists r, bd_worker b = WSettling r).
  { intros Hx Hnt. unfold poll_worker. destruct (negb fits_lease && running (bd_worker b)); [left; by eexists|].
    assert (Hsend : forall f w, is_Some (send_frame f w b)).
    { intros f w. unfold send_frame. destruct Hx as [-> | ->]; [by eexists|]. destruct (negb _); by eexists. }
    destruct (bd_worker b) as [[|[]]|[] ?|[]|r|r|r|]; try done; try (left; by eexists); try (left; by apply Hsend);
      [left; destruct owned; by eexists|right; by eexists]. }
  destruct (bd_reader b) as [|status| |m|?|] eqn:Hre; cbn in Hover.
  - right. right. exists RdTop. split; [done|]. unfold reader_step. rewrite Hre. destruct (bd_terminal b); by eexists.
  - destruct (bd_queue b) as [|f rest] eqn:Hq.
    + destruct (bd_tx b) eqn:Htx.
      * destruct (told (bd_worker b)) eqn:Ht; [by specialize (Hg eq_refl)|]. destruct (Hworker (or_intror eq_refl) eq_refl); [by left|by right; left].
      * right. right. exists RdRecv. split; [done|]. unfold reader_step. rewrite Hre, Hq, Htx.
        destruct status; [..|done]; destruct (is_failed _); try (by eexists); case_bool_decide; by eexists.
    + right. right. exists RdRecv. split; [done|]. unfold reader_step. rewrite Hre, Hq. destruct status; [..|done]; by eexists.
  - right. right. exists RdChanged. split; [done|]. unfold reader_step. rewrite Hre. case_bool_decide as Ht; cbn; [|by eexists].
    rewrite (Hrun Ht (Hcl Hrd)). by eexists.
  - destruct Hrd as [Ht _]. destruct (Hcm Ht) as (_ & _ & _ & Htold & _). congruence.
  - destruct Hov as [Hov|Hov]; [|congruence]. destruct (Hworker (or_introl Hov) Hover); [by left|by right; left].
  - destruct Hov as [Hov|Hov]; [|congruence]. destruct (Hworker (or_introl Hov) Hover); [by left|by right; left].
Qed.
End Props.

(** ** Instances *)

(** A schedule of the two sides. *)
Inductive Side := OnWorker (e : WorkerEvent) | OnReader (e : ReaderEvent).
Definition side_step (owned fits_lease : bool) (tail : option (list Z)) (b : Body) (e : Side) : option Body :=
  match e with OnWorker e => worker_step owned fits_lease tail e b | OnReader e => reader_step e b end.
Fixpoint side_run owned fits_lease tail (b : Body) (es : list Side) : option Body :=
  match es with [] => Some b | e :: es => b ← side_step owned fits_lease tail b e; side_run owned fits_lease tail b es end.
Lemma side_run_steps owned fits_lease tail es : forall b b', side_run owned fits_lease tail b es = Some b' -> rtc (body_step owned fits_lease tail) b b'.
Proof.
  induction es as [|e es IH]; intros b b' Hr; [by injection Hr as ->|]. apply bind_Some in Hr as (b1 & H1 & Hr).
  eapply rtc_l; [|by apply IH]. destruct e; [by eapply BWorker|by eapply BReader].
Qed.

Definition sample_items : list Item := [IBytes [1; 2; 3]; IBytes [4]].
Definition sample_tail : option (list Z) := Some [9].
Definition sample_clocks : Clocks := MkClocks 0 0 0 0 "".
Definition polls (n : nat) : list Side := replicate n (OnWorker WkPoll).
Definition reads (n : nat) : list Side := concat (replicate n [OnReader RdTop; OnReader RdRecv]).
(** Everything is read; the settlement commits before the end is told. *)
Definition whole_run : list Side :=
  polls 3 ++ reads 1 ++ polls 7 ++ reads 2 ++ [OnWorker (WkSettled true sample_clocks); OnReader RdTop; OnReader RdRecv].
Definition whole_body : Body := Eval vm_compute in default (body_new []) (side_run true true sample_tail (body_new sample_items) whole_run).
(** The deadline passes with a frame in the queue. *)
Definition late_run : list Side := polls 3 ++ reads 1 ++ polls 3 ++ [OnWorker WkDeadline; OnWorker WkPoll].
Definition late_body : Body := Eval vm_compute in default (body_new []) (side_run true true sample_tail (body_new sample_items) late_run).
Definition later_body : Body := Eval vm_compute in default (body_new []) (side_run true true sample_tail late_body [OnReader RdTop]).

Lemma clean_end_is_complete_witness : bd_reader whole_body = RClean /\ bd_delivered whole_body = [1; 2; 3; 4; 9] /\ bd_committed whole_body = Some true.
Proof.
  split; [reflexivity|].
  destruct (clean_end_is_complete true true sample_tail sample_items whole_body) as (_ & _ & _ & Hc).
  - apply (side_run_steps _ _ _ whole_run). vm_compute. reflexivity.
  - destruct (Hc eq_refl) as (Hd & _ & Hco). split; [exact Hd|exact (Hco eq_refl)].
Defined.
Lemma failure_is_not_hidden_witness : bd_queue late_body = [[4]] /\ bd_delivered later_body = [1; 2; 3] /\ bd_reader later_body <> RClean.
Proof.
  split; [reflexivity|]. apply (failure_is_not_hidden true true sample_tail sample_items late_body later_body).
  - apply (side_run_steps _ _ _ late_run). vm_compute. reflexivity.
  - reflexivity.
  - apply (side_run_steps _ _ _ [OnReader RdTop]). vm_compute. reflexivity.
Defined.
Lemma body_never_deadlocks_witness : is_Some (poll_worker true true sample_tail late_body) \/ (exists r, bd_worker late_body = WSettling r)
  \/ exists e, e <> RdDrop /\ is_Some (reader_step e late_body).
Proof.
  apply (body_never_deadlocks true true sample_tail sample_items late_body).
  - apply (side_run_steps _ _ _ late_run). vm_compute. reflexivity.
  - reflexivity.
Defined.
