(* ===== verification/QualifiedStream.v ===== *)
(** [crates/sandhi-providers/src/raw/qualified_stream.rs] and
    [crates/sandhi-proxy/src/streaming/qualified.rs]: the stream of a tracked
    request.  The wrapper forwards the upstream's bytes, lets the observer of
    [StreamUsage] read them, publishes what it saw on a watch channel and
    ends the attempt; the proxy's generator feeds the body of [StreamBody]
    from it; and [capture_terminal] makes the terminal usage of what was
    published when the source is gone.  A poll that is pending changes
    nothing, so a step is a poll that answers. *)

From S2P Require Import Prelude Ledger SqlLedger ProxyLedger Text Usage Json UsageParse LineSplit StreamUsage Attempt.
From S2P Require Import TokenEstimate Accounting StreamBody.

#[export] Instance StreamObservationError_eq_dec : EqDecision StreamObservationError.
Proof. solve_decision. Defined.
#[export] Instance AttemptOutcome_eq_dec : EqDecision AttemptOutcome.
Proof. solve_decision. Defined.

(** ** The wrapper *)

Record Snapshot := MkSnapshot {
  sn_usage : option ParsedUsage; sn_protocol_done : bool; sn_error : option StreamObservationError;
  sn_outcome : option AttemptOutcome }.
Definition Snapshot_default : Snapshot := MkSnapshot None false None None.

(** [qs_snapshot] is what the watch channel holds, [qs_channel] what the
    guard shares. *)
Record QualifiedStream := MkQualified {
  qs_inner : list (result ProviderError (list Z)); qs_observer : Observer; qs_snapshot : Snapshot;
  qs_guard : option AttemptGuard; qs_outcome : option AttemptOutcome; qs_channel : SharedAttemptContext }.

Definition qs_observe (inner : list (result ProviderError (list Z))) (guard : option AttemptGuard) (s : SharedAttemptContext)
    : QualifiedStream := MkQualified inner observer_new Snapshot_default guard None s.

Definition qs_publish (q : QualifiedStream) : QualifiedStream :=
  let s := ob_state (qs_observer q) in
  MkQualified (qs_inner q) (qs_observer q) (MkSnapshot (ob_usage_seen s) (ob_done s) (ob_error s) (qs_outcome q))
    (qs_guard q) (qs_outcome q) (qs_channel q).
(** Published first; then the guard is taken and ended, and its own drop
    finds it ended; then the upstream is released. *)
Definition qs_finish (at_ms : Z) (outcome : AttemptOutcome) (q : QualifiedStream) : QualifiedStream :=
  match qs_outcome q with
  | Some _ => q
  | None =>
      let q := qs_publish (MkQualified (qs_inner q) (qs_observer q) (qs_snapshot q) (qs_guard q) (Some outcome) (qs_channel q)) in
      let channel :=
        match qs_guard q with
        | Some g => (finish_qualified_stream at_ms outcome (ob_usage_seen (ob_state (qs_observer q))) (g, qs_channel q)).2
        | None => qs_channel q
        end in
      MkQualified [] (qs_observer q) (qs_snapshot q) None (qs_outcome q) channel
  end.
Definition transport_outcome (e : ProviderError) : AttemptOutcome :=
  match e with TimeoutError _ => TimeoutOutcome | _ => TransportErrorOutcome end.
(** [Drop for QualifiedStream]. *)
Definition qs_drop (at_ms : Z) (sc : Scopes) (q : QualifiedStream) : QualifiedStream :=
  qs_finish at_ms (match qs_guard q with None => Cancelled | Some g => cancellation_outcome g sc end) q.

Section Qualified.
Context {J : Type} `{JsonValue J}.
Variable from_slice : list Z -> option J.

Definition qs_observed (o : Observer) (inner : list (result ProviderError (list Z))) (q : QualifiedStream) : QualifiedStream :=
  MkQualified inner o (qs_snapshot q) (qs_guard q) (qs_outcome q) (qs_channel q).
Definition poll_next (at_ms : Z) (q : QualifiedStream) : option (result ProviderError (list Z)) * QualifiedStream :=
  match qs_outcome q with
  | Some _ => (None, q)
  | None =>
      match qs_inner q with
      | Ok bytes :: rest => (Some (Ok bytes), qs_publish (qs_observed (ob_push from_slice (qs_observer q) bytes).2 rest q))
      | Err error :: rest => (Some (Err error), qs_finish at_ms (transport_outcome error) (qs_observed (qs_observer q) rest q))
      | [] =>
          let '(r, o) := ob_finish (qs_observer q) in
          (None, qs_finish at_ms (if is_ok r then Success else IncompleteStream) (qs_observed o [] q))
      end
  end.

(** ** The generator of the body *)

Record Forward := MkForward {
  fw_stream : QualifiedStream; fw_ttft : option Z; fw_over : bool; fw_accounting : RequestAccounting }.
Definition forward_new (q : QualifiedStream) (a : RequestAccounting) : Forward := MkForward q None false a.

(** One item of the generator; [elapsed] is read when bytes arrive. *)
Definition forward_poll (at_ms elapsed : Z) (f : Forward) : option Item * Forward :=
  if fw_over f then (None, f)
  else
    match poll_next at_ms (fw_stream f) with
    | (Some (Ok b), q) =>
        let ttft := match b with [] => fw_ttft f | _ => Some (default elapsed (fw_ttft f)) end in
        (Some (IBytes b), MkForward q ttft false (fw_accounting f))
    | (Some (Err _), q) => (Some IFault, MkForward q (fw_ttft f) true (fw_accounting f))
    | (None, q) =>
        let s := qs_snapshot q in
        if bool_decide (sn_outcome s = Some Success) && bool_decide (sn_error s = None)
        then (None, MkForward q (fw_ttft f) true (set_outcome "success" (fw_accounting f)))
        else (Some IFault, MkForward q (fw_ttft f) true (fw_accounting f))
    end.
Fixpoint forward_run (polls : list (Z * Z)) (f : Forward) : list Item * Forward :=
  match polls with
  | [] => ([], f)
  | (at_ms, elapsed) :: polls =>
      match forward_poll at_ms elapsed f with
      | (Some i, f) => let '(out, f) := forward_run polls f in (i :: out, f)
      | (None, f) => ([], f)
      end
  end.

(** ** The terminal usage *)

Definition quote : string := String (ascii_of_nat 34) EmptyString.
(** The derived [Debug] of the errors. *)
Definition debug_usage_error (e : BufferedUsageError) : string :=
  match e with
  | InvalidResponse => "InvalidResponse"
  | MissingUsage => "MissingUsage"
  | InvalidField path => "InvalidField(" +:+ quote +:+ path +:+ quote +:+ ")"
  | InconsistentUsage => "InconsistentUsage"
  end.
Definition debug_stream_error (e : StreamUsageError) : string :=
  match e with
  | InvalidChunk => "InvalidChunk"
  | NonFinalUsage => "NonFinalUsage"
  | InvalidUsage e => "InvalidUsage(" +:+ debug_usage_error e +:+ ")"
  end.
Definition debug_error (e : StreamObservationError) : string :=
  match e with
  | LineTooLong => "LineTooLong" | EventTooLong => "EventTooLong" | InvalidUtf8 => "InvalidUtf8" | InvalidJson => "InvalidJson"
  | UnexpectedEventType => "UnexpectedEventType" | UnexpectedBom => "UnexpectedBom"
  | InvalidStreamUsage e => "InvalidUsage(" +:+ debug_stream_error e +:+ ")"
  | ConflictingUsage => "ConflictingUsage" | TruncatedEvent => "TruncatedEvent" | MissingTerminator => "MissingTerminator"
  | DataAfterTerminator => "DataAfterTerminator" | ObserverClosed => "Closed"
  end.

Definition set_upstream_request_id (id : option string) (u : UsageV2) : UsageV2 :=
  MkUsage (u_tokens_in u) (u_tokens_out u) (u_cache_creation u) (u_cache_read u) (u_cache_obs u)
    (u_audio_in u) (u_audio_out u) (u_reasoning u) (u_reasoning_included u) (u_accepted_prediction u)
    (u_rejected_prediction u) (u_completeness u) (u_basis u) (u_attempts u) (u_outcome u) id
    (u_duration_ms u) (u_duration_source u) (u_ttft_ms u) (u_ttft_source u).

(** [capture_terminal], [elapsed] after the response started. *)
Definition capture_terminal (elapsed : Z) (ttft : option Z) (upstream_request_id : option string) (s : Snapshot)
    (a : RequestAccounting) : RequestAccounting :=
  let u := match sn_usage s with Some p => parsed_usage p | None => UsageV2_default end in
  let u := reconcile_boundary_ttft ttft (reconcile_boundary_duration elapsed (set_upstream_request_id upstream_request_id u)) in
  match sn_error s, sn_usage s with
  | Some e, seen =>
      let u := match seen with Some _ => set_u_completeness Partial u | None => u end in
      let u := set_u_outcome (Some ("stream_qualification:" +:+ debug_error e +:+ ";delivery:" +:+ ac_outcome a)) u in
      Accounting.observe u (set_outcome "error" a)
  | None, None =>
      let u := set_u_outcome (Some ("stream_usage_unavailable;delivery:" +:+ ac_outcome a)) u in
      Accounting.observe u (set_outcome "error" a)
  | None, Some _ =>
      let a := if bool_decide (ac_outcome a = "error") && bool_decide (sn_outcome s = Some TimeoutOutcome)
               then set_outcome "timeout" a else a in
      Accounting.observe (set_u_outcome (Some (ac_outcome a)) u) a
  end.

(** What the body does when its source is gone: it drops the stream, notes
    its failure, and the finalizer captures the terminal usage. *)
Definition body_ended (at_ms : Z) (sc : Scopes) (r : result StreamBody.Failure unit) (elapsed : Z) (upstream_request_id : option string)
    (f : Forward) : RequestAccounting * QualifiedStream :=
  let q := qs_drop at_ms sc (fw_stream f) in
  let a := match r with Ok _ => fw_accounting f | Err e => acc_update (AFailed (StreamBody.outcome e)) (fw_accounting f) end in
  (capture_terminal elapsed (fw_ttft f) upstream_request_id (qs_snapshot q) a, q).
End Qualified.
