(* ===== verification/QualifiedProps.v ===== *)
(** What the stream of a tracked request promises ([QualifiedStream]): its
    bytes are forwarded as they came, its attempt ends once, and its terminal
    usage is what the forwarded bytes say, however they were cut, wherever
    the stream was left and whatever became of its delivery. *)

From S2P Require Import Prelude Ledger SqlLedger ProxyLedger Text Usage Json UsageParse LineSplit StreamUsage Attempt.
From S2P Require Import Evidence TokenEstimate Accounting StreamBody StreamBodyProps QualifiedStream.

Section Props.
Context {J : Type} `{JsonValue J}.
Variable from_slice : list Z -> option J.
#[local] Abbreviation observe_ := (StreamUsage.observe from_slice).

(** ** What a poll leaves behind *)

Definition ended_observer (ended : bool) (chunks : list (list Z)) : Observer :=
  let o := observe_ observer_new chunks in if ended then (ob_finish o).2 else o.
Definition snapshot_of (o : Observer) (outcome : option AttemptOutcome) : Snapshot :=
  let s := ob_state o in MkSnapshot (ob_usage_seen s) (ob_done s) (ob_error s) outcome.

Section Stream.
Context (items : list (result ProviderError (list Z))) (guard : option AttemptGuard) (s0 : SharedAttemptContext) (a0 : RequestAccounting).

(** The wrapper after forwarding [chunks]. *)
Definition reading (chunks : list (list Z)) (q : QualifiedStream) : Prop :=
  items = (Ok <$> chunks) ++ qs_inner q /\ qs_observer q = observe_ observer_new chunks
  /\ qs_snapshot q = snapshot_of (qs_observer q) None /\ qs_outcome q = None /\ qs_guard q = guard /\ qs_channel q = s0.
(** The wrapper after its end. *)
Definition finished (chunks : list (list Z)) (ended : bool) (outcome : AttemptOutcome) (q : QualifiedStream) : Prop :=
  (Ok <$> chunks) `prefix_of` items /\ (ended = true -> items = Ok <$> chunks)
  /\ (outcome = Success <-> ended = true /\ (ob_finish (observe_ observer_new chunks)).1 = Ok tt)
  /\ qs_snapshot q = snapshot_of (ended_observer ended chunks) (Some outcome) /\ qs_outcome q = Some outcome
  /\ exists at_ms, qs_channel q = match guard with
       | Some g => (finish_qualified_stream at_ms outcome (sn_usage (qs_snapshot q)) (g, s0)).2
       | None => s0
       end.

Lemma qs_observe_reading : reading [] (qs_observe items guard s0).
Proof. by repeat split. Qed.
Lemma finish_finished chunks ended outcome at_ms q o rest : reading chunks q -> o = ended_observer ended chunks ->
  (ended = true -> items = Ok <$> chunks) ->
  (outcome = Success <-> ended = true /\ (ob_finish (observe_ observer_new chunks)).1 = Ok tt) ->
  finished chunks ended outcome (qs_finish at_ms outcome (qs_observed o rest q)).
Proof.
  intros (Hi & Ho & Hs & Hout & Hg & Hc) -> He Hiff. unfold qs_finish, qs_observed. cbn [qs_outcome]. rewrite Hout.
  split; [eexists; exact Hi|]. split; [done|]. split; [done|]. split; [done|]. split; [done|].
  exists at_ms. cbn. rewrite Hg, Hc. by destruct guard.
Qed.

(** One poll. *)
Lemma poll_reading at_ms chunks q : reading chunks q ->
  match poll_next from_slice at_ms q with
  | (Some (Ok b), q') => reading (chunks ++ [b]) q'
  | (Some (Err _), q') => exists outcome, outcome <> Success /\ finished chunks false outcome q'
  | (None, q') => exists outcome, finished chunks true outcome q'
  end.
Proof.
  intros Hr. pose proof Hr as (Hi & Ho & Hs & Hout & Hg & Hc). unfold poll_next. rewrite Hout.
  destruct (qs_inner q) as [|[b|e] rest] eqn:Ei.
  - rewrite app_nil_r in Hi. rewrite Ho. destruct (ob_finish (observe_ observer_new chunks)) as [r o] eqn:Ef.
    exists (if is_ok r then Success else IncompleteStream). apply finish_finished; [done|unfold ended_observer; by rewrite Ef|done|].
    rewrite Ef. cbn. destruct r as [[]|e]; cbn; intuition congruence.
  - unfold reading, qs_publish, qs_observed. cbn. split; [by rewrite Hi, fmap_app, <- app_assoc|].
    rewrite Ho. unfold StreamUsage.observe. rewrite foldl_app, Hout. by repeat split.
  - exists (transport_outcome e). split; [by destruct e|]. apply finish_finished; [done|done|done|].
    split; [by destruct e|]. by intros [? _].
Qed.
Lemma drop_reading at_ms sc chunks q : reading chunks q -> exists outcome, outcome <> Success /\ finished chunks false outcome (qs_drop at_ms sc q).
Proof.
  intros Hr. pose proof Hr as (Hi & Ho & Hs & Hout & Hg & Hc). unfold qs_drop.
  set (oc := match qs_guard q with None => Cancelled | Some g => cancellation_outcome g sc end).
  assert (Hoc : oc <> Success) by (unfold oc, cancellation_outcome; destruct (qs_guard q); [by destruct (timed_out _ _)|done]).
  exists oc. split; [done|]. replace q with (qs_observed (qs_observer q) (qs_inner q) q) by (by destruct q).
  apply finish_finished; [done|done|done|]. split; [done|]. by intros [? _].
Qed.
Lemma qualified_drop_finished at_ms sc chunks ended outcome q : finished chunks ended outcome q -> qs_drop at_ms sc q = q.
Proof. intros (_ & _ & _ & _ & Ho & _). unfold qs_drop, qs_finish. by rewrite Ho. Qed.

(** ** What the generator leaves behind *)

Definition forwarding (chunks : list (list Z)) (f : Forward) : Prop :=
  (fw_over f = false /\ reading chunks (fw_stream f) /\ fw_accounting f = a0)
  \/ (fw_over f = true /\ exists ended outcome, finished chunks ended outcome (fw_stream f)
      /\ fw_accounting f = if bool_decide (outcome = Success) then set_outcome "success" a0 else a0).
Definition chunks_in (out : list Item) : list (list Z) := omap (fun i => match i with IBytes b => Some b | IFault => None end) out.
Lemma content_chunks out : content out = concat (chunks_in out).
Proof. unfold content. induction out as [|[b|] out IH]; cbn; [done| |]; by rewrite IH. Qed.

(** A stream that ended well has no error. *)
Lemma finish_error o : ob_error (ob_state (ob_finish o).2) = match (ob_finish o).1 with Err e => Some e | Ok _ => None end.
Proof.
  unfold ob_finish. cbn [ob_state ob_error]. destruct (ob_error (ob_state o)) as [e|] eqn:Ee; [cbn; by rewrite ?Ee|].
  destruct (_ || _); [done|]. cbn [ob_done]. destruct (ob_done (ob_state o)); [by cbn; rewrite ?Ee|done].
Qed.
Lemma finish_usage o : ob_usage_seen (ob_state (ob_finish o).2) = ob_usage_seen (ob_state o).
Proof. unfold ob_finish. cbn. destruct (ob_error (ob_state o)); [done|]. destruct (_ || _); [done|]. by destruct (ob_done (ob_state o)). Qed.

Lemma forward_run_ok polls : forall chunks f, forwarding chunks f ->
  let '(out, f') := forward_run from_slice polls f in forwarding (chunks ++ chunks_in out) f'.
Proof.
  induction polls as [|[at_ms elapsed] polls IH]; intros chunks f Hf; cbn [forward_run]; [by rewrite app_nil_r|].
  unfold forward_poll. destruct Hf as [(Ho & Hr & Ha)|(Ho & Hf)]; rewrite Ho; [|rewrite app_nil_r; by right].
  pose proof (poll_reading at_ms _ _ Hr) as Hp. destruct (poll_next from_slice at_ms (fw_stream f)) as [[[b|e]|] q].
  - pose proof (IH (chunks ++ [b]) (MkForward q (match b with [] => fw_ttft f | _ => Some (default elapsed (fw_ttft f)) end) false (fw_accounting f))) as Hn.
    destruct (forward_run _ _ _) as [out f']. cbn. rewrite <- app_assoc in Hn. apply Hn. left. split; [done|]. by split.
  - destruct Hp as (oc & Hoc & Hp).
    pose proof (IH chunks (MkForward q (fw_ttft f) true (fw_accounting f))) as Hn. destruct (forward_run _ _ _) as [out f'].
    cbn. apply Hn. right. split; [done|]. exists false, oc. split; [done|]. by rewrite bool_decide_eq_false_2.
  - destruct Hp as (oc & Hp). pose proof Hp as (_ & _ & Hiff & Hs & _). cbv zeta. rewrite Hs. cbn [snapshot_of sn_outcome sn_error].
    destruct (decide (oc = Success)) as [->|Hn].
    + destruct (proj1 Hiff eq_refl) as [_ Hok]. unfold ended_observer. rewrite finish_error, Hok. rewrite !bool_decide_eq_true_2 by done. cbn [andb]. change (chunks_in []) with (@nil (list Z)). rewrite app_nil_r.
      right. split; [done|]. exists true, Success. split; [done|]. cbn. by rewrite Ha.
    + rewrite (bool_decide_eq_false_2 (Some oc = Some Success)) by congruence. cbn [andb].
      pose proof (IH chunks (MkForward q (fw_ttft f) true (fw_accounting f))) as Hx. destruct (forward_run _ _ _) as [out f'].
      cbn. apply Hx. right. split; [done|]. exists true, oc. split; [done|]. by rewrite bool_decide_eq_false_2.
Qed.

(** However the source was left. *)
Lemma body_ended_ok at_ms sc r elapsed rid chunks f : forwarding chunks f ->
  let '(a, q) := body_ended at_ms sc r elapsed rid f in
  exists ended outcome, finished chunks ended outcome q
    /\ a = capture_terminal elapsed (fw_ttft f) rid (snapshot_of (ended_observer ended chunks) (Some outcome))
             (match r with
              | Ok _ => if bool_decide (outcome = Success) then set_outcome "success" a0 else a0
              | Err e => acc_update (AFailed (StreamBody.outcome e)) (if bool_decide (outcome = Success) then set_outcome "success" a0 else a0)
              end).
Proof.
  intros [(_ & Hr & Ha)|(_ & ended & oc & Hf & Ha)]; unfold body_ended.
  - destruct (drop_reading at_ms sc _ _ Hr) as (oc & Hoc & Hf). exists false, oc. split; [done|].
    rewrite Ha, bool_decide_eq_false_2 by done. destruct Hf as (_ & _ & _ & Hs & _). by rewrite Hs.
  - rewrite (qualified_drop_finished _ _ _ _ _ _ Hf). exists ended, oc. split; [done|]. rewrite Ha.
    destruct Hf as (_ & _ & _ & Hs & _). by rewrite Hs.
Qed.
End Stream.

(** ** What is charged *)

(** What a body says that is read in one piece: the usage its events
    qualified, and why it must not be trusted.  [ended]: the upstream had
    nothing more to send. *)
Definition measure (ended : bool) (body : list Z) : option ParsedUsage * option StreamObservationError :=
  let o := observe_ observer_new [body] in
  (ob_usage_seen (ob_state o), if ended then match (ob_finish o).1 with Err e => Some e | Ok _ => None end else ob_error (ob_state o)).
Lemma measure_whole ended chunks :
  measure ended (concat chunks) = (ob_usage_seen (ob_state (ended_observer ended chunks)), ob_error (ob_state (ended_observer ended chunks))).
Proof.
  destruct (observation_is_chunk_invariant from_slice MAX_STREAM_LINE_BYTES chunks) as (_ & Hv & Hf); [done|].
  fold observer_new in Hv, Hf. unfold measure, ended_observer. cbv zeta.
  change (ob_usage_seen (ob_state (observe_ observer_new [concat chunks]))) with (ob_usage_seen (by_state (ob_view (observe_ observer_new [concat chunks])))).
  change (ob_error (ob_state (observe_ observer_new [concat chunks]))) with (ob_error (by_state (ob_view (observe_ observer_new [concat chunks])))).
  rewrite Hv, Hf. destruct ended; [|done]. by rewrite finish_usage, finish_error.
Qed.

(** The same counts, with what the boundary knows. *)
Definition counts_of (u : UsageV2) : Z * Z * Z * Z * option Z * option bool :=
  (u_tokens_in u, u_tokens_out u, u_cache_creation u, u_cache_read u, u_reasoning u, u_reasoning_included u).
Lemma boundary_keeps elapsed ttft u :
  let v := reconcile_boundary_ttft ttft (reconcile_boundary_duration elapsed u) in
  counts_of v = counts_of u /\ u_completeness v = u_completeness u /\ u_basis v = u_basis u.
Proof.
  unfold reconcile_boundary_ttft, reconcile_boundary_duration. destruct (u_duration_ms u); cbn;
    (destruct (u_ttft_ms u); [done|]); by destruct ttft.
Qed.
Lemma capture_terminal_ok elapsed ttft rid o outcome a :
  let s := snapshot_of o outcome in
  let a' := capture_terminal elapsed ttft rid s a in
  exists u, ac_usage a' = Some u /\
  match sn_usage s, sn_error s with
  | Some p, None => counts_of u = counts_of (parsed_usage p) /\ u_completeness u = Final
      /\ (ac_outcome a' = "success"%string -> ac_outcome a = "success"%string)
  | Some p, Some _ => counts_of u = counts_of (parsed_usage p) /\ u_completeness u = Partial /\ ac_outcome a' = "error"%string
  | None, _ => counts_of u = counts_of UsageV2_default /\ u_completeness u = Unavailable /\ ac_outcome a' = "error"%string
  end /\ final_usage a' = u.
Proof.
  cbv zeta. unfold capture_terminal. set (s := snapshot_of o outcome).
  set (w := set_upstream_request_id rid (match sn_usage s with Some p => parsed_usage p | None => UsageV2_default end)).
  destruct (boundary_keeps elapsed ttft w) as (Hc & Hk & _). destruct (sn_error s), (sn_usage s) as [p|]; cbn in *;
    (eexists; split; [reflexivity|]; split; [|reflexivity]); repeat split; try done.
  all: case_bool_decide; cbn; [|done]. all: case_bool_decide; by cbn.
Qed.

End Props.

(** ** Instances *)

Definition sample_guard : AttemptGuard := MkGuard 0 "att" 0 (bytes "openai") None false None None.
Definition sample_shared : SharedAttemptContext := MkShared (bytes "ex") [1] [] 4 true 1 0.
Definition sample_accounting : RequestAccounting :=
  accounting_new "team" None "openai" "m" "req" (MkMetadata None None None None None None None None None None).
(** The client goes away after the usage: it is charged all the same. *)
Definition cut_polls : list (Z * Z) := replicate 5 (10, 7).
Definition cut_run : list Item * Forward := Eval vm_compute in
  forward_run demo_from_slice cut_polls (forward_new (qs_observe (Ok <$> demo_chunks) (Some sample_guard) sample_shared) sample_accounting).
Definition cut_end : RequestAccounting * QualifiedStream := Eval vm_compute in body_ended 20 [] (Err FDisconnected) 9 None cut_run.2.

