(* ===== verification/Sink.v ===== *)
(** [crates/sandhi-core/src/sink.rs] and [crates/sandhi-proxy/src/persistence.rs]:
    the bounded single-writer buffer in front of a sink, and the bounded
    sink in memory.  The buffer is shared by the callers that emit, the
    worker thread that calls the inner sink, and the callers of [close]; each
    step is one of their sections under the lock of the counters, or one
    operation on the channel.  The events of usage and the identities of fired
    alerts travel in the same kind of buffer, so it is generic here. *)

From stdpp Require Import relations.
From S2P Require Import Prelude Usage.

(** ** The buffer *)

Record BufferSnapshot := MkBuffer { bs_capacity : Z; bs_queued : Z; bs_in_flight : Z; bs_dropped : Z }.

Inductive Message (T : Type) := MEvent (e : T) | MFlush (ack : nat) | MShutdown.
Arguments MEvent {T} e.
Arguments MFlush {T} ack.
Arguments MShutdown {T}.

(** The worker waits on the channel; has received an event and not claimed
    it; is in the callback; or has ended, by panic or not. *)
Inductive Worker (T : Type) := WkReceiving | WkReceived (e : T) | WkCalling (e : T) | WkEnded (panicked : bool).
Arguments WkReceiving {T}.
Arguments WkReceived {T} e.
Arguments WkCalling {T} e.
Arguments WkEnded {T} panicked.

(** A caller of [close]. *)
Inductive Closer := ClStart | ClFlushing | ClWaiting | ClStopping | ClTaking | ClJoining | ClReturned (drained : bool).
#[export] Instance Closer_eq_dec : EqDecision Closer.
Proof. solve_decision. Defined.

(** [sk_worker_handle] is the handle that the first [close] joins.  The last
    fields are the history: what was emitted and accepted, refused, given to
    the callback, and abandoned. *)
Record BufferedSink (T : Type) := MkSink {
  sk_counts : BufferSnapshot; sk_channel : list (Message T); sk_receiver : bool; sk_closed : bool; sk_worker_handle : bool;
  sk_worker : Worker T; sk_closers : list Closer; sk_acks : list nat;
  sk_accepted : list T; sk_refused : list T; sk_called : list T; sk_abandoned : list T }.
Arguments MkSink {T}.
Arguments sk_counts {T}.
Arguments sk_channel {T}.
Arguments sk_receiver {T}.
Arguments sk_closed {T}.
Arguments sk_worker_handle {T}.
Arguments sk_worker {T}.
Arguments sk_closers {T}.
Arguments sk_acks {T}.
Arguments sk_accepted {T}.
Arguments sk_refused {T}.
Arguments sk_called {T}.
Arguments sk_abandoned {T}.

Definition note_dropped (n : Z) (c : BufferSnapshot) : BufferSnapshot :=
  MkBuffer (bs_capacity c) (bs_queued c) (bs_in_flight c) (wadd (bs_dropped c) n).
Definition note_queued (c : BufferSnapshot) : BufferSnapshot :=
  MkBuffer (bs_capacity c) (bs_queued c + 1) (bs_in_flight c) (bs_dropped c).
Definition note_claimed (c : BufferSnapshot) : BufferSnapshot :=
  MkBuffer (bs_capacity c) (bs_queued c - 1) (bs_in_flight c + 1) (bs_dropped c).
Definition note_returned (c : BufferSnapshot) : BufferSnapshot :=
  MkBuffer (bs_capacity c) (bs_queued c) (bs_in_flight c - 1) (bs_dropped c).
(** The queued items of a worker that panicked. *)
Definition note_panicked (c : BufferSnapshot) : BufferSnapshot :=
  MkBuffer (bs_capacity c) 0 (bs_in_flight c - 1) (wadd (bs_dropped c) (bs_queued c)).

Section Buffer.
Context {T : Type}.
Implicit Types (s : BufferedSink T) (e : T).

Definition set_counts (c : BufferSnapshot) s : BufferedSink T :=
  MkSink c (sk_channel s) (sk_receiver s) (sk_closed s) (sk_worker_handle s) (sk_worker s) (sk_closers s) (sk_acks s)
    (sk_accepted s) (sk_refused s) (sk_called s) (sk_abandoned s).
Definition set_channel (l : list (Message T)) s : BufferedSink T :=
  MkSink (sk_counts s) l (sk_receiver s) (sk_closed s) (sk_worker_handle s) (sk_worker s) (sk_closers s) (sk_acks s)
    (sk_accepted s) (sk_refused s) (sk_called s) (sk_abandoned s).
Definition set_worker (w : Worker T) s : BufferedSink T :=
  MkSink (sk_counts s) (sk_channel s) (sk_receiver s) (sk_closed s) (sk_worker_handle s) w (sk_closers s) (sk_acks s)
    (sk_accepted s) (sk_refused s) (sk_called s) (sk_abandoned s).
Definition set_closer (i : nat) (c : Closer) s : BufferedSink T :=
  MkSink (sk_counts s) (sk_channel s) (sk_receiver s) (sk_closed s) (sk_worker_handle s) (sk_worker s) (<[i := c]> (sk_closers s)) (sk_acks s)
    (sk_accepted s) (sk_refused s) (sk_called s) (sk_abandoned s).
Definition accept (e : T) s : BufferedSink T :=
  MkSink (sk_counts s) (sk_channel s) (sk_receiver s) (sk_closed s) (sk_worker_handle s) (sk_worker s) (sk_closers s) (sk_acks s)
    (sk_accepted s ++ [e]) (sk_refused s) (sk_called s) (sk_abandoned s).
Definition refuse (e : T) s : BufferedSink T :=
  MkSink (sk_counts s) (sk_channel s) (sk_receiver s) (sk_closed s) (sk_worker_handle s) (sk_worker s) (sk_closers s) (sk_acks s)
    (sk_accepted s) (sk_refused s ++ [e]) (sk_called s) (sk_abandoned s).
Definition note_call (e : T) s : BufferedSink T :=
  MkSink (sk_counts s) (sk_channel s) (sk_receiver s) (sk_closed s) (sk_worker_handle s) (sk_worker s) (sk_closers s) (sk_acks s)
    (sk_accepted s) (sk_refused s) (sk_called s ++ [e]) (sk_abandoned s).
Definition note_ack (a : nat) s : BufferedSink T :=
  MkSink (sk_counts s) (sk_channel s) (sk_receiver s) (sk_closed s) (sk_worker_handle s) (sk_worker s) (sk_closers s) (a :: sk_acks s)
    (sk_accepted s) (sk_refused s) (sk_called s) (sk_abandoned s).
Definition set_closed s : BufferedSink T :=
  MkSink (sk_counts s) (sk_channel s) (sk_receiver s) true (sk_worker_handle s) (sk_worker s) (sk_closers s) (sk_acks s)
    (sk_accepted s) (sk_refused s) (sk_called s) (sk_abandoned s).
Definition take_handle s : BufferedSink T :=
  MkSink (sk_counts s) (sk_channel s) (sk_receiver s) (sk_closed s) false (sk_worker s) (sk_closers s) (sk_acks s)
    (sk_accepted s) (sk_refused s) (sk_called s) (sk_abandoned s).
Definition events_of (l : list (Message T)) : list T := omap (fun m => match m with MEvent e => Some e | _ => None end) l.
(** The receiver is dropped with what was in the channel. *)
Definition drop_receiver s : BufferedSink T :=
  MkSink (sk_counts s) [] false (sk_closed s) (sk_worker_handle s) (sk_worker s) (sk_closers s) (sk_acks s)
    (sk_accepted s) (sk_refused s) (sk_called s) (sk_abandoned s ++ events_of (sk_channel s)).

Definition sink_new (capacity : Z) : BufferedSink T :=
  MkSink (MkBuffer (Z.max capacity 1) 0 0 0) [] true false true WkReceiving [] [] [] [] [] [].

(** [SyncSender::try_send] on a channel of the buffer's capacity. *)
Inductive Sent := SentOk | SentFull | SentDisconnected.
Definition try_send (m : Message T) s : Sent * BufferedSink T :=
  if negb (sk_receiver s) then (SentDisconnected, s)
  else if Z.of_nat (length (sk_channel s)) <? bs_capacity (sk_counts s) then (SentOk, set_channel (sk_channel s ++ [m]) s)
  else (SentFull, s).

(** [emit], under the lock. *)
Definition emit e s : BufferedSink T :=
  if sk_closed s || (bs_capacity (sk_counts s) <=? bs_queued (sk_counts s))
  then refuse e (set_counts (note_dropped 1 (sk_counts s)) s)
  else
    match try_send (MEvent e) s with
    | (SentOk, s) => accept e (set_counts (note_queued (sk_counts s)) s)
    | (_, s) => refuse e (set_counts (note_dropped 1 (sk_counts s)) s)
    end.

(** The worker's next section; [panics]: the callback does. *)
Definition worker_step (panics : bool) s : option (BufferedSink T) :=
  match sk_worker s, sk_channel s with
  | WkReceiving, MEvent e :: rest => Some (set_worker (WkReceived e) (set_channel rest s))
  | WkReceiving, MFlush a :: rest => Some (note_ack a (set_channel rest s))
  | WkReceiving, MShutdown :: rest => Some (set_worker (WkEnded false) (drop_receiver (set_channel rest s)))
  | WkReceived e, _ => Some (set_worker (WkCalling e) (note_call e (set_counts (note_claimed (sk_counts s)) s)))
  | WkCalling _, _ =>
      if panics
      then Some (set_worker (WkEnded true) (drop_receiver (set_counts (note_panicked (sk_counts s)) s)))
      else Some (set_worker WkReceiving (set_counts (note_returned (sk_counts s)) s))
  | _, _ => None
  end.

(** [send_control_until]: a full channel is tried again until the deadline. *)
Definition send_control (i : nat) (m : Message T) (sent : Closer) (late : bool) s : BufferedSink T :=
  match try_send m s with
  | (SentOk, s) => set_closer i sent s
  | (SentDisconnected, s) => set_closer i (ClReturned false) s
  | (SentFull, s) => if late then set_closer i (ClReturned false) s else s
  end.
(** The [i]th call of [close] goes on; [late]: its deadline has passed. *)
Definition close_step (i : nat) (late : bool) s : option (BufferedSink T) :=
  match sk_closers s !! i with
  | Some ClStart =>
      if sk_closed s then Some (set_closer i (ClReturned (negb (sk_worker_handle s))) s)
      else Some (set_closer i ClFlushing (set_closed s))
  | Some ClFlushing => Some (send_control i (MFlush i) ClWaiting late s)
  | Some ClWaiting =>
      if bool_decide (i ∈ sk_acks s) && negb late then Some (set_closer i ClStopping s)
      else if late || negb (sk_receiver s) then Some (set_closer i (ClReturned false) s)
      else None
  | Some ClStopping => Some (send_control i MShutdown ClTaking late s)
  | Some ClTaking =>
      if sk_worker_handle s then Some (set_closer i ClJoining (take_handle s)) else Some (set_closer i (ClReturned true) s)
  | Some ClJoining =>
      match sk_worker s with
      | WkEnded panicked => Some (set_closer i (ClReturned (negb panicked)) s)
      | _ => None
      end
  | _ => None
  end.

Definition call_close s : BufferedSink T :=
  MkSink (sk_counts s) (sk_channel s) (sk_receiver s) (sk_closed s) (sk_worker_handle s) (sk_worker s) (sk_closers s ++ [ClStart]) (sk_acks s)
    (sk_accepted s) (sk_refused s) (sk_called s) (sk_abandoned s).
Inductive sink_step : BufferedSink T -> BufferedSink T -> Prop :=
| SEmit e s : sink_step s (emit e s)
| SWorker panics s s' : worker_step panics s = Some s' -> sink_step s s'
| SCall s : sink_step s (call_close s)
| SClose i late s s' : close_step i late s = Some s' -> sink_step s s'.
End Buffer.

(** The two buffers of the proxy. *)
Definition alert_buffer_new : Z -> BufferedSink string := sink_new.
Definition mark_fired : string -> BufferedSink string -> BufferedSink string := emit.
Definition alert_writer : bool -> BufferedSink string -> option (BufferedSink string) := worker_step.
Definition alert_send_until (i : nat) (m : Message string) : Closer -> bool -> BufferedSink string -> BufferedSink string := send_control i m.
Definition alert_close : nat -> bool -> BufferedSink string -> option (BufferedSink string) := close_step.

(** ** The sink in memory *)

Definition DEFAULT_MEMORY_SINK_CAPACITY : Z := 10000.
Record InMemorySink := MkMemory { me_events : list UsageEvent; me_capacity : Z; me_dropped : Z }.
Definition with_capacity (capacity : Z) : InMemorySink := MkMemory [] (Z.max capacity 1) 0.
Definition memory_new : InMemorySink := with_capacity DEFAULT_MEMORY_SINK_CAPACITY.
Definition memory_emit (m : InMemorySink) (event : UsageEvent) : InMemorySink :=
  let evicted := me_capacity m <=? Z.of_nat (length (me_events m)) in
  MkMemory ((if evicted then drop 1 (me_events m) else me_events m) ++ [event]) (me_capacity m)
    (if evicted then wadd (me_dropped m) 1 else me_dropped m).

(** ** What a buffer keeps *)

Section Props.
Context {T : Type}.
Implicit Types (s : BufferedSink T) (e : T).

Definition is_control (m : Message T) : bool := match m with MEvent _ => false | _ => true end.
(** Accepted and not yet claimed, in order. *)
Definition unclaimed s : list T := (match sk_worker s with WkReceived e => [e] | _ => [] end) ++ events_of (sk_channel s).
Definition calling s : bool := match sk_worker s with WkCalling _ => true | _ => false end.
Definition ended s : bool := match sk_worker s with WkEnded _ => true | _ => false end.

Record sink_inv (capacity : Z) s : Prop := {
  si_capacity : bs_capacity (sk_counts s) = Z.max capacity 1;
  si_order : sk_accepted s = sk_called s ++ unclaimed s ++ sk_abandoned s;
  si_abandoned : sk_abandoned s <> [] -> ended s = true;
  si_queued : bs_queued (sk_counts s) = Z.of_nat (length (unclaimed s)) /\ bs_queued (sk_counts s) <= Z.max capacity 1;
  si_channel : Z.of_nat (length (sk_channel s)) <= Z.max capacity 1;
  si_in_flight : bs_in_flight (sk_counts s) = if calling s then 1 else 0;
  si_dropped : bs_dropped (sk_counts s) = (Z.of_nat (length (sk_refused s)) + Z.of_nat (length (sk_abandoned s))) mod u64_mod;
  si_receiver : sk_receiver s = negb (ended s) /\ (ended s = true -> sk_channel s = []);
  (** Nothing is accepted behind a control message. *)
  si_shape : exists es cs, sk_channel s = (MEvent <$> es) ++ cs /\ Forall (fun m => is_control m = true) cs;
  si_control : Exists (fun m => is_control m = true) (sk_channel s) -> sk_closed s = true;
  (** After an acknowledged flush. *)
  si_drained : sk_acks s <> [] -> sk_closed s = true /\ unclaimed s = [] /\ sk_abandoned s = [] /\ calling s = false /\ sk_worker s <> WkEnded true;
  si_shutdown : In MShutdown (sk_channel s) \/ sk_worker s = WkEnded false \/ sk_worker_handle s = false -> sk_acks s <> [];
  si_joining : forall i, sk_closers s !! i = Some ClJoining -> In MShutdown (sk_channel s) \/ ended s = true;
  si_taking : forall i, sk_closers s !! i = Some ClTaking -> In MShutdown (sk_channel s) \/ ended s = true;
  si_closers : forall i c, sk_closers s !! i = Some c -> match c with
    | ClStart | ClReturned false => True
    | ClFlushing | ClWaiting => sk_closed s = true
    | ClStopping | ClTaking | ClJoining | ClReturned true => sk_acks s <> []
    end }.

Lemma events_of_app (l k : list (Message T)) : events_of (l ++ k) = events_of l ++ events_of k.
Proof. apply omap_app. Qed.
Lemma events_of_controls (l : list (Message T)) : Forall (fun m => is_control m = true) l -> events_of l = [].
Proof. induction 1 as [|[e|a|] l Hm _ IH]; done. Qed.
Lemma events_of_events (es : list T) : events_of (MEvent <$> es) = es.
Proof. induction es as [|e es IH]; [done|]. cbn. f_equal. exact IH. Qed.
#[local] Arguments events_of : simpl never.
Lemma control_first (es : list T) cs m rest : (MEvent <$> es) ++ cs = m :: rest -> is_control m = true ->
  Forall (fun m => is_control m = true) cs -> Forall (fun m => is_control m = true) rest.
Proof.
  destruct es as [|e es]; cbn; [intros -> _ Hc; by inversion Hc|]. intros [= <- _]. done.
Qed.
Lemma events_before (es : list T) cs e rest : (MEvent <$> es) ++ cs = MEvent e :: rest ->
  Forall (fun m => is_control m = true) cs -> exists es', rest = (MEvent <$> es') ++ cs.
Proof.
  destruct es as [|e' es]; cbn; [intros -> Hc; inversion Hc; done|]. intros [= _ <-] _. by exists es.
Qed.
Lemma wadd_mod a b : wadd (a mod u64_mod) b = (a + b) mod u64_mod.
Proof. unfold wadd. by rewrite Zplus_mod_idemp_l. Qed.

Lemma new_inv capacity : sink_inv capacity (sink_new (T := T) capacity).
Proof.
  unfold sink_new. split; cbn; try done; try lia.
  - split; [done|lia].
  - exists [], []. by split.
  - intros Hx. by inversion Hx.
  - by intros [?|[?|?]].
Qed.

(** Refusing changes the count of what was dropped. *)
Lemma refuse_inv capacity e s : sink_inv capacity s -> sink_inv capacity (refuse e (set_counts (note_dropped 1 (sk_counts s)) s)).
Proof.
  intros [? ? ? ? ? ? Hd ? ? ? ? ? ? ? ?]. split; try done. cbn. rewrite Hd, wadd_mod, length_app. cbn. f_equal. lia.
Qed.
Lemma emit_inv capacity e s : sink_inv capacity s -> sink_inv capacity (emit e s).
Proof.
  intros Hi. unfold emit. destruct (sk_closed s) eqn:Hcl; [by apply refuse_inv|]. cbn [orb].
  destruct (Z.leb_spec (bs_capacity (sk_counts s)) (bs_queued (sk_counts s))) as [|Hlt]; [by apply refuse_inv|].
  unfold try_send. destruct (sk_receiver s) eqn:Hr; cbn [negb]; [|by apply refuse_inv].
  destruct (Z.ltb_spec (Z.of_nat (length (sk_channel s))) (bs_capacity (sk_counts s))) as [Hlen|]; [|by apply refuse_inv].
  destruct Hi as [Hcap Hord Hab [Hq Hqle] Hch Hfl Hdr [Hrx Hrc] (es & cs & Hsh & Hcs) Hctl Hdra Hshut Hjo Hta Hclo].
  assert (cs = []) as ->.
  { destruct cs as [|m cs]; [done|]. rewrite Hctl in Hcl; [done|]. rewrite Hsh. apply Exists_app. right. inversion Hcs; subst. by left. }
  rewrite app_nil_r in Hsh. assert (He : ended s = false) by (destruct (ended s); [by rewrite Hrx in Hr|done]).
  assert (Ha : sk_abandoned s = []) by (destruct (sk_abandoned s); [done|by rewrite Hab in He]).
  unfold unclaimed in *. split; cbn; try done.
  - rewrite Hord, Ha, events_of_app, !app_nil_r. by rewrite !app_assoc.
  - rewrite events_of_app, app_assoc, length_app. change (length (events_of [MEvent e])) with 1%nat. split; lia.
  - rewrite length_app. cbn. lia.
  - change (sk_receiver s = negb (ended s) /\ (ended s = true -> sk_channel s ++ [MEvent e] = [])). rewrite Hr, He. by split.
  - exists (es ++ [e]), []. split; [|done]. by rewrite Hsh, fmap_app, app_nil_r.
  - intros H%Exists_exists. destruct H as (m & Hm & Hc). rewrite Hsh in Hm. apply elem_of_app in Hm as [Hm|Hm].
    + apply list_elem_of_fmap in Hm as (? & -> & _). done.
    + apply list_elem_of_singleton in Hm as ->. done.
  - intros H. destruct (Hdra H) as (Hx & _). congruence.
  - rewrite in_app_iff. intros H. apply Hshut. destruct H as [[H|[H|[]]]|H]; [by left|done|by right].
  - intros i Hc. rewrite in_app_iff. destruct (Hjo i Hc); [by left; left|by right].
  - intros i Hc. rewrite in_app_iff. destruct (Hta i Hc); [by left; left|by right].
Qed.

(** The worker. *)
Ltac inv_parts := intros [Hcap Hord Hab [Hq Hqle] Hch Hfl Hdr [Hrx Hrc] (es & cs & Hsh & Hcs) Hctl Hdra Hshut Hjo Hta Hclo].
Lemma In_tail (m m' : Message T) rest : In m' (m :: rest) -> m <> m' -> In m' rest.
Proof. by intros [?|?]. Qed.
Lemma receive_event_inv capacity e rest s : sink_inv capacity s -> sk_worker s = WkReceiving -> sk_channel s = MEvent e :: rest ->
  sink_inv capacity (set_worker (WkReceived e) (set_channel rest s)).
Proof.
  inv_parts. intros Hw Hc. assert (Hu : unclaimed s = e :: events_of rest) by (unfold unclaimed; by rewrite Hw, Hc).
  assert (Hacks : sk_acks s = []) by (destruct (sk_acks s); [done|]; destruct Hdra as (_ & Hn & _); [done|by rewrite Hu in Hn]).
  assert (He : ended s = false) by (unfold ended; by rewrite Hw). assert (Hk : calling s = false) by (unfold calling; by rewrite Hw).
  rewrite Hc in *. rewrite He in *. rewrite Hk in *. split; cbn; try done.
  - change (unclaimed (set_worker (WkReceived e) (set_channel rest s))) with (e :: events_of rest). by rewrite Hord, Hu.
  - rewrite Hu in Hq. by split.
  - cbn in Hch. lia.
  - destruct (events_before _ _ _ _ (eq_sym Hsh) Hcs) as (es' & ->). by exists es', cs.
  - intros H. apply Hctl. by right.
  - intros [H|[H|H]]; [|done|]; apply Hshut; [by left; right|by right; right].
  - intros i H. left. destruct (Hjo i H) as [H'|H']; [by eapply In_tail|done].
  - intros i H. left. destruct (Hta i H) as [H'|H']; [by eapply In_tail|done].
Qed.
Lemma receive_flush_inv capacity a rest s : sink_inv capacity s -> sk_worker s = WkReceiving -> sk_channel s = MFlush a :: rest ->
  sink_inv capacity (note_ack a (set_channel rest s)).
Proof.
  inv_parts. intros Hw Hc. rewrite Hc in Hsh. pose proof (control_first _ _ _ _ (eq_sym Hsh) eq_refl Hcs) as Hctrl.
  assert (Hu : unclaimed s = []) by (unfold unclaimed; rewrite Hw, Hc; exact (events_of_controls _ Hctrl)).
  assert (Hu' : unclaimed (note_ack a (set_channel rest s)) = []) by (unfold unclaimed; cbn; rewrite Hw; exact (events_of_controls _ Hctrl)). unfold unclaimed in Hu'. cbn in Hu'.
  assert (He : ended s = false) by (unfold ended; by rewrite Hw). assert (Hk : calling s = false) by (unfold calling; by rewrite Hw).
  assert (Hcl : sk_closed s = true) by (apply Hctl; rewrite Hc; by left).
  assert (Ha : sk_abandoned s = []) by (destruct (sk_abandoned s); [done|]; rewrite He in Hab; by specialize (Hab ltac:(done))).
  split; cbn; try done.
  - by rewrite Hu', Hord, Hu.
  - rewrite Hu'. by rewrite Hu in Hq.
  - rewrite Hc in Hch. cbn in Hch. lia.
  - split; [done|]. intros H. change (ended s = true) in H. congruence.
  - exists [], rest. by split.
  - intros _. split; [done|]. split; [done|]. split; [done|]. split; [done|]. by rewrite Hw.
  - intros i H. left. destruct (Hjo i H) as [H'|H']; [rewrite Hc in H'; by eapply In_tail|congruence].
  - intros i H. left. destruct (Hta i H) as [H'|H']; [rewrite Hc in H'; by eapply In_tail|congruence].
  - intros i c H. specialize (Hclo i c H). by destruct c as [| | | | | |[]].
Qed.
Lemma receive_shutdown_inv capacity rest s : sink_inv capacity s -> sk_worker s = WkReceiving -> sk_channel s = MShutdown :: rest ->
  sink_inv capacity (set_worker (WkEnded false) (drop_receiver (set_channel rest s))).
Proof.
  inv_parts. intros Hw Hc. rewrite Hc in Hsh. pose proof (control_first _ _ _ _ (eq_sym Hsh) eq_refl Hcs) as Hctrl.
  assert (Hin : In MShutdown (sk_channel s)) by (rewrite Hc; by left).
  destruct (Hdra (Hshut (or_introl Hin))) as (Hcl & Hu & Ha & Hk & _).
  split; cbn; try done.
  - by rewrite Ha, (events_of_controls _ Hctrl), Hord, Hu, Ha.
  - rewrite Hu in Hq. by split.
  - lia.
  - by rewrite Hk in Hfl.
  - by rewrite Ha, (events_of_controls _ Hctrl), Hdr, Ha.
  - exists [], []. by split.
  - intros _. split; [done|]. split; [done|]. split; [by rewrite Ha, (events_of_controls _ Hctrl)|]. by split.
  - intros _. apply Hshut. by left.
  - by right.
  - by right.
Qed.
Lemma claim_inv capacity e s : sink_inv capacity s -> sk_worker s = WkReceived e ->
  sink_inv capacity (set_worker (WkCalling e) (note_call e (set_counts (note_claimed (sk_counts s)) s))).
Proof.
  inv_parts. intros Hw. assert (Hu : unclaimed s = e :: events_of (sk_channel s)) by (unfold unclaimed; by rewrite Hw).
  assert (Hacks : sk_acks s = []) by (destruct (sk_acks s); [done|]; destruct Hdra as (_ & Hn & _); [done|by rewrite Hu in Hn]).
  assert (He : ended s = false) by (unfold ended; by rewrite Hw). assert (Hk : calling s = false) by (unfold calling; by rewrite Hw).
  rewrite He in *. rewrite Hk in *. split; cbn; try done.
  - change (sk_accepted s = (sk_called s ++ [e]) ++ events_of (sk_channel s) ++ sk_abandoned s). by rewrite Hord, Hu, <- app_assoc.
  - change (bs_queued (sk_counts s) - 1 = Z.of_nat (length (events_of (sk_channel s))) /\ bs_queued (sk_counts s) - 1 <= capacity `max` 1).
    rewrite Hu in Hq. cbn in Hq. lia.
  - rewrite Hfl. done.
  - by exists es, cs.
  - intros [H|[H|H]]; [|done|]; apply Hshut; [by left|by right; right].
Qed.
Lemma returned_inv capacity e s : sink_inv capacity s -> sk_worker s = WkCalling e ->
  sink_inv capacity (set_worker WkReceiving (set_counts (note_returned (sk_counts s)) s)).
Proof.
  inv_parts. intros Hw. assert (Hu : unclaimed s = events_of (sk_channel s)) by (unfold unclaimed; by rewrite Hw).
  assert (He : ended s = false) by (unfold ended; by rewrite Hw). assert (Hk : calling s = true) by (unfold calling; by rewrite Hw).
  assert (Hacks : sk_acks s = []) by (destruct (sk_acks s); [done|]; destruct Hdra as (_ & _ & _ & Hn & _); [done|congruence]).
  rewrite He in *. rewrite Hk in *. split; cbn; try done.
  - change (sk_accepted s = sk_called s ++ events_of (sk_channel s) ++ sk_abandoned s). by rewrite Hord, Hu.
  - change (bs_queued (sk_counts s) = Z.of_nat (length (events_of (sk_channel s))) /\ bs_queued (sk_counts s) <= capacity `max` 1). by rewrite <- Hu.
  - rewrite Hfl. done.
  - by exists es, cs.
  - intros [H|[H|H]]; [|done|]; apply Hshut; [by left|by right; right].
Qed.
Lemma panicked_inv capacity e s : sink_inv capacity s -> sk_worker s = WkCalling e ->
  sink_inv capacity (set_worker (WkEnded true) (drop_receiver (set_counts (note_panicked (sk_counts s)) s))).
Proof.
  inv_parts. intros Hw. assert (Hu : unclaimed s = events_of (sk_channel s)) by (unfold unclaimed; by rewrite Hw).
  assert (He : ended s = false) by (unfold ended; by rewrite Hw). assert (Hk : calling s = true) by (unfold calling; by rewrite Hw).
  assert (Hacks : sk_acks s = []) by (destruct (sk_acks s); [done|]; destruct Hdra as (_ & _ & _ & Hn & _); [done|congruence]).
  assert (Ha : sk_abandoned s = []) by (destruct (sk_abandoned s); [done|]; rewrite He in Hab; by specialize (Hab ltac:(done))).
  rewrite He in *. rewrite Hk in *. split; cbn; try done.
  - by rewrite Ha, Hord, Hu, Ha, !app_nil_r.
  - split; [done|lia].
  - lia.
  - rewrite Hfl. done.
  - rewrite Ha, Hdr, wadd_mod, Ha, Hq, Hu. cbn. f_equal. lia.
  - exists [], []. by split.
  - by intros Hx; inversion Hx.
  - intros [[]|[H|H]]; [done|]. apply Hshut. by right; right.
  - by right.
  - by right.
Qed.
Lemma worker_inv capacity panics s s' : sink_inv capacity s -> worker_step panics s = Some s' -> sink_inv capacity s'.
Proof.
  intros Hi. unfold worker_step. destruct (sk_worker s) as [|e|e|p] eqn:Hw; [destruct (sk_channel s) as [|[e|a|] rest] eqn:Hc| | |done].
  - done.
  - intros [= <-]. by apply receive_event_inv.
  - intros [= <-]. by eapply receive_flush_inv.
  - intros [= <-]. by apply receive_shutdown_inv.
  - intros [= <-]. by apply claim_inv.
  - destruct panics; intros [= <-]; [by eapply panicked_inv|by eapply returned_inv].
Qed.

(** The callers of [close]. *)
Definition closer_ok s (c : Closer) : Prop :=
  match c with
  | ClStart | ClReturned false => True
  | ClFlushing | ClWaiting => sk_closed s = true
  | ClStopping | ClReturned true => sk_acks s <> []
  | ClTaking | ClJoining => sk_acks s <> [] /\ (In MShutdown (sk_channel s) \/ ended s = true)
  end.
Lemma set_closer_inv capacity i c s : sink_inv capacity s -> closer_ok s c -> sink_inv capacity (set_closer i c s).
Proof.
  inv_parts. intros Hc. split; try done.
  - by exists es, cs.
  - intros j Hj. cbn in Hj. apply list_lookup_insert_Some in Hj as [(_ & Hd & _)|(_ & Hj)]; [subst c; apply Hc|exact (Hjo j Hj)].
  - intros j Hj. cbn in Hj. apply list_lookup_insert_Some in Hj as [(_ & Hd & _)|(_ & Hj)]; [subst c; apply Hc|exact (Hta j Hj)].
  - intros j d Hj. cbn in Hj. apply list_lookup_insert_Some in Hj as [(_ & <- & _)|(_ & Hj)]; [|exact (Hclo j d Hj)].
    destruct c as [| | | | | |[]]; cbn in *; tauto.
Qed.
Lemma closer_known capacity i c s : sink_inv capacity s -> sk_closers s !! i = Some c -> closer_ok s c.
Proof.
  inv_parts. intros Hi. pose proof (Hclo i c Hi). destruct c as [| | | | | |[]]; cbn; try done; (split; [done|]); eauto.
Qed.
Lemma push_control_inv capacity m s : sink_inv capacity s -> is_control m = true -> sk_closed s = true -> sk_receiver s = true ->
  (m = MShutdown -> sk_acks s <> []) -> Z.of_nat (length (sk_channel s)) < bs_capacity (sk_counts s) ->
  sink_inv capacity (set_channel (sk_channel s ++ [m]) s).
Proof.
  inv_parts. intros Hm Hcl Hr Hsd Hlen. assert (He : events_of (sk_channel s ++ [m]) = events_of (sk_channel s)).
  { rewrite events_of_app. destruct m; [done|..]; apply app_nil_r. }
  assert (Hu : unclaimed (set_channel (sk_channel s ++ [m]) s) = unclaimed s) by (unfold unclaimed; cbn; by rewrite He).
  split; try done.
  - by rewrite Hu.
  - by rewrite Hu.
  - cbn. rewrite length_app. cbn. lia.
  - split; [done|]. intros H. change (ended s = true) in H. by rewrite H, Hr in Hrx.
  - exists es, (cs ++ [m]). cbn. rewrite Hsh, app_assoc. split; [done|]. apply Forall_app. split; [done|]. by constructor.
  - rewrite Hu. done.
  - cbn. rewrite in_app_iff. intros [[H|[H|[]]]|H]; [apply Hshut; by left|by apply Hsd|apply Hshut; by right].
  - intros j Hj. cbn. rewrite in_app_iff. destruct (Hjo j Hj); [by left; left|by right].
  - intros j Hj. cbn. rewrite in_app_iff. destruct (Hta j Hj); [by left; left|by right].
Qed.
Lemma send_control_inv capacity i m sent late s : sink_inv capacity s -> is_control m = true -> sk_closed s = true ->
  (m = MShutdown -> sk_acks s <> []) -> (In m (sk_channel (set_channel (sk_channel s ++ [m]) s)) -> closer_ok (set_channel (sk_channel s ++ [m]) s) sent) ->
  sink_inv capacity (send_control i m sent late s).
Proof.
  intros Hi Hm Hcl Hsd Hs. unfold send_control, try_send. destruct (sk_receiver s) eqn:Hr; cbn [negb]; [|by apply set_closer_inv].
  destruct (Z.ltb_spec (Z.of_nat (length (sk_channel s))) (bs_capacity (sk_counts s))); [|destruct late; [by apply set_closer_inv|done]].
  apply set_closer_inv; [by apply push_control_inv|]. apply Hs. cbn. apply in_app_iff. right. by left.
Qed.
Lemma close_inv capacity i late s s' : sink_inv capacity s -> close_step i late s = Some s' -> sink_inv capacity s'.
Proof.
  intros Hi. unfold close_step. destruct (sk_closers s !! i) as [c|] eqn:Hc; [|done]. pose proof (closer_known _ _ _ _ Hi Hc) as Hk.
  destruct c as [| | | | | |d]; cbn in Hk.
  - destruct (sk_closed s) eqn:Hcl; intros [= <-].
    + apply set_closer_inv; [done|]. destruct (sk_worker_handle s) eqn:Hh; cbn; [done|]. apply (si_shutdown _ _ Hi). by right; right.
    + apply set_closer_inv; [|done]. destruct Hi as [? ? ? ? ? ? ? ? ? ? Hd ? ? ? Hcl']. split; try done.
      * intros H. split; [done|]. exact (proj2 (Hd H)).
      * intros j c Hj. specialize (Hcl' j c Hj). by destruct c as [| | | | | |[]].
  - intros [= <-]. by apply send_control_inv.
  - destruct (bool_decide (i ∈ sk_acks s) && negb late) eqn:Ha.
    + intros [= <-]. apply andb_true_iff in Ha as [Ha%bool_decide_eq_true _]. apply set_closer_inv; [done|]. cbn. intros Hx. rewrite Hx in Ha. by apply elem_of_nil in Ha.
    + destruct (late || negb (sk_receiver s)); [|done]. intros [= <-]. by apply set_closer_inv.
  - intros [= <-]. destruct (si_drained _ _ Hi Hk) as (Hcl & _). apply send_control_inv; [done..|]. intros Hin. split; [done|by left].
  - destruct Hk as [Hk Hin]. destruct (sk_worker_handle s) eqn:Hh; intros [= <-]; apply set_closer_inv; try done.
    destruct Hi as [? ? ? ? ? ? ? ? ? ? ? Hsh ? ? ?]. by split.
  - destruct (sk_worker s) as [| | |p]; [done..|]. intros [= <-]. apply set_closer_inv; [done|]. destruct p; cbn; [done|apply Hk].
  - done.
Qed.
Lemma sink_step_inv capacity s s' : sink_step s s' -> sink_inv capacity s -> sink_inv capacity s'.
Proof.
  intros Hst Hi. destruct Hst as [e s|p s s' Hs|s|i late s s' Hs]; [by apply emit_inv|by eapply worker_inv| |by eapply close_inv].
  revert Hi. inv_parts. split; try done.
  - by exists es, cs.
  - intros i H. cbn in H. apply lookup_snoc_Some in H as [[_ H]|[_ H]]; [exact (Hjo i H)|done].
  - intros i H. cbn in H. apply lookup_snoc_Some in H as [[_ H]|[_ H]]; [exact (Hta i H)|done].
  - intros i c H. cbn in H. apply lookup_snoc_Some in H as [[_ H]|[_ <-]]; [exact (Hclo i c H)|done].
Qed.
Lemma steps_inv capacity s : rtc sink_step (sink_new capacity) s -> sink_inv capacity s.
Proof.
  intros H. remember (sink_new capacity) as s0 eqn:E. assert (Hi : sink_inv capacity s0) by (subst; apply new_inv). clear E.
  induction H; eauto using sink_step_inv.
Qed.

(** The buffer accounts for every event, in order.  However emitters, the
    worker and the callers of [close] interleave, and wherever the callback
    panics: what was accepted was handed to the callback first, then waits,
    then was abandoned; the counters are those of the queue, of the callback
    that runs and of what was refused or abandoned; and the queue keeps to
    its capacity. *)
Theorem buffer_accounts_for_every_event capacity s : rtc sink_step (sink_new capacity) s ->
  sk_accepted s = sk_called s ++ unclaimed s ++ sk_abandoned s
  /\ bs_queued (sk_counts s) = Z.of_nat (length (unclaimed s)) /\ bs_queued (sk_counts s) <= Z.max capacity 1
  /\ Z.of_nat (length (sk_channel s)) <= Z.max capacity 1
  /\ bs_in_flight (sk_counts s) = (if calling s then 1 else 0)
  /\ bs_dropped (sk_counts s) = (Z.of_nat (length (sk_refused s)) + Z.of_nat (length (sk_abandoned s))) mod u64_mod
  /\ (sk_abandoned s <> [] -> sk_worker s = WkEnded true).
Proof.
  intros Hs. pose proof (steps_inv _ _ Hs) as Hi. revert Hi. inv_parts. repeat (split; [done|]).
  intros Ha. pose proof (Hab Ha) as He. unfold ended in He. destruct (sk_worker s) as [| | |[]] eqn:Hw; try done.
  exfalso. apply Ha. destruct (Hdra (Hshut (or_intror (or_introl eq_refl)))) as (_ & _ & Hx & _). done.
Qed.

Lemma closed_keeps s s' : sink_step s s' -> sk_closed s = true -> sk_closed s' = true /\ sk_accepted s' = sk_accepted s.
Proof.
  intros Hst Hc. destruct Hst as [e s|p s s' Hs|s|i late s s' Hs].
  - unfold emit. by rewrite Hc.
  - unfold worker_step in Hs. repeat case_match; by simplify_eq.
  - done.
  - unfold close_step, send_control, try_send in Hs. rewrite Hc in Hs. repeat case_match; by simplify_eq.
Qed.
Lemma acks_keep s s' : sink_step s s' -> sk_acks s <> [] -> sk_acks s' <> [].
Proof.
  intros Hst Hc. destruct Hst as [e s|p s s' Hs|s|i late s s' Hs].
  - unfold emit, try_send. destruct (sk_closed s || _); [done|]. destruct (negb (sk_receiver s)); [done|]. by destruct (_ <? _).
  - unfold worker_step in Hs. repeat case_match; by simplify_eq.
  - done.
  - unfold close_step, send_control, try_send in Hs. repeat case_match; by simplify_eq.
Qed.
Lemma drained_stays capacity s s' : rtc sink_step s s' -> sink_inv capacity s -> sk_acks s <> [] ->
  sink_inv capacity s' /\ sk_acks s' <> [] /\ sk_accepted s' = sk_accepted s.
Proof.
  induction 1 as [|x y z Hxy _ IH]; [done|]. intros Hi Hk. destruct (si_drained _ _ Hi Hk) as (Hcl & _).
  destruct (closed_keeps _ _ Hxy Hcl) as [_ <-]. apply IH; [by eapply sink_step_inv|by eapply acks_keep].
Qed.
(** A drained buffer lost nothing.  When some call of [close] has answered
    that the buffer is drained, every event accepted before or after, by any
    thread, has been handed to the callback, which has returned, in the order
    of acceptance; nothing was abandoned; and this stays so for ever. *)
Theorem drained_buffer_lost_nothing capacity s s' i : rtc sink_step (sink_new capacity) s ->
  sk_closers s !! i = Some (ClReturned true) -> rtc sink_step s s' ->
  sk_called s' = sk_accepted s /\ sk_accepted s' = sk_accepted s /\ sk_abandoned s' = []
  /\ bs_queued (sk_counts s') = 0 /\ bs_in_flight (sk_counts s') = 0
  /\ bs_dropped (sk_counts s') = Z.of_nat (length (sk_refused s')) mod u64_mod.
Proof.
  intros Hs Hr Hs'. assert (Hacks : sk_acks s <> []) by exact (closer_known _ _ _ _ (steps_inv _ _ Hs) Hr).
  destruct (drained_stays _ _ _ Hs' (steps_inv _ _ Hs) Hacks) as (Hi & Hk & Ha).
  destruct (si_drained _ _ Hi Hk) as (_ & Hu & Hab & Hc & _). destruct (si_queued _ _ Hi) as [Hq _].
  pose proof (si_order _ _ Hi) as Ho. pose proof (si_in_flight _ _ Hi) as Hf. pose proof (si_dropped _ _ Hi) as Hd.
  rewrite Hu, Hab, !app_nil_r in Ho. rewrite Hu in Hq. rewrite Hc in Hf. rewrite Hab, Z.add_0_r in Hd. rewrite <- Ha. done.
Qed.

Definition closer_rank (c : Closer) : nat :=
  match c with ClStart => 6 | ClFlushing => 5 | ClWaiting => 4 | ClStopping => 3 | ClTaking => 2 | ClJoining => 1 | ClReturned _ => 0 end.
(** [close] keeps its deadline although the inner sink hangs.  Past its
    deadline each step of a call brings it nearer to its answer, and a step
    is always possible, but for the join: it waits for a worker that is not
    in the callback, has nothing to hand to it and can go on by itself. *)
Theorem close_keeps_its_deadline capacity s i c : rtc sink_step (sink_new capacity) s ->
  sk_closers s !! i = Some c -> (0 < closer_rank c)%nat ->
  match close_step i true s with
  | Some s' => exists c', sk_closers s' !! i = Some c' /\ (closer_rank c' < closer_rank c)%nat
  | None => c = ClJoining /\ calling s = false /\ unclaimed s = [] /\ is_Some (worker_step false s)
  end.
Proof.
  intros Hs Hc Hr. pose proof (steps_inv _ _ Hs) as Hi. pose proof (closer_known _ _ _ _ Hi Hc) as Hk.
  assert (Hset : forall d (x : BufferedSink T), sk_closers x = sk_closers s -> (closer_rank d < closer_rank c)%nat ->
    exists c', sk_closers (set_closer i d x) !! i = Some c' /\ (closer_rank c' < closer_rank c)%nat).
  { intros d x Hx Hd. exists d. cbn. rewrite Hx. split; [|done]. apply list_lookup_insert_eq. by eapply lookup_lt_Some. }
  unfold close_step, send_control, try_send. rewrite Hc. destruct c; cbn in Hr; [..|lia].
  - destruct (sk_closed s); (apply Hset; [done|cbn; lia]).
  - destruct (negb _); [|destruct (_ <? _)]; (apply Hset; [done|cbn; lia]).
  - rewrite andb_false_r. cbn [orb]. apply Hset; [done|cbn; lia].
  - destruct (negb _); [|destruct (_ <? _)]; (apply Hset; [done|cbn; lia]).
  - destruct (sk_worker_handle s); (apply Hset; [done|cbn; lia]).
  - destruct Hk as [Hk Hin]. destruct (si_drained _ _ Hi Hk) as (_ & Hu & _ & Hca & _).
    destruct (sk_worker s) as [|e|e|p] eqn:Hw.
    + split; [done|]. split; [done|]. split; [done|]. unfold worker_step. rewrite Hw.
      destruct Hin as [Hin|Hin]; [|unfold ended in Hin; by rewrite Hw in Hin]. destruct (sk_channel s) as [|[] ?]; [by destruct Hin|by eexists..].
    + unfold unclaimed in Hu. by rewrite Hw in Hu.
    + unfold calling in Hca. by rewrite Hw in Hca.
    + apply Hset; [done|cbn; lia].
Qed.
End Props.

(** The sink in memory keeps the newest events and counts the others. *)
Theorem memory_keeps_the_newest capacity es :
  let m := foldl memory_emit (with_capacity capacity) es in
  let kept := Z.to_nat (Z.max capacity 1) in
  me_events m = drop (length es - kept) es /\ (length (me_events m) <= kept)%nat
  /\ me_dropped m = Z.of_nat (length es - kept) mod u64_mod.
Proof.
  cbv zeta. set (kept := Z.to_nat (Z.max capacity 1)).
  assert (Hk : (0 < kept)%nat) by (unfold kept; lia). assert (Hc : Z.of_nat kept = Z.max capacity 1) by (unfold kept; lia).
  assert (H : me_events (foldl memory_emit (with_capacity capacity) es) = drop (length es - kept) es
    /\ me_dropped (foldl memory_emit (with_capacity capacity) es) = Z.of_nat (length es - kept) mod u64_mod
    /\ me_capacity (foldl memory_emit (with_capacity capacity) es) = Z.max capacity 1).
  { induction es as [|e es IH] using rev_ind; [by cbn|]. rewrite foldl_app. cbn [foldl].
    destruct IH as (He & Hd & Hm). unfold memory_emit at 1 3 5. rewrite He, Hd, Hm, length_drop, length_app. cbn [length me_events me_dropped me_capacity].
    destruct (Z.leb_spec (Z.max capacity 1) (Z.of_nat (length es - (length es - kept)))) as [Hle|Hlt].
    - rewrite drop_drop. replace (length es + 1 - kept)%nat with (length es - kept + 1)%nat by lia. rewrite wadd_mod.
      rewrite drop_app_le by lia. split; [done|]. split; [f_equal; lia|done].
    - replace (length es - kept)%nat with 0%nat by lia. replace (length es + 1 - kept)%nat with 0%nat by lia. done. }
  destruct H as (-> & -> & _). split; [done|]. split; [rewrite length_drop; lia|done].
Qed.

(** ** Instances *)

Inductive SinkOp := OEmit (e : Z) | OWorker (panics : bool) | OCall | OClose (i : nat) (late : bool).
Definition do_op (s : BufferedSink Z) (o : SinkOp) : option (BufferedSink Z) :=
  match o with
  | OEmit e => Some (emit e s)
  | OWorker panics => worker_step panics s
  | OCall => Some (call_close s)
  | OClose i late => close_step i late s
  end.
Fixpoint do_ops (s : BufferedSink Z) (os : list SinkOp) : option (BufferedSink Z) :=
  match os with [] => Some s | o :: os => s ← do_op s o; do_ops s os end.
Lemma do_ops_steps os : forall s s', do_ops s os = Some s' -> rtc sink_step s s'.
Proof.
  induction os as [|o os IH]; intros s s'; cbn; [by intros [= <-]|]. destruct (do_op s o) as [x|] eqn:E; cbn; [|done].
  intros H. eapply rtc_l; [|by apply IH]. destruct o; cbn in E; simplify_eq; by econstructor.
Qed.

(** The third event finds the queue full; two callers close, and the first
    finds the channel full once. *)
Definition full_run : list SinkOp :=
  [OEmit 1; OEmit 2; OEmit 3; OCall; OClose 0 false; OClose 0 false; OEmit 4; OCall; OClose 1 false].
Definition drain_run : list SinkOp :=
  [OWorker false; OClose 0 false; OWorker false; OWorker false; OWorker false; OWorker false; OWorker false; OWorker false;
   OClose 0 false; OClose 0 false; OClose 0 false; OWorker false; OClose 0 false].
Definition full_sink : BufferedSink Z := Eval vm_compute in default (sink_new 2) (do_ops (sink_new 2) full_run).
Definition drained_sink : BufferedSink Z := Eval vm_compute in default full_sink (do_ops full_sink drain_run).

Lemma drained_buffer_lost_nothing_witness :
  sk_closers drained_sink = [ClReturned true; ClReturned false] /\ sk_called (emit 5 drained_sink) = [1; 2]
  /\ sk_abandoned (emit 5 drained_sink) = [].
Proof.
  split; [reflexivity|].
  assert (Hs : rtc sink_step (sink_new 2) drained_sink) by (apply (do_ops_steps (full_run ++ drain_run)); vm_compute; reflexivity).
  destruct (drained_buffer_lost_nothing 2 drained_sink (emit 5 drained_sink) 0%nat Hs eq_refl (rtc_once _ _ (SEmit 5 drained_sink)))
    as (Hc & Ha & Hab & _).
  split; [exact (eq_trans Hc Ha)|exact Hab].
Defined.
Lemma close_keeps_its_deadline_witness : exists s', close_step 0 true full_sink = Some s' /\ sk_closers s' !! 0%nat = Some (ClReturned false).
Proof.
  assert (Hs : rtc sink_step (sink_new 2) full_sink) by (apply (do_ops_steps full_run); vm_compute; reflexivity).
  pose proof (close_keeps_its_deadline 2 full_sink 0%nat ClFlushing Hs eq_refl ltac:(cbn; lia)) as H.
  destruct (close_step 0 true full_sink) as [s'|] eqn:E; [|vm_compute in E; discriminate E].
  exists s'. split; [reflexivity|]. vm_compute in E. injection E as <-. reflexivity.
Defined.
